(* ===== verification/_CoqProject ===== *)
-Q . S2P
Prelude.v
SsList.v
SsRq.v
SsRb.v
SsRbProofs.v
SsRbInsert.v
SsRbWalk.v
SsRbRemove.v
SsRbSpec.v
SsOrder.v
SvLog.v
Sv.v
SsBytes.v
SsBuf.v
SsFilter.v
Sr.v
SsQuota.v
SsSlab.v
SsHt.v
Sf.v
SsCrc.v
SrScheme.v
SvMerge.v
SvMergeProofs.v
SvUpdate.v
SvRead.v
SvWrite.v
SvIndex.v
SvIndexProofs.v
SvIndexIter.v
Sx.v
SxDeadlock.v
SxRuns.v
SxQueue.v
SxIndex.v
SxCommit.v
SxEnd.v
SdPage.v
SdPageIter.v
SdPageRep.v
SdPageKv.v
SdPageSpec.v
SdBuild.v
SdBuildProofs.v
SdBuildKv.v
SdBuildSpec.v
SdIndex.v
SdIndexIter.v
SdIndexBuild.v
SdMerge.v
SdMergeProofs.v
SsFile.v
SdCommit.v
SdIter.v
SiBranch.v
SlIter.v
Sl.v
SlProofs.v
SlDurable.v
SdRecover.v
SiSeek.v
SiRead.v
SiReadProofs.v
SiNode.v
SiCache.v
SiIndex.v
SiPlanner.v
SiWrite.v
SiQuery.v
SiQueryProofs.v
SiStore.v
SdScheme.v
SiScheme.v
