(* ===== verification/Prelude.v ===== *)
(** * Verification of the sophia storage engine (src/deps/sophia/sophia)

    Sophia is the storage engine behind the key-value server of this repository.  It is a
    library of layers, each of which uses the ones below it:

    - std ([ss_*]): intrusive lists, red-black trees, range queues, growing buffers, hash
      tables, variable-length integers, a page pool with slab allocators, the memory quota;
    - format ([sf_*]) and runtime ([sr_*]): the layout of a row, the key scheme and its
      comparison, sequence numbers, zones, the error state;
    - version ([sv_*]): a version of a key ([svv]), the in-memory index of versions, the merge
      of sorted sources, the read and the write iterator over a merge, update statements, the
      log of a transaction;
    - transaction ([sx_*]): the manager of the running transactions, the concurrent index of
      each database, deadlock detection;
    - database, log, index, repository, object and environment ([sd_*], [sl_*], [si_*], [sy_*],
      [so_*], [se_*]): files, pages, the write-ahead log, nodes and branches, the public objects.

    A write goes into the log of its transaction and the concurrent index ([sx_set]); a commit
    takes it out ([sx_commit]) and adds it to the in-memory index ([sv_indexset]); a reader
    merges the in-memory index and the branches on disk and resolves each key to the version
    its snapshot sees ([sv_mergeiter], [sv_readiter]); compaction merges the same sources and
    drops what no snapshot needs ([sv_writeiter]), writing the result into pages ([sd_build]) with
    an index over them ([sd_index], [sd_merge]) that go into a file as a branch ([sd_commit]);
    readers find the page of a key in the index ([sd_indexiter]) and iterate it ([sd_pageiter]),
    compaction reads whole branches ([sd_iter]).  Background work is planned over queues of the
    nodes ([si_planner]).  A lookup finds the node of its key, searches
    the node's indexes in memory ([si_qgetindex]) and then its branches, newest first
    ([si_qgetbranch], through [si_read]); opening a node finds its branches in its file again
    ([sd_recovernext]).  The development covers std, format, runtime, version, transaction, the
    database layer, branches and their recovery, writes to an index and lookups, its planner, and the write-ahead
    log ([sl_write], and [sl_iter] that reads it at recovery).

    ** Files

    - [Prelude]: machine integers, the monad of partial stateful code with its weakest
      precondition [wp], loops, list lemmas.
    - [SsList] std/ss_list.h; [SsRq] std/ss_rq.h; [SsBytes] std/ss_leb128.h, std/ss_hash.h and
      blocks of bytes; [SsBuf] std/ss_buf.h, std/ss_bufiter.h, std/ss_a.h; [SsHt] std/ss_ht.h;
      [SsFilter] std/ss_filter.h, std/ss_nonefilter.c; [SsCrc] std/ss_crc.c; [SsQuota]
      std/ss_quota.c; [SsSlab] std/ss_pager.c, std/ss_slaba.c; [SsOrder]
      std/ss_order.h, std/ss_type.h.
    - [SsRb] std/ss_rb.h, std/ss_rb.c; [SsRbProofs] (representation of trees, rotations),
      [SsRbInsert], [SsRbWalk], [SsRbRemove] (the operations), [SsRbSpec] (the interface
      [TreeOps]/[TreeLaws] and its instance).
    - [Sf] format/sf.h, format/sf.c; [Sr] runtime/sr_seq.h, sr_zone.h, sr_version.h, sr_error.h;
      [SrScheme] runtime/sr_scheme.h, sr_scheme.c.
    - [Sv] version/sv.h, sv_v.h and the iterator class [SsIter] (std/ss_iter.h); [SvLog]
      version/sv_log.h; [SvIndex] version/sv_index.h, sv_index.c, sv_indexiter.h with
      [SvIndexProofs] and [SvIndexIter]; [SvMerge] version/sv_merge.h, sv_mergeiter.h with
      [SvMergeProofs]; [SvUpdate] version/sv_update.h, [SvRead] sv_readiter.h, [SvWrite]
      sv_writeiter.h.
    - [Sx] transaction/sx.h, sx.c, sx_v.h, sx_deadlock.c; [SxDeadlock] (the search for cycles),
      [SxRuns] (runs that go wrong), [SxQueue], [SxIndex], [SxCommit] (queues of containers and
      the steps that change them), [SxEnd] (prepare, commit, rollback, half commit).
    - [SdPage] database/sd_page.h, sd_v.h, sd_v.c, sd_pagekv.h, sd_pageiter.h; [SdPageIter] (the
      iterator against an abstract view of a page), [SdPageRep] and [SdPageKv] (pages of the raw
      and of the key-value format as blocks of bytes, which give that view), [SdPageSpec].
      [SdBuild] database/sd_build.h, sd_build.c; [SdBuildProofs], [SdBuildKv] (storing a version
      in either format), [SdBuildSpec] (whole pages).
    - [SdIndex] database/sd_index.h, sd_index.c, sd_indexiter.h, sd_id.h, sd_seal.h;
      [SdIndexIter] (the search and the walk over an index), [SdIndexBuild] (building one).
      [SdMerge] database/sd_merge.h, sd_merge.c with [SdMergeProofs]; [SsFile] std/ss_file.h,
      ss_file.c, ss_iov.h; [SdCommit] database/sd_commit.c; [SdIter] database/sd_iter.h;
      [SiBranch] index/si_branch.h and [si_branchcreate] of index/si_balance.c.
    - [SdRecover] database/sd_recover.c, std/ss_mmap.h, ss_mmap.c and the opening of a node of
      index/si_node.c; [SiSeek] (the pages on a side of a key), [SiRead] index/si_read.h,
      si_read.c with [SiReadProofs]; [SdScheme] database/sd_scheme.h, sd_scheme.c, sd_schemeiter.h
      and the opening of files of std/ss_file.c; [SiScheme] index/si_scheme.h, si_scheme.c; [SiNode] index/si_node.h; [SiCache] index/si_cache.h;
      [SiIndex] index/si.h, si.c, si_iter.h; [SiPlanner] index/si_planner.h, si_planner.c;
      [SiWrite] index/si_write.h, si_write.c; [SiQuery] the lookup of index/si_query.c, with
      [SiQueryProofs]; [SiStore] (an index against an abstract store).
    - [SlIter] log/sl_v.h, sl_v.c, sl_iter.c and the loop of [se_recoverlog] of
      environment/se_recover.c; [Sl] std/ss_gc.h, log/sl.h, sl.c, [si_gcv] of index/si_gc.c and
      the log part of [se_reqwrite] of environment/se_execute.c; [SlProofs] (writing a
      transaction), [SlDurable] (runs of the log).

    ** How the code is modelled

    A struct is a record, an enum an inductive type, a pointer an [option] of a location in an
    explicit store, a block of memory a list of bytes.  A function that reads or writes through
    pointers is a [cmd]: state to [option] of result and state, where [None] is a NULL or
    dangling dereference, an access outside of a block, a failed [assert], a signed overflow, or
    a loop that ran out of fuel.  A theorem that says an operation runs therefore says that none
    of these happens.  Loops take fuel: a turn per node of the store and one more (trees,
    queues, chains), a turn per slot (hash tables), ten turns (variable-length integers), a turn
    per version (iterators); the theorems prove the fuel to be enough.  Unsigned arithmetic
    wraps at its width where the code's does.

    Components meet through classes: [TreeOps]/[TreeLaws] (the red-black tree, used by the
    in-memory index and the transactions), [SsIter] (iterators, merged by [SvMerge]), [MergeIter]
    (used by the read and write iterators), [KeyOrder] (the comparison, implemented by
    [SrScheme]), [Alloc] (allocation, which may refuse).  Memory that the code asks for and may
    not get is an argument.  Functions of the user (an update function, a comparison, a prepare
    callback) are parameters.

    ** What the theorems show

    - The index as a whole: over any sequence of transactions and lookups it answers as an
      abstract store of versions (C1): a write goes to the node of its key and the index in
      memory that is not being branched, a lookup answers with the newest version its snapshot
      may see out of the indexes in memory and the branches on disk of that node (C6), except
      that it misses one while the node is rotated (C34); the planner takes the first free node a
      plan asks for, and an answer of 0 to a checkpoint means there is none (C14).
    - Data structures: the list refines a mutable sequence ([SsList]); the range queue is walked
      in order and moves nodes ([SsRq]); red-black trees keep their invariant and their sequence
      under insertion and removal, and are walked in order (C22-C24); hash tables find what is
      stored, across resizing ([SsHt]); chunks of the slab allocator never overlap (C30).
    - Data formats: variable-length integers ([SsBytes]), rows (C28), schemes ([SrScheme]) and the
      file of an index's settings (C27) are read back as written, and damage to that file is
      noticed (C33); comparison of rows is a total order (C26).
    - Reads and writes: merging sorted streams gives the sorted stream with duplicates marked
      (C7); the read iterator gives exactly the newest visible version of each key, updates
      applied (C8); the write iterator keeps what every snapshot from the given one reads (C9),
      with the exceptions of C37; the in-memory index stays sorted and is iterated from any key
      in either direction (C19, C20).
    - The memory quota wakes its sleepers (C31).  (Buffers, sequence numbers, zones, the copying
      of keys and the limit of the quota have theorems of their own in [SsBuf], [Sr], [Sf] and
      [SsQuota].)
    - Transactions: the log keeps the chains of its databases (C32); the deadlock search decides
      the existence of a cycle (C13); prepare finds the first objection (C11); commit removes
      its versions, marks those behind them and makes their transactions unable to prepare
      (C10); rollback withdraws (C12); half commit ([SxEnd]); runs that go wrong (C38, two more
      in [SxRuns]).
    - Pages: an iterator on a page of either format gives the versions on its side of a key, as
      a stream the merge accepts (C16); the checksum routines agree with the bitwise CRC-32C
      (C29); a built page holds the versions it was given (C17) and is read back (C18); the
      buffer for converted versions is sized too small (C40).
    - Branches: vectors of blocks are written whole or the call reports it (C25), but rolling
      back after a failed write keeps what was written (C39); the iterator over the index of a
      branch gives the pages on its side of a key (C21); creating a branch from a stream of
      versions writes pages, an index that finds them and a seal, and reading the branch gives
      the stream back (C4); a branch in a file is read from any key in any order, whatever the
      system does to the reads (C5).
    - Nodes: opening a node finds the branches that were written to their ends and cuts off the
      rest (C3), but the next write then comes behind a hole, and a file with such a hole is
      never opened again (C35).
    - The log: over any sequence of commits, rotations, releases of versions and garbage
      collections every version that is only in memory can be read back from a log file that
      is still there (C2); replaying a log applies whole transactions only (C15); damaged logs
      are misread in two ways (C36); a pool is of no use after a failed write ([SlProofs]).

    ** What is not modelled

    Threads other than in the quota (the code runs these operations under locks), directories
    and the renaming and removing of files, the other system calls, the compression filters
    (third-party LZ4 and ZSTD code, behind the interface of [SsFilter]; the theorems on pages
    are about uncompressed ones), the error injections of the tests, and the layers
    above the index and the log: opening the logs of a directory and copying them, range
    queries, compaction and the recovery of a directory (the rest of si), the environment and
    its scheduler (se).
    The C++ server and its network library (kv, green_turtle) only call the engine.

    ** This file

    Shared vocabulary of the development: machine integers, bytes, the error/state monad in
    which pointer code is written, loops with fuel, and the generic lemmas and tactics the
    component files use. *)
From Stdlib Require Import ZArith Lia.
From stdpp Require Import base list gmap option numbers sorting.

(** * Machine integers

    An unsigned [w]-bit C value is a [Z] in [0, 2^w); the conversions below are
    the C conversions (and the wrap-around of unsigned arithmetic). *)
Declare Scope c_scope.
Delimit Scope c_scope with c.

Definition wrap (w z : Z) : Z := (z mod 2 ^ w)%Z.
Definition swrap (w z : Z) : Z := ((z + 2 ^ (w - 1)) mod 2 ^ w - 2 ^ (w - 1))%Z.

Abbreviation u8 := (wrap 8).
Abbreviation u16 := (wrap 16).
Abbreviation u32 := (wrap 32).
Abbreviation u64 := (wrap 64).
Abbreviation i32 := (swrap 32).

Definition UINT32_MAX : Z := 4294967295.
Definition UINT64_MAX : Z := 18446744073709551615.

Definition in_u (w z : Z) : Prop := (0 <= z < 2 ^ w)%Z.
Abbreviation is_byte := (in_u 8).
Abbreviation is_u32 := (in_u 32).
Abbreviation is_u64 := (in_u 64).

Lemma wrap_id w z : in_u w z → wrap w z = z.
Proof. unfold in_u, wrap. intros. by rewrite Z.mod_small. Qed.

Lemma wrap_in_u w z : (0 <= w)%Z → in_u w (wrap w z).
Proof. unfold in_u, wrap. intros. apply Z.mod_pos_bound. lia. Qed.

Lemma swrap_id w z : (1 <= w)%Z → (- 2 ^ (w - 1) <= z < 2 ^ (w - 1))%Z → swrap w z = z.
Proof.
  intros Hw Hz. unfold swrap.
  assert (2 ^ w = 2 * 2 ^ (w - 1))%Z as E.
  { rewrite <- Z.pow_succ_r by lia. f_equal; lia. }
  rewrite Z.mod_small by lia. lia.
Qed.

(** Bits above and below a position do not meet. *)
Lemma land_high a b n : (0 <= n → 0 <= a < 2 ^ n → Z.land a (Z.shiftl b n) = 0)%Z.
Proof.
  intros Hn Ha. apply Z.bits_inj'. intros k Hk. rewrite Z.land_spec, Z.bits_0, Z.shiftl_spec by lia.
  destruct (decide (k < n)%Z).
  - rewrite (Z.testbit_neg_r b) by lia. apply andb_false_r.
  - rewrite <- (Z.mod_small a (2 ^ n)) by lia. by rewrite Z.mod_pow2_bits_high by lia.
Qed.
Lemma lxor_high a b n : (0 <= n → 0 <= a < 2 ^ n → Z.lxor a (Z.shiftl b n) = a + b * 2 ^ n)%Z.
Proof. intros Hn Ha. rewrite <- (Z.shiftl_mul_pow2 b n Hn). by rewrite Z.add_nocarry_lxor by (by apply land_high). Qed.
Lemma lor_high a b n : (0 <= n → 0 <= a < 2 ^ n → Z.lor a (Z.shiftl b n) = a + b * 2 ^ n)%Z.
Proof. intros Hn Ha. by rewrite <- lxor_high, Z.lxor_lor by (done || by apply land_high). Qed.

(** C truth values: a condition tests an [int] against 0. *)
Definition c_true (z : Z) : bool := negb (Z.eqb z 0).
Definition c_bool (b : bool) : Z := if b then 1%Z else 0%Z.

(** The macro [ss_cmp] of src/deps/sophia/sophia/std/ss_macro.h. *)
Definition ss_cmp (a b : Z) : Z :=
  if Z.eqb a b then 0%Z else if Z.gtb a b then 1%Z else (-1)%Z.

Lemma c_bool_true b : c_true (c_bool b) = b.
Proof. by destruct b. Qed.

(** * The monad of stateful, partial code

    [cmd S A] threads a state [S]; [None] is a run the C code does not define
    (a NULL or dangling dereference, a failed [assert]) or a loop that exhausted
    the fuel it was given. *)
Definition cmd (S A : Type) : Type := S → option (A * S).

Definition cret {S A} (a : A) : cmd S A := λ s, Some (a, s).
Definition cbind {S A B} (m : cmd S A) (f : A → cmd S B) : cmd S B := λ s,
  match m s with Some (a, s') => f a s' | None => None end.

Notation "'let!' x := e 'in' k" := (cbind e (λ x, k))
  (at level 10, x name, e at level 200, k at level 200,
   format "'let!'  x  :=  e  'in' '//' k") : c_scope.
Notation "e ;;; k" := (cbind e (λ _, k))
  (at level 100, k at level 200, right associativity, format "e ;;;  '//' k") : c_scope.

Definition cfail {S A} : cmd S A := λ _, None.
Definition cget {S} : cmd S S := λ s, Some (s, s).
Definition cput {S} (s : S) : cmd S () := λ _, Some ((), s).
Definition cassert {S} (b : bool) : cmd S () := λ s, if b then Some ((), s) else None.
Definition cwhen {S} (b : bool) (m : cmd S ()) : cmd S () := if b then m else cret ().
Definition cread {S A} (f : S → option A) : cmd S A := λ s,
  match f s with Some a => Some (a, s) | None => None end.

(** Runs [body] until it answers [inr]; [inl] is the loop state of the next turn. *)
Fixpoint cloop {S A B} (fuel : nat) (body : A → cmd S (A + B)) (a : A) : cmd S B :=
  match fuel with
  | O => cfail
  | S fuel' => λ s,
      match body a s with
      | Some (inl a', s') => cloop fuel' body a' s'
      | Some (inr b, s') => Some (b, s')
      | None => None
      end
  end.

Section cmd_lemmas.
Context {S : Type}.

Lemma bind_ok {A B} (m : cmd S A) (f : A → cmd S B) s a s' :
  m s = Some (a, s') → cbind m f s = f a s'.
Proof. intros H. unfold cbind. by rewrite H. Qed.

Lemma cloop_S {A B} (body : A → cmd S (A + B)) n a s : cloop (Datatypes.S n) body a s =
  match body a s with
  | Some (inl a', s') => cloop n body a' s'
  | Some (inr b, s') => Some (b, s')
  | None => None
  end.
Proof. done. Qed.

Lemma cloop_more {A B} (body : A → cmd S (A + B)) n m a s r :
  cloop n body a s = Some r → (n ≤ m)%nat → cloop m body a s = Some r.
Proof.
  revert m a s. induction n as [|n IH]; intros [|m] a s H Hle; try lia; try done.
  simpl in *. destruct (body a s) as [[[a'|b] s']|]; try done. apply IH; [done|lia].
Qed.

(** A loop whose invariant [I] bounds the turns left returns with [Q]. *)
Lemma cloop_inv {A B} (body : A → cmd S (A + B)) (I : nat → A → S → Prop)
    (Q : B → S → Prop) :
  (∀ k a s, I k a s →
     match body a s with
     | Some (inl a', s') => ∃ k', (k' < k)%nat ∧ I k' a' s'
     | Some (inr b, s') => Q b s'
     | None => False
     end) →
  ∀ k fuel a s, I k a s → (k < fuel)%nat →
    ∃ b s', cloop fuel body a s = Some (b, s') ∧ Q b s'.
Proof.
  intros Hstep k. induction (lt_wf k) as [k _ IH]. intros [|fuel] a s HI Hf; [lia|].
  specialize (Hstep k a s HI). simpl.
  destruct (body a s) as [[[a'|b] s']|]; [|by eauto|done].
  destruct Hstep as (k' & Hk & HI'). apply (IH k'); [done|done|lia].
Qed.
(** [wp m s Q]: [m] runs from [s] without fault and ends with [Q]. *)
Definition wp {A} (m : cmd S A) (s : S) (Q : A → S → Prop) : Prop :=
  match m s with Some (a, s') => Q a s' | None => False end.

Lemma wp_ret {A} (a : A) s (Q : A → S → Prop) : Q a s → wp (cret a) s Q.
Proof. done. Qed.
Lemma wp_bind {A B} (m : cmd S A) (f : A → cmd S B) s Q :
  wp m s (λ a s', wp (f a) s' Q) → wp (cbind m f) s Q.
Proof. unfold wp, cbind. by destruct (m s) as [[a s']|]. Qed.
Lemma wp_mono {A} (m : cmd S A) s (P Q : A → S → Prop) :
  wp m s P → (∀ a s', P a s' → Q a s') → wp m s Q.
Proof. unfold wp. destruct (m s) as [[a s']|]; auto. Qed.
Lemma wp_run {A} (m : cmd S A) s (Q : A → S → Prop) :
  wp m s Q ↔ ∃ a s', m s = Some (a, s') ∧ Q a s'.
Proof. unfold wp. destruct (m s) as [[a s']|]; naive_solver. Qed.
Lemma wp_when (b : bool) (m : cmd S ()) s (Q : () → S → Prop) :
  (if b then wp m s Q else Q () s) → wp (cwhen b m) s Q.
Proof. by destruct b. Qed.
Lemma wp_assert (b : bool) s (Q : () → S → Prop) : b = true → Q () s → wp (cassert b) s Q.
Proof. by intros ->. Qed.

(** The rule of loops: [I k] bounds the turns left by [k]. *)
Lemma wp_loop {A B} (body : A → cmd S (A + B)) (I : nat → A → S → Prop) (Q : B → S → Prop) :
  (∀ k a s, I k a s →
     wp (body a) s (λ r s', match r with
                            | inl a' => ∃ k', (k' < k)%nat ∧ I k' a' s'
                            | inr b => Q b s'
                            end)) →
  ∀ k fuel a s, I k a s → (k < fuel)%nat → wp (cloop fuel body a) s Q.
Proof.
  intros Hstep k fuel a s HI Hk. apply wp_run.
  eapply (cloop_inv body I Q); [|exact HI|exact Hk].
  intros k' a' s' HI'. specialize (Hstep k' a' s' HI'). unfold wp in Hstep.
  by destruct (body a' s') as [[[]]|].
Qed.
End cmd_lemmas.
Arguments wp : simpl never.

(** * Lists *)

Section list_lemmas.
Context {A : Type}.

Lemma filter_all (P : A → Prop) `{∀ x, Decision (P x)} (l : list A) :
  (∀ x, x ∈ l → P x) → filter P l = l.
Proof.
  induction l as [|x l IH]; intros Hl; [done|].
  rewrite filter_cons_True by (apply Hl; set_solver). f_equal. apply IH. set_solver.
Qed.

Lemma length_omap_le {B} (f : A → option B) (l : list A) : (length (omap f l) <= length l)%nat.
Proof. induction l as [|x l IH]; csimpl; [done|]. destruct (f x); csimpl; lia. Qed.

Lemma fmap_id_on (f : A → A) (l : list A) : (∀ x, x ∈ l → f x = x) → f <$> l = l.
Proof.
  induction l as [|x l IH]; intros Hl; simpl; [done|]. f_equal; [apply Hl|apply IH]; set_solver.
Qed.

(** Splitting a list at an index, with the update there. *)
Lemma split_at {B} (l : list B) i x : l !! i = Some x →
  ∃ l1 l2, l = l1 ++ x :: l2 ∧ length l1 = i ∧ ∀ y, <[i := y]> l = l1 ++ y :: l2.
Proof.
  intros Hi. exists (take i l), (drop (S i) l).
  pose proof (lookup_lt_Some _ _ _ Hi). split_and!.
  - by rewrite take_drop_middle.
  - rewrite length_take. lia.
  - intros y. by rewrite insert_take_drop.
Qed.

Lemma concat_insert (ls : list (list A)) i l l' : ls !! i = Some l →
  concat (<[i := l']> ls) ++ l ≡ₚ concat ls ++ l'.
Proof.
  intros (l1 & l2 & -> & _ & ->)%split_at. rewrite !concat_app; simpl.
  solve_Permutation.
Qed.

Lemma elem_of_concat (ls : list (list A)) x : x ∈ concat ls ↔ ∃ i l, ls !! i = Some l ∧ x ∈ l.
Proof.
  rewrite list_elem_of_In, in_concat. split.
  - intros (l & Hl & Hx). apply list_elem_of_In, list_elem_of_lookup in Hl as [i Hi].
    exists i, l. by rewrite list_elem_of_In.
  - intros (i & l & Hi & Hx). exists l. rewrite <- !list_elem_of_In. split; [|done].
    by eapply list_elem_of_lookup_2.
Qed.

Lemma NoDup_concat_lookup (ls : list (list A)) i l : NoDup (concat ls) → ls !! i = Some l → NoDup l.
Proof.
  intros Hnd (l1 & l2 & -> & _)%split_at. rewrite concat_app in Hnd. simpl in Hnd.
  by apply NoDup_app in Hnd as (_ & _ & (? & _ & _)%NoDup_app).
Qed.

Lemma NoDup_concat_disj (ls : list (list A)) i j l l' x : NoDup (concat ls) →
  ls !! i = Some l → ls !! j = Some l' → x ∈ l → x ∈ l' → i = j.
Proof.
  intros Hnd Hi Hj Hx Hx'. destruct (split_at _ _ _ Hi) as (l1 & l2 & E & Hlen & _).
  subst ls. rewrite concat_app in Hnd. simpl in Hnd.
  apply NoDup_app in Hnd as (_ & H1 & (_ & H2 & _)%NoDup_app).
  destruct (decide (i = j)) as [|Hne]; [done|exfalso].
  rewrite lookup_app in Hj. destruct (l1 !! j) eqn:E1; simplify_eq.
  - apply (H1 x); [apply elem_of_concat; eauto|]. apply elem_of_app; auto.
  - apply lookup_ge_None in E1. destruct (j - length l1)%nat as [|k] eqn:Ek; [lia|].
    simpl in Hj. apply (H2 x); [done|]. apply elem_of_concat; eauto.
Qed.

Lemma NoDup_split_inj (x : A) l1 l2 k1 k2 : NoDup (l1 ++ x :: l2) →
  l1 ++ x :: l2 = k1 ++ x :: k2 → l1 = k1 ∧ l2 = k2.
Proof.
  revert k1. induction l1 as [|y l1 IH]; intros [|z k1] Hnd E; simplify_eq/=.
  - done.
  - apply NoDup_cons in Hnd as [Hx _]. set_solver.
  - apply NoDup_cons in Hnd as [Hx _]. set_solver.
  - apply NoDup_cons in Hnd as [_ Hnd]. by destruct (IH k1) as [-> ->].
Qed.
End list_lemmas.
