(* ===== verification/SsList.v ===== *)
(** The intrusive circular doubly-linked list of
    src/deps/sophia/sophia/std/ss_list.h.

    A list cell lives at a location of an arbitrary countable type [L] (the
    clients embed cells in their own structures, so each client picks its own
    locations); the store maps locations to cells, and an operation runs in the
    monad [cmd], where a dereference of a location outside the store is undefined.
    [dlist h hd xs] says that the store links the head cell [hd] and the cells [xs]
    into one circle; every operation is proved to implement the corresponding
    operation on the sequence [xs], and to leave the cells outside the circle
    alone. *)
From stdpp Require Import base list gmap.
From S2P Require Import Prelude.
Local Open Scope c_scope.

Record sslist {L : Type} := mk_sslist { l_next : L; l_prev : L }.
Arguments sslist : clear implicits.
Arguments mk_sslist {L} _ _.

Section ss_list.
Context {L : Type} `{Countable L}.

Abbreviation lstore := (gmap L (sslist L)).

(** Field reads [p->next], [p->prev] and field writes. *)
Definition get_next (p : L) : cmd lstore L := cread (λ h, l_next <$> h !! p).
Definition get_prev (p : L) : cmd lstore L := cread (λ h, l_prev <$> h !! p).
Definition set_next (p v : L) : cmd lstore () := λ h,
  match h !! p with
  | Some c => Some ((), <[p := mk_sslist v (l_prev c)]> h)
  | None => None
  end.
Definition set_prev (p v : L) : cmd lstore () := λ h,
  match h !! p with
  | Some c => Some ((), <[p := mk_sslist (l_next c) v]> h)
  | None => None
  end.

Definition ss_listinit (h : L) : cmd lstore () := λ s,
  Some ((), <[h := mk_sslist h h]> s).

Definition ss_listappend (h n : L) : cmd lstore () :=
  set_next n h;;;
  let! p := get_prev h in set_prev n p;;;
  let! p := get_prev n in set_next p n;;;
  let! q := get_next n in set_prev q n.

Definition ss_listunlink (n : L) : cmd lstore () :=
  let! p := get_prev n in let! q := get_next n in set_next p q;;;
  let! q := get_next n in let! p := get_prev n in set_prev q p.

Definition ss_listpush (h n : L) : cmd lstore () :=
  let! q := get_next h in set_next n q;;;
  set_prev n h;;;
  let! p := get_prev n in set_next p n;;;
  let! q := get_next n in set_prev q n.

Definition ss_listpop (h : L) : cmd lstore L :=
  let! pop := get_next h in
  ss_listunlink pop;;;
  cret pop.

Definition ss_listempty (l : L) : cmd lstore bool :=
  let! q := get_next l in
  if decide (q = l) then let! p := get_prev l in cret (bool_decide (p = l)) else cret false.

Definition ss_listmerge (a b : L) : cmd lstore () :=
  let! e := ss_listempty b in
  if e then cret () else
  let! first := get_next b in
  let! last := get_prev b in
  let! p := get_prev a in set_prev first p;;;
  let! p := get_prev a in set_next p first;;;
  set_next last a;;;
  set_prev a last.

Definition ss_listreplace (o n : L) : cmd lstore () :=
  let! q := get_next o in set_next n q;;;
  let! q := get_next n in set_prev q n;;;
  let! p := get_prev o in set_prev n p;;;
  let! p := get_prev n in set_next p n.

(** [ss_listforeach(H, I)]: the cells the loop variable takes, in order. *)
Definition ss_listforeach (h : L) : cmd lstore (list L) := λ s,
  (let! i := get_next h in
   cloop (S (size s))
     (λ ia : L * list L,
        if decide (ia.1 = h) then cret (inr (reverse ia.2))
        else let! j := get_next ia.1 in cret (inl (j, ia.1 :: ia.2)))
     (i, [])) s.

(** * Representation *)

Definition nx (h : lstore) (p : L) : option L := l_next <$> h !! p.
Definition pv (h : lstore) (p : L) : option L := l_prev <$> h !! p.

(** One edge of the circle, and a chain of edges from [a] through [xs] to [b]. *)
Definition edge (h : lstore) (a b : L) : Prop := nx h a = Some b ∧ pv h b = Some a.
Fixpoint dseg (h : lstore) (a : L) (xs : list L) (b : L) : Prop :=
  match xs with
  | [] => edge h a b
  | x :: xs => edge h a x ∧ dseg h x xs b
  end.
Definition dlist (h : lstore) (hd : L) (xs : list L) : Prop :=
  NoDup (hd :: xs) ∧ dseg h hd xs hd.

(** ** Reads and writes through [nx] and [pv] *)

Lemma get_next_ok h p q : nx h p = Some q → get_next p h = Some (q, h).
Proof. unfold nx, get_next, cread. by intros ->. Qed.
Lemma get_prev_ok h p q : pv h p = Some q → get_prev p h = Some (q, h).
Proof. unfold pv, get_prev, cread. by intros ->. Qed.

Lemma set_next_ok h p v : is_Some (h !! p) →
  ∃ h', set_next p v h = Some ((), h') ∧ dom h' = dom h ∧
    (∀ x, nx h' x = if decide (x = p) then Some v else nx h x) ∧ (∀ x, pv h' x = pv h x).
Proof.
  intros [c Hc]. unfold set_next. rewrite Hc. eexists; split; [done|].
  split; [rewrite dom_insert_L; apply elem_of_dom_2 in Hc; set_solver|].
  unfold nx, pv; split; intros x; rewrite lookup_insert; repeat case_decide; subst; try done.
  by rewrite Hc.
Qed.
Lemma set_prev_ok h p v : is_Some (h !! p) →
  ∃ h', set_prev p v h = Some ((), h') ∧ dom h' = dom h ∧
    (∀ x, pv h' x = if decide (x = p) then Some v else pv h x) ∧ (∀ x, nx h' x = nx h x).
Proof.
  intros [c Hc]. unfold set_prev. rewrite Hc. eexists; split; [done|].
  split; [rewrite dom_insert_L; apply elem_of_dom_2 in Hc; set_solver|].
  unfold nx, pv; split; intros x; rewrite lookup_insert; repeat case_decide; subst; try done.
  by rewrite Hc.
Qed.

Lemma nx_Some_is h p q : nx h p = Some q → p ∈ dom h.
Proof. unfold nx. rewrite fmap_Some, elem_of_dom. naive_solver. Qed.
Lemma pv_Some_is h p q : pv h p = Some q → p ∈ dom h.
Proof. unfold pv. rewrite fmap_Some, elem_of_dom. naive_solver. Qed.

(** ** Chains *)

Lemma dseg_app h a xs y ys b :
  dseg h a (xs ++ y :: ys) b ↔ dseg h a xs y ∧ dseg h y ys b.
Proof. revert a. induction xs as [|x xs IH]; intros a; simpl; [done|]. rewrite IH. tauto. Qed.

Lemma dseg_frame h h' a xs b :
  (∀ x, x ∈ a :: xs → nx h' x = nx h x) → (∀ x, x ∈ xs ++ [b] → pv h' x = pv h x) →
  dseg h a xs b → dseg h' a xs b.
Proof.
  revert a. induction xs as [|x xs IH]; intros a Hn Hp; simpl; unfold edge.
  - rewrite Hn, Hp by set_solver. done.
  - rewrite Hn, Hp by set_solver. intros [? ?]. split; [done|].
    apply IH; [intros; apply Hn; set_solver|intros; apply Hp; set_solver|done].
Qed.

(** A chain ends in the edge to its last cell; re-targeting that edge. *)
Lemma dseg_last h a xs b : dseg h a xs b → ∃ z, last (a :: xs) = Some z ∧ edge h z b.
Proof.
  revert a. induction xs as [|x xs IH]; intros a; simpl; [eauto|].
  intros [_ Hs]. by apply IH.
Qed.

Lemma last_elem (a : L) xs z : last (a :: xs) = Some z → z ∈ a :: xs.
Proof. intros E. apply last_Some in E as [l ->]. set_solver. Qed.

Lemma dseg_retarget h h' a xs b z b' :
  NoDup (a :: xs) → dseg h a xs b → last (a :: xs) = Some z →
  (∀ x, x ∈ a :: xs → x ≠ z → nx h' x = nx h x) → (∀ x, x ∈ xs → pv h' x = pv h x) →
  edge h' z b' → dseg h' a xs b'.
Proof.
  revert a. induction xs as [|y xs IH]; intros a Hnd Hs Hz Hn Hp He; simpl in *.
  - by simplify_eq.
  - destruct Hs as [[E1 E2] Hs]. apply NoDup_cons in Hnd as [Ha Hnd].
    pose proof (last_elem _ _ _ Hz).
    split; [split; [rewrite Hn|rewrite Hp]; set_solver|].
    apply (IH y); try done; intros; [apply Hn|apply Hp]; set_solver.
Qed.

Lemma dseg_first h a xs b : dseg h a xs b → ∃ y, nx h a = Some y ∧ pv h y = Some a ∧
  y = default b (head xs).
Proof. destruct xs; simpl; unfold edge; intros; destruct_and?; eauto. Qed.

Lemma dseg_dom h a xs b : dseg h a xs b → ∀ x, x ∈ a :: xs → x ∈ dom h.
Proof.
  revert a. induction xs as [|y xs IH]; intros a; simpl; unfold edge.
  - intros [Hn _] x. rewrite list_elem_of_singleton. intros ->. by eapply nx_Some_is.
  - intros [[Hn _] Hs] x. rewrite elem_of_cons. intros [->|?]; [by eapply nx_Some_is|].
    by apply (IH y).
Qed.

(** * The operations implement the sequence operations *)

(** Every location outside [ls] keeps its links. *)
Definition same_out (h h' : lstore) (ls : list L) : Prop :=
  ∀ x, x ∉ ls → nx h' x = nx h x ∧ pv h' x = pv h x.

Ltac lrw :=
  repeat match goal with
  | Hn : ∀ x, nx ?h' x = _ |- context [nx ?h' _] => rewrite Hn
  | Hp : ∀ x, pv ?h' x = _ |- context [pv ?h' _] => rewrite Hp
  end.
Ltac lsimp := lrw; repeat (case_decide; subst; try congruence); eauto.
Ltac ldom :=
  apply elem_of_dom; repeat match goal with D : dom ?h' = _ |- context [dom ?h'] => rewrite D end;
  eauto using nx_Some_is, pv_Some_is.
Ltac lstep :=
  match goal with
  | |- context [cbind (get_next ?p) _ ?h] =>
      erewrite (bind_ok (get_next p)); [|apply get_next_ok; by lsimp]
  | |- context [cbind (get_prev ?p) _ ?h] =>
      erewrite (bind_ok (get_prev p)); [|apply get_prev_ok; by lsimp]
  | |- context [cbind (set_next ?p ?v) _ ?h] =>
      let h' := fresh "h" in let E := fresh "E" in
      destruct (set_next_ok h p v) as (h' & E & ? & ? & ?); [by ldom|];
      rewrite (bind_ok _ _ _ _ _ E)
  | |- context [cbind (set_prev ?p ?v) _ ?h] =>
      let h' := fresh "h" in let E := fresh "E" in
      destruct (set_prev_ok h p v) as (h' & E & ? & ? & ?); [by ldom|];
      rewrite (bind_ok _ _ _ _ _ E)
  | |- context [set_prev ?p ?v ?h] =>
      let h' := fresh "h" in let E := fresh "E" in
      destruct (set_prev_ok h p v) as (h' & E & ? & ? & ?); [by ldom|]; rewrite E
  | |- context [set_next ?p ?v ?h] =>
      let h' := fresh "h" in let E := fresh "E" in
      destruct (set_next_ok h p v) as (h' & E & ? & ? & ?); [by ldom|]; rewrite E
  end.

Lemma append_edges h hd n z : n ∈ dom h → n ≠ hd → n ≠ z → edge h z hd →
  ∃ h', ss_listappend hd n h = Some ((), h') ∧ dom h' = dom h ∧
    (∀ x, nx h' x = if decide (x = z) then Some n else if decide (x = n) then Some hd
                    else nx h x) ∧
    (∀ x, pv h' x = if decide (x = hd) then Some n else if decide (x = n) then Some z
                    else pv h x).
Proof.
  intros Hd Hnh Hnz [Hz1 Hz2]. unfold ss_listappend.
  do 8 try lstep. eexists; split; [done|]. split; [congruence|].
  split; intros x; lsimp.
Qed.

Lemma unlink_edges h a n b : n ≠ a → n ≠ b → edge h a n → edge h n b →
  ∃ h', ss_listunlink n h = Some ((), h') ∧ dom h' = dom h ∧
    (∀ x, nx h' x = if decide (x = a) then Some b else nx h x) ∧
    (∀ x, pv h' x = if decide (x = b) then Some a else pv h x).
Proof.
  intros Hna Hnb [Ea1 Ea2] [Eb1 Eb2]. unfold ss_listunlink.
  do 6 try lstep. eexists; split; [done|]. split; [congruence|].
  split; intros x; lsimp.
Qed.

Lemma push_edges h hd n y : n ∈ dom h → n ≠ hd → n ≠ y → edge h hd y →
  ∃ h', ss_listpush hd n h = Some ((), h') ∧ dom h' = dom h ∧
    (∀ x, nx h' x = if decide (x = hd) then Some n else if decide (x = n) then Some y
                    else nx h x) ∧
    (∀ x, pv h' x = if decide (x = y) then Some n else if decide (x = n) then Some hd
                    else pv h x).
Proof.
  intros Hd Hnh Hnz [Hz1 Hz2]. unfold ss_listpush.
  do 8 try lstep. eexists; split; [done|]. split; [congruence|].
  split; intros x; lsimp.
Qed.

Lemma replace_edges h a o b n : n ∈ dom h → n ≠ a → n ≠ o → n ≠ b → o ≠ a → o ≠ b →
  edge h a o → edge h o b →
  ∃ h', ss_listreplace o n h = Some ((), h') ∧ dom h' = dom h ∧
    (∀ x, nx h' x = if decide (x = a) then Some n else if decide (x = n) then Some b
                    else nx h x) ∧
    (∀ x, pv h' x = if decide (x = b) then Some n else if decide (x = n) then Some a
                    else pv h x).
Proof.
  intros Hd ? ? ? ? ? [Ea1 Ea2] [Eb1 Eb2]. unfold ss_listreplace.
  do 8 try lstep. eexists; split; [done|]. split; [congruence|].
  split; intros x; lsimp.
Qed.

Lemma listempty_ok h l q p : nx h l = Some q → pv h l = Some p →
  ss_listempty l h = Some (bool_decide (q = l ∧ p = l), h).
Proof.
  intros Hq Hp. unfold ss_listempty. lstep. case_decide; simpl.
  - subst. lstep. unfold cret. do 2 f_equal. apply bool_decide_ext. tauto.
  - unfold cret. do 2 f_equal. rewrite bool_decide_eq_false_2; tauto.
Qed.

Lemma merge_edges h a z b y w : edge h z a → edge h b y → edge h w b → y ≠ b →
  y ≠ a → w ≠ z → b ≠ a →
  ∃ h', ss_listmerge a b h = Some ((), h') ∧ dom h' = dom h ∧
    (∀ x, nx h' x = if decide (x = w) then Some a else if decide (x = z) then Some y
                    else nx h x) ∧
    (∀ x, pv h' x = if decide (x = a) then Some w else if decide (x = y) then Some z
                    else pv h x).
Proof.
  intros [Ez1 Ez2] [Eb1 Eb2] [Ew1 Ew2] Hyb Hya Hwz Hba. unfold ss_listmerge.
  erewrite (bind_ok (ss_listempty b)); [|by eapply listempty_ok].
  rewrite bool_decide_eq_false_2 by tauto.
  do 8 try lstep. eexists; split; [done|]. split; [congruence|].
  split; intros x; lsimp.
Qed.

(** ** Specifications over [dlist] *)

Lemma listinit_ok h hd :
  ∃ h', ss_listinit hd h = Some ((), h') ∧ dlist h' hd [] ∧ same_out h h' [hd] ∧
    dom h' = {[hd]} ∪ dom h.
Proof.
  eexists; split; [done|]. unfold dlist, dseg, edge, nx, pv, same_out.
  rewrite lookup_insert_eq. split_and!; try done.
  - apply NoDup_singleton.
  - intros x Hx. unfold nx, pv. rewrite lookup_insert_ne by set_solver. done.
  - by rewrite dom_insert_L.
Qed.

Lemma listappend_ok h hd xs n : dlist h hd xs → n ∉ hd :: xs → n ∈ dom h →
  ∃ h', ss_listappend hd n h = Some ((), h') ∧ dlist h' hd (xs ++ [n]) ∧
    same_out h h' (n :: hd :: xs) ∧ dom h' = dom h.
Proof.
  intros [Hnd Hs] Hn Hd. destruct (dseg_last _ _ _ _ Hs) as (z & Hz & Ez).
  pose proof (last_elem _ _ _ Hz).
  destruct (append_edges h hd n z) as (h' & E & D & Hnx & Hpv); [done|set_solver..|done|].
  apply NoDup_cons in Hnd as Hnd'. exists h'. split; [done|]. split_and!; [split|..|done].
  - rewrite app_comm_cons. apply NoDup_app. split_and!; [done|set_solver|apply NoDup_singleton].
  - apply dseg_app. split; [|split; rewrite ?Hnx, ?Hpv; repeat case_decide; set_solver].
    eapply dseg_retarget; try done; intros.
    + rewrite Hnx. repeat case_decide; set_solver.
    + rewrite Hpv. repeat case_decide; set_solver.
    + split; rewrite ?Hnx, ?Hpv; repeat case_decide; set_solver.
  - intros x Hx. rewrite Hnx, Hpv. repeat case_decide; set_solver.
Qed.

Lemma listpush_ok h hd xs n : dlist h hd xs → n ∉ hd :: xs → n ∈ dom h →
  ∃ h', ss_listpush hd n h = Some ((), h') ∧ dlist h' hd (n :: xs) ∧
    same_out h h' (n :: hd :: xs) ∧ dom h' = dom h.
Proof.
  intros [Hnd Hs] Hn Hd. destruct (dseg_first _ _ _ _ Hs) as (y & E1 & E2 & Hy).
  assert (y ∈ hd :: xs) as Hyin by (destruct xs; set_solver).
  destruct (push_edges h hd n y) as (h' & E & D & Hnx & Hpv); [done|set_solver..|done|].
  apply NoDup_cons in Hnd as Hnd'. exists h'. split; [done|]. split_and!; [split|..|done].
  - rewrite !NoDup_cons in *. set_solver.
  - split; [split; rewrite ?Hnx, ?Hpv; repeat case_decide; set_solver|].
    destruct xs as [|x xs]; simpl in *.
    + subst. split; rewrite ?Hnx, ?Hpv; repeat case_decide; set_solver.
    + subst. rewrite !NoDup_cons in *.
      destruct Hs as [_ Hs]. split.
      * split; rewrite ?Hnx, ?Hpv; repeat case_decide; set_solver.
      * revert Hs. apply dseg_frame; intros; rewrite ?Hnx, ?Hpv; repeat case_decide; set_solver.
  - intros x Hx. rewrite Hnx, Hpv. repeat case_decide; set_solver.
Qed.

(** The cell [n] in the middle of a circle: its neighbours [a] and [b]. *)
Lemma dlist_split h hd xs n ys : dlist h hd (xs ++ n :: ys) →
  ∃ a b, last (hd :: xs) = Some a ∧ b = default hd (head ys) ∧ edge h a n ∧ edge h n b ∧
    dseg h hd xs n ∧ dseg h n ys hd ∧ n ∉ hd :: xs ∧ n ∉ hd :: ys ∧
    NoDup (hd :: xs ++ ys) ∧ a ∈ hd :: xs ∧ b ∈ hd :: ys.
Proof.
  intros [Hnd Hs]. apply dseg_app in Hs as [Hs1 Hs2].
  destruct (dseg_last _ _ _ _ Hs1) as (a & Ha & Ea).
  destruct (dseg_first _ _ _ _ Hs2) as (b & E1 & E2 & Hb).
  assert (n :: hd :: xs ++ ys ≡ₚ hd :: xs ++ n :: ys) as HP by solve_Permutation.
  rewrite <- HP, NoDup_cons in Hnd.
  exists a, b. split_and!; try done; try set_solver.
  - by eapply last_elem.
  - destruct ys; set_solver.
Qed.

Lemma NoDup_hd_app (hd : L) xs ys : NoDup (hd :: xs ++ ys) →
  NoDup (hd :: xs) ∧ NoDup (hd :: ys) ∧ hd ∉ xs ∧ hd ∉ ys ∧ (∀ x, x ∈ xs → x ∉ ys).
Proof. rewrite !NoDup_cons, NoDup_app. set_solver. Qed.

(** Membership goals, with the facts about the store out of the way. *)
Ltac lset :=
  repeat match goal with
  | X : dseg _ _ _ _ |- _ => clear X
  | X : dlist _ _ _ |- _ => clear X
  | X : edge _ _ _ |- _ => clear X
  | X : NoDup _ |- _ => clear X
  | X : context [nx _ _] |- _ => clear X
  | X : context [pv _ _] |- _ => clear X
  | X : dom _ = _ |- _ => clear X
  | X : _ = Some _ |- _ => clear X
  | X : _ = default _ _ |- _ => clear X
  end; set_solver.
Ltac lcase := lrw; repeat case_decide; try congruence; exfalso; lset.

Lemma listunlink_ok h hd xs n ys : dlist h hd (xs ++ n :: ys) →
  ∃ h', ss_listunlink n h = Some ((), h') ∧ dlist h' hd (xs ++ ys) ∧
    same_out h h' (hd :: xs ++ ys) ∧ dom h' = dom h.
Proof.
  intros Hl. destruct (dlist_split _ _ _ _ _ Hl)
    as (a & b & Ha & Hb & Ea & Eb & Hs1 & Hs2 & Hn1 & Hn2 & Hnd & Hai & Hbi).
  destruct (unlink_edges h a n b) as (h' & E & D & Hnx & Hpv); [lset..|done|done|].
  pose proof (NoDup_hd_app _ _ _ Hnd) as (Hnd1 & Hnd2 & Hh1 & Hh2 & Hdj).
  exists h'. split; [done|]. split_and!; [split|..|done]; [done| |].
  - assert (dseg h' hd xs b) as Hxs.
    { eapply dseg_retarget; try done; intros; [..|split]; lcase. }
    destruct ys as [|y ys]; simpl in *; subst b; [by rewrite app_nil_r|].
    apply dseg_app. split; [done|]. destruct Hs2 as [_ Hs2]. revert Hs2.
    rewrite !NoDup_cons in *. destruct_and!.
    apply dseg_frame; intros; lcase.
  - intros x Hx. split; lcase.
Qed.

Lemma listpop_ok h hd x xs : dlist h hd (x :: xs) →
  ∃ h', ss_listpop hd h = Some (x, h') ∧ dlist h' hd xs ∧ same_out h h' (hd :: xs) ∧
    dom h' = dom h.
Proof.
  intros Hl. destruct (listunlink_ok h hd [] x xs Hl) as (h' & E & Hl' & Ho & D).
  exists h'. split_and!; try done. unfold ss_listpop. destruct Hl as [_ [[Hx _] _]].
  lstep. by rewrite (bind_ok _ _ _ _ _ E).
Qed.

Lemma listreplace_ok h hd xs o ys n : dlist h hd (xs ++ o :: ys) → n ∉ hd :: xs ++ o :: ys →
  n ∈ dom h →
  ∃ h', ss_listreplace o n h = Some ((), h') ∧ dlist h' hd (xs ++ n :: ys) ∧
    same_out h h' (n :: hd :: xs ++ ys) ∧ dom h' = dom h.
Proof.
  intros Hl Hn Hd. destruct (dlist_split _ _ _ _ _ Hl)
    as (a & b & Ha & Hb & Ea & Eb & Hs1 & Hs2 & Hn1 & Hn2 & Hnd & Hai & Hbi).
  destruct (replace_edges h a o b n) as (h' & E & D & Hnx & Hpv); [done|lset..|done|done|].
  pose proof (NoDup_hd_app _ _ _ Hnd) as (Hnd1 & Hnd2 & Hh1 & Hh2 & Hdj).
  exists h'. split; [done|]. split_and!; [split|..|done].
  - assert (hd :: xs ++ n :: ys ≡ₚ n :: hd :: xs ++ ys) as -> by solve_Permutation.
    apply NoDup_cons. split; [lset|done].
  - apply dseg_app. split.
    + eapply dseg_retarget; try done; intros; [..|split]; lcase.
    + destruct ys as [|y ys]; simpl in *; subst b.
      * split; lcase.
      * destruct Hs2 as [_ Hs2]. rewrite !NoDup_cons in *. destruct_and!. split.
        -- split; lcase.
        -- revert Hs2. apply dseg_frame; intros; lcase.
  - intros x Hx. split; lcase.
Qed.

Lemma dlist_empty_ok h hd xs : dlist h hd xs →
  ss_listempty hd h = Some (bool_decide (xs = []), h).
Proof.
  intros [Hnd Hs]. destruct (dseg_last _ _ _ _ Hs) as (z & Hz & [_ Ez]).
  destruct (dseg_first _ _ _ _ Hs) as (y & E1 & _ & Hy).
  rewrite (listempty_ok h hd y z) by done. do 2 f_equal. apply bool_decide_ext.
  rewrite NoDup_cons in Hnd. destruct xs; simpl in *; simplify_eq; set_solver.
Qed.

Lemma listmerge_ok h a xs b ys : dlist h a xs → dlist h b ys →
  (∀ x, x ∈ a :: xs → x ∉ b :: ys) →
  ∃ h', ss_listmerge a b h = Some ((), h') ∧ dlist h' a (xs ++ ys) ∧
    same_out h h' (a :: xs ++ ys) ∧ dom h' = dom h.
Proof.
  intros [Hna Ha] [Hnb Hb] Hdj. destruct ys as [|y ys].
  { exists h. unfold ss_listmerge. erewrite bind_ok by (by apply (dlist_empty_ok h b [])).
    rewrite app_nil_r. by split_and!. }
  destruct (dseg_last _ _ _ _ Ha) as (z & Hz & Ez).
  destruct (dseg_last _ _ _ _ Hb) as (w & Hw & Ew).
  destruct Hb as [Eb Hb]. simpl in Hw.
  pose proof (last_elem _ _ _ Hz). pose proof (last_elem _ _ _ Hw).
  apply NoDup_cons in Hnb as [Hbn Hny].
  destruct (merge_edges h a z b y w) as (h' & E & D & Hnx & Hpv); try done; [lset..|].
  exists h'. split; [done|]. split_and!; [split|..|done].
  - rewrite app_comm_cons, NoDup_app. split_and!; try done. set_solver.
  - pose proof (proj1 (proj1 (NoDup_cons _ _) Hna)) as Hax.
    pose proof (proj1 (proj1 (NoDup_cons _ _) Hny)) as Hyy.
    apply dseg_app. split.
    + eapply dseg_retarget; try done; intros; [..|split]; lcase.
    + eapply dseg_retarget; try done; intros; [..|split]; lcase.
  - intros x Hx. split; lcase.
Qed.

(** The loop of [ss_listforeach] visits the cells of the circle, in order. *)
Lemma listforeach_ok h hd xs : dlist h hd xs → ss_listforeach hd h = Some (xs, h).
Proof.
  intros [Hnd Hs]. unfold ss_listforeach.
  assert (length xs < S (size h))%nat as Hf.
  { apply NoDup_cons in Hnd as [_ Hnd].
    assert (list_to_set xs ⊆ dom h) as Hsub.
    { intros x Hx%elem_of_list_to_set. eapply dseg_dom; [done|set_solver]. }
    apply subseteq_size in Hsub. rewrite size_list_to_set, size_dom in Hsub by done. lia. }
  destruct (dseg_first _ _ _ _ Hs) as (y & E1 & _ & Hy). lstep.
  enough (∀ fuel a zs acc, dseg h a zs hd → hd ∉ zs → (length zs < fuel)%nat →
    cloop fuel (λ ia : L * list L,
        if decide (ia.1 = hd) then cret (inr (reverse ia.2))
        else let! j := get_next ia.1 in cret (inl (j, ia.1 :: ia.2)))
      (default hd (head zs), acc) h = Some (reverse acc ++ zs, h)) as Hloop.
  { subst y. rewrite (Hloop _ hd xs []); try done. by apply NoDup_cons in Hnd as [? _]. }
  clear. induction fuel as [|fuel IH]; intros a zs acc Hs Hh Hl; [lia|].
  destruct zs as [|x zs]; simpl.
  - rewrite decide_True by done. simpl. by rewrite app_nil_r.
  - rewrite decide_False by set_solver. destruct Hs as [_ Hs].
    destruct (dseg_first _ _ _ _ Hs) as (y & E & _ & ->). lstep. simpl.
    rewrite (IH x zs (x :: acc)) by (try done; set_solver || (simpl in Hl; lia)).
    by rewrite reverse_cons, <- app_assoc.
Qed.

(** Circles that share no cell do not interfere. *)
Lemma dlist_frame h h' ls hd xs : same_out h h' ls → (∀ x, x ∈ hd :: xs → x ∉ ls) →
  dlist h hd xs → dlist h' hd xs.
Proof.
  intros Ho Hdj [Hnd Hs]. split; [done|]. revert Hs.
  apply dseg_frame; intros x Hx; apply Ho, Hdj; set_solver.
Qed.

(** * The abstract contract: a mutable sequence *)

Inductive list_op :=
  | LAppend (n : L) | LPush (n : L) | LUnlink (n : L) | LPop | LReplace (o n : L).

Definition list_run (hd : L) (op : list_op) : cmd lstore (option L) :=
  match op with
  | LAppend n => ss_listappend hd n;;; cret None
  | LPush n => ss_listpush hd n;;; cret None
  | LUnlink n => ss_listunlink n;;; cret None
  | LPop => let! x := ss_listpop hd in cret (Some x)
  | LReplace o n => ss_listreplace o n;;; cret None
  end.

(** The cells an operation brings into the circle, and its effect on the sequence. *)
Definition list_new (op : list_op) : list L :=
  match op with LAppend n | LPush n | LReplace _ n => [n] | _ => [] end.
Definition list_spec (op : list_op) (xs : list L) : option (option L * list L) :=
  match op with
  | LAppend n => Some (None, xs ++ [n])
  | LPush n => Some (None, n :: xs)
  | LUnlink n => if decide (n ∈ xs) then Some (None, filter (.≠ n) xs) else None
  | LPop => match xs with x :: xs => Some (Some x, xs) | [] => None end
  | LReplace o n =>
      if decide (o ∈ xs) then Some (None, (λ x, if decide (x = o) then n else x) <$> xs)
      else None
  end.

Lemma filter_split (n : L) xs ys : NoDup (xs ++ n :: ys) →
  filter (.≠ n) (xs ++ n :: ys) = xs ++ ys.
Proof.
  rewrite NoDup_app, NoDup_cons. intros (_ & Hx & Hn & _).
  rewrite filter_app, filter_cons_False by tauto.
  f_equal; apply filter_all; set_solver.
Qed.

Lemma replace_split (o n : L) xs ys : NoDup (xs ++ o :: ys) →
  (λ x, if decide (x = o) then n else x) <$> (xs ++ o :: ys) = xs ++ n :: ys.
Proof.
  rewrite NoDup_app, NoDup_cons. intros (_ & Hx & Hn & _).
  rewrite fmap_app, fmap_cons, decide_True by done.
  f_equal; [|f_equal]; apply fmap_id_on; intros x ?; rewrite decide_False; set_solver.
Qed.

Lemma list_refines_aux h hd xs op r xs' :
  dlist h hd xs → list_spec op xs = Some (r, xs') →
  (∀ n, n ∈ list_new op → n ∉ hd :: xs ∧ n ∈ dom h) →
  ∃ h', list_run hd op h = Some (r, h') ∧ dlist h' hd xs' ∧ dom h' = dom h ∧
    same_out h h' (list_new op ++ hd :: xs).
Proof.
  intros Hl Hsp Hnew. pose proof Hl as [Hnd _]. apply NoDup_cons in Hnd as [Hh Hnd].
  destruct op as [n|n|n| |o n]; simpl in *; simplify_eq.
  - destruct (listappend_ok h hd xs n) as (h' & E & ? & ? & ?); [done|set_solver..|].
    exists h'. by rewrite (bind_ok _ _ _ _ _ E).
  - destruct (listpush_ok h hd xs n) as (h' & E & ? & ? & ?); [done|set_solver..|].
    exists h'. by rewrite (bind_ok _ _ _ _ _ E).
  - case_decide as Hin; simplify_eq. apply list_elem_of_split in Hin as (l1 & l2 & ->).
    rewrite filter_split by done.
    destruct (listunlink_ok h hd l1 n l2) as (h' & E & ? & Ho & ?); [done|].
    exists h'. rewrite (bind_ok _ _ _ _ _ E). split_and!; try done.
    intros x Hx. apply Ho. set_solver.
  - destruct xs as [|x xs]; simplify_eq.
    destruct (listpop_ok h hd x xs') as (h' & E & ? & Ho & ?); [done|].
    exists h'. rewrite (bind_ok _ _ _ _ _ E). split_and!; try done.
    intros y Hy. apply Ho. set_solver.
  - case_decide as Hin; simplify_eq. apply list_elem_of_split in Hin as (l1 & l2 & ->).
    rewrite replace_split by done.
    destruct (listreplace_ok h hd l1 o l2 n) as (h' & E & ? & Ho & ?); [done|set_solver..|].
    exists h'. rewrite (bind_ok _ _ _ _ _ E). split_and!; try done.
    intros x Hx. apply Ho. set_solver.
Qed.

(** A sequence of operations; [list_new] of a later operation may name a cell an
    earlier one took out. *)
Fixpoint list_runs (hd : L) (ops : list list_op) : cmd lstore (list (option L)) :=
  match ops with
  | [] => cret []
  | op :: ops => let! r := list_run hd op in let! rs := list_runs hd ops in cret (r :: rs)
  end.
Inductive list_trace (hd : L) (d : gset L) : list L → list list_op → list (option L) → list L → Prop :=
  | lt_nil xs : list_trace hd d xs [] [] xs
  | lt_cons xs op r xs' ops rs xs'' :
      list_spec op xs = Some (r, xs') → (∀ n, n ∈ list_new op → n ∉ hd :: xs ∧ n ∈ d) →
      list_trace hd d xs' ops rs xs'' → list_trace hd d xs (op :: ops) (r :: rs) xs''.
End ss_list.

Arguments list_op : clear implicits.

(** The intrusive list of ss_list.h refines the abstract mutable sequence: any
    sequence of appends, pushes, unlinks, pops and replaces that the sequence
    specification allows runs without fault on a circle that represents the initial
    sequence, returns the specified results and ends in a circle that represents the
    specified final sequence, which [ss_listforeach] then enumerates. *)
Theorem ss_list_refines {L} `{Countable L} (h : gmap L (sslist L)) hd xs ops rs xs' :
  dlist h hd xs → list_trace hd (dom h) xs ops rs xs' →
  ∃ h', list_runs hd ops h = Some (rs, h') ∧ dlist h' hd xs' ∧
    ss_listforeach hd h' = Some (xs', h').
Proof.
  intros Hl Ht. remember (dom h) as d eqn:Ed. revert h Hl Ed.
  induction Ht as [xs|xs op r xs' ops rs xs'' Hsp Hnew Ht IH]; intros h Hl ->.
  - exists h. split_and!; [done|done|]. by apply listforeach_ok.
  - destruct (list_refines_aux h hd xs op r xs') as (h' & E & Hl' & D & _); [done..|].
    destruct (IH h' Hl' (eq_sym D)) as (h'' & E' & Hl'' & F).
    exists h''. simpl. rewrite (bind_ok _ _ _ _ _ E), (bind_ok _ _ _ _ _ E'). done.
Qed.

Definition list_demo : gmap nat (sslist nat) :=
  list_to_map ((λ i, (i, mk_sslist i i)) <$> [0; 1; 2; 3; 4]).

Lemma ss_list_refines_witness :
  ∃ h', list_runs 0 [LAppend 1; LAppend 2; LPush 3; LUnlink 1; LReplace 2 4; LPop] list_demo
        = Some ([None; None; None; None; None; Some 3], h') ∧ dlist h' 0 [4] ∧
    ss_listforeach 0 h' = Some ([4], h').
Proof.
  apply (ss_list_refines list_demo 0 []).
  - split; [apply NoDup_singleton|done].
  - repeat (eapply lt_cons; [reflexivity|
      intros n Hn; assert (n ∈ dom list_demo) by
        (apply list_elem_of_In in Hn; simpl in Hn; destruct_or?; subst; try done;
         apply elem_of_dom; vm_compute; eauto); split; [set_solver|done]|]).
    apply lt_nil.
Defined.
