(* ===== verification/SsRq.v ===== *)
(** The range queue of src/deps/sophia/sophia/std/ss_rq.h: an array of buckets, each a
    circular list of nodes, that orders nodes by [v / range].  The index planner of
    sophia keeps its compaction candidates in such queues and always takes the
    node [ss_rqprev] returns first.

    A node is a [positive]; its link is the list cell at [RqNode n], and the list head
    embedded in bucket [i] is the cell at [RqHead i]. *)
From stdpp Require Import base countable sorting list gmap.
From S2P Require Import Prelude SsList.
Local Open Scope c_scope.
Local Open Scope Z_scope.

Inductive rqloc := RqHead (i : nat) | RqNode (n : positive).

#[export] Instance rqloc_eq_dec : EqDecision rqloc.
Proof. solve_decision. Defined.
#[export] Program Instance rqloc_countable : Countable rqloc :=
  inj_countable' (λ l, match l with RqHead i => inl i | RqNode n => inr n end)
                 (λ x, match x with inl i => RqHead i | inr n => RqNode n end) _.
Next Obligation. by intros []. Qed.

Record ssrqnode := mk_rqnode { rn_q : Z; rn_v : Z }.
Record ssrqq := mk_rqq { rq_count : Z; rq_q : Z }.
Record ssrq := mk_rq {
  rq_range_count : Z;
  rq_range : Z;
  rq_last : Z;
  rq_qs : list ssrqq;
  rq_nodes : gmap positive ssrqnode;
  rq_links : gmap rqloc (sslist rqloc)
}.

Definition rq_with_last (l : Z) (s : ssrq) : ssrq :=
  mk_rq (rq_range_count s) (rq_range s) l (rq_qs s) (rq_nodes s) (rq_links s).
Definition rq_with_qs (qs : list ssrqq) (s : ssrq) : ssrq :=
  mk_rq (rq_range_count s) (rq_range s) (rq_last s) qs (rq_nodes s) (rq_links s).
Definition rq_with_nodes (ns : gmap positive ssrqnode) (s : ssrq) : ssrq :=
  mk_rq (rq_range_count s) (rq_range s) (rq_last s) (rq_qs s) ns (rq_links s).
Definition rq_with_links (ls : gmap rqloc (sslist rqloc)) (s : ssrq) : ssrq :=
  mk_rq (rq_range_count s) (rq_range s) (rq_last s) (rq_qs s) (rq_nodes s) ls.

(** Runs a list operation on the links of the queue. *)
Definition on_links {A} (m : cmd (gmap rqloc (sslist rqloc)) A) : cmd ssrq A := λ s,
  match m (rq_links s) with
  | Some (a, ls) => Some (a, rq_with_links ls s)
  | None => None
  end.

(** [&q->q[pos]] for an in-range position, and the write back of its fields. *)
Definition get_q (pos : Z) : cmd ssrq ssrqq := cread (λ s,
  if decide (0 <= pos) then rq_qs s !! Z.to_nat pos else None).
Definition set_q (pos : Z) (p : ssrqq) : cmd ssrq () := λ s,
  Some ((), rq_with_qs (<[Z.to_nat pos := p]> (rq_qs s)) s).
Definition get_rqnode (n : positive) : cmd ssrq ssrqnode := cread (λ s, rq_nodes s !! n).
Definition set_rqnode (n : positive) (x : ssrqnode) : cmd ssrq () := λ s,
  Some ((), rq_with_nodes (<[n := x]> (rq_nodes s)) s).

Definition ss_rqinitnode (n : positive) : cmd ssrq () :=
  on_links (ss_listinit (RqNode n));;;
  set_rqnode n (mk_rqnode UINT32_MAX 0).

(** The loop of [ss_rqinit] over the [k] buckets from [i]. *)
Fixpoint rqinit_loop (i k : nat) : cmd ssrq () :=
  match k with
  | O => cret ()
  | S k =>
      on_links (ss_listinit (RqHead i));;;
      set_q (Z.of_nat i) (mk_rqq 0 (Z.of_nat i));;;
      rqinit_loop (S i) k
  end.

(** [malloc_ok] is the outcome of the allocation of the bucket array. *)
Definition ss_rqinit (malloc_ok : bool) (range count : Z) (nodes : gmap positive ssrqnode)
    (links : gmap rqloc (sslist rqloc)) : option (Z * ssrq) :=
  let rc := u32 (count + 1) in
  if malloc_ok then
    match rqinit_loop 0 (Z.to_nat rc)
            (mk_rq rc range 0 (replicate (Z.to_nat rc) (mk_rqq 0 0)) nodes links) with
    | Some (_, s) => Some (0, rq_with_last 0 s)
    | None => None
    end
  else Some (-1, mk_rq rc range 0 [] nodes links).

(** The bucket [ss_rqadd] chooses for [v]; a zero [range] divides by zero. *)
Definition rq_pos (s : ssrq) (v : Z) : option Z :=
  if decide (v = 0) then Some 0
  else if decide (rq_range s = 0) then None
  else
    let pos := u32 (v / rq_range s + 1) in
    Some (if decide (pos >= rq_range_count s) then u32 (rq_range_count s - 1) else pos).

Definition ss_rqadd (n : positive) (v : Z) : cmd ssrq () :=
  let! pos := cread (λ s, rq_pos s v) in
  get_q pos;;;
  on_links (ss_listinit (RqNode n));;;
  get_rqnode n;;;
  set_rqnode n (mk_rqnode pos v);;;
  on_links (ss_listappend (RqHead (Z.to_nat pos)) (RqNode n));;;
  let! p := get_q pos in
  let! s := cget in
  cwhen (bool_decide (rq_count p = 0) && bool_decide (pos > rq_last s))
    (cput (rq_with_last pos s));;;
  set_q pos (mk_rqq (u32 (rq_count p + 1)) (rq_q p)).

(** [while (i >= 0) { if (q[i].count > 0) { last = i; return; } i--; }], [k = i + 1]. *)
Fixpoint rqdelete_scan (k : nat) : cmd ssrq () :=
  match k with
  | O => cret ()
  | S i =>
      let! p := get_q (Z.of_nat i) in
      if decide (rq_count p > 0)
      then let! s := cget in cput (rq_with_last (Z.of_nat i) s)
      else rqdelete_scan i
  end.

Definition ss_rqdelete (n : positive) : cmd ssrq () :=
  let! x := get_rqnode n in
  let! p := get_q (rn_q x) in
  let p' := mk_rqq (u32 (rq_count p - 1)) (rq_q p) in
  set_q (rn_q x) p';;;
  on_links (ss_listunlink (RqNode n));;;
  let! s := cget in
  cwhen (bool_decide (rq_count p' = 0) && bool_decide (rq_last s = rn_q x))
    (rqdelete_scan (Z.to_nat (i32 (u32 (rn_q x - 1)) + 1))).

Definition ss_rqupdate (n : positive) (v : Z) : cmd ssrq () :=
  let! x := get_rqnode n in
  cwhen (negb (bool_decide (rn_q x = UINT32_MAX))) (ss_rqdelete n);;;
  ss_rqadd n v.

(** [sscast(l, ssrqnode, link)]: only a node link casts back to a node. *)
Definition rq_cast (l : rqloc) : option positive :=
  match l with RqNode n => Some n | RqHead _ => None end.

(** [for (; pos >= 0; pos--)] of [ss_rqprev], [k = pos + 1]. *)
Fixpoint rqprev_scan (k : nat) : cmd ssrq (option positive) :=
  match k with
  | O => cret None
  | S i =>
      let! p := get_q (Z.of_nat i) in
      if decide (rq_count p = 0) then rqprev_scan i
      else let! l := on_links (get_next (RqHead i)) in
           let! m := cread (λ _, rq_cast l) in cret (Some m)
  end.

Definition ss_rqprev (n : option positive) : cmd ssrq (option positive) :=
  match n with
  | Some n =>
      let! x := get_rqnode n in
      get_q (rn_q x);;;
      let! l := on_links (get_next (RqNode n)) in
      if decide (l ≠ RqHead (Z.to_nat (rn_q x)))
      then let! m := cread (λ _, rq_cast l) in cret (Some m)
      else rqprev_scan (Z.to_nat (i32 (rn_q x) - 1 + 1))
  | None =>
      let! s := cget in rqprev_scan (Z.to_nat (i32 (rq_last s) + 1))
  end.

(** * Representation

    [rq_rep s bs]: the queue holds in bucket [i] the nodes [bs !! i], oldest first. *)
Record rq_rep (s : ssrq) (bs : list (list positive)) : Prop := {
  rr_len : length (rq_qs s) = length bs;
  rr_count : rq_range_count s = Z.of_nat (length bs);
  rr_pos : (0 < length bs)%nat;
  rr_max : Z.of_nat (length bs) <= 2 ^ 31;
  rr_range : 0 < rq_range s < 2 ^ 32;
  rr_q : ∀ i b, bs !! i = Some b →
    rq_qs s !! i = Some (mk_rqq (Z.of_nat (length b)) (Z.of_nat i)) ∧
    dlist (rq_links s) (RqHead i) (RqNode <$> b);
  rr_node : ∀ i b n, bs !! i = Some b → n ∈ b →
    ∃ v, rq_nodes s !! n = Some (mk_rqnode (Z.of_nat i) v) ∧ rq_pos s v = Some (Z.of_nat i);
  rr_nodup : NoDup (concat bs);
  rr_small : Z.of_nat (length (concat bs)) < 2 ^ 32;
  rr_last : 0 <= rq_last s < Z.of_nat (length bs);
  rr_above : ∀ i b, bs !! i = Some b → rq_last s < Z.of_nat i → b = []
}.

(** The order in which [ss_rqprev] visits the nodes. *)
Definition rq_order (bs : list (list positive)) : list positive := concat (reverse bs).

Section rq_proofs.
Implicit Types (s : ssrq) (bs : list (list positive)) (n : positive).

Lemma on_links_ok {A} (m : cmd _ A) s a ls :
  m (rq_links s) = Some (a, ls) → on_links m s = Some (a, rq_with_links ls s).
Proof. unfold on_links. by intros ->. Qed.

Lemma get_q_ok s i x : rq_qs s !! i = Some x → get_q (Z.of_nat i) s = Some (x, s).
Proof. unfold get_q, cread. intros. rewrite decide_True, Nat2Z.id by lia. by simplify_option_eq. Qed.

Lemma rq_pos_bound s bs v : rq_rep s bs → 0 <= v < 2 ^ 32 →
  ∃ i b, rq_pos s v = Some (Z.of_nat i) ∧ bs !! i = Some b.
Proof.
  intros [] Hv. unfold rq_pos.
  assert (∃ z, 0 <= z < Z.of_nat (length bs) ∧ (if decide (v = 0) then Some 0
    else if decide (rq_range s = 0) then None
    else Some (if decide (u32 (v / rq_range s + 1) >= rq_range_count s)
               then u32 (rq_range_count s - 1) else u32 (v / rq_range s + 1))) = Some z)
    as (z & Hz & E).
  { rewrite rr_count0. case_decide; [exists 0; split; [lia|done]|].
    rewrite decide_False by lia. eexists; split; [|done].
    pose proof (wrap_in_u 32 (v / rq_range s + 1) ltac:(lia)) as [Hl _].
    case_decide; [|lia]. rewrite wrap_id; unfold in_u; lia. }
  exists (Z.to_nat z). rewrite E, Z2Nat.id by lia.
  destruct (lookup_lt_is_Some_2 bs (Z.to_nat z)) as [b Hb]; [lia|]. eauto.
Qed.

(** Buckets are monotone in the value, so the bucket order is the value order up to
    the resolution [range]. *)
Lemma rq_pos_mono s v w i j : 0 < rq_range s → 0 <= v <= w → w < 2 ^ 32 - 1 →
  0 < rq_range_count s <= 2 ^ 31 →
  rq_pos s v = Some i → rq_pos s w = Some j → i <= j.
Proof.
  unfold rq_pos. intros Hr Hvw Hw Hc.
  assert (0 <= v / rq_range s <= w / rq_range s) by
    (split; [apply Z.div_pos; lia|apply Z.div_le_mono; lia]).
  assert (w / rq_range s <= w) by (apply Z.div_le_upper_bound; nia).
  rewrite !(wrap_id 32 (_ / _ + 1)) by (unfold in_u; lia).
  rewrite (wrap_id 32 (_ - 1)) by (unfold in_u; lia).
  repeat case_decide; intros; simplify_eq; lia.
Qed.

Lemma rr_pos_eq s s' v : rq_range s' = rq_range s → rq_range_count s' = rq_range_count s →
  rq_pos s' v = rq_pos s v.
Proof. unfold rq_pos. by intros -> ->. Qed.

#[local] Instance RqNode_inj : Inj (=) (=) RqNode.
Proof. by intros ?? [=]. Qed.

Lemma NoDup_nodes i (b : list positive) : NoDup b → NoDup (RqHead i :: (RqNode <$> b)).
Proof.
  intros Hb. apply NoDup_cons. split; [|by apply (NoDup_fmap_2 _)].
  rewrite list_elem_of_fmap. naive_solver.
Qed.

(** The circles of the other buckets survive a list operation on bucket [i]. *)
Lemma dlist_other ls ls' bs i b j c (extra : list positive) :
  NoDup (concat bs) → bs !! i = Some b → bs !! j = Some c → i ≠ j →
  (∀ x, x ∈ extra → x ∉ c) →
  same_out ls ls' ((RqNode <$> extra) ++ RqHead i :: (RqNode <$> b)) →
  dlist ls (RqHead j) (RqNode <$> c) → dlist ls' (RqHead j) (RqNode <$> c).
Proof.
  intros Hnd Hi Hj Hij Hex Ho. apply (dlist_frame _ _ _ _ _ Ho).
  intros x Hx Hin. rewrite elem_of_app, !elem_of_cons, !list_elem_of_fmap in *.
  destruct Hx as [->|(y & -> & Hy)], Hin as [(z & Hz1 & Hz)|[Hz1|(z & Hz1 & Hz)]];
    simplify_eq.
  - by eapply Hex.
  - by eapply Hij, (NoDup_concat_disj bs i j b c).
Qed.

(** Replacing the contents of bucket [i] by [b']. *)
Lemma rq_rep_bucket s s' bs i b b' : rq_rep s bs → bs !! i = Some b →
  rq_range s' = rq_range s → rq_range_count s' = rq_range_count s →
  rq_qs s' = <[i := mk_rqq (Z.of_nat (length b')) (Z.of_nat i)]> (rq_qs s) →
  dlist (rq_links s') (RqHead i) (RqNode <$> b') →
  (∀ j c, bs !! j = Some c → i ≠ j → dlist (rq_links s') (RqHead j) (RqNode <$> c)) →
  (∀ n, n ∈ b' → ∃ v, rq_nodes s' !! n = Some (mk_rqnode (Z.of_nat i) v) ∧
                      rq_pos s v = Some (Z.of_nat i)) →
  (∀ j c n, bs !! j = Some c → n ∈ c → i ≠ j → rq_nodes s' !! n = rq_nodes s !! n) →
  NoDup (concat (<[i := b']> bs)) → Z.of_nat (length (concat (<[i := b']> bs))) < 2 ^ 32 →
  0 <= rq_last s' < Z.of_nat (length bs) → rq_last s <= rq_last s' →
  (b' = [] ∨ Z.of_nat i <= rq_last s') →
  rq_rep s' (<[i := b']> bs).
Proof.
  intros [] Hb Hr Hc Hqs Hl Hlo Hn Hno Hnd Hsm Hlb Hlm Hli.
  pose proof (lookup_lt_Some _ _ _ Hb) as Hlt.
  split; simpl; rewrite ?length_insert, ?Hqs, ?Hr, ?Hc, ?length_insert; try done.
  - intros j c Hj. destruct (decide (i = j)) as [<-|Hij].
    + rewrite list_lookup_insert_eq in Hj by done. simplify_eq.
      by rewrite list_lookup_insert_eq by lia.
    + rewrite list_lookup_insert_ne in Hj by done. rewrite list_lookup_insert_ne by done.
      split; [by apply rr_q0|by apply Hlo].
  - intros j c m Hj Hm. setoid_rewrite (rr_pos_eq s); [|done..].
    destruct (decide (i = j)) as [<-|Hij].
    + rewrite list_lookup_insert_eq in Hj by done. simplify_eq. by apply Hn.
    + rewrite list_lookup_insert_ne in Hj by done. rewrite (Hno j c) by done. by apply (rr_node0 j c).
  - intros j c Hj Hlst. destruct (decide (i = j)) as [<-|Hij].
    + rewrite list_lookup_insert_eq in Hj by done. simplify_eq. by destruct Hli; [|lia].
    + rewrite list_lookup_insert_ne in Hj by done. apply (rr_above0 j c Hj). lia.
Qed.

Lemma bucket_length bs i b : bs !! i = Some b → (length b <= length (concat bs))%nat.
Proof.
  intros (l1 & l2 & -> & _)%split_at. rewrite concat_app; simpl. rewrite !length_app. lia.
Qed.

(** Initialising the link of a node outside the queue changes no circle. *)
Lemma rqlink_init s bs n : rq_rep s bs → n ∉ concat bs →
  ∃ l, ss_listinit (RqNode n) (rq_links s) = Some ((), l) ∧ RqNode n ∈ dom l ∧
    ∀ j c, bs !! j = Some c → dlist l (RqHead j) (RqNode <$> c).
Proof.
  intros [] Hn. destruct (listinit_ok (rq_links s) (RqNode n)) as (l & E & _ & Ho & D).
  exists l. split_and!; [done|rewrite D; set_solver|].
  intros j c Hj. eapply dlist_frame; [done| |by apply rr_q0].
  assert (n ∉ c) by (intros ?; apply Hn, elem_of_concat; eauto).
  intros y Hy. rewrite elem_of_cons, list_elem_of_fmap in Hy.
  rewrite list_elem_of_singleton. naive_solver.
Qed.

Lemma rqadd_ok s bs n v x : rq_rep s bs → n ∉ concat bs → rq_nodes s !! n = Some x →
  0 <= v < 2 ^ 32 → Z.of_nat (length (concat bs)) < 2 ^ 32 - 1 →
  ∃ i b s', rq_pos s v = Some (Z.of_nat i) ∧ bs !! i = Some b ∧
    ss_rqadd n v s = Some ((), s') ∧ rq_rep s' (<[i := b ++ [n]]> bs) ∧
    rq_nodes s' = <[n := mk_rqnode (Z.of_nat i) v]> (rq_nodes s).
Proof.
  intros R Hn Hx Hv Hsm. destruct (rq_pos_bound s bs v R Hv) as (i & b & Hp & Hb).
  pose proof R as []. destruct (rr_q0 i b Hb) as [Hqi Hli].
  assert (n ∉ b) as Hnb by (intros ?; apply Hn, elem_of_concat; eauto).
  destruct (rqlink_init s bs n R Hn) as (l1 & E1 & D1 & Hl1).
  destruct (listappend_ok l1 (RqHead i) (RqNode <$> b) (RqNode n)) as (l2 & E2 & Hl2 & Ho2 & _).
  { by apply Hl1. } { rewrite elem_of_cons, list_elem_of_fmap. naive_solver. } { done. }
  set (lst := if bool_decide (Z.of_nat (length b) = 0) && bool_decide (Z.of_nat i > rq_last s)
              then Z.of_nat i else rq_last s).
  exists i, b, (mk_rq (rq_range_count s) (rq_range s) lst
    (<[i := mk_rqq (Z.of_nat (length (b ++ [n]))) (Z.of_nat i)]> (rq_qs s))
    (<[n := mk_rqnode (Z.of_nat i) v]> (rq_nodes s)) l2).
  pose proof (bucket_length _ _ _ Hb). pose proof (lookup_lt_Some _ _ _ Hb).
  split_and!; try done.
  { unfold ss_rqadd, cbind, cread, cget. rewrite Hp, (get_q_ok s i _ Hqi).
    erewrite (on_links_ok (ss_listinit _)) by exact E1. unfold get_rqnode, cread; simpl. rewrite Hx.
    rewrite Nat2Z.id. erewrite (on_links_ok (ss_listappend _ _)) by exact E2.
    erewrite get_q_ok by done. simpl. unfold lst.
    rewrite length_app, wrap_id by (unfold in_u; lia). rewrite Nat2Z.inj_add; simpl.
    destruct (_ && _); unfold cwhen, cput, cret, set_q; simpl; by rewrite Nat2Z.id. }
  assert (concat (<[i := b ++ [n]]> bs) ≡ₚ n :: concat bs) as HP.
  { apply (Permutation_app_inv_r b). rewrite concat_insert by done. solve_Permutation. }
  eapply (rq_rep_bucket s); simpl; try done.
  - by rewrite fmap_app.
  - intros j c Hj Hij. eapply (dlist_other l1 l2 bs i b j c [n]); try done; [|by apply Hl1].
    intros y Hy%list_elem_of_singleton ?. subst. apply Hn, elem_of_concat; eauto.
  - intros m [Hm| ->%list_elem_of_singleton]%elem_of_app.
    + rewrite lookup_insert_ne by set_solver. by apply (rr_node0 i b).
    + rewrite lookup_insert_eq. eauto.
  - intros j c m Hj Hm Hij. rewrite lookup_insert_ne; [done|]. intros ->.
    apply Hn, elem_of_concat; eauto.
  - rewrite HP. by apply NoDup_cons.
  - rewrite HP. simpl. lia.
  - unfold lst. destruct (_ && _); lia.
  - unfold lst. repeat case_bool_decide; simpl; lia.
  - right. unfold lst. repeat case_bool_decide; simpl; try lia.
    destruct (decide (Z.of_nat i <= rq_last s)) as [|Hgt]; [done|].
    rewrite (rr_above0 i b) in * by (done || lia). done.
Qed.

(** Scanning down from [k] lands [last] on the highest non-empty bucket below [k]. *)
Lemma rqdelete_scan_ok s bs k : rq_rep s bs → (k <= length bs)%nat →
  (∀ i b, bs !! i = Some b → (k <= i)%nat → b = []) →
  ∃ s', rqdelete_scan k s = Some ((), s') ∧ rq_rep s' bs ∧ rq_nodes s' = rq_nodes s ∧
    rq_range s' = rq_range s.
Proof.
  intros R. pose proof R as []. induction k as [|k IH]; intros Hk Habove; simpl; [by exists s|].
  destruct (lookup_lt_is_Some_2 bs k) as [b Hb]; [lia|].
  destruct (rr_q0 k b Hb) as [Hq _]. rewrite (bind_ok _ _ _ _ _ (get_q_ok s k _ Hq)). simpl.
  case_decide as Hc.
  - eexists; split; [done|]. split; [|by simpl]. split; simpl; try done; [lia|].
    intros i c Hi Hki. apply (Habove i c Hi). lia.
  - apply IH; [lia|]. intros i c Hi Hki. destruct (decide (i = k)) as [->|].
    + simplify_eq. destruct b; [done|simpl in *; lia].
    + apply (Habove i c Hi). lia.
Qed.

Lemma i32_pred_u32 (i : nat) : Z.of_nat i <= 2 ^ 31 ->
  Z.to_nat (i32 (u32 (Z.of_nat i - 1)) + 1) = i.
Proof.
  intros Hi. destruct i as [|i]; [done|].
  rewrite wrap_id by (unfold in_u; lia). rewrite swrap_id by lia. lia.
Qed.

Lemma rqdelete_ok s bs i b1 n b2 : rq_rep s bs → bs !! i = Some (b1 ++ n :: b2) →
  ∃ s', ss_rqdelete n s = Some ((), s') ∧ rq_rep s' (<[i := b1 ++ b2]> bs) ∧
    rq_nodes s' = rq_nodes s ∧ rq_range s' = rq_range s.
Proof.
  intros R Hb. pose proof R as []. destruct (rr_q0 i _ Hb) as [Hqi Hli].
  destruct (rr_node0 i _ n Hb) as (v & Hnv & Hpv); [set_solver|].
  pose proof (bucket_length _ _ _ Hb) as Hbl. rewrite length_app in Hbl; simpl in Hbl.
  pose proof (lookup_lt_Some _ _ _ Hb) as Hlt.
  assert (Z.of_nat i <= rq_last s) as Hil.
  { destruct (decide (Z.of_nat i <= rq_last s)); [done|].
    exfalso. eapply (app_cons_not_nil b1 b2 n), eq_sym, rr_above0; [done|lia]. }
  rewrite fmap_app, fmap_cons in Hli.
  destruct (listunlink_ok _ _ _ _ _ Hli) as (l & El & Hl & Ho & _). rewrite <- fmap_app in Hl, Ho.
  set (s1 := mk_rq (rq_range_count s) (rq_range s) (rq_last s)
    (<[i := mk_rqq (Z.of_nat (length (b1 ++ b2))) (Z.of_nat i)]> (rq_qs s)) (rq_nodes s) l).
  assert (concat (<[i := b1 ++ b2]> bs) ++ [n] ≡ₚ concat bs) as HP.
  { apply (Permutation_app_inv_r (b1 ++ b2)).
    transitivity (concat (<[i:=b1 ++ b2]> bs) ++ (b1 ++ n :: b2)); [solve_Permutation|].
    by apply concat_insert. }
  assert (rq_rep s1 (<[i := b1 ++ b2]> bs)) as R1.
  { eapply (rq_rep_bucket s); simpl; try done; [| | | |by right].
    - intros j c Hj Hij. eapply (dlist_other (rq_links s) l bs i _ j c []); try done.
      + set_solver. + intros y Hy. apply Ho. set_solver. + by apply rr_q0.
    - intros m Hm. apply (rr_node0 i _ m Hb). set_solver.
    - rewrite <- HP in rr_nodup0. by apply NoDup_app in rr_nodup0 as [? _].
    - rewrite <- HP, length_app in rr_small0. simpl in *. lia. }
  assert (ss_rqdelete n s = cwhen (bool_decide (Z.of_nat (length (b1 ++ b2)) = 0) &&
    bool_decide (rq_last s = Z.of_nat i)) (rqdelete_scan i) s1) as ->.
  { unfold ss_rqdelete, cbind, get_rqnode, cread. rewrite Hnv; simpl.
    rewrite (get_q_ok _ _ _ Hqi). simpl.
    replace (u32 (Z.of_nat (length (b1 ++ n :: b2)) - 1)) with (Z.of_nat (length (b1 ++ b2))).
    2: { rewrite !length_app in *. simpl in *. rewrite wrap_id; unfold in_u; lia. }
    rewrite Nat2Z.id. erewrite on_links_ok by exact El.
    unfold cget; simpl. by rewrite i32_pred_u32 by lia. }
  destruct (bool_decide _ && bool_decide _) eqn:Ec; simpl; [|by exists s1].
  apply andb_true_iff in Ec as [Ec1%bool_decide_eq_true Ec2%bool_decide_eq_true].
  apply (rqdelete_scan_ok s1 _ i R1); [rewrite length_insert; lia|].
  intros j c Hj Hij. destruct (decide (i = j)) as [<-|Hne].
  - rewrite list_lookup_insert_eq in Hj by done. simplify_eq. apply nil_length_inv. lia.
  - rewrite list_lookup_insert_ne in Hj by done. apply (rr_above0 j c Hj). lia.
Qed.

(** [ss_rqprev] steps through [rq_order]. *)
Lemma rqprev_scan_ok s bs k : rq_rep s bs → (k <= length bs)%nat →
  rqprev_scan k s = Some (head (rq_order (take k bs)), s).
Proof.
  intros R. pose proof R as []. unfold rq_order. induction k as [|k IH]; intros Hk; simpl; [done|].
  destruct (lookup_lt_is_Some_2 bs k) as [b Hb]; [lia|].
  destruct (rr_q0 k b Hb) as [Hq Hl]. rewrite (bind_ok _ _ _ _ _ (get_q_ok s k _ Hq)). simpl.
  rewrite (take_S_r _ _ _ Hb), reverse_snoc; simpl.
  case_decide as Hc.
  - destruct b; [|simpl in Hc; lia]. apply IH. lia.
  - destruct b as [|n b]; [done|]. destruct Hl as [_ [[Hn _] _]].
    erewrite bind_ok; [|apply on_links_ok, get_next_ok, Hn]. by destruct s.
Qed.

Lemma rq_order_split bs i b : bs !! i = Some b →
  rq_order bs = rq_order (drop (S i) bs) ++ b ++ rq_order (take i bs).
Proof.
  intros Hb. unfold rq_order. rewrite <- (take_drop_middle _ _ _ Hb) at 1.
  by rewrite reverse_app, reverse_cons, !concat_app; simpl; rewrite app_nil_r, <- app_assoc.
Qed.

Lemma rq_order_above s bs : rq_rep s bs →
  rq_order bs = rq_order (take (Z.to_nat (rq_last s + 1)) bs).
Proof.
  intros []. set (k := Z.to_nat (rq_last s + 1)).
  rewrite <- (take_drop k bs) at 1. unfold rq_order. rewrite reverse_app, concat_app.
  assert (concat (reverse (drop k bs)) = []) as ->; [|done].
  assert (∀ ls : list (list positive), (∀ c, c ∈ ls → c = []) → concat ls = []) as Hc.
  { induction ls as [|c ls IH]; intros Hc; simpl; [done|].
    rewrite (Hc c) by set_solver. apply IH. set_solver. }
  apply Hc. intros c Hc'. rewrite elem_of_reverse in Hc'.
  apply list_elem_of_lookup in Hc' as [i Hi]. rewrite lookup_drop in Hi.
  apply (rr_above0 _ _ Hi). lia.
Qed.

Lemma rqprev_first_ok s bs : rq_rep s bs → ss_rqprev None s = Some (head (rq_order bs), s).
Proof.
  intros R. pose proof R as []. simpl. unfold cbind, cget. rewrite swrap_id by lia.
  rewrite (rqprev_scan_ok s bs) by (done || lia). by rewrite <- (rq_order_above s bs).
Qed.

Lemma rqprev_next_ok s bs l1 n l2 : rq_rep s bs → rq_order bs = l1 ++ n :: l2 →
  ss_rqprev (Some n) s = Some (head l2, s).
Proof.
  intros R Ho. pose proof R as [].
  assert (n ∈ concat bs) as Hn.
  { assert (n ∈ rq_order bs) as Hin by (rewrite Ho; set_solver).
    unfold rq_order in Hin. apply elem_of_concat in Hin as (i & l & Hi & Hl).
    apply list_elem_of_lookup_2 in Hi. rewrite elem_of_reverse in Hi.
    apply list_elem_of_lookup in Hi as [j Hj].
    apply elem_of_concat. by exists j, l. }
  apply elem_of_concat in Hn as (i & b & Hb & Hin).
  pose proof (lookup_lt_Some _ _ _ Hb) as Hlt.
  destruct (rr_node0 i b n Hb Hin) as (v & Hnv & _). destruct (rr_q0 i b Hb) as [Hq Hl].
  apply list_elem_of_split in Hin as (b1 & b2 & ->).
  assert (l2 = b2 ++ rq_order (take i bs)) as ->.
  { rewrite (rq_order_split _ _ _ Hb) in Ho.
    assert (NoDup (l1 ++ n :: l2)) as Hnd.
    { rewrite <- Ho, <- (rq_order_split _ _ _ Hb). unfold rq_order.
      by rewrite reverse_Permutation. }
    rewrite <- app_assoc, app_assoc in Ho. simpl in Ho.
    by eapply (NoDup_split_inj n _ _ _ _ Hnd), eq_sym. }
  simpl. unfold cbind, get_rqnode, cread at 1. rewrite Hnv; simpl.
  rewrite (get_q_ok _ _ _ Hq), Nat2Z.id.
  rewrite fmap_app, fmap_cons in Hl. destruct Hl as [_ [_ Hl]%dseg_app].
  apply dseg_first in Hl as (y & Hy & _ & Ey).
  erewrite on_links_ok by (by apply get_next_ok). replace (rq_with_links (rq_links s) s) with s by (by destruct s).
  destruct b2 as [|m b2]; simpl in *; subst y.
  - rewrite decide_False by tauto. rewrite swrap_id by lia.
    replace (Z.to_nat (Z.of_nat i - 1 + 1)) with i by lia.
    rewrite (rqprev_scan_ok s bs) by (done || lia). done.
  - by rewrite decide_True by done.
Qed.

Lemma rqinit_loop_ok k i s :
  (∀ j, (j < i)%nat → rq_qs s !! j = Some (mk_rqq 0 (Z.of_nat j)) ∧
                      dlist (rq_links s) (RqHead j) []) →
  length (rq_qs s) = (i + k)%nat →
  ∃ s', rqinit_loop i k s = Some ((), s') ∧ length (rq_qs s') = (i + k)%nat ∧
    rq_nodes s' = rq_nodes s ∧ rq_range s' = rq_range s ∧
    rq_range_count s' = rq_range_count s ∧
    (∀ j, (j < i + k)%nat → rq_qs s' !! j = Some (mk_rqq 0 (Z.of_nat j)) ∧
                            dlist (rq_links s') (RqHead j) []).
Proof.
  revert i s. induction k as [|k IH]; intros i s Hi Hlen; simpl.
  { exists s. rewrite Nat.add_0_r in *. by split_and!. }
  destruct (listinit_ok (rq_links s) (RqHead i)) as (l & E & Hd & Ho & _).
  rewrite (bind_ok _ _ _ _ _ (on_links_ok _ _ _ _ E)). unfold set_q, cbind at 1.
  edestruct (IH (S i)) as (s' & E' & Hl' & Hn & Hr & Hrc & Hj); [| |
    exists s'; rewrite E'; split_and!; try done; [lia|intros j Hj'; apply Hj; lia]]; simpl.
  - intros j Hj. rewrite Nat2Z.id. destruct (decide (j = i)) as [->|].
    + rewrite list_lookup_insert_eq by lia. done.
    + destruct (Hi j) as [Hq Hdj]; [lia|]. rewrite list_lookup_insert_ne by done.
      split; [done|]. eapply dlist_frame; [done| |done]. set_solver.
  - rewrite length_insert. lia.
Qed.

Lemma rqinit_ok range count nodes links : 0 <= count < 2 ^ 31 → 0 < range < 2 ^ 32 →
  ∃ s, ss_rqinit true range count nodes links = Some (0, s) ∧
    rq_rep s (replicate (Z.to_nat (count + 1)) []) ∧ rq_nodes s = nodes.
Proof.
  intros Hc Hr. unfold ss_rqinit. rewrite wrap_id by (unfold in_u; lia).
  set (k := Z.to_nat (count + 1)).
  destruct (rqinit_loop_ok k 0 (mk_rq (count + 1) range 0 (replicate k (mk_rqq 0 0)) nodes links))
    as (s & E & Hlen & Hn & Hra & Hrc & Hj); [lia|simpl; by rewrite length_replicate|].
  rewrite E. eexists; split; [done|]. split; [|by simpl].
  assert (concat (replicate k ([] : list positive)) = []) as Hcn.
  { clear. induction k; simpl; done. }
  split; simpl; rewrite ?length_replicate, ?Hcn, ?Hrc, ?Hra; simpl in *; try done; try lia.
  - intros i b [-> Hi]%lookup_replicate. by apply Hj.
  - intros i b n [-> Hi]%lookup_replicate. set_solver.
  - apply NoDup_nil_2.
  - by intros i b [-> Hi]%lookup_replicate.
Qed.

Lemma rq_bucket_filter bs i b1 n b2 : NoDup (concat bs) → bs !! i = Some (b1 ++ n :: b2) →
  <[i := b1 ++ b2]> bs = filter (.≠ n) <$> bs.
Proof.
  intros Hnd Hb. pose proof (lookup_lt_Some _ _ _ Hb). apply list_eq. intros j.
  rewrite list_lookup_fmap. destruct (decide (i = j)) as [<-|Hij].
  - rewrite list_lookup_insert_eq, Hb by done. simpl. f_equal. symmetry.
    apply filter_split. by eapply NoDup_concat_lookup.
  - rewrite list_lookup_insert_ne by done. destruct (bs !! j) as [c|] eqn:Hj; simpl; [|done].
    f_equal. symmetry. apply filter_all. intros y Hy ->.
    apply Hij. by eapply (NoDup_concat_disj bs i j _ _ n); [|done|done|set_solver|].
Qed.

Lemma rq_bucket_filter_id bs n : n ∉ concat bs → filter (.≠ n) <$> bs = bs.
Proof.
  intros Hn. apply fmap_id_on. intros b Hb. apply filter_all. intros y Hy ->. apply Hn.
  apply elem_of_concat. apply list_elem_of_lookup in Hb as [i Hi]. eauto.
Qed.

Lemma rqupdate_ok s bs n v x : rq_rep s bs → rq_nodes s !! n = Some x →
  (n ∈ concat bs ∨ rn_q x = UINT32_MAX ∧ n ∉ concat bs) → 0 <= v < 2 ^ 32 →
  Z.of_nat (length (concat bs)) < 2 ^ 32 - 1 →
  ∃ i s', rq_pos s v = Some (Z.of_nat i) ∧ (i < length bs)%nat ∧
    ss_rqupdate n v s = Some ((), s') ∧
    rq_rep s' (alter (.++ [n]) i (filter (.≠ n) <$> bs)) ∧
    rq_nodes s' = <[n := mk_rqnode (Z.of_nat i) v]> (rq_nodes s).
Proof.
  intros R Hx Hn Hv Hsm. unfold ss_rqupdate, cbind at 1, get_rqnode, cread. rewrite Hx.
  assert (∃ s1, cwhen (negb (bool_decide (rn_q x = UINT32_MAX))) (ss_rqdelete n) s = Some ((), s1) ∧
    rq_rep s1 (filter (.≠ n) <$> bs) ∧ rq_nodes s1 = rq_nodes s ∧ rq_range s1 = rq_range s)
    as (s1 & E1 & R1 & N1 & Hr1).
  { destruct Hn as [Hn|[Hq Hn]].
    - apply elem_of_concat in Hn as (i & b & Hb & Hin). pose proof R as [].
      destruct (rr_node0 i b n Hb Hin) as (w & Hw & _). simplify_eq/=.
      pose proof (lookup_lt_Some _ _ _ Hb).
      rewrite bool_decide_eq_false_2 by (unfold UINT32_MAX; lia). simpl.
      apply list_elem_of_split in Hin as (b1 & b2 & ->).
      rewrite <- (rq_bucket_filter bs i b1 n b2) by done. by apply rqdelete_ok.
    - rewrite bool_decide_eq_true_2 by done. exists s. by rewrite rq_bucket_filter_id. }
  rewrite (bind_ok _ _ _ _ _ E1).
  assert (n ∉ concat (filter (.≠ n) <$> bs)) as Hn'.
  { intros (k & b & Hk & Hin)%elem_of_concat. rewrite list_lookup_fmap in Hk.
    destruct (bs !! k); simplify_eq/=. by apply list_elem_of_filter in Hin as [? _]. }
  assert (length (concat (filter (.≠ n) <$> bs)) <= length (concat bs))%nat.
  { clear. induction bs as [|b bs IH]; csimpl; [done|]. rewrite !length_app.
    pose proof (length_filter (.≠ n) b). lia. }
  assert (rq_pos s1 v = rq_pos s v) as Hp.
  { pose proof R1 as []. pose proof R as []. rewrite length_fmap in *.
    apply rr_pos_eq; [done|congruence]. }
  destruct (rqadd_ok s1 _ n v x R1) as (i & b & s' & Hi & Hb & E & R' & N'); try done; [congruence|lia|].
  exists i, s'. rewrite <- Hp, <- N1. pose proof (lookup_lt_Some _ _ _ Hb) as Hlt.
  rewrite length_fmap in Hlt. split_and!; try done.
  replace (alter (.++ [n]) i (filter (.≠ n) <$> bs))
    with (<[i := b ++ [n]]> (filter (.≠ n) <$> bs)); [done|].
  apply list_eq. intros j. destruct (decide (i = j)) as [<-|].
  - rewrite list_lookup_alter_eq, list_lookup_insert_eq, Hb by (by rewrite length_fmap). done.
  - by rewrite list_lookup_alter_ne, list_lookup_insert_ne.
Qed.
End rq_proofs.

(** The loop [while ((n = ss_rqprev(q, n)))] of the planner: the nodes it sees. *)
Fixpoint rq_walk (fuel : nat) (cur : option positive) : cmd ssrq (list positive) :=
  match fuel with
  | O => cfail
  | S fuel =>
      let! n := ss_rqprev cur in
      match n with
      | None => cret []
      | Some m => let! ms := rq_walk fuel (Some m) in cret (m :: ms)
      end
  end.

Lemma rq_walk_ok s bs l1 l2 cur : rq_rep s bs → rq_order bs = l1 ++ l2 → cur = last l1 →
  rq_walk (S (length l2)) cur s = Some (l2, s).
Proof.
  intros R. revert l1 cur. induction l2 as [|n l2 IH]; intros l1 cur Ho ->.
  - assert (ss_rqprev (last l1) s = Some (None, s)) as E; [|simpl; by rewrite (bind_ok _ _ _ _ _ E)].
    rewrite app_nil_r in Ho. destruct (last l1) as [m|] eqn:El.
    + apply last_Some in El as [l ->]. by rewrite (rqprev_next_ok s bs l m []).
    + apply last_None in El as ->. by rewrite (rqprev_first_ok s bs), Ho.
  - assert (ss_rqprev (last l1) s = Some (Some n, s)) as E.
    { destruct (last l1) as [m|] eqn:El.
      - apply last_Some in El as [l ->]. rewrite <- app_assoc in Ho.
        by rewrite (rqprev_next_ok s bs l m (n :: l2)).
      - apply last_None in El as ->. by rewrite (rqprev_first_ok s bs), Ho. }
    cbn [rq_walk length]. rewrite (bind_ok _ _ _ _ _ E).
    assert (rq_walk (S (length l2)) (Some n) s = Some (l2, s)) as E2.
    { apply (IH (l1 ++ [n])); [by rewrite <- app_assoc|by rewrite last_snoc]. }
    by rewrite (bind_ok _ _ _ _ _ E2).
Qed.

(** The bucket of a queued node. *)
Definition rq_bucket (s : ssrq) (n : positive) : Z :=
  match rq_nodes s !! n with Some x => rn_q x | None => -1 end.

Lemma rq_order_sorted s bs : rq_rep s bs → StronglySorted (λ a b, rq_bucket s b <= rq_bucket s a) (rq_order bs).
Proof.
  intros R. pose proof R as [].
  assert (∀ k, (k <= length bs)%nat →
    StronglySorted (λ a b, rq_bucket s b <= rq_bucket s a) (rq_order (take k bs)) ∧
    (∀ n, n ∈ rq_order (take k bs) → rq_bucket s n < Z.of_nat k)) as Hk.
  { induction k as [|k IH]; intros Hk; [split; [constructor|set_solver]|].
    destruct (lookup_lt_is_Some_2 bs k) as [b Hb]; [lia|].
    destruct IH as [IH1 IH2]; [lia|]. unfold rq_order in *.
    rewrite (take_S_r _ _ _ Hb), reverse_snoc; simpl.
    assert (∀ n, n ∈ b → rq_bucket s n = Z.of_nat k) as Hbk.
    { intros n Hn. destruct (rr_node0 k b n Hb Hn) as (v & Hv & _). unfold rq_bucket. by rewrite Hv. }
    split; [|intros n [Hn|Hn]%elem_of_app; [rewrite Hbk by done; lia|specialize (IH2 n Hn); lia]].
    clear Hb. induction b as [|n b IHb]; simpl; [done|].
    constructor; [apply IHb; set_solver|]. apply Forall_forall. intros m [Hm|Hm]%elem_of_app.
    - rewrite !Hbk by set_solver. done.
    - specialize (IH2 m Hm). rewrite (Hbk n) by set_solver. lia. }
  rewrite <- (firstn_all bs). apply Hk. done.
Qed.

(** Walking a range queue with [ss_rqprev] from NULL terminates, visits every
    queued node exactly once, and visits the nodes in non-increasing bucket order, so
    the node the planner takes first has the highest bucket of all. *)
Theorem ss_rqprev_enumerates s bs : rq_rep s bs →
  rq_walk (S (length (concat bs))) None s = Some (rq_order bs, s) ∧
  rq_order bs ≡ₚ concat bs ∧ NoDup (rq_order bs) ∧
  StronglySorted (λ a b, rq_bucket s b <= rq_bucket s a) (rq_order bs).
Proof.
  intros R. pose proof R as [].
  assert (rq_order bs ≡ₚ concat bs) as HP by (unfold rq_order; by rewrite reverse_Permutation).
  split_and!; [|done|by rewrite HP|by apply rq_order_sorted].
  rewrite <- (Permutation_length HP). by apply (rq_walk_ok s bs []).
Qed.

(** [ss_rqupdate] moves a node to the end of the bucket its new value selects: it
    leaves every other node where it was, keeps the queue invariant (bucket counts,
    circles, [last] above every non-empty bucket), and takes a node that was never
    queued as well as one that was. *)
Theorem ss_rqupdate_moves s bs n v x : rq_rep s bs → rq_nodes s !! n = Some x →
  (n ∈ concat bs ∨ rn_q x = UINT32_MAX ∧ n ∉ concat bs) → 0 <= v < 2 ^ 32 →
  Z.of_nat (length (concat bs)) < 2 ^ 32 - 1 →
  ∃ i s', rq_pos s v = Some (Z.of_nat i) ∧ (i < length bs)%nat ∧
    ss_rqupdate n v s = Some ((), s') ∧
    rq_rep s' (alter (.++ [n]) i (filter (.≠ n) <$> bs)) ∧
    rq_nodes s' = <[n := mk_rqnode (Z.of_nat i) v]> (rq_nodes s).
Proof. apply rqupdate_ok. Qed.

(** A queue of four buckets of width 10 holding nodes 1, 2 and 3. *)
Definition rq_demo : option (Z * ssrq) :=
  match ss_rqinit true 10 3 ∅ ∅ with
  | Some (_, s) =>
      match (ss_rqinitnode 1;;; ss_rqinitnode 2;;; ss_rqinitnode 3;;;
             ss_rqadd 1 5;;; ss_rqadd 2 25;;; ss_rqadd 3 7) s with
      | Some (_, s) => Some (0, s)
      | None => None
      end
  | None => None
  end.
Definition rq_demo_state : ssrq :=
  Eval vm_compute in default (mk_rq 0 0 0 [] ∅ ∅) (snd <$> rq_demo).

Lemma rq_demo_rep : rq_rep rq_demo_state [[]; [1%positive; 3%positive]; []; [2%positive]].
Proof.
  split; [reflexivity|reflexivity|simpl; lia|simpl; lia|by vm_compute| | |
    | vm_compute; reflexivity|by vm_compute|].
  - intros i b Hi. do 4 (destruct i as [|i]; [injection Hi as <-;
      split; [reflexivity|split; [|vm_compute; repeat split; reflexivity]];
      apply (bool_decide_unpack _); vm_compute; exact I|]). done.
  - intros i b n Hi Hn. do 4 (destruct i as [|i]; [simplify_eq/=;
      rewrite list_elem_of_In in Hn; simpl in Hn; destruct_or?; subst; try done;
      (eexists; split; [vm_compute; reflexivity|vm_compute; reflexivity])|]). done.
  - simpl. repeat (apply NoDup_cons; split; [set_solver|]). apply NoDup_nil_2.
  - intros i b Hi. do 4 (destruct i as [|i]; [simplify_eq/=; try done; vm_compute; done|]). done.
Qed.

Lemma ss_rqprev_enumerates_witness :
  rq_walk 4 None rq_demo_state = Some ([2; 1; 3]%positive, rq_demo_state).
Proof. exact (proj1 (ss_rqprev_enumerates _ _ rq_demo_rep)). Defined.

Lemma ss_rqupdate_moves_witness :
  ∃ i s', rq_pos rq_demo_state 31 = Some (Z.of_nat i) ∧ (i < 4)%nat ∧
    ss_rqupdate 1 31 rq_demo_state = Some ((), s') ∧
    rq_rep s' (alter (.++ [1%positive]) i
      (filter (.≠ 1%positive) <$> [[]; [1%positive; 3%positive]; []; [2%positive]])) ∧
    rq_nodes s' = <[1%positive := mk_rqnode (Z.of_nat i) 31]> (rq_nodes rq_demo_state).
Proof.
  apply (ss_rqupdate_moves rq_demo_state [[]; [1%positive; 3%positive]; []; [2%positive]]
           1%positive 31 (mk_rqnode 1 5) rq_demo_rep).
  - vm_compute. reflexivity.
  - left. apply (bool_decide_unpack _). vm_compute. done.
  - lia.
  - vm_compute. reflexivity.
Defined.
