(* ===== verification/SsRb.v ===== *)
(** The intrusive red-black tree of src/deps/sophia/sophia/std/ss_rb.h and ss_rb.c.

    Nodes live at locations ([positive]); a node pointer is an [option], NULL being
    [None].  The state [ssrb] is the root pointer together with the store of nodes,
    and every function below is the C function, dereference by dereference, in the
    monad [cmd].  Loops take [S (size heap)] turns of fuel; the proofs (SsRbProofs.v,
    SsRbRemove.v) show that this is always enough on a well-formed tree. *)
From stdpp Require Import base list gmap.
From S2P Require Import Prelude.
Local Open Scope c_scope.

Abbreviation loc := positive.
Abbreviation ptr := (option positive).

Definition SS_RBBLACK : Z := 0.
Definition SS_RBRED : Z := 1.
Definition SS_RBUNDEF : Z := 2.

Record ssrbnode := mk_rbnode { rb_p : ptr; rb_l : ptr; rb_r : ptr; rb_color : Z }.
Record ssrb := mk_rb { rb_root : ptr; rb_heap : gmap loc ssrbnode }.

(** Field access through a pointer. *)
Definition rb_node (p : ptr) : cmd ssrb ssrbnode := cread (λ s, x ← p; rb_heap s !! x).
Definition rd_p (p : ptr) : cmd ssrb ptr := let! n := rb_node p in cret (rb_p n).
Definition rd_l (p : ptr) : cmd ssrb ptr := let! n := rb_node p in cret (rb_l n).
Definition rd_r (p : ptr) : cmd ssrb ptr := let! n := rb_node p in cret (rb_r n).
Definition rd_color (p : ptr) : cmd ssrb Z := let! n := rb_node p in cret (rb_color n).
Definition rb_upd (p : ptr) (f : ssrbnode → ssrbnode) : cmd ssrb () := λ s,
  match p with
  | Some x =>
      match rb_heap s !! x with
      | Some n => Some ((), mk_rb (rb_root s) (<[x := f n]> (rb_heap s)))
      | None => None
      end
  | None => None
  end.
Definition wr_p (p v : ptr) := rb_upd p (λ n, mk_rbnode v (rb_l n) (rb_r n) (rb_color n)).
Definition wr_l (p v : ptr) := rb_upd p (λ n, mk_rbnode (rb_p n) v (rb_r n) (rb_color n)).
Definition wr_r (p v : ptr) := rb_upd p (λ n, mk_rbnode (rb_p n) (rb_l n) v (rb_color n)).
Definition wr_color (p : ptr) (c : Z) :=
  rb_upd p (λ n, mk_rbnode (rb_p n) (rb_l n) (rb_r n) c).
Definition rd_root : cmd ssrb ptr := λ s, Some (rb_root s, s).
Definition wr_root (v : ptr) : cmd ssrb () := λ s, Some ((), mk_rb v (rb_heap s)).

Definition is_null (p : ptr) : bool := match p with None => true | Some _ => false end.
Definition ptr_eqb (p q : ptr) : bool := bool_decide (p = q).

(** A loop over the tree: the node count bounds its turns. *)
Definition rb_loop {A B} (body : A → cmd ssrb (A + B)) (a : A) : cmd ssrb B := λ s,
  cloop (S (size (rb_heap s))) body a s.

(** [while (n->f) n = n->f; return n;] *)
Definition rb_descend (f : ptr → cmd ssrb ptr) (n : ptr) : cmd ssrb ptr :=
  rb_loop (λ n, let! m := f n in cret (if is_null m then inr n else inl m)) n.

Definition ss_rbinit : cmd ssrb () := wr_root None.
Definition ss_rbinitnode (n : loc) : cmd ssrb () := λ s,
  Some ((), mk_rb (rb_root s) (<[n := mk_rbnode None None None 2]> (rb_heap s))).

(** The function the macro [ss_rbget] defines; [compare] is the macro's argument, the
    comparison of a node with the key.  A value outside -1, 0, 1 leaves [n] as it is. *)
Definition ss_rbget (compare : loc → Z) : cmd ssrb (Z * ptr) :=
  let! root := rd_root in
  rb_loop (λ st : ptr * (Z * ptr),
    match st.1 with
    | None => cret (inr st.2)
    | Some x =>
        let rc := compare x in
        if Z.eqb rc 0 then cret (inr (0%Z, st.1))
        else if Z.eqb rc (-1) then let! n := rd_r st.1 in cret (inl (n, (rc, st.1)))
        else if Z.eqb rc 1 then let! n := rd_l st.1 in cret (inl (n, (rc, st.1)))
        else cret (inl (st.1, (rc, st.1)))
    end) (root, (0%Z, None)).

(** The function the macro [ss_rbtruncate] defines: the nodes on which the macro's
    [executable] runs, in order. *)
Fixpoint rbtruncate (fuel : nat) (n : ptr) : cmd ssrb (list loc) :=
  match fuel with
  | O => cfail
  | S fuel =>
      let! l := rd_l n in
      let! a := (if is_null l then cret [] else rbtruncate fuel l) in
      let! r := rd_r n in
      let! b := (if is_null r then cret [] else rbtruncate fuel r) in
      cret (a ++ b ++ match n with Some x => [x] | None => [] end)
  end.
Definition ss_rbtruncate (n : ptr) : cmd ssrb (list loc) := λ s,
  rbtruncate (S (size (rb_heap s))) n s.

Definition ss_rbmin : cmd ssrb ptr :=
  let! n := rd_root in
  if is_null n then cret None else rb_descend rd_l n.

Definition ss_rbmax : cmd ssrb ptr :=
  let! n := rd_root in
  if is_null n then cret None else rb_descend rd_r n.

(** [while ((p = n->p) && p->f == n) n = p; return p;] *)
Definition rb_climb (f : ptr → cmd ssrb ptr) (n : ptr) : cmd ssrb ptr :=
  rb_loop (λ n,
    let! p := rd_p n in
    if is_null p then cret (inr p)
    else let! c := f p in cret (if ptr_eqb c n then inl p else inr p)) n.

Definition ss_rbnext (n : ptr) : cmd ssrb ptr :=
  if is_null n then ss_rbmin
  else
    let! r := rd_r n in
    if is_null r then rb_climb rd_r n else rb_descend rd_l r.

Definition ss_rbprev (n : ptr) : cmd ssrb ptr :=
  if is_null n then ss_rbmax
  else
    let! l := rd_l n in
    if is_null l then rb_climb rd_l n else rb_descend rd_r l.

Definition ss_rbrotate_left (n : ptr) : cmd ssrb () :=
  let p := n in
  let! q := rd_r n in
  let! parent := rd_p n in
  let! pp := rd_p p in
  (if is_null pp then wr_root q
   else
     let! pl := rd_l parent in
     if ptr_eqb pl p then wr_l parent q else wr_r parent q);;;
  wr_p q parent;;;
  wr_p p q;;;
  let! ql := rd_l q in
  wr_r p ql;;;
  let! pr := rd_r p in
  cwhen (negb (is_null pr)) (wr_p pr p);;;
  wr_l q p.

Definition ss_rbrotate_right (n : ptr) : cmd ssrb () :=
  let p := n in
  let! q := rd_l n in
  let! parent := rd_p n in
  let! pp := rd_p p in
  (if is_null pp then wr_root q
   else
     let! pl := rd_l parent in
     if ptr_eqb pl p then wr_l parent q else wr_r parent q);;;
  wr_p q parent;;;
  wr_p p q;;;
  let! qr := rd_r q in
  wr_l p qr;;;
  let! pl := rd_l p in
  cwhen (negb (is_null pl)) (wr_p pl p);;;
  wr_r q p.

(** [u && u->color == SS_RBRED] *)
Definition is_red (u : ptr) : cmd ssrb bool :=
  if is_null u then cret false else let! c := rd_color u in cret (Z.eqb c SS_RBRED).

(** One turn of the loop of [ss_rbset_fixup]. *)
Definition rbset_fixup_turn (n : ptr) : cmd ssrb (ptr + ()) :=
  let! p := rd_p n in
  let! red := is_red p in
  if negb red then cret (inr ()) else
  let! g := rd_p p in
  let! gl := rd_l g in
  if ptr_eqb p gl then
    let! u := rd_r g in
    let! ured := is_red u in
    if ured then
      wr_color g SS_RBRED;;; wr_color p SS_RBBLACK;;; wr_color u SS_RBBLACK;;;
      cret (inl g)
    else
      let! pr := rd_r p in
      let! np := (if ptr_eqb n pr then
                    ss_rbrotate_left p;;;
                    let! p' := rd_p p in cret (p, p')
                  else cret (n, p)) in
      wr_color g SS_RBRED;;; wr_color np.2 SS_RBBLACK;;;
      ss_rbrotate_right g;;;
      cret (inl np.1)
  else
    let! u := rd_l g in
    let! ured := is_red u in
    if ured then
      wr_color g SS_RBRED;;; wr_color p SS_RBBLACK;;; wr_color u SS_RBBLACK;;;
      cret (inl g)
    else
      let! pl := rd_l p in
      let! np := (if ptr_eqb n pl then
                    ss_rbrotate_right p;;;
                    let! p' := rd_p p in cret (p, p')
                  else cret (n, p)) in
      wr_color g SS_RBRED;;; wr_color np.2 SS_RBBLACK;;;
      ss_rbrotate_left g;;;
      cret (inl np.1).

Definition ss_rbset_fixup (n : ptr) : cmd ssrb () :=
  rb_loop rbset_fixup_turn n;;;
  let! root := rd_root in
  wr_color root SS_RBBLACK.

Definition ss_rbset (p : ptr) (prel : Z) (n : ptr) : cmd ssrb () :=
  wr_color n SS_RBRED;;;
  wr_p n p;;;
  wr_l n None;;;
  wr_r n None;;;
  (if negb (is_null p) then
     cassert (negb (Z.eqb prel 0));;;
     if Z.gtb prel 0 then wr_l p n else wr_r p n
   else wr_root n);;;
  ss_rbset_fixup n.

Definition ss_rbreplace (o n : ptr) : cmd ssrb () :=
  let! p := rd_p o in
  (if negb (is_null p) then
     let! pl := rd_l p in
     if ptr_eqb pl o then wr_l p n else wr_r p n
   else wr_root n);;;
  let! l := rd_l o in
  cwhen (negb (is_null l)) (wr_p l n);;;
  let! r := rd_r o in
  cwhen (negb (is_null r)) (wr_p r n);;;
  let! c := rb_node o in
  rb_upd n (λ _, c).

(** The first half of [ss_rbremove]: takes [n] out of the tree and returns the
    values of the locals [n], [p] and [color] the rebalancing starts from. *)
Definition rbremove_unlink (n : ptr) : cmd ssrb (ptr * ptr * Z) :=
  let! l := rd_l n in
  let! r := rd_r n in
  let! x := (if is_null l then cret r
             else if is_null r then cret l
             else rb_descend rd_l r) in
  let! p := rd_p n in
  (if negb (is_null p) then
     let! pl := rd_l p in
     if ptr_eqb pl n then wr_l p x else wr_r p x
   else wr_root x);;;
  let! npc :=
    (if negb (is_null l) && negb (is_null r) then
       let! color := rd_color x in
       let! nc := rd_color n in wr_color x nc;;;
       wr_l x l;;;
       wr_p l x;;;
       if negb (ptr_eqb x r) then
         let! p := rd_p x in
         let! np := rd_p n in wr_p x np;;;
         let! n := rd_r x in
         wr_l p n;;;
         wr_r x r;;;
         wr_p r x;;;
         cret (n, p, color)
       else
         wr_p x p;;;
         let! n := rd_r x in
         cret (n, x, color)
     else
       let! color := rd_color n in
       cret (x, p, color)) in
  cwhen (negb (is_null npc.1.1)) (wr_p npc.1.1 npc.1.2);;;
  cret npc.

(** [!c || (c->color == SS_RBBLACK)] *)
Definition is_black (c : ptr) : cmd ssrb bool :=
  if is_null c then cret true else let! z := rd_color c in cret (Z.eqb z SS_RBBLACK).

(** The jump to the loop condition after [s->color = SS_RBRED; n = p; p = p->p;]. *)
Definition rbremove_continue (n : ptr) : cmd ssrb ((ptr * ptr) + ptr) :=
  let! p := rd_p n in
  let! c := rd_color n in
  cret (if Z.eqb c SS_RBBLACK then inl (n, p) else inr n).

(** The rest of a turn of the rebalancing loop of [ss_rbremove] once the sibling [s] of the
    left child [n] of [p] is black, and its mirror image. *)
Definition rbremove_left (p s : ptr) : cmd ssrb ((ptr * ptr) + ptr) :=
  let! sl := rd_l s in
  let! bl := is_black sl in
  let! br := (if bl then let! sr := rd_r s in is_black sr else cret false) in
  if bl && br then wr_color s SS_RBRED;;; rbremove_continue p
  else
    let! sr := rd_r s in
    let! br := is_black sr in
    let! s := (if br then
                 let! sl := rd_l s in
                 wr_color sl SS_RBBLACK;;; wr_color s SS_RBRED;;;
                 ss_rbrotate_right s;;; rd_r p
               else cret s) in
    let! pc := rd_color p in
    wr_color s pc;;; wr_color p SS_RBBLACK;;;
    let! sr := rd_r s in
    wr_color sr SS_RBBLACK;;;
    ss_rbrotate_left p;;;
    let! root := rd_root in
    cret (inr root).
Definition rbremove_right (p s : ptr) : cmd ssrb ((ptr * ptr) + ptr) :=
  let! sl := rd_l s in
  let! bl := is_black sl in
  let! br := (if bl then let! sr := rd_r s in is_black sr else cret false) in
  if bl && br then wr_color s SS_RBRED;;; rbremove_continue p
  else
    let! sl := rd_l s in
    let! bl := is_black sl in
    let! s := (if bl then
                 let! sr := rd_r s in
                 wr_color sr SS_RBBLACK;;; wr_color s SS_RBRED;;;
                 ss_rbrotate_left s;;; rd_l p
               else cret s) in
    let! pc := rd_color p in
    wr_color s pc;;; wr_color p SS_RBBLACK;;;
    let! sl := rd_l s in
    wr_color sl SS_RBBLACK;;;
    ss_rbrotate_right p;;;
    let! root := rd_root in
    cret (inr root).

(** One turn of the rebalancing loop of [ss_rbremove]. *)
Definition rbremove_turn (np : ptr * ptr) : cmd ssrb ((ptr * ptr) + ptr) :=
  let n := np.1 in
  let p := np.2 in
  let! root := rd_root in
  if ptr_eqb n root then cret (inr n) else
  let! pl := rd_l p in
  if ptr_eqb n pl then
    let! s := rd_r p in
    let! sc := rd_color s in
    let! s := (if Z.eqb sc SS_RBRED then
                 wr_color s SS_RBBLACK;;; wr_color p SS_RBRED;;;
                 ss_rbrotate_left p;;; rd_r p
               else cret s) in
    rbremove_left p s
  else
    let! s := rd_l p in
    let! sc := rd_color s in
    let! s := (if Z.eqb sc SS_RBRED then
                 wr_color s SS_RBBLACK;;; wr_color p SS_RBRED;;;
                 ss_rbrotate_right p;;; rd_l p
               else cret s) in
    rbremove_right p s.

Definition ss_rbremove (n : ptr) : cmd ssrb () :=
  let! c := rd_color n in
  if Z.eqb c SS_RBUNDEF then cret () else
  let! npc := rbremove_unlink n in
  let n := npc.1.1 in
  if Z.eqb npc.2 SS_RBRED then cret () else
  let! red := is_red n in
  if red then wr_color n SS_RBBLACK else
  let! n := rb_loop rbremove_turn npc.1 in
  cwhen (negb (is_null n)) (wr_color n SS_RBBLACK).
