(* ===== verification/SsRbProofs.v ===== *)
(** What the store of a red-black tree represents, and the proofs of search, the
    in-order walk, the rotations and the insertion of ss_rb.c.

    A tree in the store is described by a zipper: the subtree [t] at a focus and the
    context [ctx] around it, innermost frame first.  [zrep s ctx t] says that the store
    holds exactly the parent/child links of the zipper.  Rotations, recolourings and
    moves of the focus are lemmas on zippers, so that the rebalancing loops are proved
    by following the zipper, without looking at the store again. *)
From stdpp Require Import base list gmap.
From S2P Require Import Prelude SsRb.
Local Open Scope c_scope.

Inductive color := Red | Black.
Definition cz (c : color) : Z := match c with Red => SS_RBRED | Black => SS_RBBLACK end.

Inductive tree := E | T (c : color) (l : tree) (x : loc) (r : tree).

(** [FL c x r]: the focus is the left child of [x], whose right child is [r]. *)
Inductive frame := FL (c : color) (x : loc) (r : tree) | FR (c : color) (l : tree) (x : loc).
Abbreviation ctx := (list frame).

Definition fnode (f : frame) : loc := match f with FL _ x _ | FR _ _ x => x end.
Definition fcolor (f : frame) : color := match f with FL c _ _ | FR c _ _ => c end.
Definition fsib (f : frame) : tree := match f with FL _ _ t | FR _ t _ => t end.
Definition fplug (f : frame) (t : tree) : tree :=
  match f with FL c x r => T c t x r | FR c l x => T c l x t end.
Definition root (t : tree) : ptr := match t with E => None | T _ _ x _ => Some x end.
Definition parent (k : ctx) : ptr := match k with [] => None | f :: _ => Some (fnode f) end.
Fixpoint plug (k : ctx) (t : tree) : tree :=
  match k with [] => t | f :: k => plug k (fplug f t) end.

Fixpoint inorder (t : tree) : list loc :=
  match t with E => [] | T _ l x r => inorder l ++ x :: inorder r end.
(** The nodes to the left and to the right of the focus. *)
Fixpoint cleft (k : ctx) : list loc :=
  match k with
  | [] => []
  | FL _ _ _ :: k => cleft k
  | FR _ l x :: k => cleft k ++ inorder l ++ [x]
  end.
Fixpoint cright (k : ctx) : list loc :=
  match k with
  | [] => []
  | FL _ x r :: k => x :: inorder r ++ cright k
  | FR _ _ _ :: k => cright k
  end.

Lemma inorder_plug k t : inorder (plug k t) = cleft k ++ inorder t ++ cright k.
Proof.
  revert t. induction k as [|[c x r|c l x] k IH]; intros t; simpl.
  - by rewrite app_nil_r.
  - rewrite IH. simpl. by rewrite <- !app_assoc.
  - rewrite IH. simpl. by rewrite <- !app_assoc.
Qed.

(** * How often a node occurs in a tree, in a context

    Counting occurrences turns separation into linear arithmetic. *)
Definition one (x y : loc) : nat := if decide (x = y) then 1 else 0.
Fixpoint own (x : loc) (t : tree) : nat :=
  match t with E => 0 | T _ l y r => one x y + own x l + own x r end.
Definition fown (x : loc) (f : frame) : nat := one x (fnode f) + own x (fsib f).
Fixpoint cown (x : loc) (k : ctx) : nat :=
  match k with [] => 0 | f :: k => fown x f + cown x k end.

Lemma one_refl x : one x x = 1.
Proof. unfold one. by rewrite decide_True. Qed.
Lemma own_root t x : root t = Some x → 1 <= own x t.
Proof. destruct t; simpl; [done|]. intros [= ->]. rewrite one_refl. lia. Qed.
Lemma own_inorder t x : own x t ≠ 0 ↔ x ∈ inorder t.
Proof.
  induction t as [|c l IHl y r IHr]; simpl; [set_solver|].
  rewrite elem_of_app, elem_of_cons, <- IHl, <- IHr. unfold one. case_decide; naive_solver lia.
Qed.
Lemma own_NoDup t : (∀ x, own x t <= 1) → NoDup (inorder t).
Proof.
  induction t as [|c l IHl y r IHr]; simpl; intros Ho; [constructor|].
  assert (∀ x, own x l <= 1 ∧ own x r <= 1) as Hlr by (intros x; specialize (Ho x); lia).
  apply NoDup_app. split_and!; [apply IHl; naive_solver| |].
  - intros x Hx%own_inorder. rewrite elem_of_cons, <- own_inorder. specialize (Ho x).
    intros [->|Hr]; [rewrite one_refl in Ho|]; lia.
  - apply NoDup_cons. split; [|apply IHr; naive_solver].
    rewrite <- own_inorder. specialize (Ho y). rewrite one_refl in Ho. lia.
Qed.
Lemma own_plug k x t : own x (plug k t) = own x t + cown x k.
Proof.
  revert t. induction k as [|[c y r|c l y] k IH]; intros t; simpl; [lia| |];
    rewrite IH; unfold fown; simpl; lia.
Qed.

(** * The representation predicate *)

Fixpoint rep (h : gmap loc ssrbnode) (par : ptr) (t : tree) : Prop :=
  match t with
  | E => True
  | T c l x r =>
      h !! x = Some (mk_rbnode par (root l) (root r) (cz c)) ∧
      rep h (Some x) l ∧ rep h (Some x) r
  end.
Definition frep (h : gmap loc ssrbnode) (hole par : ptr) (f : frame) : Prop :=
  match f with
  | FL c x r => h !! x = Some (mk_rbnode par hole (root r) (cz c)) ∧ rep h (Some x) r
  | FR c l x => h !! x = Some (mk_rbnode par (root l) hole (cz c)) ∧ rep h (Some x) l
  end.
Fixpoint crep (h : gmap loc ssrbnode) (hole : ptr) (k : ctx) : Prop :=
  match k with
  | [] => True
  | f :: k => frep h hole (parent k) f ∧ crep h (Some (fnode f)) k
  end.
Definition croot (hole : ptr) (k : ctx) : ptr :=
  match last k with Some f => Some (fnode f) | None => hole end.

(** The focus [t] and its context [k] are in the store; every node outside them is as in
    the store [h0]. *)
Record zrep (h0 : gmap loc ssrbnode) (s : ssrb) (k : ctx) (t : tree) : Prop := mk_zrep {
  z_root : rb_root s = croot (root t) k;
  z_tree : rep (rb_heap s) (parent k) t;
  z_ctx : crep (rb_heap s) (root t) k;
  z_own : ∀ x, own x t + cown x k <= 1;
  z_out : ∀ x, own x t + cown x k = 0 → rb_heap s !! x = h0 !! x
}.

(** A tree is a zipper focused on the root. *)
Definition rb_tree (s : ssrb) (t : tree) : Prop := zrep (rb_heap s) s [] t.

(** ** Moving the focus *)

Lemma croot_cons hole f k : croot hole (f :: k) = croot (Some (fnode f)) k.
Proof. unfold croot. rewrite last_cons. by destruct (last k). Qed.
Lemma zrep_up h0 s f k t : zrep h0 s (f :: k) t ↔ zrep h0 s k (fplug f t).
Proof.
  assert (root (fplug f t) = Some (fnode f)) as Er by by destruct f.
  split; intros [Hr Ht Hc Ho Hf]; rewrite ?Er, ?croot_cons in *; destruct f as [c x r|c l x];
    simpl in *; split; rewrite ?croot_cons; simpl; try tauto;
    try (intros y; specialize (Ho y); unfold fown in *; simpl in *; lia);
    intros y Hy; apply Hf; unfold fown in *; simpl in *; lia.
Qed.
Lemma zrep_left h0 s k c l x r : zrep h0 s k (T c l x r) ↔ zrep h0 s (FL c x r :: k) l.
Proof. by rewrite zrep_up. Qed.
Lemma zrep_right h0 s k c l x r : zrep h0 s k (T c l x r) ↔ zrep h0 s (FR c l x :: k) r.
Proof. by rewrite zrep_up. Qed.
Lemma zrep_plug h0 s k t : zrep h0 s k t ↔ zrep h0 s [] (plug k t).
Proof.
  revert t. induction k as [|f k IH]; intros t; simpl; [done|]. by rewrite zrep_up, IH.
Qed.
Lemma zrep_tree h0 s k t : zrep h0 s k t → rb_tree s (plug k t).
Proof. rewrite zrep_plug. intros []. by split. Qed.

(** A node of the tree can be brought into focus. *)
Lemma focus_inorder t x l1 l2 : inorder t = l1 ++ x :: l2 → NoDup (inorder t) →
  ∃ k c l r, t = plug k (T c l x r) ∧ l1 = cleft k ++ inorder l ∧ l2 = inorder r ++ cright k.
Proof.
  intros Ht Hnd.
  assert (∀ t, x ∈ inorder t → ∃ k c l r, t = plug k (T c l x r)) as Hf.
  { clear. induction t as [|c l IHl y r IHr]; simpl; [set_solver|].
    intros [Hx|[->|Hx]%elem_of_cons]%elem_of_app.
    - destruct (IHl Hx) as (k & c' & l' & r' & ->). exists (k ++ [FL c y r]), c', l', r'.
      clear. generalize (T c' l' x r'). induction k as [|f k IH]; intros t; simpl; [done|]. by rewrite <- IH.
    - by exists [], c, l, r.
    - destruct (IHr Hx) as (k & c' & l' & r' & ->). exists (k ++ [FR c l y]), c', l', r'.
      clear. generalize (T c' l' x r'). induction k as [|f k IH]; intros t; simpl; [done|]. by rewrite <- IH. }
  destruct (Hf t) as (k & c & l & r & ->); [rewrite Ht; set_solver|].
  exists k, c, l, r. split; [done|].
  rewrite inorder_plug in Ht, Hnd; simpl in Ht, Hnd.
  rewrite <- app_assoc, app_assoc in Ht, Hnd; simpl in Ht, Hnd.
  by apply (NoDup_split_inj x) in Ht as [<- <-].
Qed.

(** * Access through pointers *)

Lemma wp_rd_p x n s Q : rb_heap s !! x = Some n → Q (rb_p n) s → wp (rd_p (Some x)) s Q.
Proof. intros H. unfold wp, rd_p, rb_node, cbind, cread. simpl. by rewrite H. Qed.
Lemma wp_rd_l x n s Q : rb_heap s !! x = Some n → Q (rb_l n) s → wp (rd_l (Some x)) s Q.
Proof. intros H. unfold wp, rd_l, rb_node, cbind, cread. simpl. by rewrite H. Qed.
Lemma wp_rd_r x n s Q : rb_heap s !! x = Some n → Q (rb_r n) s → wp (rd_r (Some x)) s Q.
Proof. intros H. unfold wp, rd_r, rb_node, cbind, cread. simpl. by rewrite H. Qed.
Lemma wp_rd_color x n s Q :
  rb_heap s !! x = Some n → Q (rb_color n) s → wp (rd_color (Some x)) s Q.
Proof. intros H. unfold wp, rd_color, rb_node, cbind, cread. simpl. by rewrite H. Qed.
Lemma wp_rb_node x n s Q : rb_heap s !! x = Some n → Q n s → wp (rb_node (Some x)) s Q.
Proof. intros H. unfold wp, rb_node, cread. simpl. by rewrite H. Qed.
Lemma wp_upd x n f s (Q : () → ssrb → Prop) : rb_heap s !! x = Some n →
  Q () (mk_rb (rb_root s) (<[x := f n]> (rb_heap s))) → wp (rb_upd (Some x) f) s Q.
Proof. intros H. unfold wp, rb_upd. by rewrite H. Qed.
Lemma wp_rd_root s (Q : ptr → ssrb → Prop) : Q (rb_root s) s → wp rd_root s Q.
Proof. done. Qed.
Lemma wp_wr_root v s (Q : () → ssrb → Prop) : Q () (mk_rb v (rb_heap s)) → wp (wr_root v) s Q.
Proof. done. Qed.

(** * Framing *)

Lemma rep_agree h h' par t :
  rep h par t → (∀ x, own x t ≠ 0 → h' !! x = h !! x) → rep h' par t.
Proof.
  revert par. induction t as [|c l IHl x r IHr]; intros par; simpl; [done|].
  intros (Hx & Hl & Hr) Hag. split_and!.
  - rewrite Hag; [done|]. rewrite one_refl. lia.
  - apply IHl; [done|]. intros y Hy. apply Hag. lia.
  - apply IHr; [done|]. intros y Hy. apply Hag. lia.
Qed.
Lemma crep_agree h h' hole k :
  crep h hole k → (∀ x, cown x k ≠ 0 → h' !! x = h !! x) → crep h' hole k.
Proof.
  revert hole. induction k as [|f k IH]; intros hole; simpl; [done|].
  intros [Hf Hk] Hag. split.
  - destruct f as [c x r|c l x]; simpl in *; unfold fown in *; simpl in *; destruct Hf as [Hx Hr];
      (split; [rewrite Hag; [done|rewrite one_refl; lia]|]);
      (eapply rep_agree; [done|]; intros y Hy; apply Hag; lia).
  - apply IH; [done|]. intros y Hy. apply Hag. lia.
Qed.

(** The node of a frame, and the redirection of its link to the hole. *)
Definition fcell (hole par : ptr) (f : frame) : ssrbnode :=
  match f with
  | FL c _ r => mk_rbnode par hole (root r) (cz c)
  | FR c l _ => mk_rbnode par (root l) hole (cz c)
  end.
Lemma fcell_lookup h hole par f : frep h hole par f → h !! fnode f = Some (fcell hole par f).
Proof. destruct f; by intros [? _]. Qed.
Lemma crep_relink h hole q f k : crep h hole (f :: k) → (∀ x, cown x (f :: k) <= 1) →
  crep (<[fnode f := fcell q (parent k) f]> h) q (f :: k).
Proof.
  intros [Hf Hc] Ho. specialize (Ho (fnode f)). simpl in Ho. unfold fown in Ho.
  rewrite one_refl in Ho. split.
  - destruct f as [c x r|c l x]; simpl in *; (split; [by rewrite lookup_insert_eq|]);
      (eapply rep_agree; [apply Hf|]; intros y Hy; apply lookup_insert_ne; intros <-; lia).
  - eapply crep_agree; [done|]. intros x Hx. apply lookup_insert_ne. intros <-. lia.
Qed.
Lemma fnode_out f k n (h : gmap loc ssrbnode) x : cown x (f :: k) = 0 → <[fnode f := n]> h !! x = h !! x.
Proof.
  intros Hx. apply lookup_insert_ne. intros <-. simpl in Hx. unfold fown in Hx.
  rewrite one_refl in Hx. lia.
Qed.

(** The tests that find which link of the parent leads to the focus: [l->p] and the
    left child of [l->p] are consulted, then the link is redirected to [q]. *)
Lemma wp_relink k p q s (Q : () → ssrb → Prop) :
  rb_root s = croot (Some p) k → crep (rb_heap s) (Some p) k → cown p k = 0 →
  (∀ x, cown x k <= 1) →
  (∀ h', crep h' q k → (∀ x, cown x k = 0 → h' !! x = rb_heap s !! x) →
     Q () (mk_rb (croot q k) h')) →
  wp (if is_null (parent k) then wr_root q
      else let! pl := rd_l (parent k) in
           if ptr_eqb pl (Some p) then wr_l (parent k) q else wr_r (parent k) q) s Q.
Proof.
  intros Hr Hc Hp Hle HQ. destruct k as [|f k].
  { apply wp_wr_root. by apply HQ. }
  rewrite croot_cons in Hr. setoid_rewrite croot_cons in HQ. apply wp_bind. cbn [parent].
  eapply wp_rd_l; [by apply fcell_lookup, Hc|].
  assert (∀ u, fcell q (parent k) f = u →
            Q () (mk_rb (rb_root s) (<[fnode f := u]> (rb_heap s)))) as HQ'.
  { intros u <-. rewrite Hr. apply HQ; [by eapply crep_relink|]. intros x. apply fnode_out. }
  destruct f as [c x r|c l x]; simpl; unfold ptr_eqb.
  - rewrite bool_decide_eq_true_2 by done. eapply wp_upd; [apply Hc|]. by apply HQ'.
  - rewrite bool_decide_eq_false_2; [eapply wp_upd; [apply Hc|]; by apply HQ'|].
    intros E%own_root. simpl in Hp. unfold fown in Hp. simpl in Hp. lia.
Qed.

Lemma wp_relink_neg k p q s (Q : () → ssrb → Prop) :
  rb_root s = croot (Some p) k → crep (rb_heap s) (Some p) k → cown p k = 0 →
  (∀ x, cown x k <= 1) →
  (∀ h', crep h' q k → (∀ x, cown x k = 0 → h' !! x = rb_heap s !! x) →
     Q () (mk_rb (croot q k) h')) →
  wp (if negb (is_null (parent k))
      then let! pl := rd_l (parent k) in
           if ptr_eqb pl (Some p) then wr_l (parent k) q else wr_r (parent k) q
      else wr_root q) s Q.
Proof. intros. pose proof (wp_relink k p q s Q) as W. destruct k; by apply W. Qed.

(** * Symbolic execution

    [lk] evaluates a read of an updated store, [rbstep] runs one access. *)
Ltac lk :=
  cbn [rb_heap];
  repeat first [rewrite lookup_insert_eq; reflexivity | rewrite lookup_insert_ne by congruence];
  eassumption.
Ltac rbstep :=
  lazymatch goal with
  | |- wp (cbind _ _) _ _ => apply wp_bind
  | |- wp (rd_p _) _ _ => eapply wp_rd_p; [lk|]
  | |- wp (rd_l _) _ _ => eapply wp_rd_l; [lk|]
  | |- wp (rd_r _) _ _ => eapply wp_rd_r; [lk|]
  | |- wp (rd_color _) _ _ => eapply wp_rd_color; [lk|]
  | |- wp rd_root _ _ => apply wp_rd_root
  | |- wp (wr_root _) _ _ => apply wp_wr_root
  | |- wp (cwhen _ _) _ _ => apply wp_when
  | |- wp (cret _) _ _ => apply wp_ret
  | |- wp _ _ _ => eapply wp_upd; [lk|]
  end; simpl.
(** Facts of the occurrence counts at node [x]. *)
Ltac own_at H x :=
  let Hx := fresh "Ho" in
  pose proof (H x) as Hx; simpl in Hx; unfold fown in Hx; simpl in Hx;
  rewrite ?one_refl in Hx.

Lemma rep_upd h p n par t : own p t = 0 → rep h par t → rep (<[p := n]> h) par t.
Proof.
  intros Hp Ht. eapply rep_agree; [done|]. intros x Hx. apply lookup_insert_ne. by intros ->.
Qed.
Lemma crep_upd h p n hole k : cown p k = 0 → crep h hole k → crep (<[p := n]> h) hole k.
Proof.
  intros Hp Ht. eapply crep_agree; [done|]. intros x Hx. apply lookup_insert_ne. by intros ->.
Qed.
Lemma own_ne x y t : own x t = 0 → own y t ≠ 0 → x ≠ y.
Proof. by intros ? ? ->. Qed.
Lemma one_ne x y : x ≠ y → one x y = 0.
Proof. intros. unfold one. by rewrite decide_False. Qed.
Lemma one_0 x y : one x y = 0 → x ≠ y.
Proof. intros H ->. by rewrite one_refl in H. Qed.

(** The parent pointer of a subtree's root is rewritten. *)
Definition set_par (h : gmap loc ssrbnode) (par : ptr) (t : tree) : gmap loc ssrbnode :=
  match t with
  | E => h
  | T c l x r => <[x := mk_rbnode par (root l) (root r) (cz c)]> h
  end.
Lemma set_par_rep h par par' t : (∀ x, own x t <= 1) → rep h par t → rep (set_par h par' t) par' t.
Proof.
  destruct t as [|c l x r]; simpl; [done|]. intros Ho (Hx & Hl & Hr).
  own_at Ho x. split_and!; [by rewrite lookup_insert_eq| |]; apply rep_upd; (done || lia).
Qed.
Lemma set_par_ne h par t x : own x t = 0 → set_par h par t !! x = h !! x.
Proof.
  destruct t as [|c l y r]; simpl; [done|]. intros Hx. apply lookup_insert_ne.
  apply not_eq_sym, one_0. lia.
Qed.
Lemma wp_set_par h par0 par t rt Q :
  rep h par0 t → Q () (mk_rb rt (set_par h par t)) →
  wp (cwhen (negb (is_null (root t))) (wr_p (root t) par)) (mk_rb rt h) Q.
Proof.
  intros Ht HQ. apply wp_when. destruct t as [|c l x r]; simpl in *; [done|].
  eapply wp_upd; [apply Ht|]. done.
Qed.

(** * Rotations *)

Section zippers.
Context (h0 : gmap loc ssrbnode).

(** Framing of the updates a rotation makes around nodes [p], [q] and subtree [b]. *)
Ltac sep Ho x := specialize (Ho x); simpl in Ho; unfold fown in Ho; simpl in Ho;
  split_and!; (apply one_0; lia) || lia.
Lemma rep_rot h b p q par0 n1 n2 n3 n4 par t :
  (∀ x, own x t ≠ 0 → x ≠ p ∧ x ≠ q ∧ own x b = 0) → rep h par t →
  rep (<[q:=n1]> (set_par (<[p:=n2]> (<[p:=n3]> (<[q:=n4]> h))) par0 b)) par t.
Proof.
  intros Ht Hrep. eapply rep_agree; [done|]. intros x Hx. destruct (Ht x Hx) as (? & ? & ?).
  rewrite lookup_insert_ne, set_par_ne, !lookup_insert_ne; auto.
Qed.
Lemma rot_out h b p q par0 n1 n2 n3 n4 x : x ≠ p ∧ x ≠ q ∧ own x b = 0 →
  <[q:=n1]> (set_par (<[p:=n2]> (<[p:=n3]> (<[q:=n4]> h))) par0 b) !! x = h !! x.
Proof. intros (? & ? & ?). rewrite lookup_insert_ne, set_par_ne, !lookup_insert_ne; auto. Qed.
Lemma rep_rot_mid h b p q n1 n2 n3 n4 par :
  own p b = 0 → own q b = 0 → (∀ x, own x b <= 1) → rep h par b →
  rep (<[q:=n1]> (set_par (<[p:=n2]> (<[p:=n3]> (<[q:=n4]> h))) (Some p) b)) (Some p) b.
Proof.
  intros. apply rep_upd; [lia|]. eapply set_par_rep; [done|]. repeat apply rep_upd; (lia || done).
Qed.

Lemma rotate_left_ok s k c a p d b q e (Q : () → ssrb → Prop) :
  zrep h0 s k (T c a p (T d b q e)) →
  (∀ s', zrep h0 s' k (T d (T c a p b) q e) → Q () s') →
  wp (ss_rbrotate_left (Some p)) s Q.
Proof.
  intros [Hr (Hp & Ha & Hq & Hb & He) Hc Ho Hf] HQ. simpl in *. unfold ss_rbrotate_left.
  own_at Ho p. own_at Ho q. assert (p ≠ q) by (apply one_0; lia).
  do 3 (rbstep; rbstep). rbstep.
  apply wp_relink; [done|done|lia|intros x; specialize (Ho x); lia|].
  intros h' Hc' Hag.
  assert (h' !! p = rb_heap s !! p) as Ep by (apply Hag; lia). rewrite Hp in Ep.
  assert (h' !! q = rb_heap s !! q) as Eq by (apply Hag; lia). rewrite Hq in Eq.
  assert (∀ par t, rep (rb_heap s) par t → (∀ x, own x t ≠ 0 → cown x k = 0) → rep h' par t) as Hfr.
  { intros par t Ht Hk. eapply rep_agree; [done|]. intros x Hx. apply Hag, Hk, Hx. }
  apply Hfr in Ha, Hb, He; try (intros x Hx; specialize (Ho x); lia).
  do 5 (rbstep; rbstep). rbstep.
  eapply wp_set_par; [repeat apply rep_upd; (lia || done)|].
  eapply wp_upd; [cbn [rb_heap]; rewrite set_par_ne by lia; lk|]. simpl. apply HQ. split; simpl.
  - done.
  - rewrite lookup_insert_eq, lookup_insert_ne, set_par_ne, lookup_insert_eq by (congruence || lia).
    split_and!; [done|done| | |]; try (apply rep_rot; [intros x Hx; sep Ho x|done]).
    eapply rep_rot_mid; (done || lia || (intros x; specialize (Ho x); lia)).
  - eapply crep_agree; [done|]. intros x Hx. apply rot_out. sep Ho x.
  - intros x. specialize (Ho x). lia.
  - intros x Hx. rewrite rot_out by sep Ho x. rewrite Hag by lia. apply Hf. lia.
Qed.

Lemma rotate_right_ok s k c d a q b p e (Q : () → ssrb → Prop) :
  zrep h0 s k (T c (T d a q b) p e) →
  (∀ s', zrep h0 s' k (T d a q (T c b p e)) → Q () s') →
  wp (ss_rbrotate_right (Some p)) s Q.
Proof.
  intros [Hr (Hp & (Hq & Ha & Hb) & He) Hc Ho Hf] HQ. simpl in *. unfold ss_rbrotate_right.
  own_at Ho p. own_at Ho q. assert (p ≠ q) by (apply one_0; lia).
  do 3 (rbstep; rbstep). rbstep.
  apply wp_relink; [done|done|lia|intros x; specialize (Ho x); lia|].
  intros h' Hc' Hag.
  assert (h' !! p = rb_heap s !! p) as Ep by (apply Hag; lia). rewrite Hp in Ep.
  assert (h' !! q = rb_heap s !! q) as Eq by (apply Hag; lia). rewrite Hq in Eq.
  assert (∀ par t, rep (rb_heap s) par t → (∀ x, own x t ≠ 0 → cown x k = 0) → rep h' par t) as Hfr.
  { intros par t Ht Hk. eapply rep_agree; [done|]. intros x Hx. apply Hag, Hk, Hx. }
  apply Hfr in Ha, Hb, He; try (intros x Hx; specialize (Ho x); lia).
  do 5 (rbstep; rbstep). rbstep.
  eapply wp_set_par; [repeat apply rep_upd; (lia || done)|].
  eapply wp_upd; [cbn [rb_heap]; rewrite set_par_ne by lia; lk|]. simpl. apply HQ. split; simpl.
  - done.
  - rewrite lookup_insert_eq, lookup_insert_ne, set_par_ne, lookup_insert_eq by (congruence || lia).
    split_and!; [done| |done| |]; try (apply rep_rot; [intros x Hx; sep Ho x|done]).
    eapply rep_rot_mid; (done || lia || (intros x; specialize (Ho x); lia)).
  - eapply crep_agree; [done|]. intros x Hx. apply rot_out. sep Ho x.
  - intros x. specialize (Ho x). lia.
  - intros x Hx. rewrite rot_out by sep Ho x. rewrite Hag by lia. apply Hf. lia.
Qed.

(** * Moves and recolourings *)

Lemma zrep_move s k' t' k t : plug k t = plug k' t' → zrep h0 s k t → zrep h0 s k' t'.
Proof. intros E. by rewrite (zrep_plug _ _ k), (zrep_plug _ _ k'), E. Qed.

Lemma wr_color_ok s k c c' l x r (Q : () → ssrb → Prop) :
  zrep h0 s k (T c l x r) →
  (∀ s', zrep h0 s' k (T c' l x r) → Q () s') → wp (wr_color (Some x) (cz c')) s Q.
Proof.
  intros [Hr (Hx & Hl & Hrr) Hc Ho Hf] HQ. own_at Ho x. eapply wp_upd; [done|]. apply HQ.
  split; simpl in *; [done| |by apply crep_upd; [lia|]|done|].
  - rewrite lookup_insert_eq. split_and!; [done| |]; (apply rep_upd; [lia|done]).
  - intros y Hy. rewrite lookup_insert_ne; [by apply Hf|]. apply not_eq_sym, one_0. lia.
Qed.

Lemma z_at s k c l x r : zrep h0 s k (T c l x r) →
  rb_heap s !! x = Some (mk_rbnode (parent k) (root l) (root r) (cz c)).
Proof. by intros [_ [? _] _ _ _]. Qed.

Lemma length_ctx_size s k t : zrep h0 s k t → length k + length (inorder t) <= size (rb_heap s).
Proof.
  intros Hz. transitivity (length (inorder (plug k t))).
  { rewrite inorder_plug, !length_app.
    assert (length k <= length (cleft k) + length (cright k)); [|lia].
    clear. induction k as [|[c x r|c l x] k IH]; simpl; rewrite ?length_app; simpl; lia. }
  apply zrep_plug in Hz. generalize (plug k t) Hz. clear. intros t [_ Hr _ Ho _].
  rewrite <- size_dom, <- (size_list_to_set (C:=gset loc) (inorder t)).
  2:{ apply own_NoDup. intros x. specialize (Ho x). simpl in Ho. lia. }
  apply subseteq_size. clear Ho. simpl in Hr. generalize (@None loc) Hr. clear. intros par Hr.
  revert par Hr. induction t as [|c l IHl x r IHr]; intros par; simpl; [set_solver|].
  intros (Hx & Hl & Hr). apply elem_of_dom_2 in Hx. apply IHl in Hl. apply IHr in Hr.
  rewrite list_to_set_app_L. set_solver.
Qed.
End zippers.

(** [zfocus x H] brings node [x] of the zipper [H] into focus; [ztop H] focuses on the
    largest subtree around the focus that is known. *)
Ltac ztop H := repeat (apply (proj1 (zrep_up _ _ _ _ _)) in H; cbn [fplug] in H).
Ltac zdown x H :=
  lazymatch type of H with
  | zrep _ _ _ (T _ _ x _) => idtac
  | zrep _ _ _ (T _ _ _ _) =>
      first [ apply (proj1 (zrep_left _ _ _ _ _ _ _)) in H; zdown x H
            | apply (proj1 (zrep_right _ _ _ _ _ _ _)) in H; zdown x H ]
  end.
Ltac zfocus x H := ztop H; zdown x H.
(** [zlook x H]: what the store holds at node [x] of the zipper [H]. *)
Ltac zlook x H := zfocus x H; let Hx := fresh "Hat" in pose proof (z_at _ _ _ _ _ _ _ H) as Hx; simpl in Hx.
(** [wcol H]: runs a recolouring; [rotl H], [rotr H]: run a rotation. *)
Ltac wcol H :=
  lazymatch goal with
  | |- wp (wr_color (Some ?x) ?z) _ _ =>
      zfocus x H;
      first [ eapply (wr_color_ok _ _ _ _ Red); [exact H|]
            | eapply (wr_color_ok _ _ _ _ Black); [exact H|]
            | eapply wr_color_ok; [exact H|] ];
      clear H; let s' := fresh "s" in intros s' H
  end.
Ltac rotl H :=
  lazymatch goal with
  | |- wp (ss_rbrotate_left (Some ?x)) _ _ =>
      zfocus x H; eapply rotate_left_ok; [exact H|]; clear H;
      let s' := fresh "s" in intros s' H
  end.
Ltac rotr H :=
  lazymatch goal with
  | |- wp (ss_rbrotate_right (Some ?x)) _ _ =>
      zfocus x H; eapply rotate_right_ok; [exact H|]; clear H;
      let s' := fresh "s" in intros s' H
  end.

(** Equality of two in-order sequences that differ only in how the tree is cut. *)
Ltac inord := rewrite ?inorder_plug; simpl; repeat (rewrite <- !app_assoc; simpl); done.

(** * The red-black invariant *)

(** [rbt c n t]: [t] is a red-black tree with root colour [c] and [n] black nodes on
    every path ([E] counts as black). *)
Inductive rbt : color → nat → tree → Prop :=
| rbt_E : rbt Black 0 E
| rbt_R n l x r : rbt Black n l → rbt Black n r → rbt Red n (T Red l x r)
| rbt_B n c1 c2 l x r : rbt c1 n l → rbt c2 n r → rbt Black (S n) (T Black l x r).

(** [cok c n k]: a tree with [n] black nodes on every path fits into the context [k], whose
    innermost frame has colour [c]; the position above the root counts as red. *)
Inductive cok : color → nat → ctx → Prop :=
| cok_nil n : cok Red n []
| cok_R n f k : fcolor f = Red → rbt Black n (fsib f) → cok Black n k → cok Red n (f :: k)
| cok_B n c d f k : fcolor f = Black → rbt d n (fsib f) → cok c (S n) k → cok Black n (f :: k).
#[export] Hint Constructors rbt cok : rb.

Lemma rbt_plug c d n k t : cok c n k → rbt d n t → d = Black ∨ c = Black →
  ∃ m, rbt Black m (plug k t).
Proof.
  intros Hk. revert d t. induction Hk as [n|n f k Hf Hs Hk IH|n c d' f k Hf Hs Hk IH];
    intros d t Ht Hcd; simpl.
  - destruct Hcd as [->|]; [eauto|done].
  - destruct Hcd as [->|]; [|done].
    destruct f; simpl in *; subst; (eapply IH; [constructor; eauto|by right]).
  - destruct f; simpl in *; subst; (eapply IH; [econstructor; eauto|by left]).
Qed.
Lemma rbt_plug_inv m k t : rbt Black m (plug k t) →
  ∃ c d n, cok c n k ∧ rbt d n t ∧ (d = Black ∨ c = Black).
Proof.
  revert t. induction k as [|f k IH]; intros t Ht; simpl in *.
  { exists Red, Black, m. eauto with rb. }
  destruct (IH _ Ht) as (c & d & n & Hk & Hf & Hcd).
  destruct f as [c' x r|c' l x]; simpl in Hf; inversion Hf; subst;
    try (destruct Hcd; [done|subst]); eexists _, _, _;
    (split; [|split; [eassumption|]]); eauto with rb.
Qed.

(** * What a well-formed tree is for its users *)

(** The store holds a red-black tree whose nodes, in order, are [L]; nodes outside the tree
    are as in [h0]. *)
Definition rb_seq (h0 : gmap loc ssrbnode) (s : ssrb) (L : list loc) : Prop :=
  ∃ t bh, zrep h0 s [] t ∧ rbt Black bh t ∧ inorder t = L.
Definition rb_ok (s : ssrb) (L : list loc) : Prop := rb_seq (rb_heap s) s L.

Lemma zrep_weaken h0 s k t : zrep h0 s k t → zrep (rb_heap s) s k t.
Proof. intros []. by split. Qed.
Lemma rb_seq_ok h0 s L : rb_seq h0 s L → rb_ok s L.
Proof. intros (t & bh & Hz & Ht & HL). exists t, bh. split; [by eapply zrep_weaken|done]. Qed.
Lemma rb_seq_out h0 s L x : rb_seq h0 s L → x ∉ L → rb_heap s !! x = h0 !! x.
Proof.
  intros (t & bh & Hz & _ & <-) Hx. apply (z_out _ _ _ _ Hz). simpl. rewrite Nat.add_0_r.
  destruct (own x t) eqn:E; [done|]. exfalso. apply Hx, own_inorder. lia.
Qed.
Lemma rb_seq_NoDup h0 s L : rb_seq h0 s L → NoDup L.
Proof.
  intros (t & bh & Hz & _ & <-). apply own_NoDup. intros x. pose proof (z_own _ _ _ _ Hz x) as H.
  simpl in H. lia.
Qed.
(** A node of the sequence in focus. *)
Lemma rb_seq_focus h0 s l1 x l2 : rb_seq h0 s (l1 ++ x :: l2) →
  ∃ k c l r bh, zrep h0 s k (T c l x r) ∧ rbt Black bh (plug k (T c l x r)) ∧
    l1 = cleft k ++ inorder l ∧ l2 = inorder r ++ cright k.
Proof.
  intros HL. pose proof (rb_seq_NoDup _ _ _ HL) as Hnd. destruct HL as (t & bh & Hz & Ht & HL).
  destruct (focus_inorder t x l1 l2) as (k & c & l & r & -> & ? & ?); [done|by rewrite HL|].
  exists k, c, l, r, bh. by rewrite zrep_plug.
Qed.
