(* ===== verification/SsRbInsert.v ===== *)
(** Search and insertion in the red-black tree of ss_rb.c: [ss_rbget] finds the position
    of a key, [ss_rbset] links a node there, and the rebalancing keeps the tree
    red-black without changing its order. *)
From stdpp Require Import base list gmap.
From S2P Require Import Prelude SsRb SsRbProofs.
Local Open Scope c_scope.

Section insertion.
Context (h0 : gmap loc ssrbnode).

(** The states in which the rebalancing loop is entered: the focus is red and may sit
    under a red parent, everything else is a red-black tree. *)
Record fixing (L : list loc) (m : nat) (n : ptr) (s : ssrb) : Prop := mk_fixing {
  fx : ∃ k x a b c bh, n = Some x ∧ length k = m ∧ zrep h0 s k (T Red a x b) ∧
         rbt Black bh a ∧ rbt Black bh b ∧ cok c bh k ∧ inorder (plug k (T Red a x b)) = L
}.

Definition fixed (L : list loc) (s : ssrb) : Prop :=
  ∃ t, zrep h0 s [] t ∧ inorder t = L ∧
    (∃ bh a x b, t = T Red a x b ∧ rbt Black bh a ∧ rbt Black bh b ∨ rbt Black bh t ∧ t ≠ E).

Lemma wp_is_red s x n Q : rb_heap s !! x = Some n →
  Q (Z.eqb (rb_color n) SS_RBRED) s → wp (is_red (Some x)) s Q.
Proof. intros Hx HQ. unfold is_red. simpl. rbstep. by rbstep. Qed.
Lemma wp_is_red_root s par t Q : rep (rb_heap s) par t →
  Q (match t with T Red _ _ _ => true | _ => false end) s → wp (is_red (root t)) s Q.
Proof.
  destruct t as [|c l x r]; simpl; [done|]. intros (Hx & _) HQ.
  eapply wp_is_red; [done|]. by destruct c.
Qed.

Lemma eqb_own_ne x t : own x t = 0 → ptr_eqb (Some x) (root t) = false.
Proof.
  intros Hx. apply bool_decide_eq_false_2. intros E. symmetry in E. apply own_root in E. lia.
Qed.
Lemma ptr_eqb_refl p : ptr_eqb p p = true.
Proof. by apply bool_decide_eq_true_2. Qed.

Definition turn_post (L : list loc) (m : nat) (r : ptr + ()) (s' : ssrb) : Prop :=
  match r with
  | inl n' => ∃ m', (m' < m)%nat ∧ fixing L m' n' s'
  | inr _ => fixed L s'
  end.

(** The parent is missing or black: the loop stops. *)
Lemma turn_stop s k x a b c bh : zrep h0 s k (T Red a x b) →
  rbt Black bh a → rbt Black bh b → cok c bh k → (k = [] ∨ c = Black) →
  wp (rbset_fixup_turn (Some x)) s (turn_post (inorder (plug k (T Red a x b))) (length k)).
Proof.
  intros Hz Ha Hb Hk Hkc. pose proof Hz as [_ (Hx & _ & _) Hc _ _].
  unfold rbset_fixup_turn. rbstep. rbstep. rbstep. destruct k as [|f k]; simpl in *.
  { do 2 apply wp_ret. exists (T Red a x b). split_and!; [done|done|]. exists bh, a, x, b. auto. }
  destruct Hkc as [| ->]; [done|]. destruct Hc as [Hf _].
  assert (∃ n, rb_heap s !! fnode f = Some n ∧ rb_color n = SS_RBBLACK) as (n & Hn & En).
  { inversion Hk; subst. destruct f; simpl in *; subst; destruct Hf; by eexists. }
  eapply wp_is_red; [done|]. rewrite En. simpl. apply wp_ret.
  exists (plug (f :: k) (T Red a x b)). split_and!; [exact (proj1 (zrep_plug _ _ _ _) Hz)|done|].
  destruct (rbt_plug Black Red bh (f :: k) (T Red a x b)) as [m Hm]; auto with rb.
  exists m, E, x, E. right. split; [done|]. intros HE.
  assert (x ∈ inorder E) as Hin; [|simpl in Hin; set_solver].
  rewrite <- HE, inorder_plug. simpl. set_solver.
Qed.

(** A red uncle: the colours are pushed up and the focus moves to the grandparent. *)
Lemma turn_uncle_red s k f g x a b u bh : zrep h0 s (f :: g :: k) (T Red a x b) →
  rbt Black bh a → rbt Black bh b → cok Red bh (f :: g :: k) → fsib g = u →
  (∃ ul y ur, u = T Red ul y ur) →
  wp (rbset_fixup_turn (Some x)) s
     (turn_post (inorder (plug (f :: g :: k) (T Red a x b))) (length (f :: g :: k))).
Proof.
  intros Hz Ha Hb Hk Hu (ul & y & ur & ->).
  inversion Hk as [|? ? ? Ef Hsf Hk'|]; subst. inversion Hk' as [| |? c d ? ? Eg Hsg Hk'']; subst.
  pose proof Hz as [_ (Hx & _ & _) (Hf & Hg & _) Ho _]. unfold rbset_fixup_turn.
  rbstep. rbstep.
  rewrite Hu in Hsg. inversion Hsg; subst.
  destruct f as [? p sf|? sf p], g as [? q ?|? ? q]; simpl in Ef, Eg, Hu, Hsf; subst;
    simpl in Hf, Hg; destruct Hf as [Hp _], Hg as [Hq (Hy & _ & _)];
    rbstep; (eapply wp_is_red; [done|]); simpl; do 4 rbstep.
  1,3: rewrite ptr_eqb_refl.
  3,4: assert (ptr_eqb (Some p) (Some y) = false) as ->
         by (apply (eqb_own_ne p (T Red ul y ur)); own_at Ho p; simpl; lia).
  all: rbstep; rbstep; rbstep; (eapply wp_is_red; [done|]); simpl;
    rbstep; wcol Hz; rbstep; wcol Hz; rbstep; wcol Hz; rbstep; ztop Hz.
  all: exists (length k); split; [simpl; lia|]; split; do 6 eexists;
    (split_and!; [done|done|exact Hz|eauto with rb|eauto with rb|exact Hk''|]);
    rewrite !inorder_plug; simpl; done.
Qed.

Lemma turn_post_left L m s k x a b p r bh c : zrep h0 s k (T Black (T Red a x b) p r) →
  rbt Black bh a → rbt Black bh b → rbt Red bh r → cok c (S bh) k → (S (length k) < m)%nat →
  inorder (plug k (T Black (T Red a x b) p r)) = L → turn_post L m (inl (Some x)) s.
Proof.
  intros Hz Ha Hb Hr Hk Hm HL. apply zrep_left in Hz. exists (S (length k)). split; [done|].
  split. do 6 eexists. split_and!; [done| |exact Hz|done|done| |done]; [done|].
  by eapply cok_B.
Qed.
Lemma turn_post_right L m s k x a b p l bh c : zrep h0 s k (T Black l p (T Red a x b)) →
  rbt Black bh a → rbt Black bh b → rbt Red bh l → cok c (S bh) k → (S (length k) < m)%nat →
  inorder (plug k (T Black l p (T Red a x b))) = L → turn_post L m (inl (Some x)) s.
Proof.
  intros Hz Ha Hb Hr Hk Hm HL. apply zrep_right in Hz. exists (S (length k)). split; [done|].
  split. do 6 eexists. split_and!; [done| |exact Hz|done|done| |done]; [done|].
  by eapply cok_B.
Qed.

(** A black uncle: one or two rotations, after which the parent is black. *)
Lemma turn_uncle_black s k f g x a b bh : zrep h0 s (f :: g :: k) (T Red a x b) →
  rbt Black bh a → rbt Black bh b → cok Red bh (f :: g :: k) → rbt Black bh (fsib g) →
  wp (rbset_fixup_turn (Some x)) s
     (turn_post (inorder (plug (f :: g :: k) (T Red a x b))) (length (f :: g :: k))).
Proof.
  intros Hz Ha Hb Hk Hu.
  inversion Hk as [|? ? ? Ef Hsf Hk'|]; subst. inversion Hk' as [| |? c d ? ? Eg Hsg Hk'']; subst.
  pose proof Hz as [_ (Hx & _ & _) (Hf & Hg & _) Ho _]. unfold rbset_fixup_turn.
  rbstep. rbstep.
  destruct f as [? p sf|? sf p], g as [? q u|? u q]; simpl in Ef, Eg, Hu, Hsf; subst;
    simpl in Hf, Hg; destruct Hf as [Hp _], Hg as [Hq Hu'];
    rbstep; (eapply wp_is_red; [done|]); simpl; do 4 rbstep;
    rewrite ?ptr_eqb_refl; try (rewrite (eqb_own_ne p u) by (own_at Ho p; lia));
    rbstep; rbstep; rbstep; (eapply wp_is_red_root; [done|]);
    (replace (match u with T Red _ _ _ => true | _ => false end) with false by by inversion Hu);
    rbstep; rbstep; rewrite ?ptr_eqb_refl;
    try (rewrite (eqb_own_ne x sf) by (own_at Ho x; lia)).
  - do 3 rbstep. wcol Hz. rbstep. wcol Hz. rbstep. rotr Hz. rbstep.
    eapply turn_post_left; [exact Hz|eauto with rb..|simpl; lia|inord].
  - rbstep. rbstep. rotr Hz. rbstep. zlook p Hz. do 2 rbstep. rbstep. wcol Hz. rbstep. wcol Hz.
    rbstep. rotl Hz. rbstep.
    eapply turn_post_right; [exact Hz|eauto with rb..|simpl; lia|inord].
  - rbstep. rbstep. rotl Hz. rbstep. zlook p Hz. do 2 rbstep. rbstep. wcol Hz. rbstep. wcol Hz.
    rbstep. rotr Hz. rbstep.
    eapply turn_post_left; [exact Hz|eauto with rb..|simpl; lia|inord].
  - do 3 rbstep. wcol Hz. rbstep. wcol Hz. rbstep. rotl Hz. rbstep.
    eapply turn_post_right; [exact Hz|eauto with rb..|simpl; lia|inord].
Qed.

Lemma wp_rb_loop {A B} (body : A → cmd ssrb (A + B)) (I : nat → A → ssrb → Prop)
    (Q : B → ssrb → Prop) m a s :
  (∀ j a s, I j a s → wp (body a) s (λ r s',
     match r with inl a' => ∃ j', (j' < j)%nat ∧ I j' a' s' | inr b => Q b s' end)) →
  I m a s → (m <= size (rb_heap s))%nat → wp (rb_loop body a) s Q.
Proof.
  intros Hstep HI Hm. unfold wp, rb_loop. apply (wp_loop body I Q Hstep m); [done|lia].
Qed.

Lemma fixup_ok L m n s : fixing L m n s →
  wp (ss_rbset_fixup n) s (λ _ s', ∃ t bh, zrep h0 s' [] t ∧ rbt Black bh t ∧ inorder t = L).
Proof.
  intros HF. unfold ss_rbset_fixup. rbstep.
  eapply wp_mono; [eapply (wp_rb_loop _ (fixing L) (λ _, fixed L)); [|exact HF|]|].
  - intros j n' s' [(k & x & a & b & c & bh & -> & <- & Hz & Ha & Hb & Hk & <-)].
    destruct Hk as [bh|bh f k Hf Hs Hk|bh c d f k Hf Hs Hk].
    + eapply turn_stop; eauto with rb.
    + inversion Hk as [| |? c' d g k' Hg Hs' Hk']; subst.
      destruct d; [|eapply turn_uncle_black; eauto with rb].
      eapply turn_uncle_red; eauto with rb. inversion Hs'; eauto.
    + eapply turn_stop; eauto with rb.
  - destruct HF as [(k & x & a & b & c & bh & -> & <- & Hz & _)].
    apply length_ctx_size in Hz. lia.
  - intros _ s' (t & Hz & <- & bh & a & x & b & Ht). do 2 rbstep. pose proof Hz as [-> _ _ _ _].
    assert (∃ c a x b, t = T c a x b) as (c' & a' & x' & b' & ->).
    { destruct Ht as [(-> & _)|[_ ?]]; [|destruct t; [done|]]; eauto. }
    simpl. change SS_RBBLACK with (cz Black). eapply wr_color_ok; [exact Hz|]. intros s'' Hz'.
    destruct Ht as [(Et & ? & ?)|[Ht _]].
    + simplify_eq. eexists _, (S bh). split_and!; [done|eauto with rb|done].
    + eexists _, bh. split_and!; [done| |done]. by inversion Ht; subst.
Qed.

(** [dir k rc]: the side on which the hole of [k] lies is the one [rc] tells [ss_rbset]. *)
Definition dir (k : ctx) (rc : Z) : Prop :=
  match k with [] => True | FL _ _ _ :: _ => rc = 1%Z | FR _ _ _ :: _ => rc = (-1)%Z end.

(** [n] is linked as a red leaf into the hole of the context. *)
Lemma rbset_link_ok s k rc n nd c bh :
  zrep h0 s k E → cok c bh k → bh = 0%nat → dir k rc →
  rb_heap s !! n = Some nd → cown n k = 0%nat →
  wp (ss_rbset (parent k) rc (Some n)) s (λ _ s',
    ∃ t bh, zrep h0 s' [] t ∧ rbt Black bh t ∧ inorder t = cleft k ++ n :: cright k).
Proof.
  intros Hz Hk -> Hd Hn Ho. unfold ss_rbset. do 8 rbstep. rewrite !insert_insert_eq.
  assert (∀ s', zrep h0 s' k (T Red E n E) → wp (ss_rbset_fixup (Some n)) s' (λ _ s'',
    ∃ t bh, zrep h0 s'' [] t ∧ rbt Black bh t ∧ inorder t = cleft k ++ n :: cright k)) as Hfix.
  { intros s' Hz'. eapply wp_mono; [eapply fixup_ok; split; do 6 eexists;
      (split_and!; [done|reflexivity|exact Hz'|constructor|constructor|exact Hk|reflexivity])|].
    simpl. intros _ s'' (t & bh & ? & ? & Ht). exists t, bh. split_and!; [done|done|].
    rewrite Ht, inorder_plug. done. }
  pose proof Hz as [Hr _ Hc Hle Hf].
  assert (∀ x, own x (T Red E n E) + cown x k <= 1)%nat as Hle'.
  { intros x. specialize (Hle x). simpl in *. unfold one. case_decide; subst; lia. }
  destruct k as [|f k].
  { rbstep. rbstep. apply Hfix. split; simpl; [done|by rewrite lookup_insert_eq|done|done|].
    intros x Hx. rewrite lookup_insert_ne by (apply not_eq_sym, one_0; lia). by apply Hf. }
  assert (n ≠ fnode f) as Hnf.
  { intros ->. simpl in Ho. unfold fown in Ho. rewrite one_refl in Ho. lia. }
  set (h := <[n := _]> (rb_heap s)).
  assert (crep h None (f :: k)) as Hc' by by apply crep_upd.
  assert (∀ u, fcell (Some n) (parent k) f = u →
    zrep h0 (mk_rb (rb_root s) (<[fnode f := u]> h)) (f :: k) (T Red E n E)) as Hdone.
  { intros u <-. split; [by rewrite croot_cons in *| | |done|].
    - simpl. rewrite lookup_insert_ne by done. subst h. by rewrite lookup_insert_eq.
    - apply (crep_relink _ None); [done|]. intros x. specialize (Hle x). simpl in *. lia.
    - intros x Hx. simpl in Hx |- *. rewrite (fnode_out f k) by (simpl; lia). subst h.
      rewrite lookup_insert_ne by (apply not_eq_sym, one_0; lia). apply Hf. simpl. lia. }
  pose proof (fcell_lookup _ _ _ _ (proj1 Hc')) as Hcell. cbn [parent is_null negb]. rbstep. rbstep.
  destruct f as [d x r|d l x]; simpl in *; subst rc; (apply wp_assert; [done|]);
    (eapply wp_upd; [done|]); by apply Hfix, Hdone.
Qed.

(** * Search *)

(** The nodes in order are those the comparison puts below the key, those it finds equal,
    and those above. *)
Record cut (cmp : loc → Z) (l l1 m l2 : list loc) : Prop := mk_cut {
  cut_app : l = l1 ++ m ++ l2;
  cut_lt : ∀ x, x ∈ l1 → cmp x = (-1)%Z;
  cut_eq : ∀ x, x ∈ m → cmp x = 0%Z;
  cut_gt : ∀ x, x ∈ l2 → cmp x = 1%Z
}.
Lemma cut_cases cmp l l1 m l2 x : cut cmp l l1 m l2 → x ∈ l →
  (cmp x = 0%Z ∧ x ∈ m) ∨ (cmp x = (-1)%Z ∧ x ∈ l1) ∨ (cmp x = 1%Z ∧ x ∈ l2).
Proof. intros [-> H1 H2 H3]. rewrite !elem_of_app. naive_solver. Qed.

Lemma cut_unique cmp (l1 l2 k1 k2 : list loc) :
  (∀ x, x ∈ l1 ∨ x ∈ k1 → cmp x = (-1)%Z) → (∀ x, x ∈ l2 ∨ x ∈ k2 → cmp x = 1%Z) →
  l1 ++ l2 = k1 ++ k2 → l1 = k1 ∧ l2 = k2.
Proof.
  revert k1. induction l1 as [|x l1 IH]; intros [|y k1] H1 H2 E; simplify_eq/=.
  - done.
  - pose proof (H1 y (or_intror (list_elem_of_here _ _))).
    pose proof (H2 y (or_introl (list_elem_of_here _ _))). lia.
  - pose proof (H1 x (or_introl (list_elem_of_here _ _))).
    pose proof (H2 x (or_intror (list_elem_of_here _ _))). lia.
  - destruct (IH k1) as [-> ->]; [..|done]; try done; intros z Hz; (apply H1 || apply H2); set_solver.
Qed.

Lemma cut_before cmp l l1 m l2 a x b y : cut cmp l l1 m l2 → l = a ++ x :: b →
  cmp x = (-1)%Z → y ∈ a → cmp y = (-1)%Z.
Proof.
  intros [-> H1 H2 H3] E Hx Hy. apply app_eq_inv in E as [(k & -> & E)|(k & -> & E)].
  - apply H1. set_solver.
  - exfalso. assert (x ∈ m ++ l2) as [?%H2|?%H3]%elem_of_app by (rewrite E; set_solver); lia.
Qed.
Lemma cut_after cmp l l1 m l2 a x b y : cut cmp l l1 m l2 → l = a ++ x :: b →
  cmp x = 1%Z → y ∈ b → cmp y = 1%Z.
Proof.
  intros [-> H1 H2 H3] E Hx Hy. rewrite app_assoc in E.
  apply app_eq_inv in E as [(k & E & E')|(k & -> & E)].
  - destruct k as [|z k]; simplify_eq/=.
    + apply H3. set_solver.
    + exfalso. assert (z ∈ l1 ++ m) as [?%H1|?%H2]%elem_of_app by (rewrite E; set_solver); lia.
  - apply H3. set_solver.
Qed.

Definition get_post (s : ssrb) (t : tree) (l1 m l2 : list loc) (r : Z * ptr) (s' : ssrb) : Prop :=
  s' = s ∧
  ((∃ x, x ∈ m ∧ r = (0%Z, Some x)) ∨
   (m = [] ∧ ∃ k, plug k E = t ∧ cleft k = l1 ∧ cright k = l2 ∧ r.2 = parent k ∧ dir k r.1)).

Lemma rbget_ok cmp s t l1 m l2 : zrep h0 s [] t → cut cmp (inorder t) l1 m l2 →
  wp (ss_rbget cmp) s (get_post s t l1 m l2).
Proof.
  intros Hz Hcut. unfold ss_rbget. rbstep. rbstep.
  set (I := λ j (st : ptr * (Z * ptr)) s', s' = s ∧ ∃ k u, plug k u = t ∧ j = length (inorder u) ∧
     st.1 = root u ∧ st.2.2 = parent k ∧ dir k st.2.1 ∧
     (∀ x, x ∈ cleft k → cmp x = (-1)%Z) ∧ (∀ x, x ∈ cright k → cmp x = 1%Z)).
  apply (wp_rb_loop _ I _ (length (inorder t))).
  2:{ split; [done|]. exists [], t. split_and!; try done; [apply Hz|set_solver..]. }
  2:{ apply length_ctx_size in Hz. done. }
  intros j [p [rc q]] s' (-> & k & u & <- & -> & Hp & Hq & Hd & Hl & Hr). simpl in *. subst p q.
  destruct u as [|c ul x ur]; simpl.
  { rbstep. split; [done|]. right. destruct Hcut as [Hi H1 H2 H3]. rewrite inorder_plug in Hi.
    simpl in Hi. assert (m = []) as ->.
    { destruct m as [|y m]; [done|exfalso]. assert (y ∈ cleft k ++ cright k) as Hy by (rewrite Hi; set_solver).
      pose proof (H2 y (list_elem_of_here _ _)). apply elem_of_app in Hy as [?%Hl|?%Hr]; lia. }
    destruct (cut_unique cmp (cleft k) (cright k) l1 l2) as [<- <-]; [naive_solver..|done|]. eauto 10. }
  rewrite <- zrep_plug in Hz. pose proof (z_at _ _ _ _ _ _ _ Hz) as Hx.
  destruct (cut_cases _ _ _ _ _ x Hcut) as [[E Hm]|[[E Hm]|[E Hm]]]; [rewrite inorder_plug; set_solver|..];
    rewrite E; simpl.
  - rbstep. split; [done|left; eauto].
  - rbstep. rbstep. rbstep. exists (length (inorder ur)). split; [rewrite length_app; simpl; lia|].
    split; [done|]. exists (FR c ul x :: k), ur. split_and!; simpl; try done.
    intros y Hy. rewrite app_assoc, elem_of_app, list_elem_of_singleton in Hy.
    destruct Hy as [Hy| ->]; [|done].
    eapply (cut_before _ _ _ _ _ _ x (inorder ur ++ cright k)); [done| |done|exact Hy].
    rewrite inorder_plug. simpl. by rewrite <- !app_assoc.
  - rbstep. rbstep. rbstep. exists (length (inorder ul)). split; [rewrite length_app; simpl; lia|].
    split; [done|]. exists (FL c x ur :: k), ul. split_and!; simpl; try done.
    intros y [->|Hy]%elem_of_cons; [done|].
    eapply (cut_after _ _ _ _ _ (cleft k ++ inorder ul) x); [done| |done|exact Hy].
    rewrite inorder_plug. simpl. by rewrite <- !app_assoc.
Qed.

(** Search followed by insertion at the position found. *)
Definition rb_put (cmp : loc → Z) (n : loc) : cmd ssrb () :=
  let! r := ss_rbget cmp in ss_rbset r.2 r.1 (Some n).

Lemma rbput_ok cmp s n nd l1 l2 : rb_seq h0 s (l1 ++ l2) → cut cmp (l1 ++ l2) l1 [] l2 →
  rb_heap s !! n = Some nd → n ∉ l1 ++ l2 →
  wp (rb_put cmp n) s (λ _ s', rb_seq h0 s' (l1 ++ n :: l2)).
Proof.
  intros (t & bh & Hz & Ht & HL) Hcut Hn Hni. rewrite <- HL in Hcut. unfold rb_put. rbstep.
  eapply wp_mono; [by eapply rbget_ok|].
  intros r s' [-> [(x & Hx & _)|(_ & k & <- & <- & <- & -> & Hd)]]; [set_solver|].
  destruct (rbt_plug_inv _ _ _ Ht) as (c & d & m & Hk & HE & _).
  eapply wp_mono; [eapply rbset_link_ok; [by apply zrep_plug|done|by inversion HE|done|done|]|].
  - destruct (cown n k) eqn:E; [done|]. exfalso. apply Hni. rewrite <- HL, <- own_inorder, own_plug. lia.
  - intros _ s' (t & bh' & ? & ? & ?). by exists t, bh'.
Qed.

(** Search alone. *)
Lemma rbget_find_ok cmp s l1 x l2 : rb_seq h0 s (l1 ++ x :: l2) → cut cmp (l1 ++ x :: l2) l1 [x] l2 →
  ss_rbget cmp s = Some ((0%Z, Some x), s).
Proof.
  intros (t & bh & Hz & Ht & HL) Hcut. rewrite <- HL in Hcut.
  destruct (proj1 (wp_run _ _ _) (rbget_ok _ _ _ _ _ _ Hz Hcut)) as (r & s' & E & -> & Hr).
  rewrite E. destruct Hr as [(y & ->%list_elem_of_singleton & ->)|[? _]]; done.
Qed.
End insertion.
