(* ===== verification/SsRbWalk.v ===== *)
(** The in-order walk of the red-black tree of ss_rb.c ([ss_rbmin], [ss_rbmax],
    [ss_rbnext], [ss_rbprev]), its destruction walk ([ss_rbtruncate]) and the in-place
    replacement of a node ([ss_rbreplace]). *)
From stdpp Require Import base list gmap.
From S2P Require Import Prelude SsRb SsRbProofs SsRbInsert.
Local Open Scope c_scope.

Section walk.
Context (h0 : gmap loc ssrbnode) (s : ssrb).

(** The result of a walk: the store is unchanged and the pointer is [r]. *)
Definition yields (r : ptr) (r' : ptr) (s' : ssrb) : Prop := s' = s ∧ r' = r.

Lemma head_app_ne {A} (l k : list A) : l ≠ [] → head (l ++ k) = head l.
Proof. by destruct l. Qed.
Lemma last_app_ne {A} (l k : list A) : k ≠ [] → last (l ++ k) = last k.
Proof. intros. rewrite last_app. destruct (last k) eqn:E; [done|]. by apply last_None in E. Qed.
Lemma inorder_nil t : inorder t = [] → t = E.
Proof. destruct t as [|c l x r]; [done|]. simpl. by destruct (inorder l). Qed.
Lemma inorder_root t : t ≠ E → inorder t ≠ [].
Proof. by intros Ht ?%inorder_nil. Qed.

Lemma descend_l_ok k t : zrep h0 s k t → t ≠ E →
  wp (rb_descend rd_l (root t)) s (yields (head (inorder t))).
Proof.
  intros Hz Ht. unfold rb_descend.
  apply (wp_rb_loop _ (λ j n s', s' = s ∧ ∃ k u, zrep h0 s k u ∧ u ≠ E ∧ n = root u ∧
    j = length (inorder u) ∧ head (inorder u) = head (inorder t)) _ (length (inorder t))).
  - intros j n s' (-> & k' & u & Hzu & Hu & -> & -> & <-). destruct u as [|c l x r]; [done|].
    pose proof (z_at _ _ _ _ _ _ _ Hzu). simpl. do 3 rbstep.
    destruct l as [|lc ll lx lr] eqn:El; simpl; [done|]. rewrite <- El in *.
    exists (length (inorder l)). split; [subst; rewrite !length_app; simpl; rewrite !length_app; simpl; lia|].
    split; [done|]. apply zrep_left in Hzu. eexists _, l.
    split_and!; [done|by subst|by subst|done|].
    subst l. symmetry. apply (head_app_ne (inorder (T lc ll lx lr))). by apply inorder_root.
  - eauto 10.
  - apply length_ctx_size in Hz. lia.
Qed.

Lemma descend_r_ok k t : zrep h0 s k t → t ≠ E →
  wp (rb_descend rd_r (root t)) s (yields (last (inorder t))).
Proof.
  intros Hz Ht. unfold rb_descend.
  apply (wp_rb_loop _ (λ j n s', s' = s ∧ ∃ k u, zrep h0 s k u ∧ u ≠ E ∧ n = root u ∧
    j = length (inorder u) ∧ last (inorder u) = last (inorder t)) _ (length (inorder t))).
  - intros j n s' (-> & k' & u & Hzu & Hu & -> & -> & <-). destruct u as [|c l x r]; [done|].
    pose proof (z_at _ _ _ _ _ _ _ Hzu). simpl. do 3 rbstep.
    destruct r as [|rc rl rx rr] eqn:Er; simpl.
    { split; [done|]. by rewrite last_app. }
    rewrite <- Er in *.
    exists (length (inorder r)). split; [subst; rewrite !length_app; simpl; rewrite !length_app; simpl; lia|].
    split; [done|]. apply zrep_right in Hzu. eexists _, r.
    split_and!; [done|by subst|by subst|done|].
    subst r. rewrite (last_app_ne (inorder l)) by done. rewrite last_cons.
    change (inorder rl ++ rx :: inorder rr) with (inorder (T rc rl rx rr)).
    destruct (last (inorder (T rc rl rx rr))) eqn:El; [done|].
    apply last_None, inorder_nil in El. done.
  - eauto 10.
  - apply length_ctx_size in Hz. lia.
Qed.

(** Climbing while the focus is the right (left) child finds the next (previous) node. *)
Lemma climb_r_ok k t : zrep h0 s k t → t ≠ E →
  wp (rb_climb rd_r (root t)) s (yields (head (cright k))).
Proof.
  intros Hz Ht. unfold rb_climb.
  apply (wp_rb_loop _ (λ j n s', s' = s ∧ ∃ k' u, zrep h0 s k' u ∧ u ≠ E ∧ n = root u ∧
    j = length k' ∧ head (cright k') = head (cright k)) _ (length k)).
  - intros j n s' (-> & k' & u & Hzu & Hu & -> & -> & <-). destruct u as [|c l x r]; [done|].
    pose proof (z_at _ _ _ _ _ _ _ Hzu) as Hx. simpl. rbstep. rbstep.
    pose proof Hzu as [_ _ Hc Ho _]. own_at Ho x. destruct k' as [|f k']; [done|].
    destruct f as [d p q|d q p]; simpl in *; destruct Hc as [[Hp _] _]; rbstep; rbstep; rbstep.
    + unfold ptr_eqb. rewrite bool_decide_eq_false_2; [done|].
      intros E%own_root. unfold fown in *. simpl in *. lia.
    + rewrite ptr_eqb_refl. exists (length k'). split; [lia|]. split; [done|].
      apply zrep_up in Hzu. simpl in Hzu. by eexists k', _.
  - eauto 10.
  - apply length_ctx_size in Hz. lia.
Qed.

Lemma climb_l_ok k t : zrep h0 s k t → t ≠ E →
  wp (rb_climb rd_l (root t)) s (yields (last (cleft k))).
Proof.
  intros Hz Ht. unfold rb_climb.
  apply (wp_rb_loop _ (λ j n s', s' = s ∧ ∃ k' u, zrep h0 s k' u ∧ u ≠ E ∧ n = root u ∧
    j = length k' ∧ last (cleft k') = last (cleft k)) _ (length k)).
  - intros j n s' (-> & k' & u & Hzu & Hu & -> & -> & <-). destruct u as [|c l x r]; [done|].
    pose proof (z_at _ _ _ _ _ _ _ Hzu) as Hx. simpl. rbstep. rbstep.
    pose proof Hzu as [_ _ Hc Ho _]. own_at Ho x. destruct k' as [|f k']; [done|].
    destruct f as [d p q|d q p]; simpl in *; destruct Hc as [[Hp _] _]; rbstep; rbstep; rbstep.
    + rewrite ptr_eqb_refl. exists (length k'). split; [lia|]. split; [done|].
      apply zrep_up in Hzu. simpl in Hzu. by eexists k', _.
    + unfold ptr_eqb. rewrite bool_decide_eq_false_2.
      * split; [done|]. by rewrite app_assoc, last_snoc.
      * intros E%own_root. unfold fown in *. simpl in *. lia.
  - eauto 10.
  - apply length_ctx_size in Hz. lia.
Qed.

Lemma yields_eq m r : wp m s (yields r) → m s = Some (r, s).
Proof. intros (r' & s' & E & -> & ->)%wp_run. done. Qed.

Lemma rbmin_ok L : rb_seq h0 s L → ss_rbmin s = Some (head L, s).
Proof.
  intros (t & bh & Hz & _ & <-). apply yields_eq. unfold ss_rbmin. rbstep. rbstep.
  rewrite (z_root _ _ _ _ Hz). change (croot (root t) []) with (root t). destruct t as [|c l x r] eqn:Et; [done|]. rewrite <- Et in *.
  replace (is_null (root t)) with false by by subst. eapply descend_l_ok; [done|by subst].
Qed.
Lemma rbmax_ok L : rb_seq h0 s L → ss_rbmax s = Some (last L, s).
Proof.
  intros (t & bh & Hz & _ & <-). apply yields_eq. unfold ss_rbmax. rbstep. rbstep.
  rewrite (z_root _ _ _ _ Hz). change (croot (root t) []) with (root t). destruct t as [|c l x r] eqn:Et; [done|]. rewrite <- Et in *.
  replace (is_null (root t)) with false by by subst. eapply descend_r_ok; [done|by subst].
Qed.
Lemma rbnext_ok l1 x l2 : rb_seq h0 s (l1 ++ x :: l2) → ss_rbnext (Some x) s = Some (head l2, s).
Proof.
  intros (k & c & l & r & bh & Hz & _ & _ & ->)%rb_seq_focus. apply yields_eq.
  pose proof (z_at _ _ _ _ _ _ _ Hz) as Hx. unfold ss_rbnext. simpl. rbstep. rbstep.
  destruct r as [|rc rl rx rr] eqn:Er; simpl.
  - eapply (climb_r_ok k (T c l x E)); done.
  - rewrite <- Er in *. rewrite (head_app_ne (inorder rl ++ rx :: inorder rr)) by by destruct (inorder rl).
    change (inorder rl ++ rx :: inorder rr) with (inorder (T rc rl rx rr)). rewrite <- Er.
    replace (Some rx) with (root r) by by subst. eapply descend_l_ok; [by apply zrep_right|by subst].
Qed.
Lemma rbprev_ok l1 x l2 : rb_seq h0 s (l1 ++ x :: l2) → ss_rbprev (Some x) s = Some (last l1, s).
Proof.
  intros (k & c & l & r & bh & Hz & _ & -> & _)%rb_seq_focus. apply yields_eq.
  pose proof (z_at _ _ _ _ _ _ _ Hz) as Hx. unfold ss_rbprev. simpl. rbstep. rbstep.
  destruct l as [|lc ll lx lr] eqn:El; simpl.
  - rewrite app_nil_r. eapply (climb_l_ok k (T c E x r)); done.
  - rewrite <- El in *. rewrite last_app_ne by by destruct (inorder ll).
    change (inorder ll ++ lx :: inorder lr) with (inorder (T lc ll lx lr)). rewrite <- El.
    replace (Some lx) with (root l) by by subst. eapply descend_r_ok; [by apply zrep_left|by subst].
Qed.
End walk.

(** The walk from NULL until NULL. *)
Fixpoint rb_walk (next : ptr → cmd ssrb ptr) (fuel : nat) (n : ptr) (s : ssrb) : option (list loc) :=
  match fuel with
  | O => None
  | S fuel =>
      match next n s with
      | Some (Some x, s') => cons x <$> rb_walk next fuel (Some x) s'
      | Some (None, _) => Some []
      | None => None
      end
  end.
Lemma rb_walk_S next fuel n s : rb_walk next (S fuel) n s =
  match next n s with
  | Some (Some x, s') => cons x <$> rb_walk next fuel (Some x) s'
  | Some (None, _) => Some []
  | None => None
  end.
Proof. done. Qed.
Lemma rbwalk_next_ok h0 s l1 x l2 : rb_seq h0 s (l1 ++ x :: l2) →
  ∀ fuel, (length l2 < fuel)%nat → rb_walk ss_rbnext fuel (Some x) s = Some l2.
Proof.
  revert l1 x. induction l2 as [|y l2 IH]; intros l1 x Hs [|fuel] Hf; simpl in Hf; try lia; simpl.
  - by rewrite (rbnext_ok _ _ _ _ _ Hs).
  - rewrite (rbnext_ok _ _ _ _ _ Hs). simpl. rewrite (IH (l1 ++ [x]) y); [done| |lia].
    by rewrite <- app_assoc.
Qed.
Lemma rbwalk_prev_ok h0 s l1 x l2 : rb_seq h0 s (reverse l1 ++ x :: l2) →
  ∀ fuel, (length l1 < fuel)%nat → rb_walk ss_rbprev fuel (Some x) s = Some l1.
Proof.
  revert x l2. induction l1 as [|y l1 IH]; intros x l2 Hs [|fuel] Hf; simpl in Hf; try lia; simpl.
  - by rewrite (rbprev_ok _ _ _ _ _ Hs).
  - rewrite (rbprev_ok _ _ _ _ _ Hs), reverse_cons, last_snoc. simpl. rewrite (IH y (x :: l2)); [done| |lia].
    by rewrite reverse_cons, <- app_assoc in Hs.
Qed.

(** * Destruction *)

Lemma rbtruncate_ok h0 s k t : zrep h0 s k t → t ≠ E →
  ∀ fuel, (length (inorder t) <= fuel)%nat →
  ∃ L, rbtruncate fuel (root t) s = Some (L, s) ∧ L ≡ₚ inorder t.
Proof.
  revert k. induction t as [|c l IHl x r IHr]; intros k Hz Ht fuel Hf; [done|].
  simpl in Hf. rewrite length_app in Hf. simpl in Hf. destruct fuel as [|fuel]; [lia|].
  pose proof (z_at _ _ _ _ _ _ _ Hz) as Hx.
  assert (∀ u k', (u = l ∨ u = r) → zrep h0 s k' u → ∃ L,
    (if is_null (root u) then cret [] else rbtruncate fuel (root u)) s = Some (L, s) ∧ L ≡ₚ inorder u) as Hsub.
  { intros u k' Hu Hzu. destruct u as [|uc ul ux ur] eqn:Eu; [by eexists|]. rewrite <- Eu in *.
    replace (is_null (root u)) with false by by subst.
    destruct Hu as [->| ->]; [eapply IHl|eapply IHr]; (done || lia || by subst). }
  destruct (Hsub l (FL c x r :: k)) as (L1 & E1 & P1); [auto|by apply zrep_left|].
  destruct (Hsub r (FR c l x :: k)) as (L2 & E2 & P2); [auto|by apply zrep_right|].
  exists (L1 ++ L2 ++ [x]). split; [|simpl; rewrite P1, P2; solve_Permutation].
  simpl. unfold rd_l, rd_r, rb_node, cread, cbind. simpl. rewrite Hx. simpl.
  unfold cret in E1, E2 |- *. rewrite E1, Hx. simpl. by rewrite E2.
Qed.
Lemma rb_truncate_ok h0 s L x : rb_seq h0 s L → rb_root s = Some x →
  ∃ L', ss_rbtruncate (Some x) s = Some (L', s) ∧ L' ≡ₚ L.
Proof.
  intros (t & bh & Hz & _ & <-) Hr. rewrite (z_root _ _ _ _ Hz) in Hr. simpl in Hr. rewrite <- Hr.
  eapply rbtruncate_ok; [done|by destruct t|]. apply length_ctx_size in Hz. simpl in Hz. lia.
Qed.

(** * Replacement *)

Lemma set_par2_ne (h : gmap loc ssrbnode) p q l r x :
  own x l = 0 → own x r = 0 → set_par (set_par h p l) q r !! x = h !! x.
Proof. intros. by rewrite !set_par_ne. Qed.

Lemma zreplace_ok h0 s k c l o r n nd :
  zrep h0 s k (T c l o r) → rb_heap s !! o = h0 !! o →
  rb_heap s !! n = Some nd → own n (plug k (T c l o r)) = 0 →
  wp (ss_rbreplace (Some o) (Some n)) s (λ _ s', zrep h0 s' k (T c l n r)).
Proof.
  intros [Hr (Hx & Hl & Hrr) Hc Ho Hf] Hoh Hn Hni. rewrite own_plug in Hni. simpl in *.
  own_at Ho o. assert (n ≠ o) by (apply one_0; lia).
  unfold ss_rbreplace. do 3 rbstep.
  apply wp_relink_neg; [done|done|lia|intros x; specialize (Ho x); lia|].
  intros h' Hc' Hag.
  assert (h' !! o = rb_heap s !! o) as Eo by (apply Hag; lia). rewrite Hx in Eo.
  assert (h' !! n = rb_heap s !! n) as En by (apply Hag; lia). rewrite Hn in En.
  assert (∀ par t, rep (rb_heap s) par t → (∀ x, own x t ≠ 0 → cown x k = 0) → rep h' par t) as Hfr.
  { intros par t Ht Hk. eapply rep_agree; [done|]. intros x Hx'. apply Hag, Hk, Hx'. }
  apply Hfr in Hl, Hrr; try (intros x Hx'; specialize (Ho x); lia).
  rbstep. rbstep. rbstep. eapply wp_set_par; [done|]. rbstep.
  eapply wp_rd_r; [cbn [rb_heap]; rewrite set_par_ne by lia; lk|]. simpl. rbstep.
  eapply wp_set_par.
  { eapply rep_agree; [exact Hrr|]. intros x Hx'. apply set_par_ne. specialize (Ho x). lia. }
  rbstep. eapply wp_rb_node; [cbn [rb_heap]; rewrite set_par2_ne by lia; lk|].
  eapply wp_upd; [cbn [rb_heap]; rewrite set_par2_ne by lia; lk|]. split; simpl.
  - done.
  - rewrite lookup_insert_eq. split_and!; [done| |]; apply rep_upd; try lia.
    + eapply rep_agree; [eapply set_par_rep; [intros x; specialize (Ho x); lia|exact Hl]|].
      intros x Hx'. apply set_par_ne. specialize (Ho x). lia.
    + eapply set_par_rep; [intros x; specialize (Ho x); lia|].
      eapply rep_agree; [exact Hrr|]. intros x Hx'. apply set_par_ne. specialize (Ho x). lia.
  - eapply crep_agree; [done|]. intros x Hx'. specialize (Ho x).
    rewrite lookup_insert_ne by (intros <-; lia). apply set_par2_ne; lia.
  - intros x. specialize (Ho x). unfold one. case_decide; subst; lia.
  - intros x Hx'. rewrite lookup_insert_ne by (apply not_eq_sym, one_0; lia).
    rewrite set_par2_ne, Hag by lia. destruct (decide (x = o)) as [->|Hxo]; [done|].
    apply Hf. rewrite (one_ne x o) by done. lia.
Qed.

Lemma rbreplace_ok s l1 o l2 n nd : rb_ok s (l1 ++ o :: l2) → rb_heap s !! n = Some nd →
  n ∉ l1 ++ o :: l2 →
  wp (ss_rbreplace (Some o) (Some n)) s (λ _ s', rb_seq (rb_heap s) s' (l1 ++ n :: l2)).
Proof.
  intros (k & c & l & r & bh & Hz & Ht & -> & ->)%rb_seq_focus Hn Hni.
  eapply wp_mono; [eapply zreplace_ok; [exact Hz|done|done|]|].
  - destruct (own n _) eqn:E; [done|]. exfalso. apply Hni.
    assert (n ∈ inorder (plug k (T c l o r))) as Hin by (apply own_inorder; lia).
    rewrite inorder_plug in Hin. simpl in Hin. set_solver.
  - intros [] s' Hz'. destruct (rbt_plug_inv _ _ _ Ht) as (d & e & m & Hk & Ht' & Hde).
    assert (rbt e m (T c l n r)) as Ht'' by (inversion Ht'; eauto with rb).
    destruct (rbt_plug _ _ _ _ _ Hk Ht'' ltac:(tauto)) as [bh' ?].
    exists (plug k (T c l n r)), bh'. rewrite <- zrep_plug. split_and!; [done|done|inord].
Qed.
