(* ===== verification/SsRbRemove.v ===== *)
(** Removal from the red-black tree of ss_rb.c: [ss_rbremove] takes a node out, keeps the
    order of the others and restores the red-black invariant. *)
From stdpp Require Import base list gmap.
From S2P Require Import Prelude SsRb SsRbProofs SsRbInsert SsRbWalk.
Local Open Scope c_scope.

(** * Paths inside a subtree

    [cseg h hole k par]: the frames of [k] are in the store, the outermost one under the
    parent [par]. *)
Definition pk (par : ptr) (k : ctx) : ptr := match k with [] => par | f :: _ => Some (fnode f) end.
Fixpoint cseg (h : gmap loc ssrbnode) (hole : ptr) (k : ctx) (par : ptr) : Prop :=
  match k with
  | [] => True
  | f :: k => frep h hole (pk par k) f ∧ cseg h (Some (fnode f)) k par
  end.

Lemma root_fplug f t : root (fplug f t) = Some (fnode f).
Proof. by destruct f. Qed.
Lemma rep_plug h par k t : rep h par (plug k t) ↔ cseg h (root t) k par ∧ rep h (pk par k) t.
Proof.
  revert t. induction k as [|f k IH]; intros t; simpl; [tauto|].
  rewrite IH, root_fplug. destruct f; simpl; tauto.
Qed.
Lemma cseg_agree h h' hole k par :
  cseg h hole k par → (∀ x, cown x k ≠ 0 → h' !! x = h !! x) → cseg h' hole k par.
Proof.
  revert hole. induction k as [|f k IH]; intros hole; simpl; [done|].
  intros [Hf Hk] Hag. split.
  - destruct f as [c x r|c l x]; simpl in *; unfold fown in *; simpl in *; destruct Hf as [Hx Hr];
      (split; [rewrite Hag; [done|rewrite one_refl; lia]|]);
      (eapply rep_agree; [done|]; intros y Hy; apply Hag; lia).
  - apply IH; [done|]. intros y Hy. apply Hag. lia.
Qed.
Lemma cseg_upd h p n hole k par : cown p k = 0 → cseg h hole k par → cseg (<[p := n]> h) hole k par.
Proof.
  intros Hp Ht. eapply cseg_agree; [done|]. intros x Hx. apply lookup_insert_ne. by intros ->.
Qed.
Lemma frep_fcell h hole par f : frep h hole par f ↔
  h !! fnode f = Some (fcell hole par f) ∧ rep h (Some (fnode f)) (fsib f).
Proof. by destruct f. Qed.

(** Redirecting the innermost link, and the outermost parent pointer. *)
Lemma cseg_hole h hole q f k par : cseg h hole (f :: k) par → (∀ x, cown x (f :: k) <= 1) →
  cseg (<[fnode f := fcell q (pk par k) f]> h) q (f :: k) par.
Proof.
  intros [Hf Hc] Ho. own_at Ho (fnode f). rewrite frep_fcell in Hf. destruct Hf as [Hx Hs]. split.
  - apply frep_fcell. rewrite lookup_insert_eq. split; [done|]. apply rep_upd; [lia|done].
  - apply cseg_upd; [lia|done].
Qed.
Lemma cseg_par h hole k f par q : cseg h hole (k ++ [f]) par → (∀ x, cown x (k ++ [f]) <= 1) →
  cseg (<[fnode f := fcell (croot hole k) q f]> h) hole (k ++ [f]) q ∧
  h !! fnode f = Some (fcell (croot hole k) par f).
Proof.
  revert hole. induction k as [|g k IH]; intros hole; simpl.
  - intros [Hf _] Ho. own_at Ho (fnode f). rewrite frep_fcell in Hf. destruct Hf as [Hx Hs].
    split; [|done]. split; [|done]. apply frep_fcell. rewrite lookup_insert_eq. split; [done|].
    apply rep_upd; [lia|done].
  - intros [Hf Hc] Ho. rewrite croot_cons. destruct (IH _ Hc) as [Hc' Hl].
    { intros x. specialize (Ho x). lia. }
    split; [|done]. split; [|done]. own_at Ho (fnode f).
    assert (cown (fnode f) (k ++ [f]) ≠ 0) as Hne.
    { clear. induction k; simpl; unfold fown; [rewrite one_refl; simpl|]; lia. }
    rewrite frep_fcell in Hf |- *. destruct Hf as [Hx Hs]. split.
    + rewrite lookup_insert_ne; [|apply one_0; lia].
      rewrite Hx. f_equal. f_equal. by destruct k.
    + apply rep_upd; [lia|done].
Qed.

(** The leftmost node of a tree. *)
Definition is_FL (f : frame) : Prop := match f with FL _ _ _ => True | FR _ _ _ => False end.
Lemma spine t : t ≠ E → ∃ k c x r, t = plug k (T c E x r) ∧ Forall is_FL k.
Proof.
  induction t as [|c l IHl x r _]; [done|]. intros _. destruct l as [|lc ll lx lr] eqn:El.
  - exists [], c, x, r. by split; [|constructor].
  - rewrite <- El in *. destruct IHl as (k & c' & y & r' & -> & Hk); [by rewrite El|].
    exists (k ++ [FL c x r]), c', y, r'. rewrite Forall_app. split_and!; [|done|by constructor].
    clear. generalize (T c' E y r'). induction k as [|f k IH]; intros u; simpl; [done|]. apply IH.
Qed.
Lemma spine_cleft k : Forall is_FL k → cleft k = [].
Proof. induction 1 as [|[] k ? ? IH]; done. Qed.
Lemma plug_app k1 k2 t : plug (k1 ++ k2) t = plug k2 (plug k1 t).
Proof. revert t. induction k1 as [|f k1 IH]; intros t; simpl; [done|]. apply IH. Qed.
Lemma cown_app x k1 k2 : cown x (k1 ++ k2) = cown x k1 + cown x k2.
Proof. induction k1 as [|f k1 IH]; simpl; lia. Qed.

(** * Unlinking *)

Section removal.
Context (h0 : gmap loc ssrbnode).

(** The subtrees of the focus survive a relinking of its parent. *)
Lemma rep_relinked (h h' : gmap loc ssrbnode) k par t :
  rep h par t → (∀ x, cown x k = 0 → h' !! x = h !! x) → (∀ x, own x t + cown x k <= 1) → rep h' par t.
Proof.
  intros Ht Hag Ho. eapply rep_agree; [done|]. intros x Hx. apply Hag. specialize (Ho x). lia.
Qed.

(** [n] has at most one child: it takes the place of [n]. *)
Lemma unlink_one_ok s k c l n r t' : zrep h0 s k (T c l n r) → rb_heap s !! n = h0 !! n →
  (l = E ∧ t' = r) ∨ (l ≠ E ∧ r = E ∧ t' = l) →
  wp (rbremove_unlink (Some n)) s (λ res s',
    res = (root t', parent k, cz c) ∧ zrep h0 s' k t').
Proof.
  intros [Hr (Hx & Hl & Hrr) Hc Ho Hf] Hnh Hcase. simpl in *. own_at Ho n.
  unfold rbremove_unlink. do 5 rbstep.
  assert (wp (if is_null (root l) then cret (root r) else if is_null (root r) then cret (root l)
              else rb_descend rd_l (root r)) s (λ x s', x = root t' ∧ s' = s)) as Hsel.
  { destruct Hcase as [[-> ->]|(Hl' & -> & ->)]; simpl; [done|]. by destruct l. }
  eapply wp_mono; [exact Hsel|]. intros p s' [-> ->]. do 3 rbstep.
  assert (rep (rb_heap s) (Some n) t' ∧ (∀ x, own x t' = own x l + own x r)) as [Ht' Hot].
  { destruct Hcase as [[-> ->]|(Hl' & -> & ->)]; simpl; (split; [done|]); intros; lia. }
  assert (negb (is_null (root l)) && negb (is_null (root r)) = false) as Enb.
  { destruct Hcase as [[-> ->]|(Hl' & -> & ->)]; simpl; [done|]. by rewrite andb_false_r. }
  apply wp_relink_neg; [done|done|lia|intros x; specialize (Ho x); lia|]. intros h' Hc' Hag.
  apply (rep_relinked _ h' k) in Ht'; [|done|intros x; specialize (Ho x); rewrite Hot; lia].
  assert (h' !! n = rb_heap s !! n) as En by (apply Hag; lia). rewrite Hx in En.
  rbstep. rewrite Enb. do 4 rbstep. eapply wp_set_par; [done|]. rbstep. split; [done|].
  split; simpl.
  - done.
  - eapply set_par_rep; [intros x; specialize (Ho x); rewrite Hot; lia|done].
  - eapply crep_agree; [done|]. intros x Hx'. apply set_par_ne. specialize (Ho x). rewrite Hot. lia.
  - intros x. specialize (Ho x). rewrite Hot. lia.
  - intros x Hx'. rewrite Hot in Hx'. rewrite set_par_ne by (rewrite Hot; lia). rewrite Hag by lia.
    destruct (decide (x = n)) as [->|Hne]; [done|]. apply Hf. rewrite (one_ne x n) by done. lia.
Qed.

Lemma root_plug_snoc k f t : root (plug (k ++ [f]) t) = Some (fnode f).
Proof. rewrite plug_app. simpl. apply root_fplug. Qed.

Lemma fcell_par hole par q f :
  mk_rbnode q (rb_l (fcell hole par f)) (rb_r (fcell hole par f)) (rb_color (fcell hole par f)) =
  fcell hole q f.
Proof. by destruct f. Qed.

(** When the parent of [x] is not [n]: the subtree that loses [x] at the end of its spine,
    in the store after the four writes that splice the right child of [x] in. *)
Lemma splice_rep (h : gmap loc ssrbnode) f kr ki fl x xr n c2 :
  f :: kr = ki ++ [fl] → cseg h (Some x) (f :: kr) (Some n) → rep h (Some x) xr →
  (∀ y, own y xr + cown y (f :: kr) <= 1) → own x xr = 0 → cown x (f :: kr) = 0 →
  let h1 := <[x := c2]> (<[fnode f := fcell (root xr) (pk (Some n) kr) f]> h) in
  h1 !! fnode fl = Some (fcell (croot (root xr) ki) (Some n) fl) ∧
  rep (set_par (<[fnode fl := fcell (croot (root xr) ki) (Some x) fl]> h1) (Some (fnode f)) xr)
      (Some x) (plug (f :: kr) xr).
Proof.
  intros Hki Hseg Hxr Ho Hx1 Hx2 h1.
  assert (∀ y, cown y (f :: kr) <= 1) as Hok by (intros y; specialize (Ho y); lia).
  assert (cseg h1 (root xr) (f :: kr) (Some n)) as Hseg1.
  { apply cseg_upd; [done|]. by eapply cseg_hole. }
  rewrite Hki in Hseg1, Hok. destruct (cseg_par _ _ _ _ _ (Some x) Hseg1 Hok) as [Hseg2 Hfl].
  split; [done|]. rewrite rep_plug. simpl pk.
  assert (∀ g, g ∈ f :: kr → own (fnode g) xr = 0) as Hg.
  { intros g Hg. specialize (Ho (fnode g)). assert (cown (fnode g) (f :: kr) ≠ 0); [|lia].
    clear -Hg. induction Hg as [k|k ? ? ? IH]; simpl; unfold fown; [rewrite one_refl|]; lia. }
  split.
  - rewrite Hki. eapply cseg_agree; [exact Hseg2|]. intros y Hy. apply set_par_ne.
    specialize (Ho y). rewrite Hki in Ho. lia.
  - apply (set_par_rep _ (Some x)); [intros y; specialize (Ho y); lia|].
    apply rep_upd; [apply Hg; rewrite Hki; set_solver|].
    apply rep_upd; [done|]. apply rep_upd; [apply Hg; set_solver|done].
Qed.

Definition unlinked (s' : ssrb) (res : ptr * ptr * Z) (k' : ctx) (t' : tree) (c : color) : Prop :=
  res = (root t', parent k', cz c) ∧ zrep h0 s' k' t'.

(** The zipper left after the writes, from what they leave in the store [H]. *)
Lemma unlinked_zrep s k c lc ll lx lr n kr cx x xr (h' H : gmap loc ssrbnode) :
  zrep h0 s k (T c (T lc ll lx lr) n (plug kr (T cx E x xr))) → rb_heap s !! n = h0 !! n →
  crep h' (Some x) k → (∀ y, cown y k = 0 → h' !! y = rb_heap s !! y) →
  (∀ y, one y x + one y lx + own y xr + cown y kr = 0 → H !! y = h' !! y) →
  H !! x = Some (mk_rbnode (parent k) (Some lx) (root (plug kr xr)) (cz c)) →
  H !! lx = Some (mk_rbnode (Some x) (root ll) (root lr) (cz lc)) →
  rep H (Some x) (plug kr xr) →
  zrep h0 (mk_rb (croot (Some x) k) H) (kr ++ FR c (T lc ll lx lr) x :: k) xr.
Proof.
  intros [_ (_ & (_ & Hll & Hlr) & _) _ Ho Hf] Hnh Hc Hag HH Hx Hlx Hr.
  assert (∀ y, one y n + (one y lx + own y ll + own y lr) + (one y x + own y xr + cown y kr) + cown y k <= 1) as Ho'.
  { intros y. specialize (Ho y). simpl in Ho. rewrite own_plug in Ho. simpl in Ho. lia. }
  apply (zrep_move _ _ _ _ k (T c (T lc ll lx lr) x (plug kr xr))); [by rewrite plug_app|].
  split; simpl.
  - done.
  - assert (∀ par t, rep (rb_heap s) par t → (∀ y, own y t ≠ 0 → own y ll + own y lr ≠ 0) → rep H par t) as Hfr.
    { intros par t Ht Hsub. eapply rep_agree; [done|]. intros y Hy%Hsub. specialize (Ho' y).
      rewrite HH, Hag by lia. done. }
    split_and!; [done|done| | |done]; (apply Hfr; [done|lia]).
  - eapply crep_agree; [done|]. intros y Hy. apply HH. specialize (Ho' y). lia.
  - intros y. rewrite own_plug. specialize (Ho' y). lia.
  - intros y Hy. rewrite own_plug in Hy. rewrite HH, Hag by lia.
    destruct (decide (y = n)) as [->|Hne]; [done|]. apply Hf. simpl.
    rewrite (one_ne y n), own_plug by done. simpl. lia.
Qed.

(** [n] has two children: its successor [x] takes its place and its colour. *)
Lemma unlink_two_ok s k c l n kr cx x xr : zrep h0 s k (T c l n (plug kr (T cx E x xr))) →
  rb_heap s !! n = h0 !! n → l ≠ E → Forall is_FL kr →
  wp (rbremove_unlink (Some n)) s (λ res s', unlinked s' res (kr ++ FR c l x :: k) xr cx).
Proof.
  intros Hz Hnh Hl0 Hfl. set (r := plug kr (T cx E x xr)) in *.
  assert (r ≠ E) as Hr0.
  { intros E. assert (inorder r = []) as E' by by rewrite E. unfold r in E'.
    rewrite inorder_plug in E'. simpl in E'. by destruct (cleft kr). }
  destruct l as [|lc ll lx lr]; [done|]. 
  pose proof Hz as [Hr (Hx & (Hlx & Hll & Hlr) & Hrr) Hc Ho Hf]. simpl in Ho.
  pose proof Hrr as Hrr'. unfold r in Hrr'. apply rep_plug in Hrr' as [Hseg (Hxx & _ & Hxr)].
  assert (∀ y, own y r = one y x + own y xr + cown y kr) as Hor.
  { intros y. unfold r. rewrite own_plug. simpl. lia. }
  assert (∀ y, one y n + (one y lx + own y ll + own y lr) + (one y x + own y xr + cown y kr) + cown y k <= 1) as Ho'.
  { intros y. specialize (Ho y). rewrite Hor in Ho. simpl in Ho. lia. }
  unfold rbremove_unlink. do 5 rbstep.
  replace (is_null (root r)) with false by by destruct r.
  eapply wp_mono; [eapply descend_l_ok; [apply zrep_right, Hz|done]|].
  intros ? ? [-> ->]. replace (head (inorder r)) with (Some x).
  2:{ unfold r. rewrite inorder_plug, spine_cleft by done. done. }
  do 3 rbstep. own_at Ho' n. own_at Ho' x. own_at Ho' lx.
  assert (x ≠ n) by (apply one_0; lia). assert (lx ≠ n) by (apply one_0; lia).
  assert (x ≠ lx) by (apply one_0; lia).
  apply wp_relink_neg; [done|done|lia|intros y; specialize (Ho y); lia|]. intros h' Hc' Hag.
  assert (∀ y, cown y k = 0 → ∀ v, rb_heap s !! y = v → h' !! y = v) as Hag' by (intros; subst; auto).
  apply Hag' in Hx, Hlx, Hxx; try lia.
  rbstep. replace (negb (is_null (root r))) with true by by destruct r. do 10 rbstep.
  rewrite insert_insert_eq.
  assert (∀ y, own y xr + cown y kr <= 1) as Hoxr by (intros y; specialize (Ho' y); lia).
  destruct kr as [|f kr].
  - simpl root. rewrite ptr_eqb_refl. simpl. do 6 rbstep.
    eapply (wp_set_par _ (Some x)).
    { repeat (apply rep_upd; [lia|]). eapply rep_relinked; [exact Hxr|exact Hag|].
      intros y. specialize (Ho' y). lia. }
    rbstep. split; [done|].
    apply (unlinked_zrep s k c lc ll lx lr n [] cx x xr h'); [exact Hz|done|exact Hc'|exact Hag|..].
    + intros y Hy. assert (y ≠ x) by (apply one_0; lia). assert (y ≠ lx) by (apply one_0; lia).
      rewrite set_par_ne by lia. by rewrite !lookup_insert_ne by congruence.
    + rewrite set_par_ne by lia. lk.
    + rewrite set_par_ne by lia. lk.
    + simpl. apply (set_par_rep _ (Some x)); [intros y; specialize (Ho' y); lia|].
      repeat (apply rep_upd; [lia|]). eapply rep_relinked; [exact Hxr|exact Hag|].
      intros y. specialize (Ho' y). lia.
  - destruct f as [cp p pr|]; [|by inversion Hfl]. set (f := FL cp p pr) in *.
    destruct (exists_last (l := f :: kr)) as (ki & fl & Hki); [done|].
    assert (root r = Some (fnode fl)) as Er by (unfold r; rewrite Hki; apply root_plug_snoc).
    assert (root (plug (f :: kr) xr) = Some (fnode fl)) as Er' by (rewrite Hki; apply root_plug_snoc).
    assert (∀ y, cown y (f :: kr) = 0 → y ≠ p ∧ y ≠ fnode fl) as Hkr.
    { intros y Hy. split; intros ->; [simpl in Hy; unfold fown in Hy; simpl in Hy; rewrite one_refl in Hy; lia|].
      rewrite Hki, cown_app in Hy. simpl in Hy. unfold fown in Hy. rewrite one_refl in Hy. lia. }
    assert (cown x (f :: kr) = 0) as Hx0 by lia. assert (cown n (f :: kr) = 0) as Hn0 by lia.
    assert (cown lx (f :: kr) = 0) as Hlx0 by lia.
    destruct (Hkr _ Hx0), (Hkr _ Hn0), (Hkr _ Hlx0).
    rewrite Er. unfold ptr_eqb. rewrite bool_decide_eq_false_2 by congruence. simpl negb. cbv iota.
    simpl pk in *. do 8 rbstep.
    set (h := <[x := _]> (<[lx := _]> (<[x := _]> h'))).
    assert (cseg h (Some x) (f :: kr) (Some n)) as Hseg1.
    { repeat (apply cseg_upd; [done|]). eapply cseg_agree; [exact Hseg|]. intros y Hy.
      apply Hag. specialize (Ho' y). lia. }
    assert (rep h (Some x) xr) as Hxr1.
    { repeat (apply rep_upd; [lia|]). eapply rep_relinked; [exact Hxr|exact Hag|].
      intros y. specialize (Ho' y). lia. }
    assert (h !! x = Some (mk_rbnode (parent k) (Some lx) (root xr) (cz c))) as Hhx by (unfold h; lk).
    destruct (splice_rep h f kr ki fl x xr n
      (mk_rbnode (parent k) (Some lx) (Some (fnode fl)) (cz c))) as [Hfl1 Hrep]; try (done || lia).
    rbstep. eapply wp_upd; [apply (fcell_lookup _ _ _ _ (proj1 Hseg1))|]. simpl.
    rbstep. rbstep. rbstep. eapply wp_upd; [exact Hfl1|]. do 2 rbstep.
    rewrite fcell_par. change (mk_rbnode (pk (Some n) kr) (root xr) (root pr) (cz cp))
      with (fcell (root xr) (pk (Some n) kr) f).
    assert (∀ y, own y xr ≠ 0 → y ≠ p ∧ y ≠ fnode fl) as Hkx.
    { intros y Hy. apply Hkr. specialize (Hoxr y). lia. }
    eapply (wp_set_par _ (Some x)).
    { eapply rep_agree; [exact Hxr1|]. intros y Hy. destruct (Hkx y Hy).
      rewrite !lookup_insert_ne; [done|..]; congruence || (intros <-; lia). }
    rbstep. split; [done|].
    eapply (unlinked_zrep s k c lc ll lx lr n (f :: kr) cx x xr h'); [exact Hz|done|exact Hc'|exact Hag|..].
    + intros y Hy. assert (y ≠ x) by (apply one_0; lia). assert (y ≠ lx) by (apply one_0; lia).
      destruct (Hkr y); [lia|]. rewrite set_par_ne by lia. unfold h.
      by rewrite !lookup_insert_ne by (simpl; congruence).
    + rewrite set_par_ne, Er' by lia. lk.
    + rewrite set_par_ne by lia. unfold h. rewrite !lookup_insert_ne by (simpl; congruence). lk.
    + exact Hrep.
Qed.

(** * Rebalancing *)

(** What the loop leaves: blackening the root of the focus makes the tree red-black. *)
Definition healed (L : list loc) (n : ptr) (s : ssrb) : Prop :=
  ∃ k t, zrep h0 s k t ∧ n = root t ∧ inorder (plug k t) = L ∧
    match t with
    | E => k = []
    | T _ l x r => ∃ bh, rbt Black bh (plug k (T Black l x r))
    end.

(** A loop state: the focus is black and one black node short in its context. *)
Definition short (L : list loc) (j : nat) (np : ptr * ptr) (s : ssrb) : Prop :=
  ∃ k t c m, zrep h0 s k t ∧ np = (root t, parent k) ∧ inorder (plug k t) = L ∧ j = length k ∧
    rbt Black m t ∧ cok c (S m) k.

Definition rturn_post (L : list loc) (j : nat) (r : (ptr * ptr) + ptr) (s' : ssrb) : Prop :=
  match r with
  | inl np => ∃ j', (j' < j)%nat ∧ short L j' np s'
  | inr n => healed L n s'
  end.

Definition blackp (t : tree) : bool := match t with T Red _ _ _ => false | _ => true end.
Lemma wp_is_black s par t Q : rep (rb_heap s) par t → Q (blackp t) s → wp (is_black (root t)) s Q.
Proof.
  destruct t as [|c l x r]; simpl; [done|]. intros (Hx & _) HQ. unfold is_black. simpl.
  rbstep. rbstep. rbstep. by destruct c.
Qed.
Lemma rbt_blackp c n t : rbt c n t → blackp t = true → rbt Black n t.
Proof. destruct 1; simpl; intros; eauto with rb; done. Qed.
Lemma rbt_redp c n t : rbt c n t → blackp t = false →
  ∃ l x r, t = T Red l x r ∧ rbt Black n l ∧ rbt Black n r.
Proof. destruct 1; naive_solver. Qed.

(** The context of a parent of colour [cp] whose subtree should have [S m] black nodes
    below it. *)
Definition above (cp : color) (m : nat) (k : ctx) : Prop :=
  match cp with Red => cok Black (S m) k | Black => ∃ c, cok c (S (S m)) k end.
Lemma above_plug cp m k l x r c1 c2 : above cp m k → rbt c1 (S m) l → rbt c2 (S m) r →
  (cp = Red → c1 = Black ∧ c2 = Black) → ∃ bh, rbt Black bh (plug k (T cp l x r)).
Proof.
  intros Hk Hl Hr Hc. destruct cp; simpl in Hk.
  - destruct Hc as [-> ->]; [done|]. eapply rbt_plug; [exact Hk| |by right]. eauto with rb.
  - destruct Hk as [c Hk]. eapply rbt_plug; [exact Hk| |by left]. eauto with rb.
Qed.
Lemma cok_above c m f k : cok c (S m) (f :: k) → above (fcolor f) m k ∧ fcolor f = c ∧
  ∃ d, rbt d (S m) (fsib f) ∧ (c = Red → d = Black).
Proof.
  inversion 1 as [|? ? ? Ef|? ? ? ? ? Ef]; subst; rewrite Ef; simpl; split_and!; eauto.
  by eexists.
Qed.

(** Both nephews are black: the sibling turns red and the deficit moves to the parent. *)
Lemma continue_ok L j s k cp p l r c1 c2 m : zrep h0 s k (T cp l p r) →
  rbt c1 m l → rbt c2 m r → above cp m k → (cp = Black → length k < j)%nat →
  inorder (plug k (T cp l p r)) = L →
  wp (rbremove_continue (Some p)) s (rturn_post L j).
Proof.
  intros Hz Hl Hr Hk Hj HL. pose proof (z_at _ _ _ _ _ _ _ Hz) as Hp.
  unfold rbremove_continue. do 5 rbstep. destruct cp; simpl in *.
  - exists k, (T Red l p r). split_and!; [done|done|done|].
    eapply rbt_plug; [exact Hk| |by left]. eauto with rb.
  - destruct Hk as [c Hk]. exists (length k). split; [by apply Hj|].
    exists k, (T Black l p r), c, (S m). split_and!; eauto with rb.
Qed.

(** A red nephew: after the rotation the tree is red-black again. *)
Lemma rotated_ok L j s k cp l q r m : zrep h0 s k (T cp l q r) →
  rbt Black (S m) l → rbt Black (S m) r → above cp m k → inorder (plug k (T cp l q r)) = L →
  wp (let! root := rd_root in cret (inr root)) s (rturn_post L j).
Proof.
  intros Hz Hl Hr Hk HL. rbstep. rbstep. rbstep.
  destruct (above_plug cp m k l q r Black Black) as [bh Hbh]; [done..|].
  apply zrep_plug in Hz. exists [], (plug k (T cp l q r)). rewrite (z_root _ _ _ _ Hz).
  split_and!; [done|done|done|].
  destruct (plug k (T cp l q r)); [done|]. inversion Hbh; subst. simpl. eauto with rb.
Qed.
Lemma remove_left_tail L j s k cp p a y b z e t m c1 :
  zrep h0 s k (T cp t p (T Black a y (T Red b z e))) → rbt Black m t → rbt c1 m a →
  rbt Black m b → rbt Black m e → above cp m k →
  inorder (plug k (T cp t p (T Black a y (T Red b z e)))) = L →
  wp (let! pc := rd_color (Some p) in
      wr_color (Some y) pc;;; wr_color (Some p) SS_RBBLACK;;;
      let! sr := rd_r (Some y) in
      wr_color sr SS_RBBLACK;;;
      ss_rbrotate_left (Some p);;;
      let! root := rd_root in
      cret (inr root)) s (rturn_post L j).
Proof.
  intros Hz Ht Ha Hb He Hk HL. zlook p Hz. rbstep. rbstep. rbstep. wcol Hz. rbstep. wcol Hz.
  rbstep. zlook y Hz. rbstep. rbstep. wcol Hz. rbstep. rotl Hz.
  eapply rotated_ok; [exact Hz| | |done|rewrite <- HL; inord]; eauto with rb.
Qed.
Lemma remove_right_tail L j s k cp p a y b z e t m c1 :
  zrep h0 s k (T cp (T Black (T Red b z e) y a) p t) → rbt Black m t → rbt c1 m a →
  rbt Black m b → rbt Black m e → above cp m k →
  inorder (plug k (T cp (T Black (T Red b z e) y a) p t)) = L →
  wp (let! pc := rd_color (Some p) in
      wr_color (Some y) pc;;; wr_color (Some p) SS_RBBLACK;;;
      let! sl := rd_l (Some y) in
      wr_color sl SS_RBBLACK;;;
      ss_rbrotate_right (Some p);;;
      let! root := rd_root in
      cret (inr root)) s (rturn_post L j).
Proof.
  intros Hz Ht Ha Hb He Hk HL. zlook p Hz. rbstep. rbstep. rbstep. wcol Hz. rbstep. wcol Hz.
  rbstep. zlook y Hz. rbstep. rbstep. wcol Hz. rbstep. rotr Hz.
  eapply rotated_ok; [exact Hz| | |done|rewrite <- HL; inord]; eauto with rb.
Qed.

(** The rest of a turn, the sibling [q] being black. *)
Lemma wp_both_black s q n sl sr (Q : bool → ssrb → Prop) :
  rb_heap s !! q = Some n → rb_r n = root sr → rep (rb_heap s) (Some q) sr →
  Q (blackp sl && blackp sr) s →
  wp (if blackp sl then let! sr := rd_r (Some q) in is_black sr else cret false) s Q.
Proof.
  intros Hq Er Hsr HQ. destruct (blackp sl); [|done]. rbstep. rbstep. rewrite Er. by eapply wp_is_black.
Qed.
Lemma remove_left_ok L j s k cp p sl q sr t m c1 c2 :
  zrep h0 s k (T cp t p (T Black sl q sr)) → rbt Black m t → rbt c1 m sl → rbt c2 m sr →
  above cp m k → (cp = Black → length k < j)%nat → inorder (plug k (T cp t p (T Black sl q sr))) = L →
  wp (rbremove_left (Some p) (Some q)) s (rturn_post L j).
Proof.
  intros Hz Ht Hsl Hsr Hk Hj HL. pose proof Hz as [_ (Hp & _ & Hq & Hsl' & Hsr') _ _ _].
  unfold rbremove_left. simpl in Hp. rbstep. rbstep. rbstep. eapply wp_is_black; [done|].
  rbstep. eapply wp_both_black; [done|done|done|].
  destruct (blackp sl) eqn:Esl, (blackp sr) eqn:Esr; simpl.
  1: { rbstep. wcol Hz. ztop Hz. eapply continue_ok; [exact Hz|done| |done|done|rewrite <- HL; inord].
       apply rbt_R; by eapply rbt_blackp. }
  all: rbstep; rbstep; rbstep; (eapply wp_is_black; [exact Hsr'|]); rewrite ?Esr; simpl.
  1,3: destruct (rbt_redp _ _ _ Hsr Esr) as (b' & z & e & -> & Hb' & He); rbstep; rbstep;
    by eapply remove_left_tail.
  destruct (rbt_redp _ _ _ Hsl Esl) as (a & y & b & -> & Ha & Hb).
  do 4 rbstep. wcol Hz. rbstep. wcol Hz. rbstep. rotr Hz. zlook p Hz. rbstep.
  apply (rbt_blackp _ _ _ Hsr) in Esr.
  eapply remove_left_tail; [exact Hz|done|exact Ha|done|done|done|rewrite <- HL; inord].
Qed.
Lemma remove_right_ok L j s k cp p sl q sr t m c1 c2 :
  zrep h0 s k (T cp (T Black sl q sr) p t) → rbt Black m t → rbt c1 m sl → rbt c2 m sr →
  above cp m k → (cp = Black → length k < j)%nat → inorder (plug k (T cp (T Black sl q sr) p t)) = L →
  wp (rbremove_right (Some p) (Some q)) s (rturn_post L j).
Proof.
  intros Hz Ht Hsl Hsr Hk Hj HL. pose proof Hz as [_ (Hp & (Hq & Hsl' & Hsr') & _) _ _ _].
  unfold rbremove_right. simpl in Hp. rbstep. rbstep. rbstep. eapply wp_is_black; [done|].
  rbstep. eapply wp_both_black; [done|done|done|].
  destruct (blackp sl) eqn:Esl, (blackp sr) eqn:Esr; simpl.
  1: { rbstep. wcol Hz. ztop Hz. eapply continue_ok; [exact Hz| |done|done|done|rewrite <- HL; inord].
       apply rbt_R; by eapply rbt_blackp. }
  all: rbstep; rbstep; rbstep; (eapply wp_is_black; [exact Hsl'|]); rewrite ?Esl; simpl.
  2,3: destruct (rbt_redp _ _ _ Hsl Esl) as (a & y & b & -> & Ha & Hb); rbstep; rbstep;
    by eapply remove_right_tail.
  destruct (rbt_redp _ _ _ Hsr Esr) as (b' & z & e & -> & Hb' & He).
  do 4 rbstep. wcol Hz. rbstep. wcol Hz. rbstep. rotl Hz. zlook p Hz. rbstep.
  apply (rbt_blackp _ _ _ Hsl) in Esl.
  eapply remove_right_tail; [exact Hz|done|exact He|done|done|done|rewrite <- HL; inord].
Qed.

Lemma croot_ne f k t : (∀ x, own x t + cown x (f :: k) <= 1) → ptr_eqb (root t) (croot (root t) (f :: k)) = false.
Proof.
  intros Ho. apply bool_decide_eq_false_2. intros E. unfold croot in E.
  destruct (last (f :: k)) as [g|] eqn:El; [|by apply last_None in El].
  apply own_root in E. specialize (Ho (fnode g)).
  apply last_Some in El as [k' El]. rewrite El, cown_app in Ho. simpl in Ho. unfold fown in Ho.
  rewrite one_refl in Ho. lia.
Qed.

Lemma remove_turn_ok L j np s : short L j np s → wp (rbremove_turn np) s (rturn_post L j).
Proof.
  intros (k & t & c & m & Hz & -> & HL & -> & Ht & Hk). unfold rbremove_turn. simpl.
  rbstep. rbstep. rewrite (z_root _ _ _ _ Hz). destruct k as [|f k].
  { rewrite ptr_eqb_refl. rbstep. exists [], t. split_and!; [done|done|done|].
    destruct t; [done|]. inversion Ht; subst. simpl. eauto with rb. }
  rewrite croot_ne by apply Hz. destruct (cok_above _ _ _ _ Hk) as (Hab & <- & d & Hs & Hd).
  pose proof Hz as [_ Hrt (Hf & _) Ho _].
  destruct f as [cp p sib|cp sib p]; simpl in Hf, Hs, Hab; destruct Hf as [Hp Hsib].
  - simpl. rbstep. rbstep. rewrite ptr_eqb_refl. rbstep. rbstep.
    inversion Hs as [|n a q b Ha Hb|n c1 c2 a q b Ha Hb]; subst; destruct Hsib as (Hq & _ & _).
    + destruct cp; [by specialize (Hd eq_refl)|]. do 4 rbstep. wcol Hz. rbstep. wcol Hz. rbstep. rotl Hz.
      zlook p Hz. rbstep. inversion Ha as [| |n c1 c2 al y ar Hal Har]; subst.
      eapply (remove_left_ok _ _ _ (FL Black q b :: k)); [exact Hz|done|done|done| |done|inord].
      destruct Hab as [c Hc]. simpl. by eapply cok_B.
    + do 4 rbstep. apply zrep_up in Hz. eapply remove_left_ok; [exact Hz|done|exact Ha|exact Hb|done|simpl; lia|done].
  - simpl. rbstep. rbstep.
    assert (ptr_eqb (root t) (root sib) = false) as ->.
    { apply bool_decide_eq_false_2. intros E. destruct sib as [|cs a q b]; [inversion Hs|].
      apply own_root in E. own_at Ho q. lia. }
    rbstep. rbstep.
    inversion Hs as [|n a q b Ha Hb|n c1 c2 a q b Ha Hb]; subst; destruct Hsib as (Hq & _ & _).
    + destruct cp; [by specialize (Hd eq_refl)|]. do 4 rbstep. wcol Hz. rbstep. wcol Hz. rbstep. rotr Hz.
      zlook p Hz. rbstep. inversion Hb as [| |n c1 c2 bl y br Hbl Hbr]; subst.
      eapply (remove_right_ok _ _ _ (FR Black a q :: k)); [exact Hz|done|done|done| |done|inord].
      destruct Hab as [c Hc]. simpl. by eapply cok_B.
    + do 4 rbstep. apply zrep_up in Hz. eapply remove_right_ok; [exact Hz|done|exact Ha|exact Hb|done|simpl; lia|done].
Qed.

(** * The whole operation *)

(** After the unlinking: what is left to repair, by the colour of the node that left its place. *)
Lemma remove_rest_ok L s k t c m col d : zrep h0 s k t → inorder (plug k t) = L →
  match col with
  | Red => cok c m k ∧ rbt Black m t
  | Black => cok c (S m) k ∧ rbt d m t
  end →
  wp (if Z.eqb (cz col) SS_RBRED then cret () else
      let! red := is_red (root t) in
      if red then wr_color (root t) SS_RBBLACK else
      let! n := rb_loop rbremove_turn (root t, parent k) in
      cwhen (negb (is_null n)) (wr_color n SS_RBBLACK)) s (λ _ s', rb_seq h0 s' L).
Proof.
  intros Hz HL Hcol. destruct col; simpl.
  { destruct Hcol as [Hk Ht]. destruct (rbt_plug _ _ _ _ _ Hk Ht) as [bh Hbh]; [by left|].
    rbstep. exists (plug k t), bh. by rewrite <- zrep_plug. }
  destruct Hcol as (Hk & Ht). rbstep. eapply wp_is_red_root; [apply Hz|].
  destruct (blackp t) eqn:Eb.
  2:{ destruct (rbt_redp _ _ _ Ht Eb) as (a & x & b & -> & Ha & Hb).
      destruct (rbt_plug c Black (S m) k (T Black a x b)) as [bh Hbh]; [done|eauto with rb|by left|].
      simpl. wcol Hz. exists (plug k (T Black a x b)), bh. rewrite <- zrep_plug.
      split_and!; [done|done|]. rewrite <- HL. inord. }
  replace (match t with T Red _ _ _ => true | _ => false end) with false
    by (by destruct t as [|[] ? ? ?]).
  rbstep. eapply wp_mono; [apply (wp_rb_loop _ (short L) (healed L) (length k)); [apply remove_turn_ok| |]|].
  - exists k, t, c, m. split_and!; eauto using rbt_blackp.
  - apply length_ctx_size in Hz. lia.
  - intros n s' (k' & t' & Hz' & -> & HL' & Hb). rbstep. destruct t' as [|c' a x b]; simpl.
    + subst k'. exists E, 0. eauto with rb.
    + destruct Hb as [bh Hb]. wcol Hz'. exists (plug k' (T Black a x b)), bh.
      rewrite <- zrep_plug. split_and!; [done|done|]. rewrite <- HL'. inord.
Qed.

Lemma cok_rename c m kr cn l n x k : cok c m (kr ++ FR cn l n :: k) → cok c m (kr ++ FR cn l x :: k).
Proof.
  revert c m. induction kr as [|f kr IH]; intros c m; simpl.
  - inversion 1; subst; simpl in *; subst; eauto with rb.
  - inversion 1; subst; eauto with rb.
Qed.

(** What the colour of the leaving node means for its place. *)
Lemma leaving_ok c m k cx l x r d t' : cok c m k → rbt d m (T cx l x r) → d = Black ∨ c = Black →
  (t' = l ∨ t' = r) →
  ∃ m' d', match cx with Red => cok c m' k ∧ rbt Black m' t' | Black => cok c (S m') k ∧ rbt d' m' t' end.
Proof.
  intros Hk Ht Hc Ht'. inversion Ht; subst.
  - exists m, Black. destruct Ht' as [->| ->]; auto.
  - destruct Ht' as [->| ->]; eauto.
Qed.

Lemma zremove_ok s k c l n r bh : zrep h0 s k (T c l n r) → rb_heap s !! n = h0 !! n →
  rbt Black bh (plug k (T c l n r)) →
  wp (ss_rbremove (Some n)) s (λ _ s', rb_seq h0 s' (cleft k ++ (inorder l ++ inorder r) ++ cright k)).
Proof.
  intros Hz Hnh Hbh. unfold ss_rbremove. pose proof (z_at _ _ _ _ _ _ _ Hz) as Hn. rbstep. rbstep.
  replace (Z.eqb (cz c) SS_RBUNDEF) with false by by destruct c. rbstep.
  set (L := cleft k ++ _).
  assert (∀ k' t' col, inorder (plug k' t') = L → (∃ a m d, match col with
      | Red => cok a m k' ∧ rbt Black m t' | Black => cok a (S m) k' ∧ rbt d m t' end) →
    ∀ res s', unlinked s' res k' t' col → wp (
      let n0 := res.1.1 in if Z.eqb res.2 SS_RBRED then cret () else
      let! red := is_red n0 in
      if red then wr_color n0 SS_RBBLACK else
      let! n := rb_loop rbremove_turn res.1 in
      cwhen (negb (is_null n)) (wr_color n SS_RBBLACK)) s' (λ _ s', rb_seq h0 s' L)) as Hrest.
  { intros k' t' col HL (a & m & d & Hc) res s' [-> Hz']. simpl. by eapply remove_rest_ok. }
  destruct (rbt_plug_inv _ _ _ Hbh) as (a & d & m & Hk & Ht & Had).
  assert ((l = E ∨ r = E) ∨ (l ≠ E ∧ r ≠ E)) as [Hone|Htwo] by (destruct l, r; auto).
  - set (t' := match l with E => r | _ => l end).
    assert (inorder t' = inorder l ++ inorder r ∧ (t' = l ∨ t' = r)) as [Hin Ht'].
    { destruct l; [auto|]. destruct Hone as [| ->]; [done|]. subst t'. rewrite app_nil_r. auto. }
    destruct (leaving_ok _ _ _ _ _ _ _ _ t' Hk Ht Had Ht') as (m' & d' & Hm').
    eapply wp_mono; [eapply (unlink_one_ok s k c l n r t'); [done|done|]|].
    + subst t'. destruct l; [by left|right]. destruct Hone; [done|]. by subst.
    + apply Hrest; [rewrite inorder_plug, Hin; done|eauto].
  - destruct (spine r) as (kr & cx & x & xr & -> & Hfl); [tauto|].
    eapply wp_mono; [eapply unlink_two_ok; [done|done|tauto|done]|]. apply Hrest.
    + subst L. rewrite plug_app. simpl. rewrite !inorder_plug. simpl.
      rewrite ?inorder_plug, (spine_cleft kr) by done. inord.
    + assert (plug k (T c l n (plug kr (T cx E x xr))) = plug (kr ++ FR c l n :: k) (T cx E x xr)) as Ep
        by by rewrite plug_app.
      rewrite Ep in Hbh. destruct (rbt_plug_inv _ _ _ Hbh) as (a' & d' & m' & Hk' & Ht' & Had').
      apply (cok_rename _ _ _ _ _ _ x) in Hk'.
      destruct (leaving_ok _ _ _ _ _ _ _ _ xr Hk' Ht' Had') as (m2 & d2 & ?); eauto.
Qed.

Lemma rbremove_ok s l1 n l2 : rb_seq h0 s (l1 ++ n :: l2) → rb_heap s !! n = h0 !! n →
  wp (ss_rbremove (Some n)) s (λ _ s', rb_seq h0 s' (l1 ++ l2)).
Proof.
  intros (k & c & l & r & bh & Hz & Hbh & -> & ->)%rb_seq_focus Hn.
  eapply wp_mono; [by eapply zremove_ok|]. intros [] s' Hs. rewrite <- !app_assoc in *. done.
Qed.
End removal.
