(* ===== verification/SsRbSpec.v ===== *)
(** What the red-black tree promises: the interface [TreeOps]/[TreeLaws] its users are
    verified against, its implementation by ss_rb.c, and the correctness theorems of
    insertion, removal and the walks. *)
From stdpp Require Import base list gmap.
From S2P Require Import Prelude SsRb SsRbProofs SsRbInsert SsRbWalk SsRbRemove.
Local Open Scope c_scope.

(** * The interface

    The operations of ss_rb.h over a state [St]; [t_seq s L]: the nodes in the tree are, in
    order, [L].  [t_node s n]: [n] is a node of the store. *)
Class TreeOps (St : Type) := {
  t_get : (loc → Z) → cmd St (Z * ptr);
  t_set : ptr → Z → loc → cmd St ();
  t_replace : loc → loc → cmd St ();
  t_remove : loc → cmd St ();
  t_min : cmd St ptr;
  t_max : cmd St ptr;
  t_next : loc → cmd St ptr;
  t_prev : loc → cmd St ptr;
  t_seq : St → list loc → Prop;
  t_node : St → loc → Prop
}.

(** The position a failed search ends at: the neighbour of the key on one side. *)
Definition beside (l1 l2 : list loc) (r : Z * ptr) : Prop :=
  (r.2 = None ∧ l1 = [] ∧ l2 = []) ∨
  (r.1 = (-1)%Z ∧ ∃ x, r.2 = Some x ∧ last l1 = Some x) ∨
  (r.1 = 1%Z ∧ ∃ x, r.2 = Some x ∧ head l2 = Some x).

(** The state after an update: the new sequence, the same nodes. *)
Definition t_upd {St} `{TreeOps St} (s s' : St) (L : list loc) : Prop :=
  t_seq s' L ∧ ∀ n, t_node s n → t_node s' n.

Class TreeLaws (St : Type) `{TreeOps St} := {
  t_seq_NoDup s L : t_seq s L → NoDup L;
  t_get_hit cmp s l1 x l2 : t_seq s (l1 ++ x :: l2) → cut cmp (l1 ++ x :: l2) l1 [x] l2 →
    t_get cmp s = Some ((0%Z, Some x), s);
  t_get_miss cmp s l1 l2 : t_seq s (l1 ++ l2) → cut cmp (l1 ++ l2) l1 [] l2 →
    ∃ r, t_get cmp s = Some (r, s) ∧ beside l1 l2 r ∧
      ∀ n, t_node s n → n ∉ l1 ++ l2 →
        ∃ s', t_set r.2 r.1 n s = Some ((), s') ∧ t_upd s s' (l1 ++ n :: l2);
  t_replace_ok s l1 o l2 n : t_seq s (l1 ++ o :: l2) → t_node s n → n ∉ l1 ++ o :: l2 →
    ∃ s', t_replace o n s = Some ((), s') ∧ t_upd s s' (l1 ++ n :: l2);
  t_remove_ok s l1 n l2 : t_seq s (l1 ++ n :: l2) →
    ∃ s', t_remove n s = Some ((), s') ∧ t_upd s s' (l1 ++ l2);
  t_min_ok s L : t_seq s L → t_min s = Some (head L, s);
  t_max_ok s L : t_seq s L → t_max s = Some (last L, s);
  t_next_ok s l1 x l2 : t_seq s (l1 ++ x :: l2) → t_next x s = Some (head l2, s);
  t_prev_ok s l1 x l2 : t_seq s (l1 ++ x :: l2) → t_prev x s = Some (last l1, s)
}.

(** * The implementation *)

#[export] Instance rb_ops : TreeOps ssrb := {
  t_get := ss_rbget;
  t_set p rc n := ss_rbset p rc (Some n);
  t_replace o n := ss_rbreplace (Some o) (Some n);
  t_remove n := ss_rbremove (Some n);
  t_min := ss_rbmin;
  t_max := ss_rbmax;
  t_next x := ss_rbnext (Some x);
  t_prev x := ss_rbprev (Some x);
  t_seq := rb_ok;
  t_node s n := is_Some (rb_heap s !! n)
}.

Lemma dir_beside k rc : dir k rc → beside (cleft k) (cright k) (rc, parent k).
Proof.
  destruct k as [|[c x r|c l x] k]; simpl; intros Hd; [by left|right; right|right; left]; simpl.
  - eauto.
  - split; [done|]. exists x. by rewrite app_assoc, last_snoc.
Qed.

(** The nodes of the tree are in the store, and so are the nodes it was built from. *)
Lemma rb_seq_node h0 s L x : rb_seq h0 s L → x ∈ L → is_Some (rb_heap s !! x).
Proof.
  intros HL [l1 [l2 ->]]%list_elem_of_split.
  destruct (rb_seq_focus _ _ _ _ _ HL) as (k & c & l & r & bh & Hz & _).
  apply z_at in Hz. eauto.
Qed.
Lemma rb_upd_nodes s s' L : rb_seq (rb_heap s) s' L → t_upd s s' L.
Proof.
  intros Hs. split; [by eapply rb_seq_ok|]. intros n Hn. simpl in *.
  destruct (decide (n ∈ L)) as [Hin|Hni]; [by eapply rb_seq_node|].
  by rewrite (rb_seq_out _ _ _ _ Hs Hni).
Qed.
Lemma wp_upd_run (m : cmd ssrb ()) s (P : ssrb → Prop) : wp m s (λ _, P) → ∃ s', m s = Some ((), s') ∧ P s'.
Proof. intros ([] & s' & E & HP)%wp_run. eauto. Qed.

Lemma rb_get_miss cmp s l1 l2 : rb_ok s (l1 ++ l2) → cut cmp (l1 ++ l2) l1 [] l2 →
  ∃ r, ss_rbget cmp s = Some (r, s) ∧ beside l1 l2 r ∧
    ∀ n, is_Some (rb_heap s !! n) → n ∉ l1 ++ l2 →
      ∃ s', ss_rbset r.2 r.1 (Some n) s = Some ((), s') ∧ rb_seq (rb_heap s) s' (l1 ++ n :: l2).
Proof.
  intros Hok Hcut. pose proof Hok as (t & bh & Hz & Ht & HL). rewrite <- HL in Hcut.
  destruct (proj1 (wp_run _ _ _) (rbget_ok _ _ _ _ _ _ _ Hz Hcut)) as (r & s' & E & -> & Hr).
  destruct Hr as [(x & Hx & _)|(_ & k & <- & <- & <- & Er & Hd)]; [by apply not_elem_of_nil in Hx|].
  exists r. split; [done|]. split; [destruct r; simpl in *; subst; by apply dir_beside|].
  intros n [nd Hn] Hni. pose proof (rbput_ok _ cmp s n nd (cleft k) (cright k) Hok) as Hput.
  rewrite HL in Hcut. apply wp_upd_run. specialize (Hput Hcut Hn Hni).
  unfold rb_put, wp, cbind in Hput. by rewrite E in Hput.
Qed.

#[export] Instance rb_laws : TreeLaws ssrb.
Proof.
  split; simpl.
  - intros s L HL. by eapply rb_seq_NoDup.
  - intros. by eapply rbget_find_ok.
  - intros cmp s l1 l2 Hs Hc. destruct (rb_get_miss cmp s l1 l2 Hs Hc) as (r & E & Hb & Hset).
    exists r. split_and!; [done|done|]. intros n Hn Hni.
    destruct (Hset n Hn Hni) as (s' & E' & Hs'). eauto using rb_upd_nodes.
  - intros s l1 o l2 n Hs [nd Hn] Hni. eapply wp_upd_run, wp_mono; [by eapply rbreplace_ok|].
    intros [] s'. apply rb_upd_nodes.
  - intros s l1 n l2 Hs. eapply wp_upd_run, wp_mono; [by eapply rbremove_ok|].
    intros [] s'. apply rb_upd_nodes.
  - intros. by eapply rbmin_ok.
  - intros. by eapply rbmax_ok.
  - intros. by eapply rbnext_ok.
  - intros. by eapply rbprev_ok.
Qed.

(** * Correctness of the operations *)

(** C22: searching a red-black tree for a key that is not in it and inserting a new node at the
    position the search returns runs without fault; the tree stays red-black with a black root,
    its in-order sequence gains the node exactly between the smaller and the greater keys, and
    no node outside the tree is written. *)
Theorem ss_rb_insert cmp s n l1 l2 :
  rb_ok s (l1 ++ l2) → cut cmp (l1 ++ l2) l1 [] l2 → is_Some (rb_heap s !! n) → n ∉ l1 ++ l2 →
  ∃ r s', ss_rbget cmp s = Some (r, s) ∧ ss_rbset r.2 r.1 (Some n) s = Some ((), s') ∧
    rb_ok s' (l1 ++ n :: l2) ∧
    ∀ x, x ∉ l1 ++ n :: l2 → rb_heap s' !! x = rb_heap s !! x.
Proof.
  intros Hs Hc Hn Hni. destruct (rb_get_miss cmp s l1 l2 Hs Hc) as (r & E & _ & Hset).
  destruct (Hset n Hn Hni) as (s' & E' & Hs'). exists r, s'. split_and!; [done|done|by eapply rb_seq_ok|].
  intros x. by apply rb_seq_out.
Qed.

(** C23: removing a node runs without fault, leaves a red-black tree whose in-order sequence is
    the old one without the node, and writes neither the removed node nor any node outside the
    tree. *)
Theorem ss_rb_remove s n l1 l2 : rb_ok s (l1 ++ n :: l2) →
  ∃ s', ss_rbremove (Some n) s = Some ((), s') ∧ rb_ok s' (l1 ++ l2) ∧
    ∀ x, x ∉ l1 ++ l2 → rb_heap s' !! x = rb_heap s !! x.
Proof.
  intros Hs. destruct (wp_upd_run _ _ _ (rbremove_ok _ _ _ _ _ Hs eq_refl)) as (s' & E & Hs').
  exists s'. split_and!; [done|by eapply rb_seq_ok|]. intros x. by apply rb_seq_out.
Qed.

(** C24: the walks from NULL with [ss_rbnext] and [ss_rbprev] terminate and enumerate the tree in
    order and in reverse order, and [ss_rbtruncate] visits every node exactly once. *)
Theorem ss_rb_walks s L : rb_ok s L →
  rb_walk ss_rbnext (S (length L)) None s = Some L ∧
  rb_walk ss_rbprev (S (length L)) None s = Some (reverse L) ∧
  ∀ x, rb_root s = Some x → ∃ L', ss_rbtruncate (Some x) s = Some (L', s) ∧ L' ≡ₚ L.
Proof.
  intros Hs. rewrite !rb_walk_S. split_and!.
  - replace (ss_rbnext None s) with (Some (head L, s)) by (symmetry; by eapply rbmin_ok).
    destruct L as [|x L]; [done|]. cbn [head].
    rewrite (rbwalk_next_ok (rb_heap s) s [] x L Hs); [done|simpl; lia].
  - replace (ss_rbprev None s) with (Some (last L, s)) by (symmetry; by eapply rbmax_ok).
    destruct L as [|x L _] using rev_ind; [done|]. rewrite last_snoc, reverse_snoc, length_app.
    rewrite (rbwalk_prev_ok (rb_heap s) s (reverse L) x []); [done|by rewrite reverse_involutive|].
    rewrite length_reverse. simpl. lia.
  - intros x Hx. by eapply rb_truncate_ok.
Qed.

(** ** Witnesses: a tree of three nodes *)

Definition demo_heap : gmap loc ssrbnode :=
  list_to_map [(1%positive, mk_rbnode (Some 2%positive) None None 1%Z);
               (2%positive, mk_rbnode None (Some 1%positive) (Some 3%positive) 0%Z);
               (3%positive, mk_rbnode (Some 2%positive) None None 1%Z);
               (4%positive, mk_rbnode None None None 2%Z)].
Definition demo_rb : ssrb := mk_rb (Some 2%positive) demo_heap.
Definition demo_cmp (n : loc) : Z := if Pos.leb n 3 then (-1)%Z else 1%Z.

Lemma demo_rb_ok : rb_ok demo_rb [1; 2; 3]%positive.
Proof.
  exists (T Black (T Red E 1%positive E) 2%positive (T Red E 3%positive E)), 1%nat.
  split_and!; [|eauto 10 with rb|done]. split; [done|by vm_compute|done| |done].
  intros x. simpl. unfold one. repeat case_decide; subst; (lia || done).
Qed.

Lemma ss_rb_insert_witness : ∃ r s', ss_rbget demo_cmp demo_rb = Some (r, demo_rb) ∧
  ss_rbset r.2 r.1 (Some 4%positive) demo_rb = Some ((), s') ∧
  rb_ok s' [1; 2; 3; 4]%positive ∧
  ∀ x, x ∉ [1; 2; 3; 4]%positive → rb_heap s' !! x = rb_heap demo_rb !! x.
Proof.
  apply (ss_rb_insert demo_cmp demo_rb 4%positive [1; 2; 3]%positive []).
  - exact demo_rb_ok.
  - split; [done| | |]; intros x Hx; repeat (apply elem_of_cons in Hx as [->|Hx]; [done|]);
      by apply not_elem_of_nil in Hx.
  - vm_compute. eauto.
  - apply (bool_decide_unpack _). by vm_compute.
Defined.
Lemma ss_rb_remove_witness : ∃ s', ss_rbremove (Some 2%positive) demo_rb = Some ((), s') ∧
  rb_ok s' [1; 3]%positive ∧
  ∀ x, x ∉ [1; 3]%positive → rb_heap s' !! x = rb_heap demo_rb !! x.
Proof. apply (ss_rb_remove demo_rb 2%positive [1%positive] [3%positive]). exact demo_rb_ok. Defined.
Lemma ss_rb_walks_witness :
  rb_walk ss_rbnext 4 None demo_rb = Some [1; 2; 3]%positive ∧
  rb_walk ss_rbprev 4 None demo_rb = Some (reverse [1; 2; 3]%positive) ∧
  ∀ x, rb_root demo_rb = Some x →
    ∃ L', ss_rbtruncate (Some x) demo_rb = Some (L', demo_rb) ∧ L' ≡ₚ [1; 2; 3]%positive.
Proof. apply (ss_rb_walks demo_rb [1; 2; 3]%positive). exact demo_rb_ok. Defined.
