(* ===== verification/SsOrder.v ===== *)
(** The orders of a cursor and the types of a key: ss_order.h and ss_type.h, with the C
    string function they use. *)
From Stdlib Require Import ZArith String Ascii Lia.
From stdpp Require Import base list.
From S2P Require Import Prelude.
Local Open Scope Z_scope.

(** * C strings: bytes up to a terminating 0 *)

Definition c_str (s : string) : list Z :=
  (λ a, Z.of_nat (nat_of_ascii a)) <$> list_ascii_of_string s.
Definition str_at (s : list Z) : Z := match s with [] => 0 | c :: _ => c end.

(** [strncmp(a, b, n)]; reading past the end of a list reads the terminator. *)
Fixpoint strncmp (a b : list Z) (n : nat) : Z :=
  match n with
  | O => 0
  | S n =>
      if Z.eqb (str_at a) (str_at b)
      then if Z.eqb (str_at a) 0 then 0 else strncmp (tail a) (tail b) n
      else str_at a - str_at b
  end.
(** [strcmp(a, b)]: no bound but the terminators. *)
Definition strcmp (a b : list Z) : Z := strncmp a b (S (length a + length b)).

Lemma strncmp_refl a n : strncmp a a n = 0.
Proof. revert a. induction n as [|n IH]; intros a; simpl; [done|]. rewrite Z.eqb_refl. by case_match. Qed.
(** Strings without a 0 inside are equal when [strcmp] says so. *)
Lemma strncmp_eq a b n : Forall (λ c, c ≠ 0) a → Forall (λ c, c ≠ 0) b →
  (length a + length b < n)%nat → strncmp a b n = 0 → a = b.
Proof.
  intros Ha. revert b n. induction Ha as [|x a Hx Ha IH]; intros b [|n] Hb Hn; try lia; cbn [strncmp str_at tail length] in *; cbv beta in *.
  - destruct Hb as [|y b Hy Hb]; cbn [strncmp str_at tail length] in *; cbv beta in *; [done|]. destruct (Z.eqb_spec 0 y); intros; exfalso; lia.
  - destruct Hb as [|y b Hy Hb]; cbn [strncmp str_at tail length] in *; cbv beta in *.
    + destruct (Z.eqb_spec x 0); intros; exfalso; lia.
    + destruct (Z.eqb_spec x y) as [->|]; [|intros; exfalso; lia]. destruct (Z.eqb_spec y 0); [lia|].
      intros E. f_equal. apply (IH b n); [done| |done]. lia.
Qed.
Lemma strcmp_eq a b : Forall (λ c, c ≠ 0) a → Forall (λ c, c ≠ 0) b → strcmp a b = 0 ↔ a = b.
Proof.
  intros Ha Hb. split; [apply strncmp_eq; [done|done|lia]|]. intros ->. apply strncmp_refl.
Qed.

(** * Orders *)

Inductive ssorder := SS_LT | SS_LTE | SS_GT | SS_GTE | SS_EQ | SS_STOP.
#[export] Instance ssorder_eq_dec : EqDecision ssorder.
Proof. solve_decision. Defined.

Definition ss_orderof (order : list Z) (size : nat) : ssorder :=
  if Z.eqb (strncmp order (c_str ">") size) 0 then SS_GT
  else if Z.eqb (strncmp order (c_str ">=") size) 0 then SS_GTE
  else if Z.eqb (strncmp order (c_str "<") size) 0 then SS_LT
  else if Z.eqb (strncmp order (c_str "<=") size) 0 then SS_LTE
  else SS_STOP.

Definition ss_ordername (o : ssorder) : option (list Z) :=
  match o with
  | SS_LT => Some (c_str "<")
  | SS_LTE => Some (c_str "<=")
  | SS_GT => Some (c_str ">")
  | SS_GTE => Some (c_str ">=")
  | _ => None
  end.

(** * Types *)

Inductive sstype :=
  SS_UNDEF | SS_STRING | SS_STRINGPTR | SS_U32 | SS_U64 | SS_I64 | SS_OBJECT | SS_FUNCTION.
#[export] Instance sstype_eq_dec : EqDecision sstype.
Proof. solve_decision. Defined.

Definition ss_typeof (t : sstype) : list Z :=
  match t with
  | SS_UNDEF => c_str "undef"
  | SS_STRING => c_str "string"
  | SS_STRINGPTR => c_str "stringptr"
  | SS_U32 => c_str "u32"
  | SS_U64 => c_str "u64"
  | SS_I64 => c_str "i64"
  | SS_OBJECT => c_str "object"
  | SS_FUNCTION => c_str "function"
  end.
Definition all_types : list sstype :=
  [SS_UNDEF; SS_STRING; SS_STRINGPTR; SS_U32; SS_U64; SS_I64; SS_OBJECT; SS_FUNCTION].

Lemma ss_typeof_inj t u : ss_typeof t = ss_typeof u → t = u.
Proof. destruct t, u; vm_compute; congruence. Qed.

Lemma ss_order_roundtrip o s : ss_ordername o = Some s → ss_orderof s (length s) = o.
Proof. destruct o; simpl; intros [= <-]; reflexivity. Qed.
