(* ===== verification/SvLog.v ===== *)
(** The log of a transaction, sv_log.h: the versions it wrote in order, and for every database
    among them the chain of its versions. *)
From stdpp Require Import base sets list.
From S2P Require Import Prelude.
Local Open Scope Z_scope.
Local Open Scope c_scope.

(** * Model *)

(** [struct svlogv] with its version of a type [V] ([sv] of the C code), the container kept to
    be freed, the database and the position of the next version of that database. *)
Record svlogv {V : Type} := mk_logv { lv_v : V; lv_vgc : option positive; lv_id : Z; lv_next : Z }.
Arguments svlogv : clear implicits.
Arguments mk_logv {V} _ _ _ _.
Record svlogindex := mk_logindex { li_id : Z; li_head : Z; li_tail : Z; li_count : Z; li_ptr : nat }.
(** The two buffers as the lists of their records. *)
Record svlog {V : Type} := mk_log { l_index : list svlogindex; l_buf : list (svlogv V) }.
Arguments svlog : clear implicits.
Arguments mk_log {V} _ _.

Section ops.
Context {V : Type}.

Definition sv_logvinit (v : V) (id : Z) : svlogv V := mk_logv v None id UINT32_MAX.
Definition sv_loginit : svlog V := mk_log [] [].
Definition sv_logfree (l : svlog V) : svlog V := mk_log [] [].
Definition sv_logcount (l : svlog V) : Z := Z.of_nat (length (l_buf l)).
Definition sv_logat (pos : Z) (l : svlog V) : option (svlogv V) :=
  if Z.ltb pos 0 then None else l_buf l !! Z.to_nat pos.
Definition set_lv_next (n : Z) (v : svlogv V) : svlogv V := mk_logv (lv_v v) (lv_vgc v) (lv_id v) n.
(** Writing the record at a position; outside of the buffer is a fault. *)
Definition log_put (pos : Z) (v : svlogv V) (l : svlog V) : option (svlog V) :=
  if Z.ltb pos 0 then None
  else if decide (Z.to_nat pos < length (l_buf l))%nat then Some (mk_log (l_index l) (<[Z.to_nat pos := v]> (l_buf l))) else None.

(** The loop over the index: the place of the database, if it is there. *)
Fixpoint logindex_find (id : Z) (j : nat) (ix : list svlogindex) : option nat :=
  match ix with
  | [] => None
  | i :: ix => if Z.eqb (li_id i) id then Some j else logindex_find id (S j) ix
  end.
(** [g1], [g2]: whether the buffers get the memory they may ask for. *)
Definition sv_logadd (g1 g2 : bool) (v : svlogv V) (ptr : nat) : cmd (svlog V) Z := λ l,
  let n := u32 (sv_logcount l) in
  if negb g1 then Some (-1, l) else
  let l1 := mk_log (l_index l) (l_buf l ++ [v]) in
  match logindex_find (lv_id v) 0 (l_index l1) with
  | Some j =>
      i ← l_index l1 !! j;
      tail ← sv_logat (li_tail i) l1;
      l2 ← log_put (li_tail i) (set_lv_next n tail) l1;
      Some (0, mk_log (<[j := mk_logindex (li_id i) (li_head i) n (u32 (li_count i + 1)) (li_ptr i)]> (l_index l2)) (l_buf l2))
  | None =>
      if negb g2 then Some (-1, mk_log (l_index l1) (take (length (l_buf l)) (l_buf l1)))
      else Some (0, mk_log (l_index l1 ++ [mk_logindex (lv_id v) n n 1 ptr]) (l_buf l1))
  end.
(** [ss_bufset], with its assertion. *)
Definition sv_logreplace (n : Z) (v : svlogv V) : cmd (svlog V) () := λ l, pair () <$> log_put n v l.

(** * The chains *)

(** The positions of the versions of a database, from [k] on. *)
Fixpoint positions (id : Z) (k : nat) (buf : list (svlogv V)) : list Z :=
  match buf with
  | [] => []
  | v :: buf => (if Z.eqb (lv_id v) id then [Z.of_nat k] else []) ++ positions id (S k) buf
  end.
(** Following [next] from the first position visits the others and ends. *)
Fixpoint linked (buf : list (svlogv V)) (ps : list Z) : Prop :=
  match ps with
  | [] => True
  | p :: ps => (∃ v, buf !! Z.to_nat p = Some v ∧ 0 <= p ∧ lv_next v = match ps with [] => UINT32_MAX | q :: _ => q end) ∧ linked buf ps
  end.

Record log_ok (l : svlog V) : Prop := mk_log_ok {
  lo_ids : NoDup (li_id <$> l_index l);
  lo_in : ∀ v, v ∈ l_buf l → lv_id v ∈ li_id <$> l_index l;
  lo_chain : ∀ i, i ∈ l_index l → let ps := positions (li_id i) 0 (l_buf l) in
    linked (l_buf l) ps ∧ head ps = Some (li_head i) ∧ last ps = Some (li_tail i) ∧ li_count i = Z.of_nat (length ps);
  lo_len : Z.of_nat (length (l_buf l)) < UINT32_MAX
}.

(** Reading the chain of a database, as the writer of the log does. *)
Fixpoint log_walk (fuel : nat) (p : Z) (l : svlog V) : option (list V) :=
  match fuel with
  | O => None
  | S fuel =>
      if Z.eqb p UINT32_MAX then Some [] else
      v ← sv_logat p l; vs ← log_walk fuel (lv_next v) l; Some (lv_v v :: vs)
  end.

(** * Lemmas *)

Lemma logindex_find_ok id ix j : match logindex_find id j ix with
  | Some k => ∃ i, (j <= k)%nat ∧ ix !! (k - j)%nat = Some i ∧ li_id i = id
  | None => id ∉ li_id <$> ix
  end.
Proof.
  revert j. induction ix as [|i ix IH]; intros j; csimpl; [set_solver|].
  destruct (Z.eqb_spec (li_id i) id) as [E|N].
  - exists i. rewrite Nat.sub_diag. auto.
  - specialize (IH (S j)). destruct (logindex_find id (S j) ix) as [k|].
    + destruct IH as (i' & Hk & Hi & E). exists i'. split_and!; [lia| |done]. by replace (k - j)%nat with (S (k - S j)) by lia.
    + set_solver.
Qed.
Lemma positions_app id k b1 b2 : positions id k (b1 ++ b2) = positions id k b1 ++ positions id (k + length b1) b2.
Proof.
  revert k. induction b1 as [|v b1 IH]; intros k; csimpl; [by rewrite Nat.add_0_r|].
  rewrite IH, <- app_assoc. do 3 f_equal. lia.
Qed.
Lemma positions_in id k buf p : p ∈ positions id k buf → ∃ v, Z.of_nat k <= p < Z.of_nat (k + length buf) ∧
  buf !! (Z.to_nat p - k)%nat = Some v ∧ lv_id v = id.
Proof.
  revert k. induction buf as [|v buf IH]; intros k; csimpl; [set_solver|].
  intros [Hp|Hp]%elem_of_app.
  - destruct (Z.eqb_spec (lv_id v) id) as [E|]; [|set_solver]. apply list_elem_of_singleton in Hp as ->.
    exists v. rewrite Nat2Z.id, Nat.sub_diag. split_and!; [lia|lia|done|done].
  - destruct (IH (S k) Hp) as (w & Hw & Hl & Hid). exists w. split_and!; [lia|lia| |done].
    by replace (Z.to_nat p - k)%nat with (S (Z.to_nat p - S k)) by lia.
Qed.
(** Only the databases of the records count. *)
Lemma positions_ids id k b1 b2 : lv_id <$> b1 = lv_id <$> b2 → positions id k b1 = positions id k b2.
Proof.
  revert k b2. induction b1 as [|v b1 IH]; intros k [|w b2] E; try done.
  rewrite !fmap_cons in E. injection E as E1 E2. cbn [positions]. by rewrite E1, (IH (S k) b2 E2).
Qed.
Lemma linked_ext b1 b2 ps : (∀ p, p ∈ ps → b1 !! Z.to_nat p = b2 !! Z.to_nat p) → linked b1 ps → linked b2 ps.
Proof.
  induction ps as [|p ps IH]; intros Hb; simpl; [done|]. intros [(v & Hv & Hn) Hl]. split.
  - exists v. by rewrite <- Hb by set_solver.
  - apply IH; [|done]. intros q Hq. apply Hb. set_solver.
Qed.
(** A chain is extended behind its last position. *)
Lemma linked_snoc b b' ps t v n : last ps = Some t → NoDup ps → linked b ps →
  (∀ p, p ∈ ps → p ≠ t → b' !! Z.to_nat p = b !! Z.to_nat p) →
  b' !! Z.to_nat t = Some v → lv_next v = Z.of_nat n → (∃ w, b' !! n = Some w ∧ lv_next w = UINT32_MAX) →
  linked b' (ps ++ [Z.of_nat n]).
Proof.
  intros Hlast Hnd Hl Hb Hv Hn (w & Hw & Hwn). induction ps as [|p ps IH]; [done|].
  destruct Hl as [(x & Hx & Hp & Hxn) Hl]. apply NoDup_cons in Hnd as [Hni Hnd]. destruct ps as [|q ps].
  - injection Hlast as ->. cbn. split; [by exists v|]. split; [|done]. exists w. rewrite Nat2Z.id. split_and!; [done|lia|done].
  - cbn [app linked]. rewrite last_cons_cons in Hlast. split.
    + exists x. rewrite Hb; [done|set_solver|]. intros ->. apply Hni. apply last_Some_elem_of. by apply Hlast.
    + apply IH; [done|done|done|]. intros r Hr. apply Hb. set_solver.
Qed.

Lemma positions_snoc id (buf : list (svlogv V)) v : positions id 0 (buf ++ [v]) =
  positions id 0 buf ++ (if Z.eqb (lv_id v) id then [Z.of_nat (length buf)] else []).
Proof. rewrite positions_app. cbn. by rewrite app_nil_r. Qed.
Lemma positions_NoDup id k buf : NoDup (positions id k buf).
Proof.
  revert k. induction buf as [|v buf IH]; intros k; cbn; [constructor|].
  apply NoDup_app. split_and!; [case_match; [apply NoDup_singleton|constructor]| |done].
  intros p Hp (w & Hw & _)%positions_in. case_match; set_solver by lia.
Qed.
Lemma positions_length id k (b : list (svlogv V)) : (length (positions id k b) <= length b)%nat.
Proof.
  revert k. induction b as [|w b IH]; intros k; cbn; [done|]. rewrite length_app. specialize (IH (S k)). case_match; cbn; lia.
Qed.
Lemma positions_none id (b : list (svlogv V)) (ix : list Z) : (∀ v, v ∈ b → lv_id v ∈ ix) → id ∉ ix → positions id 0 b = [].
Proof.
  intros Hin Hni. destruct (positions id 0 b) as [|p ps] eqn:E; [done|exfalso].
  destruct (positions_in id 0 b p) as (v & _ & Hv & <-); [rewrite E; set_solver|]. apply Hni, Hin. by eapply list_elem_of_lookup_2.
Qed.

(** A database that is in the index already. *)
Lemma logadd_known l v j i : log_ok l → lv_next v = UINT32_MAX → Z.of_nat (length (l_buf l)) + 1 < UINT32_MAX →
  l_index l !! j = Some i → li_id i = lv_id v → ∃ tail, sv_logat (li_tail i) (mk_log (l_index l) (l_buf l ++ [v])) = Some tail ∧
  let b' := <[Z.to_nat (li_tail i) := set_lv_next (Z.of_nat (length (l_buf l))) tail]> (l_buf l ++ [v]) in
  log_put (li_tail i) (set_lv_next (Z.of_nat (length (l_buf l))) tail) (mk_log (l_index l) (l_buf l ++ [v])) = Some (mk_log (l_index l) b') ∧
  log_ok (mk_log (<[j := mk_logindex (li_id i) (li_head i) (Z.of_nat (length (l_buf l))) (u32 (li_count i + 1)) (li_ptr i)]> (l_index l)) b') ∧
  lv_v <$> b' = (lv_v <$> l_buf l) ++ [lv_v v] ∧ lv_id <$> b' = (lv_id <$> l_buf l) ++ [lv_id v].
Proof.
  intros [Hids Hin Hch Hlen] Hvn Hmax Hj Hid. pose proof (list_elem_of_lookup_2 _ _ _ Hj) as Hi.
  destruct (Hch i Hi) as (Hl & Hh & Ht & Hc). set (t := li_tail i) in *. set (n := length (l_buf l)) in *.
  destruct (positions_in (li_id i) 0 (l_buf l) t) as (tail & Hr & Htl & Htid); [by apply last_Some_elem_of|].
  rewrite Nat.sub_0_r in Htl. exists tail. unfold sv_logat, log_put. cbn [l_buf l_index].
  assert ((l_buf l ++ [v]) !! Z.to_nat t = Some tail) as Htl2 by (by apply lookup_app_l_Some).
  destruct (Z.ltb_spec t 0); [lia|]. rewrite decide_True by (rewrite length_app; simpl in Hr; lia).
  set (b' := <[Z.to_nat t := set_lv_next (Z.of_nat n) tail]> (l_buf l ++ [v])).
  assert (lv_id <$> b' = lv_id <$> l_buf l ++ [v]) as Eid.
  { unfold b'. rewrite list_fmap_insert. apply list_insert_id. rewrite list_lookup_fmap, Htl2. done. }
  assert (∀ p, p ≠ Z.to_nat t → (p < n)%nat → b' !! p = l_buf l !! p) as Hb'.
  { intros p Hp Hlt. unfold b'. rewrite list_lookup_insert_ne by done. by apply lookup_app_l. }
  split; [done|]. split; [done|]. split.
  2:{ split; [|by rewrite Eid, fmap_app]. unfold b'. change [lv_v v] with (lv_v <$> [v]). rewrite <- fmap_app, list_fmap_insert. apply list_insert_id.
      by rewrite list_lookup_fmap, Htl2. }
  split; cbn [l_index l_buf].
  - rewrite list_fmap_insert. rewrite list_insert_id; [done|]. by rewrite list_lookup_fmap, Hj.
  - intros w Hw. rewrite list_fmap_insert, list_insert_id by (by rewrite list_lookup_fmap, Hj).
    assert (lv_id w ∈ lv_id <$> l_buf l ++ [v]) as Hw2 by (rewrite <- Eid; by apply list_elem_of_fmap_2).
    apply list_elem_of_fmap in Hw2 as (x & -> & Hx). apply elem_of_app in Hx as [Hx| ->%list_elem_of_singleton]; [by apply Hin|].
    rewrite <- Hid. by apply list_elem_of_fmap_2.
  - intros k Hk. apply list_elem_of_lookup in Hk as [q Hq]. rewrite (positions_ids _ _ b' (l_buf l ++ [v]) Eid), positions_snoc.
    destruct (decide (q = j)) as [->|Hne].
    + rewrite list_lookup_insert_eq in Hq by (by eapply lookup_lt_Some). injection Hq as <-. cbn [li_id li_head li_tail li_count].
      rewrite Hid, Z.eqb_refl. rewrite Hid in *. split_and!.
      * eapply (linked_snoc (l_buf l) b' _ t (set_lv_next (Z.of_nat n) tail)); try done.
        -- apply positions_NoDup.
        -- intros p Hp Hpt. destruct (positions_in _ _ _ _ Hp) as (w & Hw & _). apply Hb'; [lia|]. simpl in Hw. lia.
        -- unfold b'. apply list_lookup_insert_eq. rewrite length_app. simpl in Hr. lia.
        -- exists v. split; [|done]. unfold b'. rewrite list_lookup_insert_ne by (simpl in Hr; lia).
           rewrite lookup_app_r by done. by rewrite Nat.sub_diag.
      * by destruct (positions (lv_id v) 0 (l_buf l)).
      * by rewrite last_snoc.
      * rewrite Hc, length_app, wrap_id; cbn; [lia|]. unfold in_u, UINT32_MAX in *.
        pose proof (positions_length (lv_id v) 0 (l_buf l)). lia.
    + rewrite list_lookup_insert_ne in Hq by done. pose proof (list_elem_of_lookup_2 _ _ _ Hq) as Hkin.
      assert (li_id k ≠ li_id i) as Hdiff.
      { intros E. apply Hne. eapply (NoDup_lookup _ _ _ (li_id i) Hids); rewrite list_lookup_fmap; [rewrite Hq|rewrite Hj]; simpl; by f_equal. }
      destruct (Z.eqb_spec (lv_id v) (li_id k)); [congruence|]. rewrite app_nil_r. destruct (Hch k Hkin) as (Hl' & Hrest).
      split; [|done]. eapply linked_ext; [|exact Hl']. intros p Hp. destruct (positions_in _ _ _ _ Hp) as (w & Hw & Hwl & Hwid).
      rewrite Nat.sub_0_r in Hwl. symmetry. apply Hb'; [|simpl in Hw; lia]. intros E. rewrite E in Hwl. congruence.
  - unfold b'. rewrite length_insert, length_app. cbn. fold n. lia.
Qed.
(** A new database. *)
Lemma logadd_new l v ptr : log_ok l → lv_next v = UINT32_MAX → Z.of_nat (length (l_buf l)) + 1 < UINT32_MAX →
  lv_id v ∉ li_id <$> l_index l →
  log_ok (mk_log (l_index l ++ [mk_logindex (lv_id v) (Z.of_nat (length (l_buf l))) (Z.of_nat (length (l_buf l))) 1 ptr]) (l_buf l ++ [v])).
Proof.
  intros [Hids Hin Hch Hlen] Hvn Hmax Hni. split; cbn [l_index l_buf].
  - rewrite fmap_app. apply NoDup_app. split_and!; [done| |apply NoDup_singleton].
    intros x Hx Hx2. cbn in Hx2. apply list_elem_of_singleton in Hx2 as ->. done.
  - intros w Hw. rewrite fmap_app. apply elem_of_app. apply elem_of_app in Hw as [Hw| ->%list_elem_of_singleton].
    + left. by apply Hin.
    + right. cbn. by apply list_elem_of_singleton.
  - intros k Hk. rewrite positions_snoc. apply elem_of_app in Hk as [Hk| ->%list_elem_of_singleton].
    + destruct (Z.eqb_spec (lv_id v) (li_id k)) as [E|]; [exfalso; apply Hni; rewrite E; by apply list_elem_of_fmap_2|].
      rewrite app_nil_r. destruct (Hch k Hk) as (Hl & Hrest). split; [|done]. eapply linked_ext; [|exact Hl].
      intros p Hp. destruct (positions_in _ _ _ _ Hp) as (w & Hw & _). symmetry. apply lookup_app_l. simpl in Hw. lia.
    + cbn [li_id li_head li_tail li_count]. rewrite Z.eqb_refl, (positions_none _ _ _ Hin Hni). cbn. split_and!; [|done|done|done|done].
      exists v. rewrite Nat2Z.id, lookup_app_r, Nat.sub_diag by done. split_and!; [done|lia|done].
  - rewrite length_app. cbn. lia.
Qed.

Lemma logadd_ok g1 g2 l v ptr : log_ok l → lv_next v = UINT32_MAX → Z.of_nat (length (l_buf l)) + 1 < UINT32_MAX →
  ∃ rc l', sv_logadd g1 g2 v ptr l = Some (rc, l') ∧
    ((rc = -1 ∧ l' = l ∧ g1 && g2 = false) ∨
     (rc = 0 ∧ log_ok l' ∧ lv_v <$> l_buf l' = (lv_v <$> l_buf l) ++ [lv_v v] ∧
      lv_id <$> l_buf l' = (lv_id <$> l_buf l) ++ [lv_id v])).
Proof.
  intros Hok Hvn Hmax. unfold sv_logadd, sv_logcount.
  rewrite wrap_id by (unfold in_u, UINT32_MAX in *; lia). destruct g1; cbn [negb]; [|by eexists _, _; split; [done|left]].
  cbn [l_index]. pose proof (logindex_find_ok (lv_id v) (l_index l) 0) as Hf.
  destruct (logindex_find (lv_id v) 0 (l_index l)) as [j|].
  - destruct Hf as (i & _ & Hj & Hid). rewrite Nat.sub_0_r in Hj. rewrite Hj. cbn [mbind option_bind].
    destruct (logadd_known l v j i Hok Hvn Hmax Hj Hid) as (tail & -> & E & Hok' & Hv & Hi). cbn [mbind option_bind]. rewrite E. cbn [mbind option_bind].
    eexists _, _. split; [done|]. right. by split_and!.
  - destruct g2; cbn [negb].
    + eexists _, _. split; [done|]. right. split_and!; [done|by apply logadd_new|cbn; by rewrite fmap_app|cbn; by rewrite fmap_app].
    + eexists _, _. split; [done|]. left. split_and!; [done| |done]. cbn [l_buf l_index]. rewrite take_app_length. by destruct l.
Qed.

(** Walking a chain gives the versions at its positions. *)
Lemma log_walk_ok l ps fuel : linked (l_buf l) ps → (∀ p, p ∈ ps → p ≠ UINT32_MAX) → (length ps < fuel)%nat →
  log_walk fuel (match ps with [] => UINT32_MAX | p :: _ => p end) l =
    Some (omap (λ p, lv_v <$> l_buf l !! Z.to_nat p) ps).
Proof.
  revert fuel. induction ps as [|p ps IH]; intros [|fuel] Hl Hne Hf; cbn [length] in Hf; try lia; [done|].
  destruct Hl as [(v & Hv & Hp & Hn) Hl]. cbn [log_walk]. destruct (Z.eqb_spec p UINT32_MAX); [exfalso; apply (Hne p); set_solver|].
  unfold sv_logat. destruct (Z.ltb_spec p 0); [lia|]. rewrite Hv. cbn [mbind option_bind]. rewrite Hn, IH; [|done|set_solver|lia].
  cbn [mbind option_bind]. csimpl. by rewrite Hv.
Qed.
Lemma positions_count id k (b : list (svlogv V)) : length (positions id k b) = length (filter (λ v, lv_id v = id) b).
Proof.
  revert k. induction b as [|w b IH]; intros k; [done|]. cbn [positions]. rewrite length_app, IH.
  destruct (Z.eqb_spec (lv_id w) id); [rewrite filter_cons_True by done|rewrite filter_cons_False by done]; done.
Qed.
Lemma positions_versions id k (b0 b : list (svlogv V)) : length b0 = k →
  omap (λ p, lv_v <$> (b0 ++ b) !! Z.to_nat p) (positions id k b) = lv_v <$> filter (λ v, lv_id v = id) b.
Proof.
  revert k b0. induction b as [|v b IH]; intros k b0 Hk; [done|]. cbn [positions].
  specialize (IH (S k) (b0 ++ [v])). rewrite <- app_assoc in IH. cbn [app] in IH.
  rewrite omap_app, IH by (rewrite length_app; cbn; lia). destruct (Z.eqb_spec (lv_id v) id) as [E|N].
  - rewrite filter_cons_True by done. csimpl. by rewrite Nat2Z.id, list_lookup_middle.
  - by rewrite filter_cons_False.
Qed.
End ops.

(** * Theorems *)

(** C32: adding a version to the log keeps the chain of every database: it appends the version
    (or reports a refused allocation and leaves the log as it was), and walking the chain of
    any database from its head gives exactly the versions of that database in the order they
    were added, as many as are counted. *)
Theorem sv_logadd_chains {V} g1 g2 (l : svlog V) v ptr :
  log_ok l → lv_next v = UINT32_MAX → Z.of_nat (length (l_buf l)) + 1 < UINT32_MAX →
  ∃ rc l', sv_logadd g1 g2 v ptr l = Some (rc, l') ∧ log_ok l' ∧
    ((rc = -1 ∧ l' = l ∧ g1 && g2 = false) ∨
     (rc = 0 ∧ lv_v <$> l_buf l' = (lv_v <$> l_buf l) ++ [lv_v v])) ∧
    ∀ i, i ∈ l_index l' →
      log_walk (S (length (l_buf l'))) (li_head i) l' = Some (lv_v <$> filter (λ w, lv_id w = li_id i) (l_buf l')) ∧
      li_count i = Z.of_nat (length (filter (λ w, lv_id w = li_id i) (l_buf l'))).
Proof.
  intros Hok Hvn Hmax. destruct (logadd_ok g1 g2 l v ptr Hok Hvn Hmax) as (rc & l' & E & Hr).
  exists rc, l'. split; [done|]. assert (log_ok l') as Hok' by (destruct Hr as [(_ & -> & _)|(_ & ? & _)]; done).
  split; [done|]. split; [destruct Hr as [Hr|(-> & _ & Hv & _)]; auto|].
  intros i Hi. destruct Hok' as [_ _ Hch Hlen]. destruct (Hch i Hi) as (Hl & Hh & _ & Hc).
  pose proof (positions_versions (li_id i) 0 [] (l_buf l') eq_refl) as Hv. cbn [app] in Hv.
  pose proof (positions_count (li_id i) 0 (l_buf l')) as Hpl.
  split; [|by rewrite Hc, Hpl]. rewrite <- Hv, <- (log_walk_ok l' (positions (li_id i) 0 (l_buf l')) (S (length (l_buf l')))).
  - destruct (positions (li_id i) 0 (l_buf l')); [done|]. by injection Hh as ->.
  - done.
  - intros p (w & Hw & _)%positions_in. simpl in Hw. lia.
  - pose proof (positions_length (li_id i) 0 (l_buf l')). lia.
Qed.
Lemma sv_logadd_chains_witness : ∃ l',
  sv_logadd true true (mk_logv 3 None 7 UINT32_MAX) 0
    (mk_log [mk_logindex 7 0 0 1 0; mk_logindex 8 1 1 1 0] [mk_logv 1 None 7 UINT32_MAX; mk_logv 2 None 8 UINT32_MAX]) = Some (0, l') ∧
  lv_v <$> l_buf l' = [1; 2; 3].
Proof.
  destruct (sv_logadd_chains true true
    (mk_log [mk_logindex 7 0 0 1 0; mk_logindex 8 1 1 1 0] [mk_logv 1 None 7 UINT32_MAX; mk_logv 2 None 8 UINT32_MAX])
    (mk_logv 3 None 7 UINT32_MAX) 0) as (rc & l' & E & _ & [(_ & _ & ?)|(-> & Hv)] & _).
  - split.
    + cbn. apply (bool_decide_unpack _). by vm_compute.
    + intros v Hv. cbn in Hv |- *. set_solver.
    + intros i Hi. cbn in Hi. apply elem_of_cons in Hi as [->|Hi%list_elem_of_singleton]; [|subst i]; cbn; split_and!; try done; eexists; split_and!; (reflexivity || lia).
    + reflexivity.
  - reflexivity.
  - reflexivity.
  - done.
  - by exists l'.
Defined.
