(* ===== verification/Sv.v ===== *)
(** Versions and streams of versions: sv.h, sv_compare.h and the iterator interface of
    ss_iter.h, with the order on keys every component above it relies on. *)
From stdpp Require Import base list gmap.
From S2P Require Import Prelude.
Local Open Scope Z_scope.

Abbreviation bytes := (list Z).

Definition SVNONE : Z := 0.
Definition SVDELETE : Z := 1.
Definition SVUPDATE : Z := 2.
Definition SVDUP : Z := 4.
Definition SVABORT : Z := 8.
Definition SVBEGIN : Z := 16.

(** A version seen through the accessors of [struct svif]: its sequence number, its flags
    and the bytes at [pointer], [size] of them. *)
Record sv := mk_sv { sv_lsn : Z; sv_flags : Z; sv_pointer : bytes }.
#[export] Instance sv_eq_dec : EqDecision sv.
Proof. solve_decision. Defined.

Definition sv_size (v : sv) : Z := Z.of_nat (length (sv_pointer v)).
Definition sv_is (v : sv) (flags : Z) : bool := Z.gtb (Z.land (sv_flags v) flags) 0.

(** * The order on keys

    [sr_compare] answers -1, 0 or 1 on the rows of two versions.  The interface the
    comparison of a scheme is used through. *)
Class KeyOrder {A} (cmp : A → A → Z) : Prop := {
  cmp_range a b : cmp a b = -1 ∨ cmp a b = 0 ∨ cmp a b = 1;
  cmp_refl a : cmp a a = 0;
  cmp_opp a b : cmp b a = - cmp a b;
  cmp_le_trans a b c : cmp a b <= 0 → cmp b c <= 0 → cmp a c <= 0
}.

Section key_order.
Context {A} (cmp : A → A → Z) `{!KeyOrder cmp}.

Lemma cmp_eq_l a b c : cmp a b = 0 → cmp a c = cmp b c.
Proof.
  intros E. pose proof (cmp_opp a b). pose proof (cmp_opp a c). pose proof (cmp_opp b c).
  pose proof (cmp_range a c). pose proof (cmp_range b c).
  pose proof (cmp_le_trans b a c). pose proof (cmp_le_trans a b c).
  pose proof (cmp_le_trans c b a). pose proof (cmp_le_trans c a b). lia.
Qed.
Lemma cmp_eq_r a b c : cmp a b = 0 → cmp c a = cmp c b.
Proof. intros E. rewrite (cmp_opp a c), (cmp_opp b c). by rewrite (cmp_eq_l a b c). Qed.
Lemma cmp_eq_sym a b : cmp a b = 0 → cmp b a = 0.
Proof. intros E. rewrite cmp_opp. lia. Qed.
Lemma cmp_lt_le_trans a b c : cmp a b = -1 → cmp b c <= 0 → cmp a c = -1.
Proof.
  intros H1 H2. pose proof (cmp_range a c). pose proof (cmp_le_trans a b c).
  destruct (decide (cmp a c = 0)) as [E|]; [|lia].
  pose proof (cmp_eq_l a c b E). pose proof (cmp_opp b c). lia.
Qed.
Lemma cmp_le_lt_trans a b c : cmp a b <= 0 → cmp b c = -1 → cmp a c = -1.
Proof.
  intros H1 H2. pose proof (cmp_range a c). pose proof (cmp_le_trans a b c).
  destruct (decide (cmp a c = 0)) as [E|]; [|lia].
  pose proof (cmp_eq_r a c b E). pose proof (cmp_opp a b). lia.
Qed.

#[export] Instance key_order_flip : KeyOrder (λ a b, - cmp a b).
Proof.
  split.
  - intros a b. pose proof (cmp_range a b). lia.
  - intros a. by rewrite cmp_refl.
  - intros a b. rewrite (cmp_opp a b). lia.
  - intros a b c. pose proof (cmp_opp a b). pose proof (cmp_opp b c). pose proof (cmp_opp a c).
    pose proof (cmp_le_trans c b a). lia.
Qed.
End key_order.

(** Orders by a projection, and the order of integers. *)
Lemma key_order_pull {A B} (f : A → B) cmp : KeyOrder cmp → KeyOrder (λ a b, cmp (f a) (f b)).
Proof.
  split; intros.
  - apply cmp_range.
  - apply cmp_refl.
  - apply cmp_opp.
  - by eapply cmp_le_trans.
Qed.
#[export] Instance ss_cmp_order : KeyOrder ss_cmp.
Proof.
  assert (∀ a b, (ss_cmp a b = 0 ∧ a = b) ∨ (ss_cmp a b = 1 ∧ b < a) ∨ (ss_cmp a b = -1 ∧ a < b)) as Hs.
  { intros a b. unfold ss_cmp. destruct (Z.eqb_spec a b); [lia|]. destruct (Z.gtb_spec a b); lia. }
  split.
  - intros a b. destruct (Hs a b); lia.
  - intros a. destruct (Hs a a); lia.
  - intros a b. destruct (Hs a b), (Hs b a); lia.
  - intros a b c. destruct (Hs a b), (Hs b c), (Hs a c); lia.
Qed.

(** [sv_compare]: the rows of two versions. *)
Definition sv_compare (cmp : bytes → bytes → Z) (a b : sv) : Z := cmp (sv_pointer a) (sv_pointer b).
#[export] Instance sv_compare_order cmp `{!KeyOrder cmp} : KeyOrder (sv_compare cmp).
Proof. by apply (key_order_pull sv_pointer). Qed.

(** * Iterators

    The two operations of [struct ssiterif] its clients use: [of] ([None] for NULL, then the
    iterator has no element) and [next]. *)
Class SsIter (I : Type) := { it_of : I → option sv; it_next : I → I }.

(** [enumerates i l]: the iterator yields the versions of [l] and ends. *)
Fixpoint enumerates {I} `{SsIter I} (i : I) (l : list sv) : Prop :=
  match l with
  | [] => it_of i = None
  | v :: l => it_of i = Some v ∧ enumerates (it_next i) l
  end.
Lemma enumerates_of {I} `{SsIter I} i l : enumerates i l → it_of i = head l.
Proof. destruct l; simpl; naive_solver. Qed.

(** A list is an iterator over itself. *)
#[export] Instance list_iter : SsIter (list sv) := { it_of := head; it_next := tail }.
Lemma list_enumerates l : enumerates l l.
Proof. induction l; simpl; auto. Qed.
