(* ===== verification/SsBytes.v ===== *)
(** Bytes in memory: blocks read and written at an offset, the little-endian integers the
    code stores through casts, and the variable-length integers of ss_leb128.h and the hash
    of ss_hash.h. *)
From stdpp Require Import base list.
From S2P Require Import Prelude Sv.
Local Open Scope Z_scope.
Local Open Scope c_scope.

(** * Memory

    A block is the list of its bytes; an access outside of it is a fault. *)
Definition load8 (off : nat) : cmd bytes Z := cread (λ m, m !! off).
Definition store8 (off : nat) (b : Z) : cmd bytes () := λ m,
  if decide (off < length m)%nat then Some ((), <[off := b]> m) else None.
Definition mem_read (off n : nat) (m : bytes) : option bytes :=
  if decide (off + n <= length m)%nat then Some (take n (drop off m)) else None.
Definition mem_write (off : nat) (bs m : bytes) : option bytes :=
  if decide (off + length bs <= length m)%nat
  then Some (take off m ++ bs ++ drop (off + length bs) m) else None.

(** Little-endian integers of [n] bytes. *)
Fixpoint le_enc (n : nat) (z : Z) : bytes :=
  match n with O => [] | S n => z mod 256 :: le_enc n (z / 256) end.
Fixpoint le_dec (bs : bytes) : Z :=
  match bs with [] => 0 | b :: bs => b + 256 * le_dec bs end.
Definition load_le (off n : nat) (m : bytes) : option Z := le_dec <$> mem_read off n m.

(** [mem_at m off bs]: the bytes [bs] are at [off] in [m]. *)
Definition mem_at (m : bytes) (off : nat) (bs : bytes) : Prop :=
  ∃ l r, m = l ++ bs ++ r ∧ length l = off.

(** * Variable-length integers *)

Definition leb128size_turn (st : Z * Z) : cmd () ((Z * Z) + Z) :=
  let '(size, value) := st in
  let value := Z.shiftr value 7 in
  let size := size + 1 in
  cret (if c_true value then inl (size, value) else inr size).
(** Ten turns: [value] has 64 bits and loses seven of them each turn. *)
Definition LEB_FUEL : nat := 10.
Definition ss_leb128size (value : Z) : option Z :=
  fst <$> cloop LEB_FUEL leb128size_turn (0, value) tt.

Definition leb128write_turn (dest : nat) (st : nat * Z) : cmd bytes ((nat * Z) + nat) :=
  let '(size, value) := st in
  let byte := u8 (Z.land value 127) in
  let value := Z.shiftr value 7 in
  let byte := if c_true value then Z.lor byte 128 else byte in
  store8 (dest + size) byte;;;
  cret (if c_true value then inl (S size, value) else inr (S size)).
Definition ss_leb128write (dest : nat) (value : Z) : cmd bytes nat :=
  cloop LEB_FUEL (leb128write_turn dest) (O, value).

Definition leb128read_turn (st : nat * Z * Z) : cmd bytes ((nat * Z * Z) + nat * Z) :=
  let '(src, lsh, value) := st in
  let! b := load8 src in
  cassert (Z.ltb lsh 64);;;
  let value := Z.lor value (u64 (Z.shiftl (Z.land b 127) lsh)) in
  let lsh := lsh + 7 in
  cret (if Z.leb 128 b then inl (S src, lsh, value) else inr (S src, value)).
(** Answers the number of bytes and the value; a turn reads one byte of the block. *)
Definition ss_leb128read (src : nat) : cmd bytes (nat * Z) := λ m,
  (let! r := cloop (S (length m)) leb128read_turn (src, 0, 0) in
   cret (r.1 - src, r.2)%nat) m.

Definition leb128skip_turn (src : nat) : cmd bytes (nat + nat) :=
  let! b := load8 src in
  cret (if Z.leb 128 b then inl (S src) else inr (S src)).
Definition ss_leb128skip (src : nat) : cmd bytes nat := λ m,
  (let! r := cloop (S (length m)) leb128skip_turn src in cret (r - src)%nat) m.

(** * The hash *)

Definition ss_fnv (key : bytes) : Z :=
  foldl (λ h p, Z.lxor (u32 (h * 16777619)) p) 2166136261 key.

(** * Lemmas on memory *)

Lemma le_enc_length n z : length (le_enc n z) = n.
Proof. revert z. induction n; intros; simpl; auto. Qed.
Lemma le_dec_enc n z : 0 <= z < 256 ^ Z.of_nat n → le_dec (le_enc n z) = z.
Proof.
  revert z. induction n as [|n IH]; intros z Hz; simpl; [change (256 ^ Z.of_nat 0) with 1 in Hz; lia|].
  rewrite IH; [pose proof (Z.div_mod z 256); lia|].
  rewrite Nat2Z.inj_succ, Z.pow_succ_r in Hz by lia. split; [apply Z.div_pos; lia|].
  apply Z.div_lt_upper_bound; lia.
Qed.
Lemma le_enc_bytes n z : Forall is_byte (le_enc n z).
Proof.
  revert z. induction n as [|n IH]; intros; simpl; constructor; [|done].
  unfold in_u. change (2 ^ 8) with 256. apply Z.mod_pos_bound. lia.
Qed.
Lemma le_enc_dec bs : Forall is_byte bs → le_enc (length bs) (le_dec bs) = bs.
Proof.
  induction 1 as [|b bs Hb Hbs IH]; simpl; [done|]. unfold in_u in Hb. change (2 ^ 8) with 256 in Hb.
  f_equal.
  - rewrite (Z.mul_comm 256), Z.mod_add by lia. apply Z.mod_small. lia.
  - rewrite (Z.mul_comm 256), Z.div_add by lia. by rewrite (Z.div_small b) by lia.
Qed.
Lemma le_dec_bound bs : Forall is_byte bs → 0 <= le_dec bs < 256 ^ Z.of_nat (length bs).
Proof.
  induction 1 as [|b bs Hb Hbs IH]; simpl length; [done|]. simpl le_dec.
  rewrite Nat2Z.inj_succ, Z.pow_succ_r by lia.
  unfold in_u in Hb. change (2 ^ 8) with 256 in Hb. lia.
Qed.

Lemma mem_at_read m off bs : mem_at m off bs → mem_read off (length bs) m = Some bs.
Proof.
  intros (l & r & -> & <-). unfold mem_read. rewrite decide_True by (rewrite !length_app; lia).
  by rewrite drop_app_length, take_app_length.
Qed.
Lemma mem_read_at m off n bs : mem_read off n m = Some bs → mem_at m off bs ∧ length bs = n.
Proof.
  unfold mem_read. case_decide as H; intros [= <-]. rewrite length_take, length_drop. split; [|lia].
  exists (take off m), (drop n (drop off m)). rewrite !take_drop. rewrite length_take. split; [done|lia].
Qed.
Lemma mem_write_ok m off old bs : mem_at m off old → length old = length bs →
  ∃ m', mem_write off bs m = Some m' ∧ mem_at m' off bs ∧ length m' = length m ∧
    take off m' = take off m ∧ drop (off + length bs) m' = drop (off + length bs) m.
Proof.
  intros (l & r & -> & <-) Hlen. exists (l ++ bs ++ r). unfold mem_write.
  rewrite decide_True by (rewrite !length_app; lia). split_and!.
  - f_equal. rewrite take_app_length, <- Hlen. f_equal. f_equal.
    by rewrite app_assoc, drop_app_length' by (rewrite length_app; lia).
  - by exists l, r.
  - rewrite !length_app. lia.
  - by rewrite !take_app_length.
  - rewrite !app_assoc. rewrite !drop_app_length' by (rewrite length_app; lia). done.
Qed.
Lemma mem_at_app m off a b : mem_at m off (a ++ b) ↔ mem_at m off a ∧ mem_at m (off + length a) b.
Proof.
  split.
  - intros (l & r & -> & <-). split; [by exists l, (b ++ r); rewrite <- app_assoc|].
    exists (l ++ a), r. rewrite <- !app_assoc, length_app. done.
  - intros [(l & r & -> & <-) (l' & r' & E & Hl)]. exists l, r'.
    rewrite app_assoc in E. rewrite app_assoc, E, <- !app_assoc. split; [|done].
    apply app_inj_1 in E as [<- _]; [by rewrite <- app_assoc|rewrite length_app; lia].
Qed.
Lemma mem_at_load8 m off b bs : mem_at m off (b :: bs) → m !! off = Some b.
Proof. intros (l & r & -> & <-). simpl. by rewrite list_lookup_middle. Qed.
Lemma mem_at_cons m off b bs : mem_at m off (b :: bs) → mem_at m (S off) bs.
Proof. intros [_ H]%(mem_at_app m off [b] bs). by rewrite Nat.add_1_r in H. Qed.

(** * Variable-length integers: correctness

    The encoding: seven bits a byte, the low ones first, the high bit on all but the last. *)
Fixpoint leb_enc (n : nat) (v : Z) : bytes :=
  match n with
  | O => [v]
  | S n => if Z.eqb (v / 128) 0 then [v] else v mod 128 + 128 :: leb_enc n (v / 128)
  end.

Lemma leb_size n v : (1 <= length (leb_enc n v) <= S n)%nat.
Proof. revert v. induction n as [|n IH]; intros; simpl; [lia|]. case_match; simpl; [lia|]. specialize (IH (v / 128)). lia. Qed.
Lemma leb_pos n v : (length (leb_enc n v) <= 0)%nat → False.
Proof. pose proof (leb_size n v). lia. Qed.

(** One byte of the encoding, as the code computes it. *)
Lemma leb_byte v : 0 <= v → let r := Z.shiftr v 7 in
  r = v / 128 ∧ u8 (Z.land v 127) = v mod 128 ∧ Z.lor (v mod 128) 128 = v mod 128 + 128.
Proof.
  intros Hv. assert (Z.land v 127 = v mod 128) as E.
  { change 127 with (Z.ones 7). by rewrite Z.land_ones by lia. }
  pose proof (Z.mod_pos_bound v 128). split_and!.
  - by rewrite Z.shiftr_div_pow2 by lia.
  - rewrite E. apply wrap_id. unfold in_u. change (2 ^ 8) with 256. lia.
  - change 128 with (Z.shiftl 1 7) at 2. rewrite lor_high; [done|done|]. change (2 ^ 7) with 128. lia.
Qed.
Lemma pow128 n : 128 ^ Z.of_nat (S n) = 128 * 128 ^ Z.of_nat n.
Proof. rewrite Nat2Z.inj_succ. by apply Z.pow_succ_r; lia. Qed.
Lemma div128 n v : 0 <= v < 128 ^ Z.of_nat (S n) → 0 <= v / 128 < 128 ^ Z.of_nat n.
Proof. rewrite pow128. intros. split; [apply Z.div_pos; lia|apply Z.div_lt_upper_bound; lia]. Qed.

Lemma leb_size_run n v k : 0 <= v < 128 ^ Z.of_nat (S n) →
  cloop (S n) leb128size_turn (k, v) tt = Some (k + Z.of_nat (length (leb_enc n v)), tt).
Proof.
  revert v k. induction n as [|n IH]; intros v k Hv; destruct (leb_byte v) as (E & _ & _); [lia| |lia|];
    rewrite cloop_S; cbn [leb128size_turn]; unfold cret; simpl in E; rewrite E; apply div128 in Hv; unfold c_true.
  - change (128 ^ Z.of_nat 0) with 1 in Hv. by replace (v / 128) with 0 by lia.
  - cbn [leb_enc]. destruct (Z.eqb_spec (v / 128) 0) as [->|Hne]; [done|]. cbn [negb].
    rewrite IH by done. cbn [length]. f_equal. f_equal. lia.
Qed.

Lemma leb_write_run n dest k v l old r : 0 <= v < 128 ^ Z.of_nat (S n) →
  length l = (dest + k)%nat → length old = length (leb_enc n v) →
  cloop (S n) (leb128write_turn dest) (k, v) (l ++ old ++ r) =
    Some ((k + length (leb_enc n v))%nat, l ++ leb_enc n v ++ r).
Proof.
  revert k v l old. induction n as [|n IH]; intros k v l old Hv Hl Hold;
    destruct (leb_byte v) as (E & Eb & Eo); [lia| |lia|]; simpl in E;
    (destruct old as [|b old]; [exfalso; eapply leb_pos; rewrite <- Hold; done|]);
    rewrite cloop_S; cbn [leb128write_turn]; rewrite E, Eb; pose proof (Z.mod_pos_bound v 128).
  - apply div128 in Hv. change (128 ^ Z.of_nat 0) with 1 in Hv. replace (v / 128) with 0 by lia.
    destruct old; [|done]. unfold cbind, store8. simpl.
    rewrite decide_True by (rewrite length_app; simpl; lia).
    rewrite <- Hl, insert_app_r_alt, Nat.sub_diag by lia. simpl.
    replace (v mod 128) with v; [by rewrite Nat.add_1_r|].
    pose proof (Z.div_mod v 128). lia.
  - apply div128 in Hv. unfold cbind, store8.
    rewrite decide_True by (rewrite !length_app; simpl; lia).
    rewrite <- Hl, insert_app_r_alt, Nat.sub_diag by lia. cbn [leb_enc]. cbn [leb_enc] in Hold. unfold c_true, cret.
    destruct (Z.eqb_spec (v / 128) 0) as [E0|Hne]; cbn [negb].
    + destruct old; [|done]. simpl. rewrite Nat.add_1_r. pose proof (Z.div_mod v 128).
      by replace (v mod 128) with v by lia.
    + rewrite Eo. cbn [insert list_insert app].
      specialize (IH (S k) (v / 128) (l ++ [v mod 128 + 128]) old). rewrite <- !app_assoc in IH. cbn [app] in IH.
      rewrite IH; [cbn [length]; by rewrite Nat.add_succ_r|done|rewrite length_app; simpl; lia|by injection Hold].
Qed.

(** One turn of reading: the next seven bits enter above the ones there. *)
Lemma leb_read_turn l b r lsh acc : 0 <= lsh < 64 → 0 <= acc < 2 ^ lsh → 0 <= b < 256 →
  acc + (b mod 128) * 2 ^ lsh < 2 ^ 64 →
  leb128read_turn (length l, lsh, acc) (l ++ b :: r) =
    Some (if Z.leb 128 b then inl (S (length l), lsh + 7, acc + (b mod 128) * 2 ^ lsh)
          else inr (S (length l), acc + (b mod 128) * 2 ^ lsh), l ++ b :: r).
Proof.
  intros Hlsh Hacc Hb Hmax. unfold leb128read_turn, cbind, load8, cread. rewrite list_lookup_middle by done.
  unfold cassert. destruct (Z.ltb_spec lsh 64); [|lia].
  assert (Z.land b 127 = b mod 128) as ->.
  { change 127 with (Z.ones 7). by rewrite Z.land_ones by lia. }
  pose proof (Z.mod_pos_bound b 128). rewrite wrap_id, lor_high; [done|lia|done|].
  unfold in_u. rewrite Z.shiftl_mul_pow2 by lia. nia.
Qed.

Lemma leb_read_run n v : 0 <= v < 128 ^ Z.of_nat (S n) → ∀ fuel l r lsh acc,
  0 <= lsh → 0 <= acc < 2 ^ lsh → acc + v * 2 ^ lsh < 2 ^ 64 → lsh + 7 * Z.of_nat n < 64 →
  (length (leb_enc n v) <= fuel)%nat →
  cloop fuel leb128read_turn (length l, lsh, acc) (l ++ leb_enc n v ++ r) =
    Some ((length l + length (leb_enc n v))%nat, acc + v * 2 ^ lsh, l ++ leb_enc n v ++ r).
Proof.
  revert v. induction n as [|n IH]; intros v Hv fuel l r lsh acc Hlsh Hacc Hmax Hn Hf.
  all: destruct fuel as [|fuel]; [by apply leb_pos in Hf|].
  all: rewrite cloop_S; cbn [leb_enc] in *; pose proof (div128 _ _ Hv) as Hd; pose proof (Z.mod_pos_bound v 128).
  all: pose proof (Z.div_mod v 128); pose proof (Z.pow_pos_nonneg 2 lsh).
  - change (128 ^ Z.of_nat 0) with 1 in Hd. assert (v mod 128 = v) as E by lia.
    simpl app. rewrite leb_read_turn; rewrite ?E; try lia.
    destruct (Z.leb_spec 128 v); [lia|]. simpl. by rewrite Nat.add_1_r.
  - destruct (Z.eqb_spec (v / 128) 0) as [E0|Hne]; simpl app.
    + assert (v mod 128 = v) as E by lia. rewrite leb_read_turn; rewrite ?E; try lia.
      destruct (Z.leb_spec 128 v); [lia|]. simpl. by rewrite Nat.add_1_r.
    + assert ((v mod 128 + 128) mod 128 = v mod 128) as E.
      { rewrite <- (Z.mul_1_l 128) at 2. rewrite Z.mod_add by lia. by apply Z.mod_mod. }
      assert (2 ^ (lsh + 7) = 2 ^ lsh * 128) as Ep by (by rewrite Z.pow_add_r by lia).
      rewrite leb_read_turn; rewrite ?E; [|lia|lia|lia|nia].
      destruct (Z.leb_spec 128 (v mod 128 + 128)); [|lia].
      specialize (IH (v / 128) Hd fuel (l ++ [v mod 128 + 128]) r (lsh + 7) (acc + v mod 128 * 2 ^ lsh)).
      rewrite <- !app_assoc, length_app, Nat.add_1_r in IH. cbn [app] in IH. rewrite IH; [|lia|nia|nia|lia|simpl in Hf; lia].
      simpl length. rewrite Nat.add_succ_r. do 3 f_equal. nia.
Qed.

Lemma leb_skip_run n v : 0 <= v < 128 ^ Z.of_nat (S n) → ∀ fuel l r, (length (leb_enc n v) <= fuel)%nat →
  cloop fuel leb128skip_turn (length l) (l ++ leb_enc n v ++ r) =
    Some ((length l + length (leb_enc n v))%nat, l ++ leb_enc n v ++ r).
Proof.
  revert v. induction n as [|n IH]; intros v Hv fuel l r Hf.
  all: destruct fuel as [|fuel]; [by apply leb_pos in Hf|].
  all: rewrite cloop_S; cbn [leb_enc] in *; pose proof (div128 _ _ Hv) as Hd; pose proof (Z.mod_pos_bound v 128).
  all: pose proof (Z.div_mod v 128); unfold leb128skip_turn at 1, cbind, load8, cread, cret.
  - change (128 ^ Z.of_nat 0) with 1 in Hd. simpl app. rewrite list_lookup_middle by done.
    destruct (Z.leb_spec 128 v); [lia|]. simpl. by rewrite Nat.add_1_r.
  - destruct (Z.eqb_spec (v / 128) 0) as [E0|Hne]; simpl app; rewrite list_lookup_middle by done.
    + destruct (Z.leb_spec 128 v); [lia|]. simpl. by rewrite Nat.add_1_r.
    + destruct (Z.leb_spec 128 (v mod 128 + 128)); [|lia].
      specialize (IH (v / 128) Hd fuel (l ++ [v mod 128 + 128]) r).
      rewrite <- !app_assoc, length_app, Nat.add_1_r in IH. cbn [app] in IH. rewrite IH; [|simpl in Hf; lia].
      simpl length. by rewrite Nat.add_succ_r.
Qed.

Definition leb (v : Z) : bytes := leb_enc 9 v.
Lemma u64_leb v : is_u64 v → 0 <= v < 128 ^ Z.of_nat 10.
Proof. unfold in_u. change (2 ^ 64) with 18446744073709551616. change (128 ^ Z.of_nat 10) with 1180591620717411303424. lia. Qed.

(** The encoding of a value, sized, written, read and skipped. *)
Lemma leb_size_ok v : is_u64 v → ss_leb128size v = Some (Z.of_nat (length (leb v))).
Proof. intros Hv%u64_leb. unfold ss_leb128size, LEB_FUEL. by rewrite (leb_size_run 9). Qed.
Lemma leb_read_ok v l r : is_u64 v →
  ss_leb128read (length l) (l ++ leb v ++ r) = Some ((length (leb v), v), l ++ leb v ++ r).
Proof.
  intros Hv. pose proof (u64_leb v Hv) as Hv'. pose proof (leb_size 9 v). unfold ss_leb128read, cbind, cret, leb.
  unfold in_u in Hv. rewrite (leb_read_run 9 v Hv') by (rewrite ?Z.pow_0_r, ?length_app; lia).
  simpl. do 3 f_equal; lia.
Qed.
Lemma leb_skip_ok v l r : is_u64 v →
  ss_leb128skip (length l) (l ++ leb v ++ r) = Some (length (leb v), l ++ leb v ++ r).
Proof.
  intros Hv%u64_leb. pose proof (leb_size 9 v). unfold ss_leb128skip, cbind, cret, leb.
  rewrite (leb_skip_run 9 v Hv) by (rewrite !length_app; lia). do 2 f_equal. lia.
Qed.
Lemma leb_write_ok v l old r : is_u64 v → length old = length (leb v) →
  ss_leb128write (length l) v (l ++ old ++ r) = Some (length (leb v), l ++ leb v ++ r).
Proof. intros Hv%u64_leb Ho. unfold ss_leb128write, LEB_FUEL. apply leb_write_run; [done|lia|done]. Qed.
Lemma leb_read_at m off v bs : mem_at m off (leb v ++ bs) → is_u64 v → ss_leb128read off m = Some ((length (leb v), v), m).
Proof. intros (l & r & -> & <-) Hv. rewrite <- app_assoc. by apply leb_read_ok. Qed.
Lemma leb_skip_at m off v bs : mem_at m off (leb v ++ bs) → is_u64 v → ss_leb128skip off m = Some (length (leb v), m).
Proof. intros (l & r & -> & <-) Hv. rewrite <- app_assoc. by apply leb_skip_ok. Qed.
Lemma load_le_at m off n z : mem_at m off (le_enc n z) → 0 <= z < 256 ^ Z.of_nat n → load_le off n m = Some z.
Proof.
  intros Hm Hz. apply mem_at_read in Hm. rewrite le_enc_length in Hm. unfold load_le. rewrite Hm. simpl. by rewrite le_dec_enc.
Qed.

(** Every 64-bit value written at a place with room for [ss_leb128size] bytes (one to
    ten) occupies exactly those bytes, and [ss_leb128read] and [ss_leb128skip] at that place
    read the value and its length back, whatever surrounds it. *)
Theorem ss_leb128_roundtrip v l old r :
  is_u64 v → ss_leb128size v = Some (Z.of_nat (length old)) →
  ∃ bs, length bs = length old ∧ (1 <= length bs <= 10)%nat ∧
    ss_leb128write (length l) v (l ++ old ++ r) = Some (length bs, l ++ bs ++ r) ∧
    ss_leb128read (length l) (l ++ bs ++ r) = Some ((length bs, v), l ++ bs ++ r) ∧
    ss_leb128skip (length l) (l ++ bs ++ r) = Some (length bs, l ++ bs ++ r).
Proof.
  intros Hv Hs. rewrite leb_size_ok in Hs by done. assert (length old = length (leb v)) as Hlen by (injection Hs; lia).
  pose proof (leb_size 9 v). exists (leb v). split_and!; [by symmetry|apply leb_size|apply leb_size| | |].
  - by apply leb_write_ok.
  - by apply leb_read_ok.
  - by apply leb_skip_ok.
Qed.
Lemma ss_leb128_roundtrip_witness : ∃ bs, length bs = 3%nat ∧
  ss_leb128write 1 70000 ([7] ++ [0; 0; 0] ++ [9]) = Some (length bs, [7] ++ bs ++ [9]) ∧
  ss_leb128read 1 ([7] ++ bs ++ [9]) = Some ((length bs, 70000), [7] ++ bs ++ [9]).
Proof.
  destruct (ss_leb128_roundtrip 70000 [7] [0; 0; 0] [9]) as (bs & Hl & _ & Hw & Hr & _).
  - unfold in_u. lia.
  - reflexivity.
  - by exists bs.
Defined.
