(* ===== verification/SsBuf.v ===== *)
(** The growing buffer of ss_buf.h and the iterator over its records, ss_bufiter.h, over the
    allocator interface of ss_a.h. *)
From stdpp Require Import base list.
From S2P Require Import Prelude Sv SsBytes.
Local Open Scope Z_scope.
Local Open Scope c_scope.

(** * The allocator

    [struct ssaif] as the buffer uses it: a block of the size asked for, or NULL.  The bytes
    of a new block are whatever the allocator left there; [realloc] keeps those that fit. *)
Class Alloc := {
  ss_malloc : nat → option bytes;
  ss_malloc_length n b : ss_malloc n = Some b → length b = n
}.
Definition ss_realloc `{Alloc} (old : bytes) (n : nat) : option bytes :=
  (λ b, take n old ++ drop (length old) b) <$> ss_malloc n.

(** * The buffer *)

(** Where [s] points: nowhere, to the area given by the caller, or to an allocated block. *)
Inductive place := SNull | SReserve | SHeap.
#[export] Instance place_eq_dec : EqDecision place.
Proof. solve_decision. Defined.

(** The block from [s] to [e], the offset of [p] in it, and whether [reserve] is NULL. *)
Record ssbuf := mk_buf { b_reserve : option bytes; b_at : place; b_mem : bytes; b_p : nat }.

(** [b->s == b->reserve] *)
Definition on_reserve (b : ssbuf) : bool :=
  match b_at b, b_reserve b with
  | SNull, None => true
  | SReserve, Some _ => true
  | _, _ => false
  end.

Definition ss_bufinit : ssbuf := mk_buf None SNull [] 0.
Definition ss_bufinit_reserve (area : bytes) : ssbuf := mk_buf (Some area) SReserve area 0.
Definition ss_buffree (b : ssbuf) : ssbuf :=
  match b_at b with SNull => b | _ => mk_buf (b_reserve b) SNull [] 0 end.
Definition ss_bufreset (b : ssbuf) : ssbuf := mk_buf (b_reserve b) (b_at b) (b_mem b) 0.
Definition ss_bufsize (b : ssbuf) : Z := Z.of_nat (length (b_mem b)).
Definition ss_bufused (b : ssbuf) : Z := Z.of_nat (b_p b).
Definition ss_bufunused (b : ssbuf) : Z := Z.of_nat (length (b_mem b)) - Z.of_nat (b_p b).
(** The bytes written so far. *)
Definition content (b : ssbuf) : bytes := take (b_p b) (b_mem b).

(** An [int] result must fit: signed overflow is undefined. *)
Definition INT_MAX : Z := 2147483647.
Definition c_int {S} (z : Z) : cmd S Z := cassert (Z.leb (- INT_MAX - 1) z && Z.leb z INT_MAX);;; cret z.

Section ops.
Context `{Alloc}.

(** [memcpy(p, b->s, ss_bufused(b))] into the start of the new block. *)
Definition copy_used (b : ssbuf) (blk : bytes) : bytes := content b ++ drop (b_p b) blk.

Definition ss_bufensure (size : Z) : cmd ssbuf Z :=
  let! b := cget in
  if Z.geb (ss_bufunused b) size then cret 0 else
  let! sz := c_int (ss_bufsize b * 2) in
  let! actual := c_int (ss_bufused b + size) in
  let sz := Z.to_nat (if Z.gtb actual sz then actual else sz) in
  let p := if on_reserve b then copy_used b <$> ss_malloc sz else ss_realloc (b_mem b) sz in
  match p with
  | None => cret (-1)
  | Some p =>
      let b' := mk_buf (b_reserve b) SHeap p (b_p b) in
      cassert (Z.geb (ss_bufunused b') size);;;
      cput b';;;
      cret 0
  end.

(** [p] keeps its offset, also when the block is cut below it. *)
Definition ss_buftruncate (size : Z) : cmd ssbuf Z :=
  let! b := cget in
  cassert (Z.leb size (ss_bufused b));;;
  if on_reserve b
  then cput (mk_buf (b_reserve b) (b_at b) (take (Z.to_nat size) (b_mem b)) (b_p b));;; cret 0
  else match ss_realloc (b_mem b) (Z.to_nat size) with
       | None => cret (-1)
       | Some p => cput (mk_buf (b_reserve b) SHeap p (b_p b));;; cret 0
       end.

Definition ss_bufadvance (size : nat) : cmd ssbuf () := λ b,
  Some ((), mk_buf (b_reserve b) (b_at b) (b_mem b) (b_p b + size)).

(** [memcpy] of [bs] to an offset of the block. *)
Definition buf_copy (off : nat) (bs : bytes) : cmd ssbuf () := λ b,
  m ← mem_write off bs (b_mem b); Some ((), mk_buf (b_reserve b) (b_at b) m (b_p b)).

Definition ss_bufadd (bs : bytes) : cmd ssbuf Z :=
  let! rc := ss_bufensure (Z.of_nat (length bs)) in
  if Z.eqb rc (-1) then cret (-1) else
  let! b := cget in
  buf_copy (b_p b) bs;;;
  ss_bufadvance (length bs);;;
  cret 0.

(** Pointers into the block are their offsets. *)
Definition ss_bufin (v : nat) : cmd ssbuf bool :=
  let! b := cget in
  cassert (bool_decide (b_at b ≠ SNull));;;
  cret (bool_decide (v < b_p b)%nat).
Definition ss_bufat (size i : nat) : nat := (size * i)%nat.
Definition ss_bufset (size i : nat) (bs : bytes) : cmd ssbuf () :=
  let! b := cget in
  cassert (bool_decide (size * i + length bs <= b_p b)%nat);;;
  buf_copy (size * i) bs.

(** * The iterator over the records of a buffer *)

Record ssbufiter := mk_bufiter { bi_vsize : nat; bi_v : option nat }.

Definition ss_bufiter_open (vsize : nat) : cmd ssbuf (Z * ssbufiter) :=
  let! b := cget in
  if bool_decide (b_at b = SNull) then cret (0, mk_bufiter vsize None) else
  let! i := ss_bufin 0 in
  if i then cret (1, mk_bufiter vsize (Some O)) else cret (0, mk_bufiter vsize None).
Definition ss_bufiter_has (bi : ssbufiter) : bool := match bi_v bi with Some _ => true | None => false end.
Definition ss_bufiter_of (bi : ssbufiter) : option nat := bi_v bi.
Definition ss_bufiter_next (bi : ssbufiter) : cmd ssbuf ssbufiter :=
  match bi_v bi with
  | None => cret bi
  | Some v =>
      let! i := ss_bufin (v + bi_vsize bi) in
      cret (mk_bufiter (bi_vsize bi) (if i then Some (v + bi_vsize bi)%nat else None))
  end.
(** The iterator over a buffer of pointers: the eight bytes at the record. *)
Definition ss_bufiterref_of (bi : ssbufiter) : cmd ssbuf Z :=
  match bi_v bi with
  | None => cret 0
  | Some v => cread (λ b, load_le v 8 (b_mem b))
  end.

(** * Correctness *)

(** The written part lies in the block, the block is not larger than an [int] can say, and
    the area of the caller is in use exactly when [s] says so. *)
Record buf_ok (b : ssbuf) : Prop := mk_buf_ok {
  bo_p : (b_p b <= length (b_mem b))%nat;
  bo_null : b_at b = SNull → b_mem b = [];
  bo_res : b_at b = SReserve → is_Some (b_reserve b)
}.

Lemma content_length b : buf_ok b → length (content b) = b_p b.
Proof. intros [Hp _ _]. unfold content. rewrite length_take. lia. Qed.

Lemma realloc_content b sz m : (b_p b <= length (b_mem b))%nat → (length (b_mem b) <= sz)%nat →
  ss_realloc (b_mem b) sz = Some m → take (b_p b) m = content b ∧ length m = sz.
Proof.
  intros Hp Hsz. unfold ss_realloc. destruct (ss_malloc sz) as [blk|] eqn:E; [|done]. intros [= <-].
  apply ss_malloc_length in E. rewrite (take_ge (b_mem b) sz) by done.
  rewrite take_app_le by done. rewrite length_app, length_drop. split; [done|lia].
Qed.
Lemma malloc_content b sz m : (b_p b <= length (b_mem b))%nat → (b_p b <= sz)%nat →
  copy_used b <$> ss_malloc sz = Some m → take (b_p b) m = content b ∧ length m = sz.
Proof.
  intros Hp Hsz. destruct (ss_malloc sz) as [blk|] eqn:E; [|done]. intros [= <-].
  apply ss_malloc_length in E. unfold copy_used, content.
  rewrite take_app_length' by (rewrite length_take; lia). rewrite length_app, length_take, length_drop. split; [done|lia].
Qed.

(** [ss_bufensure] makes room and keeps the content, or reports a refused allocation and
    changes nothing; a block that grows at least doubles. *)
Lemma bufensure_ok b size : buf_ok b → 0 <= size →
  ss_bufsize b * 2 <= INT_MAX → ss_bufused b + size <= INT_MAX →
  wp (ss_bufensure size) b (λ rc b',
    (rc = -1 ∧ b' = b ∧ ∃ n, ss_malloc n = None) ∨
    (rc = 0 ∧ buf_ok b' ∧ content b' = content b ∧ b_p b' = b_p b ∧ b_reserve b' = b_reserve b ∧
     size <= ss_bufunused b' ∧
     (b' = b ∨ b_at b' = SHeap ∧ ss_bufunused b < size ∧
      ss_bufsize b' = Z.max (2 * ss_bufsize b) (ss_bufused b + size)))).
Proof.
  intros Hok Hs Hsz Ha. unfold ss_bufensure. apply wp_bind. unfold cget, wp at 1; cbv beta iota.
  destruct (Z.geb_spec (ss_bufunused b) size) as [Hfit|Hfit].
  { apply wp_ret. right. split_and!; auto. }
  unfold c_int, ss_bufsize, ss_bufused, ss_bufunused in *.
  repeat (apply wp_bind; apply wp_bind; apply wp_assert; [unfold INT_MAX in *; lia|]; apply wp_ret).
  set (sz := Z.to_nat _). destruct Hok as [Hp Hnull Hres].
  assert (Z.of_nat sz = Z.max (2 * Z.of_nat (length (b_mem b))) (Z.of_nat (b_p b) + size)) as Esz.
  { subst sz. destruct (Z.gtb_spec (Z.of_nat (b_p b) + size) (Z.of_nat (length (b_mem b)) * 2)); lia. }
  destruct (if on_reserve b then _ else _) as [m|] eqn:E.
  - assert (take (b_p b) m = content b ∧ length m = sz) as [Hc Hm].
    { destruct (on_reserve b); [eapply malloc_content|eapply realloc_content]; (exact E || lia). }
    apply wp_bind, wp_assert; [cbn [b_mem b_p]; apply Z.geb_le; lia|].
    apply wp_bind. unfold cput, wp at 1. cbv iota beta. apply wp_ret. right. cbn [b_at b_mem b_p b_reserve].
    split_and!; try done; [|lia|right; split_and!; [done|lia|lia]]. split; cbn [b_at b_mem b_p]; (done || lia).
  - apply wp_ret. left. split_and!; [done|done|]. exists sz.
    destruct (on_reserve b); [|unfold ss_realloc in E]; by destruct (ss_malloc sz).
Qed.

Lemma buf_copy_ok b off old bs : buf_ok b → mem_at (b_mem b) off old → length old = length bs →
  wp (buf_copy off bs) b (λ _ b', buf_ok b' ∧ b_p b' = b_p b ∧ b_at b' = b_at b ∧
    length (b_mem b') = length (b_mem b) ∧
    b_reserve b' = b_reserve b ∧ mem_at (b_mem b') off bs ∧ take off (b_mem b') = take off (b_mem b) ∧
    drop (off + length bs) (b_mem b') = drop (off + length bs) (b_mem b)).
Proof.
  intros [Hp Hn Hr] Hat Hlen. destruct (mem_write_ok (b_mem b) off old bs Hat Hlen) as (m & E & Hat' & Hl & Ht & Hd).
  unfold wp, buf_copy. rewrite E. simpl. split_and!; try done. split; simpl; [lia| |done].
  intros Hnull. apply length_zero_iff_nil. by rewrite Hl, (Hn Hnull).
Qed.

Lemma bufadd_ok b bs : buf_ok b →
  ss_bufsize b * 2 <= INT_MAX → ss_bufused b + Z.of_nat (length bs) <= INT_MAX →
  wp (ss_bufadd bs) b (λ rc b',
    (rc = -1 ∧ b' = b ∧ ∃ n, ss_malloc n = None) ∨
    (rc = 0 ∧ buf_ok b' ∧ content b' = content b ++ bs ∧ b_reserve b' = b_reserve b ∧
     (ss_bufsize b' = ss_bufsize b ∨
      b_at b' = SHeap ∧ ss_bufsize b' = Z.max (2 * ss_bufsize b) (ss_bufused b + Z.of_nat (length bs))))).
Proof.
  intros Hok H1 H2. unfold ss_bufadd. apply wp_bind. eapply wp_mono; [apply bufensure_ok; [done|lia|done|done]|].
  intros rc b1 [(-> & -> & Hn)|(-> & Hok1 & Hc & Hp & Hr & Hun & Hsz)]; [by left|]. simpl.
  apply wp_bind. unfold cget, wp at 1; cbv beta iota.
  assert (∃ old, mem_at (b_mem b1) (b_p b1) old ∧ length old = length bs) as (old & Hat & Hlen).
  { destruct Hok1 as [Hp1 _ _]. unfold ss_bufunused in Hun. exists (take (length bs) (drop (b_p b1) (b_mem b1))).
    apply mem_read_at. unfold mem_read. rewrite decide_True by lia. done. }
  apply wp_bind. eapply wp_mono; [by eapply buf_copy_ok|].
  intros [] b2 (Hok2 & Hp2 & Hat2 & Hl2 & Hr2 & Hbs & Ht & _). apply wp_bind. unfold ss_bufadvance, wp at 1. cbv beta iota.
  apply wp_ret. right.
  assert (content (mk_buf (b_reserve b2) (b_at b2) (b_mem b2) (b_p b2 + length bs)) = content b ++ bs) as Hcont.
  { unfold content at 1. cbn [b_mem b_p]. destruct Hbs as (l & r & E & Hl).
    rewrite Hp2, <- Hl, E, app_assoc, take_app_length' by (by rewrite length_app). f_equal.
    rewrite <- Hc. unfold content. rewrite <- Ht, E. by rewrite <- Hl, take_app_length. }
  split_and!; [done| |done|cbn; congruence|].
  - destruct Hok2 as [Ha Hb Hcc]. split; cbn [b_mem b_p b_at b_reserve]; [|done|done].
    unfold ss_bufunused in Hun. lia.
  - unfold ss_bufsize in *. cbn [b_mem b_at]. rewrite Hl2. destruct Hsz as [->|(Hh & _ & Hsz)]; [by left|right].
    split; [congruence|done].
Qed.

(** ** Sequences of writes

    A buffer whose content stays within [T] bytes never has a block of more than [2 * T]. *)
Definition buf_cap (T : Z) (b : ssbuf) : Prop := buf_ok b ∧ ss_bufsize b <= 2 * T.
Definition fresh_room (b : ssbuf) (n : nat) : Prop := Z.of_nat n <= ss_bufunused b.

Lemma ensure_cap T b size : 4 * T <= INT_MAX → buf_cap T b → 0 <= size → ss_bufused b + size <= T →
  wp (ss_bufensure size) b (λ rc b',
    (rc = -1 ∧ b' = b ∧ ∃ n, ss_malloc n = None) ∨
    (rc = 0 ∧ buf_cap T b' ∧ content b' = content b ∧ fresh_room b' (Z.to_nat size))).
Proof.
  intros HT [Hok Hsz] Hs Hu. assert (0 <= ss_bufused b) by (unfold ss_bufused; lia).
  eapply wp_mono; [apply bufensure_ok; [done|done|lia|lia]|].
  intros rc b' [Hr|(-> & Hok' & Hc & _ & _ & Hun & Hb)]; [by left|right]. unfold fresh_room.
  split_and!; [done| |done|lia]. split; [done|]. destruct Hb as [->|(_ & Hlt & Hb)]; [done|].
  unfold ss_bufused, ss_bufsize, ss_bufunused in *. lia.
Qed.
(** [memcpy(buf->p, bs, n); ss_bufadvance(buf, n)] *)
Definition copy_advance (bs : bytes) : cmd ssbuf () :=
  let! b := cget in buf_copy (b_p b) bs;;; ss_bufadvance (length bs).
Lemma copy_advance_ok T b bs : buf_cap T b → fresh_room b (length bs) →
  wp (copy_advance bs) b (λ _ b', buf_cap T b' ∧ content b' = content b ++ bs ∧
    ∀ n, fresh_room b (length bs + n) → fresh_room b' n).
Proof.
  intros [Hok Hsz] Hroom. unfold copy_advance, fresh_room, ss_bufunused in *. apply wp_bind. unfold cget, wp at 1; cbv beta iota.
  assert (∃ old, mem_at (b_mem b) (b_p b) old ∧ length old = length bs) as (old & Hat & Hlen).
  { exists (take (length bs) (drop (b_p b) (b_mem b))). apply mem_read_at. unfold mem_read.
    by rewrite decide_True by lia. }
  apply wp_bind. eapply wp_mono; [by eapply buf_copy_ok|].
  intros [] b2 (Hok2 & Hp2 & Hat2 & Hl2 & _ & Hbs & Ht & _). unfold ss_bufadvance, wp. cbn [b_mem b_p].
  assert (content (mk_buf (b_reserve b2) (b_at b2) (b_mem b2) (b_p b2 + length bs)) = content b ++ bs) as Hcont.
  { unfold content. cbn [b_mem b_p]. destruct Hbs as (l & r & E & Hl).
    rewrite Hp2, <- Hl, E, app_assoc, take_app_length' by (by rewrite length_app). f_equal.
    rewrite Hl, <- Ht, E. by rewrite <- Hl, take_app_length. }
  split_and!; [|done|intros n Hn; lia]. destruct Hok2 as [Ha Hb Hcc].
  split; [split; cbn [b_mem b_p b_at b_reserve]; [lia|done|done]|]. unfold ss_bufsize in *. cbn [b_mem]. lia.
Qed.
Lemma bufadd_cap T b bs : 4 * T <= INT_MAX → buf_cap T b → ss_bufused b + Z.of_nat (length bs) <= T →
  wp (ss_bufadd bs) b (λ rc b',
    (rc = -1 ∧ b' = b ∧ ∃ n, ss_malloc n = None) ∨ (rc = 0 ∧ buf_cap T b' ∧ content b' = content b ++ bs)).
Proof.
  intros HT Hcap Hu. unfold ss_bufadd. apply wp_bind. eapply wp_mono; [apply (ensure_cap T); [done|done|lia|done]|].
  intros rc b1 [(-> & -> & Hn)|(-> & Hcap1 & Hc & Hroom)]; [by left|]. simpl. rewrite Nat2Z.id in Hroom.
  pose proof (copy_advance_ok T b1 bs Hcap1 Hroom) as Hw. unfold copy_advance in Hw.
  unfold wp, cbind, cget in *. destruct (buf_copy (b_p b1) bs b1) as [[[] b2]|]; [|done].
  destruct (ss_bufadvance (length bs) b2) as [[[] b3]|]; [|done]. cbv [cret].
  destruct Hw as (H1 & H2 & _). right. by rewrite H2, Hc.
Qed.

(** Writing inside the content. *)
Lemma bufset_content b b' off u o w r : buf_ok b → content b = u ++ o ++ w → length u = off →
  length o = length r → b_p b' = b_p b → mem_at (b_mem b') off r → take off (b_mem b') = take off (b_mem b) →
  drop (off + length r) (b_mem b') = drop (off + length r) (b_mem b) → content b' = u ++ r ++ w.
Proof.
  intros Hok Hc Hu Ho Hp (l & q & E & Hl) Ht Hd. pose proof (content_length b Hok) as Hlen.
  assert (b_mem b = u ++ o ++ w ++ drop (b_p b) (b_mem b)) as Em.
  { rewrite <- (take_drop (b_p b) (b_mem b)) at 1. fold (content b). rewrite Hc. by rewrite <- !app_assoc. }
  rewrite Hc, !length_app in Hlen. unfold content. rewrite Hp. rewrite E in Ht, Hd |- *. rewrite Em in Ht, Hd.
  rewrite <- Hl in Ht at 1. rewrite <- Hu in Ht. rewrite !take_app_length in Ht. subst l.
  assert (∀ x k : bytes, length x = length r → drop (off + length r) (u ++ x ++ k) = k) as Hdrop.
  { intros x k Hx. rewrite app_assoc. apply drop_app_length'. rewrite length_app. lia. }
  rewrite !Hdrop in Hd by done. subst q. rewrite !app_assoc. rewrite take_app_length'; [done|].
  rewrite !length_app. lia.
Qed.

(** ** Records *)

(** The buffer holds records of one size. *)
Definition records (vsize : nat) (b : ssbuf) (rs : list bytes) : Prop :=
  buf_ok b ∧ content b = concat rs ∧ Forall (λ r, length r = vsize) rs.

(** Iterating to the end: the offsets the iterator gives, with the record there. *)
Fixpoint bufiter_walk (fuel : nat) (bi : ssbufiter) : cmd ssbuf (list bytes) :=
  match fuel, ss_bufiter_of bi with
  | _, None => cret []
  | O, Some _ => cfail
  | S fuel, Some v =>
      let! r := cread (λ b, mem_read v (bi_vsize bi) (b_mem b)) in
      let! bi := ss_bufiter_next bi in
      let! rs := bufiter_walk fuel bi in
      cret (r :: rs)
  end.

Lemma records_length vsize (rs : list bytes) : Forall (λ r, length r = vsize) rs →
  length (concat rs) = (vsize * length rs)%nat.
Proof. induction 1 as [|r rs Hr _ IH]; simpl; [lia|]. rewrite length_app, IH. lia. Qed.

Lemma record_at vsize b rs1 r rs2 : records vsize b (rs1 ++ r :: rs2) →
  mem_at (b_mem b) (ss_bufat vsize (length rs1)) r ∧ b_p b = (vsize * (length rs1 + S (length rs2)))%nat.
Proof.
  intros (Hok & Hc & Hrs). pose proof (records_length _ _ Hrs) as Hlen.
  rewrite <- Hc, content_length, length_app in Hlen by done. simpl in Hlen. split; [|done].
  apply Forall_app in Hrs as [Hrs1 _]. exists (concat rs1), (concat rs2 ++ drop (b_p b) (b_mem b)).
  rewrite (records_length _ _ Hrs1). split; [|done].
  rewrite <- (take_drop (b_p b) (b_mem b)) at 1. change (take (b_p b) (b_mem b)) with (content b).
  rewrite Hc, concat_app. simpl. by rewrite <- !app_assoc.
Qed.

Lemma bufin_run v b : b_at b ≠ SNull → ss_bufin v b = Some (bool_decide (v < b_p b)%nat, b).
Proof. intros Hb. unfold ss_bufin, cbind, cget, cassert. by rewrite bool_decide_true. Qed.

Lemma bufiter_walk_ok vsize b rs : (0 < vsize)%nat → b_at b ≠ SNull → ∀ rs2 rs1 fuel,
  rs = rs1 ++ rs2 → records vsize b rs → (length rs2 <= fuel)%nat →
  bufiter_walk fuel (mk_bufiter vsize
    (if bool_decide (ss_bufat vsize (length rs1) < b_p b)%nat then Some (ss_bufat vsize (length rs1)) else None)) b =
    Some (rs2, b).
Proof.
  intros Hv Hb rs2. induction rs2 as [|r rs2 IH]; intros rs1 fuel -> Hrec Hf.
  { rewrite bool_decide_false; [by destruct fuel|]. destruct Hrec as (Hok & Hc & Hrs).
    pose proof (records_length _ _ Hrs) as Hlen. rewrite <- Hc, content_length in Hlen by done.
    rewrite app_nil_r in Hlen. unfold ss_bufat. lia. }
  destruct (record_at _ _ _ _ _ Hrec) as [Hat Hp]. unfold ss_bufat in *.
  rewrite bool_decide_true by nia. destruct fuel as [|fuel]; [simpl in Hf; lia|].
  assert (length r = vsize) as Hr by (destruct Hrec as (_ & _ & Hf2); apply Forall_app in Hf2 as [_ Hf2]; by inversion Hf2).
  cbn [bufiter_walk ss_bufiter_of bi_v bi_vsize]. unfold cbind at 1, cread.
  rewrite <- Hr at 2. rewrite (mem_at_read _ _ _ Hat). unfold cbind at 1, ss_bufiter_next. cbn [bi_v bi_vsize].
  unfold cbind at 1. rewrite bufin_run by done. unfold cret.
  specialize (IH (rs1 ++ [r]) fuel). rewrite length_app in IH. simpl in IH.
  replace (vsize * length rs1 + vsize)%nat with (vsize * (length rs1 + 1))%nat by lia. unfold cbind.
  rewrite IH; [done|by rewrite <- app_assoc|done|simpl in Hf; lia].
Qed.
End ops.

(** [ss_bufadd] never faults while sizes fit an [int]; it appends exactly the given bytes
    to the content, or answers -1 because the allocator refused and leaves the buffer as it
    was; a block that grows at least doubles, so adds are amortised. *)
Theorem ss_bufadd_appends `{Alloc} b bs : buf_ok b →
  ss_bufsize b * 2 <= INT_MAX → ss_bufused b + Z.of_nat (length bs) <= INT_MAX →
  ∃ rc b', ss_bufadd bs b = Some (rc, b') ∧
    ((rc = -1 ∧ b' = b ∧ ∃ n, ss_malloc n = None) ∨
     (rc = 0 ∧ buf_ok b' ∧ content b' = content b ++ bs ∧
      (ss_bufsize b' = ss_bufsize b ∨ 2 * ss_bufsize b <= ss_bufsize b'))).
Proof.
  intros Hok H1 H2. destruct (proj1 (wp_run _ _ _) (bufadd_ok b bs Hok H1 H2)) as (rc & b' & E & Hq).
  exists rc, b'. split; [done|]. destruct Hq as [Hq|(Hrc & Hok' & Hc & _ & Hsz)]; [by left|right].
  split_and!; [done|done|done|]. destruct Hsz as [Hsz|[_ Hsz]]; [by left|right]. rewrite Hsz. lia.
Qed.

(** Over a buffer of records of one size, the iterator terminates and gives every record
    in order, and [ss_bufset] replaces the record at its index and no other. *)
Theorem ss_bufiter_records vsize b rs : (0 < vsize)%nat → b_at b ≠ SNull → records vsize b rs →
  (∃ rc bi, ss_bufiter_open vsize b = Some ((rc, bi), b) ∧ bufiter_walk (length rs) bi b = Some (rs, b)) ∧
  (∀ i r, (i < length rs)%nat → length r = vsize →
    ∃ b', ss_bufset vsize i r b = Some ((), b') ∧ records vsize b' (<[i := r]> rs)).
Proof.
  intros Hv Hb Hrec. split.
  - unfold ss_bufiter_open, cbind, cget. rewrite bool_decide_false by done. rewrite bufin_run by done.
    pose proof (bufiter_walk_ok vsize b rs Hv Hb rs [] (length rs) eq_refl Hrec (le_n _)) as Hw.
    unfold ss_bufat in Hw. simpl in Hw. rewrite Nat.mul_0_r in Hw.
    destruct (bool_decide (0 < b_p b)%nat); unfold cret; by repeat eexists.
  - intros i r Hi Hr. destruct (lookup_lt_is_Some_2 rs i Hi) as [o Ho].
    destruct (split_at rs i o Ho) as (rs1 & rs2 & -> & Hlen & Hins).
    destruct (record_at _ _ _ _ _ Hrec) as [Hat Hp]. destruct Hrec as (Hok & Hc & Hrs).
    pose proof (proj1 (Forall_app _ _ _) Hrs) as [Hrs1 Hrs2]. apply Forall_cons in Hrs2 as [Ho2 Hrs2].
    unfold ss_bufset, cbind, cget, cassert. rewrite bool_decide_true by (rewrite <- Hlen; nia).
    pose proof (buf_copy_ok b (vsize * i) o r Hok) as Hw. unfold ss_bufat in Hat. rewrite Hlen in Hat.
    destruct (proj1 (wp_run _ _ _) (Hw Hat ltac:(lia))) as ([] & b' & E & Hok' & Hp' & _ & Hl' & _ & Hat' & Ht & Hd).
    exists b'. split; [done|]. split_and!; [done| |].
    + rewrite Hins, concat_app. rewrite concat_app in Hc. simpl in *. pose proof (records_length _ _ Hrs1).
      eapply (bufset_content b b' (vsize * i)); eauto; lia.
    + rewrite Hins. apply Forall_app; split; [done|]. by constructor.
Qed.

(** ** Witnesses: an allocator that has memory, and one that has none *)
Definition demo_alloc : Alloc := {| ss_malloc n := Some (replicate n 170); ss_malloc_length n b E :=
  eq_trans (f_equal length (eq_sym (f_equal (default []) E))) (length_replicate n 170) |}.
Definition demo_buf : ssbuf := mk_buf (Some [1; 2; 3; 4]) SReserve [1; 2; 3; 4] 4.

Lemma ss_bufadd_appends_witness : ∃ rc b',
  @ss_bufadd demo_alloc [5; 6] demo_buf = Some (rc, b') ∧ rc = 0 ∧ content b' = [1; 2; 3; 4; 5; 6].
Proof.
  destruct (@ss_bufadd_appends demo_alloc demo_buf [5; 6]) as (rc & b' & E & [(_ & _ & n & Hn)|(Hrc & _ & Hc & _)]).
  - split; simpl; (lia || done || by eauto).
  - unfold INT_MAX, ss_bufsize. simpl. lia.
  - unfold INT_MAX, ss_bufused. simpl. lia.
  - done.
  - by exists rc, b'.
Defined.
Lemma ss_bufiter_records_witness : ∃ rc bi,
  ss_bufiter_open 2 demo_buf = Some ((rc, bi), demo_buf) ∧ bufiter_walk 2 bi demo_buf = Some ([[1; 2]; [3; 4]], demo_buf).
Proof.
  refine (proj1 (ss_bufiter_records 2 demo_buf [[1; 2]; [3; 4]] _ _ _)).
  - lia.
  - done.
  - split_and!; [split; simpl; (lia || done || by eauto)|done|by repeat constructor].
Defined.
