(* ===== verification/SsFilter.v ===== *)
(** Stream filters (the compression of pages): the interface of ss_filter.h, and the filter of
    ss_nonefilter.c. *)
From stdpp Require Import base list.
From S2P Require Import Prelude Sv SsBytes SsBuf.
Local Open Scope Z_scope.
Local Open Scope c_scope.

Inductive ssfilterop := SS_FINPUT | SS_FOUTPUT.
(** [struct ssfilterif]; [F] is what a filter keeps in its private area. *)
Record ssfilterif (F : Type) := mk_filterif {
  fi_init : ssfilterop → Z * F;
  fi_free : F → Z * F;
  fi_reset : F → Z * F;
  fi_start : cmd (F * ssbuf) Z;
  fi_next : bytes → cmd (F * ssbuf) Z;
  fi_complete : cmd (F * ssbuf) Z
}.
Arguments mk_filterif {F} _ _ _ _ _ _.
Arguments fi_init {F} _ _.
Arguments fi_free {F} _ _.
Arguments fi_reset {F} _ _.
Arguments fi_start {F} _.
Arguments fi_next {F} _ _.
Arguments fi_complete {F} _.

(** [struct ssfilter] *)
Record ssfilter (F : Type) := mk_filter { fl_i : ssfilterif F; fl_op : ssfilterop; fl_priv : F }.
Arguments mk_filter {F} _ _ _.
Arguments fl_i {F} _.
Arguments fl_op {F} _.
Arguments fl_priv {F} _.

Section filter.
Context {F : Type}.

Definition ss_filterinit (ci : ssfilterif F) (op : ssfilterop) : Z * ssfilter F :=
  let '(rc, p) := fi_init ci op in (rc, mk_filter ci op p).
Definition ss_filterfree (c : ssfilter F) : Z * ssfilter F :=
  let '(rc, p) := fi_free (fl_i c) (fl_priv c) in (rc, mk_filter (fl_i c) (fl_op c) p).
Definition ss_filterreset (c : ssfilter F) : Z * ssfilter F :=
  let '(rc, p) := fi_reset (fl_i c) (fl_priv c) in (rc, mk_filter (fl_i c) (fl_op c) p).
(** A call that writes to the buffer [dest]. *)
Definition filter_call (m : ssfilterif F → cmd (F * ssbuf) Z) : cmd (ssfilter F * ssbuf) Z := λ s,
  match m (fl_i s.1) (fl_priv s.1, s.2) with
  | Some (rc, (p, dest)) => Some (rc, (mk_filter (fl_i s.1) (fl_op s.1) p, dest))
  | None => None
  end.
Definition ss_filterstart : cmd (ssfilter F * ssbuf) Z := filter_call fi_start.
Definition ss_filternext (buf : bytes) : cmd (ssfilter F * ssbuf) Z := filter_call (λ i, fi_next i buf).
Definition ss_filtercomplete : cmd (ssfilter F * ssbuf) Z := filter_call fi_complete.
End filter.

(** The filter that does nothing: it writes nothing. *)
Definition ss_nonefilter : ssfilterif () :=
  mk_filterif (λ _, (0, ())) (λ _, (0, ())) (λ _, (0, ())) (cret 0) (λ _, cret 0) (cret 0).
