(* ===== verification/Sr.v ===== *)
(** The runtime's shared counters and settings: the sequence numbers of sr_seq.h, the zones of
    sr_zone.h, the version stamp of sr_version.h and the error state of sr_error.h.  Every
    operation runs under its structure's lock, so an interleaving of threads is a sequence of
    operations. *)
From stdpp Require Import base list.
From S2P Require Import Prelude Sv SsBytes.
Local Open Scope Z_scope.
Local Open Scope c_scope.

(** * Sequence numbers *)

Inductive srseqop :=
  | SR_DSN | SR_DSNNEXT | SR_NSN | SR_NSNNEXT | SR_BSN | SR_BSNNEXT | SR_LSN | SR_LSNNEXT
  | SR_LFSN | SR_LFSNNEXT | SR_TSN | SR_TSNNEXT | SR_RSN | SR_RSNNEXT.
#[export] Instance srseqop_eq_dec : EqDecision srseqop.
Proof. solve_decision. Defined.

Record srseq := mk_seq { q_dsn : Z; q_nsn : Z; q_bsn : Z; q_lsn : Z; q_lfsn : Z; q_tsn : Z; q_rsn : Z }.
Definition sr_seqinit : srseq := mk_seq 0 0 0 0 0 0 0.

Definition sr_seqdo (op : srseqop) : cmd srseq Z := λ n,
  let 'mk_seq dsn nsn bsn lsn lfsn tsn rsn := n in
  match op with
  | SR_LSN => Some (lsn, n)
  | SR_LSNNEXT => let v := u64 (lsn + 1) in Some (v, mk_seq dsn nsn bsn v lfsn tsn rsn)
  | SR_TSN => Some (tsn, n)
  | SR_TSNNEXT => let v := u32 (tsn + 1) in Some (v, mk_seq dsn nsn bsn lsn lfsn v rsn)
  | SR_RSN => Some (rsn, n)
  | SR_RSNNEXT => let v := u64 (rsn + 1) in Some (v, mk_seq dsn nsn bsn lsn lfsn tsn v)
  | SR_NSN => Some (nsn, n)
  | SR_NSNNEXT => let v := u32 (nsn + 1) in Some (v, mk_seq dsn v bsn lsn lfsn tsn rsn)
  | SR_LFSN => Some (lfsn, n)
  | SR_LFSNNEXT => let v := u32 (lfsn + 1) in Some (v, mk_seq dsn nsn bsn lsn v tsn rsn)
  | SR_DSN => Some (dsn, n)
  | SR_DSNNEXT => let v := u32 (dsn + 1) in Some (v, mk_seq v nsn bsn lsn lfsn tsn rsn)
  | SR_BSN => Some (bsn, n)
  | SR_BSNNEXT => let v := u32 (bsn + 1) in Some (v, mk_seq dsn nsn v lsn lfsn tsn rsn)
  end.
Definition sr_seq (op : srseqop) : cmd srseq Z := sr_seqdo op.

(** * Zones *)

Record srzone := mk_zone {
  z_enable : Z; z_name : bytes; z_mode : Z; z_compact_wm : Z; z_branch_prio : Z; z_branch_wm : Z;
  z_branch_age : Z; z_branch_age_period : Z; z_branch_age_wm : Z; z_backup_prio : Z;
  z_gc_db_prio : Z; z_gc_prio : Z; z_gc_period : Z; z_gc_wm : Z; z_async : Z
}.
Definition zone0 : srzone := mk_zone 0 [] 0 0 0 0 0 0 0 0 0 0 0 0 0.
(** [zones[11]] *)
Abbreviation srzonemap := (list srzone).
Definition sr_zonemap_init : srzonemap := replicate 11 zone0.

(** [%d] of a number that is not negative. *)
Fixpoint dec_digits (fuel : nat) (z : Z) : bytes :=
  match fuel with
  | O => []
  | S fuel => (if Z.ltb z 10 then [] else dec_digits fuel (z / 10)) ++ [48 + z mod 10]
  end.
Definition dec_str (z : Z) : bytes := dec_digits 20 z.
(** [snprintf(dst, size, ...)]: what fits before the terminator. *)
Definition snprintf (size : nat) (text : bytes) : bytes := take (size - 1) text.

Definition zone_pos (percent : Z) : Z :=
  let percent := if Z.gtb percent 100 then 100 else percent in percent - percent mod 10.
Definition set_name (name : bytes) (z : srzone) : srzone :=
  let 'mk_zone a _ b c d e f g h i j k l m o := z in mk_zone a name b c d e f g h i j k l m o.
Definition sr_zonemap_set (percent : Z) (z : srzone) : cmd srzonemap () := λ m,
  let percent := zone_pos percent in
  let p := Z.to_nat (percent / 10) in
  if decide (p < length m)%nat
  then Some ((), <[p := set_name (snprintf 4 (dec_str percent)) z]> m) else None.

(** [while (p >= 0)]; a slot outside of the array is a fault. *)
Fixpoint zonemap_loop (p : nat) (m : srzonemap) : option (option nat) :=
  z ← m !! p;
  if c_true (z_enable z) then Some (Some p) else
  match p with O => Some None | S p => zonemap_loop p m end.
(** The zone is answered by its slot, [Some None] is NULL. *)
Definition sr_zonemap (percent : Z) (m : srzonemap) : option (option nat) :=
  let p := Z.to_nat (zone_pos percent / 10) in
  z ← m !! p;
  if c_true (z_enable z) then Some (Some p) else zonemap_loop p m.

(** * The version stamp *)

Definition SR_VERSION_MAGIC : Z := 8529643324614668147.
Record srversion := mk_version { r_magic : Z; r_a : Z; r_b : Z; r_c : Z }.
Definition sr_version : srversion := mk_version SR_VERSION_MAGIC 50 49 49.
Definition sr_versioncheck (v : srversion) : bool :=
  if negb (Z.eqb (r_magic v) SR_VERSION_MAGIC) then false
  else if negb (Z.eqb (r_a v) 50) then false
  else if negb (Z.eqb (r_b v) 49) then false
  else if negb (Z.eqb (r_c v) 49) then false
  else true.

(** * Errors *)

Inductive srerrortype := SR_ERROR_NONE | SR_ERROR | SR_ERROR_MALFUNCTION.
#[export] Instance srerrortype_eq_dec : EqDecision srerrortype.
Proof. solve_decision. Defined.
(** [error[256]] is its text up to the terminator. *)
Record srerror := mk_error { e_type : srerrortype; e_file : option bytes; e_function : option bytes; e_line : Z; e_error : bytes }.
Definition sr_errorinit : srerror := mk_error SR_ERROR_NONE None None 0 [].
Definition sr_errorreset (e : srerror) : srerror := mk_error SR_ERROR_NONE None None 0 [].
Definition sr_errorrecover : cmd srerror () :=
  let! e := cget in
  cassert (bool_decide (e_type e = SR_ERROR_MALFUNCTION));;;
  cput (mk_error SR_ERROR (e_file e) (e_function e) (e_line e) (e_error e)).
Definition sr_malfunction_set (e : srerror) : srerror :=
  mk_error SR_ERROR_MALFUNCTION (e_file e) (e_function e) (e_line e) (e_error e).
Definition sr_errorof (e : srerror) : srerrortype := e_type e.
(** The text is copied, as far as it fits; the length is the one of the whole text. *)
Definition sr_errorcopy (bufsize : nat) (e : srerror) : nat * bytes :=
  (length (e_error e), snprintf bufsize (e_error e)).
(** [text] is the formatted message.  A prefix that fills the array would leave no room to
    format into: the remaining size is computed by subtraction and wraps around. *)
Definition sr_verrorset (type : srerrortype) (file function : bytes) (line : Z) (text : bytes) : cmd srerror () :=
  let! e := cget in
  if decide (e_type e = SR_ERROR_MALFUNCTION) then cret () else
  let prefix := file ++ [58] ++ dec_str line ++ [32] in
  cassert (bool_decide (length prefix < 256)%nat);;;
  cput (mk_error type (Some file) (Some function) line (snprintf 256 prefix ++ snprintf (256 - length prefix) text)).
(** [sr_errorset] and the macros above it answer -1. *)
Definition sr_errorset (type : srerrortype) (file function : bytes) (line : Z) (text : bytes) : cmd srerror Z :=
  sr_verrorset type file function line text;;; cret (-1).

(** * Sequence numbers: correctness *)

Inductive seqfield := DSN | NSN | BSN | LSN | LFSN | TSN | RSN.
#[export] Instance seqfield_eq_dec : EqDecision seqfield.
Proof. solve_decision. Defined.
Definition op_field (op : srseqop) : seqfield :=
  match op with
  | SR_DSN | SR_DSNNEXT => DSN | SR_NSN | SR_NSNNEXT => NSN | SR_BSN | SR_BSNNEXT => BSN
  | SR_LSN | SR_LSNNEXT => LSN | SR_LFSN | SR_LFSNNEXT => LFSN | SR_TSN | SR_TSNNEXT => TSN
  | SR_RSN | SR_RSNNEXT => RSN
  end.
Definition op_next (op : srseqop) : bool :=
  match op with
  | SR_DSNNEXT | SR_NSNNEXT | SR_BSNNEXT | SR_LSNNEXT | SR_LFSNNEXT | SR_TSNNEXT | SR_RSNNEXT => true
  | _ => false
  end.
Definition width (f : seqfield) : Z := match f with LSN | RSN => 64 | _ => 32 end.
Definition field (f : seqfield) (n : srseq) : Z :=
  match f with
  | DSN => q_dsn n | NSN => q_nsn n | BSN => q_bsn n | LSN => q_lsn n | LFSN => q_lfsn n | TSN => q_tsn n | RSN => q_rsn n
  end.
(** How often [f] was advanced. *)
Definition advances (f : seqfield) (ops : list srseqop) : Z :=
  Z.of_nat (length (filter (λ op, op_field op = f ∧ op_next op = true) ops)).

(** One operation after another, as the lock orders them. *)
Fixpoint run_seq (ops : list srseqop) : cmd srseq (list Z) :=
  match ops with
  | [] => cret []
  | op :: ops => let! v := sr_seq op in let! vs := run_seq ops in cret (v :: vs)
  end.

Lemma seqdo_spec op n : ∃ v n', sr_seq op n = Some (v, n') ∧ v = field (op_field op) n' ∧
  ∀ f, field f n' = if decide (op_field op = f ∧ op_next op = true) then wrap (width f) (field f n + 1) else field f n.
Proof. destruct n, op; (eexists _, _; split; [reflexivity|]; split; [done|]; intros []; reflexivity). Qed.
Lemma wrap_succ w a : wrap w (wrap w a + 1) = wrap w (a + 1).
Proof. unfold wrap. apply Zplus_mod_idemp_l. Qed.

Lemma run_seq_ok ops n base : (∀ f, field f n = wrap (width f) (base f)) →
  ∃ vs n', run_seq ops n = Some (vs, n') ∧ length vs = length ops ∧
    (∀ i op v, ops !! i = Some op → vs !! i = Some v →
       v = wrap (width (op_field op)) (base (op_field op) + advances (op_field op) (take (S i) ops))) ∧
    ∀ f, field f n' = wrap (width f) (base f + advances f ops).
Proof.
  revert n base. induction ops as [|op ops IH]; intros n base Hn.
  { exists [], n. split_and!; [done|done|done|]. intros f. by rewrite Hn, Z.add_0_r. }
  destruct (seqdo_spec op n) as (v & n1 & E & Hv & Hf).
  assert (∀ f l, base f + (if decide (op_field op = f ∧ op_next op = true) then 1 else 0) + advances f l =
    base f + advances f (op :: l)) as Hadv.
  { intros f l. unfold advances. destruct (decide (op_field op = f ∧ op_next op = true)) as [Hd|Hd]; [rewrite filter_cons_True by exact Hd|rewrite filter_cons_False by exact Hd]; simpl length; lia. }
  destruct (IH n1 (λ f, base f + if decide (op_field op = f ∧ op_next op = true) then 1 else 0)) as (vs & n2 & E2 & Hl & Hi & Hf2).
  { intros f. rewrite Hf, Hn. destruct (decide (op_field op = f ∧ op_next op = true)); [apply wrap_succ|by rewrite Z.add_0_r]. }
  exists (v :: vs), n2. cbn [run_seq]. unfold cbind. rewrite E, E2. split_and!; [done|simpl; lia| |].
  - intros [|i] op' v' Ho Hv'; simpl in Ho, Hv'; simplify_eq.
    + rewrite Hf, Hn, firstn_cons, take_0, <- Hadv. unfold advances at 1. simpl length. rewrite Z.add_0_r.
      destruct (decide (op_field op' = op_field op' ∧ op_next op' = true)); [apply wrap_succ|by rewrite Z.add_0_r].
    + rewrite (Hi i op' v' Ho Hv'), firstn_cons, <- Hadv. done.
  - intros f. by rewrite Hf2, Hadv.
Qed.

(** * Zones: correctness *)

Lemma zonemap_loop_ok m p : (p < length m)%nat → ∃ r, zonemap_loop p m = Some r ∧
  match r with
  | Some q => (q <= p)%nat ∧ (∃ z, m !! q = Some z ∧ z_enable z ≠ 0) ∧
      ∀ k z, (q < k <= p)%nat → m !! k = Some z → z_enable z = 0
  | None => ∀ k z, (k <= p)%nat → m !! k = Some z → z_enable z = 0
  end.
Proof.
  induction p as [|p IH]; intros Hp; destruct (lookup_lt_is_Some_2 m _ Hp) as [z Hz];
    cbn [zonemap_loop]; rewrite Hz; cbn [mbind option_bind]; unfold c_true;
    destruct (Z.eqb_spec (z_enable z) 0) as [E0|E0]; cbn [negb].
  - exists None. split; [done|]. intros k y Hk Hy. assert (k = O) as -> by lia. congruence.
  - exists (Some O). split; [done|]. split_and!; [lia|by exists z|lia].
  - destruct IH as (r & E & Hr); [lia|]. exists r. split; [done|]. destruct r as [q|].
    + destruct Hr as (Hq & Hen & Hdis). split_and!; [lia|done|]. intros k y Hk Hy.
      destruct (decide (k = S p)) as [->|]; [congruence|]. apply (Hdis k); [lia|done].
    + intros k y Hk Hy. destruct (decide (k = S p)) as [->|]; [congruence|]. apply (Hr k); [lia|done].
  - exists (Some (S p)). split; [done|]. split_and!; [lia|by exists z|lia].
Qed.
Lemma zone_pos_bound percent : 0 <= percent → (Z.to_nat (zone_pos percent / 10) <= 10)%nat ∧
  zone_pos percent / 10 = Z.min percent 100 / 10.
Proof.
  intros Hp. unfold zone_pos. destruct (Z.gtb_spec percent 100).
  - rewrite Z.min_r by lia. split; [vm_compute; lia|done].
  - rewrite Z.min_l by lia. assert ((percent - percent mod 10) / 10 = percent / 10) as ->.
    { pose proof (Z.div_mod percent 10). replace (percent - percent mod 10) with (percent / 10 * 10) by lia.
      apply Z.div_mul. lia. }
    split; [|done]. assert (percent / 10 <= 10) by (apply Z.div_le_upper_bound; lia).
    assert (0 <= percent / 10) by (apply Z.div_pos; lia). lia.
Qed.
Lemma zonemap_ok m percent : length m = 11%nat → 0 <= percent →
  sr_zonemap percent m = zonemap_loop (Z.to_nat (Z.min percent 100 / 10)) m.
Proof.
  intros Hl Hp. destruct (zone_pos_bound percent Hp) as [Hb E]. unfold sr_zonemap. rewrite E in *.
  destruct (lookup_lt_is_Some_2 m (Z.to_nat (Z.min percent 100 / 10))) as [z Hz]; [lia|].
  rewrite Hz. cbn [mbind option_bind]. destruct (c_true (z_enable z)) eqn:Ez; [|done].
  destruct (Z.to_nat _); cbn [zonemap_loop]; rewrite Hz; cbn [mbind option_bind]; by rewrite Ez.
Qed.

(** * Theorems *)

(** Whatever the interleaving of the threads, the operations on the sequence numbers
    answer, for each number separately, how often it was advanced up to there, modulo its
    width of 32 or 64 bits: two advances of a number give different values as long as it has
    not wrapped around, and reading never changes one. *)
Theorem sr_seq_counts ops : ∃ vs n, run_seq ops sr_seqinit = Some (vs, n) ∧ length vs = length ops ∧
  (∀ i op v, ops !! i = Some op → vs !! i = Some v →
     v = wrap (width (op_field op)) (advances (op_field op) (take (S i) ops))) ∧
  ∀ i j op op' v, (i < j)%nat → ops !! i = Some op → ops !! j = Some op' → op_field op' = op_field op →
    op_next op' = true → vs !! i = Some v → vs !! j = Some v →
    2 ^ width (op_field op) <= advances (op_field op) ops.
Proof.
  destruct (run_seq_ok ops sr_seqinit (λ _, 0)) as (vs & n & E & Hl & Hi & _); [by intros []|].
  exists vs, n. split_and!; [done|done|done|].
  intros i j op op' v Hij Ho Ho' Ef Hn Hv Hv'. pose proof (Hi i op v Ho Hv) as E1. pose proof (Hi j op' v Ho' Hv') as E2.
  simpl in E1, E2. rewrite Ef in E2. set (f := op_field op) in *.
  assert (∀ l k, advances f (l ++ k) = advances f l + advances f k) as Happ.
  { intros l k. unfold advances. rewrite filter_app, length_app. lia. }
  assert (advances f ops = advances f (take (S j) ops) + advances f (drop (S j) ops)) as Ej by (by rewrite <- Happ, take_drop).
  assert (advances f (take (S j) ops) = advances f (take (S i) ops) + advances f (drop (S i) (take j ops)) + 1) as Ek.
  { rewrite (take_S_r _ _ _ Ho'), Happ. rewrite <- (take_drop (S i) (take j ops)) at 1. rewrite Happ, take_take, Nat.min_l by lia.
    assert (advances f [op'] = 1) as -> by (unfold advances; rewrite filter_cons_True by done; done). lia. }
  assert (0 <= advances f (take (S i) ops) ∧ 0 <= advances f (drop (S i) (take j ops)) ∧ 0 <= advances f (drop (S j) ops))
    as (P1 & P2 & P3) by (unfold advances; lia).
  assert (0 < 2 ^ width f) by (apply Z.pow_pos_nonneg; [lia|destruct f; simpl; lia]).
  destruct (decide (advances f ops < 2 ^ width f)) as [Hlt|]; [exfalso|lia].
  rewrite E1 in E2. unfold wrap in E2. rewrite !Z.mod_small in E2 by lia. lia.
Qed.

(** Looking up a zone never leaves the array; it answers the enabled zone nearest below
    the given percentage (100 and above share the last one), NULL if there is none; and a
    zone that was set and enabled is the one its own percentage gives. *)
Theorem sr_zonemap_nearest m percent : length m = 11%nat → 0 <= percent →
  let p := Z.to_nat (Z.min percent 100 / 10) in
  (∃ r, sr_zonemap percent m = Some r ∧
    match r with
    | Some q => (q <= p)%nat ∧ (∃ z, m !! q = Some z ∧ z_enable z ≠ 0) ∧
        ∀ k z, (q < k <= p)%nat → m !! k = Some z → z_enable z = 0
    | None => ∀ k z, (k <= p)%nat → m !! k = Some z → z_enable z = 0
    end) ∧
  ∀ z, z_enable z ≠ 0 → ∃ m', sr_zonemap_set percent z m = Some ((), m') ∧ length m' = 11%nat ∧
    sr_zonemap percent m' = Some (Some p) ∧ ∀ k, k ≠ p → m' !! k = m !! k.
Proof.
  intros Hl Hp p. destruct (zone_pos_bound percent Hp) as [Hb E]. split.
  - rewrite zonemap_ok by done. apply zonemap_loop_ok. unfold p. rewrite <- E. lia.
  - intros z Hz. unfold sr_zonemap_set. rewrite E in *. fold p in Hb |- *. rewrite decide_True by lia.
    eexists. split; [done|]. rewrite length_insert. split_and!; [done| |].
    + rewrite zonemap_ok by (by rewrite ?length_insert). fold p.
      assert (∀ q : nat, (q < 11)%nat → <[q := set_name (snprintf 4 (dec_str (zone_pos percent))) z]> m !! q =
        Some (set_name (snprintf 4 (dec_str (zone_pos percent))) z)) as Hq by (intros; apply list_lookup_insert_eq; lia).
      destruct p; cbn [zonemap_loop]; rewrite Hq by lia; cbn [mbind option_bind]; unfold c_true;
        destruct z; simpl in *; by destruct (Z.eqb_spec z_enable0 0).
    + intros k Hk. by rewrite list_lookup_insert_ne.
Qed.
Lemma sr_zonemap_nearest_witness :
  ∃ m', sr_zonemap_set 85 (mk_zone 1 [] 0 0 0 0 0 0 0 0 0 0 0 0 0) sr_zonemap_init = Some ((), m') ∧
    sr_zonemap 85 m' = Some (Some 8%nat).
Proof.
  destruct (sr_zonemap_nearest sr_zonemap_init 85) as [_ H].
  - reflexivity.
  - lia.
  - destruct (H (mk_zone 1 [] 0 0 0 0 0 0 0 0 0 0 0 0 0)) as (m' & E1 & _ & E2 & _); [done|]. exists m'. exact (conj E1 E2).
Defined.
