(* ===== verification/SsQuota.v ===== *)
(** The memory quota, ss_quota.h and ss_quota.c: a counter that threads charge and release, and
    a condition variable on which a thread sleeps when the limit is reached.  The threads are a
    step relation: a call runs under the mutex up to its wait, and the rest of it after the
    thread was woken and has the mutex again. *)
From stdpp Require Import base sets list.
From S2P Require Import Prelude.
Local Open Scope Z_scope.

(** * Model *)

Inductive ssquotaop := SS_QGROW | SS_QADD | SS_QREMOVE.
Record ssquota := mk_quota { qt_enable : Z; qt_wait : Z; qt_limit : Z; qt_used : Z }.

Definition ss_quotainit : ssquota := mk_quota 0 0 0 0.
Definition ss_quotaset (limit : Z) (q : ssquota) : ssquota := mk_quota (qt_enable q) (qt_wait q) limit (qt_used q).
Definition ss_quotaenable (v : Z) (q : ssquota) : ssquota := mk_quota v (qt_wait q) (qt_limit q) (qt_used q).
Definition ss_quotaused (q : ssquota) : Z := qt_used q.
(** The product is of 64 bits, the result is converted to [int]. *)
Definition ss_quotaused_percent (q : ssquota) : Z :=
  if Z.eqb (qt_limit q) 0 then 0 else i32 (u64 (qt_used q * 100) / qt_limit q).

Definition charge (v : Z) (q : ssquota) : ssquota :=
  mk_quota (qt_enable q) (qt_wait q) (qt_limit q) (u64 (qt_used q + v)).
(** What a call leaves to be done. *)
Inductive outcome := Done | Sleep | Signal.
(** [ss_quota] up to the end of the call, or up to [ss_condwait]; the case [SS_QADD] falls
    through to [SS_QGROW]. *)
Definition ss_quota (op : ssquotaop) (v : Z) (q : ssquota) : outcome * ssquota :=
  match op with
  | SS_QADD =>
      if negb (c_true (qt_enable q)) || Z.eqb (qt_limit q) 0 then (Done, charge v q)
      else if Z.geb (u64 (qt_used q + v)) (qt_limit q)
      then (Sleep, mk_quota (qt_enable q) (qt_wait q + 1) (qt_limit q) (qt_used q))
      else (Done, charge v q)
  | SS_QGROW => (Done, charge v q)
  | SS_QREMOVE =>
      let q := mk_quota (qt_enable q) (qt_wait q) (qt_limit q) (u64 (qt_used q - v)) in
      if c_true (qt_wait q)
      then (Signal, mk_quota (qt_enable q) (qt_wait q - 1) (qt_limit q) (qt_used q))
      else (Done, q)
  end.
(** The rest of the call of a thread that returns from [ss_condwait]. *)
Definition quota_resume (v : Z) (q : ssquota) : ssquota := charge v q.

(** * Threads

    The requests of the threads that sleep, and of those that were woken and wait for the
    mutex. *)
Record qstate := mk_qstate { st_q : ssquota; st_sleep : list Z; st_woken : list Z }.
Definition qstart : qstate := mk_qstate ss_quotainit [] [].

Inductive qevent :=
  | ECall (op : ssquotaop) (v : Z) | EResume (v : Z) | ESpurious | ESet (limit : Z) | EEnable (on : bool).
Inductive qstep : qstate → qevent → qstate → Prop :=
  | step_done op v q q' sl wk : in_u 64 v → ss_quota op v q = (Done, q') →
      qstep (mk_qstate q sl wk) (ECall op v) (mk_qstate q' sl wk)
  | step_sleep op v q q' sl wk : in_u 64 v → ss_quota op v q = (Sleep, q') →
      qstep (mk_qstate q sl wk) (ECall op v) (mk_qstate q' (v :: sl) wk)
  | step_signal op v q q' sl1 w sl2 wk : in_u 64 v → ss_quota op v q = (Signal, q') →
      qstep (mk_qstate q (sl1 ++ w :: sl2) wk) (ECall op v) (mk_qstate q' (sl1 ++ sl2) (w :: wk))
  | step_signal_none op v q q' wk : in_u 64 v → ss_quota op v q = (Signal, q') →
      qstep (mk_qstate q [] wk) (ECall op v) (mk_qstate q' [] wk)
  | step_resume v q sl wk1 wk2 :
      qstep (mk_qstate q sl (wk1 ++ v :: wk2)) (EResume v) (mk_qstate (quota_resume v q) sl (wk1 ++ wk2))
  (** POSIX lets a wait end without a signal. *)
  | step_spurious q sl1 w sl2 wk :
      qstep (mk_qstate q (sl1 ++ w :: sl2) wk) ESpurious (mk_qstate q (sl1 ++ sl2) (w :: wk))
  | step_set limit q sl wk : in_u 64 limit →
      qstep (mk_qstate q sl wk) (ESet limit) (mk_qstate (ss_quotaset limit q) sl wk)
  | step_enable on q sl wk :
      qstep (mk_qstate q sl wk) (EEnable on) (mk_qstate (ss_quotaenable (c_bool on) q) sl wk).

Inductive qtrace : qstate → list qevent → qstate → Prop :=
  | trace_nil s : qtrace s [] s
  | trace_snoc s es s1 e s2 : qtrace s es s1 → qstep s1 e s2 → qtrace s (es ++ [e]) s2.

(** * The invariant *)

(** What the events of a run amount to: charges of calls that did not sleep and of resumed
    ones, less what was released. *)
Definition released (e : qevent) : Z := match e with ECall SS_QREMOVE v => v | _ => 0 end.
Definition asked (e : qevent) : Z :=
  match e with ECall SS_QADD v => v | ECall SS_QGROW v => v | _ => 0 end.
Definition zsum (l : list Z) : Z := foldr Z.add 0 l.
Lemma zsum_app l k : zsum (l ++ k) = zsum l + zsum k.
Proof. unfold zsum. induction l; simpl; lia. Qed.

(** No thread sleeps uncounted, and the counter in use is what was asked for and not
    released, less the requests that still wait. *)
Record q_inv (es : list qevent) (s : qstate) : Prop := mk_q_inv {
  qi_wait : Z.of_nat (length (st_sleep s)) <= qt_wait (st_q s);
  qi_used : qt_used (st_q s) = u64 (zsum (asked <$> es) - zsum (released <$> es) - zsum (st_sleep s) - zsum (st_woken s))
}.

Lemma u64_add a b : u64 (u64 a + b) = u64 (a + b).
Proof. unfold wrap. apply Zplus_mod_idemp_l. Qed.
Lemma u64_sub a b : u64 (u64 a - b) = u64 (a - b).
Proof. unfold wrap. apply Zminus_mod_idemp_l. Qed.

(** The counter after an event: the requests asked and released in it. *)
Lemma q_inv_step es s e s' : q_inv es s → qstep s e s' → q_inv (es ++ [e]) s'.
Proof.
  intros [Hw Hu] Hs. assert (∀ f : qevent → Z, zsum (f <$> es ++ [e]) = zsum (f <$> es) + f e) as Hf.
  { intros f. rewrite fmap_app, zsum_app. unfold zsum. simpl. lia. }
  split; [|rewrite !Hf]; destruct Hs as [op v q q' sl wk Hv E|op v q q' sl wk Hv E|op v q q' sl1 w sl2 wk Hv E|op v q q' wk Hv E|v q sl wk1 wk2|q sl1 w sl2 wk|limit q sl wk Hl|on q sl wk];
    cbn [st_q st_sleep st_woken] in *; rewrite ?length_app, ?zsum_app in *; cbn [length zsum foldr] in *; fold zsum in *.
  all: try (destruct op; unfold ss_quota in E; repeat case_match; simplify_eq); unfold charge, quota_resume, charge, c_true in *;
    cbn [qt_wait qt_used qt_limit qt_enable asked released ss_quotaset ss_quotaenable] in *; try lia.
  all: rewrite ?Hu, ?u64_add, ?u64_sub; try (f_equal; unfold zsum; lia).
Qed.
Lemma q_inv_start : q_inv [] qstart.
Proof. by split. Qed.
Lemma q_inv_trace es s : qtrace qstart es s → q_inv es s.
Proof.
  intros Ht. remember qstart as s0 eqn:E0. revert E0. induction Ht as [s|s es s1 e s2 Ht IH Hs]; intros ->.
  - exact q_inv_start.
  - eapply q_inv_step; [by apply IH|done].
Qed.

(** * Theorems *)

(** C31: in every run of the threads no sleeper is forgotten: the counter in use is exactly
    what was asked for, less what was released and what still waits; as long as a thread
    sleeps, a release finds it counted and wakes exactly one thread; and a woken thread can
    always go on and have its request charged. *)
Theorem ss_quota_wakes es s : qtrace qstart es s →
  qt_used (st_q s) = u64 (zsum (asked <$> es) - zsum (released <$> es) - zsum (st_sleep s) - zsum (st_woken s)) ∧
  (∀ v, in_u 64 v → st_sleep s ≠ [] →
     (∃ s', qstep s (ECall SS_QREMOVE v) s') ∧
     ∀ s', qstep s (ECall SS_QREMOVE v) s' → ∃ w, w :: st_sleep s' ≡ₚ st_sleep s ∧ st_woken s' = w :: st_woken s) ∧
  (∀ v, v ∈ st_woken s → ∃ s', qstep s (EResume v) s' ∧ v :: st_woken s' ≡ₚ st_woken s ∧
     qt_used (st_q s') = u64 (qt_used (st_q s) + v)).
Proof.
  intros Ht. destruct (q_inv_trace es s Ht) as [Hw Hu]. split_and!; [done| |].
  - intros v Hv Hne. destruct s as [q sl wk]. cbn [st_q st_sleep st_woken] in *.
    assert (c_true (qt_wait q) = true) as Hc.
    { unfold c_true. destruct (Z.eqb_spec (qt_wait q) 0); [|done]. destruct sl; [done|]. simpl in Hw. lia. }
    assert (∃ q', ss_quota SS_QREMOVE v q = (Signal, q')) as [q' E].
    { unfold ss_quota. cbn [qt_wait]. rewrite Hc. eauto. }
    split.
    + destruct sl as [|w sl]; [done|]. eexists. by eapply (step_signal SS_QREMOVE v q q' [] w sl wk).
    + intros s' Hs. inversion Hs; simplify_eq; try congruence. eexists. cbn. split; [|reflexivity]. by rewrite Permutation_middle.
  - intros v Hv. destruct s as [q sl wk]. cbn [st_woken] in Hv. apply list_elem_of_split in Hv as (wk1 & wk2 & ->).
    eexists. split; [apply step_resume|]. cbn. split; [by rewrite Permutation_middle|done].
Qed.
Lemma ss_quota_wakes_witness : ∃ s,
  qtrace qstart [EEnable true; ESet 10; ECall SS_QADD 10] s ∧ st_sleep s = [10] ∧
  ∃ s', qstep s (ECall SS_QREMOVE 3) s'.
Proof.
  assert (qtrace qstart [EEnable true; ESet 10; ECall SS_QADD 10] (mk_qstate (mk_quota 1 1 10 0) [10] [])) as Ht.
  { apply (trace_snoc _ [EEnable true; ESet 10] (mk_qstate (mk_quota 1 0 10 0) [] [])).
    - apply (trace_snoc _ [EEnable true] (mk_qstate (mk_quota 1 0 0 0) [] [])).
      + apply (trace_snoc _ [] qstart); [constructor|]. apply (step_enable true).
      + apply (step_set 10 (mk_quota 1 0 0 0)). unfold in_u. lia.
    - by apply (step_sleep SS_QADD 10 (mk_quota 1 0 10 0)). }
  eexists. split; [exact Ht|]. split; [reflexivity|].
  destruct (ss_quota_wakes _ _ Ht) as (_ & H & _). apply (H 3); [unfold in_u; lia|done].
Defined.

(** The limit is not a bound on the memory in use, and not every request is served: a
    woken thread charges its request without looking at the limit again, so a run of calls
    that each had to ask ends with more than the limit in use; and a request as large as the
    limit sleeps although nothing is in use and so nothing is left to be released. *)
Theorem ss_quota_overshoots :
  (∃ es s, qtrace qstart es s ∧ (∀ op v, ECall op v ∈ es → op ≠ SS_QGROW) ∧
     qt_limit (st_q s) = 10 ∧ qt_used (st_q s) = 17 ∧ st_sleep s = [] ∧ st_woken s = []) ∧
  (∃ es s, qtrace qstart es s ∧ qt_limit (st_q s) = 10 ∧ qt_used (st_q s) = 0 ∧ st_sleep s = [10]).
Proof.
  assert (qtrace qstart [EEnable true; ESet 10] (mk_qstate (mk_quota 1 0 10 0) [] [])) as H0.
  { apply (trace_snoc _ [EEnable true] (mk_qstate (mk_quota 1 0 0 0) [] [])).
    - apply (trace_snoc _ [] qstart); [constructor|]. apply (step_enable true).
    - apply (step_set 10 (mk_quota 1 0 0 0)). unfold in_u. lia. }
  split.
  - exists ((((([EEnable true; ESet 10] ++ [ECall SS_QADD 9]) ++ [ECall SS_QADD 9]) ++ [ECall SS_QREMOVE 1]) ++ [EResume 9])).
    exists (mk_qstate (mk_quota 1 0 10 17) [] []). split; [|split_and!; try done; intros [] v Hv; set_solver].
    apply (trace_snoc _ _ (mk_qstate (mk_quota 1 0 10 8) [] [9])); [|apply (step_resume 9 (mk_quota 1 0 10 8) [] [] [])].
    apply (trace_snoc _ _ (mk_qstate (mk_quota 1 1 10 9) [9] [])); [|by apply (step_signal SS_QREMOVE 1 (mk_quota 1 1 10 9) _ [] 9 [] [])].
    apply (trace_snoc _ _ (mk_qstate (mk_quota 1 0 10 9) [] [])); [|by apply (step_sleep SS_QADD 9 (mk_quota 1 0 10 9))].
    apply (trace_snoc _ _ (mk_qstate (mk_quota 1 0 10 0) [] [])); [done|by apply (step_done SS_QADD 9 (mk_quota 1 0 10 0))].
  - exists ([EEnable true; ESet 10] ++ [ECall SS_QADD 10]), (mk_qstate (mk_quota 1 1 10 0) [10] []).
    split; [|done]. eapply trace_snoc; [exact H0|]. by apply (step_sleep SS_QADD 10 (mk_quota 1 0 10 0)).
Qed.
