(* ===== verification/SsSlab.v ===== *)
(** The page pool of ss_pager.h and ss_pager.c and the slab allocator over it, ss_slaba.c:
    chunks of one size, cut from pages one after another and kept in a free list. *)
From stdpp Require Import base sets list gmap.
From S2P Require Import Prelude.
Local Open Scope Z_scope.
Local Open Scope c_scope.

(** * Model *)

(** A page is given by its pool and its index in the pool, a chunk by its page and its offset
    from the start of the page. *)
Abbreviation paddr := (nat * nat)%type.
Abbreviation caddr := (paddr * Z)%type.

Definition sizeof_sspagepool : Z := 12.
Definition sizeof_sspage : Z := 16.
Definition sizeof_sssachunk : Z := 8.

Record sspage := mk_page { pa_pool : nat; pa_next : option paddr }.
Record sspagepool := mk_pool { po_used : Z; po_next : option nat }.
Record sspager := mk_pager {
  pg_page_size : Z; pg_pool_count : Z; pg_pool_size : Z; pg_pools : Z; pg_pp : option nat; pg_p : option paddr
}.
Record sssa := mk_sssa {
  sa_chunk_max : Z; sa_chunk_count : Z; sa_chunk_used : Z; sa_chunk_size : Z;
  sa_chunk : option caddr; sa_pu : option paddr
}.
(** The allocator, its pager and the headers of pools, pages and free chunks in memory. *)
Record slabst := mk_slab {
  sl_s : sssa; sl_pager : sspager;
  sl_pools : gmap nat sspagepool; sl_pages : gmap paddr sspage; sl_chunks : gmap caddr (option caddr)
}.

Definition set_s (s : sssa) (st : slabst) : slabst := mk_slab s (sl_pager st) (sl_pools st) (sl_pages st) (sl_chunks st).
Definition set_pager (p : sspager) (st : slabst) : slabst := mk_slab (sl_s st) p (sl_pools st) (sl_pages st) (sl_chunks st).
Definition set_pools h (st : slabst) : slabst := mk_slab (sl_s st) (sl_pager st) h (sl_pages st) (sl_chunks st).
Definition set_pages h (st : slabst) : slabst := mk_slab (sl_s st) (sl_pager st) (sl_pools st) h (sl_chunks st).
Definition set_chunks h (st : slabst) : slabst := mk_slab (sl_s st) (sl_pager st) (sl_pools st) (sl_pages st) h.
Definition set_free (p : option paddr) (g : sspager) : sspager :=
  mk_pager (pg_page_size g) (pg_pool_count g) (pg_pool_size g) (pg_pools g) (pg_pp g) p.
Definition modify (f : slabst → slabst) : cmd slabst () := λ st, Some ((), f st).

Definition ss_pagerinit (pool_count page_size : Z) : sspager :=
  let page_size := u32 (sizeof_sspage + page_size) in
  mk_pager page_size pool_count (u32 (sizeof_sspagepool + pool_count * page_size)) 0 None None.

(** Pages [i .. pool_count - 1] of a pool, linked behind [prev]. *)
Fixpoint prefetch_loop (n : nat) (pp i : nat) (prev : paddr) : cmd slabst paddr :=
  match n with
  | O => cret prev
  | S n =>
      let page := (pp, i) in
      modify (λ st, set_pages (<[page := mk_page pp None]> (sl_pages st)) st);;;
      let! pr := cread (λ st, sl_pages st !! prev) in
      modify (λ st, set_pages (<[prev := mk_page (pa_pool pr) (Some page)]> (sl_pages st)) st);;;
      prefetch_loop n pp (S i) page
  end.
Definition ss_pagerprefetch (pp : nat) : cmd slabst () :=
  let! st := cget in
  let start := (pp, O) in
  modify (λ st, set_pages (<[start := mk_page pp None]> (sl_pages st)) st);;;
  let! prev := prefetch_loop (Z.to_nat (pg_pool_count (sl_pager st)) - 1) pp 1 start in
  let! pr := cread (λ st, sl_pages st !! prev) in
  modify (λ st, set_pages (<[prev := mk_page (pa_pool pr) None]> (sl_pages st)) st);;;
  modify (λ st, set_pager (set_free (Some start) (sl_pager st)) st).

(** [mmap] answers a new pool, or [MAP_FAILED] when [mm] is false.  The code compares its own
    argument with [MAP_FAILED], not the answer, so a failure is not noticed and the header is
    written through the invalid pointer. *)
Definition ss_pageradd (mm : bool) : cmd slabst Z :=
  let! st := cget in
  if mm then
    let pp := size (sl_pools st) in
    let g := sl_pager st in
    modify (λ st, set_pools (<[pp := mk_pool 0 (pg_pp g)]> (sl_pools st)) st);;;
    modify (set_pager (mk_pager (pg_page_size g) (pg_pool_count g) (pg_pool_size g) (u32 (pg_pools g + 1)) (Some pp) (pg_p g)));;;
    ss_pagerprefetch pp;;;
    cret 0
  else cfail.

Definition pool_used (d : Z) (pp : nat) : cmd slabst () :=
  let! po := cread (λ st, sl_pools st !! pp) in
  modify (λ st, set_pools (<[pp := mk_pool (u32 (po_used po + d)) (po_next po)]> (sl_pools st)) st).
Definition ss_pagerpop (mm : bool) : cmd slabst (option paddr) :=
  let! st := cget in
  let! rc := match pg_p (sl_pager st) with Some _ => cret 0 | None => ss_pageradd mm end in
  if Z.eqb rc (-1) then cret None else
  let! st := cget in
  let! page := cread (λ _, pg_p (sl_pager st)) in
  let! pa := cread (λ st, sl_pages st !! page) in
  modify (λ st, set_pager (set_free (pa_next pa) (sl_pager st)) st);;;
  pool_used 1 (pa_pool pa);;;
  cret (Some page).
Definition ss_pagerpush (page : paddr) : cmd slabst () :=
  let! pa := cread (λ st, sl_pages st !! page) in
  pool_used (-1) (pa_pool pa);;;
  modify (λ st, set_pages (<[page := mk_page (pa_pool pa) (pg_p (sl_pager st))]> (sl_pages st)) st);;;
  modify (λ st, set_pager (set_free (Some page) (sl_pager st)) st).

Definition ss_sagrow (mm : bool) : cmd slabst Z :=
  let! r := ss_pagerpop mm in
  match r with
  | None => cret (-1)
  | Some page =>
      let! pa := cread (λ st, sl_pages st !! page) in
      modify (λ st, set_pages (<[page := mk_page (pa_pool pa) (sa_pu (sl_s st))]> (sl_pages st)) st);;;
      modify (λ st, let s := sl_s st in
        set_s (mk_sssa (sa_chunk_max s) (sa_chunk_count s) 0 (sa_chunk_size s) (sa_chunk s) (Some page)) st);;;
      cret 0
  end.

Definition slabaclose_turn (p : option paddr) : cmd slabst (option paddr + ()) :=
  match p with
  | None => cret (inr ())
  | Some p =>
      let! pa := cread (λ st, sl_pages st !! p) in
      ss_pagerpush p;;;
      cret (inl (pa_next pa))
  end.
(** A turn for every page there is, and the last. *)
Definition ss_slabaclose : cmd slabst Z :=
  let! st := cget in
  cloop (S (size (sl_pages st))) slabaclose_turn (sa_pu (sl_s st));;;
  cret 0.

Definition chunk_stride (s : sssa) : Z := sizeof_sssachunk + sa_chunk_size s.
Definition ss_slabaopen (chunk_size : Z) (mm : bool) : cmd slabst Z :=
  let! st := cget in
  let g := sl_pager st in
  cassert (Z.ltb 0 (sizeof_sssachunk + chunk_size));;;
  modify (set_s (mk_sssa ((pg_page_size g - sizeof_sspage) / (sizeof_sssachunk + chunk_size)) 0 0 chunk_size None None));;;
  let! rc := ss_sagrow mm in
  if Z.eqb rc (-1) then ss_slabaclose;;; cret (-1) else cret 0.

(** The answer is the address of the chunk; the user's bytes start behind its header. *)
Definition ss_slabamalloc (mm : bool) : cmd slabst (option caddr) :=
  let! st := cget in
  let s := sl_s st in
  match sa_chunk s with
  | Some c =>
      let! next := cread (λ st, sl_chunks st !! c) in
      modify (set_s (mk_sssa (sa_chunk_max s) (u32 (sa_chunk_count s + 1)) (sa_chunk_used s) (sa_chunk_size s) next (sa_pu s)));;;
      modify (λ st, set_chunks (<[c := None]> (sl_chunks st)) st);;;
      cret (Some c)
  | None =>
      let! rc := (if Z.eqb (sa_chunk_used s) (sa_chunk_max s) then ss_sagrow mm else cret 0) in
      if Z.eqb rc (-1) then cret None else
      let! st := cget in
      let s := sl_s st in
      let off := sizeof_sspage + sa_chunk_used s * chunk_stride s in
      let! pu := cread (λ _, sa_pu s) in
      let n := (pu, off) in
      modify (set_s (mk_sssa (sa_chunk_max s) (u32 (sa_chunk_count s + 1)) (u32 (sa_chunk_used s + 1)) (sa_chunk_size s) (sa_chunk s) (sa_pu s)));;;
      modify (λ st, set_chunks (<[n := None]> (sl_chunks st)) st);;;
      cret (Some n)
  end.
Definition ss_slabafree (c : caddr) : cmd slabst () :=
  modify (λ st, let s := sl_s st in
    set_s (mk_sssa (sa_chunk_max s) (u32 (sa_chunk_count s - 1)) (sa_chunk_used s) (sa_chunk_size s) (Some c) (sa_pu s))
      (set_chunks (<[c := sa_chunk s]> (sl_chunks st)) st)).

(** * Linked lists in memory *)

Section llist.
Context {K : Type}.
(** [next x] is the link stored in the header of [x], if there is a header. *)
Fixpoint llist (next : K → option (option K)) (p : option K) (l : list K) : Prop :=
  match l with
  | [] => p = None
  | x :: l => p = Some x ∧ ∃ n, next x = Some n ∧ llist next n l
  end.
Lemma llist_ext next next' p l : (∀ x, x ∈ l → next x = next' x) → llist next p l → llist next' p l.
Proof.
  revert p. induction l as [|x l IH]; intros p Hx; simpl; [done|].
  intros (-> & n & Hn & Hl). split; [done|]. exists n. rewrite <- Hx by set_solver. split; [done|].
  apply IH; [|done]. intros y Hy. apply Hx. set_solver.
Qed.
End llist.

Definition page_next (h : gmap paddr sspage) (p : paddr) : option (option paddr) := pa_next <$> h !! p.

(** * The invariant

    [A]: the chunks given out; [F]: the free list; [U]: the pages of the allocator, the one
    being cut first; [P]: the free pages of the pager. *)
Definition chunk_at (s : sssa) (U : list paddr) (c : caddr) : Prop :=
  ∃ k, c.2 = sizeof_sspage + k * chunk_stride s ∧ 0 <= k < sa_chunk_max s ∧ c.1 ∈ U ∧
    (head U = Some c.1 → k < sa_chunk_used s).
Record pager_ok (st : slabst) (U P : list paddr) : Prop := mk_pager_ok {
  go_free : llist (page_next (sl_pages st)) (pg_p (sl_pager st)) P;
  go_nodup : NoDup (U ++ P);
  go_pool : ∀ p, p ∈ U ++ P → ∃ n, sl_pages st !! p = Some (mk_page p.1 n) ∧ (p.1 < size (sl_pools st))%nat;
  go_pools : ∀ i, is_Some (sl_pools st !! i) ↔ (i < size (sl_pools st))%nat;
  go_count : 0 < pg_pool_count (sl_pager st)
}.
Section fixed.
(** The size of a chunk and of a page with its header. *)
Context (cs ps : Z).
Record slab_ok (st : slabst) (A F : list caddr) (U P : list paddr) : Prop := mk_slab_ok {
  so_pager : pager_ok st U P;
  so_used : llist (page_next (sl_pages st)) (sa_pu (sl_s st)) U;
  so_chunks : llist (λ c, sl_chunks st !! c) (sa_chunk (sl_s st)) F;
  so_nodup : NoDup (A ++ F);
  so_at : ∀ c, c ∈ A ++ F → chunk_at (sl_s st) U c;
  so_pu : U ≠ [];
  so_max : 0 <= sa_chunk_used (sl_s st) <= sa_chunk_max (sl_s st) ∧ 0 < sa_chunk_max (sl_s st) ∧
    sa_chunk_max (sl_s st) < 2 ^ 32;
  so_size : 0 < chunk_stride (sl_s st) ∧
    sizeof_sspage + sa_chunk_max (sl_s st) * chunk_stride (sl_s st) <= pg_page_size (sl_pager st);
  so_cnt : sa_chunk_count (sl_s st) = u32 (Z.of_nat (length A));
  so_cs : sa_chunk_size (sl_s st) = cs;
  so_ps : pg_page_size (sl_pager st) = ps
}.

(** ** The pager *)

Lemma prefetch_ok n : ∀ pp i st, (∃ nx, sl_pages st !! (pp, i) = Some (mk_page pp nx)) →
  ∃ h, prefetch_loop n pp (S i) (pp, i) st = Some ((pp, i + n)%nat, set_pages h st) ∧
    (∀ p, (p.1 ≠ pp ∨ p.2 < i)%nat → h !! p = sl_pages st !! p) ∧
    (∀ j, (i <= j < i + n)%nat → h !! (pp, j) = Some (mk_page pp (Some (pp, S j)))) ∧
    ∃ nx, h !! (pp, i + n)%nat = Some (mk_page pp nx).
Proof.
  induction n as [|n IH]; intros pp i st [nx Hi].
  { exists (sl_pages st). rewrite Nat.add_0_r. split_and!; [by destruct st|done|lia|by eauto]. }
  cbn [prefetch_loop]. unfold cbind at 1, modify at 1. unfold cbind at 1, cread at 1.
  cbn [set_pages sl_pages]. rewrite lookup_insert_ne by (intros [=]; lia). rewrite Hi. unfold cbind at 1, modify at 1.
  cbn [pa_pool].
  set (st1 := set_pages _ _). destruct (IH pp (S i) st1) as (h & E & Hout & Hin & Hlast).
  { exists None. unfold st1. cbn. rewrite lookup_insert_ne by (intros [=]; lia). by rewrite lookup_insert_eq. }
  exists h. rewrite E. rewrite Nat.add_succ_r. split_and!; [done| | |done].
  - intros p Hp. rewrite Hout by lia. unfold st1. cbn. rewrite !lookup_insert_ne; [done| |]; intros <-; simpl in Hp; lia.
  - intros j Hj. destruct (decide (j = i)) as [->|]; [|apply Hin; lia].
    rewrite Hout by (simpl; lia). unfold st1. cbn. by rewrite lookup_insert_eq.
Qed.

Lemma llist_seq (next : paddr → option (option paddr)) pp i n :
  (∀ j, (i <= j < i + n)%nat → next (pp, j) = Some (Some (pp, S j))) → next (pp, i + n)%nat = Some None →
  llist next (Some (pp, i)) ((λ j, (pp, j)) <$> seq i (S n)).
Proof.
  revert i. induction n as [|n IH]; intros i Hj Hl.
  - rewrite Nat.add_0_r in Hl. cbn. eauto.
  - cbn [seq fmap list_fmap]. split; [done|]. exists (Some (pp, S i)). split; [apply Hj; lia|].
    apply (IH (S i)); [intros j Hj'; apply Hj; lia|]. by rewrite Nat.add_succ_r in Hl.
Qed.

Lemma pageradd_ok st U : pager_ok st U [] → ∃ st' P, ss_pageradd true st = Some (0, st') ∧
  pager_ok st' U P ∧ P ≠ [] ∧ sl_s st' = sl_s st ∧ sl_chunks st' = sl_chunks st ∧
  pg_page_size (sl_pager st') = pg_page_size (sl_pager st) ∧
  (∀ p, p ∈ U → sl_pages st' !! p = sl_pages st !! p).
Proof.
  intros [Hf Hnd Hpool Hpools Hcnt]. set (pp := size (sl_pools st)).
  assert (sl_pools st !! pp = None) as Hfresh.
  { destruct (sl_pools st !! pp) eqn:E; [|done]. assert (pp < size (sl_pools st))%nat by (apply Hpools; eauto). unfold pp in *. lia. }
  unfold ss_pageradd. unfold cbind at 1, cget at 1. fold pp. unfold cbind at 1, modify at 1. unfold cbind at 1, modify at 1.
  unfold ss_pagerprefetch. unfold cbind at 1. unfold cbind at 1, cget at 1. unfold cbind at 1, modify at 1.
  set (st1 := set_pages _ _). cbn [set_pages set_pager set_pools sl_pager pg_pool_count].
  destruct (prefetch_ok (Z.to_nat (pg_pool_count (sl_pager st)) - 1) pp 0 st1) as (h & E & Hout & Hin & [nx Hlast]).
  { exists None. unfold st1. cbn. by rewrite lookup_insert_eq. }
  unfold cbind at 1. rewrite E. unfold cbind at 1, cread at 1. cbn [set_pages sl_pages]. rewrite Hlast.
  unfold cbind at 1, modify at 1, modify at 1. unfold cret. cbn [pa_pool].
  set (n := (Z.to_nat (pg_pool_count (sl_pager st)) - 1)%nat) in *. simpl Nat.add in *.
  assert (∀ p, p ∈ U → sl_pages st1 !! p = sl_pages st !! p ∧ (p.1 < pp)%nat) as HU.
  { intros p Hp. destruct (Hpool p) as (_ & _ & Hlt); [set_solver|]. split; [|done]. unfold st1. cbn.
    apply lookup_insert_ne. intros <-. simpl in Hlt. fold pp in Hlt. lia. }
  assert (∀ p, p ∈ U → <[(pp, n) := mk_page pp None]> h !! p = sl_pages st !! p) as HU2.
  { intros p Hp. destruct (HU p Hp) as [E1 Hlt]. rewrite lookup_insert_ne by (intros <-; simpl in Hlt; lia).
    rewrite Hout by lia. done. }
  eexists _, ((λ j, (pp, j)) <$> seq 0 (S n)). split; [done|]. split_and!; try done. split.
  - cbn [set_pager set_pages sl_pages sl_pager set_free pg_p]. apply llist_seq; unfold page_next.
    + intros j Hj. rewrite lookup_insert_ne by (intros [=]; lia). by rewrite Hin.
    + simpl. by rewrite lookup_insert_eq.
  - rewrite app_nil_r in Hnd. apply NoDup_app. split_and!; [done| |].
    + intros p Hp (j & -> & _)%list_elem_of_fmap. destruct (HU _ Hp) as [_ Hlt]. simpl in Hlt. lia.
    + apply NoDup_fmap_2; [by intros ?? [=]|apply NoDup_seq].
  - intros p Hp. cbn [set_pager set_pages sl_pages sl_pools st1 set_pools] in *. rewrite map_size_insert_None by done.
    apply elem_of_app in Hp as [Hp|(j & -> & Hj%elem_of_seq)%list_elem_of_fmap].
    + rewrite HU2 by done. destruct (Hpool p) as (q & Eq & Hlt); [set_solver|]. exists q. split; [done|lia].
    + simpl. destruct (decide (j = n)) as [->|].
      * rewrite lookup_insert_eq. eexists. split; [done|]. fold pp. lia.
      * rewrite lookup_insert_ne by (intros [=]; lia). rewrite Hin by lia. eexists. split; [done|]. fold pp. lia.
  - intros i. cbn [set_pager set_pages sl_pools st1 set_pools]. rewrite map_size_insert_None by done. fold pp.
    destruct (decide (i = pp)) as [->|]; [rewrite lookup_insert_eq; split; [lia|eauto]|].
    rewrite lookup_insert_ne, Hpools by done. fold pp. lia.
  - done.
Qed.

(** Changing the header of a pool that is there. *)
Lemma pool_used_ok st d pp po : sl_pools st !! pp = Some po →
  pool_used d pp st = Some ((), set_pools (<[pp := mk_pool (u32 (po_used po + d)) (po_next po)]> (sl_pools st)) st).
Proof. intros E. unfold pool_used, cbind, cread. by rewrite E. Qed.
Lemma pools_update (h : gmap nat sspagepool) pp po po' : h !! pp = Some po →
  size (<[pp := po']> h) = size h ∧ ∀ i, is_Some (<[pp := po']> h !! i) ↔ is_Some (h !! i).
Proof.
  intros E. split; [by rewrite map_size_insert_Some by eauto|]. intros i. rewrite lookup_insert_is_Some.
  destruct (decide (pp = i)) as [->|]; [rewrite E|]; naive_solver.
Qed.

Lemma pagerpop_ok st U P : pager_ok st U P → ∃ st' page P', ss_pagerpop true st = Some (Some page, st') ∧
  pager_ok st' (page :: U) P' ∧ sl_s st' = sl_s st ∧ sl_chunks st' = sl_chunks st ∧
  pg_page_size (sl_pager st') = pg_page_size (sl_pager st) ∧ (∀ p, p ∈ U → sl_pages st' !! p = sl_pages st !! p).
Proof.
  intros Hok. assert (∃ st1 P1, (let! s := cget in match pg_p (sl_pager s) with Some _ => cret 0 | None => ss_pageradd true end) st =
    Some (0, st1) ∧ pager_ok st1 U P1 ∧ P1 ≠ [] ∧ sl_s st1 = sl_s st ∧ sl_chunks st1 = sl_chunks st ∧
    pg_page_size (sl_pager st1) = pg_page_size (sl_pager st) ∧ (∀ p, p ∈ U → sl_pages st1 !! p = sl_pages st !! p))
    as (st1 & P1 & E1 & Hok1 & Hne & R1 & R2 & R3 & R4).
  { unfold cbind, cget. destruct P as [|page P].
    - pose proof (go_free _ _ _ Hok) as Hf. simpl in Hf. rewrite Hf.
      destruct (pageradd_ok st U Hok) as (st1 & P1 & E & H). by exists st1, P1.
    - pose proof (go_free _ _ _ Hok) as [Hf _]. rewrite Hf. by exists st, (page :: P). }
  unfold cbind, cget in E1. unfold ss_pagerpop. unfold cbind at 1, cget at 1. unfold cbind at 1. rewrite E1.
  destruct P1 as [|page P1]; [done|]. destruct Hok1 as [Hf Hnd Hpool Hpools Hcnt]. destruct Hf as (Hp & n & Hn & Hl).
  cbn [Z.eqb]. unfold cbind at 1, cget at 1. unfold cbind at 1, cread at 1. rewrite Hp.
  unfold cbind at 1, cread at 1. destruct (Hpool page) as (n' & Epg & Hlt); [set_solver|].
  rewrite Epg. unfold cbind at 1, modify at 1. unfold cbind at 1.
  destruct (proj2 (Hpools page.1) Hlt) as [po Hpo].
  erewrite pool_used_ok by exact Hpo. unfold cret. destruct (pools_update (sl_pools st1) page.1 po (mk_pool (u32 (po_used po + 1)) (po_next po)) Hpo) as [Hsz Hdom].
  unfold page_next in Hn. rewrite Epg in Hn. simpl in Hn. injection Hn as <-.
  assert (∀ p : paddr, p ∈ (page :: U) ++ P1 ↔ p ∈ U ++ page :: P1) as Hel by set_solver.
  eexists _, page, P1. split; [done|]. split_and!; try done. split; cbn [set_pools set_pager sl_pages sl_pager sl_pools set_free pg_p pg_pool_count].
  - done.
  - eapply NoDup_Permutation_proper; [|exact Hnd]. cbn. by rewrite Permutation_middle.
  - intros p Hin%Hel. cbn [pa_pool] in *. rewrite Hsz. by apply Hpool.
  - intros i. cbn [pa_pool]. rewrite Hdom, Hsz. apply Hpools.
  - done.
Qed.

Lemma sagrow_ok st U P : pager_ok st U P → llist (page_next (sl_pages st)) (sa_pu (sl_s st)) U →
  ∃ st' page P', ss_sagrow true st = Some (0, st') ∧ pager_ok st' (page :: U) P' ∧
    llist (page_next (sl_pages st')) (Some page) (page :: U) ∧ sl_chunks st' = sl_chunks st ∧
    pg_page_size (sl_pager st') = pg_page_size (sl_pager st) ∧
    sl_s st' = (let s := sl_s st in mk_sssa (sa_chunk_max s) (sa_chunk_count s) 0 (sa_chunk_size s) (sa_chunk s) (Some page)).
Proof.
  intros Hok Hl. destruct (pagerpop_ok st U P Hok) as (st1 & page & P1 & E & Hok1 & R1 & R2 & R3 & R4).
  unfold ss_sagrow. unfold cbind at 1. rewrite E. destruct Hok1 as [Hf Hnd Hpool Hpools Hcnt].
  destruct (Hpool page) as (n & Epg & Hlt); [set_solver|]. unfold cbind at 1, cread at 1. rewrite Epg.
  unfold cbind at 1, modify at 1. unfold cbind at 1, modify at 1. unfold cret.
  eexists _, page, P1. split; [done|]. cbn [app] in Hnd. apply NoDup_cons in Hnd as [Hnin Hnd].
  split_and!; try done; cbn [set_s set_pages sl_s sl_pages sl_chunks sl_pager sl_pools pa_pool].
  - split; cbn [set_s set_pages sl_s sl_pages sl_chunks sl_pager sl_pools].
    + eapply llist_ext; [|exact Hf]. intros x Hx. unfold page_next. rewrite lookup_insert_ne; [done|]. set_solver.
    + cbn. by constructor.
    + intros p Hp. destruct (decide (p = page)) as [->|].
      * rewrite lookup_insert_eq. eauto.
      * rewrite lookup_insert_ne by done. by apply Hpool.
    + done.
    + done.
  - split; [done|]. exists (sa_pu (sl_s st)). unfold page_next at 1. rewrite lookup_insert_eq, R1. split; [done|].
    eapply llist_ext; [|exact Hl]. intros x Hx. unfold page_next. rewrite lookup_insert_ne by set_solver. by rewrite R4.
  - by rewrite R1.
Qed.

(** ** Chunks *)

(** Chunks at different places do not overlap. *)
Lemma chunk_apart s U c d : 0 < chunk_stride s → chunk_at s U c → chunk_at s U d → c ≠ d → c.1 = d.1 →
  c.2 + chunk_stride s <= d.2 ∨ d.2 + chunk_stride s <= c.2.
Proof.
  intros Hs (k & Ec & _) (j & Ed & _) Hne E1. destruct c as [p x], d as [q y]. simpl in *. subst.
  destruct (decide (k = j)) as [->|]; [done|]. nia.
Qed.

(** A new page to cut. *)
Lemma room_ok st A U P : slab_ok st A [] U P → ∃ st' U' P', ss_sagrow true st = Some (0, st') ∧
  slab_ok st' A [] U' P' ∧ sa_chunk_used (sl_s st') = 0 ∧ sa_chunk_count (sl_s st') = sa_chunk_count (sl_s st).
Proof.
  intros [Hpg Hu Hc Hnd Hat Hne Hmax Hsz Hcnt Hcs Hps].
  destruct (sagrow_ok st U P Hpg Hu) as (st1 & page & P1 & E & Hpg1 & Hu1 & R1 & R2 & R3).
  exists st1, (page :: U), P1. rewrite R3. split_and!; try done.
  pose proof (go_nodup _ _ _ Hpg1) as Hn. cbn in Hn. apply NoDup_cons in Hn as [Hn _].
  split; rewrite ?R1, ?R2, ?R3; unfold chunk_stride in *;
    cbn [sa_pu sa_chunk sa_chunk_used sa_chunk_max sa_chunk_count sa_chunk_size] in *; try done.
  - intros c Hcin. destruct (Hat c Hcin) as (k & E1 & Hk & Hp & _). exists k. unfold chunk_stride.
    cbn [sa_chunk_size sa_chunk_max sa_chunk_used head]. split_and!; [done|lia|lia|set_solver|].
    intros [= ->]. exfalso. set_solver.
  - lia.
Qed.
Lemma u32_succ n : u32 (u32 (Z.of_nat n) + 1) = u32 (Z.of_nat (S n)).
Proof. unfold wrap. rewrite Zplus_mod_idemp_l. f_equal. lia. Qed.

(** The next chunk of the page being cut. *)
Definition bump (st : slabst) (pu : paddr) : slabst :=
  let s := sl_s st in
  set_chunks (<[(pu, sizeof_sspage + sa_chunk_used s * chunk_stride s) := None]> (sl_chunks st))
    (set_s (mk_sssa (sa_chunk_max s) (u32 (sa_chunk_count s + 1)) (u32 (sa_chunk_used s + 1)) (sa_chunk_size s) (sa_chunk s) (sa_pu s)) st).
Lemma bump_ok st A U P pu : slab_ok st A [] (pu :: U) P → sa_chunk_used (sl_s st) < sa_chunk_max (sl_s st) →
  slab_ok (bump st pu) ((pu, sizeof_sspage + sa_chunk_used (sl_s st) * chunk_stride (sl_s st)) :: A) [] (pu :: U) P.
Proof.
  intros [Hpg Hu Hc Hnd Hat Hne Hmax Hsz Hcnt Hcs Hps] Hroom.
  assert (u32 (sa_chunk_used (sl_s st) + 1) = sa_chunk_used (sl_s st) + 1) as Ew by (apply wrap_id; unfold in_u; lia).
  split; unfold bump, chunk_stride in *; cbn [set_chunks set_s sl_s sl_chunks sl_pages sl_pager sl_pools sa_chunk_max sa_chunk_count sa_chunk_used sa_chunk_size sa_chunk sa_pu] in *;
    rewrite ?Ew; try done.
  - by destruct Hpg.
  - rewrite app_nil_r in *. constructor; [|done]. intros Hin.
    destruct (Hat _ Hin) as (k & E & Hk & _ & Hhead). unfold chunk_stride in *. cbn in E, Hhead. specialize (Hhead eq_refl). nia.
  - intros c Hcin. rewrite app_nil_r in *. apply elem_of_cons in Hcin as [->|Hcin].
    + exists (sa_chunk_used (sl_s st)). unfold chunk_stride. cbn. split_and!; [done|lia|lia|set_solver|lia].
    + destruct (Hat c Hcin) as (k & E & Hk & Hp & Hhead). exists k. unfold chunk_stride. cbn. split_and!; [done|lia|lia|done|].
      intros H. specialize (Hhead H). lia.
  - lia.
  - rewrite Hcnt. apply u32_succ.
Qed.

Lemma slabamalloc_ok st A F U P : slab_ok st A F U P → ∃ st' c F' U' P',
  ss_slabamalloc true st = Some (Some c, st') ∧ slab_ok st' (c :: A) F' U' P'.
Proof.
  intros Hok. unfold ss_slabamalloc. unfold cbind at 1, cget at 1. destruct F as [|c F].
  - rewrite (so_chunks _ _ _ _ _ Hok).
    assert (∃ st1 U1 P1, (if Z.eqb (sa_chunk_used (sl_s st)) (sa_chunk_max (sl_s st)) then ss_sagrow true else cret 0) st = Some (0, st1) ∧
      slab_ok st1 A [] U1 P1 ∧ sa_chunk_used (sl_s st1) < sa_chunk_max (sl_s st1)) as (st1 & U1 & P1 & E1 & Hok1 & Hroom).
    { destruct (so_max _ _ _ _ _ Hok) as (H1 & H2 & _).
      destruct (Z.eqb_spec (sa_chunk_used (sl_s st)) (sa_chunk_max (sl_s st))) as [Eu|Nu]; [|exists st, U, P; split_and!; [done|done|lia]].
      destruct (room_ok st A U P Hok) as (st1 & U1 & P1 & E & Hok1 & E0 & _). exists st1, U1, P1. split_and!; [done|done|].
      destruct (so_max _ _ _ _ _ Hok1) as (_ & H3 & _). lia. }
    unfold cbind at 1. rewrite E1. cbn [Z.eqb]. unfold cbind at 1, cget at 1.
    destruct U1 as [|pu U1]; [by destruct (so_pu _ _ _ _ _ Hok1)|]. pose proof (so_used _ _ _ _ _ Hok1) as [Hpu _].
    unfold cbind at 1, cread at 1. rewrite Hpu. unfold cbind, modify, cret. rewrite <- Hpu.
    eexists _, _, [], (pu :: U1), P1. split; [done|]. exact (bump_ok st1 A U1 P1 pu Hok1 Hroom).
  - destruct Hok as [Hpg Hu Hc Hnd Hat Hne Hmax Hsz Hcnt Hcs Hps]. destruct Hc as (Hc & n & Hn & Hl). rewrite Hc.
    unfold cbind, cread, modify, cret. rewrite Hn. eexists _, c, F, U, P. split; [done|].
    assert (NoDup (c :: A ++ F)) as Hnd' by (eapply NoDup_Permutation_proper; [|exact Hnd]; by rewrite Permutation_middle).
    split; cbn [set_chunks set_s sl_s sl_chunks sl_pages sl_pager sl_pools sa_chunk_max sa_chunk_count sa_chunk_used sa_chunk_size sa_chunk sa_pu];
      unfold chunk_stride in *; cbn [sa_chunk_size]; try done.
    + by destruct Hpg.
    + eapply llist_ext; [|exact Hl]. intros x Hx. cbn. rewrite lookup_insert_ne; [done|].
      intros ->. apply NoDup_cons in Hnd' as [Hnin _]. set_solver.
    + intros d Hd. apply Hat. set_solver.
    + rewrite Hcnt. apply u32_succ.
Qed.

Lemma slabafree_ok st A1 c A2 F U P : slab_ok st (A1 ++ c :: A2) F U P → ∃ st',
  ss_slabafree c st = Some ((), st') ∧ slab_ok st' (A1 ++ A2) (c :: F) U P.
Proof.
  intros [Hpg Hu Hc Hnd Hat Hne Hmax Hsz Hcnt Hcs Hps]. eexists. split; [done|].
  assert (NoDup (c :: (A1 ++ A2) ++ F)) as Hnd'.
  { eapply NoDup_Permutation_proper; [|exact Hnd]. rewrite <- !app_assoc. cbn. by rewrite Permutation_middle. }
  split; cbn [set_chunks set_s sl_s sl_chunks sl_pages sl_pager sl_pools sa_chunk_max sa_chunk_count sa_chunk_used sa_chunk_size sa_chunk sa_pu];
    unfold chunk_stride in *; cbn [sa_chunk_size]; try done.
  - by destruct Hpg.
  - split; [done|]. exists (sa_chunk (sl_s st)). rewrite lookup_insert_eq. split; [done|].
    eapply llist_ext; [|exact Hc]. intros x Hx. cbn. rewrite lookup_insert_ne; [done|].
    intros ->. apply NoDup_cons in Hnd' as [Hnin _]. set_solver.
  - eapply NoDup_Permutation_proper; [|exact Hnd']. by rewrite Permutation_middle.
  - intros d Hd. apply Hat. set_solver.
  - rewrite Hcnt, !length_app. cbn [length]. unfold wrap. rewrite Zminus_mod_idemp_l. f_equal. lia.
Qed.

(** ** Opening and closing *)

Lemma slabaopen_ok st P : pager_ok st [] P → 0 < cs → pg_page_size (sl_pager st) = ps →
  sizeof_sssachunk + cs + sizeof_sspage <= ps < 2 ^ 32 →
  ∃ st' pu P', ss_slabaopen cs true st = Some (0, st') ∧ slab_ok st' [] [] [pu] P'.
Proof.
  intros Hpg Hcs Hps Hsz. unfold ss_slabaopen. unfold cbind at 1, cget at 1. unfold cbind at 1, cassert at 1.
  assert (Z.ltb 0 (sizeof_sssachunk + cs) = true) as -> by (apply Z.ltb_lt; unfold sizeof_sssachunk; lia).
  rewrite Hps. unfold cbind at 1, modify at 1. set (st1 := set_s _ st).
  assert (pager_ok st1 [] P) as Hpg1 by (by destruct Hpg).
  destruct (sagrow_ok st1 [] P Hpg1 eq_refl) as (st2 & page & P2 & E & Hpg2 & Hu2 & R1 & R2 & R3).
  unfold cbind. rewrite E. cbn [Z.eqb cret]. exists st2, page, P2. split; [done|].
  set (max := (ps - sizeof_sspage) / (sizeof_sssachunk + cs)) in *.
  assert (0 < sizeof_sssachunk + cs) as Hst by (unfold sizeof_sssachunk; lia).
  assert (1 <= max) as Hm1 by (unfold max; apply Z.div_le_lower_bound; lia).
  assert (max * (sizeof_sssachunk + cs) <= ps - sizeof_sspage) as Hm2.
  { unfold max. rewrite Z.mul_comm. apply Z.mul_div_le. lia. }
  split; rewrite ?R1, ?R2, ?R3; unfold chunk_stride; cbn [sa_pu sa_chunk sa_chunk_used sa_chunk_max sa_chunk_count sa_chunk_size st1 set_s sl_s sl_pager sl_chunks]; rewrite ?Hps; try done.
  - by constructor.
  - intros c Hc. by apply not_elem_of_nil in Hc.
  - fold max. unfold sizeof_sspage, sizeof_sssachunk in *. nia.
  - fold max. unfold sizeof_sspage, sizeof_sssachunk in *. nia.
Qed.
End fixed.

(** * Runs

    The states an allocator goes through from a fresh pager on, with the chunks that are in
    use; chunks are freed in any order. *)
Definition fresh_pager (pool_count page_size : Z) : slabst :=
  mk_slab (mk_sssa 0 0 0 0 None None) (ss_pagerinit pool_count page_size) ∅ ∅ ∅.
Inductive slab_reach (pool_count page_size chunk_size : Z) : slabst → list caddr → Prop :=
  | reach_open st : ss_slabaopen chunk_size true (fresh_pager pool_count page_size) = Some (0, st) →
      slab_reach pool_count page_size chunk_size st []
  | reach_malloc st A c st' : slab_reach pool_count page_size chunk_size st A →
      ss_slabamalloc true st = Some (Some c, st') → slab_reach pool_count page_size chunk_size st' (c :: A)
  | reach_free st A1 c A2 st' : slab_reach pool_count page_size chunk_size st (A1 ++ c :: A2) →
      ss_slabafree c st = Some ((), st') → slab_reach pool_count page_size chunk_size st' (A1 ++ A2).

(** A page holds at least one chunk and sizes fit their 32 bits. *)
Definition sizes_fit (pool_count page_size chunk_size : Z) : Prop :=
  0 < pool_count ∧ 0 < chunk_size ∧ sizeof_sssachunk + chunk_size <= page_size ∧ sizeof_sspage + page_size < 2 ^ 32.

Lemma fresh_pager_ok pool_count page_size : 0 < pool_count → pager_ok (fresh_pager pool_count page_size) [] [].
Proof.
  intros Hp. split; cbn; try done; [by constructor|set_solver|].
  intros i. rewrite lookup_empty, map_size_empty. split; [intros [? ?]; done|lia].
Qed.
Lemma slab_reach_ok pc ps cs st A : sizes_fit pc ps cs → slab_reach pc ps cs st A →
  ∃ F U P, slab_ok cs (sizeof_sspage + ps) st A F U P.
Proof.
  intros (Hpc & Hcs & Hfit & H32) Hr. induction Hr as [st E|st A c st' Hr IH E|st A1 c A2 st' Hr IH E].
  - assert (u32 (sizeof_sspage + ps) = sizeof_sspage + ps) as Ew.
    { apply wrap_id. unfold in_u, sizeof_sspage, sizeof_sssachunk in *. lia. }
    destruct (slabaopen_ok cs (sizeof_sspage + ps) _ _ (fresh_pager_ok pc ps Hpc) Hcs) as (st1 & pu & P & E1 & Hok); [done|lia|].
    rewrite E in E1. simplify_eq. by exists [], [pu], P.
  - destruct IH as (F & U & P & Hok). destruct (slabamalloc_ok _ _ _ _ _ _ _ Hok) as (st1 & c1 & F1 & U1 & P1 & E1 & Hok1).
    rewrite E in E1. simplify_eq. by eauto.
  - destruct IH as (F & U & P & Hok). destruct (slabafree_ok _ _ _ _ _ _ _ _ _ Hok) as (st1 & E1 & Hok1).
    rewrite E in E1. simplify_eq. by eauto.
Qed.


(** ** Witness: three allocations and a release in pages of two chunks *)
Definition state_of {A} (r : option (A * slabst)) : slabst := from_option snd (fresh_pager 2 40) r.
Definition demo_slab0 : slabst := state_of (ss_slabaopen 8 true (fresh_pager 2 40)).
Definition demo_slab1 : slabst := state_of (ss_slabamalloc true demo_slab0).
Definition demo_slab2 : slabst := state_of (ss_slabamalloc true demo_slab1).
Definition demo_slab3 : slabst := state_of (ss_slabamalloc true demo_slab2).
Definition demo_slab4 : slabst := state_of (ss_slabafree ((0, 0)%nat, 32) demo_slab3).
Lemma demo_slab_reach : slab_reach 2 40 8 demo_slab4 [((0, 1)%nat, 16); ((0, 0)%nat, 16)].
Proof.
  apply (reach_free 2 40 8 demo_slab3 [((0, 1)%nat, 16)] ((0, 0)%nat, 32) [((0, 0)%nat, 16)]); [|by vm_compute].
  apply (reach_malloc 2 40 8 demo_slab2); [|by vm_compute].
  apply (reach_malloc 2 40 8 demo_slab1); [|by vm_compute].
  apply (reach_malloc 2 40 8 demo_slab0); [|by vm_compute].
  apply reach_open. by vm_compute.
Qed.
