(* ===== verification/SsHt.v ===== *)
(** The open-addressing hash table of ss_ht.h. *)
From stdpp Require Import base list sets gmap.
From S2P Require Import Prelude Sv SsBytes SsBuf.
Local Open Scope Z_scope.
Local Open Scope c_scope.

(** * Model *)

(** [struct ssht]: the slots, the number of nodes and the number of slots.  A node is any
    type with a hash (the C nodes embed [struct sshtnode]). *)
Record ssht {N : Type} := mk_ht { t_i : list (option N); t_count : Z; t_size : nat }.
Arguments ssht : clear implicits.
Arguments mk_ht {N} _ _ _.

Section ops.
Context {N : Type} (hash : N → Z) `{Alloc}.

(** Answers -1 and a table without slots when there is no memory for them. *)
Definition ss_htinit (size : nat) : Z * ssht N :=
  match ss_malloc (size * 8) with
  | None => (-1, mk_ht [] 0 size)
  | Some _ => (0, mk_ht (replicate size None) 0 size)
  end.
Definition ss_htfree (t : ssht N) : ssht N := mk_ht [] (t_count t) (t_size t).
Definition ss_htreset (t : ssht N) : ssht N := mk_ht (replicate (t_size t) None) 0 (t_size t).
Definition ss_htisfull (t : ssht N) : bool := Z.gtb (t_count t) (Z.of_nat (t_size t / 2)).

(** [pos = hash % t->size] *)
Definition home (t : ssht N) (h : Z) : nat := (Z.to_nat h mod t_size t)%nat.
Definition succ_pos (t : ssht N) (pos : nat) : nat := ((pos + 1) mod t_size t)%nat.

(** The loop of the macro [ss_htsearch]; [compare] is its condition on the node of a slot. *)
Definition htsearch_turn (compare : N → bool) (pos : nat) : cmd (ssht N) (nat + nat) :=
  let! t := cget in
  let! slot := cread (λ t, t_i t !! pos) in
  cret (match slot with
        | Some n => if compare n then inr pos else inl (succ_pos t pos)
        | None => inr pos
        end).
(** A turn per slot: more would visit a slot twice, which the C code does forever. *)
Definition ss_htsearch (compare : N → bool) (h : Z) : cmd (ssht N) nat := λ t,
  cloop (t_size t) (htsearch_turn compare) (home t h) t.

Definition htplace_turn (pos : nat) : cmd (ssht N) (nat + nat) :=
  let! t := cget in
  let! slot := cread (λ t, t_i t !! pos) in
  cret (match slot with Some _ => inl (succ_pos t pos) | None => inr pos end).
Definition ss_htplace (node : N) : cmd (ssht N) nat := λ t,
  cloop (t_size t) htplace_turn (home t (hash node)) t.

(** A slot is written; outside of the table is a fault. *)
Definition put_slot (pos : nat) (n : N) : cmd (ssht N) () := λ t,
  if decide (pos < length (t_i t))%nat
  then Some ((), mk_ht (<[pos := Some n]> (t_i t)) (t_count t) (t_size t)) else None.
Definition ss_htset (pos : nat) (node : N) : cmd (ssht N) () :=
  let! slot := cread (λ t, t_i t !! pos) in
  cwhen (match slot with None => true | Some _ => false end)
    (λ t, Some ((), mk_ht (t_i t) (t_count t + 1) (t_size t)));;;
  put_slot pos node.

(** Every node of the old slots, in their order, is placed into the new table. *)
Fixpoint htresize_loop (slots : list (option N)) : cmd (ssht N) () :=
  match slots with
  | [] => cret ()
  | None :: slots => htresize_loop slots
  | Some n :: slots =>
      let! pos := ss_htplace n in
      put_slot pos n;;;
      htresize_loop slots
  end.
Definition ss_htresize : cmd (ssht N) Z :=
  let! t := cget in
  let! size := c_int (Z.of_nat (t_size t) * 2) in
  let '(rc, nt) := ss_htinit (Z.to_nat size) in
  if Z.eqb rc (-1) then cret (-1) else
  match htresize_loop (t_i t) nt with
  | None => cfail
  | Some (_, nt) => cput (mk_ht (t_i nt) (t_count t) (t_size nt));;; cret 0
  end.

(** * The invariant *)

Definition nodes_of (t : ssht N) : list N := omap id (t_i t).

(** The slot [k] steps from the home of [h]. *)
Definition probe (t : ssht N) (h : Z) (k : nat) : nat := ((Z.to_nat h + k) mod t_size t)%nat.
Definition full_at (t : ssht N) (pos : nat) : Prop := ∃ n, t_i t !! pos = Some (Some n).
(** Every node is reached from its home over occupied slots. *)
Definition reachable (t : ssht N) : Prop := ∀ pos n, t_i t !! pos = Some (Some n) →
  ∃ k, (k < t_size t)%nat ∧ pos = probe t (hash n) k ∧ ∀ j, (j < k)%nat → full_at t (probe t (hash n) j).

Record ht_ok (t : ssht N) : Prop := mk_ht_ok {
  ho_len : length (t_i t) = t_size t;
  ho_pos : (0 < t_size t)%nat;
  ho_reach : reachable t
}.

(** The part of it that does not speak of the nodes. *)
Definition ht_dim (t : ssht N) : Prop := length (t_i t) = t_size t ∧ (0 < t_size t)%nat.
Lemma ht_ok_dim t : ht_ok t → ht_dim t.
Proof. by intros [Hl Hs _]. Qed.

(** * Probing *)

Lemma probe_home t h : home t h = probe t h 0.
Proof. unfold home, probe. by rewrite Nat.add_0_r. Qed.
Lemma probe_succ t h k : (0 < t_size t)%nat → succ_pos t (probe t h k) = probe t h (S k).
Proof.
  intros Hs. unfold succ_pos, probe. rewrite Nat.Div0.add_mod_idemp_l.
  by rewrite <- Nat.add_assoc, Nat.add_1_r.
Qed.
Lemma probe_lt t h k : (0 < t_size t)%nat → (probe t h k < t_size t)%nat.
Proof. intros Hs. apply Nat.mod_upper_bound. clear -Hs. lia. Qed.
(** Every slot is reached from every home within a turn around. *)
Lemma probe_onto t h pos : (pos < t_size t)%nat → ∃ k, (k < t_size t)%nat ∧ pos = probe t h k.
Proof.
  intros Hpos. set (a := (Z.to_nat h mod t_size t)%nat).
  assert (a < t_size t)%nat by (apply Nat.mod_upper_bound; lia).
  assert (∀ k, probe t h k = (a + k) mod t_size t)%nat as Hp.
  { intros k. unfold probe, a. by rewrite Nat.Div0.add_mod_idemp_l. }
  destruct (decide (a <= pos)%nat).
  - exists (pos - a)%nat. split; [lia|]. rewrite Hp, Nat.mod_small; lia.
  - exists (pos + t_size t - a)%nat. split; [lia|]. rewrite Hp.
    replace (a + (pos + t_size t - a))%nat with (pos + 1 * t_size t)%nat by lia.
    rewrite Nat.Div0.mod_add, Nat.mod_small; lia.
Qed.

(** A table with fewer nodes than slots has an empty slot. *)
Lemma empty_slot (l : list (option N)) : (length (omap id l) < length l)%nat → ∃ pos, l !! pos = Some None.
Proof.
  induction l as [|[n|] l IH]; csimpl; intros Hl; [lia| |by exists O].
  destruct IH as [pos Hpos]; [lia|]. by exists (S pos).
Qed.
Definition room (t : ssht N) : Prop := (length (nodes_of t) < t_size t)%nat.
Lemma room_probe t h : ht_dim t → room t → ∃ k, (k < t_size t)%nat ∧ t_i t !! probe t h k = Some None.
Proof.
  intros [Hl Hs] Hr. destruct (empty_slot (t_i t)) as [pos Hpos]; [unfold room, nodes_of in Hr; lia|].
  destruct (probe_onto t h pos) as (k & Hk & ->); [|by exists k].
  rewrite <- Hl. by eapply lookup_lt_Some.
Qed.

(** The search stops at the first slot that is empty or matches. *)
Definition stops (compare : N → bool) (slot : option N) : bool :=
  match slot with Some n => compare n | None => true end.
Lemma search_run compare t h : ht_dim t → room t → ∃ k slot, (k < t_size t)%nat ∧
  ss_htsearch compare h t = Some (probe t h k, t) ∧
  t_i t !! probe t h k = Some slot ∧ stops compare slot = true ∧
  ∀ j, (j < k)%nat → ∃ n, t_i t !! probe t h j = Some (Some n) ∧ compare n = false.
Proof.
  intros Hok Hr. destruct (room_probe t h Hok Hr) as (m & Hm & Hem). destruct Hok as [Hl Hs].
  unfold ss_htsearch. rewrite probe_home.
  assert (∀ fuel i, (i + fuel = t_size t)%nat → (i <= m)%nat → ∃ k slot, (k < t_size t)%nat ∧ (i <= k)%nat ∧
    cloop fuel (htsearch_turn compare) (probe t h i) t = Some (probe t h k, t) ∧
    t_i t !! probe t h k = Some slot ∧ stops compare slot = true ∧
    ∀ j, (i <= j < k)%nat → ∃ n, t_i t !! probe t h j = Some (Some n) ∧ compare n = false) as Hrun.
  { intros fuel. induction fuel as [|fuel IH]; intros i Hi Him; [lia|].
    destruct (lookup_lt_is_Some_2 (t_i t) (probe t h i)) as [slot Hslot]; [rewrite Hl; by apply probe_lt|].
    rewrite cloop_S. unfold htsearch_turn at 1, cbind, cget, cread, cret. rewrite Hslot.
    destruct (stops compare slot) eqn:Est.
    - exists i, slot. split_and!; [lia|lia| |done|done|lia].
      destruct slot as [n|]; simpl in Est; [by rewrite Est|done].
    - destruct slot as [n|]; simpl in Est; [|done]. rewrite Est, probe_succ by done.
      assert (i ≠ m) by (intros ->; congruence).
      destruct (IH (S i)) as (k & slot & Hk & Hik & E & Hsl & Hst & Hj); [lia|lia|].
      exists k, slot. split_and!; [lia|lia|done|done|done|]. intros j Hjk.
      destruct (decide (j = i)) as [->|]; [by exists n|]. apply Hj. lia. }
  destruct (Hrun (t_size t) O) as (k & slot & Hk & _ & E & Hsl & Hst & Hj); [lia|lia|].
  exists k, slot. split_and!; try done. intros j Hjk. apply Hj. lia.
Qed.

(** [ss_htplace] is a search that matches nothing. *)
Lemma place_search n t : ss_htplace n t = ss_htsearch (λ _, false) (hash n) t.
Proof.
  unfold ss_htplace, ss_htsearch. generalize (t_size t) at 1 2; intros fuel. generalize (home t (hash n)).
  induction fuel as [|fuel IH]; intros pos; [done|]. rewrite !cloop_S.
  unfold htplace_turn at 1, htsearch_turn at 1, cbind, cget, cread, cret.
  destruct (t_i t !! pos) as [[x|]|]; [apply IH|done|done].
Qed.

(** * Writing a slot *)

Lemma nodes_insert (l : list (option N)) pos (n : N) : l !! pos = Some None →
  omap id (<[pos := Some n]> l) ≡ₚ n :: omap id l.
Proof.
  intros (l1 & l2 & -> & _ & ->)%split_at. rewrite !omap_app. csimpl. by rewrite Permutation_middle.
Qed.
Lemma node_elem t n : n ∈ nodes_of t ↔ ∃ pos, t_i t !! pos = Some (Some n).
Proof.
  unfold nodes_of. rewrite list_elem_of_omap. split.
  - intros (x & Hx & [= ->]). by apply list_elem_of_lookup in Hx.
  - intros [pos Hpos]. exists (Some n). split; [|done]. by eapply list_elem_of_lookup_2.
Qed.

(** Writing the first free slot on the way from its home keeps every node reachable; so does
    replacing a node by one with the same hash. *)
Definition put (t : ssht N) (pos : nat) (n : N) : ssht N := mk_ht (<[pos := Some n]> (t_i t)) (t_count t) (t_size t).
Lemma put_ok t k n slot : ht_ok t → (k < t_size t)%nat → t_i t !! probe t (hash n) k = Some slot →
  (∀ j, (j < k)%nat → full_at t (probe t (hash n) j)) → ht_ok (put t (probe t (hash n) k) n).
Proof.
  intros [Hl Hs Hre] Hk Hslot Hpath. split; simpl; [by rewrite length_insert|done|].
  assert (∀ p, full_at t p → full_at (put t (probe t (hash n) k) n) p) as Hfull.
  { intros p [x Hx]. unfold full_at. simpl. destruct (decide (p = probe t (hash n) k)) as [->|].
    - exists n. apply list_lookup_insert_eq. by eapply lookup_lt_Some.
    - exists x. by rewrite list_lookup_insert_ne. }
  intros pos x Hx. simpl in Hx. destruct (decide (pos = probe t (hash n) k)) as [->|Hne].
  - rewrite list_lookup_insert_eq in Hx by (by eapply lookup_lt_Some). simplify_eq.
    exists k. split_and!; [done|done|]. intros j Hj. apply Hfull, Hpath, Hj.
  - rewrite list_lookup_insert_ne in Hx by done. destruct (Hre pos x Hx) as (k' & Hk' & E & Hp).
    exists k'. split_and!; [done|done|]. intros j Hj. apply Hfull, Hp, Hj.
Qed.
Lemma put_slot_run t pos n slot : t_i t !! pos = Some slot → put_slot pos n t = Some ((), put t pos n).
Proof. intros Hs%lookup_lt_Some. unfold put_slot. by rewrite decide_True. Qed.

(** The whole content is placed. *)
Lemma resize_loop_ok slots t : ht_ok t → (length (nodes_of t) + length (omap id slots) < t_size t)%nat →
  ∃ t', htresize_loop slots t = Some ((), t') ∧ ht_ok t' ∧ t_size t' = t_size t ∧
    nodes_of t' ≡ₚ omap id slots ++ nodes_of t.
Proof.
  revert t. induction slots as [|[n|] slots IH]; intros t Hok Hroom; csimpl in *; cbn [htresize_loop].
  - by exists t.
  - unfold cbind. rewrite place_search.
    destruct (search_run (λ _, false) t (hash n) (ht_ok_dim t Hok)) as (k & slot & Hk & E & Hsl & Hst & Hj); [unfold room; lia|].
    rewrite E, (put_slot_run _ _ _ _ Hsl). destruct slot; [done|].
    assert (nodes_of (put t (probe t (hash n) k) n) ≡ₚ n :: nodes_of t) as Hn by (by apply nodes_insert).
    destruct (IH (put t (probe t (hash n) k) n)) as (t' & E' & Hok' & Hs' & Hn').
    + eapply put_ok; [done|done|done|]. intros j Hjk. destruct (Hj j Hjk) as (x & Hx & _). by exists x.
    + rewrite Hn. csimpl. lia.
    + exists t'. split_and!; [done|done|done|]. rewrite Hn', Hn. by rewrite Permutation_middle.
  - by apply IH.
Qed.
Lemma init_ok size : (0 < size)%nat → ht_ok (mk_ht (replicate size None) 0 size).
Proof.
  intros Hs. split; simpl; [apply length_replicate|done|].
  intros pos n Hn. simpl in Hn. by apply lookup_replicate in Hn as [? _].
Qed.
Lemma nodes_init size : nodes_of (mk_ht (replicate size None) 0 size) = [].
Proof. unfold nodes_of. simpl. by induction size. Qed.
End ops.

(** * Correctness *)

Section correct.
Context {N : Type} (hash : N → Z).

Lemma htset_ok (t : ssht N) pos slot n : t_i t !! pos = Some slot →
  ss_htset pos n t = Some ((), mk_ht (<[pos := Some n]> (t_i t))
    (match slot with None => t_count t + 1 | Some _ => t_count t end) (t_size t)).
Proof.
  intros Hs. unfold ss_htset, cbind, cread. rewrite Hs. pose proof (lookup_lt_Some _ _ _ Hs).
  destruct slot; simpl; unfold put_slot, cret; simpl; by rewrite decide_True.
Qed.
(** The counter takes no part in the invariant. *)
Lemma ht_ok_count (t : ssht N) c : ht_ok hash t → ht_ok hash (mk_ht (t_i t) c (t_size t)).
Proof. by intros [Hl Hs Hr]; split. Qed.
Lemma nodes_replace (l : list (option N)) pos (o n : N) : l !! pos = Some (Some o) →
  o :: omap id (<[pos := Some n]> l) ≡ₚ n :: omap id l.
Proof.
  intros (l1 & l2 & -> & _ & ->)%split_at. rewrite !omap_app. csimpl. solve_Permutation.
Qed.

(** Where the search stopped at an empty slot no node of the table matches. *)
Lemma search_absent compare (t : ssht N) h k : ht_ok hash t → (∀ n, compare n = true → hash n = h) →
  t_i t !! probe t h k = Some None →
  (∀ j, (j < k)%nat → ∃ n, t_i t !! probe t h j = Some (Some n) ∧ compare n = false) →
  ∀ n, n ∈ nodes_of t → compare n = false.
Proof.
  intros Hok Hc Hem Hj n [pos Hn]%node_elem. destruct (compare n) eqn:En; [exfalso|done].
  destruct Hok as [_ _ Hre]. destruct (Hre pos n Hn) as (k' & _ & -> & Hfull).
  rewrite (Hc n En) in *. destruct (lt_eq_lt_dec k' k) as [[Hlt| ->]|Hgt].
  - destruct (Hj k' Hlt) as (x & Hx & Ex). congruence.
  - congruence.
  - destruct (Hfull k Hgt) as [x Hx]. congruence.
Qed.
End correct.

(** In a table with an empty slot a search terminates.  It answers the slot of a matching
    node if the table has one, and else an empty slot; storing a node with the searched hash
    there adds it (or replaces the one found), counts it, and keeps every node of the table
    to be found. *)
Theorem ss_ht_search_insert {N} (hash : N → Z) (t : ssht N) compare h :
  ht_ok hash t → room t → (∀ n, compare n = true → hash n = h) →
  ∃ pos slot, ss_htsearch compare h t = Some (pos, t) ∧ t_i t !! pos = Some slot ∧
    match slot with
    | Some n => compare n = true
    | None => ∀ n, n ∈ nodes_of t → compare n = false
    end ∧
    ∀ n, hash n = h → ∃ t', ss_htset pos n t = Some ((), t') ∧ ht_ok hash t' ∧
      match slot with
      | Some o => o :: nodes_of t' ≡ₚ n :: nodes_of t ∧ t_count t' = t_count t
      | None => nodes_of t' ≡ₚ n :: nodes_of t ∧ t_count t' = t_count t + 1
      end.
Proof.
  intros Hok Hr Hc. destruct (search_run compare t h (ht_ok_dim hash t Hok) Hr) as (k & slot & Hk & E & Hsl & Hst & Hj).
  exists (probe t h k), slot. split_and!; [done|done| |].
  - destruct slot as [n|]; [done|]. by eapply search_absent.
  - intros n <-. rewrite (htset_ok t _ slot n Hsl). eexists. split; [done|]. split.
    + apply (ht_ok_count hash (put t (probe t (hash n) k) n)). eapply put_ok; [done|done|done|].
      intros j Hjk. destruct (Hj j Hjk) as (x & Hx & _). by exists x.
    + destruct slot as [o|]; (split; [|done]); [by apply nodes_replace|by apply nodes_insert].
Qed.

Lemma htresize_ok {N} (hash : N → Z) `{Alloc} (t : ssht N) :
  ht_dim t → t_count t = Z.of_nat (length (nodes_of t)) → Z.of_nat (t_size t) * 2 <= INT_MAX →
  ∃ rc t', ss_htresize hash t = Some (rc, t') ∧
    ((rc = -1 ∧ t' = t ∧ ∃ n, ss_malloc n = None) ∨
     (rc = 0 ∧ ht_ok hash t' ∧ nodes_of t' ≡ₚ nodes_of t ∧ t_count t' = t_count t ∧
      t_size t' = (2 * t_size t)%nat ∧ ss_htisfull t' = false)).
Proof.
  intros Hok Hcnt Hmax. pose proof (length_omap_le id (t_i t)) as Hle. destruct (Hok) as [Hl Hs].
  unfold ss_htresize, cbind, cget, c_int, cbind, cassert, cret.
  destruct (Z.leb_spec (- INT_MAX - 1) (Z.of_nat (t_size t) * 2)); [|unfold INT_MAX in *; lia].
  destruct (Z.leb_spec (Z.of_nat (t_size t) * 2) INT_MAX); [|lia]. cbn [andb].
  set (size := Z.to_nat _). assert (size = 2 * t_size t)%nat as Hsize by lia.
  unfold ss_htinit. destruct (ss_malloc (size * 8)) as [blk|] eqn:Em; cbn [Z.eqb].
  2:{ exists (-1), t. split; [done|]. left. by eauto. }
  destruct (resize_loop_ok hash (t_i t) (mk_ht (replicate size None) 0 size)) as (t' & E & Hok' & Hs' & Hn').
  { apply init_ok. lia. }
  { rewrite nodes_init. simpl. unfold nodes_of in *. lia. }
  rewrite E. unfold cput. eexists _, _. split; [done|]. right. rewrite nodes_init, app_nil_r in Hn'. simpl in Hs'.
  split_and!; [done|by apply ht_ok_count|done|done|simpl; lia|].
  assert ((2 * t_size t) / 2 = t_size t)%nat as Ehalf by (rewrite Nat.mul_comm; by apply Nat.div_mul).
  unfold ss_htisfull. cbn [t_count t_size]. rewrite Hs', Hsize, Ehalf.
  unfold nodes_of in Hcnt. rewrite Z.gtb_ltb. apply Z.ltb_ge. lia.
Qed.

(** Resizing doubles the table, keeps its nodes and their count, leaves every node to be
    found and the table no longer full; or it reports that there was no memory and changes
    nothing.  Placing a node always terminates. *)
Theorem ss_htresize_keeps {N} (hash : N → Z) `{Alloc} (t : ssht N) :
  ht_ok hash t → t_count t = Z.of_nat (length (nodes_of t)) → Z.of_nat (t_size t) * 2 <= INT_MAX →
  ∃ rc t', ss_htresize hash t = Some (rc, t') ∧
    ((rc = -1 ∧ t' = t ∧ ∃ n, ss_malloc n = None) ∨
     (rc = 0 ∧ ht_ok hash t' ∧ nodes_of t' ≡ₚ nodes_of t ∧ t_count t' = t_count t ∧
      t_size t' = (2 * t_size t)%nat ∧ ss_htisfull t' = false)).
Proof. intros Hok%ht_ok_dim. by apply htresize_ok. Qed.

(** ** Witnesses: three nodes in four slots, two of them with one home *)
Definition demo_ht : ssht Z := mk_ht [Some 7; None; Some 2; Some 6] 3 4.
Lemma demo_ht_ok : ht_ok id demo_ht.
Proof.
  split; [done|simpl; lia|]. intros pos n Hn.
  assert (∀ j, (j < 1)%nat → j = O) as H1 by lia.
  destruct pos as [|[|[|[|pos]]]]; simpl in Hn; simplify_eq.
  - exists 1%nat. split_and!; [simpl; lia|done|]. intros j ->%H1. by exists 6.
  - exists O. split_and!; [simpl; lia|done|lia].
  - exists 1%nat. split_and!; [simpl; lia|done|]. intros j ->%H1. by exists 2.
Qed.
Lemma ss_ht_search_insert_witness : ∃ pos, ss_htsearch (Z.eqb 10) 10 demo_ht = Some (pos, demo_ht) ∧
  t_i demo_ht !! pos = Some None.
Proof.
  destruct (ss_ht_search_insert id demo_ht (Z.eqb 10) 10) as (pos & slot & E & Hs & Hm & _).
  - exact demo_ht_ok.
  - unfold room. simpl. lia.
  - intros n Hn%Z.eqb_eq. by rewrite <- Hn.
  - exists pos. split; [done|]. destruct slot as [n|]; [|done].
    apply Z.eqb_eq in Hm. subst. vm_compute in E. injection E as <-. done.
Defined.
Lemma ss_htresize_keeps_witness : ∃ t', ss_htresize (H := demo_alloc) id demo_ht = Some (0, t') ∧
  nodes_of t' ≡ₚ [7; 2; 6] ∧ ss_htisfull t' = false.
Proof.
  destruct (ss_htresize_keeps (H := demo_alloc) id demo_ht) as (rc & t' & E & [(_ & _ & n & Hn)|(-> & _ & Hp & _ & _ & Hf)]).
  - exact demo_ht_ok.
  - done.
  - unfold INT_MAX. simpl. lia.
  - done.
  - by exists t'.
Defined.
