(* ===== verification/Sf.v ===== *)
(** The layout of a row, sf.h: an array of references (offset and size of every key part)
    followed by the key parts and the value (kv), or by a document that holds the parts. *)
From stdpp Require Import base sets list.
From S2P Require Import Prelude Sv SsBytes SsBuf.
Local Open Scope Z_scope.
Local Open Scope c_scope.

(** * Model *)

(** A key part given by the user: the bytes at [key], the distance of [key] from the start of
    the value (when it lies in it) and the size in its reference. *)
Record sfv := mk_sfv { k_key : bytes; k_dist : Z; k_size : Z }.
Inductive sfstorage := SF_SKEYVALUE | SF_SRAW.
Inductive sf := SF_KV | SF_DOCUMENT.
#[export] Instance sf_eq_dec : EqDecision sf.
Proof. solve_decision. Defined.

(** [struct sfref], packed: a 32-bit offset and a 16-bit size. *)
Definition sizeof_sfref : nat := 6.
Definition sfref_enc (offset size : Z) : bytes := le_enc 4 (u32 offset) ++ le_enc 2 (u16 size).

(** Pointers into a row are offsets from its start. *)
Definition sf_key (pos : nat) (data : bytes) : option nat :=
  Z.to_nat <$> load_le (sizeof_sfref * pos) 4 data.
Definition sf_keysize (pos : nat) (data : bytes) : option nat :=
  Z.to_nat <$> load_le (sizeof_sfref * pos + 4) 2 data.
(** The bytes of a key part. *)
Definition sf_keydata (pos : nat) (data : bytes) : option bytes :=
  off ← sf_key pos data; size ← sf_keysize pos data; mem_read off size data.

Fixpoint keytotal_loop (n i : nat) (data : bytes) : option nat :=
  match n with
  | O => Some O
  | S n => size ← sf_keysize i data; total ← keytotal_loop n (S i) data; Some (size + total)%nat
  end.
Definition sf_keytotal (count : nat) (data : bytes) : option nat :=
  total ← keytotal_loop count 0 data; Some (total + sizeof_sfref * count)%nat.

(** A [memcpy] into the row under construction. *)
Definition put_at (off : nat) (bs : bytes) : cmd bytes () := λ m, pair () <$> mem_write off bs m.

Fixpoint keycopy_loop (n i offset : nat) (src : bytes) : cmd bytes nat :=
  match n with
  | O => cret offset
  | S n =>
      let! size := cread (λ _, sf_keysize i src) in
      put_at (sizeof_sfref * i) (sfref_enc (Z.of_nat offset) (Z.of_nat size));;;
      let! to := cread (sf_key i) in
      let! bs := cread (λ _, off ← sf_key i src; mem_read off size src) in
      put_at to bs;;;
      keycopy_loop n (S i) (offset + size) src
  end.
Definition sf_keycopy (src : bytes) (count : nat) : cmd bytes nat :=
  keycopy_loop count 0 (sizeof_sfref * count) src.

Definition sf_value (format : sf) (count : nat) (data : bytes) : option nat :=
  if decide (count = 0)%nat then None else
  match format with
  | SF_KV => off ← sf_key (count - 1) data; size ← sf_keysize (count - 1) data; Some (off + size)%nat
  | SF_DOCUMENT => Some (sizeof_sfref * count)%nat
  end.
Definition sf_valuesize (format : sf) (size count : nat) (data : bytes) : option Z :=
  if decide (count = 0)%nat then None else
  match format with
  | SF_KV => off ← sf_key (count - 1) data; ksize ← sf_keysize (count - 1) data;
      Some (Z.of_nat size - Z.of_nat (off + ksize))
  | SF_DOCUMENT => Some (Z.of_nat size - Z.of_nat (sizeof_sfref * count))
  end.

Definition sum_sizes (keys : list sfv) : Z := foldr (λ k s, k_size k + s) 0 keys.
Definition sf_size (format : sf) (keys : list sfv) (vsize : Z) : Z :=
  match format with
  | SF_KV => Z.of_nat (sizeof_sfref * length keys) + sum_sizes keys + vsize
  | SF_DOCUMENT => Z.of_nat (sizeof_sfref * length keys) + vsize
  end.

Fixpoint write_kv_loop (keys : list sfv) (i : nat) (offset : Z) : cmd bytes Z :=
  match keys with
  | [] => cret offset
  | k :: keys =>
      put_at (sizeof_sfref * i) (sfref_enc offset (k_size k));;;
      let! bs := cread (λ _, mem_read 0 (Z.to_nat (k_size k)) (k_key k)) in
      put_at (Z.to_nat offset) bs;;;
      write_kv_loop keys (S i) (offset + k_size k)
  end.
Fixpoint write_document_loop (keys : list sfv) (i : nat) (offset : Z) : cmd bytes () :=
  match keys with
  | [] => cret ()
  | k :: keys =>
      put_at (sizeof_sfref * i) (sfref_enc (offset + u32 (k_dist k)) (k_size k));;;
      write_document_loop keys (S i) offset
  end.
Definition sf_write (format : sf) (keys : list sfv) (v : bytes) : cmd bytes () :=
  let offset := Z.of_nat (sizeof_sfref * length keys) in
  match format with
  | SF_KV =>
      let! offset := write_kv_loop keys 0 offset in
      put_at (Z.to_nat offset) v
  | SF_DOCUMENT =>
      write_document_loop keys 0 offset;;;
      put_at (Z.to_nat offset) v
  end.

(** * What a row holds *)

Definition has_keys (data : bytes) (ks : list bytes) : Prop :=
  ∀ i k, ks !! i = Some k → sf_keydata i data = Some k.

(** The references of parts of the given sizes placed one after another from [off]. *)
Fixpoint refs (off : Z) (ks : list bytes) : bytes :=
  match ks with
  | [] => []
  | k :: ks => sfref_enc off (Z.of_nat (length k)) ++ refs (off + Z.of_nat (length k)) ks
  end.
Lemma refs_length off ks : length (refs off ks) = (sizeof_sfref * length ks)%nat.
Proof.
  revert off. induction ks as [|k ks IH]; intros off; cbn [refs length]; [lia|].
  unfold sfref_enc. rewrite !length_app, !le_enc_length, IH. unfold sizeof_sfref. lia.
Qed.
Lemma sfref_length o n : length (sfref_enc o n) = sizeof_sfref.
Proof. unfold sfref_enc. by rewrite length_app, !le_enc_length. Qed.
(** A row of parts without gaps, and a tail. *)
Definition row (ks : list bytes) (v : bytes) : bytes :=
  refs (Z.of_nat (sizeof_sfref * length ks)) ks ++ concat ks ++ v.
Definition row_size (ks : list bytes) : nat := (sizeof_sfref * length ks + length (concat ks))%nat.

(** Sizes fit their 16 bits and offsets their 32. *)
Definition fits (ks : list bytes) : Prop :=
  Forall (λ k, Z.of_nat (length k) < 65536) ks ∧ Z.of_nat (row_size ks) < 4294967296.

Lemma put_at_run l old bs r : length old = length bs →
  put_at (length l) bs (l ++ old ++ r) = Some ((), l ++ bs ++ r).
Proof.
  intros Hlen. unfold put_at, mem_write. rewrite decide_True by (rewrite !length_app; lia). simpl.
  rewrite take_app_length. rewrite (app_assoc l old r), drop_app_length' by (rewrite length_app; lia). done.
Qed.

(** A reference is read back. *)
Lemma sfref_read i o n data : mem_at data (sizeof_sfref * i) (sfref_enc o n) →
  0 <= o < 4294967296 → 0 <= n < 65536 →
  sf_key i data = Some (Z.to_nat o) ∧ sf_keysize i data = Some (Z.to_nat n).
Proof.
  intros Hat Ho Hn. unfold sfref_enc in Hat. rewrite wrap_id, wrap_id in Hat by (unfold in_u; lia).
  apply mem_at_app in Hat as [H1%mem_at_read H2%mem_at_read]. rewrite le_enc_length in *.
  rewrite le_enc_length in H2. unfold sf_key, sf_keysize, load_le. rewrite H1, H2. cbn [fmap option_fmap option_map].
  rewrite !le_dec_enc; [done| |]; simpl; lia.
Qed.
Lemma keydata_read i o k data : mem_at data (sizeof_sfref * i) (sfref_enc (Z.of_nat o) (Z.of_nat (length k))) →
  mem_at data o k → Z.of_nat o < 4294967296 → Z.of_nat (length k) < 65536 →
  sf_keydata i data = Some k ∧ sf_key i data = Some o ∧ sf_keysize i data = Some (length k).
Proof.
  intros Hat Hk Ho Hl. destruct (sfref_read _ _ _ _ Hat) as [E1 E2]; [lia|lia|]. rewrite !Nat2Z.id in *.
  unfold sf_keydata. rewrite E1, E2. simpl. by rewrite (mem_at_read _ _ _ Hk).
Qed.

Lemma refs_app off a b : refs off (a ++ b) = refs off a ++ refs (off + Z.of_nat (length (concat a))) b.
Proof.
  revert off. induction a as [|k a IH]; intros off; cbn [app refs concat length].
  - by rewrite Z.add_0_r.
  - rewrite IH, <- app_assoc, length_app. do 3 f_equal. lia.
Qed.
Lemma concat_take_le (ks1 : list bytes) k ks2 :
  (length (concat ks1) + length k <= length (concat (ks1 ++ k :: ks2)))%nat.
Proof. rewrite concat_app, length_app. simpl. rewrite length_app. lia. Qed.

(** In a row without gaps every part is read back. *)
Lemma row_part ks1 k ks2 v : let ks := ks1 ++ k :: ks2 in fits ks →
  sf_keydata (length ks1) (row ks v) = Some k ∧
  sf_key (length ks1) (row ks v) = Some (sizeof_sfref * length ks + length (concat ks1))%nat ∧
  sf_keysize (length ks1) (row ks v) = Some (length k).
Proof.
  intros ks [Hf Htot]. pose proof (concat_take_le ks1 k ks2) as Hle. fold ks in Hle. unfold row_size in Htot.
  apply keydata_read.
  - unfold row. unfold ks at 2. rewrite refs_app. cbn [refs]. rewrite <- !app_assoc.
    eexists (refs _ ks1), _. split; [|apply refs_length]. do 3 f_equal. lia.
  - exists (refs (Z.of_nat (sizeof_sfref * length ks)) ks ++ concat ks1), (concat ks2 ++ v).
    rewrite length_app, refs_length. split; [|done]. unfold row, ks at 3. rewrite concat_app.
    cbn [concat]. by rewrite <- !app_assoc.
  - lia.
  - rewrite Forall_forall in Hf. apply Hf. unfold ks. set_solver.
Qed.
Lemma row_has_keys ks v : fits ks → has_keys (row ks v) ks.
Proof.
  intros Hf i k (ks1 & ks2 & -> & <- & _)%split_at. by apply row_part.
Qed.

(** ** Writing *)

Definition sfv_data (k : sfv) : bytes := take (Z.to_nat (k_size k)) (k_key k).
Definition sfv_ok (k : sfv) : Prop := 0 <= k_size k < 65536 ∧ k_size k <= Z.of_nat (length (k_key k)).
Lemma sfv_data_length k : sfv_ok k → Z.of_nat (length (sfv_data k)) = k_size k.
Proof. intros [H1 H2]. unfold sfv_data. rewrite length_take. lia. Qed.

(** Cutting a block in two. *)
Lemma cut_block (l : bytes) n m : length l = (n + m)%nat → ∃ a b, l = a ++ b ∧ length a = n ∧ length b = m.
Proof.
  intros Hl. exists (take n l), (drop n l). rewrite take_drop, length_take, length_drop. split_and!; (done || lia).
Qed.

(** [rd], [kd] are written, [rt], [kt] still free. *)
Lemma write_kv_run keys : Forall sfv_ok keys → ∀ i rd rt kd kt rest,
  length rd = (sizeof_sfref * i)%nat → length rt = (sizeof_sfref * length keys)%nat →
  length kt = length (concat (sfv_data <$> keys)) →
  write_kv_loop keys i (Z.of_nat (length (rd ++ rt ++ kd))) (rd ++ rt ++ kd ++ kt ++ rest) =
    Some (Z.of_nat (length (rd ++ rt ++ kd ++ kt)),
      rd ++ refs (Z.of_nat (length (rd ++ rt ++ kd))) (sfv_data <$> keys) ++ kd ++ concat (sfv_data <$> keys) ++ rest).
Proof.
  induction 1 as [|k keys Hk Hks IH]; intros i rd rt kd kt rest Hrd Hrt Hkt.
  { csimpl in *. destruct rt; [|simpl in Hrt; lia]. destruct kt; [|done]. cbn [app]. by rewrite app_nil_r. }
  cbn [fmap list_fmap concat length] in Hkt, Hrt. pose proof (sfv_data_length k Hk) as Hlen.
  rewrite length_app in Hkt. apply cut_block in Hkt as (kt1 & kt2 & -> & Hkt1 & Hkt2).
  rewrite Nat.mul_succ_r, Nat.add_comm in Hrt. apply cut_block in Hrt as (rt1 & rt2 & -> & Hrt1 & Hrt2).
  set (off := Z.of_nat (length (rd ++ (rt1 ++ rt2) ++ kd))).
  cbn [write_kv_loop]. unfold cbind at 1. rewrite <- Hrd. rewrite <- (app_assoc rt1 rt2).
  rewrite put_at_run by (by rewrite sfref_length).
  unfold cbind at 1, cread at 1. unfold mem_read. rewrite decide_True by (destruct Hk; lia).
  rewrite drop_0. fold (sfv_data k). unfold cbind.
  replace (rd ++ sfref_enc off (k_size k) ++ rt2 ++ kd ++ (kt1 ++ kt2) ++ rest) with
    ((rd ++ sfref_enc off (k_size k) ++ rt2 ++ kd) ++ kt1 ++ (kt2 ++ rest)) by (by rewrite <- !app_assoc).
  replace (Z.to_nat off) with (length (rd ++ sfref_enc off (k_size k) ++ rt2 ++ kd))
    by (unfold off; rewrite Nat2Z.id, !length_app, sfref_length; lia).
  rewrite put_at_run by done.
  specialize (IH (S i) (rd ++ sfref_enc off (k_size k)) rt2 (kd ++ sfv_data k) kt2 rest).
  rewrite <- !app_assoc in IH |- *. cbn [fmap list_fmap refs concat]. fold (fmap sfv_data keys). rewrite Hlen.
  replace (off + k_size k) with
    (Z.of_nat (length (rd ++ sfref_enc off (k_size k) ++ rt2 ++ kd ++ sfv_data k))).
  - rewrite IH; [|rewrite length_app, sfref_length; unfold sizeof_sfref in *; lia|done|done].
    rewrite <- !app_assoc. do 2 f_equal. rewrite !length_app, sfref_length. lia.
  - unfold off. rewrite !length_app, sfref_length. lia.
Qed.

Fixpoint docrefs (off : Z) (keys : list sfv) : bytes :=
  match keys with [] => [] | k :: keys => sfref_enc (off + u32 (k_dist k)) (k_size k) ++ docrefs off keys end.
Lemma docrefs_length off keys : length (docrefs off keys) = (sizeof_sfref * length keys)%nat.
Proof.
  induction keys as [|k keys IH]; cbn [docrefs length]; [lia|]. rewrite length_app, sfref_length, IH. lia.
Qed.
Lemma docrefs_app off a b : docrefs off (a ++ b) = docrefs off a ++ docrefs off b.
Proof. induction a as [|k a IH]; cbn [docrefs app]; [done|]. by rewrite IH, app_assoc. Qed.
Lemma write_document_run off keys i rd rt rest :
  length rd = (sizeof_sfref * i)%nat → length rt = (sizeof_sfref * length keys)%nat →
  write_document_loop keys i off (rd ++ rt ++ rest) = Some ((), rd ++ docrefs off keys ++ rest).
Proof.
  revert i rd rt. induction keys as [|k keys IH]; intros i rd rt Hrd Hrt; cbn [length] in Hrt.
  { destruct rt; [done|simpl in Hrt; lia]. }
  rewrite Nat.mul_succ_r, Nat.add_comm in Hrt. apply cut_block in Hrt as (rt1 & rt2 & -> & Hrt1 & Hrt2).
  cbn [write_document_loop]. unfold cbind. rewrite <- Hrd, <- app_assoc, put_at_run by (by rewrite sfref_length).
  rewrite app_assoc, (IH (S i)); [|rewrite length_app, sfref_length; lia|done].
  cbn [docrefs]. by rewrite <- !app_assoc.
Qed.

(** What the parts given to [sf_write] must be: of their declared size, and for a document
    inside of it. *)
Definition write_ok (format : sf) (keys : list sfv) (v : bytes) : Prop :=
  keys ≠ [] ∧ Forall sfv_ok keys ∧
  match format with
  | SF_KV => fits (sfv_data <$> keys)
  | SF_DOCUMENT =>
      Forall (λ k, 0 <= k_dist k ∧ mem_at v (Z.to_nat (k_dist k)) (sfv_data k)) keys ∧
      Z.of_nat (sizeof_sfref * length keys + length v) < 4294967296
  end.

Lemma sum_sizes_concat keys : Forall sfv_ok keys → sum_sizes keys = Z.of_nat (length (concat (sfv_data <$> keys))).
Proof.
  induction 1 as [|k keys Hk _ IH]; csimpl; [done|]. rewrite length_app, Nat2Z.inj_add, sfv_data_length by done.
  unfold sum_sizes in *. simpl. lia.
Qed.

Lemma write_kv_ext keys v dest rest : Forall sfv_ok keys →
  Z.of_nat (length dest) = sf_size SF_KV keys (Z.of_nat (length v)) →
  sf_write SF_KV keys v (dest ++ rest) = Some ((), row (sfv_data <$> keys) v ++ rest).
Proof.
  intros Hks Hd. unfold sf_size in Hd. rewrite sum_sizes_concat in Hd by done.
  destruct (cut_block dest (sizeof_sfref * length keys) (length (concat (sfv_data <$> keys)) + length v))
    as (rt & ktv & -> & Hrt & Hktv); [lia|].
  apply cut_block in Hktv as (kt & vt & -> & Hkt & Hvt).
  pose proof (write_kv_run keys Hks 0 [] rt [] kt (vt ++ rest)) as Hrun. cbn [app length] in Hrun. rewrite app_nil_r in Hrun.
  unfold sf_write, cbind. rewrite <- Hrt, <- !app_assoc, Hrun; [|lia|done|done]. rewrite Nat2Z.id.
  replace (length (rt ++ kt)) with (length (refs (Z.of_nat (length rt)) (sfv_data <$> keys) ++ concat (sfv_data <$> keys)))
    by (rewrite !length_app, refs_length, length_fmap; lia).
  pose proof (put_at_run (refs (Z.of_nat (length rt)) (sfv_data <$> keys) ++ concat (sfv_data <$> keys)) vt v rest) as Hput.
  rewrite <- !app_assoc in Hput. rewrite Hput by done. unfold row. by rewrite Hrt, length_fmap, <- !app_assoc.
Qed.
Lemma write_kv_ok keys v dest : write_ok SF_KV keys v →
  Z.of_nat (length dest) = sf_size SF_KV keys (Z.of_nat (length v)) →
  sf_write SF_KV keys v dest = Some ((), row (sfv_data <$> keys) v).
Proof.
  intros (_ & Hks & _) Hd. pose proof (write_kv_ext keys v dest [] Hks Hd) as E. by rewrite !app_nil_r in E.
Qed.

Lemma write_document_ok keys v dest : write_ok SF_DOCUMENT keys v →
  Z.of_nat (length dest) = sf_size SF_DOCUMENT keys (Z.of_nat (length v)) →
  sf_write SF_DOCUMENT keys v dest = Some ((), docrefs (Z.of_nat (sizeof_sfref * length keys)) keys ++ v).
Proof.
  intros _ Hd. unfold sf_size in Hd.
  destruct (cut_block dest (sizeof_sfref * length keys) (length v)) as (rt & vt & -> & Hrt & Hvt); [lia|].
  unfold sf_write, cbind. pose proof (write_document_run (Z.of_nat (sizeof_sfref * length keys)) keys 0 [] rt vt) as Hrun.
  cbn [app length] in Hrun. rewrite Hrun; [|lia|done]. rewrite Nat2Z.id.
  rewrite <- (docrefs_length (Z.of_nat (sizeof_sfref * length keys)) keys) at 1.
  pose proof (put_at_run (docrefs (Z.of_nat (sizeof_sfref * length keys)) keys) vt v []) as Hput.
  rewrite !app_nil_r in Hput. by rewrite Hput.
Qed.
Lemma document_has_keys keys v : write_ok SF_DOCUMENT keys v →
  has_keys (docrefs (Z.of_nat (sizeof_sfref * length keys)) keys ++ v) (sfv_data <$> keys).
Proof.
  intros (_ & Hks & Hin & Htot) i k Hi. apply list_lookup_fmap_Some in Hi as (x & -> & Hx).
  destruct (split_at _ _ _ Hx) as (ks1 & ks2 & E & Hl & _). pose proof (list_elem_of_lookup_2 _ _ _ Hx) as Hel.
  rewrite Forall_forall in Hks, Hin. destruct (Hin x Hel) as [Hd (l & r & Ev & Hlv)].
  pose proof (sfv_data_length x (Hks x Hel)) as Hlen. destruct (Hks x Hel) as [Hs _].
  assert (length v = length l + length (sfv_data x) + length r)%nat by (rewrite Ev, !length_app; lia).
  set (n := (sizeof_sfref * length keys)%nat) in *.
  eapply (keydata_read i (n + length l)).
  - rewrite E at 1. rewrite docrefs_app. cbn [docrefs]. eexists (docrefs _ ks1), _.
    rewrite <- !app_assoc. split; [|rewrite docrefs_length; lia].
    rewrite Hlen. do 3 f_equal. rewrite wrap_id by (unfold in_u; lia). lia.
  - exists (docrefs (Z.of_nat n) keys ++ l), r. rewrite <- app_assoc, length_app, docrefs_length. by rewrite Ev.
  - lia.
  - lia.
Qed.

(** The value after the last part. *)
Lemma row_value ks v : ks ≠ [] → fits ks → ∃ off, sf_value SF_KV (length ks) (row ks v) = Some off ∧
  sf_valuesize SF_KV (length (row ks v)) (length ks) (row ks v) = Some (Z.of_nat (length v)) ∧
  mem_read off (length v) (row ks v) = Some v.
Proof.
  intros Hne Hf. destruct (exists_last Hne) as (ks1 & k & ->).
  destruct (row_part ks1 k [] v Hf) as (_ & Ek & Es). rewrite length_app in *. simpl length in *.
  unfold sf_value, sf_valuesize. rewrite !decide_False by lia. rewrite Nat.add_sub, Ek, Es. simpl mbind. cbn [mbind option_bind].
  eexists. split; [done|]. split.
  - f_equal. unfold row. rewrite !length_app, refs_length, concat_app, !length_app. simpl. rewrite app_nil_r. lia.
  - apply mem_at_read. exists (refs (Z.of_nat (sizeof_sfref * length (ks1 ++ [k]))) (ks1 ++ [k]) ++ concat (ks1 ++ [k])), [].
    rewrite app_nil_r, <- app_assoc. split; [done|].
    rewrite length_app, refs_length, concat_app, !length_app. simpl. rewrite app_nil_r. lia.
Qed.

(** ** Copying the keys *)

Lemma keydata_inv i k src : sf_keydata i src = Some k →
  sf_keysize i src = Some (length k) ∧ (off ← sf_key i src; mem_read off (length k) src) = Some k.
Proof.
  unfold sf_keydata. destruct (sf_key i src) as [off|]; [|done]. destruct (sf_keysize i src) as [n|]; [|done].
  simpl. intros E. destruct (mem_read_at _ _ _ _ E) as [_ <-]. done.
Qed.

Lemma keycopy_run src ks : ∀ i rd rt kd kt rest,
  (∀ j k, ks !! j = Some k → sf_keydata (i + j) src = Some k) → Forall (λ k, Z.of_nat (length k) < 65536) ks →
  Z.of_nat (length (rd ++ rt ++ kd ++ kt)) < 4294967296 →
  length rd = (sizeof_sfref * i)%nat → length rt = (sizeof_sfref * length ks)%nat →
  length kt = length (concat ks) →
  keycopy_loop (length ks) i (length (rd ++ rt ++ kd)) src (rd ++ rt ++ kd ++ kt ++ rest) =
    Some (length (rd ++ rt ++ kd ++ kt),
      rd ++ refs (Z.of_nat (length (rd ++ rt ++ kd))) ks ++ kd ++ concat ks ++ rest).
Proof.
  induction ks as [|k ks IH]; intros i rd rt kd kt rest Hsrc Hsz Htot Hrd Hrt Hkt.
  { simpl in *. destruct rt; [|simpl in Hrt; lia]. destruct kt; [|done]. cbn [app]. by rewrite app_nil_r. }
  cbn [concat length] in Hkt, Hrt. apply Forall_cons in Hsz as [Hk Hsz].
  rewrite length_app in Hkt. apply cut_block in Hkt as (kt1 & kt2 & -> & Hkt1 & Hkt2).
  rewrite Nat.mul_succ_r, Nat.add_comm in Hrt. apply cut_block in Hrt as (rt1 & rt2 & -> & Hrt1 & Hrt2).
  pose proof (Hsrc O k eq_refl) as Hd. rewrite Nat.add_0_r in Hd. destruct (keydata_inv _ _ _ Hd) as [Es Er].
  set (off := length (rd ++ (rt1 ++ rt2) ++ kd)).
  assert (off = length (rd ++ sfref_enc (Z.of_nat off) (Z.of_nat (length k)) ++ rt2 ++ kd)) as Eoff
    by (unfold off; rewrite !length_app, sfref_length; lia).
  cbn [length keycopy_loop]. unfold cbind at 1, cread at 1. rewrite Es. unfold cbind at 1.
  rewrite <- Hrd, <- (app_assoc rt1 rt2), put_at_run by (by rewrite sfref_length).
  unfold cbind at 1, cread at 1.
  destruct (sfref_read i (Z.of_nat off) (Z.of_nat (length k))
    (rd ++ sfref_enc (Z.of_nat off) (Z.of_nat (length k)) ++ rt2 ++ kd ++ (kt1 ++ kt2) ++ rest)) as [-> _].
  { by exists rd, (rt2 ++ kd ++ (kt1 ++ kt2) ++ rest). }
  { clear -Htot. unfold off. rewrite !length_app in Htot. rewrite !length_app. lia. }
  { lia. }
  unfold cbind at 1, cread at 1. rewrite Er, Nat2Z.id. unfold cbind at 1.
  replace (rd ++ sfref_enc (Z.of_nat off) (Z.of_nat (length k)) ++ rt2 ++ kd ++ (kt1 ++ kt2) ++ rest) with
    ((rd ++ sfref_enc (Z.of_nat off) (Z.of_nat (length k)) ++ rt2 ++ kd) ++ kt1 ++ (kt2 ++ rest)) by (by rewrite <- !app_assoc).
  rewrite Eoff at 1. rewrite put_at_run by done.
  specialize (IH (S i) (rd ++ sfref_enc (Z.of_nat off) (Z.of_nat (length k))) rt2 (kd ++ k) kt2 rest).
  repeat rewrite <- app_assoc in IH. repeat rewrite <- app_assoc. cbn [refs concat].
  replace (off + length k)%nat with (length (rd ++ sfref_enc (Z.of_nat off) (Z.of_nat (length k)) ++ rt2 ++ kd ++ k))
    by (rewrite Eoff at 2; rewrite !length_app; lia).
  rewrite IH; [| |done| |rewrite length_app, sfref_length; unfold sizeof_sfref in *; lia|done|done].
  - rewrite <- !app_assoc. do 2 f_equal; [rewrite !length_app, sfref_length; lia|]. do 4 f_equal.
    rewrite Eoff at 2. rewrite !length_app. lia.
  - intros j x Hj. specialize (Hsrc (S j) x Hj). by rewrite Nat.add_succ_r in Hsrc.
  - rewrite !length_app in Htot |- *. rewrite sfref_length. lia.
Qed.

Lemma keytotal_run src ks i : (∀ j k, ks !! j = Some k → sf_keydata (i + j) src = Some k) →
  keytotal_loop (length ks) i src = Some (length (concat ks)).
Proof.
  revert i. induction ks as [|k ks IH]; intros i Hsrc; [done|]. cbn [length keytotal_loop concat].
  pose proof (Hsrc O k eq_refl) as Hd. rewrite Nat.add_0_r in Hd. destruct (keydata_inv _ _ _ Hd) as [-> _].
  simpl. rewrite IH; [by rewrite length_app|].
  intros j x Hj. specialize (Hsrc (S j) x Hj). by rewrite Nat.add_succ_r in Hsrc.
Qed.

Lemma keycopy_ok src ks dest rest : has_keys src ks → fits ks → length dest = row_size ks →
  sf_keytotal (length ks) src = Some (row_size ks) ∧
  sf_keycopy src (length ks) (dest ++ rest) = Some (row_size ks, row ks rest) ∧
  has_keys (row ks rest) ks.
Proof.
  intros Hsrc Hf Hd. split_and!; [| |by apply row_has_keys].
  - unfold sf_keytotal. rewrite keytotal_run by done. cbn [mbind option_bind]. f_equal. unfold row_size. lia.
  - unfold row_size in Hd. apply cut_block in Hd as (rt & kt & -> & Hrt & Hkt).
    destruct Hf as [Hsz Htot]. unfold row_size in Htot.
    pose proof (keycopy_run src ks 0 [] rt [] kt rest) as Hrun. cbn [app length] in Hrun. rewrite app_nil_r in Hrun.
    unfold sf_keycopy. rewrite <- Hrt at 1. rewrite <- app_assoc, Hrun; [|done|done|rewrite length_app; lia|lia|done|done].
    unfold row, row_size. by rewrite length_app, Hrt, Hkt.
Qed.

(** * Correctness *)

(** C28: a row written in either format into a block of [sf_size] bytes never touches memory
    outside of it, and gives back every key part with [sf_key]/[sf_keysize] and the value with
    [sf_value]/[sf_valuesize]. *)
Theorem sf_write_roundtrip format keys v dest : write_ok format keys v →
  Z.of_nat (length dest) = sf_size format keys (Z.of_nat (length v)) →
  ∃ data off, sf_write format keys v dest = Some ((), data) ∧ length data = length dest ∧
    has_keys data (sfv_data <$> keys) ∧
    sf_value format (length keys) data = Some off ∧
    sf_valuesize format (length data) (length keys) data = Some (Z.of_nat (length v)) ∧
    mem_read off (length v) data = Some v.
Proof.
  intros Hok Hd. destruct format.
  - exists (row (sfv_data <$> keys) v). rewrite (write_kv_ok keys v dest Hok Hd). destruct Hok as (Hne & Hks & Hf).
    destruct (row_value (sfv_data <$> keys) v) as (off & E1 & E2 & E3); [by destruct keys|done|].
    rewrite length_fmap in E1, E2. exists off. split_and!; try done; [|by apply row_has_keys].
    unfold sf_size in Hd. rewrite sum_sizes_concat in Hd by done.
    unfold row. rewrite !length_app, refs_length, length_fmap. lia.
  - pose proof (document_has_keys keys v Hok). rewrite (write_document_ok keys v dest Hok Hd). destruct Hok as (Hne & _ & _ & _).
    unfold sf_size in Hd. assert (length keys ≠ 0)%nat by (by destruct keys).
    eexists _, _. split; [done|]. rewrite length_app, docrefs_length. unfold sf_value, sf_valuesize.
    rewrite !decide_False by done. split_and!; [lia|done|done|f_equal; lia|].
    apply mem_at_read. exists (docrefs (Z.of_nat (sizeof_sfref * length keys)) keys), [].
    by rewrite app_nil_r, docrefs_length.
Qed.

(** Copying the key parts of any row into a large enough block writes [sf_keytotal] bytes,
    a row with exactly those parts and no gaps, and leaves the bytes after it alone. *)
Theorem sf_keycopy_roundtrip src ks dest rest : has_keys src ks → fits ks → length dest = row_size ks →
  sf_keytotal (length ks) src = Some (row_size ks) ∧
  sf_keycopy src (length ks) (dest ++ rest) = Some (row_size ks, row ks rest) ∧
  has_keys (row ks rest) ks.
Proof. apply keycopy_ok. Qed.

(** ** Witnesses *)
Definition demo_keys : list sfv := [mk_sfv [1; 2; 3] 0 3; mk_sfv [9; 9; 9; 9] 4 2].
Lemma demo_fits : fits (sfv_data <$> demo_keys).
Proof. split; [|vm_compute; reflexivity]. repeat constructor; vm_compute; reflexivity. Qed.
Lemma sf_write_roundtrip_witness : ∃ data off,
  sf_write SF_KV demo_keys [7; 8] (replicate 19 0) = Some ((), data) ∧ has_keys data [[1; 2; 3]; [9; 9]] ∧
  sf_value SF_KV 2 data = Some off ∧ mem_read off 2 data = Some [7; 8].
Proof.
  destruct (sf_write_roundtrip SF_KV demo_keys [7; 8] (replicate 19 0)) as (data & off & E & _ & Hk & Ev & _ & Er).
  - split_and!; [done| |exact demo_fits]. repeat constructor; simpl; lia.
  - reflexivity.
  - by exists data, off.
Defined.
Lemma sf_keycopy_roundtrip_witness :
  sf_keycopy (row [[1; 2; 3]; [9; 9]] [7; 8]) 2 (replicate 17 0 ++ [5]) = Some (17%nat, row [[1; 2; 3]; [9; 9]] [5]) ∧
  has_keys (row [[1; 2; 3]; [9; 9]] [5]) [[1; 2; 3]; [9; 9]].
Proof.
  refine (proj2 (sf_keycopy_roundtrip (row [[1; 2; 3]; [9; 9]] [7; 8]) [[1; 2; 3]; [9; 9]] (replicate 17 0) [5] _ _ _)).
  - apply row_has_keys, demo_fits.
  - exact demo_fits.
  - reflexivity.
Defined.
