(* ===== verification/SrScheme.v ===== *)
(** The scheme of a key, sr_scheme.h and sr_scheme.c: the comparison functions on rows, the
    parts of a key, and the scheme's image in the database directory. *)
From Stdlib Require Import String.
From stdpp Require Import base sets list.
From S2P Require Import Prelude Sv SsOrder SsBytes SsBuf Sf.
Local Open Scope Z_scope.
Local Open Scope c_scope.

(** * Comparison functions *)

(** [memcmp] of two areas of one size; only its sign is used. *)
Fixpoint memcmp (a b : bytes) : Z :=
  match a, b with
  | x :: a, y :: b => if Z.eqb x y then memcmp a b else x - y
  | _, _ => 0
  end.

Definition sr_compare_u32 (oa : nat) (a : bytes) (ob : nat) (b : bytes) : option Z :=
  av ← load_le oa 4 a; bv ← load_le ob 4 b;
  Some (if Z.eqb av bv then 0 else if Z.gtb av bv then 1 else -1).
Definition sr_compare_u64 (oa : nat) (a : bytes) (ob : nat) (b : bytes) : option Z :=
  av ← load_le oa 8 a; bv ← load_le ob 8 b;
  Some (if Z.eqb av bv then 0 else if Z.gtb av bv then 1 else -1).
(** The macro [sr_compare_string] on two areas. *)
Definition sr_compare_string (a b : bytes) : Z :=
  let asz := length a in let bsz := length b in
  let size := if decide (asz < bsz)%nat then asz else bsz in
  let rc := memcmp (take size a) (take size b) in
  if Z.eqb rc 0
  then if decide (asz = bsz) then 0 else if decide (asz < bsz)%nat then -1 else 1
  else if Z.gtb rc 0 then 1 else -1.

Definition sr_cmpany (a b : bytes) : option Z := Some 0.
Definition sr_cmpu32_raw (a b : bytes) : option Z := sr_compare_u32 0 a 0 b.
Definition sr_cmpu32 (part : nat) (a b : bytes) : option Z :=
  oa ← sf_key part a; ob ← sf_key part b; sr_compare_u32 oa a ob b.
Definition sr_cmpu32_raw_reverse (a b : bytes) : option Z := Z.opp <$> sr_compare_u32 0 a 0 b.
Definition sr_cmpu32_reverse (part : nat) (a b : bytes) : option Z :=
  oa ← sf_key part a; ob ← sf_key part b; Z.opp <$> sr_compare_u32 oa a ob b.
Definition sr_cmpu64_raw (a b : bytes) : option Z := sr_compare_u64 0 a 0 b.
Definition sr_cmpu64 (part : nat) (a b : bytes) : option Z :=
  oa ← sf_key part a; ob ← sf_key part b; sr_compare_u64 oa a ob b.
Definition sr_cmpu64_raw_reverse (a b : bytes) : option Z := Z.opp <$> sr_compare_u64 0 a 0 b.
Definition sr_cmpu64_reverse (part : nat) (a b : bytes) : option Z :=
  oa ← sf_key part a; ob ← sf_key part b; Z.opp <$> sr_compare_u64 oa a ob b.
Definition sr_cmpstring_raw (a b : bytes) : option Z := Some (sr_compare_string a b).
Definition sr_cmpstring (part : nat) (a b : bytes) : option Z :=
  ka ← sf_keydata part a; kb ← sf_keydata part b; Some (sr_compare_string ka kb).
Definition sr_cmpstring_prefix (prefix key : bytes) : option Z :=
  keysz ← sf_keysize 0 key; off ← sf_key 0 key;
  if decide (keysz < length prefix)%nat then Some 0 else
  k ← mem_read off (length prefix) key;
  Some (if Z.eqb (memcmp prefix k) 0 then 1 else 0).

(** A function pointer [srcmpf]: one of the functions of the file, or one the user set. *)
Inductive srcmpf :=
  | CMPANY | CMPU32 | CMPU32_RAW | CMPU32_REVERSE | CMPU32_RAW_REVERSE
  | CMPU64 | CMPU64_RAW | CMPU64_REVERSE | CMPU64_RAW_REVERSE
  | CMPSTRING | CMPSTRING_RAW | CMPSTRING_PREFIX.
#[export] Instance srcmpf_eq_dec : EqDecision srcmpf.
Proof. solve_decision. Defined.
(** Calling it; [part] is the position of the key part it is given. *)
Definition call_cmp (f : srcmpf) (part : nat) (a b : bytes) : option Z :=
  match f with
  | CMPANY => sr_cmpany a b
  | CMPU32 => sr_cmpu32 part a b
  | CMPU32_RAW => sr_cmpu32_raw a b
  | CMPU32_REVERSE => sr_cmpu32_reverse part a b
  | CMPU32_RAW_REVERSE => sr_cmpu32_raw_reverse a b
  | CMPU64 => sr_cmpu64 part a b
  | CMPU64_RAW => sr_cmpu64_raw a b
  | CMPU64_REVERSE => sr_cmpu64_reverse part a b
  | CMPU64_RAW_REVERSE => sr_cmpu64_raw_reverse a b
  | CMPSTRING => sr_cmpstring part a b
  | CMPSTRING_RAW => sr_cmpstring_raw a b
  | CMPSTRING_PREFIX => sr_cmpstring_prefix a b
  end.

(** * Schemes *)

(** A key part; a new one is all zero bytes: NULL strings and functions, type 0. *)
Record srkey := mk_srkey {
  k_name : option bytes; k_path : option bytes; k_type : sstype; k_pos : nat;
  k_cmpprefix : option srcmpf; k_cmpraw : option srcmpf; k_cmp : option srcmpf
}.
(** The comparison of a scheme: its own, or a user's function with its argument. *)
Inductive schemecmp := SCHEME_OWN | SCHEME_USER (f : bytes → bytes → option Z).
(** [s_parts = None] is a NULL array. *)
Record srscheme := mk_scheme {
  s_parts : option (list srkey); s_count : nat; s_cmp : schemecmp; s_cmpprefix : schemecmp
}.

Definition sr_schemeinit : srscheme := mk_scheme None 0 SCHEME_OWN SCHEME_OWN.
Definition sr_schemefree (s : srscheme) : srscheme :=
  match s_parts s with None => s | Some _ => mk_scheme None (s_count s) (s_cmp s) (s_cmpprefix s) end.
Definition sr_schemesetcmp (f : bytes → bytes → option Z) (s : srscheme) : srscheme :=
  mk_scheme (s_parts s) (s_count s) (SCHEME_USER f) (s_cmpprefix s).
Definition sr_schemesetcmp_prefix (f : bytes → bytes → option Z) (s : srscheme) : srscheme :=
  mk_scheme (s_parts s) (s_count s) (s_cmp s) (SCHEME_USER f).
Definition parts_of (s : srscheme) : list srkey := default [] (s_parts s).

Fixpoint schemecompare_loop (parts : list srkey) (a b : bytes) : option Z :=
  match parts with
  | [] => Some 0
  | part :: parts =>
      f ← k_cmp part;
      rc ← call_cmp f (k_pos part) a b;
      if c_true rc then Some rc else schemecompare_loop parts a b
  end.
Definition sr_schemecompare (s : srscheme) (a b : bytes) : option Z :=
  if decide (length (parts_of s) = s_count s) then schemecompare_loop (parts_of s) a b else None.
Definition sr_schemecompare_prefix (s : srscheme) (prefix key : bytes) : option Z :=
  part ← head (parts_of s); f ← k_cmpprefix part; call_cmp f (k_pos part) prefix key.
Definition sr_compare (s : srscheme) (a b : bytes) : option Z :=
  match s_cmp s with SCHEME_OWN => sr_schemecompare s a b | SCHEME_USER f => f a b end.
Definition sr_compareprefix (s : srscheme) (prefix b : bytes) : option Z :=
  match s_cmpprefix s with SCHEME_OWN => sr_schemecompare_prefix s prefix b | SCHEME_USER f => f prefix b end.

Section ops.
Context `{Alloc}.

(** [ss_strdup]: the string with its terminator. *)
Definition ss_strdup (s : bytes) : option bytes := ss_malloc (length s + 1) ≫= λ _, Some s.

(** The part that was added is given by its index in the array, which is its position. *)
Definition sizeof_srkey : nat := 48.
Definition sr_schemeadd : cmd srscheme (option nat) :=
  let! s := cget in
  match ss_malloc (sizeof_srkey * (s_count s + 1)) with
  | None => cret None
  | Some _ =>
      cassert (bool_decide (length (parts_of s) = s_count s));;;
      let pos := s_count s in
      cput (mk_scheme (Some (parts_of s ++ [mk_srkey None None SS_UNDEF pos None None None]))
        (s_count s + 1) (s_cmp s) (s_cmpprefix s));;;
      cret (Some pos)
  end.

(** All parts but the one at [pos]; the others keep the positions they have. *)
Definition sr_schemedelete (pos : nat) : cmd srscheme Z :=
  let! s := cget in
  match ss_malloc (sizeof_srkey * (s_count s - 1)) with
  | None => cret (-1)
  | Some _ =>
      cassert (bool_decide (length (parts_of s) = s_count s ∧ pos < s_count s)%nat);;;
      cput (mk_scheme (Some (take pos (parts_of s) ++ drop (S pos) (parts_of s)))
        (s_count s - 1) (s_cmp s) (s_cmpprefix s));;;
      cret 0
  end.

Fixpoint schemefind_loop (parts : list srkey) (i : nat) (name : bytes) : option (option nat) :=
  match parts with
  | [] => Some None
  | part :: parts =>
      n ← k_name part;
      if Z.eqb (strcmp n name) 0 then Some (Some i) else schemefind_loop parts (S i) name
  end.
(** [Some None] when no part has the name; comparing a NULL name is a fault. *)
Definition sr_schemefind (name : bytes) (s : srscheme) : option (option nat) :=
  schemefind_loop (parts_of s) 0 name.
Definition sr_schemeof (pos : nat) (s : srscheme) : option srkey :=
  if decide (pos < s_count s)%nat then parts_of s !! pos else None.

Definition sr_keysetname (name : bytes) : cmd srkey Z := λ part,
  match ss_strdup name with
  | None => Some (-1, part)
  | Some p => Some (0, mk_srkey (Some p) (k_path part) (k_type part) (k_pos part)
      (k_cmpprefix part) (k_cmpraw part) (k_cmp part))
  end.
(** The types by name: type, prefix comparison, comparison and raw comparison. *)
Definition keyset_of (path : bytes) : option (sstype * srcmpf * srcmpf * srcmpf) :=
  if Z.eqb (strcmp path (c_str "string")) 0 then Some (SS_STRING, CMPSTRING_PREFIX, CMPSTRING, CMPSTRING_RAW)
  else if Z.eqb (strcmp path (c_str "u32")) 0 then Some (SS_U32, CMPANY, CMPU32, CMPU32_RAW)
  else if Z.eqb (strcmp path (c_str "u32_rev")) 0 then Some (SS_U32, CMPANY, CMPU32_REVERSE, CMPU32_RAW_REVERSE)
  else if Z.eqb (strcmp path (c_str "u64")) 0 then Some (SS_U64, CMPANY, CMPU64, CMPU64_RAW)
  else if Z.eqb (strcmp path (c_str "u64_rev")) 0 then Some (SS_U64, CMPANY, CMPU64_REVERSE, CMPU64_RAW_REVERSE)
  else None.
Definition sr_keyset (path : bytes) : cmd srkey Z := λ part,
  match keyset_of path with
  | None => Some (-1, part)
  | Some (type, cmpprefix, cmp, cmpraw) =>
      match ss_strdup path with
      | None => Some (-1, part)
      | Some p => Some (0, mk_srkey (k_name part) (Some p) type (k_pos part) (Some cmpprefix) (Some cmpraw) (Some cmp))
      end
  end.

(** ** The image of a scheme *)

(** One string of a part: its size with the terminator, and the string. *)
Definition save_string (str : bytes) : cmd ssbuf bool :=
  let v := Z.of_nat (length str) + 1 in
  let! rc := ss_bufensure (4 + v) in
  if Z.eqb rc (-1) then cret false else
  copy_advance (le_enc 4 (u32 v));;;
  copy_advance (str ++ [0]);;;
  cret true.
Fixpoint schemesave_loop (parts : list srkey) : cmd ssbuf bool :=
  match parts with
  | [] => cret true
  | key :: parts =>
      match k_name key, k_path key with
      | Some name, Some path =>
          let! ok := save_string name in
          if ok then
            let! ok := save_string path in
            if ok then schemesave_loop parts else cret false
          else cret false
      | _, _ => cfail
      end
  end.
Definition sr_schemesave (s : srscheme) : cmd ssbuf Z :=
  let! rc := ss_bufadd (le_enc 4 (u32 (Z.of_nat (s_count s)))) in
  if Z.eqb rc (-1) then cret (-1) else
  cassert (bool_decide (length (parts_of s) = s_count s));;;
  let! ok := schemesave_loop (parts_of s) in
  if ok then cret 0 else (λ b, Some (-1, ss_buffree b)).

(** The string at a place of a block, up to its terminator. *)
Fixpoint cstr (l : bytes) : option bytes :=
  match l with
  | [] => None
  | c :: l => if Z.eqb c 0 then Some [] else cons c <$> cstr l
  end.
Definition cstr_at (p : nat) (buf : bytes) : option bytes := cstr (drop p buf).
(** An operation on the part that was just added. *)
Definition on_part (pos : nat) (m : cmd srkey Z) : cmd srscheme Z := λ s,
  part ← parts_of s !! pos;
  r ← m part;
  Some (r.1, mk_scheme (Some (<[pos := r.2]> (parts_of s))) (s_count s) (s_cmp s) (s_cmpprefix s)).

Fixpoint schemeload_loop (n p : nat) (buf : bytes) : cmd srscheme bool :=
  match n with
  | O => cret true
  | S n =>
      let! key := sr_schemeadd in
      match key with
      | None => cret false
      | Some pos =>
          let! v := cread (λ _, load_le p 4 buf) in
          let! name := cread (λ _, cstr_at (p + 4) buf) in
          let! rc := on_part pos (sr_keysetname name) in
          if Z.eqb rc (-1) then cret false else
          let p := (p + 4 + Z.to_nat v)%nat in
          let! v := cread (λ _, load_le p 4 buf) in
          let! path := cread (λ _, cstr_at (p + 4) buf) in
          let! rc := on_part pos (sr_keyset path) in
          if Z.eqb rc (-1) then cret false else
          schemeload_loop n (p + 4 + Z.to_nat v) buf
      end
  end.
Definition sr_schemeload (buf : bytes) : cmd srscheme Z :=
  let! v := cread (λ _, load_le 0 4 buf) in
  let count := i32 v in
  let! ok := schemeload_loop (Z.to_nat count) 4 buf in
  if ok then cret 0 else (λ s, Some (-1, sr_schemefree s)).
End ops.

(** * The order of a scheme *)

(** Byte strings in lexicographic order. *)
Fixpoint str_cmp (a b : bytes) : Z :=
  match a, b with
  | [], [] => 0
  | [], _ :: _ => -1
  | _ :: _, [] => 1
  | x :: a, y :: b => if Z.eqb x y then str_cmp a b else ss_cmp x y
  end.
#[export] Instance str_cmp_order : KeyOrder str_cmp.
Proof.
  split.
  - intros a. induction a as [|x a IH]; intros [|y b]; simpl; auto. case_match; [done|]. apply cmp_range.
  - intros a. induction a as [|x a IH]; simpl; [done|]. by rewrite Z.eqb_refl.
  - intros a. induction a as [|x a IH]; intros [|y b]; simpl; try lia. rewrite (Z.eqb_sym y x).
    case_match; [done|]. apply cmp_opp.
  - intros a. induction a as [|x a IH]; intros [|y b] [|z c]; simpl; try lia.
    destruct (Z.eqb_spec x y), (Z.eqb_spec y z), (Z.eqb_spec x z); subst; try lia; try done.
    + apply IH.
    + intros H1 H2. unfold ss_cmp in *. destruct (Z.eqb_spec z y); [lia|].
      destruct (Z.gtb_spec z y), (Z.eqb_spec y z), (Z.gtb_spec y z); lia.
    + apply (cmp_le_trans (cmp:=ss_cmp)).
Qed.

Lemma compare_string_ok a b : sr_compare_string a b = str_cmp a b.
Proof.
  unfold sr_compare_string. revert b. induction a as [|x a IH]; intros [|y b].
  - done.
  - simpl. done.
  - simpl. done.
  - specialize (IH b). cbn [length] in *. cbn [str_cmp].
    destruct (decide (length a < length b)%nat), (decide (S (length a) < S (length b))%nat); try lia.
    all: cbn [take memcmp]; destruct (Z.eqb_spec x y) as [->|Hne]; [rewrite <- IH|].
    1,3: destruct (decide (length a = length b)), (decide (S (length a) = S (length b))); try lia; done.
    all: unfold ss_cmp; destruct (Z.eqb_spec (x - y) 0); [lia|]; destruct (Z.eqb_spec x y); [lia|];
      destruct (Z.gtb_spec (x - y) 0), (Z.gtb_spec x y); lia.
Qed.

(** One order after another, and the order of a list of parts. *)
Lemma key_order_then {A} (c1 c2 : A → A → Z) : KeyOrder c1 → KeyOrder c2 →
  KeyOrder (λ a b, if c_true (c1 a b) then c1 a b else c2 a b).
Proof.
  intros H1 H2. split; unfold c_true.
  - intros a b. case_match; apply cmp_range.
  - intros a. by rewrite (cmp_refl (cmp:=c1)), (cmp_refl (cmp:=c2)).
  - intros a b. rewrite (cmp_opp (cmp:=c1) a b), (cmp_opp (cmp:=c2) a b).
    destruct (Z.eqb_spec (c1 a b) 0) as [->|]; [done|]. destruct (Z.eqb_spec (- c1 a b) 0); [lia|done].
  - intros a b c. pose proof (cmp_range (cmp:=c1) a b). pose proof (cmp_range (cmp:=c1) b c).
    destruct (Z.eqb_spec (c1 a b) 0) as [E1|N1]; simpl.
    + rewrite (cmp_eq_l c1 a b c E1). destruct (Z.eqb_spec (c1 b c) 0); simpl; [|done].
      intros. by eapply (cmp_le_trans (cmp:=c2)).
    + intros Ha. assert (c1 a b = -1) as Hab by lia. destruct (Z.eqb_spec (c1 b c) 0) as [E2|N2]; simpl.
      * intros _. rewrite <- (cmp_eq_r c1 b c a E2), Hab. simpl. lia.
      * intros Hb. rewrite (cmp_lt_le_trans c1 a b c Hab Hb). simpl. lia.
Qed.
Lemma key_order_const {A} : KeyOrder (λ _ _ : A, 0).
Proof. split; auto with lia. Qed.

(** The order of two key parts under a comparison function. *)
Definition u_cmp (n : nat) (a b : bytes) : Z := ss_cmp (le_dec (take n a)) (le_dec (take n b)).
Definition part_cmp (f : srcmpf) (a b : bytes) : Z :=
  match f with
  | CMPU32 => u_cmp 4 a b
  | CMPU32_REVERSE => - u_cmp 4 a b
  | CMPU64 => u_cmp 8 a b
  | CMPU64_REVERSE => - u_cmp 8 a b
  | CMPSTRING => str_cmp a b
  | _ => 0
  end.
#[export] Instance part_cmp_order f : KeyOrder (part_cmp f).
Proof.
  assert (∀ n, KeyOrder (u_cmp n)) as Hu.
  { intros n. apply (key_order_pull (λ a, le_dec (take n a)) ss_cmp). apply _. }
  destruct f; simpl; try apply key_order_const; try apply _; apply key_order_flip, Hu.
Qed.
(** Rows in the order of a list of parts. *)
Definition at_part (part : nat) (row : bytes) : bytes := default [] (sf_keydata part row).
Fixpoint parts_cmp (parts : list srkey) (a b : bytes) : Z :=
  match parts with
  | [] => 0
  | p :: parts =>
      let rc := part_cmp (default CMPANY (k_cmp p)) (at_part (k_pos p) a) (at_part (k_pos p) b) in
      if c_true rc then rc else parts_cmp parts a b
  end.
#[export] Instance parts_cmp_order parts : KeyOrder (parts_cmp parts).
Proof.
  induction parts as [|p parts IH]; [apply key_order_const|].
  apply (key_order_then (λ a b, part_cmp (default CMPANY (k_cmp p)) (at_part (k_pos p) a) (at_part (k_pos p) b))); [|done].
  apply (key_order_pull (at_part (k_pos p)) (part_cmp _)). apply _.
Qed.

(** A comparison of a row's part, and the bytes it needs there. *)
Definition row_cmp (f : srcmpf) : bool :=
  match f with CMPU32 | CMPU32_REVERSE | CMPU64 | CMPU64_REVERSE | CMPSTRING => true | _ => false end.
Definition part_width (f : srcmpf) : nat :=
  match f with CMPU32 | CMPU32_REVERSE => 4 | CMPU64 | CMPU64_REVERSE => 8 | _ => 0 end.
Definition part_ready (p : srkey) (row : bytes) : Prop :=
  ∃ f k, k_cmp p = Some f ∧ row_cmp f = true ∧ sf_keydata (k_pos p) row = Some k ∧ (part_width f <= length k)%nat.

Lemma keydata_key i k data : sf_keydata i data = Some k →
  ∃ off, sf_key i data = Some off ∧ ∀ n, (n <= length k)%nat → load_le off n data = Some (le_dec (take n k)).
Proof.
  unfold sf_keydata. destruct (sf_key i data) as [off|]; [|done]. destruct (sf_keysize i data) as [size|]; [|done].
  simpl. intros E. destruct (mem_read_at _ _ _ _ E) as [Hat _]. exists off. split; [done|]. intros n Hn.
  unfold load_le. rewrite <- (take_drop n k) in Hat. apply mem_at_app in Hat as [Hat%mem_at_read _].
  rewrite length_take_le in Hat by done. by rewrite Hat.
Qed.
Lemma call_cmp_ok p f a b : k_cmp p = Some f → part_ready p a → part_ready p b →
  call_cmp f (k_pos p) a b = Some (part_cmp f (at_part (k_pos p) a) (at_part (k_pos p) b)).
Proof.
  intros Ef (f1 & ka & E1 & Hrow & Ha & Hla) (f2 & kb & E2 & _ & Hb & Hlb). simplify_eq.
  unfold at_part. rewrite Ha, Hb. destruct (keydata_key _ _ _ Ha) as (oa & Eoa & Hoa), (keydata_key _ _ _ Hb) as (ob & Eob & Hob).
  destruct f; try done; simpl in Hla, Hlb |- *;
    unfold sr_cmpu32, sr_cmpu64, sr_cmpu32_reverse, sr_cmpu64_reverse, sr_compare_u32, sr_compare_u64, sr_cmpstring;
    rewrite ?Eoa, ?Eob; simpl; rewrite ?Hoa, ?Hob by done; rewrite ?Ha, ?Hb; simpl; rewrite ?compare_string_ok; done.
Qed.
Lemma schemecompare_loop_ok parts a b : Forall (λ p, part_ready p a ∧ part_ready p b) parts →
  schemecompare_loop parts a b = Some (parts_cmp parts a b).
Proof.
  induction 1 as [|p parts [Ha Hb] _ IH]; [done|]. cbn [schemecompare_loop parts_cmp].
  destruct (Ha) as (f & _ & Ef & _). rewrite Ef. cbn [mbind option_bind default].
  rewrite (call_cmp_ok p f a b Ef Ha Hb). simpl. by destruct (c_true _).
Qed.

(** Rows that have every part of the scheme. *)
Definition row_ready (s : srscheme) (row : bytes) : Prop := Forall (λ p, part_ready p row) (parts_of s).
Definition scheme_cmp (s : srscheme) : bytes → bytes → Z := parts_cmp (parts_of s).

(** * The image: correctness *)

Definition no_zero (s : bytes) : Prop := Forall (λ c, c ≠ 0) s.
(** A part as [sr_keysetname] and [sr_keyset] leave it. *)
Definition typed_part (i : nat) (p : srkey) : Prop := ∃ name path type cmpprefix cmp cmpraw,
  p = mk_srkey (Some name) (Some path) type i (Some cmpprefix) (Some cmpraw) (Some cmp) ∧
  keyset_of path = Some (type, cmpprefix, cmp, cmpraw) ∧ no_zero name ∧ no_zero path.
Definition typed_scheme (s : srscheme) : Prop :=
  s_count s = length (parts_of s) ∧ (s_parts s = None ∨ parts_of s ≠ []) ∧
  s_cmp s = SCHEME_OWN ∧ s_cmpprefix s = SCHEME_OWN ∧
  ∀ i p, parts_of s !! i = Some p → typed_part i p.
(** The scheme of the given parts. *)
Definition scheme_of (ps : list srkey) : srscheme :=
  mk_scheme (match ps with [] => None | _ => Some ps end) (length ps) SCHEME_OWN SCHEME_OWN.
Lemma parts_scheme_of ps : parts_of (scheme_of ps) = ps.
Proof. by destruct ps. Qed.
Lemma typed_scheme_of s : typed_scheme s → s = scheme_of (parts_of s).
Proof.
  destruct s as [ps n c cp]. unfold typed_scheme, scheme_of, parts_of. simpl.
  intros (-> & H & -> & -> & _). destruct ps as [[|q ps]|]; simpl in *; [|done|done]. by destruct H.
Qed.

Definition str_enc (s : bytes) : bytes := le_enc 4 (Z.of_nat (length s) + 1) ++ s ++ [0].
Definition part_enc (p : srkey) : bytes := str_enc (default [] (k_name p)) ++ str_enc (default [] (k_path p)).
Definition scheme_enc (s : srscheme) : bytes :=
  le_enc 4 (Z.of_nat (s_count s)) ++ concat (part_enc <$> parts_of s).
Lemma str_enc_length s : length (str_enc s) = (length s + 5)%nat.
Proof. unfold str_enc. rewrite !length_app, le_enc_length. simpl. lia. Qed.

Section image.
Context `{Alloc}.
Abbreviation refused := (∃ n, ss_malloc n = None).

Lemma save_string_ok T b s : 4 * T <= INT_MAX → buf_cap T b →
  ss_bufused b + Z.of_nat (length (str_enc s)) <= T →
  wp (save_string s) b (λ ok b', (ok = false ∧ refused) ∨ (ok = true ∧ buf_cap T b' ∧ content b' = content b ++ str_enc s)).
Proof.
  intros HT Hcap Hu. rewrite str_enc_length in Hu. assert (0 <= ss_bufused b) by (unfold ss_bufused; lia).
  unfold save_string. apply wp_bind.
  eapply wp_mono; [apply (ensure_cap T); [done|done|lia|lia]|].
  intros rc b1 [(-> & _ & Hn)|(-> & Hcap1 & Hc1 & Hr1)]; [by left|]. cbn [Z.eqb].
  apply wp_bind. eapply wp_mono; [apply (copy_advance_ok T); [done|]|].
  { rewrite le_enc_length. unfold fresh_room in *. lia. }
  intros [] b2 (Hcap2 & Hc2 & Hr2). apply wp_bind. eapply wp_mono; [apply (copy_advance_ok T); [done|]|].
  { apply Hr2. rewrite le_enc_length, length_app. simpl. unfold fresh_room in *. lia. }
  intros [] b3 (Hcap3 & Hc3 & _). apply wp_ret. right. split_and!; [done|done|].
  rewrite Hc3, Hc2, Hc1. unfold str_enc. rewrite <- !app_assoc. rewrite wrap_id; [done|].
  unfold in_u, INT_MAX in *. lia.
Qed.
Lemma used_content b T : buf_cap T b → ss_bufused b = Z.of_nat (length (content b)).
Proof. intros [Hok _]. by rewrite content_length. Qed.

Lemma schemesave_loop_ok T ps i : (∀ j p, ps !! j = Some p → typed_part (i + j) p) → 4 * T <= INT_MAX →
  ∀ b, buf_cap T b → ss_bufused b + Z.of_nat (length (concat (part_enc <$> ps))) <= T →
  wp (schemesave_loop ps) b (λ ok b', (ok = false ∧ refused) ∨
    (ok = true ∧ buf_cap T b' ∧ content b' = content b ++ concat (part_enc <$> ps))).
Proof.
  intros Hps HT. revert i Hps. induction ps as [|p ps IH]; intros i Hps b Hcap Hu.
  { apply wp_ret. right. by rewrite app_nil_r. }
  destruct (Hps O p eq_refl) as (name & path & ty & cp & c & cr & Ep & _).
  rewrite fmap_cons in Hu |- *. cbn [concat] in Hu |- *.
  assert (part_enc p = str_enc name ++ str_enc path) as Epe by (by rewrite Ep).
  rewrite Epe in Hu |- *. rewrite !length_app in Hu. rewrite Ep. cbn [schemesave_loop k_name k_path].
  apply wp_bind. eapply wp_mono; [apply (save_string_ok T); [done|done|lia]|].
  intros ok b1 [[-> Hr]|(-> & Hcap1 & Hc1)]; [by left|]. rewrite (used_content b T) in Hu by done.
  apply wp_bind. eapply wp_mono; [apply (save_string_ok T); [done|done|]|].
  { rewrite (used_content b1 T), Hc1, length_app by done. lia. }
  intros ok b2 [[-> Hr]|(-> & Hcap2 & Hc2)]; [by left|].
  eapply wp_mono; [apply (IH (S i)); [|done|]|].
  - intros j q Hq. specialize (Hps (S j) q Hq). by rewrite Nat.add_succ_r in Hps.
  - rewrite (used_content b2 T), Hc2, Hc1, !length_app by done. lia.
  - intros ok b3 [[-> Hr]|(-> & Hcap3 & Hc3)]; [by left|right]. split_and!; [done|done|].
    rewrite Hc3, Hc2, Hc1. by rewrite <- !app_assoc.
Qed.

Lemma schemesave_ok T s b : typed_scheme s → 4 * T <= INT_MAX → buf_cap T b →
  ss_bufused b + Z.of_nat (length (scheme_enc s)) <= T →
  wp (sr_schemesave s) b (λ rc b', (rc = -1 ∧ refused) ∨ (rc = 0 ∧ content b' = content b ++ scheme_enc s)).
Proof.
  intros Hs HT Hcap Hu. destruct Hs as (Hn & _ & _ & _ & Hps). unfold scheme_enc in *.
  rewrite length_app, le_enc_length in Hu.
  assert (Z.of_nat (s_count s) <= Z.of_nat (length (concat (part_enc <$> parts_of s)))) as Hle.
  { rewrite Hn. clear. induction (parts_of s) as [|p ps IH]; [done|]. rewrite fmap_cons. cbn [concat length]. rewrite length_app.
    unfold part_enc at 1. rewrite length_app, !str_enc_length. lia. }
  assert (0 <= ss_bufused b) by (unfold ss_bufused; lia).
  assert (u32 (Z.of_nat (s_count s)) = Z.of_nat (s_count s)) as Ew by (apply wrap_id; unfold in_u, INT_MAX in *; lia).
  unfold sr_schemesave. rewrite Ew. apply wp_bind. eapply wp_mono; [apply (bufadd_cap T); [done|done|]|].
  { rewrite le_enc_length. lia. }
  intros rc b1 [(-> & _ & Hr)|(-> & Hcap1 & Hc1)]; [by left|]. cbn [Z.eqb].
  apply wp_bind, wp_assert; [by apply bool_decide_true|].
  apply wp_bind. eapply wp_mono; [apply (schemesave_loop_ok T _ 0); [done|done|done|]|].
  { rewrite (used_content b1 T), Hc1, length_app, le_enc_length by done. rewrite (used_content b T) in Hu by done. lia. }
  intros ok b2 [[-> Hr]|(-> & Hcap2 & Hc2)]; [left; by split|].
  apply wp_ret. right. split; [done|]. by rewrite Hc2, Hc1, <- app_assoc.
Qed.

(** ** Loading *)

Lemma cstr_ok (s r : bytes) : no_zero s → cstr (s ++ 0 :: r) = Some s.
Proof. induction 1 as [|c s Hc _ IH]; simpl; [done|]. destruct (Z.eqb_spec c 0); [done|]. by rewrite IH. Qed.
(** The string at the end of what was read so far. *)
Lemma load_str pre s r : no_zero s → Z.of_nat (length s) + 1 < 4294967296 → let buf := pre ++ str_enc s ++ r in
  load_le (length pre) 4 buf = Some (Z.of_nat (length s) + 1) ∧ cstr_at (length pre + 4) buf = Some s ∧
  (length pre + 4 + Z.to_nat (Z.of_nat (length s) + 1))%nat = length (pre ++ str_enc s).
Proof.
  intros Hz Hl buf. split_and!.
  - assert (mem_at buf (length pre) (le_enc 4 (Z.of_nat (length s) + 1))) as Hat%mem_at_read.
    { exists pre, (s ++ [0] ++ r). unfold buf, str_enc. by rewrite <- !app_assoc. }
    rewrite le_enc_length in Hat. unfold load_le. rewrite Hat. cbn [fmap option_fmap option_map].
    rewrite le_dec_enc; [done|]. change (256 ^ Z.of_nat 4) with 4294967296. lia.
  - unfold cstr_at, buf, str_enc. rewrite <- !app_assoc, app_assoc, drop_app_length'.
    + by apply cstr_ok.
    + by rewrite length_app, le_enc_length.
  - rewrite length_app, str_enc_length. lia.
Qed.

Lemma schemeadd_of ps : wp sr_schemeadd (scheme_of ps) (λ r s', (r = None ∧ s' = scheme_of ps ∧ refused) ∨
  (r = Some (length ps) ∧ s' = scheme_of (ps ++ [mk_srkey None None SS_UNDEF (length ps) None None None]))).
Proof.
  unfold sr_schemeadd. apply wp_bind. unfold cget, wp at 1; cbv beta iota.
  destruct (ss_malloc _) as [blk|] eqn:E; [|apply wp_ret; left; by eauto].
  rewrite parts_scheme_of. apply wp_bind, wp_assert; [by apply bool_decide_true|].
  unfold wp, cbind, cput, cret. right. split; [done|]. unfold scheme_of. rewrite length_app. cbn [s_count s_cmp s_cmpprefix].
  f_equal. by destruct ps.
Qed.
Lemma on_part_last ps q m (Q : Z → srkey → Prop) : wp m q Q →
  wp (on_part (length ps) m) (scheme_of (ps ++ [q])) (λ rc s', ∃ q', s' = scheme_of (ps ++ [q']) ∧ Q rc q').
Proof.
  intros Hm. unfold wp, on_part in *. rewrite parts_scheme_of, list_lookup_middle by done. cbn [mbind option_bind].
  destruct (m q) as [[rc q']|]; [|done]. cbn [mbind option_bind fst snd]. exists q'. split; [|done].
  rewrite insert_app_r_alt, Nat.sub_diag by lia. simpl. unfold scheme_of. rewrite !length_app. simpl.
  f_equal. by destruct ps.
Qed.

Lemma schemeload_loop_ok ps2 : ∀ ps1 pre rest, (∀ j p, (ps1 ++ ps2) !! j = Some p → typed_part j p) →
  Z.of_nat (length (concat (part_enc <$> ps2))) < 4294967296 →
  wp (schemeload_loop (length ps2) (length pre) (pre ++ concat (part_enc <$> ps2) ++ rest)) (scheme_of ps1)
    (λ ok s', (ok = false ∧ refused) ∨ (ok = true ∧ s' = scheme_of (ps1 ++ ps2))).
Proof.
  induction ps2 as [|p ps2 IH]; intros ps1 pre rest Hps Hlen.
  { apply wp_ret. right. by rewrite app_nil_r. }
  destruct (Hps (length ps1) p) as (name & path & ty & cp & c & cr & Ep & Eset & Hz1 & Hz2); [by rewrite list_lookup_middle|].
  rewrite fmap_cons in Hlen |- *. cbn [concat length] in Hlen |- *.
  assert (part_enc p = str_enc name ++ str_enc path) as Epe by (by rewrite Ep).
  rewrite Epe in Hlen |- *. rewrite !length_app, !str_enc_length in Hlen. repeat rewrite <- app_assoc.
  set (buf := pre ++ str_enc name ++ str_enc path ++ concat (part_enc <$> ps2) ++ rest). cbn [schemeload_loop]. apply wp_bind. eapply wp_mono; [apply schemeadd_of|].
  intros r s1 [(-> & _ & Hr)|(-> & ->)]; [apply wp_ret; by left|].
  destruct (load_str pre name (str_enc path ++ concat (part_enc <$> ps2) ++ rest) Hz1) as (E1 & E2 & E3); [lia|].
  fold buf in E1, E2. apply wp_bind. unfold cread, wp at 1. rewrite E1. apply wp_bind. unfold wp at 1. rewrite E2.
  apply wp_bind. eapply wp_mono; [apply (on_part_last _ _ _ (λ rc q, (rc = -1 ∧ refused) ∨
    (rc = 0 ∧ q = mk_srkey (Some name) None SS_UNDEF (length ps1) None None None)))|].
  { unfold wp, sr_keysetname, ss_strdup. destruct (ss_malloc _) eqn:E; simpl; eauto. }
  intros rc s2 (q & -> & [[-> Hr]|[-> ->]]); [by left|]. cbn [Z.eqb]. rewrite E3.
  destruct (load_str (pre ++ str_enc name) path (concat (part_enc <$> ps2) ++ rest) Hz2) as (F1 & F2 & F3); [lia|].
  rewrite <- (app_assoc pre) in F1, F2. fold buf in F1, F2.
  apply wp_bind. unfold wp at 1. rewrite F1. apply wp_bind. unfold wp at 1. rewrite F2.
  apply wp_bind. eapply wp_mono; [apply (on_part_last _ _ _ (λ rc q, (rc = -1 ∧ refused) ∨ (rc = 0 ∧ q = p)))|].
  { unfold wp, sr_keyset, ss_strdup. rewrite Eset. destruct (ss_malloc _) eqn:E; simpl; [|eauto]. right. by rewrite Ep. }
  intros rc s3 (q & -> & [[-> Hr]|[-> ->]]); [by left|]. cbn [Z.eqb]. rewrite F3.
  specialize (IH (ps1 ++ [p]) ((pre ++ str_enc name) ++ str_enc path) rest).
  rewrite <- !app_assoc in IH. cbn [app] in IH.
  unfold buf. rewrite <- !app_assoc. apply IH; [done|lia].
Qed.
End image.

Lemma schemeload_ok `{Alloc} s rest : typed_scheme s → Z.of_nat (length (scheme_enc s)) <= INT_MAX →
  wp (sr_schemeload (scheme_enc s ++ rest)) sr_schemeinit
    (λ rc s', (rc = -1 ∧ s_parts s' = None ∧ ∃ n, ss_malloc n = None) ∨ (rc = 0 ∧ s' = s)).
Proof.
  intros Hs Hlen. pose proof (typed_scheme_of s Hs) as Es. destruct Hs as (Hn & _ & _ & _ & Hps).
  unfold scheme_enc in *. rewrite length_app, le_enc_length in Hlen.
  assert (Z.of_nat (s_count s) <= Z.of_nat (length (concat (part_enc <$> parts_of s)))) as Hle.
  { rewrite Hn. clear. induction (parts_of s) as [|p ps IH]; [done|]. rewrite fmap_cons. cbn [concat length]. rewrite length_app.
    unfold part_enc at 1. rewrite length_app, !str_enc_length. lia. }
  unfold sr_schemeload. apply wp_bind. unfold wp at 1, cread.
  assert (load_le 0 4 ((le_enc 4 (Z.of_nat (s_count s)) ++ concat (part_enc <$> parts_of s)) ++ rest) =
    Some (Z.of_nat (s_count s))) as ->.
  { rewrite <- app_assoc. unfold load_le.
    assert (mem_at (le_enc 4 (Z.of_nat (s_count s)) ++ concat (part_enc <$> parts_of s) ++ rest) 0 (le_enc 4 (Z.of_nat (s_count s)))) as Hat%mem_at_read.
    { by exists [], (concat (part_enc <$> parts_of s) ++ rest). }
    rewrite le_enc_length in Hat. rewrite Hat. cbn [fmap option_fmap option_map].
    rewrite le_dec_enc; [done|]. change (256 ^ Z.of_nat 4) with 4294967296. unfold INT_MAX in *. lia. }
  rewrite swrap_id, Nat2Z.id, Hn by (unfold INT_MAX in *; simpl; lia).
  apply wp_bind. pose proof (schemeload_loop_ok (parts_of s) [] (le_enc 4 (Z.of_nat (s_count s))) rest) as Hl.
  rewrite le_enc_length, app_assoc, Hn in Hl.
  eapply wp_mono; [apply Hl; [done|unfold INT_MAX in *; lia]|].
  intros ok s' [[-> Hr]|(-> & ->)]; [|right; by rewrite Es at 2]. left. split_and!; [done| |done].
  unfold sr_schemefree. by destruct (s_parts s') eqn:E.
Qed.

(** A prefix of the first part, and nothing else, matches. *)
Lemma memcmp_eq a b : length a = length b → memcmp a b = 0 ↔ a = b.
Proof.
  revert b. induction a as [|x a IH]; intros [|y b] Hl; simpl in *; try done. injection Hl as Hl.
  destruct (Z.eqb_spec x y) as [->|]; [rewrite IH by done|]; split; intros E; simplify_eq; (done || lia).
Qed.
Lemma compareprefix_ok s p parts prefix row k : s_cmpprefix s = SCHEME_OWN → parts_of s = p :: parts →
  k_cmpprefix p = Some CMPSTRING_PREFIX → sf_keydata 0 row = Some k →
  ∃ rc, sr_compareprefix s prefix row = Some rc ∧ (rc = 1 ∨ rc = 0) ∧ (rc = 1 ↔ prefix `prefix_of` k).
Proof.
  intros Hc Hp Hf Hk. destruct (keydata_inv _ _ _ Hk) as [Es Er]. unfold sr_compareprefix, sr_schemecompare_prefix.
  rewrite Hc, Hp. cbn [head mbind option_bind]. rewrite Hf. cbn [mbind option_bind call_cmp]. unfold sr_cmpstring_prefix.
  rewrite Es. destruct (sf_key 0 row) as [off|]; [|done]. cbn [mbind option_bind] in *.
  destruct (mem_read_at _ _ _ _ Er) as [Hat _]. case_decide as Hl.
  - exists 0. split_and!; [done|by right|]. split; [done|]. intros [r ->]. rewrite length_app in Hl. lia.
  - rewrite <- (take_drop (length prefix) k) in Hat. apply mem_at_app in Hat as [Hat%mem_at_read _].
    rewrite length_take_le in Hat by lia. rewrite Hat. cbn [mbind option_bind]. eexists. split; [done|].
    destruct (Z.eqb_spec (memcmp prefix (take (length prefix) k)) 0) as [E|N]; (split; [auto|]); split; try done.
    + intros _. apply memcmp_eq in E; [|rewrite length_take; lia]. exists (drop (length prefix) k).
      rewrite E at 1. by rewrite take_drop.
    + intros [r ->]. rewrite take_app_length in N. by rewrite (proj2 (memcmp_eq prefix prefix eq_refl) eq_refl) in N.
Qed.

(** * Correctness *)

(** C26: the comparison of a scheme is a total order on rows (reflexive, antisymmetric up to
    equal keys, transitive), and on rows that have every part of it [sr_compare] never faults
    and computes it: part by part, integers as little-endian numbers, strings by their bytes,
    reversed parts the other way round. *)
Theorem sr_compare_order s : s_cmp s = SCHEME_OWN → s_count s = length (parts_of s) →
  KeyOrder (scheme_cmp s) ∧
  ∀ a b, row_ready s a → row_ready s b → sr_compare s a b = Some (scheme_cmp s a b).
Proof.
  intros Hc Hn. split; [apply _|]. intros a b Ha Hb. unfold sr_compare, sr_schemecompare. rewrite Hc, decide_True by done.
  apply schemecompare_loop_ok. unfold row_ready in *. rewrite Forall_forall in *. intros p Hp. split; auto.
Qed.

(** The image [sr_schemesave] writes, [sr_schemeload] reads back into the same scheme,
    whatever follows it; the only failure of either is a refused allocation, after which
    loading leaves no parts behind. *)
Theorem sr_scheme_roundtrip `{Alloc} s b rest : typed_scheme s → buf_ok b → content b = [] →
  ss_bufsize b <= 2 * Z.of_nat (length (scheme_enc s)) → 4 * Z.of_nat (length (scheme_enc s)) <= INT_MAX →
  ∃ rc b', sr_schemesave s b = Some (rc, b') ∧
    ((rc = -1 ∧ ∃ n, ss_malloc n = None) ∨
     (rc = 0 ∧ ∃ rc' s', sr_schemeload (content b' ++ rest) sr_schemeinit = Some (rc', s') ∧
        ((rc' = -1 ∧ s_parts s' = None ∧ ∃ n, ss_malloc n = None) ∨ (rc' = 0 ∧ s' = s)))).
Proof.
  intros Hs Hb Hc Hsz Hmax. set (T := Z.of_nat (length (scheme_enc s))) in *.
  assert (ss_bufused b = 0) as Hu by (rewrite (used_content b T) by done; by rewrite Hc).
  destruct (proj1 (wp_run _ _ _) (schemesave_ok T s b Hs ltac:(lia) (conj Hb Hsz) ltac:(lia))) as (rc & b' & E & Hq).
  exists rc, b'. split; [done|]. destruct Hq as [Hq|[-> Hq]]; [by left|right]. split; [done|].
  rewrite Hq, Hc. assert (T <= INT_MAX) by (unfold INT_MAX in *; lia).
  apply (proj1 (wp_run _ _ _) (schemeload_ok s rest Hs ltac:(done))).
Qed.

(** ** Witnesses: a scheme of a descending number and a string *)
Definition demo_part1 : srkey :=
  mk_srkey (Some (c_str "id")) (Some (c_str "u32_rev")) SS_U32 0 (Some CMPANY) (Some CMPU32_RAW_REVERSE) (Some CMPU32_REVERSE).
Definition demo_part2 : srkey :=
  mk_srkey (Some (c_str "key")) (Some (c_str "string")) SS_STRING 1 (Some CMPSTRING_PREFIX) (Some CMPSTRING_RAW) (Some CMPSTRING).
Definition demo_scheme : srscheme := scheme_of [demo_part1; demo_part2].
Lemma demo_typed : typed_scheme demo_scheme.
Proof.
  split_and!; try done; [by right|]. intros [|[|i]] p Hp; simpl in Hp; simplify_eq.
  - exists (c_str "id"), (c_str "u32_rev"). do 4 eexists. split_and!; [done|done|by repeat constructor|by repeat constructor].
  - exists (c_str "key"), (c_str "string"). do 4 eexists. split_and!; [done|done|by repeat constructor|by repeat constructor].
Qed.
Lemma sr_compare_order_witness :
  sr_compare demo_scheme (row [[1; 0; 0; 0]; [7]] []) (row [[2; 0; 0; 0]; [6; 6]] []) = Some 1.
Proof.
  refine (eq_trans (proj2 (sr_compare_order demo_scheme _ _) (row [[1; 0; 0; 0]; [7]] []) (row [[2; 0; 0; 0]; [6; 6]] []) _ _) _).
  - reflexivity.
  - reflexivity.
  - repeat constructor; do 2 eexists; (split_and!; [reflexivity|reflexivity|vm_compute; reflexivity|simpl; lia]).
  - repeat constructor; do 2 eexists; (split_and!; [reflexivity|reflexivity|vm_compute; reflexivity|simpl; lia]).
  - vm_compute. reflexivity.
Defined.
Lemma sr_scheme_roundtrip_witness : ∃ rc b',
  sr_schemesave (H := demo_alloc) demo_scheme ss_bufinit = Some (rc, b') ∧ rc = 0 ∧
  sr_schemeload (H := demo_alloc) (content b' ++ [1; 2]) sr_schemeinit = Some (0, demo_scheme).
Proof.
  destruct (sr_scheme_roundtrip (H := demo_alloc) demo_scheme ss_bufinit [1; 2])
    as (rc & b' & E & [[_ [n Hn]]|[Hrc (rc' & s' & E' & [(_ & _ & n & Hn)|[-> ->]])]]).
  - exact demo_typed.
  - by split.
  - reflexivity.
  - vm_compute. discriminate.
  - vm_compute. discriminate.
  - done.
  - done.
  - exists rc, b'. exact (conj E (conj Hrc E')).
Defined.
