(* ===== verification/SvMerge.v ===== *)
(** The merge of several sorted streams: sv_merge.h and sv_mergeiter.h. *)
From stdpp Require Import base list gmap sorting.
From S2P Require Import Prelude SsOrder Sv.
Local Open Scope Z_scope.

Section mergeiter.
Context {I : Type} `{SsIter I} (cmp : bytes → bytes → Z).

Record svmergesrc := mk_src { src_i : I; src_dup : bool }.
(** The sources of the merge, in the order they were added. *)
Abbreviation svmerge := (list svmergesrc).
Record svmergeiter := mk_mergeiter { mi_order : ssorder; mi_src : svmerge; mi_v : option nat }.

(** [sv_mergeadd] on a prepared merge. *)
Definition sv_mergeadd (m : svmerge) (i : I) : svmerge := m ++ [mk_src i false].
Definition sv_mergereset (m : svmerge) : svmerge := [].

Definition set_dup (b : bool) (s : svmergesrc) : svmergesrc := mk_src (src_i s) b.

(** The sources before [pos] lose their mark. *)
Definition sv_mergeiter_dupreset (m : svmerge) (pos : nat) : svmerge :=
  (set_dup false <$> take pos m) ++ drop pos m.

(** [if (i->v) { i->v->dup = 0; ss_iteratornext(i->v->i); }] *)
Definition mergeiter_advance (m : svmerge) (v : option nat) : svmerge :=
  match v with
  | Some p => alter (λ s, mk_src (it_next (src_i s)) false) p m
  | None => m
  end.

(** The loop over the sources; [pick] is the answer of [sv_compare(minv, v)] on which the
    source becomes the candidate. *)
Fixpoint mergeiter_scan (pick : Z) (todo : nat) (pos : nat) (m : svmerge)
    (min : option (nat * sv)) : svmerge * option (nat * sv) :=
  match todo with
  | O => (m, min)
  | S todo =>
      match m !! pos ≫= λ s, it_of (src_i s) with
      | None => mergeiter_scan pick todo (S pos) m min
      | Some v =>
          match min with
          | None => mergeiter_scan pick todo (S pos) m (Some (pos, v))
          | Some (_, minv) =>
              let rc := sv_compare cmp minv v in
              if Z.eqb rc 0 then
                mergeiter_scan pick todo (S pos) (alter (set_dup true) pos m) min
              else if Z.eqb rc pick then
                mergeiter_scan pick todo (S pos) (sv_mergeiter_dupreset m pos) (Some (pos, v))
              else mergeiter_scan pick todo (S pos) m min
          end
      end
  end.

Definition sv_mergeiter_gt (i : svmergeiter) : svmergeiter :=
  let m := mergeiter_advance (mi_src i) (mi_v i) in
  let r := mergeiter_scan 1 (length m) 0 m None in
  mk_mergeiter (mi_order i) r.1 (fst <$> r.2).
Definition sv_mergeiter_lt (i : svmergeiter) : svmergeiter :=
  let m := mergeiter_advance (mi_src i) (mi_v i) in
  let r := mergeiter_scan (-1) (length m) 0 m None in
  mk_mergeiter (mi_order i) r.1 (fst <$> r.2).

(** [None]: the [default] case, an assertion failure. *)
Definition sv_mergeiter_next (i : svmergeiter) : option svmergeiter :=
  match mi_order i with
  | SS_GT | SS_GTE => Some (sv_mergeiter_gt i)
  | SS_LT | SS_LTE => Some (sv_mergeiter_lt i)
  | _ => None
  end.
Definition sv_mergeiter_open (m : svmerge) (o : ssorder) : option svmergeiter :=
  sv_mergeiter_next (mk_mergeiter o m None).
Definition sv_mergeiter_has (i : svmergeiter) : bool := bool_decide (is_Some (mi_v i)).
Definition sv_mergeiter_of (i : svmergeiter) : option sv :=
  p ← mi_v i; s ← mi_src i !! p; it_of (src_i s).
(** [None]: the assertion [im->v != NULL] fails. *)
Definition sv_mergeisdup (i : svmergeiter) : option Z :=
  p ← mi_v i; s ← mi_src i !! p; Some (if src_dup s then SVDUP else 0).
End mergeiter.
Arguments svmergesrc : clear implicits.
Arguments svmergeiter : clear implicits.
