(* ===== verification/SvMergeProofs.v ===== *)
(** The merge iterator yields the stable merge of its sources and tells duplicates. *)
From stdpp Require Import base list gmap sorting.
From S2P Require Import Prelude SsOrder Sv SvMerge.
Local Open Scope Z_scope.

(** * The reference: the stable merge of sorted lists *)

Section reference.
Context {A : Type} (le : A → A → bool).

Fixpoint merge2 (l1 : list A) : list A → list A :=
  fix go (l2 : list A) :=
    match l1, l2 with
    | [], _ => l2
    | _, [] => l1
    | a :: l1', b :: l2' => if le a b then a :: merge2 l1' l2 else b :: go l2'
    end.
Definition kmerge (ls : list (list A)) : list A := foldr merge2 [] ls.

Lemma merge2_nil_r l : merge2 l [] = l.
Proof. by destruct l. Qed.
Lemma merge2_left a l1 l2 : (∀ b, head l2 = Some b → le a b = true) →
  merge2 (a :: l1) l2 = a :: merge2 l1 l2.
Proof. destruct l2 as [|b l2]; simpl; intros Hb; [by rewrite merge2_nil_r|]. by rewrite Hb. Qed.
Lemma merge2_right l1 b l2 : (∀ a, head l1 = Some a → le a b = false) →
  merge2 l1 (b :: l2) = b :: merge2 l1 l2.
Proof. destruct l1 as [|a l1]; simpl; intros Ha; [by destruct l2|]. by rewrite Ha. Qed.
Lemma merge2_perm l1 l2 : merge2 l1 l2 ≡ₚ l1 ++ l2.
Proof.
  revert l2. induction l1 as [|a l1 IH1]; [by destruct l2|].
  induction l2 as [|b l2 IH2]; [by rewrite merge2_nil_r, app_nil_r|].
  simpl. destruct (le a b); [by rewrite IH1|]. change (b :: merge2 (a :: l1) l2 ≡ₚ a :: l1 ++ b :: l2).
  rewrite IH2. simpl. solve_Permutation.
Qed.
Lemma kmerge_perm ls : kmerge ls ≡ₚ concat ls.
Proof. induction ls as [|l ls IH]; simpl; [done|]. by rewrite merge2_perm, IH. Qed.

Context (Hle_trans : ∀ a b c, le a b = true → le b c = true → le a c = true)
        (Hle_total : ∀ a b, le a b = false → le b a = true).
Abbreviation sorted := (StronglySorted (λ a b, le a b = true)).

Lemma merge2_sorted l1 l2 : sorted l1 → sorted l2 → sorted (merge2 l1 l2).
Proof.
  intros H1. revert l2. induction H1 as [|a l1 H1 IH1 Ha]; intros l2 H2; [by destruct l2|].
  induction H2 as [|b l2 H2 IH2 Hb]; [by constructor|]. simpl. destruct (le a b) eqn:E.
  - constructor; [apply IH1; by constructor|]. rewrite merge2_perm. apply Forall_app. split; [done|].
    constructor; [done|]. eapply Forall_impl; [exact Hb|]. eauto.
  - change (sorted (b :: merge2 (a :: l1) l2)). constructor; [done|]. rewrite merge2_perm.
    apply Hle_total in E. constructor; [done|]. apply Forall_app. split; [|done].
    eapply Forall_impl; [exact Ha|]. eauto.
Qed.
Lemma kmerge_sorted ls : Forall sorted ls → sorted (kmerge ls).
Proof. induction 1; simpl; [constructor|]. by apply merge2_sorted. Qed.

(** The head of the merge is the first of the least heads. *)
Definition hd_at (ls : list (list A)) (p : nat) : option A := ls !! p ≫= head.
Record is_best (hd : nat → option A) (n q : nat) (v : A) : Prop := mk_best {
  best_at : hd q = Some v;
  best_lt : (q < n)%nat;
  best_before : ∀ p w, (p < q)%nat → hd p = Some w → le w v = false;
  best_least : ∀ p w, (p < n)%nat → hd p = Some w → le v w = true
}.

Lemma kmerge_head ls w : head (kmerge ls) = Some w → ∃ p, hd_at ls p = Some w ∧ (p < length ls)%nat.
Proof.
  induction ls as [|l ls IH]; simpl; [done|]. intros Hw.
  destruct l as [|a l].
  - destruct IH as (p & Hp & ?); [by destruct (kmerge ls)|]. exists (S p). split; [done|lia].
  - destruct (kmerge ls) as [|b k] eqn:Ek; simpl in Hw.
    + exists 0%nat. simplify_eq. split; [done|lia].
    + destruct (le a b); simplify_eq/=; [exists 0%nat; split; [done|lia]|].
      destruct IH as (p & Hp & ?); [done|]. exists (S p). split; [done|lia].
Qed.
Lemma kmerge_best ls q v : is_best (hd_at ls) (length ls) q v →
  kmerge ls = v :: kmerge (alter tail q ls).
Proof.
  revert q. induction ls as [|l ls IH]; intros q [Hq Hlt Hb Hl]; [simpl in Hlt; lia|].
  change (kmerge (l :: ls)) with (merge2 l (kmerge ls)). destruct q as [|q].
  - destruct l as [|a l]; unfold hd_at in Hq; simpl in Hq; [done|]. simplify_eq.
    rewrite merge2_left; [done|]. intros b (p & Hp & ?)%kmerge_head. apply (Hl (S p)); [simpl; lia|done].
  - rewrite (IH q).
    + rewrite merge2_right; [reflexivity|]. intros a Ha. apply (Hb 0%nat); [lia|done].
    + split; [done|simpl in Hlt; lia| |].
      * intros p w Hp. apply (Hb (S p)). lia.
      * intros p w Hp. apply (Hl (S p)). simpl. lia.
Qed.
Lemma kmerge_none ls : (∀ p, (p < length ls)%nat → hd_at ls p = None) → kmerge ls = [].
Proof.
  intros Hn. destruct (head (kmerge ls)) as [w|] eqn:E; [|by destruct (kmerge ls)].
  apply kmerge_head in E as (p & Hp & Hlt). by rewrite Hn in Hp.
Qed.
End reference.

(** * The scan of the sources *)

(** Walking downwards is walking upwards with the comparison reversed. *)
Lemma mergeiter_scan_flip {I} `{SsIter I} cmp todo pos (m : list (svmergesrc I)) min :
  mergeiter_scan cmp (-1) todo pos m min =
  mergeiter_scan (λ a b, - cmp a b) 1 todo pos m min.
Proof.
  revert pos m min. induction todo as [|todo IH]; intros pos m min; simpl; [done|].
  destruct (m !! pos ≫= _) as [v|]; [|apply IH]. destruct min as [[q mv]|]; [|apply IH].
  unfold sv_compare. destruct (Z.eqb_spec (cmp (sv_pointer mv) (sv_pointer v)) 0) as [->|Hne]; [apply IH|].
  destruct (Z.eqb_spec (- cmp (sv_pointer mv) (sv_pointer v)) 0); [lia|].
  destruct (Z.eqb_spec (cmp (sv_pointer mv) (sv_pointer v)) (-1)),
    (Z.eqb_spec (- cmp (sv_pointer mv) (sv_pointer v)) 1); try lia; apply IH.
Qed.

Section scan.
Context {I : Type} `{SsIter I} (cmp : bytes → bytes → Z) `{!KeyOrder cmp}.
Abbreviation scmp := (sv_compare cmp).
Definition sle (a b : sv) : bool := Z.leb (scmp a b) 0.
Definition same (a b : sv) : bool := Z.eqb (scmp a b) 0.

Lemma sle_trans a b c : sle a b = true → sle b c = true → sle a c = true.
Proof. unfold sle. rewrite !Z.leb_le. apply (cmp_le_trans (cmp:=scmp)). Qed.
Lemma sle_total a b : sle a b = false → sle b a = true.
Proof. unfold sle. rewrite Z.leb_gt, Z.leb_le, (cmp_opp (cmp:=scmp) a b). lia. Qed.
Lemma scmp_gt a b : scmp a b = 1 → sle a b = false.
Proof. unfold sle. rewrite Z.leb_gt. lia. Qed.
Lemma same_sle a b : same a b = true → sle a b = true ∧ sle b a = true.
Proof. unfold same, sle. rewrite Z.eqb_eq, !Z.leb_le, (cmp_opp (cmp:=scmp) a b). lia. Qed.
Lemma sle_same a b : sle a b = true → sle b a = true → same a b = true.
Proof. unfold same, sle. rewrite !Z.leb_le, Z.eqb_eq, (cmp_opp (cmp:=scmp) a b). lia. Qed.
Lemma same_sym a b : same a b = same b a.
Proof. unfold same. rewrite (cmp_opp (cmp:=scmp) a b). destruct (Z.eqb_spec (scmp a b) 0), (Z.eqb_spec (- scmp a b) 0); lia || done. Qed.

(** The head and the mark of a source. *)
Definition hd (m : list (svmergesrc I)) (p : nat) : option sv := m !! p ≫= λ s, it_of (src_i s).
Definition dup (m : list (svmergesrc I)) (p : nat) : bool := default false (src_dup <$> m !! p).

Lemma dup_set_dup b m p q : (p < length m)%nat →
  dup (alter (set_dup b) p m) q = if decide (q = p) then b else dup m q.
Proof.
  intros Hp. unfold dup. case_decide as E; [subst|by rewrite list_lookup_alter_ne].
  rewrite list_lookup_alter_eq. by destruct (lookup_lt_is_Some_2 _ _ Hp) as [s ->].
Qed.
Lemma lookup_dupreset (m : list (svmergesrc I)) p q :
  sv_mergeiter_dupreset m p !! q = (if decide (q < p)%nat then set_dup false else id) <$> m !! q.
Proof.
  unfold sv_mergeiter_dupreset. destruct (decide (q < length m)%nat) as [Hq|Hq].
  - case_decide.
    + rewrite lookup_app_l by (rewrite length_fmap, length_take; lia).
      rewrite list_lookup_fmap, lookup_take_lt by lia. done.
    + rewrite lookup_app_r by (rewrite length_fmap, length_take; lia).
      rewrite length_fmap, length_take, lookup_drop, option_fmap_id. f_equal. lia.
  - rewrite !lookup_ge_None_2; [done|lia|]. rewrite length_app, length_fmap, length_take, length_drop. lia.
Qed.
Lemma dup_dupreset m p q : dup (sv_mergeiter_dupreset m p) q = if decide (q < p)%nat then false else dup m q.
Proof. unfold dup. rewrite lookup_dupreset. case_decide; destruct (m !! q); done. Qed.

(** A mark at the start of a scan is only on a source whose head is least. *)
Definition marks_ok (m : list (svmergesrc I)) : Prop :=
  ∀ p w q v, dup m p = true → hd m p = Some w → hd m q = Some v → sle w v = true.

(** The state of the scan after [pos] sources: the candidate and the marks. *)
Record scanned (m0 m : list (svmergesrc I)) (pos : nat) (min : option (nat * sv)) : Prop := mk_scanned {
  sc_i : src_i <$> m = src_i <$> m0;
  sc_rest : ∀ p, (pos <= p)%nat → dup m p = dup m0 p;
  sc_min : match min with
           | None => ∀ p, (p < pos)%nat → hd m0 p = None
           | Some (q, v) =>
               is_best sle (hd m0) pos q v ∧ dup m q = dup m0 q ∧
               ∀ p w, (p < pos)%nat → p ≠ q → hd m0 p = Some w → dup m p = same v w
           end
}.

Lemma src_i_set_dup b (m : list (svmergesrc I)) p : src_i <$> alter (set_dup b) p m = src_i <$> m.
Proof.
  apply list_eq. intros q. rewrite !list_lookup_fmap. destruct (decide (p = q)) as [->|].
  - rewrite list_lookup_alter_eq. by destruct (m !! q).
  - by rewrite list_lookup_alter_ne.
Qed.
Lemma src_i_dupreset (m : list (svmergesrc I)) p : src_i <$> sv_mergeiter_dupreset m p = src_i <$> m.
Proof.
  apply list_eq. intros q. rewrite !list_lookup_fmap, lookup_dupreset. case_decide; by destruct (m !! q).
Qed.
Lemma hd_src_i (m m0 : list (svmergesrc I)) p : src_i <$> m = src_i <$> m0 → hd m p = hd m0 p.
Proof.
  intros E. assert (src_i <$> m !! p = src_i <$> m0 !! p) as E' by (rewrite <- !list_lookup_fmap; by rewrite E).
  unfold hd. destruct (m !! p), (m0 !! p); simplify_eq/=; congruence.
Qed.
Lemma length_src_i (m m0 : list (svmergesrc I)) : src_i <$> m = src_i <$> m0 → length m = length m0.
Proof. intros E. by rewrite <- (length_fmap src_i m), E, length_fmap. Qed.

(** One source more. *)
Lemma scanned_none m0 m pos min : scanned m0 m pos min → hd m0 pos = None → scanned m0 m (S pos) min.
Proof.
  intros [Hi Hr Hm] Hn. split; [done|intros; apply Hr; lia|]. destruct min as [[q v]|].
  - destruct Hm as ([Hq Hlt Hb Hle] & Hd & Hm). split_and!; [|done|].
    + split; [done|lia|done|]. intros p w Hp Hw. apply (Hle p); [|done].
      destruct (decide (p = pos)) as [->|]; [congruence|lia].
    + intros p w Hp Hne Hw. apply Hm; [|done|done]. destruct (decide (p = pos)) as [->|]; [congruence|lia].
  - intros p Hp. destruct (decide (p = pos)) as [->|]; [done|]. apply Hm. lia.
Qed.
Lemma scanned_first m0 m pos v : scanned m0 m pos None → hd m0 pos = Some v →
  scanned m0 m (S pos) (Some (pos, v)).
Proof.
  intros [Hi Hr Hm] Hv. split; [done|intros; apply Hr; lia|]. split_and!.
  - split; [done|lia| |].
    + intros p w Hp. by rewrite Hm by lia.
    + intros p w Hp Hw. destruct (decide (p = pos)) as [->|]; [|by rewrite Hm in Hw by lia].
      simplify_eq. unfold sle. by rewrite (cmp_refl (cmp:=scmp)).
  - apply Hr. lia.
  - intros p w Hp Hne. by rewrite Hm by lia.
Qed.
Lemma scanned_equal m0 m pos q mv v : scanned m0 m pos (Some (q, mv)) → (pos < length m0)%nat →
  hd m0 pos = Some v → scmp mv v = 0 → scanned m0 (alter (set_dup true) pos m) (S pos) (Some (q, mv)).
Proof.
  intros [Hi Hr ([Hq Hlt Hb Hle] & Hd & Hm)] Hpos Hv E. apply length_src_i in Hi as Hl. split.
  - by rewrite src_i_set_dup.
  - intros p Hp. rewrite dup_set_dup, decide_False by lia. apply Hr. lia.
  - split_and!.
    + split; [done|lia|done|]. intros p w Hp Hw.
      destruct (decide (p = pos)) as [->|]; [|apply (Hle p); [lia|done]].
      simplify_eq. unfold sle. by rewrite E.
    + rewrite dup_set_dup, decide_False by lia. done.
    + intros p w Hp Hne Hw. rewrite dup_set_dup by lia. case_decide; [|apply Hm; [lia|done|done]].
      subst. simplify_eq. unfold same. by rewrite E.
Qed.
Lemma scanned_better m0 m pos q mv v : scanned m0 m pos (Some (q, mv)) →
  hd m0 pos = Some v → scmp mv v = 1 →
  scanned m0 (sv_mergeiter_dupreset m pos) (S pos) (Some (pos, v)).
Proof.
  intros [Hi Hr ([Hq Hlt Hb Hle] & Hd & Hm)] Hv E. apply scmp_gt in E as E'.
  assert (∀ p w, (p < pos)%nat → hd m0 p = Some w → sle w v = false) as Hgt.
  { intros p w Hp Hw. destruct (sle w v) eqn:Ew; [|done].
    rewrite (sle_trans mv w v) in E'; [done|by apply (Hle p)|done]. }
  split.
  - by rewrite src_i_dupreset.
  - intros p Hp. rewrite dup_dupreset, decide_False by lia. apply Hr. lia.
  - split_and!.
    + split; [done|lia|done|]. intros p w Hp Hw.
      destruct (decide (p = pos)) as [->|]; [simplify_eq; unfold sle; by rewrite (cmp_refl (cmp:=scmp))|].
      apply sle_total. apply (Hgt p); [lia|done].
    + rewrite dup_dupreset, decide_False by lia. apply Hr. lia.
    + intros p w Hp Hne Hw. rewrite dup_dupreset, decide_True by lia.
      destruct (same v w) eqn:Es; [|done]. apply same_sle in Es as [_ Es].
      rewrite (Hgt p w) in Es; [done|lia|done].
Qed.
Lemma scanned_worse m0 m pos q mv v : marks_ok m0 → scanned m0 m pos (Some (q, mv)) →
  hd m0 pos = Some v → scmp mv v = -1 → scanned m0 m (S pos) (Some (q, mv)).
Proof.
  intros Hmk [Hi Hr ([Hq Hlt Hb Hle] & Hd & Hm)] Hv E.
  split; [done|intros; apply Hr; lia|]. split_and!; [|done|].
  - split; [done|lia|done|]. intros p w Hp Hw.
    destruct (decide (p = pos)) as [->|]; [|apply (Hle p); [lia|done]].
    simplify_eq. unfold sle. by rewrite E.
  - intros p w Hp Hne Hw. destruct (decide (p = pos)) as [->|]; [|apply Hm; [lia|done|done]].
    simplify_eq. rewrite Hr by lia. unfold same. rewrite E. simpl.
    destruct (dup m0 pos) eqn:Ed; [|done]. pose proof (Hmk _ _ _ _ Ed Hv Hq) as Hle'.
    unfold sle in Hle'. rewrite (cmp_opp (cmp:=scmp) mv v), E in Hle'. done.
Qed.

Lemma scan_ok m0 : marks_ok m0 → ∀ todo pos m min, scanned m0 m pos min →
  (pos + todo = length m0)%nat →
  let r := mergeiter_scan cmp 1 todo pos m min in scanned m0 r.1 (length m0) r.2.
Proof.
  intros Hmk. induction todo as [|todo IH]; intros pos m min Hsc Hlen; simpl.
  { by replace (length m0) with pos by lia. }
  change (m !! pos ≫= _) with (hd m pos). rewrite (hd_src_i _ _ _ (sc_i _ _ _ _ Hsc)).
  destruct (hd m0 pos) as [v|] eqn:Ev; [|apply IH; [by apply scanned_none|lia]].
  destruct min as [[q mv]|]; [|apply IH; [by apply scanned_first|lia]].
  destruct (cmp_range (cmp:=scmp) mv v) as [E|[E|E]]; rewrite E; simpl; (apply IH; [|lia]).
  - by eapply scanned_worse.
  - by eapply scanned_equal; [..|lia| |].
  - by eapply scanned_better.
Qed.
Lemma scanned_start m0 : scanned m0 m0 0 None.
Proof. split; try done. intros; lia. Qed.
End scan.

(** * The whole iteration *)

Section drain.
Context {I : Type} `{SsIter I}.

(** Reads the iterator to its end: every version with the duplicate test its users make,
    [sv_is(v, SVDUP) || sv_mergeisdup(i)]. *)
Fixpoint mergeiter_drain (cmp : bytes → bytes → Z) (fuel : nat) (i : svmergeiter I) : option (list (sv * bool)) :=
  match fuel with
  | O => None
  | S fuel =>
      match sv_mergeiter_of i with
      | None => Some []
      | Some v =>
          d ← sv_mergeisdup i;
          i' ← sv_mergeiter_next cmp i;
          l ← mergeiter_drain cmp fuel i';
          Some ((v, sv_is v SVDUP || c_true d) :: l)
      end
  end.

Context (cmp : bytes → bytes → Z) `{!KeyOrder cmp}.

(** What is asked of a source: its keys do not decrease, and a version carries [SVDUP]
    exactly when the key is that of the version before it. *)
Definition dup_after (prev : option sv) (v : sv) : bool :=
  match prev with Some u => same cmp u v | None => false end.
Fixpoint flagged (prev : option sv) (l : list sv) : Prop :=
  match l with
  | [] => True
  | v :: l => sv_is v SVDUP = dup_after prev v ∧ flagged (Some v) l
  end.
Definition stream_ok (l : list sv) : Prop :=
  StronglySorted (λ a b, sle cmp a b = true) l ∧ flagged None l.

(** The versions with the test "same key as the one before". *)
Fixpoint mark (prev : option sv) (l : list sv) : list (sv * bool) :=
  match l with [] => [] | v :: l => (v, dup_after prev v) :: mark (Some v) l end.

Lemma length_mark prev l : length (mark prev l) = length l.
Proof. revert prev. induction l as [|v l IH]; intros prev; simpl; [done|]. by rewrite IH. Qed.

(** The sources before a scan, [prev] being the last version that was yielded. *)
Record ready (prev : option sv) (m : list (svmergesrc I)) (ls : list (list sv)) : Prop := mk_ready {
  rd_enum : Forall2 (λ s l, enumerates (src_i s) l) m ls;
  rd_sort : Forall (StronglySorted (λ a b, sle cmp a b = true)) ls;
  rd_flag : Forall (λ l, flagged (head l) (tail l)) ls;
  rd_dup : ∀ p w, hd m p = Some w → dup m p || sv_is w SVDUP = dup_after prev w;
  rd_prev : ∀ u p w, prev = Some u → hd m p = Some w → sle cmp u w = true
}.

Lemma hd_streams m ls p : Forall2 (λ s l, enumerates (src_i s) l) m ls → hd m p = hd_at ls p.
Proof.
  intros HF. unfold hd, hd_at. destruct (m !! p) as [s|] eqn:Es; simpl.
  - destruct (Forall2_lookup_l _ _ _ _ _ HF Es) as (l & -> & Hl). simpl. by apply enumerates_of.
  - apply lookup_ge_None in Es. rewrite lookup_ge_None_2; [done|]. by rewrite <- (Forall2_length _ _ _ HF).
Qed.

Lemma ready_marks prev m ls : ready prev m ls → marks_ok cmp m.
Proof.
  intros [_ _ _ Hd Hp] p w q v Hdup Hw Hv. specialize (Hd p w Hw). rewrite Hdup in Hd. simpl in Hd.
  destruct prev as [u|]; [|done]. simpl in Hd. symmetry in Hd. apply same_sle in Hd as [_ Hd]; [|done].
  apply (sle_trans cmp w u v); [done|]. by eapply Hp.
Qed.

(** The source of the yielded version after its step, and the others. *)
Lemma advance_self (m m' : list (svmergesrc I)) ls q v l : src_i <$> m' = src_i <$> m →
  Forall2 (λ s l, enumerates (src_i s) l) m ls → ls !! q = Some (v :: l) →
  ∃ s, mergeiter_advance m' (Some q) !! q = Some s ∧ src_dup s = false ∧ enumerates (src_i s) l.
Proof.
  intros Hi He El. destruct (Forall2_lookup_r _ _ _ _ _ He El) as (s & Es & _ & Henum).
  assert (src_i <$> m' !! q = Some (src_i s)) as Es'.
  { rewrite <- list_lookup_fmap, Hi, list_lookup_fmap, Es. done. }
  simpl. rewrite list_lookup_alter_eq. destruct (m' !! q) as [s'|]; simpl in Es'; [|done].
  injection Es' as Es'. eexists. split_and!; [done|done|]. simpl. by rewrite Es'.
Qed.
Lemma advance_enum (m m' : list (svmergesrc I)) ls q : src_i <$> m' = src_i <$> m →
  Forall2 (λ s l, enumerates (src_i s) l) m ls → (∀ l, ls !! q = Some l → l ≠ []) →
  Forall2 (λ s l, enumerates (src_i s) l) (mergeiter_advance m' (Some q)) (alter tail q ls).
Proof.
  intros Hi He Hq. apply Forall2_same_length_lookup_2.
  { simpl. rewrite !length_alter, (length_src_i _ _ Hi). by eapply Forall2_length. }
  intros p s l Hs Hl. destruct (decide (p = q)) as [->|Hne].
  - rewrite list_lookup_alter_eq in Hl. destruct (ls !! q) as [l'|] eqn:El; simplify_eq/=.
    destruct l' as [|v l']; [by destruct (Hq [] eq_refl)|].
    destruct (advance_self m m' ls q v l' Hi He El) as (s' & Es & _ & ?).
    by pose proof (eq_trans (eq_sym Hs) Es) as [= ->].
  - simpl in Hs. rewrite list_lookup_alter_ne in Hs by done. rewrite list_lookup_alter_ne in Hl by done.
    destruct (Forall2_lookup_r _ _ _ _ _ He Hl) as (s0 & Es & ?).
    assert (src_i <$> m' !! p = src_i <$> m !! p) as E by (rewrite <- !list_lookup_fmap; by rewrite Hi).
    rewrite Hs, Es in E. simpl in E. injection E as ->. done.
Qed.

(** A version is yielded: the rest of the sources is ready for the next scan. *)
Lemma ready_next prev m ls m' q v : ready prev m ls → scanned cmp m m' (length m) (Some (q, v)) →
  ready (Some v) (mergeiter_advance m' (Some q)) (alter tail q ls).
Proof.
  intros [He Hs Hf Hd Hp] [Hi Hr ([Hq Hlt Hb Hle] & Hdq & Hm)].
  assert (∃ l, ls !! q = Some (v :: l)) as [l El].
  { rewrite (hd_streams _ _ _ He) in Hq. unfold hd_at in Hq.
    destruct (ls !! q) as [[|v' l]|]; simplify_eq/=. eauto. }
  assert (∀ p w, p ≠ q → hd (mergeiter_advance m' (Some q)) p = Some w →
            hd m p = Some w ∧ dup (mergeiter_advance m' (Some q)) p = same cmp v w) as Hother.
  { intros p w Hne. unfold hd, dup. simpl. rewrite list_lookup_alter_ne by done.
    change (hd m' p = Some w → hd m p = Some w ∧ dup m' p = same cmp v w).
    rewrite (hd_src_i _ _ _ Hi). intros Hw. split; [done|]. apply Hm; [|done|done].
    destruct (decide (p < length m)%nat) as [|Hge]; [done|].
    unfold hd in Hw. by rewrite lookup_ge_None_2 in Hw by lia. }
  destruct (advance_self m m' ls q v l Hi He El) as (s & Es & Hsd & Hse).
  assert (∀ w, hd (mergeiter_advance m' (Some q)) q = Some w → head l = Some w) as Hself.
  { intros w. unfold hd. rewrite Es. simpl. by rewrite (enumerates_of _ _ Hse). }
  pose proof (Forall_lookup_1 _ _ _ _ Hs El) as Hsl. pose proof (Forall_lookup_1 _ _ _ _ Hf El) as Hfl.
  simpl in Hfl. apply StronglySorted_inv in Hsl as [Hsl1 Hsl2]. split.
  - eapply advance_enum; [done|done|]. rewrite El. naive_solver.
  - apply Forall_alter; [done|]. rewrite El. by intros ? [= <-].
  - apply Forall_alter; [done|]. rewrite El. intros ? [= <-] _. simpl. destruct l; [done|]. exact (proj2 Hfl).
  - intros p w Hw. destruct (decide (p = q)) as [->|Hne].
    + apply Hself in Hw. unfold dup. rewrite Es. simpl. rewrite Hsd. simpl.
      destruct l as [|w' l]; simplify_eq/=. apply Hfl.
    + destruct (Hother p w Hne Hw) as [Hw' ->]. simpl. destruct (sv_is w SVDUP) eqn:Ed; [|by rewrite orb_false_r].
      rewrite orb_true_r. symmetry. apply (sle_same cmp); [eapply (Hle p); [|done]|].
      * apply (lookup_lt_is_Some_1 m p). unfold hd in Hw'. destruct (m !! p); [eauto|done].
      * specialize (Hd p w Hw'). rewrite Ed, orb_true_r in Hd. destruct prev as [u|]; [|done].
        symmetry in Hd. apply same_sle in Hd as [_ Hd]; [|done]. apply (sle_trans cmp w u v); [done|].
        by eapply Hp.
  - intros u p w [= <-] Hw. destruct (decide (p = q)) as [->|Hne].
    + apply Hself in Hw. destruct l as [|w' l]; simplify_eq/=. by apply Forall_cons in Hsl2 as [? _].
    + destruct (Hother p w Hne Hw) as [Hw' _]. apply (Hle p); [|done].
      apply (lookup_lt_is_Some_1 m p). unfold hd in Hw'. destruct (m !! p); [eauto|done].
Qed.

(** A state of the iterator between two calls of next. *)
Record yielding (prev : option sv) (i : svmergeiter I) (out : list sv) : Prop := mk_yielding {
  yl : ∃ m ls, ready prev m ls ∧ out = kmerge (sle cmp) ls ∧
       (match out with
        | [] => mi_v i = None
        | v :: _ => ∃ q, mi_v i = Some q ∧ scanned cmp m (mi_src i) (length m) (Some (q, v))
        end)
}.
Definition gt_step (o : ssorder) (m : list (svmergesrc I)) : svmergeiter I :=
  let r := mergeiter_scan cmp 1 (length m) 0 m None in mk_mergeiter o r.1 (fst <$> r.2).

Lemma gt_step_ok o prev m ls : ready prev m ls → yielding prev (gt_step o m) (kmerge (sle cmp) ls).
Proof.
  intros Hr. split. exists m, ls. split_and!; [done|done|].
  pose proof (scan_ok cmp m (ready_marks _ _ _ Hr) (length m) 0 m None (scanned_start cmp m) eq_refl) as Hsc.
  unfold gt_step. destruct (mergeiter_scan cmp 1 (length m) 0 m None) as [m' min]. simpl in *.
  pose proof (Forall2_length _ _ _ (rd_enum _ _ _ Hr)) as Hlen.
  destruct Hsc as [Hi Hrest Hmin]. destruct min as [[q v]|].
  - destruct Hmin as (Hbest & Hd & Hm). rewrite (kmerge_best (sle cmp) ls q v).
    + exists q. split; [done|]. by split.
    + destruct Hbest as [Hq Hlt Hb Hl]. split; [by rewrite <- (hd_streams m) by apply Hr|lia| |].
      * intros p w Hp. rewrite <- (hd_streams m) by apply Hr. by apply Hb.
      * intros p w Hp. rewrite <- (hd_streams m) by apply Hr. apply Hl. lia.
  - rewrite (kmerge_none (sle cmp) ls); [done|]. intros p Hp.
    rewrite <- (hd_streams m) by apply Hr. apply Hmin. lia.
Qed.

Lemma yielding_of prev i v out : yielding prev i (v :: out) →
  sv_mergeiter_of i = Some v ∧
  (∃ d, sv_mergeisdup i = Some d ∧ sv_is v SVDUP || c_true d = dup_after prev v) ∧
  ∃ ls, out = kmerge (sle cmp) ls ∧ ready (Some v) (mergeiter_advance (mi_src i) (mi_v i)) ls.
Proof.
  intros [(m & ls & Hr & Hout & q & Hv & Hsc)]. pose proof Hsc as [Hi Hrest ([Hq Hlt Hb Hl] & Hd & Hm)].
  assert (∃ s, mi_src i !! q = Some s ∧ it_of (src_i s) = Some v ∧ src_dup s = dup m q) as (s & Es & Hof & Hsd).
  { rewrite <- (hd_src_i _ _ _ Hi) in Hq. unfold hd in Hq. rewrite <- Hd. unfold dup.
    destruct (mi_src i !! q) as [s|]; [|done]. eauto. }
  split_and!.
  - unfold sv_mergeiter_of. rewrite Hv. simpl. by rewrite Es.
  - unfold sv_mergeisdup. rewrite Hv. simpl. rewrite Es. simpl. eexists. split; [done|].
    rewrite <- (rd_dup _ _ _ Hr q v Hq), <- Hsd. by destruct (src_dup s), (sv_is v SVDUP).
  - exists (alter tail q ls). split.
    + rewrite (kmerge_best (sle cmp) ls q v) in Hout; [by injection Hout as ->|].
      pose proof (Forall2_length _ _ _ (rd_enum _ _ _ Hr)).
      split; [by rewrite <- (hd_streams m) by apply Hr|lia| |].
      * intros p w Hp. rewrite <- (hd_streams m) by apply Hr. by apply Hb.
      * intros p w Hp. rewrite <- (hd_streams m) by apply Hr. apply Hl. lia.
    + rewrite Hv. by eapply ready_next.
Qed.

(** The streams just opened are ready. *)
Lemma ready_start m ls : Forall2 (λ s l, enumerates (src_i s) l ∧ src_dup s = false) m ls →
  Forall stream_ok ls → ready None m ls.
Proof.
  intros He Hs. split.
  - eapply Forall2_impl; [exact He|]. naive_solver.
  - eapply Forall_impl; [exact Hs|]. by intros l [? _].
  - eapply Forall_impl; [exact Hs|]. intros [|v l] [_ Hf]; simpl in *; [done|]. apply Hf.
  - intros p w Hw. unfold hd, dup in *. destruct (m !! p) as [s|] eqn:Es; [|done].
    destruct (Forall2_lookup_l _ _ _ _ _ He Es) as (l & El & Hen & Hd). simpl in *. rewrite Hd.
    rewrite (enumerates_of _ _ Hen) in Hw. destruct l as [|w' l]; simplify_eq/=.
    destruct (Forall_lookup_1 _ _ _ _ Hs El) as [_ [Hf _]]. done.
  - done.
Qed.
End drain.

(** * Both directions *)

(** The order in which an iteration in direction [o] meets the keys. *)
Definition order_cmp (o : ssorder) (cmp : bytes → bytes → Z) : bytes → bytes → Z :=
  match o with SS_LT | SS_LTE => λ a b, - cmp a b | _ => cmp end.
#[export] Instance order_cmp_order o cmp `{!KeyOrder cmp} : KeyOrder (order_cmp o cmp).
Proof. destruct o; simpl; apply _. Qed.
Definition walk_order (o : ssorder) : bool :=
  match o with SS_GT | SS_GTE | SS_LT | SS_LTE => true | _ => false end.

Section both.
Context {I : Type} `{SsIter I} (cmp : bytes → bytes → Z) `{!KeyOrder cmp}.

Lemma mergeiter_next_eq (i : svmergeiter I) : walk_order (mi_order i) = true →
  sv_mergeiter_next cmp i =
  Some (gt_step (order_cmp (mi_order i) cmp) (mi_order i) (mergeiter_advance (mi_src i) (mi_v i))).
Proof.
  unfold sv_mergeiter_next, sv_mergeiter_lt. destruct (mi_order i) eqn:E; try done; intros _;
    unfold gt_step; simpl; rewrite ?mergeiter_scan_flip; (done || by (unfold sv_mergeiter_gt; rewrite E)).
Qed.

Lemma mergeiter_drain_ok prev i out fuel : walk_order (mi_order i) = true →
  yielding (order_cmp (mi_order i) cmp) prev i out → (length out < fuel)%nat →
  mergeiter_drain cmp fuel i = Some (mark (order_cmp (mi_order i) cmp) prev out).
Proof.
  revert prev i fuel. induction out as [|v out IH]; intros prev i [|fuel] Ho Hy Hf; try (simpl in Hf; lia).
  - destruct Hy as [(m & ls & _ & _ & Hv)]. simpl. unfold sv_mergeiter_of. by rewrite Hv.
  - destruct (yielding_of _ _ _ _ _ Hy) as (Hof & (d & Hd & Hdup) & ls & -> & Hr).
    simpl. rewrite Hof, Hd. simpl. rewrite mergeiter_next_eq by done. simpl.
    pose proof (gt_step_ok _ (mi_order i) _ _ _ Hr) as Hy'.
    rewrite (IH (Some v)); [|done|exact Hy'|simpl in Hf; lia]. simpl. by rewrite Hdup.
Qed.
End both.

(** C7: over sorted sources whose duplicates are flagged, the merge iterator terminates and
    yields, in either direction, the stable merge of the sources (every version once, in key
    order, the versions of one key in the order of the sources); and the test its users make,
    [SVDUP] or [sv_mergeisdup], tells exactly the versions whose key was yielded just before. *)
Theorem sv_mergeiter_merges {I} `{SsIter I} cmp `{!KeyOrder cmp} o (m : list (svmergesrc I)) ls :
  walk_order o = true → Forall2 (λ s l, enumerates (src_i s) l ∧ src_dup s = false) m ls →
  Forall (stream_ok (order_cmp o cmp)) ls →
  let out := kmerge (sle (order_cmp o cmp)) ls in
  ∃ i, sv_mergeiter_open cmp m o = Some i ∧
    mergeiter_drain cmp (S (length out)) i = Some (mark (order_cmp o cmp) None out) ∧
    out ≡ₚ concat ls ∧ StronglySorted (λ a b, sle (order_cmp o cmp) a b = true) out.
Proof.
  intros Ho He Hs out.
  pose proof (gt_step_ok _ o _ _ _ (ready_start (order_cmp o cmp) m ls He Hs)) as Hy.
  exists (gt_step (order_cmp o cmp) o m). split_and!.
  - unfold sv_mergeiter_open. by rewrite (mergeiter_next_eq cmp (mk_mergeiter o m None)).
  - by apply (mergeiter_drain_ok cmp None (gt_step (order_cmp o cmp) o m)); [..|lia].
  - apply kmerge_perm.
  - apply kmerge_sorted; [apply sle_trans; apply _|apply sle_total; apply _|].
    eapply Forall_impl; [exact Hs|]. by intros l [? _].
Qed.

(** ** Witness: two streams with a shared key *)
Definition demo_key (a : bytes) : Z := default 0 (head a).
Definition demo_key_cmp (a b : bytes) : Z := ss_cmp (demo_key a) (demo_key b).
#[export] Instance demo_key_order : KeyOrder demo_key_cmp.
Proof. apply (key_order_pull demo_key ss_cmp). apply _. Qed.
Definition demo_streams : list (list sv) :=
  [[mk_sv 9 0 [1]; mk_sv 7 4 [1]; mk_sv 8 0 [5]]; [mk_sv 3 0 [1]; mk_sv 2 1 [4]]].

Lemma demo_streams_ok : Forall (stream_ok (order_cmp SS_GT demo_key_cmp)) demo_streams.
Proof. repeat constructor. Qed.

Lemma sv_mergeiter_merges_witness : ∃ i,
  sv_mergeiter_open demo_key_cmp ((λ l, mk_src l false) <$> demo_streams) SS_GT = Some i ∧
  mergeiter_drain demo_key_cmp 6 i =
    Some [(mk_sv 9 0 [1], false); (mk_sv 7 4 [1], true); (mk_sv 3 0 [1], true);
          (mk_sv 2 1 [4], false); (mk_sv 8 0 [5], false)].
Proof.
  destruct (sv_mergeiter_merges demo_key_cmp SS_GT ((λ l, mk_src l false) <$> demo_streams) demo_streams)
    as (i & Hi & Hd & _).
  - reflexivity.
  - repeat constructor.
  - exact demo_streams_ok.
  - exists i. split; [exact Hi|exact Hd].
Defined.
