(* ===== verification/SvUpdate.v ===== *)
(** Update statements: sv_update.h.  An update version is resolved by applying the update
    function of the format to the versions below it, from the oldest to the newest.  The
    function is supplied by the user of the library and is a parameter here. *)
From stdpp Require Import base list.
From S2P Require Import Prelude Sv.
Local Open Scope Z_scope.

(** [r->fmt_update->function(a_flags, a, b_flags, b)]: the bytes it returns, [None] when it
    answers -1; a NULL source is [None]. *)
Abbreviation sfupdatef := (Z → option bytes → Z → bytes → option bytes).

(** A node of the stack, without its memory: buffers grow as needed. *)
Record svupdatenode := mk_unode { un_lsn : Z; un_flags : Z; un_buf : bytes }.
(** The stack, top first, and the result, a pointer to the bottom of the stack. *)
Record svupdate := mk_update { u_stack : list svupdatenode; u_result : option sv }.

Definition u_count (u : svupdate) : nat := length (u_stack u).
Definition sv_updateinit : svupdate := mk_update [] None.
Definition sv_updatereset (u : svupdate) : svupdate := mk_update [] None.
Definition sv_updatepush_raw (u : svupdate) (pointer : bytes) (flags lsn : Z) : svupdate :=
  mk_update (mk_unode lsn flags pointer :: u_stack u) (u_result u).
Definition sv_updatepush (u : svupdate) (v : sv) : svupdate :=
  sv_updatepush_raw u (sv_pointer v) (sv_flags v) (sv_lsn v).
Definition sv_updatepop (u : svupdate) : option (svupdatenode * svupdate) :=
  match u_stack u with
  | [] => None
  | n :: st => Some (n, mk_update st (u_result u))
  end.

(** [~SVUPDATE] on a byte. *)
Definition clear_update (flags : Z) : Z := Z.land flags 253.

Section update.
Context (upd : sfupdatef).

(** [sv_updatedo(u, r, a, b)]; [None]: an assertion failed or the function answered -1. *)
Definition sv_updatedo (u : svupdate) (a : option svupdatenode) (b : svupdatenode) : option svupdate :=
  if Z.eqb (Z.land (un_flags b) SVUPDATE) 0 then None else
  let '(a_flags, a_pointer) :=
    match a with
    | Some a =>
        if Z.eqb (Z.land (un_flags a) SVDELETE) 0
        then (Z.land (un_flags a) SVUPDATE, Some (un_buf a)) else (0, None)
    | None => (0, None)
    end in
  c ← upd a_flags a_pointer (Z.land (un_flags b) SVUPDATE) (un_buf b);
  Some (sv_updatepush_raw u c (clear_update (un_flags b)) (un_lsn b)).

(** [while (u->count > 1) { ... }] *)
Fixpoint update_fold (fuel : nat) (u : svupdate) : option svupdate :=
  match fuel with
  | O => None
  | S fuel =>
      if Nat.leb (u_count u) 1 then Some u
      else
        '(f, u1) ← sv_updatepop u;
        '(s, u2) ← sv_updatepop u1;
        u3 ← sv_updatedo u2 (Some f) s;
        update_fold fuel u3
  end.

(** The result is read through [sv_updatevif]: the bottom node. *)
Definition node_sv (n : svupdatenode) : sv := mk_sv (un_lsn n) (un_flags n) (un_buf n).
Definition update_done (u : svupdate) : option svupdate :=
  n ← last (u_stack u); Some (mk_update (u_stack u) (Some (node_sv n))).
Definition sv_update (u : svupdate) : option svupdate :=
  match u_stack u with
  | [] => None
  | f :: _ =>
      u1 ← (if Z.eqb (Z.land (un_flags f) SVUPDATE) 0 then Some u
            else '(f, u1) ← sv_updatepop u; sv_updatedo u1 None f);
      if Nat.eqb (u_count u1) 1 then update_done u1
      else u2 ← update_fold (S (u_count u1)) u1; update_done u2
  end.

(** * The meaning of a chain of updates

    [apply_update a b]: update [b] over the version [a] below it, if any. *)
Definition apply_update (a : option sv) (b : sv) : option sv :=
  c ← upd (match a with
           | Some a => if sv_is a SVDELETE then 0 else Z.land (sv_flags a) SVUPDATE
           | None => 0
           end)
          (match a with Some a => if sv_is a SVDELETE then None else Some (sv_pointer a) | None => None end)
          (Z.land (sv_flags b) SVUPDATE) (sv_pointer b);
  Some (mk_sv (sv_lsn b) (clear_update (sv_flags b)) c).

(** Versions newest first: the updates at the front are applied to the first other version,
    or to nothing when the chain ends. *)
Fixpoint resolve (l : list sv) : option (option sv) :=
  match l with
  | [] => Some None
  | v :: l =>
      if sv_is v SVUPDATE then a ← resolve l; c ← apply_update a v; Some (Some c)
      else Some (Some v)
  end.

(** The versions [sv_updatepush] puts on the stack: up to the first that is no update. *)
Fixpoint chain (l : list sv) : list sv :=
  match l with
  | [] => []
  | v :: l => if sv_is v SVUPDATE then v :: chain l else [v]
  end.
Definition push_all (l : list sv) : svupdate := foldl sv_updatepush sv_updateinit l.

Lemma sv_is_land v f : 0 <= Z.land (sv_flags v) f →
  Z.eqb (Z.land (sv_flags v) f) 0 = negb (sv_is v f).
Proof. unfold sv_is. intros. destruct (Z.eqb_spec (Z.land (sv_flags v) f) 0), (Z.gtb_spec (Z.land (sv_flags v) f) 0); simpl; lia || done. Qed.
Lemma land_flag_nonneg x : 0 <= Z.land x SVUPDATE ∧ 0 <= Z.land x SVDELETE.
Proof. split; apply Z.land_nonneg; right; unfold SVUPDATE, SVDELETE; lia. Qed.
Lemma node_update n : Z.eqb (Z.land (un_flags n) SVUPDATE) 0 = negb (sv_is (node_sv n) SVUPDATE).
Proof. apply (sv_is_land (node_sv n)), land_flag_nonneg. Qed.
Lemma node_delete n : Z.eqb (Z.land (un_flags n) SVDELETE) 0 = negb (sv_is (node_sv n) SVDELETE).
Proof. apply (sv_is_land (node_sv n)), land_flag_nonneg. Qed.

Lemma updatedo_ok u a b c : sv_is (node_sv b) SVUPDATE = true →
  apply_update (node_sv <$> a) (node_sv b) = Some c →
  sv_updatedo u a b = Some (mk_update (mk_unode (sv_lsn c) (sv_flags c) (sv_pointer c) :: u_stack u) (u_result u)).
Proof.
  intros Hb. unfold sv_updatedo, apply_update. rewrite node_update, Hb. simpl.
  destruct a as [a|]; simpl; [rewrite node_delete|]; [destruct (sv_is (node_sv a) SVDELETE) eqn:Ed|];
    simpl; intros Hc; destruct (upd _ _ _ _) as [d|]; simplify_eq/=; done.
Qed.
Lemma clear_update_is b c a : apply_update a b = Some c → sv_is c SVUPDATE = false.
Proof.
  unfold apply_update. intros Hc. destruct (upd _ _ _ _) as [d|]; simplify_eq/=. unfold sv_is. simpl.
  unfold clear_update. rewrite <- Z.land_assoc. by rewrite Z.land_0_r.
Qed.

(** The stack machine computes the fold over the updates above a base. *)
Definition sv_node (v : sv) : svupdatenode := mk_unode (sv_lsn v) (sv_flags v) (sv_pointer v).
Lemma node_sv_node v : node_sv (sv_node v) = v.
Proof. by destruct v. Qed.
Definition fold_up (base : sv) (rest : list sv) : option sv :=
  foldl (λ a s, a ≫= λ a, apply_update (Some a) s) (Some base) rest.
Lemma fold_up_none rest : foldl (λ (a : option sv) s, a ≫= λ a, apply_update (Some a) s) None rest = None.
Proof. induction rest; simpl; done. Qed.

Lemma update_fold_ok res base rest g fuel : Forall (λ v, sv_is v SVUPDATE = true) rest →
  fold_up base rest = Some g → (length rest < fuel)%nat →
  update_fold fuel (mk_update (sv_node <$> base :: rest) res) = Some (mk_update [sv_node g] res).
Proof.
  intros Hr. revert base fuel. induction Hr as [|s rest Hs Hr IH]; intros base [|fuel] Hg Hf;
    simpl in Hf; try lia.
  - by injection Hg as ->.
  - unfold fold_up in Hg. simpl in Hg. destruct (apply_update (Some base) s) as [c|] eqn:Ec.
    2:{ by rewrite fold_up_none in Hg. }
    simpl. erewrite updatedo_ok; [|by rewrite node_sv_node|by simpl; rewrite !node_sv_node].
    simpl. apply (IH c fuel); [done|lia].
Qed.

(** What the fold means for a chain, newest version first. *)
Lemma resolve_fold rest f b : Forall (λ v, sv_is v SVUPDATE = true) rest →
  resolve [f] = Some (Some b) → resolve (reverse rest ++ [f]) = Some <$> fold_up b rest.
Proof.
  intros Hr Hf. induction rest as [|x rest IH] using rev_ind; [done|].
  rewrite reverse_app. change (reverse [x]) with [x]. simpl app.
  apply Forall_app in Hr as [Hr Hx]. apply Forall_cons in Hx as [Hx _].
  unfold fold_up. rewrite foldl_app. change (resolve (x :: ?l)) with
    (if sv_is x SVUPDATE then a ← resolve l; c ← apply_update a x; Some (Some c) else Some (Some x)).
  rewrite Hx, IH by done. unfold fold_up. simpl.
  destruct (foldl _ (Some b) rest) as [a|]; simpl; [|done]. by destruct (apply_update _ _).
Qed.

Lemma push_stack l u : u_stack (foldl sv_updatepush u l) = reverse (sv_node <$> l) ++ u_stack u.
Proof.
  revert u. induction l as [|v l IH]; intros u; [done|]. cbn [foldl].
  rewrite IH, fmap_cons, reverse_cons, <- app_assoc. done.
Qed.
Lemma push_all_stack l : u_stack (push_all l) = reverse (sv_node <$> l).
Proof. unfold push_all. rewrite push_stack. apply app_nil_r. Qed.
Lemma chain_split l : l ≠ [] → ∃ l1 f, chain l = l1 ++ [f] ∧ Forall (λ v, sv_is v SVUPDATE = true) l1.
Proof.
  induction l as [|v l IH]; [done|]. intros _. simpl. destruct (sv_is v SVUPDATE) eqn:Ev.
  - destruct l as [|w l]; [by exists [], v|]. destruct IH as (l1 & f & -> & Hl); [done|].
    exists (v :: l1), f. split; [done|]. by constructor.
  - by exists [], v.
Qed.
Lemma resolve_chain l : resolve (chain l) = resolve l.
Proof.
  induction l as [|v l IH]; simpl; [done|]. destruct (sv_is v SVUPDATE) eqn:Ev; simpl; rewrite Ev; [|done].
  by rewrite IH.
Qed.

Lemma resolve_none l k : Forall (λ v, sv_is v SVUPDATE = true) l → resolve k = None → resolve (l ++ k) = None.
Proof. intros Hl Hk. induction Hl as [|x l Hx Hl IH]; simpl; [done|]. by rewrite Hx, IH. Qed.

(** [sv_update] on the pushed chain of a nonempty list of versions. *)
Lemma sv_update_ok l r : l ≠ [] → resolve l = Some (Some r) →
  ∃ u, sv_update (push_all (chain l)) = Some u ∧ u_result u = Some r.
Proof.
  intros Hl Hr. rewrite <- resolve_chain in Hr. destruct (chain_split l Hl) as (l1 & f & E & Hu).
  rewrite E in Hr |- *. unfold sv_update. rewrite push_all_stack, fmap_app, reverse_app. cbn [fmap list_fmap reverse].
  change (reverse [sv_node f] ++ ?k) with (sv_node f :: k). cbv iota beta.
  rewrite node_update, node_sv_node.
  assert (Forall (λ v, sv_is v SVUPDATE = true) (reverse l1)) as Hu' by by rewrite Forall_reverse.
  assert (∃ b u1, resolve [f] = Some (Some b) ∧ u_stack u1 = sv_node b :: reverse (sv_node <$> l1) ∧
    (if negb (sv_is f SVUPDATE) then Some (push_all (l1 ++ [f]))
     else '(f, u1) ← sv_updatepop (push_all (l1 ++ [f])); sv_updatedo u1 None f) = Some u1)
    as (b & u1 & Hb & Hst & Hu1).
  { assert (u_stack (push_all (l1 ++ [f])) = sv_node f :: reverse (sv_node <$> l1)) as Hpa.
    { by rewrite push_all_stack, fmap_app, reverse_app. }
    simpl resolve. destruct (sv_is f SVUPDATE) eqn:Ef; simpl; [|exists f, (push_all (l1 ++ [f])); split_and!; [done|exact Hpa|done]].
    destruct (apply_update None f) as [b|] eqn:Eb; simpl.
    - unfold sv_updatepop. rewrite Hpa. simpl.
      rewrite (updatedo_ok _ _ _ b); [|by rewrite node_sv_node|by simpl; rewrite node_sv_node].
      exists b, (mk_update (sv_node b :: reverse (sv_node <$> l1)) (u_result (push_all (l1 ++ [f])))).
      split_and!; reflexivity.
    - rewrite resolve_none in Hr; [done|done|]. simpl. by rewrite Ef, Eb. }
  rewrite Hu1. clear Hu1. rewrite <- (reverse_involutive l1) in Hr.
  rewrite (resolve_fold _ _ b Hu' Hb) in Hr. destruct (fold_up b (reverse l1)) as [g|] eqn:Eg; [injection Hr as ->|done].
  rewrite <- fmap_reverse in Hst. destruct u1 as [st res]. simpl in Hst. subst st. unfold u_count. cbn [u_stack length mbind option_bind Nat.eqb].
  destruct (Nat.eqb_spec (length (sv_node <$> reverse l1)) 0) as [E0|E0].
  - apply nil_length_inv, fmap_nil_inv in E0. rewrite E0 in *. simplify_eq/=.
    eexists. split; [done|]. simpl. by rewrite node_sv_node.
  - pose proof (update_fold_ok res b (reverse l1) r (S (S (length (sv_node <$> reverse l1)))) Hu' Eg) as Hfold.
    rewrite fmap_cons in Hfold. rewrite Hfold by (rewrite length_fmap; lia). simpl.
    eexists. split; [done|]. simpl. by rewrite node_sv_node.
Qed.
End update.
