(* ===== verification/SvRead.v ===== *)
(** The read iterator of sv_readiter.h: over a merged stream of versions it yields, for every
    key, the newest version visible at a sequence number, deletes dropped and updates
    resolved. *)
From stdpp Require Import base list sorting sets gmap.
From S2P Require Import Prelude SsOrder Sv SvMerge SvMergeProofs SvUpdate.
Local Open Scope Z_scope.

(** * The interface to the merge iterator *)

Class MergeIter (M : Type) := {
  mg_has : M → bool;
  mg_of : M → option sv;
  mg_isdup : M → option Z;
  mg_next : M → option M
}.
(** [sv_is(v, SVDUP) || sv_mergeisdup(merge)] at the current version. *)
Definition mg_dup {M} `{MergeIter M} (i : M) (v : sv) : option bool :=
  d ← mg_isdup i; Some (sv_is v SVDUP || c_true d).

(** [marked i l]: the iterator yields the versions of [l] with these duplicate tests. *)
Fixpoint marked {M} `{MergeIter M} (i : M) (l : list (sv * bool)) : Prop :=
  match l with
  | [] => mg_has i = false ∧ mg_of i = None
  | (v, d) :: l =>
      mg_has i = true ∧ mg_of i = Some v ∧ mg_dup i v = Some d ∧
      ∃ i', mg_next i = Some i' ∧ marked i' l
  end.

Definition svmergeiter_merge {I} `{SsIter I} (cmp : bytes → bytes → Z) : MergeIter (svmergeiter I) := {|
  mg_has := sv_mergeiter_has; mg_of := sv_mergeiter_of;
  mg_isdup := sv_mergeisdup; mg_next := sv_mergeiter_next cmp |}.

(** The merge iterator of sv_mergeiter.h implements it. *)
Lemma mergeiter_marked {I} `{SsIter I} cmp `{!KeyOrder cmp} (i : svmergeiter I) prev out :
  walk_order (mi_order i) = true → yielding (order_cmp (mi_order i) cmp) prev i out →
  @marked _ (svmergeiter_merge cmp) i (mark (order_cmp (mi_order i) cmp) prev out).
Proof.
  revert prev i. induction out as [|v out IH]; intros prev i Ho Hy; simpl.
  - destruct Hy as [(m & ls & _ & _ & Hv)]. unfold sv_mergeiter_has, sv_mergeiter_of. by rewrite Hv.
  - destruct (yielding_of _ _ _ _ _ Hy) as (Hof & (d & Hd & Hdup) & ls & -> & Hr). split_and!.
    + unfold sv_mergeiter_has. unfold sv_mergeiter_of in Hof. 
      destruct (mi_v i); [by apply bool_decide_eq_true_2|done].
    + done.
    + unfold mg_dup. simpl. rewrite Hd. simpl. by rewrite Hdup.
    + rewrite mergeiter_next_eq by done. eexists. split; [done|].
      apply (IH (Some v) (gt_step (order_cmp (mi_order i) cmp) (mi_order i)
        (mergeiter_advance (mi_src i) (mi_v i)))); [done|]. exact (gt_step_ok _ (mi_order i) _ _ _ Hr).
Qed.

(** * The iterator *)

Section readiter.
Context {M : Type} `{MergeIter M} (upd : sfupdatef).

Record svreaditer := mk_readiter {
  ri_merge : M;
  ri_vlsn : Z;
  ri_next : bool;
  ri_nextdup : bool;
  ri_save_delete : bool;
  ri_u : svupdate;
  ri_v : option sv
}.

(** The loop of [sv_readiter_update] over the versions below an update. *)
Fixpoint readiter_update_loop (fuel : nat) (skip : bool) (u : svupdate) (i : M) : option (svupdate * M) :=
  match fuel with
  | O => None
  | S fuel =>
      if negb (mg_has i) then Some (u, i)
      else
        v ← mg_of i; dup ← mg_dup i v;
        if negb dup then Some (u, i)
        else
          i' ← mg_next i;
          if skip then readiter_update_loop fuel skip u i'
          else readiter_update_loop fuel (Z.eqb (Z.land (sv_flags v) SVUPDATE) 0) (sv_updatepush u v) i'
  end.

(** [None]: fuel or an assertion; [Some (None, ...)]: the update function failed, -1. *)
Definition sv_readiter_update (fuel : nat) (u : svupdate) (i : M) : option (option svupdate * M) :=
  let u := sv_updatereset u in
  v ← mg_of i;
  if Z.eqb (Z.land (sv_flags v) SVUPDATE) 0 then None
  else
    let u := sv_updatepush u v in
    i ← mg_next i;
    '(u, i) ← readiter_update_loop fuel false u i;
    Some (sv_update upd u, i).

(** The loop of [sv_readiter_next]. *)
Fixpoint readiter_loop (fuel : nat) (im : svreaditer) : option svreaditer :=
  match fuel with
  | O => None
  | S fuel =>
      let i := ri_merge im in
      if negb (mg_has i) then Some im
      else
        v ← mg_of i; dup ← mg_dup i v;
        let skip := i' ← mg_next i;
          readiter_loop fuel (mk_readiter i' (ri_vlsn im) (ri_next im) (ri_nextdup im)
                                (ri_save_delete im) (ri_u im) (ri_v im)) in
        if ri_nextdup im && dup then skip
        else if Z.gtb (sv_lsn v) (ri_vlsn im) then
          i' ← mg_next i;
          readiter_loop fuel (mk_readiter i' (ri_vlsn im) (ri_next im) false
                                (ri_save_delete im) (ri_u im) (ri_v im))
        else if negb (ri_save_delete im) && sv_is v SVDELETE then
          i' ← mg_next i;
          readiter_loop fuel (mk_readiter i' (ri_vlsn im) (ri_next im) true
                                (ri_save_delete im) (ri_u im) (ri_v im))
        else if sv_is v SVUPDATE then
          '(r, i') ← sv_readiter_update fuel (ri_u im) i;
          match r with
          | None => Some (mk_readiter i' (ri_vlsn im) (ri_next im) true (ri_save_delete im) (ri_u im) (ri_v im))
          | Some u => Some (mk_readiter i' (ri_vlsn im) false true (ri_save_delete im) u (u_result u))
          end
        else Some (mk_readiter i (ri_vlsn im) true true (ri_save_delete im) (ri_u im) (Some v))
  end.

Definition sv_readiter_next (fuel : nat) (im : svreaditer) : option svreaditer :=
  i ← (if ri_next im then mg_next (ri_merge im) else Some (ri_merge im));
  readiter_loop fuel (mk_readiter i (ri_vlsn im) false (ri_nextdup im) (ri_save_delete im) (ri_u im) None).

Definition sv_readiter_open (fuel : nat) (i : M) (u : svupdate) (vlsn : Z) (save_delete : bool) :
    option svreaditer :=
  sv_readiter_next fuel (mk_readiter i vlsn false false save_delete u None).

Definition sv_readiter_has (im : svreaditer) : bool := bool_decide (is_Some (ri_v im)).
Definition sv_readiter_of (im : svreaditer) : option sv := ri_v im.
End readiter.
Arguments svreaditer : clear implicits.

(** * What a reader at a sequence number sees *)

(** The versions of one key after the current one, and the stream behind them. *)
Fixpoint dups (l : list (sv * bool)) : list sv :=
  match l with (v, true) :: l => v :: dups l | _ => [] end.
Fixpoint after (l : list (sv * bool)) : list (sv * bool) :=
  match l with (_, true) :: l' => after l' | _ => l end.
(** The stream cut at every version that does not repeat the key before it. *)
Definition join (v : sv) (d : bool) (gs : list (list sv)) : list (list sv) :=
  match gs with g :: gs' => if d then (v :: g) :: gs' else [v] :: gs | [] => [[v]] end.
Definition starts_dup (l : list (sv * bool)) : bool := match l with (_, d) :: _ => d | [] => false end.
Fixpoint groups (l : list (sv * bool)) : list (list sv) :=
  match l with [] => [] | (v, _) :: l' => join v (starts_dup l') (groups l') end.
Lemma groups_cons v d l : groups ((v, d) :: l) = (v :: dups l) :: groups (after l).
Proof.
  revert v d. induction l as [|[w e] l IH]; intros v d; [done|].
  change (groups ((v, d) :: (w, e) :: l)) with (join v e (groups ((w, e) :: l))).
  rewrite (IH w e). simpl. destruct e; [done|]. by rewrite <- (IH w false).
Qed.

Lemma length_groups l : (length (groups l) <= length l)%nat.
Proof.
  induction l as [|[v d] l IH]; simpl; [done|]. unfold join.
  destruct (groups l); simpl in *; [lia|]. case_match; simpl; lia.
Qed.

Fixpoint drop_newer (vlsn : Z) (g : list sv) : list sv :=
  match g with v :: g' => if Z.gtb (sv_lsn v) vlsn then drop_newer vlsn g' else g | [] => [] end.
(** What is read of the versions [g] of one key, newest first. *)
Definition read_key (upd : sfupdatef) (vlsn : Z) (save_delete : bool) (g : list sv) : option sv :=
  match drop_newer vlsn g with
  | [] => None
  | v :: below =>
      if negb save_delete && sv_is v SVDELETE then None
      else if sv_is v SVUPDATE then default None (resolve upd (v :: below))
      else Some v
  end.

Section reading.
Context {M : Type} `{MergeIter M} (upd : sfupdatef).
Context (upd_total : ∀ fa a fb b, is_Some (upd fa a fb b)).

Lemma resolve_total l : is_Some (resolve upd l).
Proof.
  induction l as [|v l [a IH]]; simpl; [eauto|]. rewrite IH. simpl. destruct (sv_is v SVUPDATE); [|eauto].
  unfold apply_update. destruct (upd_total
    (match a with Some a => if sv_is a SVDELETE then 0 else Z.land (sv_flags a) SVUPDATE | None => 0 end)
    (match a with Some a => if sv_is a SVDELETE then None else Some (sv_pointer a) | None => None end)
    (Z.land (sv_flags v) SVUPDATE) (sv_pointer v)) as [c Hc].
  rewrite Hc. simpl. eauto.
Qed.
Lemma resolve_update v l : sv_is v SVUPDATE = true → ∃ r, resolve upd (v :: l) = Some (Some r).
Proof.
  intros Hv. destruct (resolve_total (v :: l)) as [r Hr]. rewrite Hr. simpl in Hr. rewrite Hv in Hr.
  destruct (resolve upd l) as [a|]; simpl in Hr; [|done]. destruct (apply_update upd a v); simplify_eq/=. eauto.
Qed.

Lemma marked_head i v d l : marked i ((v, d) :: l) →
  mg_has i = true ∧ mg_of i = Some v ∧ mg_dup i v = Some d ∧ ∃ i', mg_next i = Some i' ∧ marked i' l.
Proof. done. Qed.

(** The update loop reads the rest of the group. *)
Lemma update_loop_ok l : ∀ i fuel skip u, marked i l → (length l < fuel)%nat →
  ∃ i', marked i' (after l) ∧
    readiter_update_loop fuel skip u i =
      Some (if skip then u else foldl sv_updatepush u (chain (dups l)), i').
Proof.
  induction l as [|[v d] l IH]; intros i [|fuel] skip u Hm Hf; simpl in Hf; try lia.
  - exists i. destruct Hm as [Hh Ho]. split; [by split|]. simpl. rewrite Hh. by destruct skip.
  - apply marked_head in Hm as Hm'. destruct Hm' as (Hh & Ho & Hd & i1 & Hn & Hm1).
    cbn [readiter_update_loop]. rewrite Hh, Ho. simpl. rewrite Hd. simpl. destruct d; simpl.
    + rewrite Hn. simpl. destruct skip; simpl.
      { apply (IH i1 fuel true u); [done|lia]. }
      rewrite sv_is_land by apply land_flag_nonneg.
      destruct (IH i1 fuel (negb (sv_is v SVUPDATE)) (sv_updatepush u v)) as (i2 & Hm2 & E); [done|lia|].
      exists i2. split; [done|]. rewrite E. by destruct (sv_is v SVUPDATE).
    + exists i. split; [done|]. by destruct skip.
Qed.
Lemma readiter_update_ok i v d l u fuel : marked i ((v, d) :: l) → sv_is v SVUPDATE = true →
  (length l < fuel)%nat → ∃ i' u' r, marked i' (after l) ∧ resolve upd (v :: dups l) = Some (Some r) ∧
    sv_readiter_update upd fuel u i = Some (Some u', i') ∧ u_result u' = Some r.
Proof.
  intros (Hh & Ho & Hd & i1 & Hn & Hm1)%marked_head Hv Hf.
  destruct (update_loop_ok l i1 fuel false (sv_updatepush sv_updateinit v) Hm1 Hf) as (i' & Hm' & E).
  destruct (resolve_update v (dups l) Hv) as [r Hr].
  destruct (sv_update_ok upd (v :: dups l) r) as (u' & Hu' & Hres); [done|done|].
  exists i', u', r. split_and!; [done|done| |done].
  unfold sv_readiter_update. rewrite Ho. simpl. rewrite sv_is_land by apply land_flag_nonneg. rewrite Hv. simpl.
  rewrite Hn. simpl. unfold sv_updatereset. change (mk_update [] None) with sv_updateinit. rewrite E. simpl.
  replace (foldl sv_updatepush (sv_updatepush sv_updateinit v) (chain (dups l))) with (push_all (chain (v :: dups l))).
  - by rewrite Hu'.
  - unfold push_all. simpl. by rewrite Hv.
Qed.

Section run.
Context (vlsn : Z) (sd : bool).

(** What is still to be read from the stream [l]; [nd]: its leading duplicates belong to a key
    that is done. *)
Definition rest (nd : bool) (l : list (sv * bool)) : list sv :=
  omap (read_key upd vlsn sd) (groups (if nd then after l else l)).

Lemma after_nondup v l : after ((v, false) :: l) = (v, false) :: l.
Proof. done. Qed.
Lemma rest_newer v d l : sv_lsn v > vlsn →
  omap (read_key upd vlsn sd) (groups ((v, d) :: l)) = omap (read_key upd vlsn sd) (groups l).
Proof.
  intros Hv. rewrite groups_cons. simpl.
  assert (read_key upd vlsn sd (v :: dups l) = read_key upd vlsn sd (dups l)) as ->.
  { unfold read_key. simpl. destruct (Z.gtb_spec (sv_lsn v) vlsn); [done|lia]. }
  destruct l as [|[w [|]] l]; [done| |done]. rewrite groups_cons. done.
Qed.
Lemma rest_visible v d l : sv_lsn v <= vlsn →
  omap (read_key upd vlsn sd) (groups ((v, d) :: l)) =
  option_list (if negb sd && sv_is v SVDELETE then None
               else if sv_is v SVUPDATE then default None (resolve upd (v :: dups l)) else Some v) ++ rest true l.
Proof.
  intros Hv. rewrite groups_cons. unfold rest. simpl.
  replace (read_key upd vlsn sd (v :: dups l)) with
    (if negb sd && sv_is v SVDELETE then None
     else if sv_is v SVUPDATE then default None (resolve upd (v :: dups l)) else Some v).
  - by destruct (if negb sd && sv_is v SVDELETE then _ else _).
  - unfold read_key. simpl. destruct (Z.gtb_spec (sv_lsn v) vlsn); [lia|done].
Qed.

(** The state after a call: at the end, or at a version with the rest of the stream behind. *)
Record read_at (out : list sv) (bound : nat) (im : svreaditer M) : Prop := mk_read_at {
  ra_vlsn : ri_vlsn im = vlsn;
  ra_sd : ri_save_delete im = sd;
  ra_out : match out with
           | [] => ri_v im = None
           | w :: tl => ri_v im = Some w ∧ ri_nextdup im = true ∧ ∃ l, rest true l = tl ∧
               (length l <= bound)%nat ∧
               if ri_next im then ∃ v d, marked (ri_merge im) ((v, d) :: l) else marked (ri_merge im) l
           end
}.
Lemma length_after l : (length (after l) <= length l)%nat.
Proof. induction l as [|[w [|]] l IH]; simpl; lia. Qed.

Lemma readiter_loop_ok l : ∀ fuel i nd u, marked i l → (length l < fuel)%nat →
  ∃ im, readiter_loop upd fuel (mk_readiter i vlsn false nd sd u None) = Some im ∧
    read_at (rest nd l) (length l) im.
Proof.
  induction l as [|[v d] l IH]; intros [|fuel] i nd u Hm Hf; simpl in Hf; try lia.
  { destruct Hm as [Hh Ho]. simpl. rewrite Hh. simpl. eexists. split; [done|].
    unfold rest. by destruct nd. }
  assert (∀ out bound im, read_at out (length l) im → (length l <= bound)%nat → read_at out bound im) as Hbd.
  { intros out bound im [? ? Ho] Hb. split; [done|done|]. destruct out; [done|].
    destruct Ho as (? & ? & k & ? & ? & ?). split_and!; [done|done|]. exists k. split_and!; [done|lia|done]. }
  assert (∀ nd i' u', marked i' l → ∃ im,
    readiter_loop upd fuel (mk_readiter i' vlsn false nd sd u' None) = Some im ∧
    read_at (rest nd l) (length ((v, d) :: l)) im) as Hgo.
  { intros nd' i' u' Hm'. destruct (IH fuel i' nd' u' Hm') as (im & E & Hat); [lia|].
    exists im. split; [done|]. apply Hbd; [done|simpl; lia]. }
  pose proof Hm as (Hh & Ho & Hd & i1 & Hn & Hm1)%marked_head.
  cbn [readiter_loop ri_merge]. rewrite Hh. cbn [negb]. cbv iota. rewrite Ho. cbn [mbind option_bind].
  rewrite Hd. cbn [mbind option_bind ri_nextdup ri_vlsn ri_next ri_save_delete ri_u ri_v]. rewrite Hn.
  cbn [mbind option_bind].
  destruct (nd && d) eqn:End.
  { apply andb_true_iff in End as [-> ->]. by apply (Hgo true). }
  assert (rest nd ((v, d) :: l) = omap (read_key upd vlsn sd) (groups ((v, d) :: l))) as ->.
  { unfold rest. destruct nd, d; done. }
  destruct (Z.gtb_spec (sv_lsn v) vlsn) as [Hlt|Hge].
  { rewrite rest_newer by lia. by apply (Hgo false). }
  rewrite rest_visible by lia.
  destruct (negb sd && sv_is v SVDELETE) eqn:Edel.
  { by apply (Hgo true). }
  destruct (sv_is v SVUPDATE) eqn:Eupd.
  - destruct (readiter_update_ok i v d l u fuel Hm Eupd) as (i' & u' & r & Hm' & Hr & E & Hres); [lia|].
    rewrite E, Hr. simpl. eexists. split; [done|]. split; [done|done|]. simpl. rewrite Hres.
    split_and!; [done|done|]. exists (after l). split_and!; [|pose proof (length_after l); lia|done].
    unfold rest. f_equal. f_equal. clear. induction l as [|[w [|]] l IH]; simpl; done.
  - eexists. split; [done|]. split; [done|done|]. simpl. split_and!; [done|done|].
    exists l. split_and!; [done|lia|]. eauto.
Qed.

Lemma readiter_next_ok out bound im fuel : read_at out bound im → out ≠ [] → (bound < fuel)%nat →
  ∃ im', sv_readiter_next upd fuel im = Some im' ∧ read_at (tail out) bound im'.
Proof.
  intros [Hv Hsd Ho] Hne Hf. destruct out as [|w tl]; [done|]. destruct Ho as (_ & Hnd & l & <- & Hl & Hm).
  unfold sv_readiter_next. rewrite Hv, Hsd, Hnd.
  assert (∃ i, (if ri_next im then mg_next (ri_merge im) else Some (ri_merge im)) = Some i ∧ marked i l) as (i & -> & Hmi).
  { destruct (ri_next im); [|eauto]. by destruct Hm as (v & d & (_ & _ & _ & i & -> & ?)%marked_head); eauto. }
  simpl. destruct (readiter_loop_ok l fuel i true (ri_u im) Hmi) as (im' & E & Hat); [lia|].
  exists im'. split; [done|]. destruct Hat as [? ? Hout]. split; [done|done|].
  destruct (rest true l); [done|]. destruct Hout as (? & ? & k & ? & ? & ?).
  split_and!; [done|done|]. exists k. split_and!; [done|lia|done].
Qed.
End run.
End reading.

(** Reads the iterator to its end. *)
Fixpoint readiter_drain {M} `{MergeIter M} (upd : sfupdatef) (n fuel : nat) (im : svreaditer M) : option (list sv) :=
  match n with
  | O => None
  | S n =>
      match sv_readiter_of im with
      | None => Some []
      | Some v => im' ← sv_readiter_next upd fuel im; l ← readiter_drain upd n fuel im'; Some (v :: l)
      end
  end.
Lemma readiter_drain_ok {M} `{MergeIter M} upd vlsn sd :
  (∀ fa a fb b, is_Some (upd fa a fb b)) → ∀ out bound (im : svreaditer M) n fuel,
  read_at upd vlsn sd out bound im → (length out < n)%nat → (bound < fuel)%nat →
  readiter_drain upd n fuel im = Some out.
Proof.
  intros Hupd. induction out as [|w out IH]; intros bound im [|n] fuel Hat Hn Hf; simpl in Hn; try lia.
  - simpl. unfold sv_readiter_of. by rewrite (ra_out _ _ _ _ _ _ Hat).
  - simpl. unfold sv_readiter_of. destruct (ra_out _ _ _ _ _ _ Hat) as (-> & _).
    destruct (readiter_next_ok upd Hupd vlsn sd _ bound im fuel Hat) as (im' & -> & Hat'); [done|done|].
    simpl. rewrite (IH bound im' n fuel Hat'); [done|lia|done].
Qed.

(** * The groups of a merged stream are the versions of one key each *)

Section by_key.
Context (cmp : bytes → bytes → Z) `{!KeyOrder cmp}.

(** The keys of a stream in increasing order, with all the versions of each. *)
Record keyed (l : list sv) (gs : list (list sv)) : Prop := mk_keyed {
  ky_concat : concat gs = l;
  ky_same : ∀ g, g ∈ gs → g ≠ [] ∧ ∀ a b, a ∈ g → b ∈ g → sv_compare cmp a b = 0;
  ky_sorted : StronglySorted (λ g h, ∀ a b, a ∈ g → b ∈ h → sv_compare cmp a b = -1) gs
}.

Lemma mark_split v l : ∃ l1 l2 u, l = l1 ++ l2 ∧ dups (mark cmp (Some v) l) = l1 ∧
  after (mark cmp (Some v) l) = mark cmp (Some u) l2 ∧ sv_compare cmp v u = 0 ∧
  (∀ w, w ∈ l1 → sv_compare cmp v w = 0) ∧ (∀ w, head l2 = Some w → sv_compare cmp v w ≠ 0).
Proof.
  revert v. induction l as [|w l IH]; intros v; simpl.
  { exists [], [], v. rewrite (cmp_refl (cmp:=sv_compare cmp)). split_and!; try done; set_solver. }
  unfold same. destruct (Z.eqb_spec (sv_compare cmp v w) 0) as [E|E].
  - destruct (IH w) as (l1 & l2 & u & -> & Hd & Ha & Hu & H1 & H2). exists (w :: l1), l2, u.
    rewrite <- Hd at 1. split_and!; [by rewrite Hd|by rewrite Hd|done| | |].
    + by rewrite (cmp_eq_l (sv_compare cmp) v w).
    + intros x [->|Hx]%elem_of_cons; [done|]. rewrite (cmp_eq_l (sv_compare cmp) v w) by done. by apply H1.
    + intros x Hx. rewrite (cmp_eq_l (sv_compare cmp) v w) by done. by apply H2.
  - exists [], (w :: l), v. simpl. rewrite (cmp_refl (cmp:=sv_compare cmp)). unfold same.
    destruct (Z.eqb_spec (sv_compare cmp v w) 0); [done|]. split_and!; try done; [set_solver|].
    by intros x [= <-].
Qed.

Lemma groups_keyed prev l : StronglySorted (λ a b, sle cmp a b = true) l → keyed l (groups (mark cmp prev l)).
Proof.
  remember (length l) as n eqn:En. revert prev l En. induction (lt_wf n) as [n _ IH]. intros prev l -> Hs.
  destruct l as [|v l]; [by split; [|set_solver|constructor]|]. simpl mark. rewrite groups_cons.
  destruct (mark_split v l) as (l1 & l2 & u & -> & -> & -> & _ & H1 & H2).
  apply StronglySorted_inv in Hs as [Hs Hv]. apply Forall_app in Hv as [_ Hv2].
  assert (StronglySorted (λ a b, sle cmp a b = true) l2) as Hs2 by by apply StronglySorted_app_1_r in Hs.
  assert (∀ w, w ∈ l2 → sv_compare cmp v w = -1) as Hlt.
  { destruct l2 as [|x l2]; [set_solver|]. intros w Hw. specialize (H2 x eq_refl).
    apply Forall_cons in Hv2 as [Hx _]. unfold sle in Hx. apply Z.leb_le in Hx.
    assert (sv_compare cmp v x = -1) as Hx1 by (destruct (cmp_range (cmp:=sv_compare cmp) v x); lia).
    apply elem_of_cons in Hw as [->|Hw]; [done|]. apply StronglySorted_inv in Hs2 as [_ Hf].
    rewrite Forall_forall in Hf. specialize (Hf w Hw). apply Z.leb_le in Hf.
    by eapply (cmp_lt_le_trans (sv_compare cmp)). }
  assert (∀ a, a ∈ v :: l1 → sv_compare cmp v a = 0) as Hva.
  { intros a [->|Ha]%elem_of_cons; [apply (cmp_refl (cmp:=sv_compare cmp))|by apply H1]. }
  destruct (IH (length l2)) with (prev := Some u) (l := l2) as [Hc Hsm Hso]; [simpl; rewrite length_app; lia|done|done|].
  split.
  - simpl. by rewrite Hc.
  - intros g [->|Hg]%elem_of_cons; [|by apply Hsm]. split; [done|]. intros a b Ha%Hva Hb%Hva.
    by rewrite <- (cmp_eq_l (sv_compare cmp) v a).
  - constructor; [done|]. apply Forall_forall. intros h Hh a b Ha%Hva Hb.
    rewrite <- (cmp_eq_l (sv_compare cmp) v a) by done. apply Hlt. rewrite <- Hc.
    apply elem_of_concat. apply list_elem_of_lookup in Hh as [i Hi]. eauto.
Qed.
End by_key.

Lemma readiter_opens {I} `{SsIter I} cmp `{!KeyOrder cmp} upd o (m : list (svmergesrc I)) ls u vlsn sd n :
  (∀ fa a fb b, is_Some (upd fa a fb b)) → walk_order o = true →
  Forall2 (λ s l, enumerates (src_i s) l ∧ src_dup s = false) m ls →
  Forall (stream_ok (order_cmp o cmp)) ls → (length (concat ls) < n)%nat →
  let _ := svmergeiter_merge (I:=I) cmp in
  ∃ i im gs, sv_mergeiter_open cmp m o = Some i ∧ sv_readiter_open upd n i u vlsn sd = Some im ∧
    keyed (order_cmp o cmp) (kmerge (sle (order_cmp o cmp)) ls) gs ∧ (length gs <= length (concat ls))%nat ∧
    read_at upd vlsn sd (omap (read_key upd vlsn sd) gs) (length (concat ls)) im.
Proof.
  intros Hupd Ho He Hs Hn MI.
  pose proof (gt_step_ok _ o _ _ _ (ready_start (order_cmp o cmp) m ls He Hs)) as Hy.
  set (out := kmerge (sle (order_cmp o cmp)) ls) in *. set (i := gt_step (order_cmp o cmp) o m) in *.
  assert (length out = length (concat ls)) as Hlen by (apply Permutation_length, kmerge_perm).
  pose proof (mergeiter_marked cmp i None out Ho Hy) as Hm. change (mi_order i) with o in Hm.
  set (l := mark (order_cmp o cmp) None out) in *.
  assert (length l = length out) as Hl by apply length_mark.
  destruct (readiter_loop_ok upd Hupd vlsn sd l n i false u Hm) as (im & Eim & Hat); [lia|].
  exists i, im, (groups l). split_and!.
  - unfold sv_mergeiter_open. by rewrite (mergeiter_next_eq cmp (mk_mergeiter o m None)).
  - exact Eim.
  - apply groups_keyed; [apply _|]. apply kmerge_sorted; [apply sle_trans; apply _|apply sle_total; apply _|].
    eapply Forall_impl; [exact Hs|]. by intros k [? _].
  - pose proof (length_groups l). lia.
  - rewrite <- Hlen, <- Hl. exact Hat.
Qed.

(** C8: over any sorted sources, a reader at sequence number [vlsn] yields, for every key in the
    direction of the walk, exactly what the versions of that key in all the sources say: the
    first one (newest, in source order) with an lsn not above [vlsn], nothing when it is a
    delete (unless deletes are kept), and the resolved value when it is an update.  Both
    iterators terminate within one turn per version. *)
Theorem sv_readiter_reads {I} `{SsIter I} cmp `{!KeyOrder cmp} upd o (m : list (svmergesrc I)) ls u vlsn sd :
  (∀ fa a fb b, is_Some (upd fa a fb b)) → walk_order o = true →
  Forall2 (λ s l, enumerates (src_i s) l ∧ src_dup s = false) m ls →
  Forall (stream_ok (order_cmp o cmp)) ls →
  let n := S (length (concat ls)) in
  let _ := svmergeiter_merge (I:=I) cmp in
  ∃ i im gs, sv_mergeiter_open cmp m o = Some i ∧ sv_readiter_open upd n i u vlsn sd = Some im ∧
    keyed (order_cmp o cmp) (kmerge (sle (order_cmp o cmp)) ls) gs ∧
    readiter_drain upd n n im = Some (omap (read_key upd vlsn sd) gs).
Proof.
  intros Hupd Ho He Hs n MI. destruct (readiter_opens cmp upd o m ls u vlsn sd n Hupd Ho He Hs) as (i & im & gs & E1 & E2 & Hk & Hl & Hat); [lia|].
  exists i, im, gs. split_and!; [done|done|done|]. eapply readiter_drain_ok; [done|exact Hat| |lia].
  pose proof (length_omap_le (read_key upd vlsn sd) gs). lia.
Qed.

(** ** Witness: a key with a newer version than the reader may see, and a deleted key *)
Definition demo_upd : sfupdatef := λ _ a _ b, Some (default [] a ++ b).
Lemma sv_readiter_reads_witness :
  let _ := svmergeiter_merge (I:=list sv) demo_key_cmp in
  ∃ i im, sv_mergeiter_open demo_key_cmp ((λ l, mk_src l false) <$> demo_streams) SS_GT = Some i ∧
    sv_readiter_open demo_upd 6 i sv_updateinit 8 false = Some im ∧
    readiter_drain demo_upd 6 6 im = Some [mk_sv 7 4 [1]; mk_sv 8 0 [5]].
Proof.
  intros MI.
  destruct (sv_readiter_reads demo_key_cmp demo_upd SS_GT ((λ l, mk_src l false) <$> demo_streams)
    demo_streams sv_updateinit 8 false) as (i & im & gs & Hi & Him & Hk & Hd).
  - intros. unfold demo_upd. eauto.
  - reflexivity.
  - repeat constructor.
  - exact demo_streams_ok.
  - exists i, im. split_and!; [exact Hi|exact Him|].
    apply (f_equal (λ x, x)) in Hi, Him. vm_compute in Hi. injection Hi as <-.
    vm_compute in Him. injection Him as <-. vm_compute. reflexivity.
Defined.
