(* ===== verification/SvWrite.v ===== *)
(** The write iterator of sv_writeiter.h: the stream that branch and compaction write, with the
    versions no reader can see any more dropped. *)
From stdpp Require Import base list sorting sets gmap.
From S2P Require Import Prelude SsOrder Sv SvMerge SvMergeProofs SvUpdate SvRead.
Local Open Scope Z_scope.

Section writeiter.
Context {M : Type} `{MergeIter M} (upd : sfupdatef).

Record svwriteiter := mk_writeiter {
  wi_merge : M;
  wi_limit : Z;
  wi_size : Z;
  wi_sizev : Z;
  wi_vlsn : Z;
  wi_save_delete : bool;
  wi_save_update : bool;
  wi_next : bool;
  wi_update : bool;
  wi_prevlsn : Z;
  wi_v : option sv;
  wi_vdup : bool;
  wi_u : svupdate
}.

(** Updates of the fields the functions below assign. *)
Definition wi_set (im : svwriteiter) (i : M) (size : Z) (next update : bool) (prevlsn : Z)
    (v : option sv) (vdup : bool) (u : svupdate) : svwriteiter :=
  mk_writeiter i (wi_limit im) size (wi_sizev im) (wi_vlsn im) (wi_save_delete im) (wi_save_update im)
    next update prevlsn v vdup u.

(** The loop of [sv_writeiter_update]. *)
Fixpoint writeiter_update_loop (fuel : nat) (vlsn prevlsn : Z) (last_non_upd : bool) (u : svupdate) (i : M) :
    option (svupdate * M) :=
  match fuel with
  | O => None
  | S fuel =>
      if negb (mg_has i) then Some (u, i)
      else
        v ← mg_of i; dup ← mg_dup i v;
        if negb dup then Some (u, i)
        else if Z.gtb prevlsn vlsn then Some (u, i)
        else
          i' ← mg_next i;
          if last_non_upd then writeiter_update_loop fuel vlsn prevlsn last_non_upd u i'
          else writeiter_update_loop fuel vlsn (sv_lsn v) (Z.eqb (Z.land (sv_flags v) SVUPDATE) 0)
                 (sv_updatepush u v) i'
  end.
Definition sv_writeiter_update (fuel : nat) (vlsn : Z) (u : svupdate) (i : M) : option (option svupdate * M) :=
  let u := sv_updatereset u in
  v ← mg_of i;
  if Z.eqb (Z.land (sv_flags v) SVUPDATE) 0 then None
  else
    let u := sv_updatepush u v in
    i ← mg_next i;
    '(u, i) ← writeiter_update_loop fuel vlsn (sv_lsn v) false u i;
    Some (sv_update upd u, i).

(** The loop of [sv_writeiter_next].  The size counts 32-bit sums in a 64-bit total. *)
Fixpoint writeiter_loop (fuel : nat) (im : svwriteiter) : option svwriteiter :=
  match fuel with
  | O => None
  | S fuel =>
      let i := wi_merge im in
      if negb (mg_has i) then Some im
      else
        v ← mg_of i; dup ← mg_dup i v;
        if Z.geb (wi_size im) (wi_limit im) && negb dup then Some im
        else
          let lsn := sv_lsn v in
          let continue := λ update prevlsn,
            i' ← mg_next i;
            writeiter_loop fuel (wi_set im i' (wi_size im) (wi_next im) update prevlsn (wi_v im) (wi_vdup im) (wi_u im)) in
          let emit := λ size update,
            Some (wi_set im i size true update lsn (Some v) dup (wi_u im)) in
          if dup then
            if Z.leb (wi_prevlsn im) (wi_vlsn im) then
              if wi_update im then emit (wi_size im) (Z.gtb (Z.land (sv_flags v) SVUPDATE) 0)
              else continue (wi_update im) (wi_prevlsn im)
            else emit (wi_size im) (wi_update im)
          else if negb (wi_save_delete im) && (sv_is v SVDELETE && Z.leb lsn (wi_vlsn im)) then
            continue false lsn
          else
            let size := wrap 64 (wi_size im + wrap 32 (wi_sizev im + sv_size v)) in
            if sv_is v SVUPDATE then
              if negb (wi_save_update im) then
                '(r, i') ← sv_writeiter_update fuel (wi_vlsn im) (wi_u im) i;
                match r with
                | None => Some (wi_set im i' size (wi_next im) false (wi_prevlsn im) (wi_v im) (wi_vdup im) (wi_u im))
                | Some u => Some (wi_set im i' size false false lsn (u_result u) dup u)
                end
              else emit size true
            else emit size false
  end.

Definition sv_writeiter_next (fuel : nat) (im : svwriteiter) : option svwriteiter :=
  i ← (if wi_next im then mg_next (wi_merge im) else Some (wi_merge im));
  writeiter_loop fuel (wi_set im i (wi_size im) false (wi_update im) (wi_prevlsn im) None false (wi_u im)).

Definition sv_writeiter_open (fuel : nat) (i : M) (u : svupdate) (limit sizev vlsn : Z)
    (save_delete save_update : bool) : option svwriteiter :=
  sv_writeiter_next fuel
    (mk_writeiter i limit 0 sizev vlsn save_delete save_update false false 0 None false u).

Definition sv_writeiter_has (im : svwriteiter) : bool := bool_decide (is_Some (wi_v im)).
Definition sv_writeiter_of (im : svwriteiter) : option sv := wi_v im.
(** The answer, and the state: [false] leaves only [v] (NULL) assigned. *)
Definition sv_writeiter_resume (im : svwriteiter) : option (bool * svwriteiter) :=
  match mg_of (wi_merge im) with
  | None => Some (false, wi_set im (wi_merge im) (wi_size im) (wi_next im) (wi_update im) (wi_prevlsn im)
                           None (wi_vdup im) (wi_u im))
  | Some v =>
      dup ← mg_dup (wi_merge im) v;
      Some (true, wi_set im (wi_merge im) (wrap 32 (wi_sizev im + sv_size v)) true false (sv_lsn v)
                    (Some v) dup (wi_u im))
  end.
(** [None]: the assertion [im->v != NULL] fails. *)
Definition sv_writeiter_is_duplicate (im : svwriteiter) : option bool :=
  if sv_writeiter_has im then Some (wi_vdup im) else None.
End writeiter.
Arguments svwriteiter : clear implicits.

(** Reads the iterator until it has no version: the versions and their duplicate marks. *)
Fixpoint writeiter_drain {M} `{MergeIter M} (upd : sfupdatef) (n fuel : nat) (im : svwriteiter M) :
    option (list (sv * bool) * svwriteiter M) :=
  match n with
  | O => None
  | S n =>
      match sv_writeiter_of im with
      | None => Some ([], im)
      | Some v =>
          im' ← sv_writeiter_next upd fuel im;
          '(l, im'') ← writeiter_drain upd n fuel im';
          Some ((v, wi_vdup im) :: l, im'')
      end
  end.
(** The pages of a stream: the iterator is read to its end and resumed until it is done. *)
Fixpoint write_all {M} `{MergeIter M} (upd : sfupdatef) (n fuel : nat) (im : svwriteiter M) :
    option (list (list (sv * bool))) :=
  match n with
  | O => None
  | S n =>
      '(l, im1) ← writeiter_drain upd fuel fuel im;
      r ← sv_writeiter_resume im1;
      if r.1 : bool then ls ← write_all upd n fuel r.2; Some (l :: ls) else Some [l]
  end.

(** * What is written of the versions of one key *)

Section writing.
Context {M : Type} `{MergeIter M} (upd : sfupdatef) (vlsn : Z) (sd : bool).

(** Every version above [vlsn], and the newest one that is not. *)
Fixpoint keep (g : list sv) : list sv :=
  match g with
  | [] => []
  | v :: g => v :: (if Z.leb (sv_lsn v) vlsn then [] else keep g)
  end.
(** The key is gone: its newest version is a delete every reader sees. *)
Definition dead (g : list sv) : Prop :=
  ∃ v ds, g = v :: ds ∧ sd = false ∧ sv_is v SVDELETE = true ∧ sv_lsn v <= vlsn.
Definition gc (g k : list sv) : Prop := k = keep g ∨ (dead g ∧ k = []).

(** The written versions read like the full group at any sequence number a reader may have. *)
Lemma keep_read g vlsn' : vlsn <= vlsn' → Forall (λ v, sv_is v SVUPDATE = false) g →
  read_key upd vlsn' false (keep g) = read_key upd vlsn' false g.
Proof.
  intros Hle Hu. induction Hu as [|v g Hv Hu IH]; [done|]. unfold read_key in *. simpl.
  destruct (Z.gtb_spec (sv_lsn v) vlsn'); [|by rewrite Hv].
  destruct (Z.leb_spec (sv_lsn v) vlsn); [lia|]. exact IH.
Qed.
Lemma gc_read g k vlsn' : vlsn <= vlsn' → Forall (λ v, sv_is v SVUPDATE = false) g → gc g k →
  read_key upd vlsn' false k = read_key upd vlsn' false g.
Proof.
  intros Hle Hu [->|[(v & ds & -> & -> & Hd & Hl) ->]]; [by apply keep_read|].
  unfold read_key. simpl. destruct (Z.gtb_spec (sv_lsn v) vlsn'); [lia|]. by rewrite Hd.
Qed.

Lemma keep_sublist g : keep g `sublist_of` g.
Proof. induction g as [|v g IH]; simpl; constructor. case_match; [apply sublist_nil_l|done]. Qed.
Definition reads_alike (g k : list sv) : Prop := k `sublist_of` g ∧
  ∀ vlsn', vlsn <= vlsn' → read_key upd vlsn' false k = read_key upd vlsn' false g.
Lemma gc_alike gs ks : Forall (Forall (λ v, sv_is v SVUPDATE = false)) gs → Forall2 gc gs ks →
  Forall2 reads_alike gs ks.
Proof.
  intros Hu. induction 1 as [|g k gs ks Hg Hf IH]; [constructor|]. apply Forall_cons in Hu as [Hu1 Hu2].
  constructor; [|by apply IH]. split; [|intros; by apply gc_read].
  destruct Hg as [->|[_ ->]]; [apply keep_sublist|apply sublist_nil_l].
Qed.

Definition plain (l : list (sv * bool)) : Prop := Forall (λ p, sv_is p.1 SVUPDATE = false) l.
Definition cfg (im : svwriteiter M) : Prop := wi_vlsn im = vlsn ∧ wi_save_delete im = sd.
Definition emitted (im : svwriteiter M) (v : sv) (d : bool) (l : list (sv * bool)) : Prop :=
  cfg im ∧ wi_v im = Some v ∧ wi_vdup im = d ∧ wi_next im = true ∧ wi_prevlsn im = sv_lsn v ∧
  wi_update im = false ∧ marked (wi_merge im) ((v, d) :: l).
Definition stopped (im : svwriteiter M) (l : list (sv * bool)) : Prop :=
  cfg im ∧ wi_v im = None ∧ marked (wi_merge im) l ∧ starts_dup l = false.

(** The loop, from a stream [l] behind a version of lsn [p] of the same key: it stops at the
    next version to write, or at a key boundary; the groups in between are dead. *)
Lemma writeiter_loop_ok l : plain l → ∀ fuel im, cfg im → marked (wi_merge im) l → (length l < fuel)%nat →
  wi_update im = false → wi_v im = None →
  ∃ im', writeiter_loop upd fuel im = Some im' ∧
    ((∃ w l1, l = (w, true) :: l1 ∧ wi_prevlsn im > vlsn ∧ emitted im' w true l1) ∨
     ((wi_prevlsn im <= vlsn ∨ starts_dup l = false) ∧ ∃ gs, Forall dead gs ∧
       ((∃ l', stopped im' l' ∧ groups (after l) = gs ++ groups l' ∧ (length l' <= length l)%nat ∧ plain l') ∨
        (∃ w l1, emitted im' w false l1 ∧ groups (after l) = gs ++ groups ((w, false) :: l1) ∧
           (length l1 < length l)%nat ∧ plain l1)))).
Proof.
  induction 1 as [|[v d] l Hv Hp IH]; intros [|fuel] im [Hcv Hcs] Hm Hf Hu Hn; simpl in Hf; try lia.
  { destruct Hm as [Hh Ho]. cbn [writeiter_loop]. rewrite Hh. simpl. eexists. split; [done|]. right.
    split; [by right|]. exists []. split; [done|]. left. exists []. split_and!; [unfold emitted, stopped, cfg; by split_and!|done|simpl; lia|by constructor]. }
  pose proof Hm as (Hh & Ho & Hd & i1 & Hnx & Hm1)%marked_head. simpl in Hv.
  cbn [writeiter_loop]. rewrite Hh, Ho. cbn [negb mbind option_bind]. cbv iota. rewrite Hd. cbn [mbind option_bind].
  rewrite Hnx. cbn [mbind option_bind]. rewrite Hcv, Hcs, Hu, Hn. destruct d; simpl.
  - rewrite andb_false_r. destruct (Z.leb_spec (wi_prevlsn im) vlsn) as [Hle|Hgt].
    + destruct (IH fuel (wi_set im i1 (wi_size im) (wi_next im) false (wi_prevlsn im) None (wi_vdup im) (wi_u im)))
        as (im' & E & Hout); [done|done|lia|done|done|]. exists im'. split; [done|]. right. split; [by left|].
      destruct Hout as [(? & ? & _ & ? & _)|[_ (gs & Hgs & Hout)]]; [simpl in *; lia|].
      exists gs. split; [done|]. destruct Hout as [(l' & ? & ? & ? & ?)|(w & l1 & ? & ? & ? & ?)]; [left|right].
      * exists l'. split_and!; [done|done|lia|done].
      * exists w, l1. split_and!; [done|done|lia|done].
    + eexists. split; [done|]. left. exists v, l. split_and!; [done|lia|]. unfold emitted, cfg. by split_and!.
  - rewrite andb_true_r. destruct (Z.geb (wi_size im) (wi_limit im)).
    { eexists. split; [done|]. right. split; [by right|]. exists []. split; [done|]. left.
      exists ((v, false) :: l). split_and!; [unfold emitted, stopped, cfg; by split_and!|done|simpl; lia|by constructor]. }
    destruct (negb sd && (sv_is v SVDELETE && Z.leb (sv_lsn v) vlsn)) eqn:Edel.
    + apply andb_true_iff in Edel as [Esd [Edel Ele]%andb_true_iff]. apply negb_true_iff in Esd.
      apply Z.leb_le in Ele.
      destruct (IH fuel (wi_set im i1 (wi_size im) (wi_next im) false (sv_lsn v) None (wi_vdup im) (wi_u im)))
        as (im' & E & Hout); [done|done|lia|done|done|]. exists im'. split; [done|]. right. split; [by right|].
      destruct Hout as [(? & ? & _ & ? & _)|[_ (gs & Hgs & Hout)]]; [simpl in *; lia|].
      exists ((v :: dups l) :: gs). split.
      { constructor; [|done]. by exists v, (dups l). }
      change (join v (starts_dup l) (groups l)) with (groups ((v, false) :: l)).
      rewrite groups_cons. destruct Hout as [(l' & ? & Hg & ? & ?)|(w & l1 & ? & Hg & ? & ?)]; [left|right].
      * exists l'. rewrite Hg. split_and!; [done|done|simpl; lia|done].
      * exists w, l1. rewrite Hg. split_and!; [done|done|simpl; lia|done].
    + rewrite Hv. simpl. eexists. split; [done|]. right. split; [by right|]. exists []. split; [done|].
      right. exists v, l. split_and!; [unfold emitted, stopped, cfg; by split_and!|done|simpl; lia|done].
Qed.

Lemma dead_gc gs : Forall dead gs → Forall2 gc gs (replicate (length gs) []).
Proof. induction 1; simpl; constructor; [by right|done]. Qed.
Lemma concat_replicate_nil n : concat (replicate n (@nil sv)) = [].
Proof. by induction n. Qed.
Lemma keep_cons v g : keep (v :: g) = v :: (if Z.leb (sv_lsn v) vlsn then [] else keep g).
Proof. done. Qed.

Lemma writeiter_next_ok im v d l fuel : emitted im v d l → plain l → (length l < fuel)%nat →
  ∃ im', sv_writeiter_next upd fuel im = Some im' ∧
    ((∃ w l1, l = (w, true) :: l1 ∧ sv_lsn v > vlsn ∧ emitted im' w true l1) ∨
     ((sv_lsn v <= vlsn ∨ starts_dup l = false) ∧ ∃ gs, Forall dead gs ∧
       ((∃ l', stopped im' l' ∧ groups (after l) = gs ++ groups l' ∧ (length l' <= length l)%nat ∧ plain l') ∨
        (∃ w l1, emitted im' w false l1 ∧ groups (after l) = gs ++ groups ((w, false) :: l1) ∧
           (length l1 < length l)%nat ∧ plain l1)))).
Proof.
  intros ([Hcv Hcs] & Hv & Hd & Hn & Hpl & Hu & Hm) Hp Hf.
  destruct Hm as (_ & _ & _ & i & Hi & Hm). unfold sv_writeiter_next. rewrite Hn, Hi. simpl.
  rewrite <- Hpl.
  apply (writeiter_loop_ok l Hp fuel (wi_set im i (wi_size im) false (wi_update im) (wi_prevlsn im) None false (wi_u im)));
    done.
Qed.

Lemma drain_chunk_ok l : ∀ im v d n fuel, emitted im v d l → plain l → (length l < fuel)%nat → (length l < n)%nat →
  ∃ outs im' l' gs ks, writeiter_drain upd (S n) fuel im = Some (outs, im') ∧ stopped im' l' ∧
    outs.*1 = keep (v :: dups l) ++ concat ks ∧ Forall2 gc gs ks ∧
    groups (after l) = gs ++ groups l' ∧ (length l' <= length l)%nat ∧ plain l'.
Proof.
  remember (length l) as j eqn:Ej. revert l Ej. induction (lt_wf j) as [j _ IH].
  intros l -> im v d n fuel Hem Hp Hf Hn.
  destruct (writeiter_next_ok im v d l fuel Hem Hp Hf) as (im1 & E1 & Hout).
  assert (sv_writeiter_of im = Some v) as Hof by apply Hem.
  cbn [writeiter_drain]. rewrite Hof, E1. cbn [mbind option_bind]. rewrite keep_cons.
  destruct n as [|n]; [lia|].
  destruct Hout as [(w & l1 & -> & Hgt & Hem1)|(Hle & gs & Hgs & Hout)].
  - apply Forall_cons in Hp as [_ Hp1]. simpl in *.
    destruct (IH (length l1)) with (l := l1) (im := im1) (v := w) (d := true) (n := n) (fuel := fuel)
      as (outs & im' & l' & gs & ks & E & Hst & Ho & Hgc & Hg & Hl & Hpl'); [lia|done|done|done|lia|lia|].
    cbn [writeiter_drain] in E. rewrite E. simpl. eexists _, im', l', gs, ks. split_and!; try done; [|lia].
    csimpl. rewrite Ho. destruct (Z.leb_spec (sv_lsn v) vlsn); [lia|]. done.
  - assert ((if Z.leb (sv_lsn v) vlsn then [] else keep (dups l)) = []) as ->.
    { destruct (Z.leb_spec (sv_lsn v) vlsn); [done|]. destruct Hle; [lia|].
      by destruct l as [|[w [|]] l]. }
    destruct Hout as [(l' & Hst & Hg & Hl & Hpl')|(w & l1 & Hem1 & Hg & Hl & Hp1)].
    + cbn [writeiter_drain]. assert (sv_writeiter_of im1 = None) as -> by apply Hst. simpl.
      eexists _, im1, l', gs, _. split_and!; [done|done| |by apply dead_gc|done|done|done].
      simpl. by rewrite concat_replicate_nil.
    + destruct (IH (length l1)) with (l := l1) (im := im1) (v := w) (d := false) (n := n) (fuel := fuel)
        as (outs & im' & l' & gs' & ks & E & Hst & Ho & Hgc & Hg' & Hl' & Hpl'); [lia|done|done|done|lia|lia|].
      rewrite E. simpl.
      eexists _, im', l', (gs ++ (w :: dups l1) :: gs'), (replicate (length gs) [] ++ keep (w :: dups l1) :: ks).
      split_and!; [done|done| | | |lia|done].
      * csimpl. rewrite Ho, concat_app, concat_replicate_nil. done.
      * apply Forall2_app; [by apply dead_gc|]. constructor; [by left|done].
      * rewrite Hg, groups_cons, Hg'. by rewrite <- app_assoc.
Qed.

(** Chunk by chunk: each is the written part of a run of whole keys. *)
Definition chunks_ok (gs : list (list sv)) (chunks : list (list (sv * bool))) : Prop :=
  ∃ gss kss, concat gss = gs ∧ Forall2 (Forall2 gc) gss kss ∧
    Forall2 (λ c ks, c.*1 = concat ks) chunks kss.
Lemma chunks_ok_cons gs gs' ks c cs : Forall2 gc gs ks → c.*1 = concat ks → chunks_ok gs' cs →
  chunks_ok (gs ++ gs') (c :: cs).
Proof.
  intros Hk Hc (gss & kss & <- & HF & HC). exists (gs :: gss), (ks :: kss). split_and!; by constructor.
Qed.

Lemma chunks_ok_dead gs gs' cs : Forall dead gs → gs' ≠ [] → chunks_ok gs' cs → chunks_ok (gs ++ gs') cs.
Proof.
  intros Hd Hne (gss & kss & <- & HF & HC). destruct HF as [|g0 k0 gss kss H0 HF]; [done|].
  inversion HC as [|c ? cs' ? H1 H2]; subst.
  exists ((gs ++ g0) :: gss), ((replicate (length gs) [] ++ k0) :: kss). split_and!.
  - simpl. by rewrite app_assoc.
  - constructor; [|done]. apply Forall2_app; [by apply dead_gc|done].
  - constructor; [|done]. by rewrite concat_app, concat_replicate_nil.
Qed.

Lemma resume_ok im l : stopped im l →
  match l with
  | [] => ∃ im', sv_writeiter_resume im = Some (false, im')
  | (w, _) :: l' => ∃ im', sv_writeiter_resume im = Some (true, im') ∧ emitted im' w false l'
  end.
Proof.
  intros ([Hcv Hcs] & Hv & Hm & Hst). unfold sv_writeiter_resume. destruct l as [|[w d] l].
  - destruct Hm as [_ ->]. eauto.
  - simpl in Hst. subst d. pose proof Hm as (_ & -> & -> & _)%marked_head. simpl. eexists. split; [done|].
    unfold emitted, cfg. by split_and!.
Qed.

Lemma write_all_ok l : ∀ im v d n fuel, emitted im v d l → plain l → (S (length l) < fuel)%nat → (length l < n)%nat →
  ∃ chunks, write_all upd n fuel im = Some chunks ∧ chunks_ok ((v :: dups l) :: groups (after l)) chunks.
Proof.
  remember (length l) as j eqn:Ej. revert l Ej. induction (lt_wf j) as [j _ IH].
  intros l -> im v d [|n] [|fuel] Hem Hp Hf Hn; try lia.
  destruct (drain_chunk_ok l im v d fuel (S fuel) Hem Hp) as (outs & im1 & l' & gs & ks & E & Hst & Ho & Hgc & Hg & Hl & Hp');
    [lia|lia|]. cbn [write_all]. rewrite E. cbn [mbind option_bind].
  pose proof (resume_ok im1 l' Hst) as Hres. rewrite Hg. destruct l' as [|[w d'] l'].
  - destruct Hres as [im2 ->]. simpl. eexists. split; [done|]. simpl. rewrite app_nil_r.
    rewrite <- (app_nil_r (_ :: gs)). apply (chunks_ok_cons _ _ (keep (v :: dups l) :: ks)).
    + constructor; [by left|done].
    + done.
    + exists [], []. by split_and!.
  - destruct Hres as (im2 & -> & Hem2). cbn [mbind option_bind fst snd]. cbv iota.
    apply Forall_cons in Hp' as [_ Hp']. simpl in Hl.
    destruct (IH (length l')) with (l := l') (im := im2) (v := w) (d := false) (n := n) (fuel := S fuel)
      as (chunks & Ec & Hc); [lia|done|done|done|lia|lia|].
    rewrite Ec. simpl. eexists. split; [done|]. change (join w (starts_dup l') (groups l')) with (groups ((w, d') :: l')).
    rewrite groups_cons. apply (chunks_ok_cons ((v :: dups l) :: gs) _ (keep (v :: dups l) :: ks)); [|done|done].
    constructor; [by left|done].
Qed.

Lemma write_open_ok l i u limit sizev su n : plain l → starts_dup l = false → marked i l → (S (length l) < n)%nat →
  ∃ im chunks, sv_writeiter_open upd n i u limit sizev vlsn sd su = Some im ∧
    write_all upd (S n) n im = Some chunks ∧ chunks_ok (groups l) chunks.
Proof.
  intros Hp Hsd Hm Hn. unfold sv_writeiter_open, sv_writeiter_next. simpl.
  set (im0 := wi_set _ _ _ _ _ _ _ _ _).
  destruct (writeiter_loop_ok l Hp n im0) as (im & E & Hout); [done|done|lia|done|done|].
  rewrite E. exists im.
  destruct Hout as [(w & l1 & -> & _)|(_ & gs & Hgs & Hout)]; [done|].
  replace (after l) with l in Hout by by destruct l as [|[? []] ?].
  destruct Hout as [(l' & Hst & Hg & Hl & Hp')|(w & l1 & Hem & Hg & Hl & Hp1)]; rewrite Hg.
  - destruct n as [|n]; [lia|]. cbn [write_all writeiter_drain].
    assert (sv_writeiter_of im = None) as -> by apply Hst. cbn [mbind option_bind].
    pose proof (resume_ok im l' Hst) as Hres. destruct l' as [|[w d'] l'].
    + destruct Hres as [im2 ->]. simpl. eexists. split_and!; [done|done|].
      apply (chunks_ok_cons gs [] (replicate (length gs) [])); [by apply dead_gc|by rewrite concat_replicate_nil|].
      exists [], []. by split_and!.
    + destruct Hres as (im2 & -> & Hem2). cbn [mbind option_bind fst snd]. cbv iota.
      apply Forall_cons in Hp' as [_ Hp']. simpl in Hl.
      destruct (write_all_ok l' im2 w false (S n) (S n) Hem2 Hp') as (chunks & Ec & Hc); [lia|lia|].
      cbn [write_all writeiter_drain] in Ec. rewrite Ec. simpl. eexists. split_and!; [done|done|].
      change (join w (starts_dup l') (groups l')) with (groups ((w, d') :: l')). rewrite groups_cons.
      apply (chunks_ok_cons gs _ (replicate (length gs) [])); [by apply dead_gc|by rewrite concat_replicate_nil|done].
  - destruct (write_all_ok l1 im w false (S n) n Hem Hp1) as (chunks & Ec & Hc); [lia|lia|].
    exists chunks. split_and!; [done|done|]. rewrite groups_cons. by apply chunks_ok_dead.
Qed.
End writing.

(** C9: branch and compaction write a merged stream without update statements, whatever the
    page limit and however often they are resumed, as pages made of whole keys; of every key
    they write a part of its versions that any reader at or above [vlsn] reads exactly like
    all of them. *)
Theorem sv_writeiter_preserves_reads {I} `{SsIter I} cmp `{!KeyOrder cmp} upd (m : list (svmergesrc I)) ls
    u limit sizev vlsn sd su :
  Forall2 (λ s l, enumerates (src_i s) l ∧ src_dup s = false) m ls →
  Forall (stream_ok cmp) ls → Forall (Forall (λ v, sv_is v SVUPDATE = false)) ls →
  let n := S (S (length (concat ls))) in
  let _ := svmergeiter_merge (I:=I) cmp in
  ∃ i im pages gss kss, sv_mergeiter_open cmp m SS_GTE = Some i ∧
    sv_writeiter_open upd n i u limit sizev vlsn sd su = Some im ∧
    write_all upd (S n) n im = Some pages ∧
    keyed cmp (kmerge (sle cmp) ls) (concat gss) ∧
    Forall2 (λ p ks, p.*1 = concat ks) pages kss ∧
    Forall2 (Forall2 (reads_alike upd vlsn)) gss kss.
Proof.
  intros He Hs Hu n MI.
  pose proof (gt_step_ok _ SS_GTE _ _ _ (ready_start cmp m ls He Hs)) as Hy.
  set (out := kmerge (sle cmp) ls) in *. set (i := gt_step cmp SS_GTE m) in *.
  assert (length out = length (concat ls)) as Hlen by (apply Permutation_length, kmerge_perm).
  pose proof (mergeiter_marked cmp i None out eq_refl Hy) as Hm. change (order_cmp (mi_order i) cmp) with cmp in Hm.
  assert (Forall (λ v, sv_is v SVUPDATE = false) out) as Hpo.
  { unfold out. rewrite kmerge_perm. by apply Forall_concat. }
  assert (plain (mark cmp None out)) as Hp.
  { clear -Hpo. generalize (@None sv). induction Hpo as [|v l Hv _ IH]; intros p; simpl; constructor; [done|apply IH]. }
  destruct (write_open_ok upd vlsn sd (mark cmp None out) i u limit sizev su n Hp) as (im & pages & Ho & Hw & gss & kss & Hg & HF & HC);
    [by destruct out|done|rewrite length_mark; lia|].
  assert (keyed cmp out (concat gss)) as Hk.
  { rewrite Hg. apply groups_keyed; [done|]. apply kmerge_sorted; [by apply sle_trans|by apply sle_total|].
    eapply Forall_impl; [exact Hs|]. by intros k [? _]. }
  exists i, im, pages, gss, kss. split_and!; [|done|done|done|done|].
  - unfold sv_mergeiter_open. by rewrite (mergeiter_next_eq cmp (mk_mergeiter SS_GTE m None)).
  - assert (Forall (Forall (Forall (λ v, sv_is v SVUPDATE = false))) gss) as Hgu.
    { rewrite <- !Forall_concat, (ky_concat _ _ _ Hk). exact Hpo. }
    clear -HF Hgu. induction HF as [|gs ks gss kss Hf HF IH]; [constructor|].
    apply Forall_cons in Hgu as [? ?]. constructor; [by apply (gc_alike upd vlsn sd)|by apply IH].
Qed.

(** ** Witness: two keys on two pages, an old version and a dead key dropped *)
Definition demo_stored : list (list sv) :=
  [[mk_sv 9 0 [1]; mk_sv 7 4 [1]; mk_sv 5 4 [1]; mk_sv 6 1 [3]; mk_sv 4 4 [3]]; [mk_sv 8 0 [5]]].
Lemma sv_writeiter_preserves_reads_witness :
  let _ := svmergeiter_merge (I:=list sv) demo_key_cmp in
  ∃ i im, sv_mergeiter_open demo_key_cmp ((λ l, mk_src l false) <$> demo_stored) SS_GTE = Some i ∧
    sv_writeiter_open demo_upd 8 i sv_updateinit 10 8 7 false false = Some im ∧
    write_all demo_upd 9 8 im =
      Some [[(mk_sv 9 0 [1], false); (mk_sv 7 4 [1], true); (mk_sv 8 0 [5], false)]].
Proof.
  intros MI.
  destruct (sv_writeiter_preserves_reads demo_key_cmp demo_upd ((λ l, mk_src l false) <$> demo_stored)
    demo_stored sv_updateinit 10 8 7 false false) as (i & im & pages & gss & kss & Hi & Him & Hw & _).
  - repeat constructor.
  - repeat constructor.
  - repeat constructor.
  - exists i, im. split_and!; [exact Hi|exact Him|].
    vm_compute in Hi. injection Hi as <-. vm_compute in Him. injection Him as <-. vm_compute. reflexivity.
Defined.

(** * Update statements are not collected safely

    The stream holds, for one key, a plain version 9, an update 6 and the value 3 it applies
    to; the oldest reader is at 7.  A reader at 7 must see the update applied to the value. *)
Definition update_stream : list sv := [mk_sv 9 0 [1; 9]; mk_sv 6 6 [1; 6]; mk_sv 3 4 [1; 3]].
Definition write_stream (l : list sv) (limit vlsn : Z) (save_update : bool) : option (list (list (sv * bool))) :=
  let _ := svmergeiter_merge (I:=list sv) demo_key_cmp in
  i ← sv_mergeiter_open demo_key_cmp [mk_src l false] SS_GTE;
  im ← sv_writeiter_open demo_upd 9 i sv_updateinit limit 0 vlsn false save_update;
  write_all demo_upd 9 9 im.

(** The value is dropped, since only an update at the head of a key is remembered: the reader
    gets the update applied to nothing. *)
Lemma writeiter_loses_base :
  write_stream update_stream 100 7 true = Some [[(mk_sv 9 0 [1; 9], false); (mk_sv 6 6 [1; 6], true)]] ∧
  read_key demo_upd 7 false update_stream = Some (mk_sv 6 4 [1; 3; 1; 6]) ∧
  read_key demo_upd 7 false [mk_sv 9 0 [1; 9]; mk_sv 6 6 [1; 6]] = Some (mk_sv 6 4 [1; 6]).
Proof. split_and!; vm_compute; reflexivity. Qed.

(** In compaction an update newer than the oldest reader is applied to nothing and written as a
    plain value, although the value it applies to is written right behind it. *)
Lemma writeiter_orphans_update :
  write_stream [mk_sv 9 2 [1; 9]; mk_sv 3 4 [1; 3]] 100 7 false =
    Some [[(mk_sv 9 0 [1; 9], false); (mk_sv 3 4 [1; 3], true)]] ∧
  read_key demo_upd 9 false [mk_sv 9 2 [1; 9]; mk_sv 3 4 [1; 3]] = Some (mk_sv 9 0 [1; 3; 1; 9]) ∧
  read_key demo_upd 9 false [mk_sv 9 0 [1; 9]; mk_sv 3 4 [1; 3]] = Some (mk_sv 9 0 [1; 9]).
Proof. split_and!; vm_compute; reflexivity. Qed.

(** A page that starts with an update, which the resumed iterator does not remember: its value
    is dropped. *)
Lemma writeiter_resume_loses_base :
  write_stream [mk_sv 5 0 [0]; mk_sv 6 2 [1; 6]; mk_sv 3 4 [1; 3]] 1 7 true =
    Some [[(mk_sv 5 0 [0], false)]; [(mk_sv 6 2 [1; 6], false)]] ∧
  write_stream [mk_sv 5 0 [0]; mk_sv 6 2 [1; 6]; mk_sv 3 4 [1; 3]] 100 7 true =
    Some [[(mk_sv 5 0 [0], false); (mk_sv 6 2 [1; 6], false); (mk_sv 3 4 [1; 3], true)]].
Proof. split_and!; vm_compute; reflexivity. Qed.

