(* ===== verification/SvIndex.v ===== *)
(** The in-memory index of versions: sv_v.h, sv_index.h, sv_index.c and sv_indexiter.h.

    The index is a tree of keys, each node the newest version of its key with the older ones
    chained behind it.  The tree is used through the interface [TreeOps]/[TreeLaws] of the
    red-black tree, so that everything here holds for any tree that keeps it. *)
From stdpp Require Import base list sorting sets gmap.
From S2P Require Import Prelude SsOrder SsRb SsRbInsert SsRbSpec Sv SvMergeProofs.
Local Open Scope Z_scope.
Local Open Scope c_scope.

(** [struct svv] and the bytes behind it; the tree node is the location of the version. *)
Record svv := mk_svv { v_lsn : Z; v_size : Z; v_flags : Z; v_next : ptr; v_data : bytes }.
Definition svv_sv (v : svv) : sv := mk_sv (v_lsn v) (v_flags v) (v_data v).

(** [sv_visible]: the first version of a chain not newer than [vlsn]. *)
Fixpoint sv_visible (fuel : nat) (h : gmap loc svv) (p : ptr) (vlsn : Z) : option ptr :=
  match fuel with
  | O => None
  | S fuel =>
      match p with
      | None => Some None
      | Some x =>
          v ← h !! x;
          if Z.gtb (v_lsn v) vlsn then sv_visible fuel h (v_next v) vlsn else Some (Some x)
      end
  end.

Section index.
Context {St : Type} `{TreeOps St} (cmp : bytes → bytes → Z).

Record svindex := mk_svindex {
  i_i : St;
  i_count : Z;
  i_used : Z;
  i_lsnmin : Z;
  i_v : gmap loc svv
}.
Record svindexpos := mk_pos { p_node : ptr; p_rc : Z }.

(** Access to the versions, and the tree operations on the index. *)
Definition rd_v (p : ptr) : cmd svindex svv := cread (λ i, x ← p; i_v i !! x).
Definition wr_v (p : ptr) (f : svv → svv) : cmd svindex () := λ i,
  match p with
  | Some x =>
      match i_v i !! x with
      | Some v => Some ((), mk_svindex (i_i i) (i_count i) (i_used i) (i_lsnmin i) (<[x := f v]> (i_v i)))
      | None => None
      end
  | None => None
  end.
Definition on_tree {A} (m : cmd St A) : cmd svindex A := λ i,
  match m (i_i i) with
  | Some (a, t) => Some (a, mk_svindex t (i_count i) (i_used i) (i_lsnmin i) (i_v i))
  | None => None
  end.
Definition set_next (n : ptr) (v : svv) : svv := mk_svv (v_lsn v) (v_size v) (v_flags v) n (v_data v).
Definition set_dup_flag (v : svv) : svv :=
  mk_svv (v_lsn v) (v_size v) (Z.lor (v_flags v) SVDUP) (v_next v) (v_data v).

(** The tree is reset by its owner; the counters here. *)
Definition sv_indexinit (t : St) : svindex := mk_svindex t 0 0 UINT64_MAX ∅.

(** The loop of [sv_vset] over the chain behind [prev]; the state is [(prev, c)]. *)
Definition vset_turn (lsn : Z) (st : ptr * ptr) : cmd svindex ((ptr * ptr) + (ptr * ptr)) :=
  match st.2 with
  | None => cret (inr st)
  | Some _ =>
      let! c := rd_v st.2 in
      cassert (negb (Z.eqb (v_lsn c) lsn));;;
      cret (if Z.ltb (v_lsn c) lsn then inr st else inl (st.2, v_next c))
  end.
Definition sv_vset (head v : ptr) : cmd svindex ptr :=
  let! hv := rd_v head in
  let! vv := rd_v v in
  if Z.ltb (v_lsn hv) (v_lsn vv) then
    wr_v v (set_next head);;;
    wr_v head set_dup_flag;;;
    cret v
  else
    let! pc := (λ i, cloop (S (size (i_v i))) (vset_turn (v_lsn vv)) (head, v_next hv) i) in
    wr_v pc.1 (set_next v);;;
    wr_v v (set_next pc.2);;;
    wr_v v set_dup_flag;;;
    cret head.

(** [sv_indexmatch]: the search of the tree with the rows of the versions. *)
Definition sv_indexmatch (key : bytes) : cmd svindex (Z * ptr) := λ i,
  on_tree (t_get (λ x, match i_v i !! x with Some n => cmp (v_data n) key | None => 0 end)) i.

Definition sv_indexget (v : loc) : cmd svindex (svindexpos * ptr) :=
  let! vv := rd_v (Some v) in
  let! r := sv_indexmatch (v_data vv) in
  let p := mk_pos r.2 r.1 in
  cret (p, if Z.eqb r.1 0 && negb (is_null r.2) then r.2 else None).

Definition sv_indexupdate (p : svindexpos) (v : loc) : cmd svindex () :=
  (match p_node p with
   | Some head =>
       if Z.eqb (p_rc p) 0 then
         let! update := sv_vset (Some head) (Some v) in
         match update with
         | Some u => cwhen (negb (ptr_eqb (Some head) (Some u))) (on_tree (t_replace head u))
         | None => cfail
         end
       else on_tree (t_set (p_node p) (p_rc p) v)
   | None => on_tree (t_set (p_node p) (p_rc p) v)
   end);;;
  let! vv := rd_v (Some v) in
  λ i, Some ((), mk_svindex (i_i i) (wrap 32 (i_count i + 1)) (wrap 32 (i_used i + v_size vv))
                   (if Z.ltb (v_lsn vv) (i_lsnmin i) then v_lsn vv else i_lsnmin i) (i_v i)).

Definition sv_indexset (v : loc) : cmd svindex () :=
  let! r := sv_indexget v in
  sv_indexupdate r.1 v.

(** [sizeof(svv)] of the packed structure: 8 + 4 + 1 + 8 + 8 + 25. *)
Definition sizeof_svv : Z := 54.
Definition sv_indexused (i : svindex) : Z := wrap 32 (i_count i * sizeof_svv + i_used i).

(** * The iterator *)

Record svindexiter := mk_indexiter { ii_v : ptr; ii_vcur : ptr; ii_order : ssorder }.

(** [sv_indexiter_open(index, o, key)]; the answer tells an exact match. *)
Definition indexiter_seek (o : ssorder) (key : option bytes) : cmd svindex (bool * ptr) :=
  match o with
  | SS_LT | SS_LTE =>
      match key with
      | None => let! v := on_tree t_max in cret (false, v)
      | Some k =>
          let! r := sv_indexmatch k in
          match r.2 with
          | None => cret (false, None)
          | Some x =>
              if Z.eqb r.1 0 then
                if bool_decide (o = SS_LT) then let! v := on_tree (t_prev x) in cret (true, v)
                else cret (true, r.2)
              else if Z.eqb r.1 1 then let! v := on_tree (t_prev x) in cret (false, v)
              else cret (false, r.2)
          end
      end
  | SS_GT | SS_GTE =>
      match key with
      | None => let! v := on_tree t_min in cret (false, v)
      | Some k =>
          let! r := sv_indexmatch k in
          match r.2 with
          | None => cret (false, None)
          | Some x =>
              if Z.eqb r.1 0 then
                if bool_decide (o = SS_GT) then let! v := on_tree (t_next x) in cret (true, v)
                else cret (true, r.2)
              else if Z.eqb r.1 (-1) then let! v := on_tree (t_next x) in cret (false, v)
              else cret (false, r.2)
          end
      end
  | _ => cfail
  end.
Definition sv_indexiter_open (o : ssorder) (key : option bytes) : cmd svindex (bool * svindexiter) :=
  let! r := indexiter_seek o key in cret (r.1, mk_indexiter r.2 r.2 o).
Definition sv_indexiter_has (ii : svindexiter) : bool := negb (is_null (ii_v ii)).
Definition sv_indexiter_of (ii : svindexiter) : cmd svindex (option sv) :=
  if is_null (ii_v ii) then cret None else let! v := rd_v (ii_vcur ii) in cret (Some (svv_sv v)).
Definition sv_indexiter_next (ii : svindexiter) : cmd svindex svindexiter :=
  match ii_v ii with
  | None => cret ii
  | Some n =>
      let! v := rd_v (ii_vcur ii) in
      match v_next v with
      | Some x => cret (mk_indexiter (ii_v ii) (Some x) (ii_order ii))
      | None =>
          let! n' := (match ii_order ii with
                      | SS_LT | SS_LTE => on_tree (t_prev n)
                      | SS_GT | SS_GTE => on_tree (t_next n)
                      | _ => cfail
                      end) in
          cret (mk_indexiter n' n' (ii_order ii))
      end
  end.
End index.
Arguments svindex : clear implicits.
