(* ===== verification/SvIndexProofs.v ===== *)
(** The in-memory index keeps its keys sorted and the versions of a key in descending order of
    their sequence numbers, and its iterator is a sorted, flagged stream for the merge. *)
From stdpp Require Import base list sorting sets gmap.
From S2P Require Import Prelude SsOrder SsRb SsRbInsert SsRbSpec Sv SvMergeProofs SvIndex.
Local Open Scope Z_scope.
Local Open Scope c_scope.

(** * Chains of versions

    [chain h p c vs q]: from [p] the links lead through the locations [c], holding the
    versions [vs], to [q]. *)
Fixpoint chain (h : gmap loc svv) (p : ptr) (c : list loc) (vs : list sv) (q : ptr) : Prop :=
  match c, vs with
  | [], [] => p = q
  | x :: c, v :: vs => p = Some x ∧ ∃ u, h !! x = Some u ∧ svv_sv u = v ∧ chain h (v_next u) c vs q
  | _, _ => False
  end.

Lemma chain_app h p c1 c2 vs1 vs2 q : length c1 = length vs1 →
  chain h p (c1 ++ c2) (vs1 ++ vs2) q ↔ ∃ r, chain h p c1 vs1 r ∧ chain h r c2 vs2 q.
Proof.
  revert p vs1. induction c1 as [|x c1 IH]; intros p [|v vs1] Hl; simplify_eq/=; [naive_solver|].
  setoid_rewrite IH; [|done]. naive_solver.
Qed.
Lemma chain_length h p c vs q : chain h p c vs q → length c = length vs.
Proof.
  revert p vs. induction c as [|x c IH]; intros p [|v vs]; simpl; try done.
  intros (_ & u & _ & _ & Hc). f_equal. by eapply IH.
Qed.
Lemma chain_agree h h' p c vs q : (∀ x, x ∈ c → h' !! x = h !! x) → chain h p c vs q → chain h' p c vs q.
Proof.
  revert p vs. induction c as [|x c IH]; intros p [|v vs] Hag; simpl; try done.
  intros (-> & u & Hx & Hv & Hc). split; [done|]. exists u. split_and!; [|done|].
  - rewrite Hag; [done|set_solver].
  - apply IH; [set_solver|done].
Qed.
Lemma chain_upd h y u p c vs q : y ∉ c → chain h p c vs q → chain (<[y := u]> h) p c vs q.
Proof. intros Hy. apply chain_agree. intros x Hx. apply lookup_insert_ne. by intros ->. Qed.
Lemma chain_snoc h p c x vs v q : chain h p (c ++ [x]) (vs ++ [v]) q ↔
  chain h p c vs (Some x) ∧ ∃ u, h !! x = Some u ∧ svv_sv u = v ∧ v_next u = q.
Proof.
  split.
  - intros Hc. assert (length c = length vs) as Hl.
    { apply chain_length in Hc. rewrite !length_app in Hc. simpl in Hc. lia. }
    apply chain_app in Hc as (r & H1 & -> & u & ? & ? & ?); [|done]. split; [done|]. eauto.
  - intros [H1 (u & ? & ? & ?)]. apply chain_app; [by eapply chain_length|].
    exists (Some x). split; [done|]. simpl. eauto.
Qed.
Lemma chain_lookup h p c vs q x : chain h p c vs q → x ∈ c → ∃ u, h !! x = Some u ∧ svv_sv u ∈ vs.
Proof.
  revert p vs. induction c as [|y c IH]; intros p [|v vs]; simpl; try done; [set_solver|].
  intros (_ & u & Hu & <- & Hc) [->|Hx]%elem_of_cons; [set_solver|].
  destruct (IH _ _ Hc Hx) as (w & ? & ?). set_solver.
Qed.

Lemma chain_size h p c vs q : chain h p c vs q → NoDup c → (length c <= size h)%nat.
Proof.
  intros Hc Hnd. rewrite <- size_dom, <- (size_list_to_set (C:=gset loc) c) by done.
  apply subseteq_size. intros x Hx%elem_of_list_to_set.
  destruct (chain_lookup _ _ _ _ _ _ Hc Hx) as (u & Hu & _). by apply elem_of_dom_2 in Hu.
Qed.

(** * What the index holds *)

Section content.
Context (cmp : bytes → bytes → Z).
Abbreviation scmp := (sv_compare cmp).

(** The versions of one key: newest first, and only the newest without [SVDUP]. *)
Record chain_ok (vs : list sv) : Prop := mk_chain_ok {
  co_ne : vs ≠ [];
  co_lsn : StronglySorted (λ a b, sv_lsn b < sv_lsn a) vs;
  co_key : ∀ a b, a ∈ vs → b ∈ vs → scmp a b = 0;
  co_head : ∀ v, head vs = Some v → sv_is v SVDUP = false;
  co_dup : Forall (λ v, sv_is v SVDUP = true) (tail vs)
}.
(** The keys in increasing order. *)
Record content_ok (vss : list (list sv)) : Prop := mk_content_ok {
  ct_chains : Forall chain_ok vss;
  ct_sorted : StronglySorted (λ c d, ∀ a b, a ∈ c → b ∈ d → scmp a b = -1) vss
}.

Definition with_dup (v : sv) : sv := mk_sv (sv_lsn v) (Z.lor (sv_flags v) SVDUP) (sv_pointer v).
(** Inserting a version among the older ones of its key. *)
Fixpoint insert_older (v : sv) (vs : list sv) : list sv :=
  match vs with
  | [] => [with_dup v]
  | w :: vs => if Z.ltb (sv_lsn w) (sv_lsn v) then with_dup v :: w :: vs else w :: insert_older v vs
  end.
Definition insert_version (v : sv) (vs : list sv) : list sv :=
  match vs with
  | [] => [v]
  | h :: t => if Z.ltb (sv_lsn h) (sv_lsn v) then v :: with_dup h :: t else h :: insert_older v t
  end.
Fixpoint insert_key (v : sv) (vss : list (list sv)) : list (list sv) :=
  match vss with
  | [] => [[v]]
  | c :: vss =>
      match c with
      | [] => c :: insert_key v vss
      | a :: _ =>
          if Z.eqb (scmp a v) 0 then insert_version v c :: vss
          else if Z.eqb (scmp a v) (-1) then c :: insert_key v vss
          else [v] :: c :: vss
      end
  end.

Context `{!KeyOrder cmp}.

(** Where a key is, or would be. *)
Lemma key_split v vss : content_ok vss → ∃ A M B, vss = A ++ M ++ B ∧
  (∀ c a, c ∈ A → a ∈ c → scmp a v = -1) ∧ (∀ c b, c ∈ B → b ∈ c → scmp b v = 1) ∧
  ((M = [] ∧ insert_key v vss = A ++ [[v]] ++ B) ∨
   ∃ c, M = [c] ∧ (∀ a, a ∈ c → scmp a v = 0) ∧ insert_key v vss = A ++ [insert_version v c] ++ B).
Proof.
  intros [Hc Hs]. revert Hs. induction Hc as [|c vss [Hne _ Hk _ _] Hc IH]; intros Hs.
  { exists [], [], []. split_and!; [done|set_solver|set_solver|by left]. }
  apply StronglySorted_inv in Hs as [Hs Hlt]. destruct c as [|a c]; [done|]. simpl insert_key.
  assert (∀ r x, scmp a v = r → x ∈ a :: c → scmp x v = r) as Hall.
  { intros r x Hr Hx. rewrite <- Hr. symmetry. apply (cmp_eq_l scmp). apply Hk; set_solver. }
  destruct (cmp_range (cmp:=scmp) a v) as [E|[E|E]]; rewrite E; simpl.
  - destruct (IH Hs) as (A & M & B & -> & HA & HB & HM). exists ((a :: c) :: A), M, B. split_and!.
    + done.
    + intros d x [->|Hd]%elem_of_cons Hx; [by apply Hall|by eapply HA].
    + done.
    + destruct HM as [[-> ->]|(d & -> & ? & ->)]; [by left|right; eauto].
  - exists [], [a :: c], vss. split_and!; [done|set_solver| |].
    + intros d b Hd Hb. rewrite Forall_forall in Hlt. specialize (Hlt d Hd a b (list_elem_of_here _ _) Hb).
      rewrite (cmp_opp (cmp:=scmp) v b), <- (cmp_eq_l scmp a v) by done. lia.
    + right. exists (a :: c). split_and!; [done| |done]. intros x. by apply Hall.
  - exists [], [], ((a :: c) :: vss). split_and!; [done|set_solver| |by left].
    intros d b [->|Hd]%elem_of_cons Hb; [by apply Hall|].
    rewrite Forall_forall in Hlt. specialize (Hlt d Hd a b (list_elem_of_here _ _) Hb).
    rewrite (cmp_opp (cmp:=scmp) v b). rewrite (cmp_lt_le_trans scmp v a b); [done| |lia].
    rewrite (cmp_opp (cmp:=scmp) a v). lia.
Qed.

Lemma with_dup_is v : sv_is (with_dup v) SVDUP = true.
Proof.
  unfold sv_is. simpl. replace (Z.land (Z.lor (sv_flags v) SVDUP) SVDUP) with SVDUP; [done|].
  apply Z.bits_inj. intros n. rewrite Z.land_spec, Z.lor_spec.
  by destruct (Z.testbit SVDUP n), (Z.testbit (sv_flags v) n).
Qed.

(** The versions after an insertion have the keys and sequence numbers of the old ones and
    the new one. *)
Definition from (v : sv) (vs : list sv) (a : sv) : Prop :=
  ∃ b, (b = v ∨ b ∈ vs) ∧ sv_pointer a = sv_pointer b ∧ sv_lsn a = sv_lsn b.
Lemma insert_older_from v vs a : a ∈ insert_older v vs → from v vs a.
Proof.
  unfold from. induction vs as [|w vs IH]; simpl.
  - intros ->%list_elem_of_singleton. exists v. by split; [left|].
  - destruct (Z.ltb_spec (sv_lsn w) (sv_lsn v)).
    + intros [->|Ha]%elem_of_cons; [exists v; by split; [left|]|]. exists a. split; [by right|done].
    + intros [->|Ha]%elem_of_cons; [exists w; split; [right; set_solver|done]|].
      destruct (IH Ha) as (b & [->|?] & ?); [exists v; by split; [left|]|exists b; split; [set_solver|done]].
Qed.
Lemma insert_version_from v vs a : a ∈ insert_version v vs → from v vs a.
Proof.
  destruct vs as [|h t]; simpl.
  - intros ->%list_elem_of_singleton. exists v. by split; [left|].
  - destruct (Z.ltb_spec (sv_lsn h) (sv_lsn v)).
    + intros [->|[->|Ha]%elem_of_cons]%elem_of_cons.
      * exists v. by split; [left|].
      * exists h. split; [set_solver|done].
      * exists a. split; [set_solver|done].
    + intros [->|Ha]%elem_of_cons; [exists h; split; [set_solver|done]|].
      destruct (insert_older_from _ _ _ Ha) as (b & [->|?] & ?); [exists v; by split; [left|]|].
      exists b. split; [set_solver|done].
Qed.

Lemma insert_older_sorted v vs : StronglySorted (λ a b, sv_lsn b < sv_lsn a) vs →
  (∀ w, w ∈ vs → sv_lsn w ≠ sv_lsn v) → StronglySorted (λ a b, sv_lsn b < sv_lsn a) (insert_older v vs).
Proof.
  intros Hs Hne. induction Hs as [|w vs Hs IH Hw]; simpl; [repeat constructor|].
  destruct (Z.ltb_spec (sv_lsn w) (sv_lsn v)) as [Hlt|Hge].
  - constructor; [by constructor|]. constructor; [done|]. eapply Forall_impl; [exact Hw|]. simpl. lia.
  - constructor; [apply IH; set_solver|]. apply Forall_forall. intros a Ha.
    specialize (Hne w (list_elem_of_here _ _)).
    destruct (insert_older_from _ _ _ Ha) as (b & [->|Hb] & _ & ->); [lia|].
    rewrite Forall_forall in Hw. by apply Hw.
Qed.
Lemma insert_version_ok v vs : chain_ok vs → (∀ w, w ∈ vs → sv_lsn w ≠ sv_lsn v) →
  (∀ w, w ∈ vs → scmp w v = 0) → sv_is v SVDUP = false → chain_ok (insert_version v vs).
Proof.
  intros [Hn Hl Hk Hh Hd] Hne Hkv Hv. destruct vs as [|h t]; [done|]. split.
  - simpl. by case_match.
  - apply StronglySorted_inv in Hl as [Hl Hlt]. simpl. destruct (Z.ltb_spec (sv_lsn h) (sv_lsn v)).
    + constructor; [by constructor|]. constructor; [done|]. eapply Forall_impl; [exact Hlt|]. simpl. lia.
    + constructor; [apply insert_older_sorted; [done|set_solver]|]. apply Forall_forall. intros a Ha.
      specialize (Hne h (list_elem_of_here _ _)).
      destruct (insert_older_from _ _ _ Ha) as (b & [->|Hb] & _ & ->); [lia|].
      rewrite Forall_forall in Hlt. by apply Hlt.
  - assert (∀ a, a ∈ insert_version v (h :: t) → scmp v a = 0) as Hva.
    { intros a (b & Hb & Hp & _)%insert_version_from. unfold sv_compare. rewrite Hp.
      destruct Hb as [->|Hb]; [apply (cmp_refl (cmp:=cmp))|]. by apply (cmp_eq_sym scmp), Hkv. }
    intros a b Ha%Hva Hb%Hva. by rewrite <- (cmp_eq_l scmp v a).
  - intros w. simpl. case_match; intros [= <-]; [done|]. by apply Hh.
  - simpl. case_match; simpl; [constructor; [apply with_dup_is|done]|]. clear -Hd. simpl in Hd.
    induction Hd as [|w t Hw Hd IH]; simpl; [repeat constructor; apply with_dup_is|].
    case_match; constructor; (done || apply with_dup_is || by constructor).
Qed.

Lemma chain_ok_single v : sv_is v SVDUP = false → chain_ok [v].
Proof.
  intros Hv. split; [done|repeat constructor| |by intros ? [= <-]|constructor].
  intros a b ->%list_elem_of_singleton ->%list_elem_of_singleton. apply (cmp_refl (cmp:=scmp)).
Qed.

(** The chains of the index before and after an insertion. *)
Lemma insert_key_ok v vss : content_ok vss → sv_is v SVDUP = false →
  (∀ c w, c ∈ vss → w ∈ c → scmp w v = 0 → sv_lsn w ≠ sv_lsn v) → content_ok (insert_key v vss).
Proof.
  intros Hok Hv Hne. destruct (key_split v vss Hok) as (A & M & B & -> & HA & HB & HM).
  destruct Hok as [Hc Hs]. apply Forall_app in Hc as [HcA [HcM HcB]%Forall_app].
  assert (StronglySorted (λ c d, ∀ a b, a ∈ c → b ∈ d → scmp a b = -1) (A ++ B)) as HsAB.
  { clear -Hs. apply StronglySorted_app in Hs as (H1 & H2 & H3). apply StronglySorted_app in H3 as (H4 & H5 & H6).
    apply StronglySorted_app. split_and!; [|done|done]. set_solver. }
  assert (∀ m, m ≠ [] → (∀ a, a ∈ m → ∃ b, sv_pointer a = sv_pointer b ∧ scmp b v = 0) → chain_ok m →
    content_ok (A ++ [m] ++ B)) as Hdone.
  { intros m Hmne Hm Hmok. assert (∀ a, a ∈ m → scmp v a = 0) as Hma.
    { intros a (b & Hp & Hb)%Hm. apply (cmp_eq_sym scmp). unfold sv_compare in *. by rewrite Hp. }
    split; [repeat (apply Forall_app; split); auto|].
    apply StronglySorted_app in HsAB as (HAB & HsA & HsB). apply StronglySorted_app. split_and!.
    - intros c d Hc [->|Hd]%elem_of_cons; [|by apply HAB]. intros a b Ha Hb%Hma.
      rewrite <- (cmp_eq_r scmp v b) by done. by eapply HA.
    - done.
    - constructor; [done|]. apply Forall_forall. intros d Hd a b Ha%Hma Hb.
      rewrite <- (cmp_eq_l scmp v a) by done. rewrite (cmp_opp (cmp:=scmp) b v), (HB d b) by done. done. }
  destruct HM as [[-> ->]|(c & -> & Hcv & ->)]; apply Hdone.
  - done.
  - intros a ->%list_elem_of_singleton. exists v. split; [done|apply (cmp_refl (cmp:=scmp))].
  - by apply chain_ok_single.
  - destruct c; simpl; [done|]. by case_match.
  - intros a (b & Hb & Hp & _)%insert_version_from. exists b. split; [done|].
    destruct Hb as [->|Hb]; [apply (cmp_refl (cmp:=scmp))|by apply Hcv].
  - apply Forall_cons in HcM as [HcM _]. apply insert_version_ok; [done| |done|done].
    intros w Hw. apply (Hne c); [set_solver|done|by apply Hcv].
Qed.
End content.

(** * The operations *)

Section operations.
Context {St : Type} `{!TreeOps St, !TreeLaws St} (cmp : bytes → bytes → Z) `{!KeyOrder cmp}.
Abbreviation scmp := (sv_compare cmp).

(** The index holds the chains [cs], newest versions in the tree, with the versions [vss]. *)
Record idx_rep (i : svindex St) (cs : list (list loc)) (vss : list (list sv)) : Prop := mk_idx_rep {
  ir_seq : t_seq (i_i i) (omap head cs);
  ir_chain : Forall2 (λ c vs, chain (i_v i) (head c) c vs None) cs vss;
  ir_nodup : NoDup (concat cs);
  ir_ok : content_ok cmp vss
}.

Lemma wp_rd_v (i : svindex St) x u Q : i_v i !! x = Some u → Q u i → wp (rd_v (Some x)) i Q.
Proof. intros Hx. unfold wp, rd_v, cread. simpl. by rewrite Hx. Qed.
Definition upd_v (i : svindex St) (x : loc) (u : svv) : svindex St :=
  mk_svindex (i_i i) (i_count i) (i_used i) (i_lsnmin i) (<[x := u]> (i_v i)).
Lemma wp_wr_v (i : svindex St) x u f (Q : () → svindex St → Prop) : i_v i !! x = Some u →
  Q () (upd_v i x (f u)) → wp (wr_v (Some x) f) i Q.
Proof. intros Hx. unfold wp, wr_v. by rewrite Hx. Qed.
(** Only the versions of the index change. *)
Definition same_but_v (i i' : svindex St) : Prop :=
  i_i i' = i_i i ∧ i_count i' = i_count i ∧ i_used i' = i_used i ∧ i_lsnmin i' = i_lsnmin i.

Lemma chain_head h p c vs : chain h p c vs None → p = head c.
Proof. destruct c, vs; simpl; naive_solver. Qed.

(** The walk to the place of an older version. *)
Lemma vset_loop_ok (i : svindex St) lsn c : ∀ vs prev fuel,
  chain (i_v i) (head c) c vs None → (length c < fuel)%nat → (∀ w, w ∈ vs → sv_lsn w ≠ lsn) →
  wp (cloop fuel (vset_turn lsn) (Some prev, head c)) i (λ pc i',
    i' = i ∧ ∃ d1 d2 ws1 ws2 p, c = d1 ++ d2 ∧ vs = ws1 ++ ws2 ∧ length d1 = length ws1 ∧
      last (prev :: d1) = Some p ∧ pc = (Some p, head d2) ∧
      (∀ v, sv_lsn v = lsn → insert_older v vs = ws1 ++ with_dup v :: ws2)).
Proof.
  induction c as [|x c IH]; intros [|v vs] prev [|fuel] Hc Hf Hne; simpl in Hc, Hf; try (done || lia).
  - unfold wp. simpl. split; [done|]. by exists [], [], [], [], prev.
  - destruct Hc as (_ & u & Hx & <- & Hc). specialize (Hne (svv_sv u)) as Hne1. simpl in Hne1.
    unfold wp. cbn [cloop]. unfold vset_turn at 1. cbn [snd head]. unfold cbind, rd_v, cread, cassert. cbn [mbind option_bind].
    rewrite Hx. destruct (Z.eqb_spec (v_lsn u) lsn) as [E|E]; [destruct Hne1; [set_solver|done]|].
    cbn [negb]. unfold cret. destruct (Z.ltb_spec (v_lsn u) lsn) as [Hlt|Hge].
    + split; [done|]. exists [], (x :: c), [], (svv_sv u :: vs), prev. split_and!; try done.
      intros w Hw. simpl. rewrite Hw. destruct (Z.ltb_spec (v_lsn u) lsn); [done|lia].
    + pose proof (chain_head _ _ _ _ Hc) as Hn. rewrite Hn in Hc |- *.
      pose proof (IH vs x fuel Hc ltac:(lia) ltac:(set_solver)) as Hw. unfold wp in Hw.
      destruct (cloop fuel (vset_turn lsn) (Some x, head c) i) as [[pc i']|]; [|done].
      destruct Hw as (-> & d1 & d2 & ws1 & ws2 & p & -> & -> & Hl & Hp & -> & Hins). split; [done|].
      exists (x :: d1), d2, (svv_sv u :: ws1), ws2, p. split_and!; [done|done|simpl; lia|by destruct d1|done|].
      intros w Hw. simpl. rewrite Hw. destruct (Z.ltb_spec (v_lsn u) lsn); [lia|]. by rewrite Hins.
Qed.

Definition vset_post (i : svindex St) (x : loc) (u : svv) (c : list loc) (vs : list sv) (r : ptr) (i' : svindex St) : Prop :=
  same_but_v i i' ∧ ∃ c', r = head c' ∧ chain (i_v i') (head c') c' (insert_version (svv_sv u) vs) None ∧
    c' ≡ₚ x :: c ∧ (head c' = Some x ∨ head c' = head c) ∧
    (∀ y, y ∉ x :: c → i_v i' !! y = i_v i !! y) ∧
    ∃ u', i_v i' !! x = Some u' ∧ v_lsn u' = v_lsn u ∧ v_size u' = v_size u.

Lemma vset_newest (i : svindex St) h t x u hv vs : x ∉ h :: t → h ∉ t →
  i_v i !! x = Some u → i_v i !! h = Some hv →
  chain (i_v i) (v_next hv) t vs None → v_lsn hv < v_lsn u →
  wp (sv_vset (Some h) (Some x)) i (vset_post i x u (h :: t) (svv_sv hv :: vs)).
Proof.
  intros Hx Hht Hu Hh Hc Hlt. apply not_elem_of_cons in Hx as [Hxh Hxt].
  unfold sv_vset. apply wp_bind. eapply wp_rd_v; [done|]. apply wp_bind. eapply wp_rd_v; [done|].
  destruct (Z.ltb_spec (v_lsn hv) (v_lsn u)); [|lia]. apply wp_bind. eapply wp_wr_v; [done|].
  apply wp_bind. eapply wp_wr_v; [simpl; by rewrite lookup_insert_ne|]. apply wp_ret.
  split; [by repeat split|]. exists (x :: h :: t). split_and!; [done| |done|by left| |].
  - simpl. destruct (Z.ltb_spec (v_lsn hv) (v_lsn u)); [|lia]. split; [done|].
    exists (set_next (Some h) u). split_and!; [by rewrite lookup_insert_ne, lookup_insert_eq|done|done|].
    exists (set_dup_flag hv). split_and!; [by rewrite lookup_insert_eq|done|].
    simpl. by do 2 (apply chain_upd; [done|]).
  - intros y [Hy1 [Hy2 _]%not_elem_of_cons]%not_elem_of_cons. simpl. by rewrite !lookup_insert_ne.
  - exists (set_next (Some h) u). simpl. by rewrite lookup_insert_ne, lookup_insert_eq.
Qed.

Lemma vset_older (i : svindex St) h t x u hv vs : x ∉ h :: t → NoDup (h :: t) →
  i_v i !! x = Some u → i_v i !! h = Some hv →
  chain (i_v i) (v_next hv) t vs None → v_lsn u < v_lsn hv → (∀ w, w ∈ vs → sv_lsn w ≠ v_lsn u) →
  wp (sv_vset (Some h) (Some x)) i (vset_post i x u (h :: t) (svv_sv hv :: vs)).
Proof.
  intros Hx Hnd Hu Hh Hc Hlt Hne.
  unfold sv_vset. apply wp_bind. eapply wp_rd_v; [done|]. apply wp_bind. eapply wp_rd_v; [done|].
  destruct (Z.ltb_spec (v_lsn hv) (v_lsn u)); [lia|].
  pose proof (chain_head _ _ _ _ Hc) as Hn. rewrite Hn in Hc |- *. apply wp_bind.
  change (wp (λ i, cloop (S (size (i_v i))) (vset_turn (v_lsn u)) (Some h, head t) i) i ?Q)
    with (wp (cloop (S (size (i_v i))) (vset_turn (v_lsn u)) (Some h, head t)) i Q).
  pose proof (proj2 (proj1 (NoDup_cons _ _) Hnd)) as Hndt.
  pose proof (chain_size _ _ _ _ _ Hc Hndt) as Hlen.
  eapply wp_mono; [apply (vset_loop_ok i (v_lsn u) t vs h); [done|lia|done]|].
  intros pc i' (-> & d1 & d2 & ws1 & ws2 & p & -> & -> & Hl & Hp & -> & Hins).
  apply last_Some in Hp as [e He].
  assert (∃ vv pv, svv_sv hv :: ws1 = vv ++ [svv_sv pv] ∧ chain (i_v i) (Some h) e vv (Some p) ∧
    i_v i !! p = Some pv ∧ chain (i_v i) (v_next pv) d2 ws2 None) as (vv & pv & Evv & Hce & Hpv & Hd2).
  { assert (chain (i_v i) (Some h) ((h :: d1) ++ d2) ((svv_sv hv :: ws1) ++ ws2) None) as Hall.
    { simpl. split; [done|]. exists hv. rewrite Hn. done. }
    apply chain_app in Hall as (r & H1 & H2); [|simpl; lia].
    destruct (exists_last (l := svv_sv hv :: ws1)) as (vv & pv' & Evv); [done|].
    rewrite He, Evv in H1. apply chain_snoc in H1 as (Hce & pv & Hpv & <- & <-). eauto 10. }
  assert (x ∉ e ∧ x ≠ p ∧ x ∉ d2) as (Hxe & Hxp & Hxd).
  { rewrite app_comm_cons, He in Hx. clear -Hx. set_solver. }
  assert (NoDup ((e ++ [p]) ++ d2)) as Hnd' by (rewrite <- He; exact Hnd).
  assert (∀ y, y ∈ e ∨ y ∈ d2 → y ≠ x ∧ y ≠ p) as Hed.
  { clear -Hnd' Hxe Hxp Hxd. apply NoDup_app in Hnd' as (Hndep & Hd & _).
    apply NoDup_app in Hndep as (_ & Hpe & _). set_solver. }
  rewrite (chain_head _ _ _ _ Hd2) in Hd2.
  cbn [fst snd]. apply wp_bind. eapply wp_wr_v; [done|].
  apply wp_bind. eapply wp_wr_v; [simpl; by rewrite lookup_insert_ne|].
  apply wp_bind. eapply wp_wr_v; [simpl; by rewrite lookup_insert_eq|]. apply wp_ret.
  split; [by repeat split|]. exists (h :: d1 ++ x :: d2).
  assert (∀ y, y ≠ x → y ≠ p → i_v (upd_v (upd_v (upd_v i p (set_next (Some x) pv)) x (set_next (head d2) u)) x
    (set_dup_flag (set_next (head d2) u))) !! y = i_v i !! y) as Hout.
  { intros y ? ?. simpl. by rewrite !lookup_insert_ne. }
  split_and!; [done| |solve_Permutation|by right| |].
  - cbn [head]. simpl insert_version. destruct (Z.ltb_spec (v_lsn hv) (v_lsn u)); [lia|].
    rewrite Hins by done. rewrite (app_comm_cons _ (x :: d2)), (app_comm_cons _ (with_dup _ :: ws2)), He, Evv.
    apply chain_app; [rewrite <- He, <- Evv; simpl; lia|]. exists (Some x). split.
    + apply chain_snoc. split; [eapply chain_agree; [|exact Hce]; intros y Hy; apply Hout; apply Hed; auto|].
      exists (set_next (Some x) pv). split_and!; [simpl; do 2 rewrite lookup_insert_ne by done; by rewrite lookup_insert_eq|done|done].
    + split; [done|]. exists (set_dup_flag (set_next (head d2) u)).
      split_and!; [simpl; by rewrite lookup_insert_eq|done|].
      eapply chain_agree; [|exact Hd2]. intros y Hy. apply Hout; apply Hed; auto.
  - intros y Hy. rewrite app_comm_cons, He in Hy. clear -Hy Hout. apply Hout; set_solver.
  - exists (set_dup_flag (set_next (head d2) u)). simpl. by rewrite lookup_insert_eq.
Qed.

(** The comparison [sv_indexmatch] makes at a node. *)
Definition match_cmp (i : svindex St) (key : bytes) (x : loc) : Z :=
  match i_v i !! x with Some n => cmp (v_data n) key | None => 0 end.

Lemma match_cmp_at (i : svindex St) key c vs x r : chain (i_v i) (head c) c vs None → head c = Some x →
  (∀ a, a ∈ vs → scmp a (mk_sv 0 0 key) = r) → match_cmp i key x = r.
Proof.
  destruct c as [|y c], vs as [|v vs]; simpl; try done. intros (_ & u & Hy & <- & _) [= <-] Hr.
  unfold match_cmp. rewrite Hy. apply (Hr (svv_sv u)). set_solver.
Qed.
Lemma match_cmp_chains (i : svindex St) key cs vss r :
  Forall2 (λ c vs, chain (i_v i) (head c) c vs None) cs vss →
  (∀ c a, c ∈ vss → a ∈ c → scmp a (mk_sv 0 0 key) = r) → ∀ x, x ∈ omap head cs → match_cmp i key x = r.
Proof.
  intros HF Hr x (c & Hc & Hx)%list_elem_of_omap. apply list_elem_of_lookup in Hc as [j Hj].
  destruct (Forall2_lookup_l _ _ _ _ _ HF Hj) as (vs & Hvs & Hch).
  eapply match_cmp_at; [done|done|]. intros a. apply Hr. by eapply list_elem_of_lookup_2.
Qed.

(** The chains split at a key, and the tree with them. *)
Lemma idx_split i cs vss v : idx_rep i cs vss → ∃ csA csM csB A M B,
  cs = csA ++ csM ++ csB ∧ vss = A ++ M ++ B ∧
  Forall2 (λ c vs, chain (i_v i) (head c) c vs None) csA A ∧
  Forall2 (λ c vs, chain (i_v i) (head c) c vs None) csM M ∧
  Forall2 (λ c vs, chain (i_v i) (head c) c vs None) csB B ∧
  cut (match_cmp i (sv_pointer v)) (omap head cs) (omap head csA) (omap head csM) (omap head csB) ∧
  (∀ c a, c ∈ A → a ∈ c → scmp a v = -1) ∧ (∀ c a, c ∈ B → a ∈ c → scmp a v = 1) ∧
  ((M = [] ∧ insert_key cmp v vss = A ++ [[v]] ++ B) ∨
   ∃ c, M = [c] ∧ (∀ a, a ∈ c → scmp a v = 0) ∧ insert_key cmp v vss = A ++ [insert_version v c] ++ B).
Proof.
  intros [_ HF _ Hok]. destruct (key_split cmp v vss Hok) as (A & M & B & -> & HA & HB & HM).
  apply Forall2_app_inv_r in HF as (csA & csMB & HFA & HF & ->).
  apply Forall2_app_inv_r in HF as (csM & csB & HFM & HFB & ->).
  exists csA, csM, csB, A, M, B. split_and!; try done. split.
  - by rewrite !omap_app.
  - eapply match_cmp_chains; [exact HFA|]. intros c a Hc Ha. by apply (HA c).
  - eapply match_cmp_chains; [exact HFM|]. intros c a Hc Ha.
    destruct HM as [[-> _]|(d & -> & Hd & _)]; [set_solver|].
    apply list_elem_of_singleton in Hc as ->. by apply Hd.
  - eapply match_cmp_chains; [exact HFB|]. intros c a Hc Ha. by apply (HB c).
Qed.

Lemma chains_agree (h h' : gmap loc svv) cs vss :
  Forall2 (λ c vs, chain h (head c) c vs None) cs vss → (∀ y, y ∈ concat cs → h' !! y = h !! y) →
  Forall2 (λ c vs, chain h' (head c) c vs None) cs vss.
Proof.
  intros HF Hag. induction HF as [|c vs cs vss Hc HF IH]; [constructor|]. simpl in Hag. constructor.
  - eapply chain_agree; [|exact Hc]. intros y Hy. apply Hag. set_solver.
  - apply IH. intros y Hy. apply Hag. set_solver.
Qed.
Lemma chains_length (h : gmap loc svv) cs vss : Forall2 (λ c vs, chain h (head c) c vs None) cs vss →
  length cs = length vss.
Proof. apply Forall2_length. Qed.

(** What an insertion leaves. *)
Definition set_post (i : svindex St) (x : loc) (u : svv) cs vss (i' : svindex St) : Prop :=
  (∃ cs', idx_rep i' cs' (insert_key cmp (svv_sv u) vss) ∧ concat cs' ≡ₚ x :: concat cs) ∧
  i_count i' = wrap 32 (i_count i + 1) ∧ i_used i' = wrap 32 (i_used i + v_size u) ∧
  i_lsnmin i' = Z.min (v_lsn u) (i_lsnmin i) ∧ ∀ n, t_node (i_i i) n → t_node (i_i i') n.

(** The tree and the chains after the middle part [csM] has become [csM']. *)
Lemma idx_rebuild i i' csA csM csB csM' A M' B v vss x : idx_rep i (csA ++ csM ++ csB) vss →
  Forall2 (λ c vs, chain (i_v i) (head c) c vs None) csA A →
  Forall2 (λ c vs, chain (i_v i) (head c) c vs None) csB B →
  Forall2 (λ c vs, chain (i_v i') (head c) c vs None) csM' M' →
  concat csM' ≡ₚ x :: concat csM → x ∉ concat (csA ++ csM ++ csB) →
  (∀ y, y ∉ x :: concat csM → i_v i' !! y = i_v i !! y) →
  t_seq (i_i i') (omap head (csA ++ csM' ++ csB)) → insert_key cmp v vss = A ++ M' ++ B →
  content_ok cmp (insert_key cmp v vss) →
  idx_rep i' (csA ++ csM' ++ csB) (insert_key cmp v vss) ∧
  concat (csA ++ csM' ++ csB) ≡ₚ x :: concat (csA ++ csM ++ csB).
Proof.
  intros Hi HA HB HM Hp Hx Hag Hseq Hins Hok. pose proof (ir_nodup _ _ _ Hi) as Hnd.
  assert (concat (csA ++ csM' ++ csB) ≡ₚ x :: concat (csA ++ csM ++ csB)) as Hperm.
  { rewrite !concat_app, Hp. solve_Permutation. }
  split; [|done]. rewrite !concat_app in Hnd, Hx.
  apply NoDup_app in Hnd as (_ & HdA & Hnd). apply NoDup_app in Hnd as (_ & HdB & _). split.
  - done.
  - rewrite Hins. apply Forall2_app; [|apply Forall2_app; [done|]].
    + eapply chains_agree; [exact HA|]. intros y Hy. apply Hag. clear -Hy HdA Hx. set_solver.
    + eapply chains_agree; [exact HB|]. intros y Hy. apply Hag. clear -Hy HdB Hx. set_solver.
  - rewrite Hperm. apply NoDup_cons. rewrite !concat_app. split; [done|]. rewrite <- !concat_app. apply Hi.
  - done.
Qed.

Lemma indexmatch_run (i : svindex St) key r : t_get (match_cmp i key) (i_i i) = Some (r, i_i i) →
  sv_indexmatch cmp key i = Some (r, i).
Proof. intros E. unfold sv_indexmatch, on_tree. unfold match_cmp in E. rewrite E. by destruct i. Qed.

(** The counters, after the links. *)
Lemma indexupdate_count (i i1 : svindex St) x u u' cs vss (m : cmd (svindex St) ()) :
  m i = Some ((), i1) → i_v i1 !! x = Some u' → v_lsn u' = v_lsn u → v_size u' = v_size u →
  i_count i1 = i_count i → i_used i1 = i_used i → i_lsnmin i1 = i_lsnmin i →
  (∀ n, t_node (i_i i) n → t_node (i_i i1) n) →
  (∃ cs', idx_rep i1 cs' (insert_key cmp (svv_sv u) vss) ∧ concat cs' ≡ₚ x :: concat cs) →
  ∃ i', (m;;; let! vv := rd_v (Some x) in
         λ i, Some ((), mk_svindex (i_i i) (wrap 32 (i_count i + 1)) (wrap 32 (i_used i + v_size vv))
                   (if Z.ltb (v_lsn vv) (i_lsnmin i) then v_lsn vv else i_lsnmin i) (i_v i))) i = Some ((), i') ∧
    set_post i x u cs vss i'.
Proof.
  intros Em Hx El Es Hc Hu Hl Hn (cs' & Hrep & Hp). unfold cbind, rd_v, cread. rewrite Em. simpl. rewrite Hx.
  eexists. split; [done|]. split_and!.
  - exists cs'. split; [|done]. destruct Hrep as [? ? ? ?]. by split.
  - simpl. by rewrite Hc.
  - simpl. by rewrite Hu, Es.
  - simpl. rewrite El, Hl. destruct (Z.ltb_spec (v_lsn u) (i_lsnmin i)); lia.
  - done.
Qed.

(** A version that may be added: new in the store, not marked, and no other version of its
    key has its sequence number. *)
Record addable (i : svindex St) (cs : list (list loc)) (vss : list (list sv)) (x : loc) (u : svv) : Prop := mk_addable {
  ad_at : i_v i !! x = Some u;
  ad_node : t_node (i_i i) x;
  ad_next : v_next u = None;
  ad_new : x ∉ concat cs;
  ad_dup : sv_is (svv_sv u) SVDUP = false;
  ad_lsn : ∀ c w, c ∈ vss → w ∈ c → scmp w (svv_sv u) = 0 → sv_lsn w ≠ v_lsn u
}.

Lemma indexset_miss i cs vss csA csB A B x u r : idx_rep i cs vss → addable i cs vss x u →
  cs = csA ++ [] ++ csB → Forall2 (λ c vs, chain (i_v i) (head c) c vs None) csA A →
  Forall2 (λ c vs, chain (i_v i) (head c) c vs None) csB B →
  insert_key cmp (svv_sv u) vss = A ++ [[svv_sv u]] ++ B →
  beside (omap head csA) (omap head csB) r →
  (∀ n, t_node (i_i i) n → n ∉ omap head csA ++ omap head csB →
     ∃ t', t_set r.2 r.1 n (i_i i) = Some ((), t') ∧ t_upd (i_i i) t' (omap head csA ++ n :: omap head csB)) →
  ∃ i', sv_indexupdate (mk_pos r.2 r.1) x i = Some ((), i') ∧ set_post i x u cs vss i'.
Proof.
  intros Hi [Hx Hn Hnx Hnew Hdup Hlsn] -> HA HB Hins Hb Hset.
  destruct (Hset x Hn) as (t' & Et & Hseq & Hnodes).
  { intros [Hin|Hin]%elem_of_app; apply Hnew; rewrite concat_app; apply elem_of_app; [left|right];
      apply list_elem_of_omap in Hin as (c & Hc & Hh); apply elem_of_concat;
      apply list_elem_of_lookup in Hc as [j Hj]; exists j, c; (split; [done|]); destruct c; set_solver. }
  set (i1 := mk_svindex t' (i_count i) (i_used i) (i_lsnmin i) (i_v i)).
  assert (on_tree (t_set r.2 r.1 x) i = Some ((), i1)) as Eon by (unfold on_tree; by rewrite Et).
  unfold sv_indexupdate. cbn [p_node p_rc].
  eapply (indexupdate_count i i1 x u u).
  - destruct Hb as [(E2 & _)|[(E & y & E2 & _)|(E & y & E2 & _)]]; rewrite E2 in Eon |- *; rewrite ?E in *; done.
  - done.
  - done.
  - done.
  - done.
  - done.
  - done.
  - done.
  - exists (csA ++ [[x]] ++ csB). rewrite Hins. rewrite <- Hins.
    eapply (idx_rebuild i i1 csA [] csB [[x]] A [[svv_sv u]] B); try done.
    + constructor; [|constructor]. simpl. split; [done|]. by exists u.
    + simpl. by rewrite omap_app.
    + apply insert_key_ok; [done|apply Hi|done|done].
Qed.

Lemma indexset_hit i cs vss csA c csB A vs B x u : idx_rep i cs vss → addable i cs vss x u →
  cs = csA ++ [c] ++ csB → vss = A ++ [vs] ++ B →
  Forall2 (λ c vs, chain (i_v i) (head c) c vs None) csA A → chain (i_v i) (head c) c vs None →
  Forall2 (λ c vs, chain (i_v i) (head c) c vs None) csB B → (∀ a, a ∈ vs → scmp a (svv_sv u) = 0) →
  insert_key cmp (svv_sv u) vss = A ++ [insert_version (svv_sv u) vs] ++ B →
  ∃ i', sv_indexupdate (mk_pos (head c) 0) x i = Some ((), i') ∧ set_post i x u cs vss i'.
Proof.
  intros Hi [Hx Hn Hnx Hnew Hdup Hlsn] -> -> HA Hc HB Hkey Hins.
  assert (x ∉ c) as Hxc by (rewrite !concat_app in Hnew; simpl in Hnew; clear -Hnew; set_solver).
  assert (NoDup c) as Hndc.
  { pose proof (ir_nodup _ _ _ Hi) as Hnd. eapply (NoDup_concat_lookup _ (length csA)); [exact Hnd|].
    by rewrite lookup_app_r, Nat.sub_diag by lia. }
  assert (∀ w, w ∈ vs → sv_lsn w ≠ v_lsn u) as Hl.
  { intros w Hw. apply (Hlsn vs); [clear; set_solver|done|by apply Hkey]. }
  destruct c as [|h t].
  { destruct vs; [|done]. destruct (ir_ok _ _ _ Hi) as [Hco _].
    apply Forall_app in Hco as [_ [[Hco _]%Forall_cons _]%Forall_app]. by destruct (co_ne _ _ Hco). }
  destruct vs as [|v0 vs]; [done|]. destruct Hc as (_ & hv & Hh & <- & Hc).
  assert (wp (sv_vset (Some h) (Some x)) i (vset_post i x u (h :: t) (svv_sv hv :: vs))) as Hwp.
  { specialize (Hl (svv_sv hv) (list_elem_of_here _ _)) as Hl0. simpl in Hl0.
    apply NoDup_cons in Hndc as Hndc'.
    destruct (decide (v_lsn hv < v_lsn u)); [destruct Hndc' as [? _]; by apply vset_newest|].
    apply vset_older; try done; [lia|]. intros w Hw. apply Hl. set_solver. }
  apply wp_run in Hwp as (r & i1 & Ev & (Hs1 & Hs2 & Hs3 & Hs4) & c' & -> & Hc' & Hp & Hhd & Hout & u' & Hu' & El & Esz).
  assert (∀ y, y ∈ x :: h :: t ↔ y ∈ c') as Hpin by (intros y; by rewrite Hp).
  assert (∃ t', (match head c' with Some u => cwhen (negb (ptr_eqb (Some h) (Some u))) (on_tree (t_replace h u)) | None => cfail end) i1 =
      Some ((), mk_svindex t' (i_count i1) (i_used i1) (i_lsnmin i1) (i_v i1)) ∧
    t_upd (i_i i) t' (omap head csA ++ option_list (head c') ++ omap head csB)) as (t' & Et & Hseq & Hnodes).
  { pose proof (ir_seq _ _ _ Hi) as Hseq. rewrite !omap_app in Hseq. simpl in Hseq.
    destruct Hhd as [Hhd|Hhd]; rewrite Hhd; simpl.
    - unfold ptr_eqb. rewrite bool_decide_eq_false_2 by (clear -Hxc; set_solver). simpl.
      destruct (t_replace_ok (i_i i) (omap head csA) h (omap head csB) x Hseq Hn) as (t' & Et & Hup).
      { intros Hin. apply Hnew. rewrite !concat_app. apply elem_of_app in Hin as [Hin|[->|Hin]%elem_of_cons];
          [apply elem_of_app; left|by destruct Hxc; constructor|apply elem_of_app; right; apply elem_of_app; right];
          apply list_elem_of_omap in Hin as (d & Hd & Hhd'); apply elem_of_concat;
          apply list_elem_of_lookup in Hd as [j Hj]; exists j, d; (split; [done|]); destruct d; set_solver. }
      exists t'. unfold on_tree. rewrite Hs1, Et. done.
    - unfold ptr_eqb. rewrite bool_decide_eq_true_2 by done. simpl. exists (i_i i1). rewrite Hs1.
      split; [destruct i1; simpl in *; by subst|]. by split. }
  set (i2 := mk_svindex t' (i_count i1) (i_used i1) (i_lsnmin i1) (i_v i1)).
  unfold sv_indexupdate. cbn [p_node p_rc head]. cbn [Z.eqb].
  apply (indexupdate_count i i2 x u u'); try done.
  - unfold cbind at 1. rewrite Ev. exact Et.
  - exists (csA ++ [c'] ++ csB).
    eapply (idx_rebuild i i2 csA [h :: t] csB [c'] A [insert_version (svv_sv u) (svv_sv hv :: vs)] B); try done.
    + by constructor.
    + simpl. by rewrite !app_nil_r.
    + simpl. intros y Hy. rewrite app_nil_r in Hy. by apply Hout.
    + simpl. rewrite !omap_app. simpl. clear -Hseq. by destruct (head c').
    + apply insert_key_ok; [done|apply Hi|done|done].
Qed.

Lemma indexset_ok i cs vss x u : idx_rep i cs vss → addable i cs vss x u →
  ∃ i', sv_indexset cmp x i = Some ((), i') ∧ set_post i x u cs vss i'.
Proof.
  intros Hi Had. destruct (idx_split i cs vss (svv_sv u) Hi)
    as (csA & csM & csB & A & M & B & Ecs & Evss & HA & HM & HB & Hcut & _ & _ & HM').
  pose proof (ir_seq _ _ _ Hi) as Hseq. unfold sv_indexset, sv_indexget, cbind, rd_v, cread. simpl.
  rewrite (ad_at _ _ _ _ _ Had). simpl in Hcut. destruct HM' as [[-> Hins]|(vs & -> & Hkey & Hins)].
  - apply Forall2_nil_inv_r in HM as ->. simpl in Hcut. rewrite Ecs, !omap_app in Hseq, Hcut. simpl in Hseq, Hcut.
    destruct (t_get_miss _ _ _ _ Hseq Hcut) as (r & Er & Hb & Hset).
    rewrite (indexmatch_run _ _ _ Er). simpl. eapply indexset_miss; try done.
  - apply Forall2_cons_inv_r in HM as (c & csM' & Hc & HM & ->). apply Forall2_nil_inv_r in HM as ->.
    assert (∃ h, head c = Some h) as [h Hh].
    { destruct c; [|eauto]. destruct vs; [|done]. destruct (ir_ok _ _ _ Hi) as [Hco _]. rewrite Evss in Hco.
      apply Forall_app in Hco as [_ [[Hco _]%Forall_cons _]%Forall_app]. by destruct (co_ne _ _ Hco). }
    rewrite Ecs, !omap_app in Hseq, Hcut. simpl in Hseq, Hcut. rewrite Hh in Hseq, Hcut. simpl in Hseq, Hcut.
    rewrite (indexmatch_run _ _ _ (t_get_hit _ _ _ _ _ Hseq Hcut)). simpl.
    rewrite <- Hh. by eapply (indexset_hit i cs vss csA c csB A vs B).
Qed.
End operations.
