(* ===== verification/SvIndexIter.v ===== *)
(** The iterator of the in-memory index walks the keys in either direction from any key, and
    gives the merge a sorted stream whose duplicates are flagged. *)
From stdpp Require Import base list sorting sets gmap.
From S2P Require Import Prelude SsOrder SsRb SsRbInsert SsRbSpec Sv SvMerge SvMergeProofs SvIndex SvIndexProofs.
Local Open Scope Z_scope.

(** The iterator as a source of the merge: it reads the index and does not change it. *)
#[export] Instance indexiter_iter {St} `{TreeOps St} : SsIter (svindex St * svindexiter) := {
  it_of p := match sv_indexiter_of p.2 p.1 with Some (v, _) => v | None => None end;
  it_next p := match sv_indexiter_next p.2 p.1 with Some (ii, i) => (i, ii) | None => p end
}.

(** * The keys a walk visits *)

Definition downward (o : ssorder) : bool := match o with SS_LT | SS_LTE => true | _ => false end.
(** The chain of a key is visited: [r] is the comparison of its key with the given one. *)
Definition visits (o : ssorder) (r : Z) : bool :=
  match o with
  | SS_GT => Z.gtb r 0
  | SS_GTE => Z.geb r 0
  | SS_LT => Z.ltb r 0
  | SS_LTE => Z.leb r 0
  | _ => false
  end.
Definition seek (cmp : bytes → bytes → Z) (o : ssorder) (key : option bytes) (vss : list (list sv)) : list (list sv) :=
  let l := match key with
           | None => vss
           | Some k => filter (λ c, visits o (sv_compare cmp (default (mk_sv 0 0 []) (head c)) (mk_sv 0 0 k)) = true) vss
           end in
  if downward o then reverse l else l.

Section seek.
Context (cmp : bytes → bytes → Z) `{!KeyOrder cmp}.
Abbreviation scmp := (sv_compare cmp).

Lemma filter_none {A} (P : A → Prop) `{∀ x, Decision (P x)} (l : list A) : (∀ x, x ∈ l → ¬ P x) → filter P l = [].
Proof.
  induction l as [|x l IH]; intros Hl; [done|]. rewrite filter_cons_False by (apply Hl; set_solver).
  apply IH. set_solver.
Qed.
(** The visited chains, by the place of the key. *)
Lemma seek_split o k vss A M B : content_ok cmp vss → vss = A ++ M ++ B →
  (∀ c a, c ∈ A → a ∈ c → scmp a (mk_sv 0 0 k) = -1) → (∀ c a, c ∈ M → a ∈ c → scmp a (mk_sv 0 0 k) = 0) →
  (∀ c a, c ∈ B → a ∈ c → scmp a (mk_sv 0 0 k) = 1) →
  seek cmp o (Some k) vss =
    match o with
    | SS_GT => B | SS_GTE => M ++ B | SS_LT => reverse A | SS_LTE => reverse (A ++ M) | _ => []
    end.
Proof.
  intros [Hc _] -> HA HM HB. unfold seek. rewrite !filter_app.
  assert (∀ L r, (∀ c, c ∈ L → c ∈ A ++ M ++ B) → (∀ c a, c ∈ L → a ∈ c → scmp a (mk_sv 0 0 k) = r) →
    filter (λ c, visits o (scmp (default (mk_sv 0 0 []) (head c)) (mk_sv 0 0 k)) = true) L =
    if visits o r then L else []) as HL.
  { intros L r Hin Hr.
    assert (∀ c, c ∈ L → scmp (default (mk_sv 0 0 []) (head c)) (mk_sv 0 0 k) = r) as Hh.
    { intros c HcL. rewrite Forall_forall in Hc. specialize (Hc c (Hin c HcL)).
      destruct c as [|a c]; [by destruct (co_ne _ _ Hc)|]. simpl. apply (Hr (a :: c)); [done|set_solver]. }
    destruct (visits o r) eqn:Ev.
    - apply filter_all. intros c HcL. by rewrite Hh.
    - apply filter_none. intros c HcL. rewrite Hh by done. by rewrite Ev. }
  rewrite (HL A (-1)), (HL M 0), (HL B 1); try done; try (clear; set_solver).
  destruct o; simpl; rewrite ?app_nil_r; done.
Qed.

(** A run of whole keys in order is a stream the merge accepts. *)
Definition run_ok (o : ssorder) (L : list (list sv)) : Prop :=
  Forall (chain_ok cmp) L ∧
  StronglySorted (λ c d, ∀ a b, a ∈ c → b ∈ d → sv_compare (order_cmp o cmp) a b = -1) L.
Lemma flagged_chain o u vs : (∀ a, a ∈ vs → sv_compare (order_cmp o cmp) u a = 0) →
  (∀ a b, a ∈ vs → b ∈ vs → sv_compare (order_cmp o cmp) a b = 0) →
  Forall (λ v, sv_is v SVDUP = true) vs → ∀ k, (∀ v, last (u :: vs) = Some v → flagged (order_cmp o cmp) (Some v) k) →
  flagged (order_cmp o cmp) (Some u) (vs ++ k).
Proof.
  intros Hu Hk Hd k Hlast. revert u Hu Hlast. induction Hd as [|v vs Hv Hd IH]; intros u Hu Hlast; simpl.
  - by apply Hlast.
  - split.
    + rewrite Hv. simpl. unfold same. by rewrite Hu by set_solver.
    + apply IH; [set_solver..|]. intros w Hw. apply Hlast. by destruct vs.
Qed.
Lemma scmp_order o a b : scmp a b = 0 → sv_compare (order_cmp o cmp) a b = 0.
Proof. unfold sv_compare. intros E. destruct o; simpl; rewrite ?E; done. Qed.
Lemma run_stream o L : run_ok o L → stream_ok (order_cmp o cmp) (concat L).
Proof.
  intros [Hc Hs]. split.
  - induction Hs as [|c L Hs IH Hlt]; simpl; [constructor|]. apply Forall_cons in Hc as [Hc1 Hc2].
    apply StronglySorted_app. split_and!.
    + intros a b Ha Hb. apply elem_of_concat in Hb as (j & d & Hj & Hb). rewrite Forall_forall in Hlt.
      unfold sle. rewrite (Hlt d (list_elem_of_lookup_2 _ _ _ Hj) a b Ha Hb). done.
    + pose proof (co_key _ _ Hc1) as Hk. clear -Hk. induction c as [|v c IH]; constructor; [apply IH; set_solver|].
      apply Forall_forall. intros a Ha. unfold sle. rewrite scmp_order; [done|apply Hk; set_solver].
    + by apply IH.
  - assert (∀ p, (∀ u c a, p = Some u → head L = Some c → a ∈ c → sv_compare (order_cmp o cmp) u a ≠ 0) →
      flagged (order_cmp o cmp) p (concat L)) as Hf; [|by apply Hf].
    revert Hc. induction Hs as [|c L Hs IH Hlt]; intros Hc p Hp; simpl; [done|].
    apply Forall_cons in Hc as [Hc1 Hc2]. destruct c as [|v vs]; [by destruct (co_ne _ _ Hc1)|]. simpl. split.
    + rewrite (co_head _ _ Hc1 v) by done. destruct p as [u|]; [|done]. simpl. unfold same.
      specialize (Hp u (v :: vs) v eq_refl eq_refl (list_elem_of_here _ _)).
      by destruct (Z.eqb_spec (sv_compare (order_cmp o cmp) u v) 0).
    + pose proof (co_key _ _ Hc1) as Hk. apply flagged_chain.
      * intros a Ha. apply scmp_order, Hk; set_solver.
      * intros a b Ha Hb. apply scmp_order, Hk; set_solver.
      * apply Hc1.
      * intros w Hw. apply IH; [done|]. intros u d a [= <-] Hd Ha.
        rewrite Forall_forall in Hlt. rewrite (Hlt d) with (b := a); [done|destruct L; set_solver| |done].
        apply last_Some_elem_of in Hw. done.
Qed.
End seek.

Lemma StronglySorted_rev {A} (R : A → A → Prop) l : StronglySorted R l → StronglySorted (λ a b, R b a) (reverse l).
Proof.
  induction 1 as [|x l Hs IH Hx]; [constructor|]. rewrite reverse_cons. apply StronglySorted_app. split_and!.
  - intros a b Ha ->%list_elem_of_singleton. rewrite elem_of_reverse in Ha. rewrite Forall_forall in Hx. by apply Hx.
  - done.
  - repeat constructor.
Qed.
Lemma StronglySorted_mono {A} (R S : A → A → Prop) l : (∀ a b, R a b → S a b) →
  StronglySorted R l → StronglySorted S l.
Proof. induction 2; constructor; [done|]. eapply Forall_impl; [done|]. auto. Qed.
Lemma Forall_sub {A} (P : A → Prop) (l k : list A) : k `sublist_of` l → Forall P l → Forall P k.
Proof. rewrite !Forall_forall. intros Hsub Hl x Hx. apply Hl. by eapply elem_of_sublist. Qed.
Lemma StronglySorted_sublist {A} (R : A → A → Prop) l k : k `sublist_of` l → StronglySorted R l → StronglySorted R k.
Proof.
  induction 1 as [|x l k Hsub IH|x l k Hsub IH]; intros Hs; [constructor| |]; apply StronglySorted_inv in Hs as [Hs Hx].
  - constructor; [by apply IH|]. by eapply Forall_sub.
  - by apply IH.
Qed.
Lemma filter_sub {A} (P : A → Prop) `{∀ x, Decision (P x)} (l : list A) : filter P l `sublist_of` l.
Proof. induction l as [|x l IH]; [done|]. rewrite filter_cons. case_decide; by constructor. Qed.

Section runs.
Context (cmp : bytes → bytes → Z) `{!KeyOrder cmp}.

Lemma seek_run o key vss : content_ok cmp vss → run_ok cmp o (seek cmp o key vss).
Proof.
  intros [Hc Hs]. unfold seek.
  set (l := match key with None => vss | Some k => _ end).
  assert (l `sublist_of` vss) as Hsub by (subst l; destruct key; [apply filter_sub|done]).
  assert (Forall (chain_ok cmp) l) as Hcl by (by eapply Forall_sub).
  apply (StronglySorted_sublist _ _ _ Hsub) in Hs. destruct (downward o) eqn:Ed.
  - split; [by apply Forall_reverse|]. apply StronglySorted_rev in Hs.
    eapply StronglySorted_mono; [|exact Hs]. intros c d Hcd a b Ha Hb. specialize (Hcd b a Hb Ha).
    pose proof (cmp_opp (cmp:=sv_compare cmp) b a) as Hopp. unfold sv_compare in *.
    destruct o; simplify_eq/=; lia.
  - split; [done|]. eapply StronglySorted_mono; [|exact Hs]. intros c d Hcd a b Ha Hb.
    specialize (Hcd a b Ha Hb). by destruct o; simplify_eq/=.
Qed.
End runs.

(** * The walk *)

Section walk.
Context {St : Type} `{!TreeOps St, !TreeLaws St} (cmp : bytes → bytes → Z) `{!KeyOrder cmp}.
Context (i : svindex St) (cs : list (list loc)) (vss : list (list sv)) (Hi : idx_rep cmp i cs vss).

(** The iterator stands at the first version of the first of the chains. *)
Definition start (o : ssorder) (cs : list (list loc)) : svindexiter :=
  mk_indexiter (head cs ≫= head) (head cs ≫= head) o.

Lemma on_tree_read {A} (m : cmd St A) a : m (i_i i) = Some (a, i_i i) → on_tree m i = Some (a, i).
Proof. intros E. unfold on_tree. rewrite E. by destruct i. Qed.

Lemma heads_seq csA c csB x : cs = csA ++ c :: csB → head c = Some x →
  t_seq (i_i i) (omap head csA ++ x :: omap head csB).
Proof. intros E Hx. pose proof (ir_seq _ _ _ _ Hi) as Hs. rewrite E, omap_app in Hs. csimpl in Hs. by rewrite Hx in Hs. Qed.

(** One step of the tree in the direction of the walk, and the keys still ahead. *)
Definition step (o : ssorder) (x : loc) : cmd (svindex St) ptr :=
  if downward o then on_tree (t_prev x) else on_tree (t_next x).
Fixpoint linked (o : ssorder) (x : loc) (csN : list (list loc)) : Prop :=
  match csN with
  | [] => step o x i = Some (None, i)
  | c :: csN => ∃ x', head c = Some x' ∧ step o x i = Some (Some x', i) ∧ linked o x' csN
  end.

Lemma chain_some c : c ∈ cs → ∃ x, head c = Some x.
Proof.
  intros Hc. apply list_elem_of_lookup in Hc as [j Hj].
  destruct (Forall2_lookup_l _ _ _ _ _ (ir_chain _ _ _ _ Hi) Hj) as (vs' & Hv & Hch).
  destruct c as [|x c]; [|eauto]. destruct vs'; [|done].
  pose proof (Forall_lookup_1 _ _ _ _ (ct_chains _ _ (ir_ok _ _ _ _ Hi)) Hv) as Hok. by destruct (co_ne _ _ Hok).
Qed.
Lemma linked_up o csB : downward o = false → ∀ csA c x, cs = csA ++ c :: csB → head c = Some x → linked o x csB.
Proof.
  intros Ho. induction csB as [|d csB IH]; intros csA c x E Hx; simpl; unfold step; rewrite Ho.
  - by rewrite (on_tree_read _ _ (t_next_ok _ _ _ _ (heads_seq csA c [] x E Hx))).
  - destruct (chain_some d) as [x' Hx']; [rewrite E; set_solver|]. exists x'. split_and!; [done| |].
    + rewrite (on_tree_read _ _ (t_next_ok _ _ _ _ (heads_seq csA c (d :: csB) x E Hx))). csimpl. by rewrite Hx'.
    + apply (IH (csA ++ [c]) d); [|done]. by rewrite <- app_assoc.
Qed.
Lemma linked_down o csA : downward o = true → ∀ c csB x, cs = reverse csA ++ c :: csB → head c = Some x → linked o x csA.
Proof.
  intros Ho. induction csA as [|d csA IH]; intros c csB x E Hx; simpl; unfold step; rewrite Ho.
  - by rewrite (on_tree_read _ _ (t_prev_ok _ _ _ _ (heads_seq [] c csB x E Hx))).
  - rewrite reverse_cons, <- app_assoc in E. simpl in E.
    destruct (chain_some d) as [x' Hx']; [rewrite E; set_solver|]. exists x'. split_and!; [done| |].
    + assert (cs = (reverse csA ++ [d]) ++ c :: csB) as E' by by rewrite <- app_assoc.
      rewrite (on_tree_read _ _ (t_prev_ok _ _ _ _ (heads_seq _ c csB x E' Hx))).
      rewrite omap_app. csimpl. rewrite Hx'. by rewrite last_snoc.
    + by apply (IH d (c :: csB)).
Qed.

(** From any version on, the walk yields the rest of its chain and the chains ahead. *)
Lemma enum_linked o csN vN : walk_order o = true → Forall2 (λ c vs, chain (i_v i) (head c) c vs None) csN vN →
  ∀ x y c w ws, linked o x csN → chain (i_v i) (Some y) (y :: c) (w :: ws) None →
  enumerates (i, mk_indexiter (Some x) (Some y) o) (w :: ws ++ concat vN).
Proof.
  intros Ho HF. induction HF as [|d vs csN vN Hd HF IH]; intros x y c w ws Hl Hc.
  - simpl concat. rewrite app_nil_r. revert y w c Hc. induction ws as [|w' ws IHw]; intros y w c (_ & u & Hy & <- & Hc).
    + destruct c; [|done]. simpl in Hc, Hl. cbn [enumerates]. split.
      { simpl. unfold sv_indexiter_of, rd_v, cbind, cread. simpl. by rewrite Hy. }
      simpl. unfold sv_indexiter_next, rd_v, cbind, cread. simpl. rewrite Hy, Hc. unfold step in Hl.
      destruct o; try done; simpl in Hl |- *; by rewrite Hl.
    + destruct c as [|y' c]; [done|]. pose proof Hc as (Hn & _). cbn [enumerates]. split.
      { simpl. unfold sv_indexiter_of, rd_v, cbind, cread. simpl. by rewrite Hy. }
      simpl it_next. unfold sv_indexiter_next, rd_v, cbind, cread. simpl. rewrite Hy, Hn. apply (IHw y' w' c).
      by rewrite Hn in Hc.
  - destruct Hl as (x' & Hx' & Hst & Hl). destruct d as [|y' d]; [done|]. injection Hx' as ->.
    destruct vs as [|v' vs]; [done|]. simpl concat. simpl head in Hd.
    revert y w c Hc. induction ws as [|w' ws IHw]; intros y w c (_ & u & Hy & <- & Hc).
    + destruct c; [|done]. simpl in Hc. cbn [app]. cbn [enumerates]. split.
      { simpl. unfold sv_indexiter_of, rd_v, cbind, cread. simpl. by rewrite Hy. }
      simpl it_next. unfold sv_indexiter_next, rd_v, cbind, cread. simpl. rewrite Hy, Hc. unfold step in Hst.
      change (enumerates ?z ((v' :: vs) ++ concat vN)) with (enumerates z (v' :: vs ++ concat vN)).
      destruct o; try done; simpl in Hst |- *; rewrite Hst; by apply (IH x' x' d v' vs).
    + destruct c as [|y' c]; [done|]. pose proof Hc as (Hn & _). cbn [app]. cbn [enumerates]. split.
      { simpl. unfold sv_indexiter_of, rd_v, cbind, cread. simpl. by rewrite Hy. }
      simpl it_next. unfold sv_indexiter_next, rd_v, cbind, cread. simpl. rewrite Hy, Hn.
      apply (IHw y' w' c). by rewrite Hn in Hc.
Qed.

Lemma start_enum o csN vN : walk_order o = true → Forall2 (λ c vs, chain (i_v i) (head c) c vs None) csN vN →
  (∀ c csN' x, csN = c :: csN' → head c = Some x → linked o x csN') → (∀ c, c ∈ csN → c ∈ cs) →
  enumerates (i, start o csN) (concat vN).
Proof.
  intros Ho HF Hl Hin. destruct HF as [|c vs csN vN Hc HF]; [done|].
  destruct (chain_some c) as [x Hx]; [apply Hin; set_solver|]. specialize (Hl c csN x eq_refl Hx).
  unfold start. simpl. rewrite Hx in Hc |- *. destruct c as [|y c], vs as [|w vs]; simplify_eq/=; try done.
  by apply (enum_linked o csN vN Ho HF x x c w vs).
Qed.
Lemma suffix_enum o pre csN vN : walk_order o = true → downward o = false → cs = pre ++ csN →
  Forall2 (λ c vs, chain (i_v i) (head c) c vs None) csN vN → enumerates (i, start o csN) (concat vN).
Proof.
  intros Ho Hd E HF. apply start_enum; [done|done| |].
  - intros c csN' x -> Hx. by eapply (linked_up o csN' Hd pre c).
  - intros c Hc. rewrite E. set_solver.
Qed.
Lemma prefix_enum o csN vN suf : walk_order o = true → downward o = true → cs = reverse csN ++ suf →
  Forall2 (λ c vs, chain (i_v i) (head c) c vs None) csN vN → enumerates (i, start o csN) (concat vN).
Proof.
  intros Ho Hd E HF. apply start_enum; [done|done| |].
  - intros c csN' x -> Hx. rewrite reverse_cons, <- app_assoc in E. by eapply (linked_down o csN' Hd c suf).
  - intros c Hc. rewrite E. set_solver.
Qed.

(** The ends of the sequence of newest versions are the ends of the chains. *)
Lemma head_heads csN : (∀ c, c ∈ csN → c ∈ cs) → head (omap head csN) = head csN ≫= head.
Proof.
  intros Hin. destruct csN as [|c csN]; [done|]. destruct (chain_some c) as [x Hx]; [apply Hin; set_solver|].
  csimpl. by rewrite Hx.
Qed.
Lemma last_heads csN : (∀ c, c ∈ csN → c ∈ cs) → last (omap head csN) = head (reverse csN) ≫= head.
Proof.
  intros Hin. destruct csN as [|c csN _] using rev_ind; [done|].
  destruct (chain_some c) as [x Hx]; [apply Hin; set_solver|].
  rewrite reverse_snoc, omap_app. csimpl. rewrite Hx. by rewrite last_snoc.
Qed.

Definition seek_to (o : ssorder) (csA csM csB : list (list loc)) : list (list loc) :=
  match o with
  | SS_GT => csB | SS_GTE => csM ++ csB | SS_LT => reverse csA | SS_LTE => reverse (csA ++ csM) | _ => []
  end.

Lemma seek_miss o k csA csB r : walk_order o = true → cs = csA ++ csB →
  t_get (match_cmp cmp i k) (i_i i) = Some (r, i_i i) → beside (omap head csA) (omap head csB) r →
  indexiter_seek cmp o (Some k) i = Some ((false, head (seek_to o csA [] csB) ≫= head), i).
Proof.
  intros Ho E Er Hb. pose proof (ir_seq _ _ _ _ Hi) as Hs. rewrite E, omap_app in Hs.
  assert (head (seek_to o csA [] csB) ≫= head = if downward o then last (omap head csA) else head (omap head csB)) as ->.
  { rewrite last_heads, head_heads by (rewrite E; set_solver).
    destruct o; simpl; rewrite ?app_nil_r; done. }
  pose proof (indexmatch_run cmp _ _ _ Er) as Em. destruct r as [rc p].
  destruct Hb as [(Hp & HA & HB)|[(Hrc & x & Hp & HA)|(Hrc & x & Hp & HB)]]; simpl in Hp; subst p;
    try (simpl in Hrc; subst rc).
  - rewrite HA, HB. unfold indexiter_seek, cbind. destruct o; try done; simpl; by rewrite Em.
  - apply last_Some in HA as [l Hl]. rewrite Hl in Hs |- *. rewrite <- app_assoc in Hs. simpl in Hs.
    pose proof (on_tree_read _ _ (t_next_ok _ _ _ _ Hs)) as Hn.
    rewrite last_snoc. unfold indexiter_seek, cbind. destruct o; try done; simpl; rewrite Em; simpl; rewrite ?Hn; done.
  - destruct (omap head csB) as [|y l] eqn:El; simpl in HB; [done|]. injection HB as ->.
    pose proof (on_tree_read _ _ (t_prev_ok _ _ _ _ Hs)) as Hn.
    unfold indexiter_seek, cbind. destruct o; try done; simpl; rewrite Em; simpl; rewrite ?Hn; done.
Qed.
Lemma seek_hit o k csA c csB x : walk_order o = true → cs = csA ++ [c] ++ csB → head c = Some x →
  t_get (match_cmp cmp i k) (i_i i) = Some ((0, Some x), i_i i) →
  indexiter_seek cmp o (Some k) i = Some ((true, head (seek_to o csA [c] csB) ≫= head), i).
Proof.
  intros Ho E Hx Er. pose proof (heads_seq csA c csB x E Hx) as Hs.
  pose proof (indexmatch_run cmp _ _ _ Er) as Em.
  pose proof (on_tree_read _ _ (t_next_ok _ _ _ _ Hs)) as Hn. pose proof (on_tree_read _ _ (t_prev_ok _ _ _ _ Hs)) as Hp.
  rewrite head_heads in Hn by (rewrite E; set_solver). rewrite last_heads in Hp by (rewrite E; set_solver).
  unfold indexiter_seek, cbind. destruct o; try done; simpl; rewrite Em; simpl;
    rewrite ?Hn, ?Hp, ?reverse_snoc; simpl; rewrite ?Hx; done.
Qed.
Lemma seek_end o : walk_order o = true →
  indexiter_seek cmp o None i = Some ((false, head (if downward o then reverse cs else cs) ≫= head), i).
Proof.
  intros Ho. pose proof (ir_seq _ _ _ _ Hi) as Hs.
  pose proof (on_tree_read _ _ (t_min_ok _ _ Hs)) as Hn. pose proof (on_tree_read _ _ (t_max_ok _ _ Hs)) as Hx.
  rewrite head_heads in Hn by done. rewrite last_heads in Hx by done.
  unfold indexiter_seek, cbind. destruct o; simpl; rewrite ?Hn, ?Hx; done.
Qed.

Lemma indexiter_open_ok o key : walk_order o = true → ∃ eq ii,
  sv_indexiter_open cmp o key i = Some ((eq, ii), i) ∧ enumerates (i, ii) (concat (seek cmp o key vss)).
Proof.
  intros Ho. destruct key as [k|].
  - destruct (idx_split cmp i cs vss (mk_sv 0 0 k) Hi)
      as (csA & csM & csB & A & M & B & Ecs & Evss & HA & HM & HB & Hcut & HkA & HkB & HM').
    assert (∀ c a, c ∈ M → a ∈ c → sv_compare cmp a (mk_sv 0 0 k) = 0) as HkM.
    { destruct HM' as [[-> _]|(c & -> & Hc & _)]; [set_solver|]. intros d a ->%list_elem_of_singleton. apply Hc. }
    rewrite (seek_split cmp o k vss A M B (ir_ok _ _ _ _ Hi) Evss HkA HkM HkB).
    assert (∃ eq, indexiter_seek cmp o (Some k) i = Some ((eq, head (seek_to o csA csM csB) ≫= head), i)) as [eq Es].
    { pose proof (ir_seq _ _ _ _ Hi) as Hseq. rewrite Ecs, !omap_app in Hseq, Hcut.
      destruct HM' as [[-> _]|(vs & -> & Hkey & _)].
      - apply Forall2_nil_inv_r in HM as ->. simpl in Hseq, Hcut.
        destruct (t_get_miss _ _ _ _ Hseq Hcut) as (r & Er & Hb & _). eexists. by eapply seek_miss.
      - apply Forall2_cons_inv_r in HM as (c & csM' & Hc & HM & ->). apply Forall2_nil_inv_r in HM as ->.
        destruct (chain_some c) as [x Hx]; [rewrite Ecs; clear; set_solver|]. csimpl in Hseq. csimpl in Hcut.
        rewrite Hx in Hseq, Hcut. eexists. eapply seek_hit; [done|done|done|]. by apply (t_get_hit _ _ _ _ _ Hseq). }
    exists eq, (start o (seek_to o csA csM csB)). unfold sv_indexiter_open, cbind. rewrite Es. split; [done|].
    destruct o; try done; simpl.
    + apply (prefix_enum SS_LT _ _ (csM ++ csB)); [done|done|by rewrite reverse_involutive|by apply Forall2_reverse].
    + apply (prefix_enum SS_LTE _ _ csB); [done|done|by rewrite reverse_involutive, <- app_assoc|].
      apply Forall2_reverse. by apply Forall2_app.
    + apply (suffix_enum SS_GT (csA ++ csM)); [done|done|by rewrite <- app_assoc|done].
    + apply (suffix_enum SS_GTE csA); [done|done|done|by apply Forall2_app].
  - eexists _, _. unfold sv_indexiter_open, cbind. rewrite seek_end by done. split; [done|]. simpl.
    change (mk_indexiter (head ?l ≫= head) (head ?l ≫= head) o) with (start o l). unfold seek.
    destruct (downward o) eqn:Ed.
    + apply (prefix_enum o _ _ []); [done|done|by rewrite reverse_involutive, app_nil_r|].
      apply Forall2_reverse. apply Hi.
    + apply (suffix_enum o []); [done|done|done|apply Hi].
Qed.
End walk.

(** * Correctness *)

(** C19: adding a version to the index never faults; it puts the version among those of its
    key in descending order of lsn (in the tree when it is the newest, in the chain with
    [SVDUP] set when it is not), or makes a new key at its place in the order; the keys stay
    sorted and every other version stays; the counters count it and [lsnmin] is lowered. *)
Theorem sv_indexset_sorted {St} `{!TreeOps St, !TreeLaws St} cmp `{!KeyOrder cmp} (i : svindex St) cs vss x u :
  idx_rep cmp i cs vss → addable cmp i cs vss x u →
  ∃ i' cs', sv_indexset cmp x i = Some ((), i') ∧
    idx_rep cmp i' cs' (insert_key cmp (svv_sv u) vss) ∧ concat cs' ≡ₚ x :: concat cs ∧
    i_count i' = wrap 32 (i_count i + 1) ∧ i_used i' = wrap 32 (i_used i + v_size u) ∧
    i_lsnmin i' = Z.min (v_lsn u) (i_lsnmin i).
Proof.
  intros Hi Had. destruct (indexset_ok cmp i cs vss x u Hi Had) as (i' & E & (cs' & Hr & Hp) & Hc & Hu & Hl & _).
  by exists i', cs'.
Qed.

(** C20: an iterator opened on the index at any key (or at an end) in any direction yields
    exactly the versions of the keys on that side, key by key and newest first, and this
    stream is sorted and flagged as the merge iterator requires. *)
Theorem sv_indexiter_streams {St} `{!TreeOps St, !TreeLaws St} cmp `{!KeyOrder cmp} (i : svindex St) cs vss o key :
  idx_rep cmp i cs vss → walk_order o = true →
  ∃ eq ii, sv_indexiter_open cmp o key i = Some ((eq, ii), i) ∧
    enumerates (i, ii) (concat (seek cmp o key vss)) ∧
    stream_ok (order_cmp o cmp) (concat (seek cmp o key vss)).
Proof.
  intros Hi Ho. destruct (indexiter_open_ok cmp i cs vss Hi o key Ho) as (eq & ii & E & Hen).
  exists eq, ii. split_and!; [done|done|]. by apply run_stream, seek_run, Hi.
Qed.

(** ** Witnesses: an index of two keys in a red-black tree *)
Definition demo_nodes : gmap loc ssrbnode :=
  list_to_map [(1%positive, mk_rbnode None None (Some 2%positive) 0);
               (2%positive, mk_rbnode (Some 1%positive) None None 1);
               (3%positive, mk_rbnode None None None 0)].
Definition demo_versions : gmap loc svv :=
  list_to_map [(1%positive, mk_svv 3 1 0 None [5]); (2%positive, mk_svv 4 1 0 None [7]);
               (3%positive, mk_svv 9 1 0 None [5])].
Definition demo_index : svindex ssrb := mk_svindex (mk_rb (Some 1%positive) demo_nodes) 2 2 3 demo_versions.
Definition demo_content : list (list sv) := [[mk_sv 3 0 [5]]; [mk_sv 4 0 [7]]].

Lemma demo_index_rep : idx_rep demo_key_cmp demo_index [[1%positive]; [2%positive]] demo_content.
Proof.
  split.
  - exists (SsRbProofs.T SsRbProofs.Black SsRbProofs.E 1%positive
      (SsRbProofs.T SsRbProofs.Red SsRbProofs.E 2%positive SsRbProofs.E)), 1%nat.
    split_and!; [|repeat econstructor|done]. split; [done|by vm_compute|done| |done].
    intros x. simpl. unfold SsRbProofs.one. repeat case_decide; subst; (lia || done).
  - repeat constructor; eexists; (split; [vm_compute; reflexivity|done]).
  - apply (bool_decide_unpack _). by vm_compute.
  - split.
    + constructor; [by apply (chain_ok_single demo_key_cmp)|]. constructor; [by apply (chain_ok_single demo_key_cmp)|constructor].
    + repeat constructor; intros ? ? ->%list_elem_of_singleton ->%list_elem_of_singleton; reflexivity.
Qed.

Lemma sv_indexset_sorted_witness : ∃ i' cs',
  sv_indexset demo_key_cmp 3%positive demo_index = Some ((), i') ∧
  idx_rep demo_key_cmp i' cs' [[mk_sv 9 0 [5]; mk_sv 3 4 [5]]; [mk_sv 4 0 [7]]].
Proof.
  destruct (sv_indexset_sorted demo_key_cmp demo_index [[1%positive]; [2%positive]] demo_content
    3%positive (mk_svv 9 1 0 None [5])) as (i' & cs' & E & Hr & _).
  - exact demo_index_rep.
  - split; try reflexivity.
    + vm_compute. eauto.
    + apply (bool_decide_unpack _). by vm_compute.
    + intros c w Hc Hw _. repeat (apply elem_of_cons in Hc as [->|Hc];
        [apply list_elem_of_singleton in Hw as ->; simpl; lia|]). by apply not_elem_of_nil in Hc.
  - by exists i', cs'.
Defined.
Lemma sv_indexiter_streams_witness : ∃ eq ii,
  sv_indexiter_open demo_key_cmp SS_LTE (Some [6]) demo_index = Some ((eq, ii), demo_index) ∧
  enumerates (demo_index, ii) [mk_sv 3 0 [5]].
Proof.
  destruct (sv_indexiter_streams demo_key_cmp demo_index [[1%positive]; [2%positive]] demo_content SS_LTE (Some [6]))
    as (eq & ii & E & Hen & _).
  - exact demo_index_rep.
  - reflexivity.
  - by exists eq, ii.
Defined.
