(* ===== verification/Sx.v ===== *)
(** Transactions: the manager of sx.h and sx.c, the versions of running transactions in the
    concurrent indexes (sx_v.h) and the search for deadlocks (sx_deadlock.c).

    A concurrent index is a tree with a node per key that some running transaction wrote; the
    versions of one key form a doubly linked list in the order of arrival, the first of which
    is the tree's node and owns the key, the others wait. *)
From stdpp Require Import base list sets gmap.
From S2P Require Import Prelude SsRb SsRbSpec Sv SvLog Sr SvIndex.
Local Open Scope Z_scope.
Local Open Scope c_scope.

(** * State *)

Inductive sxstate := SXUNDEF | SXREADY | SXCOMMIT | SXPREPARE | SXROLLBACK | SXLOCK.
#[export] Instance sxstate_eq_dec : EqDecision sxstate.
Proof. solve_decision. Defined.

(** What a version in a log points to: a container ([sx_vif]) or, once the transaction has left
    the index, the version itself ([sv_vif]). *)
Inductive logref := LSx (x : loc) | LSv (v : loc).
Record sxv := mk_sxv { xv_id : Z; xv_lo : Z; xv_index : nat; xv_v : loc; xv_next : ptr; xv_prev : ptr }.
Record sx := mk_sx { t_id : Z; t_complete : bool; t_s : sxstate; t_vlsn : Z; t_log : svlog logref }.

(** Trees of transactions ([xs_mi]) and of the concurrent indexes by number, and the
    transactions, containers and versions in memory; a location is also the tree node in it. *)
Record sxst {St : Type} := mk_sxst {
  xs_mi : St; xs_count : Z; xs_seq : srseq; xs_tx : gmap loc sx;
  xs_idx : gmap nat St; xs_v : gmap loc sxv; xs_svv : gmap loc svv
}.
Arguments sxst : clear implicits.

Section sx.
Context {St : Type} `{TreeOps St}.
(** The comparison of the scheme of an index, and the number it has in the log. *)
Context (cmp : nat → bytes → bytes → Z) (dsn : nat → Z).
Abbreviation M := (cmd (sxst St)).

Definition set_mi m n (s : sxst St) := mk_sxst _ m n (xs_seq s) (xs_tx s) (xs_idx s) (xs_v s) (xs_svv s).
Definition set_seq q (s : sxst St) := mk_sxst _ (xs_mi s) (xs_count s) q (xs_tx s) (xs_idx s) (xs_v s) (xs_svv s).
Definition set_tx h (s : sxst St) := mk_sxst _ (xs_mi s) (xs_count s) (xs_seq s) h (xs_idx s) (xs_v s) (xs_svv s).
Definition set_idx h (s : sxst St) := mk_sxst _ (xs_mi s) (xs_count s) (xs_seq s) (xs_tx s) h (xs_v s) (xs_svv s).
Definition set_xv h (s : sxst St) := mk_sxst _ (xs_mi s) (xs_count s) (xs_seq s) (xs_tx s) (xs_idx s) h (xs_svv s).
Definition set_svv h (s : sxst St) := mk_sxst _ (xs_mi s) (xs_count s) (xs_seq s) (xs_tx s) (xs_idx s) (xs_v s) h.
Definition modify (f : sxst St → sxst St) : M () := λ s, Some ((), f s).

Definition rd_tx (t : loc) : M sx := cread (λ s, xs_tx s !! t).
Definition wr_tx (t : loc) (f : sx → sx) : M () := λ s,
  match xs_tx s !! t with Some v => Some ((), set_tx (<[t := f v]> (xs_tx s)) s) | None => None end.
Definition rd_x (x : loc) : M sxv := cread (λ s, xs_v s !! x).
Definition wr_x (x : loc) (f : sxv → sxv) : M () := λ s,
  match xs_v s !! x with Some v => Some ((), set_xv (<[x := f v]> (xs_v s)) s) | None => None end.
Definition rd_svv (v : loc) : M svv := cread (λ s, xs_svv s !! v).
Definition wr_svv (v : loc) (f : svv → svv) : M () := λ s,
  match xs_svv s !! v with Some w => Some ((), set_svv (<[v := f w]> (xs_svv s)) s) | None => None end.
(** Freeing memory: using it afterwards is a fault. *)
Definition free_x (x : loc) : M () := λ s,
  match xs_v s !! x with Some _ => Some ((), set_xv (delete x (xs_v s)) s) | None => None end.
Definition free_svv (v : loc) : M () := λ s,
  match xs_svv s !! v with Some _ => Some ((), set_svv (delete v (xs_svv s)) s) | None => None end.
Definition on_index {A} (i : nat) (m : cmd St A) : M A := λ s,
  match xs_idx s !! i with
  | Some t => match m t with Some (a, t') => Some (a, set_idx (<[i := t']> (xs_idx s)) s) | None => None end
  | None => None
  end.
Definition on_manager {A} (m : cmd St A) : M A := λ s,
  match m (xs_mi s) with Some (a, t') => Some (a, set_mi t' (xs_count s) s) | None => None end.
Definition on_seq (op : srseqop) : M Z := λ s,
  match sr_seq op (xs_seq s) with Some (v, q) => Some (v, set_seq q s) | None => None end.

Definition set_xnext (n : ptr) (v : sxv) : sxv := mk_sxv (xv_id v) (xv_lo v) (xv_index v) (xv_v v) n (xv_prev v).
Definition set_xprev (p : ptr) (v : sxv) : sxv := mk_sxv (xv_id v) (xv_lo v) (xv_index v) (xv_v v) (xv_next v) p.
Definition set_ts (st : sxstate) (t : sx) : sx := mk_sx (t_id t) (t_complete t) st (t_vlsn t) (t_log t).
Definition set_tlog (l : svlog logref) (t : sx) : sx := mk_sx (t_id t) (t_complete t) (t_s t) (t_vlsn t) l.
Definition set_abort (v : svv) : svv := mk_svv (v_lsn v) (v_size v) (Z.lor (v_flags v) SVABORT) (v_next v) (v_data v).

(** * Versions in the index: sx_v.h *)

(** A turn per container there is, and the last. *)
Definition xfuel (s : sxst St) : nat := S (size (xs_v s)).

(** [malloc] answers [x]; [None] is NULL. *)
Definition sx_valloc (x : ptr) (v : loc) : M ptr :=
  match x with
  | None => cret None
  | Some l => modify (λ s, set_xv (<[l := mk_sxv 0 0 0 v None None]> (xs_v s)) s);;; cret (Some l)
  end.
Definition sx_vfree (x : loc) : M () :=
  let! v := rd_x x in
  free_svv (xv_v v);;;
  free_x x.
Definition vmatch_turn (id : Z) (c : ptr) : M (ptr + ptr) :=
  match c with
  | None => cret (inr None)
  | Some x => let! v := rd_x x in cret (if Z.eqb (xv_id v) id then inr c else inl (xv_next v))
  end.
Definition sx_vmatch (head : loc) (id : Z) : M ptr := λ s, cloop (xfuel s) (vmatch_turn id) (Some head) s.
Definition when_ptr (p : ptr) (f : loc → M ()) : M () := match p with Some x => f x | None => cret () end.
Definition sx_vreplace (v n : loc) : M () :=
  let! vv := rd_x v in
  when_ptr (xv_prev vv) (λ p, wr_x p (set_xnext (Some n)));;;
  let! vv := rd_x v in
  when_ptr (xv_next vv) (λ p, wr_x p (set_xprev (Some n)));;;
  let! vv := rd_x v in
  wr_x n (set_xnext (xv_next vv));;;
  wr_x n (set_xprev (xv_prev vv)).
Definition vlink_turn (c : loc) : M (loc + loc) :=
  let! v := rd_x c in
  cret (match xv_next v with Some n => inl n | None => inr c end).
Definition sx_vlink (head v : loc) : M () :=
  let! c := (λ s, cloop (xfuel s) vlink_turn head s) in
  wr_x c (set_xnext (Some v));;;
  wr_x v (set_xprev (Some c));;;
  wr_x v (set_xnext None).
Definition sx_vunlink (v : loc) : M () :=
  let! vv := rd_x v in
  when_ptr (xv_prev vv) (λ p, wr_x p (set_xnext (xv_next vv)));;;
  let! vv := rd_x v in
  when_ptr (xv_next vv) (λ p, wr_x p (set_xprev (xv_prev vv)));;;
  wr_x v (set_xprev None);;;
  wr_x v (set_xnext None).
Definition vabort_turn (c : ptr) : M (ptr + ()) :=
  match c with
  | None => cret (inr ())
  | Some x => let! v := rd_x x in wr_svv (xv_v v) set_abort;;; cret (inl (xv_next v))
  end.
Definition sx_vabortwaiters (v : loc) : M () :=
  let! vv := rd_x v in
  λ s, cloop (xfuel s) vabort_turn (xv_next vv) s.

(** * The manager: sx.c *)

Definition sx_matchtx (id : Z) : M (Z * ptr) := λ s,
  on_manager (t_get (λ n, match xs_tx s !! n with Some t => ss_cmp (t_id t) id | None => 0 end)) s.
Definition sx_min : M Z :=
  let! s := cget in
  if c_true (xs_count s) then
    let! n := on_manager t_min in
    match n with Some n => let! t := rd_tx n in cret (t_id t) | None => cfail end
  else cret 0.
Definition sx_max : M Z :=
  let! s := cget in
  if c_true (xs_count s) then
    let! n := on_manager t_max in
    match n with Some n => let! t := rd_tx n in cret (t_id t) | None => cfail end
  else cret 0.
Definition sx_vlsn : M Z :=
  let! s := cget in
  if c_true (xs_count s) then
    let! n := on_manager t_min in
    match n with Some n => let! t := rd_tx n in cret (t_vlsn t) | None => cfail end
  else on_seq SR_LSN.
Definition sx_find (id : Z) : M ptr :=
  let! r := sx_matchtx id in
  cret (if Z.eqb r.1 0 then r.2 else None).

Definition sx_begin (t : loc) (vlsn : Z) : M sxstate :=
  wr_tx t (λ x, mk_sx (t_id x) false SXREADY (t_vlsn x) (t_log x));;;
  let! id := on_seq SR_TSNNEXT in
  let! lsn := (if Z.eqb vlsn 0 then on_seq SR_LSN else cret vlsn) in
  wr_tx t (λ x, mk_sx id (t_complete x) (t_s x) lsn (t_log x));;;
  wr_tx t (set_tlog sv_loginit);;;
  let! r := sx_matchtx id in
  (if Z.eqb r.1 0 && negb (is_null r.2) then cfail else on_manager (t_set r.2 r.1 t));;;
  modify (λ s, set_mi (xs_mi s) (u32 (xs_count s + 1)) s);;;
  cret SXREADY.

(** The log is read while its entries are translated: the entry at [k], [n] more to come. *)
Definition log_at (t : loc) (k : nat) : M (svlogv logref) :=
  let! x := rd_tx t in cread (λ _, l_buf (t_log x) !! k).
(** [(sxv* )lv->v.v]: a translated entry is no container. *)
Definition as_sxv (lv : svlogv logref) : M loc := match lv_v lv with LSx x => cret x | LSv _ => cfail end.
Definition log_size (t : loc) : M nat := let! x := rd_tx t in cret (length (l_buf (t_log x))).
Definition log_translate (t : loc) (k : nat) (x : loc) : M () :=
  let! v := rd_x x in
  let! lv := log_at t k in
  wr_tx t (λ y, set_tlog (mk_log (l_index (t_log y))
    (<[k := mk_logv (LSv (xv_v v)) (Some x) (lv_id lv) (lv_next lv)]> (l_buf (t_log y)))) y).

Definition sizeof_svv : Z := 54.
Fixpoint gc_commit_loop (n k : nat) (t : loc) : M () :=
  match n with
  | O => cret ()
  | S n =>
      let! lv := log_at t k in
      match lv_vgc lv with Some x => free_x x | None => cfail end;;;
      gc_commit_loop n (S k) t
  end.
Fixpoint gc_rollback_loop (n k : nat) (t : loc) (gc : Z) : M Z :=
  match n with
  | O => cret gc
  | S n =>
      let! lv := log_at t k in
      let! x := as_sxv lv in
      let! v := rd_x x in
      let! vv := rd_svv (xv_v v) in
      sx_vfree x;;;
      gc_rollback_loop n (S k) t (gc + (sizeof_svv + v_size vv))
  end.
(** Answers what is given back to the quota. *)
Definition sx_gc (t : loc) : M Z :=
  let! x := rd_tx t in
  let! n := log_size t in
  let! gc := (match t_s x with
              | SXCOMMIT => gc_commit_loop n 0 t;;; cret 0
              | SXROLLBACK => gc_rollback_loop n 0 t 0
              | _ => cret 0
              end) in
  wr_tx t (set_tlog (sv_logfree (t_log x)));;;
  wr_tx t (set_ts SXUNDEF);;;
  cret gc.

Definition sx_end (t : loc) : M () :=
  on_manager (t_remove t);;;
  modify (λ s, set_mi (xs_mi s) (u32 (xs_count s - 1)) s).

(** [prepare] is the callback of the caller, [None] for NULL; it is given the transaction and
    the version. *)
Fixpoint prepare_loop (n k : nat) (t : loc) (prepare : option (sx → svv → sxstate)) : M sxstate :=
  match n with
  | O => cret SXPREPARE
  | S n =>
      let! lv := log_at t k in
      let! x := as_sxv lv in
      let! v := rd_x x in
      let! vv := rd_svv (xv_v v) in
      if c_true (Z.land (v_flags vv) SVABORT) then cret SXROLLBACK
      else if negb (is_null (xv_prev v)) then cret SXLOCK
      else match prepare with
           | Some f =>
               let! y := rd_tx t in
               let s := f y vv in
               if decide (s = SXPREPARE) then prepare_loop n (S k) t prepare else cret s
           | None => prepare_loop n (S k) t prepare
           end
  end.
Definition sx_prepare (t : loc) (prepare : option (sx → svv → sxstate)) : M sxstate :=
  let! n := log_size t in
  let! s := prepare_loop n 0 t prepare in
  wr_tx t (set_ts s);;;
  cret s.

(** A version leaves the tree of its index: the first waiter takes its place, if there is one. *)
Definition leave_tree (x : loc) : M () :=
  let! v := rd_x x in
  match xv_next v with
  | None => on_index (xv_index v) (t_remove x)
  | Some n => on_index (xv_index v) (t_replace x n)
  end.
Fixpoint commit_loop (n k : nat) (t : loc) : M () :=
  match n with
  | O => cret ()
  | S n =>
      let! lv := log_at t k in
      let! x := as_sxv lv in
      sx_vabortwaiters x;;;
      leave_tree x;;;
      sx_vunlink x;;;
      log_translate t k x;;;
      commit_loop n (S k) t
  end.
Definition sx_commit (t : loc) : M sxstate :=
  let! x := rd_tx t in
  cassert (bool_decide (t_s x = SXPREPARE));;;
  (if t_complete x then cret () else let! n := log_size t in commit_loop n 0 t);;;
  wr_tx t (set_ts SXCOMMIT);;;
  sx_end t;;;
  cret SXCOMMIT.

Fixpoint rollback_loop (n k : nat) (t : loc) (translate : bool) : M () :=
  match n with
  | O => cret ()
  | S n =>
      let! lv := log_at t k in
      let! x := as_sxv lv in
      let! v := rd_x x in
      (if is_null (xv_prev v) then leave_tree x else cret ());;;
      sx_vunlink x;;;
      (if translate then log_translate t k x else cret ());;;
      rollback_loop n (S k) t translate
  end.
Definition sx_rollback_index (t : loc) (translate : bool) : M () :=
  let! n := log_size t in rollback_loop n 0 t translate.
Definition sx_rollback (t : loc) : M sxstate :=
  let! x := rd_tx t in
  (if t_complete x then cret () else sx_rollback_index t false);;;
  wr_tx t (set_ts SXROLLBACK);;;
  sx_end t;;;
  cret SXROLLBACK.
Definition sx_complete (t : loc) : M sxstate :=
  let! x := rd_tx t in
  cassert (negb (t_complete x));;;
  cassert (bool_decide (t_s x = SXPREPARE));;;
  sx_rollback_index t true;;;
  wr_tx t (λ y, mk_sx (t_id y) true (t_s y) (t_vlsn y) (t_log y));;;
  cret SXPREPARE.

Definition sx_match (i : nat) (key : bytes) : M (Z * ptr) := λ s,
  on_index i (t_get (λ n, match (v ← xs_v s !! n; xs_svv s !! xv_v v) with
                          | Some w => cmp i (v_data w) key
                          | None => 0
                          end)) s.

(** [x]: what the allocator answers for the container; [g1], [g2]: memory for the log. *)
Definition log_add (t : loc) (g1 g2 : bool) (lv : svlogv logref) (i : nat) : M Z :=
  let! y := rd_tx t in
  match sv_logadd g1 g2 lv i (t_log y) with
  | Some (rc, l) => wr_tx t (set_tlog l);;; cret rc
  | None => cfail
  end.
Definition sx_set (t : loc) (i : nat) (version : loc) (x : ptr) (g1 g2 : bool) : M Z :=
  let! r := sx_valloc x version in
  match r with
  | None => free_svv version;;; cret (-1)
  | Some v =>
      let! y := rd_tx t in
      let! vv := rd_svv version in
      wr_x v (λ w, mk_sxv (t_id y) (xv_lo w) i (xv_v w) (xv_next w) (xv_prev w));;;
      let lv := mk_logv (LSx v) None (dsn i) UINT32_MAX in
      let! m := sx_match i (v_data vv) in
      match m with
      | (0, Some head) =>
          let! own := sx_vmatch head (t_id y) in
          match own with
          | Some own =>
              if c_true (Z.land (v_flags vv) SVUPDATE) then sx_vfree v;;; cret (-1) else
              let! ov := rd_x own in
              let! old := cread (λ _, sv_logat (xv_lo ov) (t_log y)) in
              let lv := mk_logv (LSx v) None (dsn i) (lv_next old) in
              wr_x v (λ w, mk_sxv (xv_id w) (xv_lo ov) (xv_index w) (xv_v w) (xv_next w) (xv_prev w));;;
              sx_vreplace own v;;;
              cwhen (bool_decide (head = own)) (on_index i (t_replace own v));;;
              let! l := cread (λ _, snd <$> sv_logreplace (xv_lo ov) lv (t_log y)) in
              wr_tx t (set_tlog l);;;
              sx_vfree own;;;
              cret 0
          | None =>
              let! rc := log_add t g1 g2 lv i in
              if Z.eqb rc (-1) then sx_vfree v;;; cret (-1) else
              sx_vlink head v;;;
              cret 0
          end
      | (rc, n) =>
          wr_x v (λ w, mk_sxv (xv_id w) (sv_logcount (t_log y)) (xv_index w) (xv_v w) (xv_next w) (xv_prev w));;;
          let! rc' := log_add t g1 g2 lv i in
          if Z.eqb rc' (-1) then cret (-1) else
          on_index i (t_set n rc v);;;
          cret 0
      end
  end.

(** The result is a copy of the version. *)
Definition sx_get (t : loc) (i : nat) (key : bytes) (g : bool) : M (Z * option sv) :=
  let! m := sx_match i key in
  match m with
  | (0, Some head) =>
      let! y := rd_tx t in
      let! v := sx_vmatch head (t_id y) in
      match v with
      | None => cret (0, None)
      | Some v =>
          let! xv := rd_x v in
          let! vv := rd_svv (xv_v xv) in
          if Z.gtb (Z.land (v_flags vv) SVDELETE) 0 then cret (2, None)
          else if g then cret (1, Some (svv_sv vv)) else cret (-1, None)
      end
  | _ => cret (0, None)
  end.
Definition sx_setstmt (i : nat) (key : bytes) : M sxstate :=
  let! _ := on_seq SR_TSNNEXT in
  let! m := sx_match i key in
  cret (match m with (0, Some _) => SXLOCK | _ => SXCOMMIT end).
Definition sx_getstmt : M sxstate := let! _ := on_seq SR_TSNNEXT in cret SXCOMMIT.

(** * Deadlocks: sx_deadlock.c

    [mark] is the list of the transactions seen, through their [deadlock] links. *)
Section deadlock.
Context (t : loc) (rec : list loc → loc → M (bool * list loc)).
(** The transactions at and before a version in its queue. *)
Fixpoint deadlock_chain (n : nat) (v : loc) (mark : list loc) : M (bool * list loc) :=
  match n with
  | O => cfail
  | S n =>
      let! xv := rd_x v in
      let! o := sx_find (xv_id xv) in
      match o with
      | None => cfail
      | Some o =>
          if decide (o = t) then cret (true, mark) else
          let! r := rec mark o in
          if r.1 : bool then cret r else
          match xv_prev xv with
          | Some p => deadlock_chain n p r.2
          | None => cret (false, r.2)
          end
      end
  end.
Fixpoint deadlock_log (es : list (svlogv logref)) (mark : list loc) : M (bool * list loc) :=
  match es with
  | [] => cret (false, mark)
  | lv :: es =>
      let! x := as_sxv lv in
      let! v := rd_x x in
      if is_null (xv_prev v) then deadlock_log es mark else
      let! r := (λ s, deadlock_chain (xfuel s) x mark s) in
      if r.1 : bool then cret r else deadlock_log es r.2
  end.
End deadlock.
Fixpoint sx_deadlock_in (fuel : nat) (t : loc) (mark : list loc) (p : loc) : M (bool * list loc) :=
  match fuel with
  | O => cfail
  | S fuel =>
      if decide (p ∈ mark) then cret (false, mark) else
      let! x := rd_tx p in
      deadlock_log t (sx_deadlock_in fuel t) (l_buf (t_log x)) (mark ++ [p])
  end.
(** A call marks a transaction, so the calls nest no deeper than there are transactions. *)
Fixpoint deadlock_start (es : list (svlogv logref)) (t : loc) (mark : list loc) : M bool :=
  match es with
  | [] => cret false
  | lv :: es =>
      let! x := as_sxv lv in
      let! v := rd_x x in
      match xv_prev v with
      | None => deadlock_start es t mark
      | Some pv =>
          let! pvv := rd_x pv in
          let! p := sx_find (xv_id pvv) in
          match p with
          | None => cfail
          | Some p =>
              let! r := (λ s, sx_deadlock_in (S (size (xs_tx s))) t mark p s) in
              if r.1 : bool then cret true else deadlock_start es t r.2
          end
      end
  end.
Definition sx_deadlock (t : loc) : M bool :=
  let! x := rd_tx t in deadlock_start (l_buf (t_log x)) t [].
End sx.
