(* ===== verification/SxDeadlock.v ===== *)
(** The search for deadlocks decides exactly whether the transaction waits for itself. *)
From stdpp Require Import base list sets gmap sorting relations.
From S2P Require Import Prelude SsRb SsRbInsert SsRbSpec Sv SvLog Sr SvIndex Sx.
Local Open Scope Z_scope.
Local Open Scope c_scope.

Section deadlock_ok.
Context {St : Type} `{!TreeOps St, !TreeLaws St}.
Abbreviation state := (sxst St).

(** * The graph *)

(** The containers before one in its queue, from its [prev] link on. *)
Fixpoint prevs (s : state) (p : ptr) (l : list loc) : Prop :=
  match l with
  | [] => p = None
  | y :: l => p = Some y ∧ ∃ v, xs_v s !! y = Some v ∧ prevs s (xv_prev v) l
  end.
Definition in_log (s : state) (o x : loc) : Prop :=
  ∃ y lv, xs_tx s !! o = Some y ∧ lv ∈ l_buf (t_log y) ∧ lv_v lv = LSx x.
(** [o] wrote a key that [q] wrote before it and has not given up. *)
Definition waits (L : list loc) (s : state) (o q : loc) : Prop :=
  o ∈ L ∧ q ∈ L ∧ ∃ x v l y, in_log s o x ∧ xs_v s !! x = Some v ∧ prevs s (xv_prev v) l ∧ y ∈ l ∧ in_log s q y.

Definition tx_id (s : state) (o : loc) : Z := match xs_tx s !! o with Some y => t_id y | None => 0 end.
(** [L]: the active transactions.  Those that wait or are waited for are in the manager, their
    logs hold their own containers, and queues end. *)
Record dl_ok (s : state) (L : list loc) : Prop := mk_dl_ok {
  dl_seq : t_seq (xs_mi s) L;
  dl_sorted : StronglySorted (λ a b, tx_id s a < tx_id s b) L;
  dl_tx : ∀ o, o ∈ L → is_Some (xs_tx s !! o);
  dl_log : ∀ o x, in_log s o x → o ∈ L → ∃ v l, xs_v s !! x = Some v ∧ xv_id v = tx_id s o ∧
    prevs s (xv_prev v) l ∧ (length l < size (xs_v s))%nat ∧ ∀ y, y ∈ l → ∃ q, q ∈ L ∧ in_log s q y;
  (** no transaction is in a queue twice *)
  dl_once : ∀ o, ¬ waits L s o o
}.
(** Nothing of the log was translated yet. *)
Definition untranslated (s : state) (o : loc) : Prop :=
  ∀ y lv, xs_tx s !! o = Some y → lv ∈ l_buf (t_log y) → ∃ x, lv_v lv = LSx x.

Context (s : state) (L : list loc) (Hok : dl_ok s L).

Lemma sorted_cut o : o ∈ L → ∃ l1 l2, L = l1 ++ o :: l2 ∧
  cut (λ n, match xs_tx s !! n with Some y => ss_cmp (t_id y) (tx_id s o) | None => 0 end) (l1 ++ o :: l2) l1 [o] l2.
Proof.
  intros [l1 [l2 E]]%list_elem_of_split. exists l1, l2. split; [done|].
  pose proof (dl_sorted _ _ Hok) as Hs. pose proof (dl_tx _ _ Hok) as Ht. rewrite E in Hs, Ht.
  apply StronglySorted_app in Hs as (Hx & _ & H2). apply StronglySorted_inv in H2 as [_ H2].
  assert (∀ n, n ∈ l1 ++ o :: l2 → match xs_tx s !! n with Some y => ss_cmp (t_id y) (tx_id s o) | None => 0 end =
    ss_cmp (tx_id s n) (tx_id s o)) as Hm.
  { intros n Hn. unfold tx_id at 2. by destruct (Ht n Hn) as [y ->]. }
  rewrite Forall_forall in H2. split; [done| | |].
  - intros x Hx1. rewrite Hm by set_solver. assert (tx_id s x < tx_id s o) by (apply Hx; set_solver).
    unfold ss_cmp. destruct (Z.eqb_spec (tx_id s x) (tx_id s o)); [lia|]. destruct (Z.gtb_spec (tx_id s x) (tx_id s o)); lia.
  - intros x ->%list_elem_of_singleton. rewrite Hm by set_solver. unfold ss_cmp. by rewrite Z.eqb_refl.
  - intros x Hx1. rewrite Hm by set_solver. assert (tx_id s o < tx_id s x) by (apply H2; set_solver).
    unfold ss_cmp. destruct (Z.eqb_spec (tx_id s x) (tx_id s o)); [lia|]. destruct (Z.gtb_spec (tx_id s x) (tx_id s o)); lia.
Qed.
Lemma find_ok o : o ∈ L → sx_find (tx_id s o) s = Some (Some o, s).
Proof.
  intros Ho. destruct (sorted_cut o Ho) as (l1 & l2 & E & Hcut). unfold sx_find, cbind, sx_matchtx, on_manager.
  pose proof (dl_seq _ _ Hok) as Hseq. rewrite E in Hseq.
  rewrite (t_get_hit _ _ l1 o l2 Hseq Hcut). simpl. by destruct s.
Qed.
(** The owner of a container in a queue is found by its number. *)
Lemma find_owner q y v : q ∈ L → in_log s q y → xs_v s !! y = Some v → sx_find (xv_id v) s = Some (Some q, s).
Proof.
  intros Hq Hy Hv. destruct (dl_log _ _ Hok q y Hy Hq) as (w & _ & Ew & Eid & _). simplify_eq. rewrite Eid. by apply find_ok.
Qed.

Lemma prevs_fun p l l' : prevs s p l → prevs s p l' → l = l'.
Proof.
  revert p l'. induction l as [|y l IH]; intros p [|y' l'] H1 H2; simpl in *.
  - done.
  - destruct H2 as [-> _]. done.
  - destruct H1 as [-> _]. done.
  - destruct H1 as (-> & v1 & E1 & H1), H2 as (E & v2 & E2 & H2). simplify_eq. f_equal. by eapply IH.
Qed.

(** * The depth-first search *)

Section visit.
Context (t : loc) (rec : list loc → loc → cmd state (bool * list loc)).
(** What a visit of [p] with the transactions [mark] seen leads to: the search stops at [t], or
    everything it saw has been followed. *)
Definition closed (mark : list loc) (q : loc) : Prop := ∀ r, waits L s q r → r ∈ mark ∧ r ≠ t.
Definition seen (mark : list loc) : Prop := NoDup mark ∧ ∀ q, q ∈ mark → q ∈ L.
Definition visited (mark mark' : list loc) : Prop :=
  seen mark' ∧ (length mark <= length mark')%nat ∧ (∀ q, q ∈ mark → q ∈ mark') ∧
  (∀ q, q ∈ mark' → q ∈ mark ∨ closed mark' q).
Definition visits (n : nat) : Prop := ∀ mark p, seen mark → p ∈ L → p ≠ t → (∃ x, in_log s p x) →
  (length L < n + length mark)%nat → ∃ b mark', rec mark p s = Some ((b, mark'), s) ∧
    if b : bool then tc (waits L s) p t else visited mark mark' ∧ p ∈ mark'.

Lemma closed_mono m m' q : (∀ r, r ∈ m → r ∈ m') → closed m q → closed m' q.
Proof. intros Hm Hc r Hr. destruct (Hc r Hr). auto. Qed.
Lemma visited_refl m : seen m → visited m m.
Proof. intros Hs. split_and!; auto. Qed.
Lemma visited_trans m1 m2 m3 : visited m1 m2 → visited m2 m3 → visited m1 m3.
Proof.
  intros (H1 & H2 & H3 & H4) (K1 & K2 & K3 & K4). split_and!; [done|lia|auto|].
  intros q [Hq|Hq]%K4; [|auto]. destruct (H4 q Hq); [auto|]. right. by eapply closed_mono.
Qed.

(** The queue of one version of [p], from the version itself on. *)
Lemma chain_visits n p l : visits n → ∀ k mark x v, seen mark → (length L < n + length mark)%nat →
  xs_v s !! x = Some v → prevs s (xv_prev v) l → (length l < k)%nat →
  (∀ z, z ∈ x :: l → ∃ q, q ∈ L ∧ in_log s q z ∧ (q = p ∧ q ≠ t ∨ waits L s p q)) →
  ∃ b mark', deadlock_chain t rec k x mark s = Some ((b, mark'), s) ∧
    if b : bool then tc (waits L s) p t
    else visited mark mark' ∧ ∀ z q, z ∈ x :: l → q ∈ L → in_log s q z → q ∈ mark' ∧ q ≠ t.
Proof.
  intros Hrec. induction l as [|z l IH]; intros [|k] mark x v Hseen Hn Hv Hprev Hk Hown; cbn [length] in Hk; try lia.
  all: destruct (Hown x) as (q & Hq & Hql & Hpq); [constructor|].
  all: cbn [deadlock_chain]; unfold cbind at 1, rd_x at 1, cread at 1; rewrite Hv; unfold cbind at 1; rewrite (find_owner q x v Hq Hql Hv).
  all: assert (∀ r, r ∈ L → in_log s r x → r = q) as Huniq
    by (intros r Hr Hrl; pose proof (find_owner r x v Hr Hrl Hv) as E1; rewrite (find_owner q x v Hq Hql Hv) in E1; congruence).
  all: case_decide as Hqt; [subst q; exists true, mark; split; [done|]; destruct Hpq as [[_ ?]|Hw]; [done|by apply tc_once]|].
  all: destruct (Hrec mark q Hseen Hq Hqt (ex_intro _ x Hql) Hn) as (b & m1 & E & Hb); unfold cbind at 1; rewrite E; cbn [fst snd].
  all: destruct b; [exists true, m1; split; [done|]; destruct Hpq as [[-> _]|Hw]; [done|by eapply tc_l]|].
  all: destruct Hb as [Hvis Hqm].
  - simpl in Hprev. rewrite Hprev. exists false, m1. split; [done|]. split; [done|].
    intros z r ->%list_elem_of_singleton Hr Hrl. rewrite (Huniq r Hr Hrl). auto.
  - destruct Hprev as (-> & w & Hw & Hprev). destruct (IH k m1 z w) as (b & m2 & E2 & Hb); [apply Hvis|destruct Hvis; lia|done|done|lia|intros y Hy; apply Hown; by constructor|].
    rewrite E2. exists b, m2. split; [done|]. destruct b; [done|]. destruct Hb as [Hvis2 Hz].
    split; [by eapply visited_trans|]. intros y r Hy Hr Hrl. apply elem_of_cons in Hy as [->|Hy]; [|by apply (Hz y)].
    rewrite (Huniq r Hr Hrl). split; [|done]. by apply Hvis2.
Qed.

(** The versions of [p], whose log is [es] and more. *)
Lemma log_visits n p es : visits n → p ∈ L → p ≠ t → (∀ lv, lv ∈ es → ∃ x, lv_v lv = LSx x ∧ in_log s p x) →
  ∀ mark, seen mark → (length L < n + length mark)%nat → p ∈ mark →
  ∃ b mark', deadlock_log t rec es mark s = Some ((b, mark'), s) ∧
    if b : bool then tc (waits L s) p t
    else visited mark mark' ∧ ∀ lv x v l z q, lv ∈ es → lv_v lv = LSx x → xs_v s !! x = Some v →
      prevs s (xv_prev v) l → z ∈ l → q ∈ L → in_log s q z → q ∈ mark' ∧ q ≠ t.
Proof.
  intros Hrec Hp Hpt. induction es as [|lv es IH]; intros Hes mark Hseen Hn Hpm.
  { exists false, mark. split; [done|]. split; [by apply visited_refl|]. intros * Hin. by apply not_elem_of_nil in Hin. }
  destruct (Hes lv) as (x & Ex & Hx); [constructor|]. destruct (dl_log _ _ Hok p x Hx Hp) as (v & l & Hv & Hid & Hprev & Hl & Hown).
  cbn [deadlock_log]. unfold cbind at 1, as_sxv. rewrite Ex. unfold cret at 1. unfold cbind at 1, rd_x at 1, cread at 1. rewrite Hv.
  assert (∀ lv, lv ∈ es → ∃ x, lv_v lv = LSx x ∧ in_log s p x) as Hes' by (intros w Hw; apply Hes; by constructor).
  destruct (xv_prev v) as [pv|] eqn:Epv; cbn [is_null].
  - destruct (chain_visits n p l Hrec (xfuel s) mark x v Hseen Hn Hv) as (b & m1 & E & Hb); [by rewrite Epv|unfold xfuel; lia| |].
    { intros z Hz. apply elem_of_cons in Hz as [->|Hz]; [by exists p; auto|]. destruct (Hown z Hz) as (q & Hq & Hqz).
      exists q. split_and!; [done|done|]. right. split_and!; [done|done|]. exists x, v, l, z. rewrite Epv. split_and!; done. }
    unfold cbind at 1. rewrite E. cbn [fst snd]. destruct b; [by exists true, m1|]. destruct Hb as [Hvis Hz].
    destruct (IH Hes' m1) as (b & m2 & E2 & Hb2); [apply Hvis|destruct Hvis; lia|by apply Hvis|].
    rewrite E2. exists b, m2. split; [done|]. destruct b; [done|]. destruct Hb2 as [Hvis2 Hr].
    split; [by eapply visited_trans|]. intros lv' x' v' l' z q Hlv' Ex' Hv' Hp' Hzl Hq Hqz.
    apply elem_of_cons in Hlv' as [->|Hlv']; [|by apply (Hr lv' x' v' l' z q)].
    assert (x' = x) as -> by congruence. assert (v' = v) as -> by congruence. rewrite Epv in Hp'.
    rewrite (prevs_fun _ _ _ Hp' Hprev) in Hzl. destruct (Hz z q) as [Hqm Hqt]; [by constructor|done|done|]. split; [|done]. by apply Hvis2.
  - destruct (IH Hes' mark Hseen Hn Hpm) as (b & m2 & E2 & Hb2). rewrite E2. exists b, m2. split; [done|]. destruct b; [done|].
    destruct Hb2 as [Hvis2 Hr]. split; [done|]. intros lv' x' v' l' z q Hlv' Ex' Hv' Hp' Hzl Hq Hqz.
    apply elem_of_cons in Hlv' as [->|Hlv']; [|by apply (Hr lv' x' v' l' z q)].
    assert (x' = x) as -> by congruence. assert (v' = v) as -> by congruence. rewrite Epv in Hp'.
    destruct l'; [|by destruct Hp']. by apply not_elem_of_nil in Hzl.
Qed.
End visit.

(** The running transactions have untranslated logs. *)
Context (Hun : ∀ o, o ∈ L → (∃ x, in_log s o x) → untranslated s o).

Lemma in_visits t n : t ∈ L → visits t (sx_deadlock_in n t) n.
Proof.
  intros Ht. induction n as [|n IH]; intros mark p Hseen Hp Hpt Hpx Hn.
  { destruct Hseen as [Hnd Hin]. assert (length mark <= length L)%nat; [|lia]. apply submseteq_length, NoDup_submseteq; done. }
  cbn [sx_deadlock_in]. case_decide as Hpm; [exists false, mark; split; [done|]; split; [by apply visited_refl|done]|].
  destruct (dl_tx _ _ Hok p Hp) as [y Hy]. unfold cbind, rd_tx, cread. rewrite Hy.
  assert (seen (mark ++ [p])) as Hseen'.
  { destruct Hseen as [Hnd Hin]. split; [|set_solver]. apply NoDup_app. split_and!; [done|set_solver|apply NoDup_singleton]. }
  destruct (log_visits t (sx_deadlock_in n t) n p (l_buf (t_log y)) IH Hp Hpt) with (mark := mark ++ [p]) as (b & m & E & Hb).
  - intros lv Hlv. destruct (Hun p Hp) with y lv as [x Hx]; [|done|done|by exists x; split; [|by exists y, lv]].
    done.
  - done.
  - rewrite length_app. cbn. lia.
  - set_solver.
  - rewrite E. exists b, m. split; [done|]. destruct b; [done|]. destruct Hb as [(H1 & H2 & H3 & H4) Hr].
    split; [|apply H3; set_solver]. rewrite length_app in H2. split_and!; [done|lia|set_solver|].
    intros q [Hq|Hq]%H4; [|auto]. apply elem_of_app in Hq as [Hq| ->%list_elem_of_singleton]; [auto|]. right.
    intros r (_ & Hrl & x & v & l & z & Hx & Hv & Hprev & Hz & Hrz). destruct Hx as (y' & lv & Hy' & Hlv & Ex). simplify_eq.
    by apply (Hr lv x v l z r).
Qed.

Lemma active_count : (length L <= size (xs_tx s))%nat.
Proof.
  assert (NoDup L) as Hnd by (eapply t_seq_NoDup; exact (dl_seq _ _ Hok)).
  rewrite <- (size_list_to_set (C := gset loc)), <- (size_dom (D := gset loc)) by done.
  apply subseteq_size. intros o Ho%elem_of_list_to_set. apply elem_of_dom. by apply (dl_tx _ _ Hok).
Qed.

(** What the search from the log of [t] sees is closed, and holds the owner before each version. *)
Lemma start_visits t es : t ∈ L → (∀ lv, lv ∈ es → ∃ x, lv_v lv = LSx x ∧ in_log s t x) →
  ∀ mark, seen mark → (∀ q, q ∈ mark → closed t mark q) →
  ∃ b, deadlock_start es t mark s = Some (b, s) ∧
    if b : bool then tc (waits L s) t t
    else ∃ mark', (∀ q, q ∈ mark' → closed t mark' q) ∧ (∀ q, q ∈ mark → q ∈ mark') ∧
      ∀ lv x v y, lv ∈ es → lv_v lv = LSx x → xs_v s !! x = Some v → xv_prev v = Some y →
        ∃ p, p ∈ L ∧ in_log s p y ∧ p ∈ mark'.
Proof.
  intros Ht. induction es as [|lv es IH]; intros Hes mark Hseen Hcl.
  { exists false. split; [done|]. exists mark. split_and!; [done|done|]. intros * Hin. by apply not_elem_of_nil in Hin. }
  destruct (Hes lv) as (x & Ex & Hx); [constructor|]. destruct (dl_log _ _ Hok t x Hx Ht) as (v & l & Hv & Hid & Hprev & Hl & Hown).
  assert (∀ lv, lv ∈ es → ∃ x, lv_v lv = LSx x ∧ in_log s t x) as Hes' by (intros w Hw; apply Hes; by constructor).
  cbn [deadlock_start]. unfold cbind at 1, as_sxv. rewrite Ex. unfold cret at 1. unfold cbind at 1, rd_x at 1, cread at 1. rewrite Hv.
  destruct (xv_prev v) as [pv|] eqn:Epv.
  - destruct l as [|pv' l]; [done|]. destruct Hprev as ([= <-] & w & Hw & Hprev).
    destruct (Hown pv) as (p & Hp & Hpy); [constructor|].
    assert (waits L s t p) as Htp.
    { split_and!; [done|done|]. exists x, v, (pv :: l), pv. rewrite Epv. split_and!; try done; [|constructor]. cbn. eauto. }
    assert (p ≠ t) as Hpt by (intros ->; by apply (dl_once _ _ Hok t)).
    unfold cbind at 1, rd_x at 1, cread at 1. rewrite Hw. unfold cbind at 1. rewrite (find_owner p pv w Hp Hpy Hw).
    destruct (in_visits t (S (size (xs_tx s))) Ht mark p Hseen Hp Hpt (ex_intro _ pv Hpy)) as (b & m1 & E & Hb).
    { pose proof active_count. lia. }
    unfold cbind. rewrite E. cbn [fst snd]. destruct b; [exists true; split; [done|]; by eapply tc_l|].
    destruct Hb as [(H1 & _ & H3 & H4) Hpm]. destruct (IH Hes' m1 H1) as (b & E2 & Hb2).
    { intros q [Hq|Hq]%H4; [|done]. eapply closed_mono; [exact H3|]. by apply Hcl. }
    rewrite E2. exists b. split; [done|]. destruct b; [done|]. destruct Hb2 as (m2 & Hc2 & Hm2 & Hr). exists m2.
    split_and!; [done|auto|]. intros lv' x' v' y Hlv' Ex' Hv' Hy. apply elem_of_cons in Hlv' as [->|Hlv']; [|by apply (Hr lv' x' v' y)].
    assert (x' = x) as -> by congruence. assert (v' = v) as -> by congruence. assert (y = pv) as -> by congruence. exists p. auto.
  - destruct (IH Hes' mark Hseen Hcl) as (b & E2 & Hb2). rewrite E2. exists b. split; [done|]. destruct b; [done|].
    destruct Hb2 as (m2 & Hc2 & Hm2 & Hr). exists m2. split_and!; [done|done|]. intros lv' x' v' y Hlv' Ex' Hv' Hy.
    apply elem_of_cons in Hlv' as [->|Hlv']; [|by apply (Hr lv' x' v' y)].
    assert (x' = x) as -> by congruence. assert (v' = v) as -> by congruence. congruence.
Qed.

Lemma closed_path t mark p q : (∀ q, q ∈ mark → closed t mark q) → p ∈ mark → tc (waits L s) p q → q ≠ t.
Proof.
  intros Hc Hp Hw. induction Hw as [p q Hw|p r q Hw Hrq IH]; [by apply (Hc p Hp)|]. apply IH. by apply (Hc p Hp).
Qed.

Lemma deadlock_ok t : t ∈ L → untranslated s t →
  ∃ b, sx_deadlock t s = Some (b, s) ∧ (b = true ↔ tc (waits L s) t t).
Proof.
  intros Ht Hunt. destruct (dl_tx _ _ Hok t Ht) as [y Hy]. unfold sx_deadlock, cbind, rd_tx, cread. rewrite Hy.
  destruct (start_visits t (l_buf (t_log y)) Ht) with (mark := @nil loc) as (b & E & Hb).
  - intros lv Hlv. destruct (Hunt y lv Hy Hlv) as [x Hx]. exists x. split; [done|]. by exists y, lv.
  - split; [constructor|]. intros q Hq. by apply not_elem_of_nil in Hq.
  - intros q Hq. by apply not_elem_of_nil in Hq.
  - rewrite E. exists b. split; [done|]. destruct b; [done|]. split; [done|]. intros Hcyc. exfalso.
    destruct Hb as (mark & Hcl & _ & Hr).
    assert (∃ q, waits L s t q ∧ tc (waits L s) q t) as (q & Htq & Hqt).
    { inversion Hcyc as [? ? Hw|? q ? Hw Hq]; subst; [by destruct (dl_once _ _ Hok t)|eauto]. }
    destruct Htq as (_ & Hq & x & v & l & z & Hx & Hv & Hprev & Hz & Hqz).
    destruct l as [|y0 l]; [by apply not_elem_of_nil in Hz|]. destruct Hprev as (Epv & w & Hw & Hprev).
    destruct Hx as (y' & lv & Hy' & Hlv & Ex). assert (y' = y) as -> by congruence.
    destruct (Hr lv x v y0 Hlv Ex Hv Epv) as (p & Hp & Hpy & Hpm).
    assert (tc (waits L s) p t) as Hpt; [|by apply (closed_path t mark p t Hcl Hpm Hpt)].
    apply elem_of_cons in Hz as [->|Hz].
    + assert (p = q) as ->; [|done]. pose proof (find_owner p y0 w Hp Hpy Hw). pose proof (find_owner q y0 w Hq Hqz Hw). congruence.
    + eapply tc_l; [|exact Hqt]. split_and!; [done|done|]. by exists y0, w, l, z.
Qed.
End deadlock_ok.

(** * Theorem *)

(** C13: the search for a deadlock terminates and answers yes exactly when the transaction
    waits for itself: when there is a cycle through it of transactions that each wrote a key
    another one wrote before. *)
Theorem sx_deadlock_decides {St} `{!TreeOps St, !TreeLaws St} (s : sxst St) L t :
  dl_ok s L → (∀ o, o ∈ L → (∃ x, in_log s o x) → untranslated s o) → t ∈ L → untranslated s t →
  ∃ b, sx_deadlock t s = Some (b, s) ∧ (b = true ↔ tc (waits L s) t t).
Proof. intros Hok Hun Ht Hunt. by apply (deadlock_ok s L Hok Hun). Qed.

(** ** Witness: two transactions that each wait for a key of the other *)
Definition demo_tx (id : Z) (a b : loc) : sx :=
  mk_sx id false SXREADY 5 (mk_log [mk_logindex 7 0 1 2 0] [mk_logv (LSx a) None 7 1; mk_logv (LSx b) None 7 UINT32_MAX]).
Definition demo_dl : sxst ssrb :=
  mk_sxst _ (mk_rb (Some 1%positive) (list_to_map [(1%positive, mk_rbnode None None (Some 2%positive) 0); (2%positive, mk_rbnode (Some 1%positive) None None 1)]))
    2 sr_seqinit (list_to_map [(1%positive, demo_tx 1 11 13); (2%positive, demo_tx 2 12 14)]) ∅
    (list_to_map [(11%positive, mk_sxv 1 0 0 21 (Some 14%positive) None); (14%positive, mk_sxv 2 0 0 24 None (Some 11%positive));
                  (12%positive, mk_sxv 2 0 0 22 (Some 13%positive) None); (13%positive, mk_sxv 1 0 0 23 None (Some 12%positive))]) ∅.
Lemma demo_in_log o x : in_log demo_dl o x ↔ (o, x) ∈ [(1, 11); (1, 13); (2, 12); (2, 14)]%positive.
Proof.
  split.
  - intros (y & lv & Hy & Hlv & Ex). unfold demo_dl in Hy. cbn [xs_tx list_to_map foldr fst snd] in Hy.
    destruct (decide (o = 1%positive)) as [->|N1]; [|destruct (decide (o = 2%positive)) as [->|N2]];
      [vm_compute in Hy; simplify_eq..|rewrite !lookup_insert_ne in Hy by done; done];
      cbn in Hlv; apply elem_of_cons in Hlv as [->|Hlv%list_elem_of_singleton]; subst; cbn in Ex; simplify_eq; set_solver.
  - intros Hin. repeat (apply elem_of_cons in Hin as [[= -> ->]|Hin]); [..|by apply not_elem_of_nil in Hin].
    + exists (demo_tx 1 11 13), (mk_logv (LSx 11) None 7 1). split_and!; [done|constructor|done].
    + exists (demo_tx 1 11 13), (mk_logv (LSx 13) None 7 UINT32_MAX). split_and!; [done|by do 2 constructor|done].
    + exists (demo_tx 2 12 14), (mk_logv (LSx 12) None 7 1). split_and!; [done|constructor|done].
    + exists (demo_tx 2 12 14), (mk_logv (LSx 14) None 7 UINT32_MAX). split_and!; [done|by do 2 constructor|done].
Qed.
Lemma demo_prevs o x v l y : in_log demo_dl o x → xs_v demo_dl !! x = Some v → prevs demo_dl (xv_prev v) l → y ∈ l →
  (x, y) ∈ [(14, 11); (13, 12)]%positive.
Proof.
  intros Hin%demo_in_log Hv Hl Hy. repeat (apply elem_of_cons in Hin as [[= -> ->]|Hin]); [..|by apply not_elem_of_nil in Hin];
    vm_compute in Hv; simplify_eq; cbn [xv_prev] in Hl; (destruct l as [|a l]; [by apply not_elem_of_nil in Hy|]);
    destruct Hl as ([= <-] & w & Hw & Hl); vm_compute in Hw; simplify_eq; cbn [xv_prev] in Hl;
    (destruct l; [|by destruct Hl as [[=] _]]); apply list_elem_of_singleton in Hy as ->; set_solver.
Qed.
Lemma demo_dl_ok : dl_ok demo_dl [1%positive; 2%positive].
Proof.
  split.
  - exists (SsRbProofs.T SsRbProofs.Black SsRbProofs.E 1%positive (SsRbProofs.T SsRbProofs.Red SsRbProofs.E 2%positive SsRbProofs.E)), 1%nat.
    split_and!; [|repeat econstructor|done]. split; [done|by vm_compute|done| |done].
    intros x. simpl. unfold SsRbProofs.one. repeat case_decide; subst; (lia || done).
  - repeat constructor.
  - intros o Ho. apply elem_of_cons in Ho as [->|Ho%list_elem_of_singleton]; [|subst o]; vm_compute; eauto.
  - intros o x Hin Ho. apply demo_in_log in Hin. repeat (apply elem_of_cons in Hin as [[= -> ->]|Hin]); [..|by apply not_elem_of_nil in Hin].
    + exists (mk_sxv 1 0 0 21 (Some 14%positive) None), []. split_and!; [done|done|done|vm_compute; lia|set_solver].
    + exists (mk_sxv 1 0 0 23 None (Some 12%positive)), [12%positive]. split_and!; [done|done| |vm_compute; lia|].
      { cbn. split; [done|]. eexists. split; [vm_compute; reflexivity|done]. }
      intros y ->%list_elem_of_singleton. exists 2%positive. split; [set_solver|]. apply demo_in_log. set_solver.
    + exists (mk_sxv 2 0 0 22 (Some 13%positive) None), []. split_and!; [done|done|done|vm_compute; lia|set_solver].
    + exists (mk_sxv 2 0 0 24 None (Some 11%positive)), [11%positive]. split_and!; [done|done| |vm_compute; lia|].
      { cbn. split; [done|]. eexists. split; [vm_compute; reflexivity|done]. }
      intros y ->%list_elem_of_singleton. exists 1%positive. split; [set_solver|]. apply demo_in_log. set_solver.
  - intros o (_ & _ & x & v & l & y & Hx & Hv & Hl & Hy & Hoy). pose proof (demo_prevs _ _ _ _ _ Hx Hv Hl Hy) as Hp.
    apply demo_in_log in Hx, Hoy. set_solver.
Qed.
Lemma sx_deadlock_decides_witness : ∃ b, sx_deadlock 1%positive demo_dl = Some (b, demo_dl) ∧
  (b = true ↔ tc (waits [1%positive; 2%positive] demo_dl) 1%positive 1%positive).
Proof.
  apply (sx_deadlock_decides demo_dl [1%positive; 2%positive] 1%positive).
  - exact demo_dl_ok.
  - intros o Ho _ y lv Hy Hlv. apply elem_of_cons in Ho as [->|Ho%list_elem_of_singleton]; [|subst o]; vm_compute in Hy; simplify_eq;
      cbn in Hlv; apply elem_of_cons in Hlv as [->|Hlv%list_elem_of_singleton]; subst; cbn; eauto.
  - constructor.
  - intros y lv Hy Hlv. vm_compute in Hy. simplify_eq. cbn in Hlv. apply elem_of_cons in Hlv as [->|Hlv%list_elem_of_singleton]; subst; cbn; eauto.
Defined.
