(* ===== verification/SxRuns.v ===== *)
(** Runs of transactions over red-black trees in which the code goes wrong. *)
From stdpp Require Import base list sets gmap.
From S2P Require Import Prelude SsRb SsRbSpec Sv SvMergeProofs SvLog Sr SvIndex Sx.
Local Open Scope Z_scope.
Local Open Scope c_scope.

(** Two transactions at 1 and 2, an index with room for the nodes 11 to 14, and versions of the
    keys 5 and 6; the last sequence number is 10. *)
Definition blank : ssrbnode := mk_rbnode None None None 0.
Definition start : sxst ssrb :=
  mk_sxst _ (mk_rb None (list_to_map [(1%positive, blank); (2%positive, blank)])) 0 (mk_seq 0 0 0 10 0 0 0)
    (list_to_map [(1%positive, mk_sx 0 false SXUNDEF 0 sv_loginit); (2%positive, mk_sx 0 false SXUNDEF 0 sv_loginit)])
    {[ 0%nat := mk_rb None (list_to_map [(11%positive, blank); (12%positive, blank); (13%positive, blank); (14%positive, blank)]) ]}
    ∅
    (list_to_map [(21%positive, mk_svv 0 1 0 None [5]); (22%positive, mk_svv 0 1 0 None [6]);
                  (23%positive, mk_svv 0 1 0 None [5]); (24%positive, mk_svv 0 1 0 None [5])]).
Definition key_cmp (_ : nat) : bytes → bytes → Z := demo_key_cmp.
Definition put (t x v : loc) : cmd (sxst ssrb) Z := sx_set key_cmp (λ _, 7) t 0 v (Some x) true true.
Definition refs (t : loc) : cmd (sxst ssrb) (list logref) := let! y := rd_tx t in cret (lv_v <$> l_buf (t_log y)).
Definition result {A} (r : option (A * sxst ssrb)) : option A := fst <$> r.

(** The second transaction writes the key 6, then twice the key 5 that the first one owns. *)
Definition waiter_run : cmd (sxst ssrb) (list Z * list logref) :=
  sx_begin 1 0;;; sx_begin 2 0;;;
  let! a := put 1 11 21 in
  let! b := put 2 12 22 in
  let! c := put 2 13 23 in
  let! d := put 2 14 24 in
  let! l := refs 2 in
  cret ([a; b; c; d], l).


(** A transaction that was completed ahead of its commit (half commit) and is then rolled
    back is not collected: its log was translated to versions, and the collector of a rolled
    back transaction takes them for containers. *)
Theorem sx_gc_half_commit :
  let half := (sx_begin 1 0;;; put 1 11 21;;; sx_prepare 1 None;;; sx_complete 1) in
  result (half start) = Some SXPREPARE ∧
  result ((half;;; sx_commit 1) start) = Some SXCOMMIT ∧
  result ((half;;; sx_commit 1;;; sx_gc 1) start) = Some 0 ∧
  result ((half;;; sx_rollback 1) start) = Some SXROLLBACK ∧
  result ((half;;; sx_rollback 1;;; sx_gc 1) start) = None.
Proof. split_and!; vm_compute; reflexivity. Qed.

(** The sequence number below which old versions may be dropped is that of the transaction
    with the least number, not the least one in use: with a transaction at 10 and a younger one
    that reads at 5, versions the younger one needs are given up. *)
Theorem sx_vlsn_not_minimal :
  result ((sx_begin 1 0;;; sx_begin 2 5;;;
           let! v := sx_vlsn in let! y := rd_tx 2 in cret (v, t_vlsn y, t_s y)) start) = Some (10, 5, SXREADY).
Proof. vm_compute. reflexivity. Qed.
