(* ===== verification/SxQueue.v ===== *)
(** The queues of a concurrent index: doubly linked lists of containers, and what linking,
    unlinking and marking the waiters does to them. *)
From stdpp Require Import base list sets gmap.
From S2P Require Import Prelude SsRb SsRbSpec Sv SvLog Sr SvIndex Sx.
Local Open Scope Z_scope.
Local Open Scope c_scope.

(** * Segments *)

Definition hd_or (c : list loc) (n : ptr) : ptr := match c with [] => n | x :: _ => Some x end.
Fixpoint lst_or (p : ptr) (c : list loc) : ptr := match c with [] => p | x :: c => lst_or (Some x) c end.
Fixpoint qseg (h : gmap loc sxv) (p : ptr) (c : list loc) (n : ptr) : Prop :=
  match c with
  | [] => True
  | x :: c => (∃ v, h !! x = Some v ∧ xv_prev v = p ∧ xv_next v = hd_or c n) ∧ qseg h (Some x) c n
  end.

Lemma lst_or_snoc p c x : lst_or p (c ++ [x]) = Some x.
Proof. revert p. induction c as [|y c IH]; intros p; simpl; auto. Qed.
Lemma hd_or_app a b n : hd_or (a ++ b) n = hd_or a (hd_or b n).
Proof. by destruct a. Qed.
Lemma lst_or_cases p c : (c = [] ∧ lst_or p c = p) ∨ ∃ c' y, c = c' ++ [y] ∧ lst_or p c = Some y.
Proof.
  destruct (decide (c = [])) as [->|Hne]; [by left|right]. destruct (exists_last Hne) as (c' & y & ->).
  exists c', y. by rewrite lst_or_snoc.
Qed.
Lemma qseg_app h p a b n : qseg h p (a ++ b) n ↔ qseg h p a (hd_or b n) ∧ qseg h (lst_or p a) b n.
Proof.
  revert p. induction a as [|x a IH]; intros p; simpl; [tauto|]. rewrite IH, hd_or_app. tauto.
Qed.
Lemma qseg_ext h h' p c n : (∀ x, x ∈ c → h !! x = h' !! x) → qseg h p c n → qseg h' p c n.
Proof.
  revert p. induction c as [|x c IH]; intros p Hx; simpl; [done|]. intros [(v & Hv & Hp) Hc]. split.
  - exists v. by rewrite <- Hx by constructor.
  - apply IH; [|done]. intros y Hy. apply Hx. by constructor.
Qed.
(** The last link forward and the first link back. *)
Lemma qseg_set_next h p c y v n n' : qseg h p (c ++ [y]) n → h !! y = Some v → y ∉ c →
  qseg (<[y := set_xnext n' v]> h) p (c ++ [y]) n'.
Proof.
  rewrite !qseg_app. intros [Hc [(w & Hw & Hp & _) _]] Hv Hy. simplify_eq. split.
  - eapply qseg_ext; [|exact Hc]. intros x Hx. rewrite lookup_insert_ne; [done|]. by intros ->.
  - split; [|done]. exists (set_xnext n' w). rewrite lookup_insert_eq. by split_and!.
Qed.
Lemma qseg_set_prev h p p' c y v n : qseg h p (y :: c) n → h !! y = Some v → y ∉ c →
  qseg (<[y := set_xprev p' v]> h) p' (y :: c) n.
Proof.
  intros [(w & Hw & _ & Hn) Hc] Hv Hy. simplify_eq. split.
  - exists (set_xprev p' w). rewrite lookup_insert_eq. by split_and!.
  - eapply qseg_ext; [|exact Hc]. intros x Hx. rewrite lookup_insert_ne; [done|]. by intros ->.
Qed.

(** What does not change when links do. *)
Definition same_body (h h' : gmap loc sxv) : Prop := ∀ x,
  match h !! x, h' !! x with
  | Some v, Some w => xv_id v = xv_id w ∧ xv_lo v = xv_lo w ∧ xv_index v = xv_index w ∧ xv_v v = xv_v w
  | None, None => True
  | _, _ => False
  end.
Lemma same_body_refl h : same_body h h.
Proof. intros x. by destruct (h !! x). Qed.
Lemma same_body_trans h1 h2 h3 : same_body h1 h2 → same_body h2 h3 → same_body h1 h3.
Proof.
  intros H1 H2 x. specialize (H1 x). specialize (H2 x). destruct (h1 !! x), (h2 !! x), (h3 !! x); try done.
  destruct H1 as (-> & -> & -> & ->). done.
Qed.
Lemma same_body_next h x v n : h !! x = Some v → same_body h (<[x := set_xnext n v]> h).
Proof.
  intros Hv y. destruct (decide (x = y)) as [<-|]; [rewrite lookup_insert_eq, Hv; done|].
  rewrite lookup_insert_ne by done. by destruct (h !! y).
Qed.
Lemma same_body_prev h x v n : h !! x = Some v → same_body h (<[x := set_xprev n v]> h).
Proof.
  intros Hv y. destruct (decide (x = y)) as [<-|]; [rewrite lookup_insert_eq, Hv; done|].
  rewrite lookup_insert_ne by done. by destruct (h !! y).
Qed.
Lemma same_body_some h h' x v : same_body h h' → h !! x = Some v →
  ∃ w, h' !! x = Some w ∧ xv_id w = xv_id v ∧ xv_index w = xv_index v ∧ xv_v w = xv_v v.
Proof. intros Hs Hv. specialize (Hs x). rewrite Hv in Hs. destruct (h' !! x); [|done]. naive_solver. Qed.

Section ops.
Context {St : Type} `{TreeOps St}.
Abbreviation state := (sxst St).

Lemma wp_rd_x (s : state) x v Q : xs_v s !! x = Some v → Q v s → wp (rd_x x) s Q.
Proof. intros Hx HQ. unfold wp, rd_x, cread. by rewrite Hx. Qed.
Lemma wp_wr_x (s : state) x v f (Q : () → state → Prop) : xs_v s !! x = Some v →
  Q () (set_xv (<[x := f v]> (xs_v s)) s) → wp (wr_x x f) s Q.
Proof. intros Hx. unfold wp, wr_x. by rewrite Hx. Qed.
Lemma wp_rd_tx (s : state) t y Q : xs_tx s !! t = Some y → Q y s → wp (rd_tx t) s Q.
Proof. intros Hx HQ. unfold wp, rd_tx, cread. by rewrite Hx. Qed.
Lemma wp_wr_tx (s : state) t y f (Q : () → state → Prop) : xs_tx s !! t = Some y →
  Q () (set_tx (<[t := f y]> (xs_tx s)) s) → wp (wr_tx t f) s Q.
Proof. intros Hx. unfold wp, wr_tx. by rewrite Hx. Qed.
Lemma wp_rd_svv (s : state) v u Q : xs_svv s !! v = Some u → Q u s → wp (rd_svv v) s Q.
Proof. intros Hx HQ. unfold wp, rd_svv, cread. by rewrite Hx. Qed.

(** ** Unlinking *)

(** Only links of containers change; [x] is left alone in the end. *)
Definition relinked (s s' : state) (x : loc) : Prop :=
  ∃ h, s' = set_xv h s ∧ same_body (xs_v s) h ∧
    ∃ w, h !! x = Some w ∧ xv_next w = None ∧ xv_prev w = None.

Lemma vunlink_ok s a x b : qseg (xs_v s) None (a ++ x :: b) None → NoDup (a ++ x :: b) →
  wp (sx_vunlink x) s (λ _ s', relinked s s' x ∧ qseg (xs_v s') None (a ++ b) None ∧
    ∀ z, z ∉ a ++ x :: b → xs_v s' !! z = xs_v s !! z).
Proof.
  intros Hd Hnd. apply qseg_app in Hd as [Ha [(v & Hv & Hp & Hn) Hb]].
  apply NoDup_app in Hnd as (Hna & Hdis & [Hxb Hnb]%NoDup_cons). assert (x ∉ a) as Hxa by (intros Hx; apply (Hdis x Hx); constructor).
  (* the neighbour before *)
  assert (∃ h1, wp (when_ptr (xv_prev v) (λ p, wr_x p (set_xnext (xv_next v)))) s (λ _ s', s' = set_xv h1 s) ∧
    same_body (xs_v s) h1 ∧ qseg h1 None a (hd_or b None) ∧ ∀ z, z ∉ a → h1 !! z = xs_v s !! z) as (h1 & W1 & B1 & A1 & O1).
  { rewrite Hp, Hn. destruct (lst_or_cases None a) as [[-> E]|(a' & y & -> & E)]; rewrite E; cbn [when_ptr].
    - exists (xs_v s). split_and!; [apply wp_ret; by destruct s|apply same_body_refl|done|done].
    - apply qseg_app in Ha as Hay. destruct Hay as [_ [(u & Hu & _) _]]. exists (<[y := set_xnext (hd_or b None) u]> (xs_v s)).
      apply NoDup_app in Hna as (_ & Hd2 & _). assert (y ∉ a') by (intros Hy; apply (Hd2 y Hy); constructor).
      split_and!; [by apply (wp_wr_x s y u)|by apply same_body_next|by eapply qseg_set_next|].
      intros z Hz. rewrite lookup_insert_ne; [done|]. intros ->. apply Hz. apply elem_of_app. right. constructor. }
  unfold sx_vunlink. apply wp_bind, (wp_rd_x s x v _ Hv), wp_bind. eapply wp_mono; [exact W1|]. intros [] s1 ->.
  assert (h1 !! x = Some v) as Hv1 by (by rewrite O1). apply wp_bind, (wp_rd_x _ x v); [exact Hv1|].
  (* the neighbour behind *)
  assert (qseg h1 (Some x) b None) as Hb1.
  { eapply qseg_ext; [|exact Hb]. intros z Hz. symmetry. apply O1. intros Hza. apply (Hdis z Hza). by constructor. }
  assert (∃ h2, wp (when_ptr (xv_next v) (λ p, wr_x p (set_xprev (xv_prev v)))) (set_xv h1 s) (λ _ s', s' = set_xv h2 s) ∧
    same_body h1 h2 ∧ qseg h2 (lst_or None a) b None ∧ ∀ z, z ∉ b → h2 !! z = h1 !! z) as (h2 & W2 & B2 & A2 & O2).
  { rewrite Hp, Hn. destruct b as [|y b]; cbn [hd_or when_ptr].
    - exists h1. split_and!; [by apply wp_ret|apply same_body_refl|done|done].
    - pose proof Hb1 as [(u & Hu & _) _]. exists (<[y := set_xprev (lst_or None a) u]> h1). apply NoDup_cons in Hnb as [Hyb _].
      split_and!; [by apply (wp_wr_x (set_xv h1 s) y u)|by apply same_body_prev|by eapply qseg_set_prev|].
      intros z Hz. rewrite lookup_insert_ne; [done|]. intros ->. apply Hz. constructor. }
  apply wp_bind. eapply wp_mono; [exact W2|]. intros [] s2 ->. assert (h2 !! x = Some v) as Hv2 by (by rewrite O2).
  apply wp_bind, (wp_wr_x _ x v); [exact Hv2|]. cbn [set_xv xs_v].
  apply (wp_wr_x _ x (set_xprev None v)); [cbn [set_xv xs_v]; by rewrite lookup_insert_eq|]. cbn [set_xv xs_v]. rewrite insert_insert_eq.
  assert (∀ z, z ≠ x → <[x := set_xnext None (set_xprev None v)]> h2 !! z = h2 !! z) as O3 by (intros z Hz; by apply lookup_insert_ne).
  split_and!.
  - eexists. split; [by destruct s|]. cbn [set_xv xs_v]. split.
    + eapply same_body_trans; [exact B1|]. eapply same_body_trans; [exact B2|].
      eapply same_body_trans; [by apply (same_body_prev h2 x v None)|].
      pose proof (same_body_next (<[x := set_xprev None v]> h2) x (set_xprev None v) None) as B3.
      rewrite insert_insert_eq, lookup_insert_eq in B3. by apply B3.
    + exists (set_xnext None (set_xprev None v)). by rewrite lookup_insert_eq.
  - cbn [set_xv xs_v]. apply qseg_app. split.
    + eapply qseg_ext; [|exact A1]. intros z Hz. rewrite O3 by (by intros ->). symmetry. apply O2. intros Hzb. apply (Hdis z Hz). by constructor.
    + eapply qseg_ext; [|exact A2]. intros z Hz. symmetry. apply O3. by intros ->.
  - intros z Hz. cbn [set_xv xs_v]. assert (z ≠ x ∧ z ∉ a ∧ z ∉ b) as (? & ? & ?) by (clear -Hz; set_solver).
    by rewrite O3, O2, O1.
Qed.
End ops.
