(* ===== verification/SxIndex.v ===== *)
(** The concurrent indexes as sets of queues, and what taking a container out of its queue and
    marking the waiters behind it do to them. *)
From stdpp Require Import base list sets gmap.
From S2P Require Import Prelude SsRb SsRbSpec Sv SvLog Sr SvIndex Sx SxQueue.
Local Open Scope Z_scope.
Local Open Scope c_scope.

(** * Queues without some of their containers *)

Definition keep (T : list loc) (c : list loc) : list loc := filter (λ y, y ∉ T) c.
Definition drop_queues (T : list loc) (cs : list (list loc)) : list (list loc) :=
  filter (λ c, c ≠ []) (keep T <$> cs).
Definition qdrop (T : list loc) (Q : gmap nat (list (list loc))) : gmap nat (list (list loc)) := drop_queues T <$> Q.

Lemma keep_none T c : (∀ y, y ∈ c → y ∉ T) → keep T c = c.
Proof. apply filter_all. Qed.
Lemma keep_keep T U c : keep U (keep T c) = keep (T ++ U) c.
Proof.
  unfold keep. rewrite list_filter_filter. apply list_filter_iff. intros y. rewrite elem_of_app. tauto.
Qed.
Lemma drop_queues_app T A B : drop_queues T (A ++ B) = drop_queues T A ++ drop_queues T B.
Proof. unfold drop_queues. by rewrite fmap_app, filter_app. Qed.
Lemma drop_queues_none T cs : (∀ c, c ∈ cs → c ≠ []) → (∀ y, y ∈ concat cs → y ∉ T) → drop_queues T cs = cs.
Proof.
  intros Hne Hy. unfold drop_queues. rewrite (fmap_id_on (keep T)).
  - by apply filter_all.
  - intros c Hc. apply keep_none. intros y Hyc. apply Hy. apply list_elem_of_lookup in Hc as [i Hi]. apply elem_of_concat. eauto.
Qed.
Lemma drop_queues_drop T U cs : drop_queues U (drop_queues T cs) = drop_queues (T ++ U) cs.
Proof.
  induction cs as [|c cs IH]; [done|]. unfold drop_queues in *. csimpl. rewrite <- (keep_keep T U c).
  destruct (decide (keep T c = [])) as [E|E].
  - rewrite E. rewrite filter_cons_False by tauto. rewrite filter_cons_False by (intros F; by apply F). exact IH.
  - rewrite filter_cons_True by done. csimpl. destruct (decide (keep U (keep T c) = [])) as [E'|E'].
    + rewrite !filter_cons_False by tauto. exact IH.
    + rewrite !filter_cons_True by done. by rewrite IH.
Qed.
Lemma qdrop_qdrop T U Q : qdrop U (qdrop T Q) = qdrop (T ++ U) Q.
Proof. unfold qdrop. rewrite <- map_fmap_compose. apply map_fmap_ext. intros i cs _. apply drop_queues_drop. Qed.
Lemma qdrop_nil Q : (∀ i cs c, Q !! i = Some cs → c ∈ cs → c ≠ []) → qdrop [] Q = Q.
Proof.
  intros Hne. apply map_eq. intros i. unfold qdrop. rewrite lookup_fmap. destruct (Q !! i) as [cs|] eqn:E; [|done]. cbn.
  f_equal. apply drop_queues_none; [intros c; by apply (Hne i cs c)|]. intros y _. apply not_elem_of_nil.
Qed.
(** The queue [x] is taken from. *)
Definition rest (c : list loc) : list (list loc) := match c with [] => [] | _ => [c] end.
Lemma drop_one A a x b B : NoDup (concat (A ++ (a ++ x :: b) :: B)) → (∀ c, c ∈ A ++ B → c ≠ []) →
  drop_queues [x] (A ++ (a ++ x :: b) :: B) = A ++ rest (a ++ b) ++ B.
Proof.
  rewrite concat_app. cbn [concat]. intros (_ & H1 & (Hc & H2 & _)%NoDup_app)%NoDup_app Hne.
  apply NoDup_app in Hc as (_ & Hd & [Hxb _]%NoDup_cons).
  rewrite drop_queues_app. change (_ :: B) with ([a ++ x :: b] ++ B). rewrite drop_queues_app. f_equal; [|f_equal].
  - apply drop_queues_none; [intros c Hc; apply Hne, elem_of_app; auto|]. intros y Hy ->%list_elem_of_singleton.
    apply (H1 x Hy). apply elem_of_app. left. apply elem_of_app. right. constructor.
  - unfold drop_queues. csimpl. replace (keep [x] (a ++ x :: b)) with (a ++ b).
    + unfold rest. destruct (a ++ b); [by rewrite filter_cons_False by tauto|]. by rewrite filter_cons_True by done.
    + unfold keep. rewrite filter_app, filter_cons_False by (rewrite list_elem_of_singleton; tauto).
      f_equal; symmetry; apply filter_all; intros y Hy ->%list_elem_of_singleton; [|done]. apply (Hd x Hy). constructor.
  - apply drop_queues_none; [intros c Hc'; apply Hne, elem_of_app; auto|]. intros y Hy ->%list_elem_of_singleton.
    apply (H2 x); [|done]. apply elem_of_app. right. constructor.
Qed.

(** * The state of the concurrent indexes *)

Section ops.
Context {St : Type} `{!TreeOps St, !TreeLaws St}.
Abbreviation state := (sxst St).
Implicit Types (s : state) (Q : gmap nat (list (list loc))).

(** An index has a queue per key; the fronts of the queues are the nodes of its tree. *)
Record index_rep s (i : nat) (cs : list (list loc)) : Prop := {
  ix_tree : ∃ st, xs_idx s !! i = Some st ∧ t_seq st (omap head cs) ∧ ∀ x, x ∈ concat cs → t_node st x;
  ix_nodup : NoDup (concat cs);
  ix_ne c : c ∈ cs → c ≠ [];
  ix_links c : c ∈ cs → qseg (xs_v s) None c None;
  ix_body x : x ∈ concat cs → ∃ v, xs_v s !! x = Some v ∧ xv_index v = i ∧ is_Some (xs_svv s !! xv_v v)
}.
Definition queues s Q : Prop := ∀ i cs, Q !! i = Some cs → index_rep s i cs.
Definition queued Q (x : loc) : Prop := ∃ i cs, Q !! i = Some cs ∧ x ∈ concat cs.

(** Everything else of a state. *)
Definition frame s s' : Prop := xs_mi s' = xs_mi s ∧ xs_count s' = xs_count s ∧ xs_seq s' = xs_seq s ∧ xs_tx s' = xs_tx s ∧
  xs_svv s' = xs_svv s ∧ same_body (xs_v s) (xs_v s').

Lemma queues_index s Q i j ci cj x : queues s Q → Q !! i = Some ci → Q !! j = Some cj → x ∈ concat ci → x ∈ concat cj → i = j.
Proof.
  intros HQ Hi Hj Hx Hx'. destruct (ix_body _ _ _ (HQ i ci Hi) x Hx) as (v & Hv & <- & _).
  destruct (ix_body _ _ _ (HQ j cj Hj) x Hx') as (w & Hw & <- & _). by simplify_eq.
Qed.
Lemma queues_insert s Q i A a x b B : queues s Q → Q !! i = Some (A ++ (a ++ x :: b) :: B) →
  qdrop [x] Q = <[i := A ++ rest (a ++ b) ++ B]> Q.
Proof.
  intros HQ Hi. apply map_eq. intros j. unfold qdrop. rewrite lookup_fmap. pose proof (HQ _ _ Hi) as Hr.
  destruct (decide (i = j)) as [<-|Hij].
  - rewrite lookup_insert_eq, Hi. cbn. f_equal. apply drop_one; [exact (ix_nodup _ _ _ Hr)|].
    intros c Hc. apply (ix_ne _ _ _ Hr). apply elem_of_app in Hc. apply elem_of_app. rewrite elem_of_cons. tauto.
  - rewrite lookup_insert_ne by done. destruct (Q !! j) as [cj|] eqn:Hj; [|done]. cbn. f_equal.
    apply drop_queues_none; [exact (ix_ne _ _ _ (HQ _ _ Hj))|]. intros y Hy ->%list_elem_of_singleton. apply Hij.
    eapply queues_index; [exact HQ|exact Hi|exact Hj| |exact Hy]. rewrite concat_app. cbn [concat]. rewrite !elem_of_app. right. left. right. constructor.
Qed.
Lemma concat_take A a x b B : concat (A ++ (a ++ x :: b) :: B) ≡ₚ x :: concat (A ++ rest (a ++ b) ++ B).
Proof.
  rewrite !concat_app. cbn [concat]. replace (concat (rest (a ++ b))) with (a ++ b) by (unfold rest; destruct (a ++ b); simpl; by rewrite ?app_nil_r).
  solve_Permutation.
Qed.

(** The state after [x] left the queues. *)
Lemma queues_take s s' Q i A a x b B st st' : queues s Q → Q !! i = Some (A ++ (a ++ x :: b) :: B) →
  xs_idx s !! i = Some st → xs_idx s' = <[i := st']> (xs_idx s) → t_upd st st' (omap head (A ++ rest (a ++ b) ++ B)) →
  frame s s' → qseg (xs_v s') None (a ++ b) None → (∀ z, z ∉ a ++ x :: b → xs_v s' !! z = xs_v s !! z) →
  queues s' (qdrop [x] Q).
Proof.
  intros HQ Hi Hst Hst' [Hseq Hnode] (_ & _ & _ & _ & Hsvv & Hbody) Hd Hout. rewrite (queues_insert s Q i A a x b B HQ Hi).
  assert (∀ j cs y, Q !! j = Some cs → y ∈ concat cs → ∃ v, xs_v s' !! y = Some v ∧ xv_index v = j ∧ is_Some (xs_svv s' !! xv_v v)) as HB.
  { intros j cs y Hj Hy. destruct (ix_body _ _ _ (HQ j cs Hj) y Hy) as (v & Hv & Hvi & Hs).
    destruct (same_body_some _ _ _ _ Hbody Hv) as (w & Hw & _ & E1 & E2). exists w. by rewrite E1, E2, Hsvv. }
  intros j cs. destruct (decide (i = j)) as [<-|Hij].
  - rewrite lookup_insert_eq. intros [= <-]. pose proof (HQ _ _ Hi) as Hr. pose proof (concat_take A a x b B) as HP.
    pose proof (ix_nodup _ _ _ Hr) as Hnd. pose proof Hnd as Hnd2. rewrite HP in Hnd2. apply NoDup_cons in Hnd2 as [_ Hnd2].
    assert (∀ y, y ∈ concat (A ++ rest (a ++ b) ++ B) → y ∈ concat (A ++ (a ++ x :: b) :: B)) as Hsub by (intros y Hy; rewrite HP; by constructor).
    split.
    + exists st'. rewrite Hst', lookup_insert_eq. split_and!; [done|done|]. intros y Hy. apply Hnode.
      destruct (ix_tree _ _ _ Hr) as (st0 & E & _ & Hn). simplify_eq. apply Hn. by apply Hsub.
    + exact Hnd2.
    + intros c Hc. rewrite !elem_of_app in Hc. destruct Hc as [Hc|[Hc|Hc]]; [| |];
        try (apply (ix_ne _ _ _ Hr), elem_of_app; rewrite elem_of_cons; tauto).
      unfold rest in Hc. destruct (a ++ b) eqn:E; [by apply not_elem_of_nil in Hc|]. by apply list_elem_of_singleton in Hc as ->.
    + intros c Hc. rewrite !elem_of_app in Hc.
      assert (c ∈ A ∨ c ∈ B → qseg (xs_v s') None c None) as Hother.
      { intros HAB. eapply qseg_ext; [|apply (ix_links _ _ _ Hr c); apply elem_of_app; rewrite elem_of_cons; tauto].
        intros y Hy. symmetry. apply Hout. intros Hy2. rewrite concat_app in Hnd. cbn [concat] in Hnd.
        apply NoDup_app in Hnd as (_ & HA & (_ & HB' & _)%NoDup_app). destruct HAB as [Hc'|Hc'];
          apply list_elem_of_lookup in Hc' as [k Hk].
        - apply (HA y); [apply elem_of_concat; eauto|]. apply elem_of_app. by left.
        - apply (HB' y Hy2). apply elem_of_concat. eauto. }
      destruct Hc as [Hc|[Hc|Hc]]; [tauto| |tauto]. unfold rest in Hc. destruct (a ++ b) eqn:E; [by apply not_elem_of_nil in Hc|].
      by apply list_elem_of_singleton in Hc as ->.
    + intros y Hy. eapply HB; [exact Hi|by apply Hsub].
  - rewrite lookup_insert_ne by done. intros Hj. pose proof (HQ _ _ Hj) as Hr. split.
    + destruct (ix_tree _ _ _ Hr) as (st0 & E & Hn). exists st0. by rewrite Hst', lookup_insert_ne.
    + exact (ix_nodup _ _ _ Hr).
    + exact (ix_ne _ _ _ Hr).
    + intros c Hc. eapply qseg_ext; [|exact (ix_links _ _ _ Hr c Hc)]. intros y Hy. symmetry. apply Hout. intros Hy2. apply Hij.
      eapply queues_index; [exact HQ|exact Hi|exact Hj| |].
      * rewrite concat_app. cbn [concat]. apply elem_of_app. right. apply elem_of_app. by left.
      * apply list_elem_of_lookup in Hc as [k Hk]. apply elem_of_concat. eauto.
    + intros y Hy. by eapply HB.
Qed.

(** ** Taking a container out of its queue *)

Lemma queued_split Q x : queued Q x → ∃ i A a b B, Q !! i = Some (A ++ (a ++ x :: b) :: B).
Proof.
  intros (i & cs & Hi & (k & c & Hk & Hx)%elem_of_concat). destruct (split_at _ _ _ Hk) as (A & B & -> & _).
  apply list_elem_of_split in Hx as (a & b & ->). eauto 6.
Qed.
Lemma second_not_front (A : list (list loc)) x y b B : NoDup (concat (A ++ (x :: y :: b) :: B)) →
  y ∉ (omap head (A ++ (x :: y :: b) :: B) : list loc).
Proof.
  intros Hnd (c & Hc & Hy)%list_elem_of_omap. destruct c as [|y' c]; simplify_eq/=.
  apply list_elem_of_lookup in Hc as [j Hj]. assert ((A ++ (x :: y :: b) :: B) !! length A = Some (x :: y :: b)) as Hi by (by apply list_lookup_middle).
  assert (length A = j) as <-; [|].
  { eapply (NoDup_concat_disj _ _ _ _ _ y Hnd Hi Hj); [do 2 constructor|constructor]. }
  rewrite Hi in Hj. simplify_eq. pose proof (NoDup_concat_lookup _ _ _ Hnd Hi) as [Hx _]%NoDup_cons. apply Hx. constructor.
Qed.
Lemma leave_ok s Q i A x b B : queues s Q → Q !! i = Some (A ++ (x :: b) :: B) →
  ∃ st st', xs_idx s !! i = Some st ∧ leave_tree x s = Some ((), set_idx (<[i := st']> (xs_idx s)) s) ∧
    t_upd st st' (omap head (A ++ rest b ++ B)).
Proof.
  intros HQ Hi. pose proof (HQ _ _ Hi) as Hr. destruct (ix_tree _ _ _ Hr) as (st & Hst & Hseq & Hnode).
  assert (x :: b ∈ A ++ (x :: b) :: B) as Hin by (apply elem_of_app; right; constructor).
  destruct (ix_links _ _ _ Hr _ Hin) as [(v & Hv & _ & Hn) _].
  destruct (ix_body _ _ _ Hr x) as (v' & Hv' & Hvi & _); [rewrite concat_app; cbn [concat]; rewrite !elem_of_app; right; left; constructor|].
  simplify_eq. unfold leave_tree, cbind, rd_x, cread, on_index. rewrite Hv, Hn, Hst.
  rewrite omap_app in Hseq. csimpl in Hseq. destruct b as [|y b]; cbn [hd_or rest app]; rewrite ?Hst.
  - destruct (t_remove_ok _ _ _ _ Hseq) as (st' & -> & Hu). exists st, st'. by rewrite omap_app.
  - pose proof (second_not_front _ _ _ _ _ (ix_nodup _ _ _ Hr)) as Hy. rewrite omap_app in Hy. csimpl in Hy.
    destruct (t_replace_ok _ _ _ _ y Hseq) as (st' & -> & Hu).
    + apply Hnode. rewrite concat_app. cbn [concat]. rewrite !elem_of_app. right. left. do 2 constructor.
    + done.
    + exists st, st'. rewrite omap_app. by csimpl.
Qed.

(** [x] is out of its queue, and nothing else happened. *)
Definition taken s s' Q (x : loc) : Prop := frame s s' ∧ queues s' (qdrop [x] Q) ∧
  (∃ w, xs_v s' !! x = Some w ∧ xv_next w = None ∧ xv_prev w = None) ∧
  ∀ z w, xs_v s !! z = Some w → xv_next w = None → xv_prev w = None → ¬ queued Q z → xs_v s' !! z = Some w.

Lemma chain_facts s Q i A a x b B : queues s Q → Q !! i = Some (A ++ (a ++ x :: b) :: B) →
  qseg (xs_v s) None (a ++ x :: b) None ∧ NoDup (a ++ x :: b) ∧ ∀ z, z ∈ a ++ x :: b → queued Q z.
Proof.
  intros HQ Hi. pose proof (HQ _ _ Hi) as Hr. assert ((A ++ (a ++ x :: b) :: B) !! length A = Some (a ++ x :: b)) as Hk by (by apply list_lookup_middle).
  split_and!.
  - apply (ix_links _ _ _ Hr). apply elem_of_app. right. constructor.
  - eapply NoDup_concat_lookup; [exact (ix_nodup _ _ _ Hr)|exact Hk].
  - intros z Hz. exists i, (A ++ (a ++ x :: b) :: B). split; [done|]. apply elem_of_concat. eauto.
Qed.
Lemma take_front s Q i A x b B : queues s Q → Q !! i = Some (A ++ (x :: b) :: B) →
  wp (leave_tree x;;; sx_vunlink x) s (λ _ s', taken s s' Q x).
Proof.
  intros HQ Hi. destruct (leave_ok s Q i A x b B HQ Hi) as (st & st' & Hst & E & Hu).
  destruct (chain_facts s Q i A [] x b B HQ Hi) as (Hd & Hnd & Hq).
  apply wp_bind. unfold wp at 1. rewrite E. eapply wp_mono; [exact (vunlink_ok (set_idx (<[i := st']> (xs_idx s)) s) [] x b Hd Hnd)|].
  intros [] s' ((h & -> & Hbody & w & Hw & Hwn & Hwp) & Hd' & Hout). cbn [set_xv set_idx xs_v] in *.
  assert (frame s (set_xv h (set_idx (<[i:=st']> (xs_idx s)) s))) as Hf by done.
  split_and!; [done|by eapply (queues_take s _ Q i A [] x b B)|by exists w|].
  intros z w' Hz _ _ Hnq. cbn. rewrite Hout; [done|]. intros Hin. by apply Hnq, Hq.
Qed.
Lemma take_waiter s Q i A a x b B : queues s Q → Q !! i = Some (A ++ (a ++ x :: b) :: B) → a ≠ [] →
  wp (sx_vunlink x) s (λ _ s', taken s s' Q x).
Proof.
  intros HQ Hi Ha. destruct (chain_facts s Q i A a x b B HQ Hi) as (Hd & Hnd & Hq).
  eapply wp_mono; [apply (vunlink_ok _ a x b Hd Hnd)|].
  intros [] s' ((h & -> & Hbody & w & Hw & Hwn & Hwp) & Hd' & Hout). cbn [set_xv xs_v] in *.
  destruct (ix_tree _ _ _ (HQ _ _ Hi)) as (st & Hst & Hseq & Hnode).
  assert (frame s (set_xv h s)) as Hf by done.
  split_and!; [done| |by exists w|].
  - eapply (queues_take s _ Q i A a x b B st st); try done; [by rewrite insert_id|]. split; [|done].
    destruct a as [|z a]; [done|]. rewrite !omap_app in *. by csimpl in *.
  - intros z w' Hz _ _ Hnq. cbn. rewrite Hout; [done|]. intros Hin. by apply Hnq, Hq.
Qed.

(** ** Marking the waiters *)

Definition vers (h : gmap loc sxv) (c : list loc) : list loc := omap (λ y, xv_v <$> h !! y) c.
Definition mark (ws : list loc) (m : gmap loc svv) : gmap loc svv := foldl (λ m w, alter set_abort w m) m ws.

Lemma vers_body h h' c : same_body h h' → vers h c = vers h' c.
Proof.
  intros Hs. unfold vers. induction c as [|y c IH]; csimpl; [done|]. specialize (Hs y).
  destruct (h !! y), (h' !! y); csimpl; rewrite ?IH; try done. by destruct Hs as (_ & _ & _ & ->).
Qed.
Lemma vers_app h c d : vers h (c ++ d) = vers h c ++ vers h d.
Proof. apply omap_app. Qed.
Lemma mark_app a b m : mark (a ++ b) m = mark b (mark a m).
Proof. apply foldl_app. Qed.
Lemma alter_as_insert {A} (f : A → A) (m : gmap loc A) k a : m !! k = Some a → alter f k m = <[k := f a]> m.
Proof.
  intros Hk. apply map_eq. intros j. destruct (decide (k = j)) as [<-|Hne].
  - by rewrite lookup_alter_eq, lookup_insert_eq, Hk.
  - by rewrite lookup_alter_ne, lookup_insert_ne.
Qed.
Lemma set_abort_twice v : set_abort (set_abort v) = set_abort v.
Proof. unfold set_abort. simpl. by rewrite <- Z.lor_assoc, Z.lor_diag. Qed.
Lemma mark_lookup ws m w : mark ws m !! w = (if decide (w ∈ ws) then set_abort else id) <$> m !! w.
Proof.
  revert m. induction ws as [|z ws IH]; intros m; simpl.
  - destruct (decide (w ∈ [])) as [Hw|]; [by apply not_elem_of_nil in Hw|]. by destruct (m !! w).
  - rewrite IH. destruct (decide (z = w)) as [->|Hne].
    + rewrite lookup_alter_eq. destruct (decide (w ∈ w :: ws)) as [_|Hn]; [|by destruct Hn; constructor].
      destruct (decide (w ∈ ws)); destruct (m !! w); csimpl; by rewrite ?set_abort_twice.
    + rewrite lookup_alter_ne by done. destruct (decide (w ∈ ws)) as [Hw|Hw], (decide (w ∈ z :: ws)) as [Hw'|Hw']; try done.
      * destruct Hw'. by constructor.
      * apply elem_of_cons in Hw' as [|]; [by subst|done].
Qed.
Lemma mark_some ws m w : is_Some (mark ws m !! w) ↔ is_Some (m !! w).
Proof. rewrite mark_lookup. by destruct (m !! w); simpl; rewrite ?is_Some_alt. Qed.

Lemma abort_loop b : ∀ n p s, qseg (xs_v s) p b None → (∀ y v, y ∈ b → xs_v s !! y = Some v → is_Some (xs_svv s !! xv_v v)) →
  (length b < n)%nat → cloop n vabort_turn (hd_or b None) s = Some ((), set_svv (mark (vers (xs_v s) b) (xs_svv s)) s).
Proof.
  induction b as [|y b IH]; intros [|n] p s Hd Hs Hn; cbn [length] in Hn; try lia; cbn [hd_or]; rewrite cloop_S; cbn [vabort_turn].
  - unfold cret. by destruct s.
  - destruct Hd as [(v & Hv & _ & Hnx) Hd]. destruct (Hs y v) as [u Hu]; [constructor|done|].
    unfold cbind, rd_x, cread, wr_svv, cret. rewrite Hv, Hu, Hnx.
    assert (vers (xs_v s) (y :: b) = xv_v v :: vers (xs_v s) b) as -> by (unfold vers; csimpl; by rewrite Hv).
    rewrite (IH n (Some y)).
    + cbn. do 2 f_equal. unfold set_svv. cbn. f_equal. f_equal. by rewrite (alter_as_insert _ _ _ _ Hu).
    + done.
    + cbn. intros z w Hz Hw. destruct (decide (xv_v v = xv_v w)) as [->|Hne]; [rewrite lookup_insert_eq; eauto|].
      rewrite lookup_insert_ne by done. eapply Hs; [by constructor|done].
    + lia.
Qed.
End ops.
