(* ===== verification/SxCommit.v ===== *)
(** Preparing, committing and rolling back: what a transaction that ends does to the queues of
    the keys it wrote. *)
From stdpp Require Import base list sets gmap.
From S2P Require Import Prelude SsRb SsRbSpec Sv SvLog Sr SvIndex Sx SxQueue SxIndex.
Local Open Scope Z_scope.
Local Open Scope c_scope.

Section ops.
Context {St : Type} `{!TreeOps St, !TreeLaws St}.
Abbreviation state := (sxst St).
Implicit Types (s : state) (Q : gmap nat (list (list loc))).

(** [c] is one of the queues. *)
Definition queue_of Q (c : list loc) : Prop := ∃ i cs, Q !! i = Some cs ∧ c ∈ cs.
Lemma queue_split Q c : queue_of Q c → ∃ i A B, Q !! i = Some (A ++ c :: B).
Proof. intros (i & cs & Hi & (A & B & ->)%list_elem_of_split). eauto. Qed.
Lemma queue_queued Q c x : queue_of Q c → x ∈ c → queued Q x.
Proof.
  intros (i & cs & Hi & [k Hk]%list_elem_of_lookup) Hx. exists i, cs. split; [done|]. apply elem_of_concat. eauto.
Qed.
Lemma queue_same s Q c d x : queues s Q → queue_of Q c → queue_of Q d → x ∈ c → x ∈ d → c = d.
Proof.
  intros HQ (i & cs & Hi & Hc) (j & ds & Hj & Hd) Hx Hx'.
  apply list_elem_of_lookup in Hc as [k Hk]. apply list_elem_of_lookup in Hd as [l Hl].
  assert (i = j) as <- by (eapply (queues_index s Q i j cs ds x); try done; apply elem_of_concat; eauto). simplify_eq.
  assert (k = l) as <- by (eapply NoDup_concat_disj; try done; exact (ix_nodup _ _ _ (HQ _ _ Hi))). by simplify_eq.
Qed.
Lemma queue_drop Q T c : queue_of Q c → c ≠ [] → (∀ y, y ∈ c → y ∉ T) → queue_of (qdrop T Q) c.
Proof.
  intros (i & cs & Hi & Hc) Hne HT. exists i, (drop_queues T cs). split; [unfold qdrop; by rewrite lookup_fmap, Hi|].
  unfold drop_queues. apply list_elem_of_filter. split; [done|]. apply list_elem_of_fmap. exists c. by rewrite keep_none.
Qed.
Lemma queued_drop Q T x : queued (qdrop T Q) x ↔ queued Q x ∧ x ∉ T.
Proof.
  split.
  - intros (i & cs & Hi & (k & c & Hk & Hx)%elem_of_concat). unfold qdrop in Hi. rewrite lookup_fmap in Hi.
    destruct (Q !! i) as [cs0|] eqn:E; simplify_eq/=. apply list_elem_of_lookup_2 in Hk.
    apply list_elem_of_filter in Hk as [_ (c0 & -> & Hc0)%list_elem_of_fmap]. apply list_elem_of_filter in Hx as [HT Hx].
    split; [|done]. eapply queue_queued; [|exact Hx]. by exists i, cs0.
  - intros [(i & cs & Hi & (k & c & Hk & Hx)%elem_of_concat) HT]. assert (x ∈ keep T c) as Hxk by (by apply list_elem_of_filter).
    apply (queue_queued _ (keep T c)); [|done]. exists i, (drop_queues T cs). split; [unfold qdrop; by rewrite lookup_fmap, Hi|].
    apply list_elem_of_filter. split; [intros E; rewrite E in Hxk; by apply not_elem_of_nil in Hxk|].
    apply list_elem_of_fmap. exists c. split; [done|]. by eapply list_elem_of_lookup_2.
Qed.

(** ** Marking *)

Lemma queues_svv s Q m : (∀ w, is_Some (xs_svv s !! w) → is_Some (m !! w)) → queues s Q → queues (set_svv m s) Q.
Proof.
  intros Hm HQ i cs Hi. destruct (HQ i cs Hi) as [Ht Hn Hne Hl Hb]. split; try done.
  intros x Hx. destruct (Hb x Hx) as (v & Hv & Hvi & Hs). exists v. split_and!; [done|done|]. by apply Hm.
Qed.
Lemma queue_body s Q c x : queues s Q → queue_of Q c → x ∈ c → ∃ v, xs_v s !! x = Some v ∧ is_Some (xs_svv s !! xv_v v).
Proof.
  intros HQ (i & cs & Hi & [k Hk]%list_elem_of_lookup) Hx.
  destruct (ix_body _ _ _ (HQ i cs Hi) x) as (v & Hv & _ & Hs); [apply elem_of_concat; eauto|]. eauto.
Qed.
Lemma queue_links s Q c : queues s Q → queue_of Q c → qseg (xs_v s) None c None ∧ NoDup c.
Proof.
  intros HQ (i & cs & Hi & Hc). split; [exact (ix_links _ _ _ (HQ i cs Hi) c Hc)|].
  apply list_elem_of_lookup in Hc as [k Hk]. eapply NoDup_concat_lookup; [exact (ix_nodup _ _ _ (HQ _ _ Hi))|exact Hk].
Qed.
Lemma queue_fuel s Q c : queues s Q → queue_of Q c → (length c < xfuel s)%nat.
Proof.
  intros HQ Hc. destruct (queue_links s Q c HQ Hc) as [_ Hnd]. unfold xfuel.
  assert (list_to_set c ⊆ dom (xs_v s)) as Hsub.
  { intros x Hx%elem_of_list_to_set. destruct (queue_body s Q c x HQ Hc Hx) as (v & Hv & _). apply elem_of_dom. eauto. }
  apply subseteq_size in Hsub. rewrite size_list_to_set, size_dom in Hsub by done. lia.
Qed.
Lemma abortwaiters_ok s Q x c : queues s Q → queue_of Q (x :: c) →
  sx_vabortwaiters x s = Some ((), set_svv (mark (vers (xs_v s) c) (xs_svv s)) s) ∧
  queues (set_svv (mark (vers (xs_v s) c) (xs_svv s)) s) Q.
Proof.
  intros HQ Hc. destruct (queue_links s Q _ HQ Hc) as [[(v & Hv & _ & Hn) Hd] _]. split.
  - unfold sx_vabortwaiters, cbind, rd_x, cread. rewrite Hv, Hn. eapply abort_loop; [exact Hd| |].
    + intros y w Hy Hw. destruct (queue_body s Q _ y HQ Hc) as (w' & Hw' & Hs); [by constructor|]. by simplify_eq.
    + pose proof (queue_fuel s Q _ HQ Hc) as Hf. cbn [length] in Hf. lia.
  - apply queues_svv; [|done]. intros w. by rewrite mark_some.
Qed.

(** ** Steps of a transaction that ends *)

Definition alone s (x : loc) : Prop := ∃ w, xs_v s !! x = Some w ∧ xv_next w = None ∧ xv_prev w = None.
(** From [s] to [s'] the containers [T] left the queues, the versions [ws] were marked, and the
    transactions became [tx]. *)
Record ended s s' Q (T ws : list loc) (tx : gmap loc sx) : Prop := {
  en_queues : queues s' (qdrop T Q);
  en_body : same_body (xs_v s) (xs_v s');
  en_svv : xs_svv s' = mark ws (xs_svv s);
  en_tx : xs_tx s' = tx;
  en_rest : (xs_mi s', xs_count s', xs_seq s') = (xs_mi s, xs_count s, xs_seq s);
  en_alone x : x ∈ T → alone s' x;
  en_out x : alone s x → ¬ queued Q x → alone s' x
}.
Lemma queues_nil s Q : queues s Q → qdrop [] Q = Q.
Proof. intros HQ. apply qdrop_nil. intros i cs c Hi. exact (ix_ne _ _ _ (HQ i cs Hi) c). Qed.
Lemma ended_trans s1 s2 s3 Q T1 T2 w1 w2 x1 x2 : ended s1 s2 Q T1 w1 x1 → ended s2 s3 (qdrop T1 Q) T2 w2 x2 →
  ended s1 s3 Q (T1 ++ T2) (w1 ++ w2) x2.
Proof.
  intros [Hq1 Hb1 Hs1 Ht1 Hr1 Ha1 Ho1] [Hq2 Hb2 Hs2 Ht2 Hr2 Ha2 Ho2]. split.
  - by rewrite <- qdrop_qdrop.
  - by eapply same_body_trans.
  - by rewrite mark_app, <- Hs1.
  - done.
  - by rewrite Hr2.
  - intros x [Hx|Hx]%elem_of_app; [|by apply Ha2]. apply Ho2; [by apply Ha1|]. rewrite queued_drop. tauto.
  - intros x Hx Hnq. apply Ho2; [by apply Ho1|]. rewrite queued_drop. tauto.
Qed.
Lemma ended_refl s Q : queues s Q → ended s s Q [] [] (xs_tx s).
Proof.
  intros HQ. split; try done; [by rewrite (queues_nil s Q)|apply same_body_refl|]. by intros x Hx%not_elem_of_nil.
Qed.
Lemma ended_taken s s' Q x : taken s s' Q x → ended s s' Q [x] [] (xs_tx s).
Proof.
  intros ((Hm & Hc & Hsq & Ht & Hs & Hb) & HQ & Ha & Ho). split; try done.
  - by rewrite Hm, Hc, Hsq.
  - by intros y ->%list_elem_of_singleton.
  - intros z (w & Hz & Hn & Hp) Hnq. exists w. split_and!; [|done|done]. by eapply Ho.
Qed.
Lemma ended_marked s Q ws : queues s Q → queues (set_svv (mark ws (xs_svv s)) s) Q →
  ended s (set_svv (mark ws (xs_svv s)) s) Q [] ws (xs_tx s).
Proof.
  intros HQ HQ'. split; try done; [by rewrite (queues_nil s Q)|apply same_body_refl|]. by intros x Hx%not_elem_of_nil.
Qed.
Lemma ended_tx s Q tx : queues s Q → ended s (set_tx tx s) Q [] [] tx.
Proof.
  intros HQ. split; try done; [rewrite (queues_nil s Q) by done| |].
  - intros i cs Hi. destruct (HQ i cs Hi) as [Ht Hn Hne Hl Hb]. by split.
  - apply same_body_refl.
  - by intros x Hx%not_elem_of_nil.
Qed.

(** The entry of the log that the version of a container replaces. *)
Definition translated (h : gmap loc sxv) (lv : svlogv logref) : svlogv logref :=
  match lv_v lv with
  | LSx x => match h !! x with Some v => mk_logv (LSv (xv_v v)) (Some x) (lv_id lv) (lv_next lv) | None => lv end
  | LSv _ => lv
  end.
Lemma translated_body h h' lv : same_body h h' → translated h lv = translated h' lv.
Proof.
  intros Hs. unfold translated. destruct (lv_v lv) as [x|]; [|done]. specialize (Hs x).
  destruct (h !! x), (h' !! x); try done. by destruct Hs as (_ & _ & _ & ->).
Qed.
Definition with_log (y : sx) (buf : list (svlogv logref)) : sx := set_tlog (mk_log (l_index (t_log y)) buf) y.
Lemma with_log_id y : with_log y (l_buf (t_log y)) = y.
Proof. by destruct y as [? ? ? ? []]. Qed.

Lemma log_at_ok s t y pre lv es : xs_tx s !! t = Some (with_log y (pre ++ lv :: es)) → log_at t (length pre) s = Some (lv, s).
Proof.
  intros Ht. unfold log_at, cbind, rd_tx, cread. rewrite Ht. cbn. by rewrite list_lookup_middle.
Qed.
Lemma log_translate_ok s t y pre lv es x v : xs_tx s !! t = Some (with_log y (pre ++ lv :: es)) → lv_v lv = LSx x →
  xs_v s !! x = Some v → log_translate t (length pre) x s =
    Some ((), set_tx (<[t := with_log y (pre ++ translated (xs_v s) lv :: es)]> (xs_tx s)) s).
Proof.
  intros Ht Hx Hv. unfold log_translate. unfold cbind at 1, rd_x at 1, cread at 1. rewrite Hv.
  unfold cbind. rewrite (log_at_ok _ _ _ _ _ _ Ht). unfold wr_tx. rewrite Ht. cbn. unfold translated. rewrite Hx, Hv.
  by rewrite insert_app_r_alt, Nat.sub_diag by lia.
Qed.

(** ** The loops over the log *)

(** One turn of the commit. *)
Lemma commit_turn_ok s Q t y pre lv es x c : queues s Q → xs_tx s !! t = Some (with_log y (pre ++ lv :: es)) →
  lv_v lv = LSx x → queue_of Q (x :: c) →
  wp (sx_vabortwaiters x;;; leave_tree x;;; sx_vunlink x;;; log_translate t (length pre) x) s
    (λ _ s', ended s s' Q [x] (vers (xs_v s) c) (<[t := with_log y (pre ++ translated (xs_v s) lv :: es)]> (xs_tx s))).
Proof.
  intros HQ Ht Hlv Hc. destruct (abortwaiters_ok s Q x c HQ Hc) as [E HQ1]. apply wp_bind. unfold wp at 1. rewrite E.
  pose proof (ended_marked s Q (vers (xs_v s) c) HQ HQ1) as E1. set (s1 := set_svv _ s) in *.
  destruct (queue_split Q _ Hc) as (i & A & B & Hi). pose proof (take_front s1 Q i A x c B HQ1 Hi) as W.
  apply wp_run in W as (u & s2 & W & Htk). unfold wp, cbind in *. destruct (leave_tree x s1) as [[u1 s1']|]; [|done]. rewrite W.
  pose proof (ended_taken _ _ _ _ Htk) as E2. rewrite <- (queues_nil s Q HQ) in E2. pose proof (ended_trans _ _ _ _ _ _ _ _ _ _ E1 E2) as E12.
  destruct (en_alone _ _ _ _ _ _ E2 x) as (v & Hv & _); [constructor|].
  assert (xs_tx s2 !! t = Some (with_log y (pre ++ lv :: es))) as Ht2 by (by rewrite (en_tx _ _ _ _ _ _ E12)).
  rewrite (log_translate_ok _ _ _ _ _ _ _ _ Ht2 Hlv Hv).
  pose proof (ended_trans _ _ _ _ _ _ _ _ _ _ E12 (ended_tx s2 _ (<[t:=with_log y (pre ++ translated (xs_v s2) lv :: es)]> (xs_tx s2)) (en_queues _ _ _ _ _ _ E12))) as E3.
  rewrite (translated_body _ _ lv (en_body _ _ _ _ _ _ E12)). rewrite !app_nil_r in E3. by rewrite (en_tx _ _ _ _ _ _ E12) in E3 |- *.
Qed.
Lemma commit_loop_ok es : ∀ (TC : list (loc * list loc)) pre s Q t y, queues s Q → xs_tx s !! t = Some (with_log y (pre ++ es)) →
  lv_v <$> es = LSx <$> TC.*1 → NoDup TC.*1 → (∀ x c, (x, c) ∈ TC → queue_of Q (x :: c)) →
  wp (commit_loop (length es) (length pre) t) s (λ _ s', ended s s' Q TC.*1 (vers (xs_v s) (concat TC.*2))
    (<[t := with_log y (pre ++ (translated (xs_v s) <$> es))]> (xs_tx s))).
Proof.
  induction es as [|lv es IH]; intros TC pre s Q t y HQ Ht Hes Hnd Hc; destruct TC as [|[x c] TC]; try done.
  - cbn. unfold wp, cret. rewrite insert_id by done. by apply ended_refl.
  - csimpl in Hes. injection Hes as Hlv Hes. csimpl in Hnd. apply NoDup_cons in Hnd as [Hx Hnd].
    assert (queue_of Q (x :: c)) as Hxc by (apply Hc; constructor).
    pose proof (commit_turn_ok s Q t y pre lv es x c HQ Ht Hlv Hxc) as W. apply wp_run in W as ([] & s1 & W & E1).
    cbn [length commit_loop]. apply wp_bind. unfold wp at 1. rewrite (log_at_ok _ _ _ _ _ _ Ht).
    apply wp_bind. unfold as_sxv at 1. rewrite Hlv. apply wp_ret.
    unfold cbind in W. unfold wp, cbind. destruct (sx_vabortwaiters x s) as [[u a1]|]; [|done].
    destruct (leave_tree x a1) as [[u' a2]|]; [|done]. destruct (sx_vunlink x a2) as [[u'' a3]|]; [|done]. rewrite W.
    specialize (IH TC (pre ++ [translated (xs_v s) lv]) s1 (qdrop [x] Q) t y (en_queues _ _ _ _ _ _ E1)).
    rewrite length_app, Nat.add_1_r, <- !app_assoc in IH. eapply wp_mono; [apply IH|].
    + rewrite (en_tx _ _ _ _ _ _ E1). by rewrite lookup_insert_eq.
    + done.
    + done.
    + intros x' c' Hin. apply queue_drop; [apply Hc; by constructor|done|]. intros z Hz ->%list_elem_of_singleton.
      assert (queue_of Q (x' :: c')) as Hxc' by (apply Hc; by constructor).
      assert (x :: c = x' :: c') as [= -> ->] by (apply (queue_same s Q _ _ x HQ Hxc Hxc'); [constructor|done]).
      apply Hx. apply list_elem_of_fmap. by exists (x', c').
    + intros [] s' E2. rewrite (en_tx _ _ _ _ _ _ E1), insert_insert_eq in E2. rewrite <- (vers_body _ _ _ (en_body _ _ _ _ _ _ E1)) in E2.
      assert (translated (xs_v s1) <$> es = translated (xs_v s) <$> es) as Et.
      { apply list_fmap_ext. intros k e _. symmetry. apply translated_body. exact (en_body _ _ _ _ _ _ E1). }
      rewrite Et in E2. csimpl. rewrite vers_app. exact (ended_trans _ _ _ _ _ _ _ _ _ _ E1 E2).
Qed.

(** One turn of leaving the indexes: from any place of the queue. *)
Lemma rollback_turn_ok s Q t y pre lv es x (tr : bool) : queues s Q → xs_tx s !! t = Some (with_log y (pre ++ lv :: es)) →
  lv_v lv = LSx x → queued Q x → ∃ v, xs_v s !! x = Some v ∧
  wp ((if is_null (xv_prev v) then leave_tree x else cret ());;; sx_vunlink x;;; if tr then log_translate t (length pre) x else cret ()) s
    (λ _ s', ended s s' Q [x] [] (<[t := with_log y (pre ++ (if tr then translated (xs_v s) lv else lv) :: es)]> (xs_tx s))).
Proof.
  intros HQ Ht Hlv Hx. destruct (queued_split Q x Hx) as (i & A & a & b & B & Hi).
  destruct (chain_facts s Q i A a x b B HQ Hi) as (Hd & Hnd & _). apply qseg_app in Hd as [_ [(v & Hv & Hp & _) _]].
  exists v. split; [done|].
  assert (wp ((if is_null (xv_prev v) then leave_tree x else cret ());;; sx_vunlink x) s (λ _ s', taken s s' Q x)) as W.
  { rewrite Hp. destruct (lst_or_cases None a) as [[-> E]|(a' & z & -> & E)]; rewrite E; cbn [is_null].
    - by apply (take_front s Q i A x b B).
    - apply wp_bind, wp_ret. apply (take_waiter s Q i A (a' ++ [z]) x b B HQ Hi). by destruct a'. }
  apply wp_run in W as ([] & s2 & W & Htk). pose proof (ended_taken _ _ _ _ Htk) as E12.
  unfold wp, cbind in *. destruct ((if is_null (xv_prev v) then leave_tree x else cret ()) s) as [[u s1]|]; [|done]. rewrite W.
  destruct tr; [|by unfold cret; rewrite insert_id].
  destruct (en_alone _ _ _ _ _ _ E12 x) as (w & Hw & _); [constructor|].
  assert (xs_tx s2 !! t = Some (with_log y (pre ++ lv :: es))) as Ht2 by (by rewrite (en_tx _ _ _ _ _ _ E12)).
  rewrite (log_translate_ok _ _ _ _ _ _ _ _ Ht2 Hlv Hw).
  pose proof (ended_trans _ _ _ _ _ _ _ _ _ _ E12 (ended_tx s2 _ (<[t:=with_log y (pre ++ translated (xs_v s2) lv :: es)]> (xs_tx s2)) (en_queues _ _ _ _ _ _ E12))) as E3.
  rewrite (translated_body _ _ lv (en_body _ _ _ _ _ _ E12)). rewrite !app_nil_r in E3. by rewrite (en_tx _ _ _ _ _ _ E12) in E3 |- *.
Qed.
Lemma rollback_loop_ok es : ∀ T pre s Q t y (tr : bool), queues s Q → xs_tx s !! t = Some (with_log y (pre ++ es)) →
  lv_v <$> es = LSx <$> T → NoDup T → (∀ x, x ∈ T → queued Q x) →
  wp (rollback_loop (length es) (length pre) t tr) s (λ _ s', ended s s' Q T []
    (<[t := with_log y (pre ++ (if tr then translated (xs_v s) <$> es else es))]> (xs_tx s))).
Proof.
  induction es as [|lv es IH]; intros T pre s Q t y tr HQ Ht Hes Hnd Hq; destruct T as [|x T]; try done.
  - cbn. unfold wp, cret. rewrite insert_id by (by destruct tr). by apply ended_refl.
  - csimpl in Hes. injection Hes as Hlv Hes. apply NoDup_cons in Hnd as [Hx Hnd].
    destruct (rollback_turn_ok s Q t y pre lv es x tr HQ Ht Hlv) as (v & Hv & W); [apply Hq; constructor|].
    apply wp_run in W as ([] & s1 & W & E1).
    cbn [length rollback_loop]. apply wp_bind. unfold wp at 1. rewrite (log_at_ok _ _ _ _ _ _ Ht).
    apply wp_bind. unfold as_sxv at 1. rewrite Hlv. apply wp_ret. apply wp_bind, (wp_rd_x _ _ _ _ Hv).
    unfold cbind in W. unfold wp, cbind. destruct ((if is_null (xv_prev v) then leave_tree x else cret ()) s) as [[u a1]|]; [|done].
    destruct (sx_vunlink x a1) as [[u' a2]|]; [|done]. rewrite W.
    specialize (IH T (pre ++ [if tr then translated (xs_v s) lv else lv]) s1 (qdrop [x] Q) t y tr (en_queues _ _ _ _ _ _ E1)).
    rewrite length_app, Nat.add_1_r, <- !app_assoc in IH. eapply wp_mono; [apply IH|].
    + rewrite (en_tx _ _ _ _ _ _ E1). by rewrite lookup_insert_eq.
    + done.
    + done.
    + intros z Hz. apply queued_drop. split; [apply Hq; by constructor|]. intros ->%list_elem_of_singleton. done.
    + intros [] s' E2. rewrite (en_tx _ _ _ _ _ _ E1), insert_insert_eq in E2.
      assert (translated (xs_v s1) <$> es = translated (xs_v s) <$> es) as Et.
      { apply list_fmap_ext. intros k e _. symmetry. apply translated_body. exact (en_body _ _ _ _ _ _ E1). }
      rewrite Et in E2. pose proof (ended_trans _ _ _ _ _ _ _ _ _ _ E1 E2) as E3. by destruct tr.
Qed.
End ops.
