(* ===== verification/SxEnd.v ===== *)
(** How a transaction ends: the verdict of sx_prepare, and the effect of sx_commit, sx_rollback
    and sx_complete on the queues, the versions, the logs and the manager. *)
From stdpp Require Import base list sets gmap.
From S2P Require Import Prelude SsRb SsRbSpec Sv SvLog Sr SvIndex Sx SxQueue SxIndex SxCommit.
Local Open Scope Z_scope.
Local Open Scope c_scope.

Section ops.
Context {St : Type} `{!TreeOps St, !TreeLaws St}.
Abbreviation state := (sxst St).
Implicit Types (s : state) (Q : gmap nat (list (list loc))).

(** * Preparing *)

(** What an entry of the log says, and what the entries say together: the first objection. *)
Definition verdict s (y : sx) (p : option (sx → svv → sxstate)) (x : loc) : sxstate :=
  match (v ← xs_v s !! x; pair v <$> xs_svv s !! xv_v v) with
  | Some (v, w) =>
      if c_true (Z.land (v_flags w) SVABORT) then SXROLLBACK
      else if negb (is_null (xv_prev v)) then SXLOCK
      else match p with Some f => f y w | None => SXPREPARE end
  | None => SXUNDEF
  end.
Lemma verdict_eq s y p x v w : xs_v s !! x = Some v → xs_svv s !! xv_v v = Some w →
  verdict s y p x = if c_true (Z.land (v_flags w) SVABORT) then SXROLLBACK
      else if negb (is_null (xv_prev v)) then SXLOCK else match p with Some f => f y w | None => SXPREPARE end.
Proof. intros Hv Hw. unfold verdict. rewrite Hv. cbn. by rewrite Hw. Qed.
Definition first_verdict (l : list sxstate) : sxstate := default SXPREPARE (head (filter (λ r, r ≠ SXPREPARE) l)).

Lemma first_verdict_cons r l : first_verdict (r :: l) = if decide (r = SXPREPARE) then first_verdict l else r.
Proof.
  unfold first_verdict. case_decide; [by rewrite filter_cons_False by tauto|by rewrite filter_cons_True by done].
Qed.
Lemma first_verdict_all l : first_verdict l = SXPREPARE ↔ ∀ r, r ∈ l → r = SXPREPARE.
Proof.
  induction l as [|r l IH]; [split; [by intros _ r Hr%not_elem_of_nil|done]|]. rewrite first_verdict_cons. case_decide as E.
  - rewrite IH. split; [intros Hl r' [->|Hr]%elem_of_cons; auto|]. intros Hl r' Hr. apply Hl. by constructor.
  - split; [done|]. intros Hl. apply Hl. constructor.
Qed.
Lemma prepare_loop_ok T : ∀ pre es s t y p, xs_tx s !! t = Some (with_log y (pre ++ es)) → lv_v <$> es = LSx <$> T →
  (∀ x, x ∈ T → ∃ v, xs_v s !! x = Some v ∧ is_Some (xs_svv s !! xv_v v)) →
  prepare_loop (length es) (length pre) t p s = Some (first_verdict (verdict s (with_log y (pre ++ es)) p <$> T), s).
Proof.
  induction T as [|x T IH]; intros pre [|lv es] s t y p Ht Hes HT; try done.
  csimpl in Hes. injection Hes as Hlv Hes. destruct (HT x) as (v & Hv & w & Hw); [constructor|].
  cbn [length prepare_loop]. unfold cbind at 1. rewrite (log_at_ok _ _ _ _ _ _ Ht). unfold cbind at 1, as_sxv at 1. rewrite Hlv. unfold cret at 1.
  unfold cbind at 1, rd_x at 1, cread at 1. rewrite Hv. unfold cbind at 1, rd_svv at 1, cread at 1. rewrite Hw.
  csimpl. rewrite first_verdict_cons, (verdict_eq _ _ _ _ _ _ Hv Hw).
  assert (prepare_loop (length es) (S (length pre)) t p s = Some (first_verdict (verdict s (with_log y (pre ++ lv :: es)) p <$> T), s)) as E.
  { specialize (IH (pre ++ [lv]) es s t y p). rewrite length_app, Nat.add_1_r, <- !app_assoc in IH. apply IH; [done|done|].
    intros z Hz. apply HT. by constructor. }
  destruct (c_true (Z.land (v_flags w) SVABORT)); [done|]. destruct (negb (is_null (xv_prev v))); [done|].
  destruct p as [f|]; [|done]. unfold cbind, rd_tx, cread. rewrite Ht. case_decide; [by rewrite E|done].
Qed.
Lemma prepare_ok s t y T p : xs_tx s !! t = Some y → lv_v <$> l_buf (t_log y) = LSx <$> T →
  (∀ x, x ∈ T → ∃ v, xs_v s !! x = Some v ∧ is_Some (xs_svv s !! xv_v v)) →
  let r := first_verdict (verdict s y p <$> T) in sx_prepare t p s = Some (r, set_tx (<[t := set_ts r y]> (xs_tx s)) s).
Proof.
  intros Ht Hes HT r. pose proof (prepare_loop_ok T [] (l_buf (t_log y)) s t y p) as E. rewrite app_nil_l, with_log_id in E.
  unfold sx_prepare, log_size, cbind, rd_tx, cread, cret. rewrite Ht. cbn [length] in E. rewrite E by done.
  unfold wr_tx. by rewrite Ht.
Qed.
Lemma verdict_front s Q y p x : queues s Q → queued Q x → verdict s y p x = SXPREPARE →
  (∃ c, queue_of Q (x :: c)) ∧ ∀ v w, xs_v s !! x = Some v → xs_svv s !! xv_v v = Some w → Z.land (v_flags w) SVABORT = 0.
Proof.
  intros HQ (i & A & a & b & B & Hi)%queued_split Hvd. destruct (chain_facts s Q i A a x b B HQ Hi) as (Hd & _ & _).
  apply qseg_app in Hd as [_ [(v & Hv & Hp & _) _]]. unfold verdict in Hvd. rewrite Hv in Hvd. cbn in Hvd.
  destruct (xs_svv s !! xv_v v) as [w|] eqn:Hw; [|done]. cbn in Hvd.
  destruct (c_true (Z.land (v_flags w) SVABORT)) eqn:Ef; [done|]. unfold c_true in Ef. apply negb_false_iff, Z.eqb_eq in Ef.
  destruct (negb (is_null (xv_prev v))) eqn:Ep; [done|]. rewrite Hp in Ep. split; [|intros v' w' Hv' Hw'; by simplify_eq].
  destruct (lst_or_cases None a) as [[-> E]|(a' & z & -> & E)]; [|by rewrite E in Ep].
  exists b, i, (A ++ (x :: b) :: B). split; [done|]. apply elem_of_app. right. constructor.
Qed.

(** * Leaving the manager *)

Lemma queues_ext s s' Q : xs_idx s' = xs_idx s → xs_v s' = xs_v s → xs_svv s' = xs_svv s → queues s Q → queues s' Q.
Proof. intros E1 E2 E3 HQ i cs Hi. destruct (HQ i cs Hi) as [Ht Hn Hne Hl Hb]. split; rewrite ?E1, ?E2, ?E3; done. Qed.
Lemma end_ok s t L1 L2 : t_seq (xs_mi s) (L1 ++ t :: L2) →
  ∃ m, t_seq m (L1 ++ L2) ∧ sx_end t s = Some ((), set_mi m (u32 (xs_count s - 1)) s).
Proof.
  intros Hs. destruct (t_remove_ok _ _ _ _ Hs) as (m & E & Hm & _). exists m. split; [done|].
  unfold sx_end, cbind, on_manager. by rewrite E.
Qed.

(** [s'] is [s] after the transaction [t] ended as [r]: it left the manager and the containers
    [T] their queues; the versions [ws] are marked; its log holds [es]; no other transaction
    changed. *)
Record gone s s' Q (t : loc) (y : sx) (L T ws : list loc) (r : sxstate) (es : list (svlogv logref)) : Prop := {
  gn_queues : queues s' (qdrop T Q);
  gn_alone x : x ∈ T → alone s' x;
  gn_svv w : xs_svv s' !! w = (if decide (w ∈ ws) then set_abort else id) <$> xs_svv s !! w;
  gn_tx : xs_tx s' = <[t := set_ts r (with_log y es)]> (xs_tx s);
  gn_body : same_body (xs_v s) (xs_v s');
  gn_manager : t_seq (xs_mi s') L;
  gn_count : xs_count s' = u32 (xs_count s - 1)
}.
(** Both endings finish alike. *)
Lemma finish_ok s s1 Q t y L1 L2 T ws r es : ended s s1 Q T ws (<[t := with_log y es]> (xs_tx s)) →
  t_seq (xs_mi s) (L1 ++ t :: L2) →
  ∃ s', (wr_tx t (set_ts r);;; sx_end t;;; cret r) s1 = Some (r, s') ∧ gone s s' Q t y (L1 ++ L2) T ws r es.
Proof.
  intros [HQ Hb Hs Ht Hr Ha Ho] Hm. injection Hr as Hmi Hct Hsq.
  unfold cbind, wr_tx. rewrite Ht, lookup_insert_eq, insert_insert_eq.
  destruct (end_ok (set_tx (<[t:=set_ts r (with_log y es)]> (xs_tx s)) s1) t L1 L2) as (m & Hm' & E); [cbn; by rewrite Hmi|].
  rewrite E. eexists. split; [done|]. split; cbn; try done.
  - by eapply queues_ext; [..|exact HQ].
  - intros w. by rewrite Hs, mark_lookup.
  - by rewrite Hct.
Qed.
Lemma commit_ok s Q t y TC L1 L2 : queues s Q → xs_tx s !! t = Some y → t_s y = SXPREPARE → t_complete y = false →
  lv_v <$> l_buf (t_log y) = LSx <$> TC.*1 → NoDup TC.*1 → (∀ x c, (x, c) ∈ TC → queue_of Q (x :: c)) →
  t_seq (xs_mi s) (L1 ++ t :: L2) →
  ∃ s', sx_commit t s = Some (SXCOMMIT, s') ∧
    gone s s' Q t y (L1 ++ L2) TC.*1 (vers (xs_v s) (concat TC.*2)) SXCOMMIT (translated (xs_v s) <$> l_buf (t_log y)).
Proof.
  intros HQ Ht Hst Hcm Hes Hnd Hfr Hm.
  assert (wp (commit_loop (length (l_buf (t_log y))) (length (@nil (svlogv logref))) t) s (λ _ s', ended s s' Q TC.*1 (vers (xs_v s) (concat TC.*2))
    (<[t := with_log y ([] ++ (translated (xs_v s) <$> l_buf (t_log y)))]> (xs_tx s)))) as W.
  { eapply commit_loop_ok; try done. by rewrite app_nil_l, with_log_id. }
  rewrite app_nil_l in W. apply wp_run in W as ([] & s1 & W & E1). cbn [length] in W.
  unfold sx_commit. unfold cbind at 1, rd_tx at 1, cread at 1. rewrite Ht, Hst, Hcm. cbn [bool_decide decide].
  unfold cbind at 1, cassert at 1. rewrite bool_decide_true by done. unfold cbind at 1, log_size, cbind at 1, cbind at 1, rd_tx, cread, cret at 1.
  rewrite Ht, W. by apply (finish_ok _ _ _ _ _ _ _ _ _ SXCOMMIT _ E1).
Qed.
Lemma rollback_index_ok s Q t y T tr : queues s Q → xs_tx s !! t = Some y →
  lv_v <$> l_buf (t_log y) = LSx <$> T → NoDup T → (∀ x, x ∈ T → queued Q x) →
  ∃ s', sx_rollback_index t tr s = Some ((), s') ∧
    ended s s' Q T [] (<[t := with_log y (if tr then translated (xs_v s) <$> l_buf (t_log y) else l_buf (t_log y))]> (xs_tx s)).
Proof.
  intros HQ Ht Hes Hnd Hq.
  pose proof (rollback_loop_ok (l_buf (t_log y)) T [] s Q t y tr HQ) as W. rewrite !app_nil_l, with_log_id in W.
  apply wp_run in W as ([] & s1 & W & E1); [|done..]. exists s1. cbn [length] in W.
  unfold sx_rollback_index, log_size, cbind, rd_tx, cread, cret. by rewrite Ht, W.
Qed.
Lemma rollback_ok s Q t y T L1 L2 : queues s Q → xs_tx s !! t = Some y → t_complete y = false →
  lv_v <$> l_buf (t_log y) = LSx <$> T → NoDup T → (∀ x, x ∈ T → queued Q x) → t_seq (xs_mi s) (L1 ++ t :: L2) →
  ∃ s', sx_rollback t s = Some (SXROLLBACK, s') ∧ gone s s' Q t y (L1 ++ L2) T [] SXROLLBACK (l_buf (t_log y)).
Proof.
  intros HQ Ht Hcm Hes Hnd Hq Hm. destruct (rollback_index_ok s Q t y T false HQ Ht Hes Hnd Hq) as (s1 & W & E1).
  unfold sx_rollback. unfold cbind at 1, rd_tx at 1, cread at 1. rewrite Ht, Hcm. unfold cbind at 1. rewrite W.
  by apply (finish_ok _ _ _ _ _ _ _ _ _ SXROLLBACK _ E1).
Qed.
Lemma complete_ok s Q t y T L1 L2 : queues s Q → xs_tx s !! t = Some y → t_complete y = false → t_s y = SXPREPARE →
  lv_v <$> l_buf (t_log y) = LSx <$> T → NoDup T → (∀ x, x ∈ T → queued Q x) → t_seq (xs_mi s) (L1 ++ t :: L2) →
  ∃ s1 s2, sx_complete t s = Some (SXPREPARE, s1) ∧ queues s1 (qdrop T Q) ∧ xs_mi s1 = xs_mi s ∧ xs_svv s1 = xs_svv s ∧
    sx_commit t s1 = Some (SXCOMMIT, s2) ∧
    gone s s2 Q t (mk_sx (t_id y) true (t_s y) (t_vlsn y) (t_log y)) (L1 ++ L2) T [] SXCOMMIT (translated (xs_v s) <$> l_buf (t_log y)).
Proof.
  intros HQ Ht Hcm Hst Hes Hnd Hq Hm. destruct (rollback_index_ok s Q t y T true HQ Ht Hes Hnd Hq) as (s1 & W & E1).
  set (es := translated (xs_v s) <$> l_buf (t_log y)) in *. set (y' := mk_sx (t_id y) true (t_s y) (t_vlsn y) (t_log y)).
  pose proof (ended_trans _ _ _ _ _ _ _ _ _ _ E1 (ended_tx s1 _ (<[t := with_log y' es]> (xs_tx s)) (en_queues _ _ _ _ _ _ E1))) as E2.
  rewrite !app_nil_r in E2. destruct (finish_ok _ _ _ _ _ _ _ _ _ SXCOMMIT _ E2 Hm) as (s2 & F & G).
  exists (set_tx (<[t := with_log y' es]> (xs_tx s)) s1), s2. split_and!.
  - unfold sx_complete. unfold cbind at 1, rd_tx at 1, cread at 1. rewrite Ht, Hcm, Hst. unfold cbind at 1, cassert at 1. cbn [negb].
    unfold cbind at 1, cassert at 1. rewrite bool_decide_true by done. unfold cbind at 1. rewrite W.
    unfold cbind, wr_tx. by rewrite (en_tx _ _ _ _ _ _ E1), lookup_insert_eq, insert_insert_eq.
  - exact (en_queues _ _ _ _ _ _ E2).
  - pose proof (en_rest _ _ _ _ _ _ E2) as Hr. by injection Hr.
  - exact (en_svv _ _ _ _ _ _ E2).
  - unfold sx_commit. unfold cbind at 1, rd_tx at 1, cread at 1. cbn [set_tx xs_tx]. rewrite lookup_insert_eq.
    unfold cbind at 1, cassert at 1. cbn [with_log set_tlog t_s t_complete y']. by rewrite bool_decide_true by done.
  - exact G.
Qed.
(** A transaction with a marked version cannot prepare. *)
Lemma elem_vers (h : gmap loc sxv) c x v : x ∈ c → h !! x = Some v → xv_v v ∈ vers h c.
Proof. intros Hx Hv. apply list_elem_of_omap. exists x. by rewrite Hv. Qed.
Lemma abort_flag v : c_true (Z.land (v_flags (set_abort v)) SVABORT) = true.
Proof.
  unfold set_abort. cbn. rewrite Z.land_lor_distr_l, Z.land_diag. unfold c_true. apply negb_true_iff, Z.eqb_neq.
  intros [_ E]%Z.lor_eq_0_iff. done.
Qed.
Lemma not_prepared s s' Q t y L T ws r es u z U x v p : queues s Q → gone s s' Q t y L T ws r es → u ≠ t → xs_tx s !! u = Some z →
  lv_v <$> l_buf (t_log z) = LSx <$> U → (∀ x, x ∈ U → queued Q x) → x ∈ U → xs_v s !! x = Some v → xv_v v ∈ ws →
  ∃ r s'', sx_prepare u p s' = Some (r, s'') ∧ r ≠ SXPREPARE.
Proof.
  intros HQ [_ _ Hsv Htx Hb _ _] Hut Hu Hz HU Hx Hv Hw.
  assert (∀ x, x ∈ U → ∃ v, xs_v s' !! x = Some v ∧ is_Some (xs_svv s' !! xv_v v)) as HU'.
  { intros x' (i & cs & Hi & Hx')%HU. destruct (ix_body _ _ _ (HQ i cs Hi) x' Hx') as (v1 & Hv1 & _ & Hs1).
    destruct (same_body_some _ _ _ _ Hb Hv1) as (v2 & Hv2 & _ & _ & E). exists v2. split; [done|]. rewrite E, Hsv. by apply fmap_is_Some. }
  eexists _, _. split; [apply prepare_ok; [by rewrite Htx, lookup_insert_ne|exact Hz|exact HU']|].
  assert (verdict s' z p x = SXROLLBACK) as Ev.
  { destruct (same_body_some _ _ _ _ Hb Hv) as (v2 & Hv2 & _ & _ & E). destruct (HU' x Hx) as (v2' & Hv2' & w & Hw2). simplify_eq.
    rewrite (verdict_eq _ _ _ _ _ _ Hv2 Hw2). rewrite E, Hsv, decide_True in Hw2 by done.
    destruct (xs_svv s !! xv_v v) as [w0|]; [|done]. injection Hw2 as <-. by rewrite abort_flag. }
  intros Hr. rewrite (proj1 (first_verdict_all _) Hr (verdict s' z p x)) in Ev; [done|]. apply list_elem_of_fmap. eauto.
Qed.
End ops.

(** * Theorems *)

(** C11: preparing a transaction whose versions are in the queues never faults, changes nothing
    but its state, and gives the first objection in the order of its log: a version that was
    marked by a commit, one that waits behind another transaction's, or what the callback says.
    It answers that the transaction may commit only when every version it wrote is unmarked and
    at the front of its queue. *)
Theorem sx_prepare_decides {St} `{!TreeOps St, !TreeLaws St} (s : sxst St) Q t y T p :
  queues s Q → xs_tx s !! t = Some y → lv_v <$> l_buf (t_log y) = LSx <$> T → (∀ x, x ∈ T → queued Q x) →
  let r := first_verdict (verdict s y p <$> T) in
  sx_prepare t p s = Some (r, set_tx (<[t := set_ts r y]> (xs_tx s)) s) ∧
  (r = SXPREPARE → ∀ x, x ∈ T → (∃ c, queue_of Q (x :: c)) ∧
     ∀ v w, xs_v s !! x = Some v → xs_svv s !! xv_v v = Some w → Z.land (v_flags w) SVABORT = 0).
Proof.
  intros HQ Ht Hes HT r. split.
  - apply prepare_ok; [done|done|]. intros x (i & cs & Hi & Hx)%HT. destruct (ix_body _ _ _ (HQ i cs Hi) x Hx) as (v & Hv & _ & Hs). eauto.
  - intros Hr x Hx. eapply verdict_front; [exact HQ|by apply HT|]. apply (proj1 (first_verdict_all _) Hr).
    apply list_elem_of_fmap. eauto.
Qed.

(** C10: the first to commit wins.  A prepared transaction whose versions are all at the front
    of their queues commits without a fault: exactly its versions leave the queues, so that the
    first waiter of each owns the key; exactly the versions that waited behind them are marked;
    its log holds the versions themselves, with the containers to be freed beside them; it is
    out of the manager; and a transaction with a version that waited behind one of its can no
    longer prepare. *)
Theorem sx_commit_first_wins {St} `{!TreeOps St, !TreeLaws St} (s : sxst St) Q t y TC L1 L2 :
  queues s Q → xs_tx s !! t = Some y → t_s y = SXPREPARE → t_complete y = false →
  lv_v <$> l_buf (t_log y) = LSx <$> TC.*1 → NoDup TC.*1 → (∀ x c, (x, c) ∈ TC → queue_of Q (x :: c)) →
  t_seq (xs_mi s) (L1 ++ t :: L2) →
  ∃ s', sx_commit t s = Some (SXCOMMIT, s') ∧
    gone s s' Q t y (L1 ++ L2) TC.*1 (vers (xs_v s) (concat TC.*2)) SXCOMMIT (translated (xs_v s) <$> l_buf (t_log y)) ∧
    ∀ u z U x p, u ≠ t → xs_tx s !! u = Some z → lv_v <$> l_buf (t_log z) = LSx <$> U →
      (∀ x, x ∈ U → queued Q x) → x ∈ U → x ∈ concat TC.*2 →
      ∃ r s'', sx_prepare u p s' = Some (r, s'') ∧ r ≠ SXPREPARE.
Proof.
  intros HQ Ht Hst Hcm Hes Hnd Hfr Hm. destruct (commit_ok s Q t y TC L1 L2 HQ Ht Hst Hcm Hes Hnd Hfr Hm) as (s' & E & G).
  exists s'. split_and!; [done|done|]. intros u z U x p Hut Hu Hz HU Hx Hxc.
  destruct (HU x Hx) as (i & cs & Hi & Hxi). destruct (ix_body _ _ _ (HQ i cs Hi) x Hxi) as (v & Hv & _).
  eapply (not_prepared s s' Q); [exact HQ|exact G|exact Hut|exact Hu|exact Hz|exact HU|exact Hx|exact Hv|by eapply elem_vers].
Qed.

(** C12: rolling back withdraws exactly the versions of the transaction, wherever they are in
    their queues: no other version is lost or marked, every queue it was the front of goes to
    the first waiter, and the transaction leaves the manager with its log as it was, for the
    containers and versions in it to be freed. *)
Theorem sx_rollback_withdraws {St} `{!TreeOps St, !TreeLaws St} (s : sxst St) Q t y T L1 L2 :
  queues s Q → xs_tx s !! t = Some y → t_complete y = false →
  lv_v <$> l_buf (t_log y) = LSx <$> T → NoDup T → (∀ x, x ∈ T → queued Q x) → t_seq (xs_mi s) (L1 ++ t :: L2) →
  ∃ s', sx_rollback t s = Some (SXROLLBACK, s') ∧ gone s s' Q t y (L1 ++ L2) T [] SXROLLBACK (l_buf (t_log y)) ∧
    ∀ x, queued (qdrop T Q) x ↔ queued Q x ∧ x ∉ T.
Proof.
  intros HQ Ht Hcm Hes Hnd Hq Hm. destruct (rollback_ok s Q t y T L1 L2 HQ Ht Hcm Hes Hnd Hq Hm) as (s' & E & G).
  exists s'. split_and!; [done|done|]. intros x. apply queued_drop.
Qed.

(** A half commit takes the versions of a prepared transaction out of the queues and
    translates its log, and leaves it in the manager; the commit after it only ends it.  No
    waiter is marked by either: the waiters of its keys may still commit. *)
Theorem sx_complete_commits {St} `{!TreeOps St, !TreeLaws St} (s : sxst St) Q t y T L1 L2 :
  queues s Q → xs_tx s !! t = Some y → t_complete y = false → t_s y = SXPREPARE →
  lv_v <$> l_buf (t_log y) = LSx <$> T → NoDup T → (∀ x, x ∈ T → queued Q x) → t_seq (xs_mi s) (L1 ++ t :: L2) →
  ∃ s1 s2, sx_complete t s = Some (SXPREPARE, s1) ∧ queues s1 (qdrop T Q) ∧ xs_mi s1 = xs_mi s ∧ xs_svv s1 = xs_svv s ∧
    sx_commit t s1 = Some (SXCOMMIT, s2) ∧
    gone s s2 Q t (mk_sx (t_id y) true (t_s y) (t_vlsn y) (t_log y)) (L1 ++ L2) T [] SXCOMMIT (translated (xs_v s) <$> l_buf (t_log y)).
Proof. apply complete_ok. Qed.

(** ** Witnesses: the transaction 1 owns a key for which the transaction 2 waits *)
Definition owner_tx : sx := mk_sx 1 false SXPREPARE 5 (mk_log [mk_logindex 7 0 0 1 0] [mk_logv (LSx 11%positive) None 7 UINT32_MAX]).
Definition waiter_tx : sx := mk_sx 2 false SXREADY 5 (mk_log [mk_logindex 7 0 0 1 0] [mk_logv (LSx 13%positive) None 7 UINT32_MAX]).
Definition demo_end : sxst ssrb :=
  mk_sxst _ (mk_rb (Some 1%positive) (list_to_map [(1%positive, mk_rbnode None None (Some 2%positive) 0); (2%positive, mk_rbnode (Some 1%positive) None None 1)]))
    2 sr_seqinit (list_to_map [(1%positive, owner_tx); (2%positive, waiter_tx)])
    {[ 0%nat := mk_rb (Some 11%positive) (list_to_map [(11%positive, mk_rbnode None None None 0); (13%positive, mk_rbnode None None None 0)]) ]}
    (list_to_map [(11%positive, mk_sxv 1 0 0 21 (Some 13%positive) None); (13%positive, mk_sxv 2 0 0 23 None (Some 11%positive))])
    (list_to_map [(21%positive, mk_svv 0 1 0 None [5]); (23%positive, mk_svv 0 1 0 None [5])]).
Definition demo_queues : gmap nat (list (list loc)) := {[ 0%nat := [[11; 13]%positive] ]}.
Lemma demo_manager : t_seq (xs_mi demo_end) ([] ++ 1%positive :: [2%positive]).
Proof.
  exists (SsRbProofs.T SsRbProofs.Black SsRbProofs.E 1%positive (SsRbProofs.T SsRbProofs.Red SsRbProofs.E 2%positive SsRbProofs.E)), 1%nat.
  split_and!; [|repeat econstructor|done]. split; [done|by vm_compute|done| |done].
  intros x. simpl. unfold SsRbProofs.one. repeat case_decide; subst; (lia || done).
Qed.
Lemma demo_end_queues : queues demo_end demo_queues.
Proof.
  intros i cs Hi. unfold demo_queues in Hi. apply lookup_singleton_Some in Hi as [<- <-]. split.
  - eexists. split; [done|]. split.
    + exists (SsRbProofs.T SsRbProofs.Black SsRbProofs.E 11%positive SsRbProofs.E), 1%nat.
      split_and!; [|repeat econstructor|done]. split; [done|by vm_compute|done| |done].
      intros x. simpl. unfold SsRbProofs.one. repeat case_decide; subst; (lia || done).
    + intros x Hx; apply elem_of_cons in Hx as [->|Hx%list_elem_of_singleton]; [|subst x]; vm_compute; eauto.
  - apply (bool_decide_unpack _). by vm_compute.
  - by intros c ->%list_elem_of_singleton.
  - intros c ->%list_elem_of_singleton. cbn. split_and!; [| |done]; eexists; split_and!; [by vm_compute|done|done|by vm_compute|done|done].
  - intros x Hx; apply elem_of_cons in Hx as [->|Hx%list_elem_of_singleton]; [|subst x]; eexists; (split_and!; [by vm_compute|done|vm_compute; eauto]).
Qed.
Lemma demo_queued x : x ∈ [11%positive; 13%positive] → queued demo_queues x.
Proof. intros Hx. exists 0%nat, [[11; 13]%positive]. split; [by vm_compute|exact Hx]. Qed.

Lemma sx_prepare_decides_witness :
  sx_prepare 2%positive None demo_end = Some (SXLOCK, set_tx (<[2%positive := set_ts SXLOCK waiter_tx]> (xs_tx demo_end)) demo_end).
Proof.
  refine (proj1 (sx_prepare_decides demo_end demo_queues 2%positive waiter_tx [13%positive] None demo_end_queues _ _ _)); [done|done|].
  intros x Hx. apply demo_queued. by constructor.
Defined.
Lemma sx_commit_first_wins_witness : ∃ s', sx_commit 1%positive demo_end = Some (SXCOMMIT, s') ∧
  queues s' {[ 0%nat := [[13%positive]] ]} ∧ ∃ r s'', sx_prepare 2%positive None s' = Some (r, s'') ∧ r ≠ SXPREPARE.
Proof.
  destruct (sx_commit_first_wins demo_end demo_queues 1%positive owner_tx [(11%positive, [13%positive])] [] [2%positive]) as (s' & E & G & W).
  - exact demo_end_queues.
  - done.
  - done.
  - done.
  - done.
  - apply NoDup_singleton.
  - intros x c [= -> ->]%list_elem_of_singleton. exists 0%nat, [[11; 13]%positive]. split; [by vm_compute|constructor].
  - exact demo_manager.
  - exists s'. split_and!; [done|exact (gn_queues _ _ _ _ _ _ _ _ _ _ G)|].
    apply (W 2%positive waiter_tx [13%positive] 13%positive None); [done|done|done| |constructor|constructor].
    intros x Hx. apply demo_queued. by constructor.
Defined.
Lemma sx_rollback_withdraws_witness : ∃ s', sx_rollback 2%positive demo_end = Some (SXROLLBACK, s') ∧ queues s' {[ 0%nat := [[11%positive]] ]}.
Proof.
  destruct (sx_rollback_withdraws demo_end demo_queues 2%positive waiter_tx [13%positive] [1%positive] []) as (s' & E & G & _).
  - exact demo_end_queues.
  - done.
  - done.
  - done.
  - apply NoDup_singleton.
  - intros x Hx. apply demo_queued. by constructor.
  - exact demo_manager.
  - exists s'. split; [done|exact (gn_queues _ _ _ _ _ _ _ _ _ _ G)].
Defined.
Lemma sx_complete_commits_witness : ∃ s1 s2, sx_complete 1%positive demo_end = Some (SXPREPARE, s1) ∧
  queues s1 {[ 0%nat := [[13%positive]] ]} ∧ sx_commit 1%positive s1 = Some (SXCOMMIT, s2).
Proof.
  destruct (sx_complete_commits demo_end demo_queues 1%positive owner_tx [11%positive] [] [2%positive]) as (s1 & s2 & E & G & _ & _ & E2 & _).
  - exact demo_end_queues.
  - done.
  - done.
  - done.
  - done.
  - apply NoDup_singleton.
  - intros x Hx. apply demo_queued. apply list_elem_of_singleton in Hx as ->. constructor.
  - exact demo_manager.
  - exists s1, s2. split_and!; [done|exact G|done].
Defined.
