(* ===== verification/SdPage.v ===== *)
(** Pages of a branch: their layout (sd_page.h, sd_v.h, sd_v.c), the storage format that keeps
    keys apart from the versions (sd_pagekv.h), and the iterator over a page (sd_pageiter.h). *)
From stdpp Require Import base list.
From S2P Require Import Prelude SsOrder Sv SsBytes SsBuf Sf SrScheme.
Local Open Scope Z_scope.
Local Open Scope c_scope.

(** * Layout

    A page is a block: a header, an array of [sdv] (offset and flags of a version), the versions
    and, in the key-value format, the keys.  A pointer into the page is an offset from its start. *)
Record sdpageheader := mk_pageheader {
  h_crc : Z; h_crcdata : Z; h_count : Z; h_countdup : Z; h_sizeorigin : Z; h_sizekeys : Z; h_size : Z;
  h_lsnmin : Z; h_lsnmindup : Z; h_lsnmax : Z
}.
Definition sizeof_sdpageheader : nat := 60.
Definition header_enc (h : sdpageheader) : bytes :=
  le_enc 4 (h_crc h) ++ le_enc 4 (h_crcdata h) ++ le_enc 4 (h_count h) ++ le_enc 4 (h_countdup h) ++
  le_enc 4 (h_sizeorigin h) ++ le_enc 4 (h_sizekeys h) ++ le_enc 4 (h_size h) ++
  le_enc 8 (h_lsnmin h) ++ le_enc 8 (h_lsnmindup h) ++ le_enc 8 (h_lsnmax h) ++ le_enc 8 0.
Definition header_at (off : nat) (m : bytes) : option sdpageheader :=
  crc ← load_le off 4 m; crcdata ← load_le (off + 4) 4 m; count ← load_le (off + 8) 4 m;
  countdup ← load_le (off + 12) 4 m; sizeorigin ← load_le (off + 16) 4 m; sizekeys ← load_le (off + 20) 4 m;
  size ← load_le (off + 24) 4 m; lsnmin ← load_le (off + 28) 8 m; lsnmindup ← load_le (off + 36) 8 m;
  lsnmax ← load_le (off + 44) 8 m;
  Some (mk_pageheader crc crcdata count countdup sizeorigin sizekeys size lsnmin lsnmindup lsnmax).
Definition page_h : cmd bytes sdpageheader := cread (header_at 0).

Record sdv := mk_sdv { d_offset : Z; d_flags : Z }.
Definition sizeof_sdv : nat := 5.
Definition sdv_enc (v : sdv) : bytes := le_enc 4 (d_offset v) ++ [d_flags v].
(** Through a pointer to it. *)
Definition rd_sdv (p : nat) : cmd bytes sdv :=
  let! o := cread (load_le p 4) in
  let! f := load8 (p + 4) in
  cret (mk_sdv o f).

Definition sd_pagev (pos : Z) : cmd bytes nat :=
  let pos := u32 pos in
  let! h := page_h in
  cassert (Z.ltb pos (h_count h));;;
  cret (sizeof_sdpageheader + sizeof_sdv * Z.to_nat pos)%nat.
Definition sd_pagemin : cmd bytes nat := sd_pagev 0.
Definition sd_pagemax : cmd bytes nat := let! h := page_h in sd_pagev (h_count h - 1).
Definition sd_pagepointer (v : nat) : cmd bytes nat :=
  let! h := page_h in
  let! d := rd_sdv v in
  cassert (Z.leb (Z.of_nat sizeof_sdv * h_count h + d_offset d) (h_sizeorigin h));;;
  cret (sizeof_sdpageheader + sizeof_sdv * Z.to_nat (h_count h) + Z.to_nat (d_offset d))%nat.
Definition sd_pagesizeof (v : nat) : cmd bytes Z :=
  let! ptr := sd_pagepointer v in
  let! r := ss_leb128read ptr in
  cret r.2.
Definition sd_pagelsnof (v : nat) : cmd bytes Z :=
  let! ptr := sd_pagepointer v in
  let! n := ss_leb128skip ptr in
  let! r := ss_leb128read (ptr + n) in
  cret r.2.
(** Answers the pointer past the sizes, the size and the lsn. *)
Definition sd_pagemetaof (v : nat) : cmd bytes (nat * Z * Z) :=
  let! ptr := sd_pagepointer v in
  let! r1 := ss_leb128read ptr in
  let! r2 := ss_leb128read (ptr + r1.1) in
  cret ((ptr + r1.1 + r2.1)%nat, r1.2, r2.2).

(** * Versions in a page: sd_v.c

    The accessors of [sd_vif], for a version in a page, and of [sd_vrawif], for one that was
    converted into a block of its own. *)
Definition sd_vifflags (v : nat) : cmd bytes Z := let! d := rd_sdv v in cret (d_flags d).
Definition sd_viflsn (v : nat) : cmd bytes Z := sd_pagelsnof v.
Definition sd_vifpointer (v : nat) : cmd bytes nat :=
  let! ptr := sd_pagepointer v in
  let! n1 := ss_leb128skip ptr in
  let! n2 := ss_leb128skip (ptr + n1) in
  cret (ptr + n1 + n2)%nat.
Definition sd_vifsize (v : nat) : cmd bytes Z := let! n := sd_pagesizeof v in cret (u32 n).
Definition sd_vrawiflsn (v : nat) : cmd bytes Z :=
  let ptr := (v + sizeof_sdv)%nat in
  let! n := ss_leb128skip ptr in
  let! r := ss_leb128read (ptr + n) in
  cret r.2.
Definition sd_vrawifpointer (v : nat) : cmd bytes nat :=
  let ptr := (v + sizeof_sdv)%nat in
  let! n1 := ss_leb128skip ptr in
  let! n2 := ss_leb128skip (ptr + n1) in
  cret (ptr + n1 + n2)%nat.
Definition sd_vrawifsize (v : nat) : cmd bytes Z := let! r := ss_leb128read (v + sizeof_sdv) in cret (u32 r.2).
(** What a client reads through an interface. *)
Definition sv_through (flags lsn size : nat → cmd bytes Z) (pointer : nat → cmd bytes nat) (v : nat) : cmd bytes sv :=
  let! f := flags v in
  let! l := lsn v in
  let! n := size v in
  let! p := pointer v in
  let! bs := cread (mem_read p (Z.to_nat n)) in
  cret (mk_sv l f bs).
Definition sd_vif : nat → cmd bytes sv := sv_through sd_vifflags sd_viflsn sd_vifsize sd_vifpointer.
Definition sd_vrawif : nat → cmd bytes sv := sv_through sd_vifflags sd_vrawiflsn sd_vrawifsize sd_vrawifpointer.

(** * The key-value format: sd_pagekv.h *)

Definition sd_pagekv_keyread (offset : Z) : cmd bytes (nat * Z) :=
  let! h := page_h in
  let ptr := Z.to_nat (Z.of_nat sizeof_sdpageheader + u32 (h_sizeorigin h - h_sizekeys h) + u32 offset) in
  let! r := ss_leb128read ptr in
  cret ((ptr + r.1)%nat, r.2).
(** The offset of the [part]-th key: the loop reads [part + 1] offsets. *)
Fixpoint pagekv_offset (part : nat) (ptr : nat) : cmd bytes Z :=
  let! r := ss_leb128read ptr in
  match part with
  | O => cret r.2
  | S part => pagekv_offset part (ptr + r.1)
  end.
Definition sd_pagekv_key (v : nat) (part : nat) : cmd bytes (nat * Z) :=
  let! ptr := sd_pagepointer v in
  let! n1 := ss_leb128skip ptr in
  let! n2 := ss_leb128skip (ptr + n1) in
  let! offset := pagekv_offset part (ptr + n1 + n2) in
  sd_pagekv_keyread offset.
Fixpoint pagekv_value_loop (count : nat) (ptr : nat) (sizekey : Z) : cmd bytes (nat * Z) :=
  match count with
  | O => cret (ptr, sizekey)
  | S count =>
      let! r := ss_leb128read ptr in
      let! k := sd_pagekv_keyread r.2 in
      pagekv_value_loop count (ptr + r.1) (u64 (sizekey + k.2))
  end.
Definition sd_pagekv_value (count : nat) (v : nat) : cmd bytes (nat * Z) :=
  let! ptr := sd_pagepointer v in
  let! r1 := ss_leb128read ptr in
  let! n := ss_leb128skip (ptr + r1.1) in
  let! p := pagekv_value_loop count (ptr + r1.1 + n) 0 in
  cret (p.1, u64 (r1.2 - p.2)).

(** A size given as an [int]. *)
Definition read_int (p : nat) (n : Z) (m : bytes) : option bytes :=
  if Z.ltb (i32 n) 0 then None else mem_read p (Z.to_nat (i32 n)) m.

(** The iterator has the page and the buffer it converts versions into. *)
Record pgst := mk_pgst { pg_page : bytes; pg_xf : bytes }.
Definition on_page {A} (m : cmd bytes A) : cmd pgst A := λ s,
  match m (pg_page s) with Some (a, p) => Some (a, mk_pgst p (pg_xf s)) | None => None end.
Definition on_xf {A} (m : cmd bytes A) : cmd pgst A := λ s,
  match m (pg_xf s) with Some (a, x) => Some (a, mk_pgst (pg_page s) x) | None => None end.
(** [sf_write] at a place inside of a block. *)
Definition write_row_at (dest : nat) (keys : list sfv) (value : bytes) : cmd bytes () := λ m,
  match sf_write SF_KV keys value (drop dest m) with
  | Some (_, m') => if decide (dest <= length m)%nat then Some ((), take dest m ++ m') else None
  | None => None
  end.
Fixpoint pagekv_keys (n i : nat) (v : nat) : cmd bytes (list sfv) :=
  match n with
  | O => cret []
  | S n =>
      let! k := sd_pagekv_key v i in
      let! bs := cread (λ m, Some (drop k.1 m)) in
      let! ks := pagekv_keys n (S i) v in
      cret (mk_sfv bs 0 (u16 k.2) :: ks)
  end.
Definition sd_pagekv_convert (count : nat) (v : nat) : cmd pgst () :=
  let! meta := on_page (sd_pagemetaof v) in
  let size := u64 (meta.1.2 + Z.of_nat (sizeof_sfref * count)) in
  let! bs := on_page (cread (mem_read v sizeof_sdv)) in
  on_xf (put_at 0 bs);;;
  let! n1 := on_xf (ss_leb128write sizeof_sdv size) in
  let! n2 := on_xf (ss_leb128write (sizeof_sdv + n1) meta.2) in
  cassert (bool_decide (count <= 8)%nat);;;
  let! kv := on_page (pagekv_keys count 0 v) in
  let! value := on_page (sd_pagekv_value count v) in
  let! bs := on_page (cread (read_int value.1 value.2)) in
  on_xf (write_row_at (sizeof_sdv + n1 + n2) kv bs).

(** * The iterator: sd_pageiter.h *)

(** What of [struct sr] is used. *)
Record sr := mk_sr { r_scheme : srscheme; r_fmt : sf; r_fmt_storage : sfstorage }.
Record sdpageiter := mk_pageiter { pi_pos : Z; pi_v : option nat; pi_current : sv; pi_order : ssorder; pi_key : option bytes }.
Definition pi_at (i : sdpageiter) (pos : Z) (v : option nat) : sdpageiter :=
  mk_pageiter pos v (pi_current i) (pi_order i) (pi_key i).
Definition pi_set (i : sdpageiter) (c : sv) : sdpageiter := mk_pageiter (pi_pos i) (pi_v i) c (pi_order i) (pi_key i).

Section iter.
Context (r : sr).
Abbreviation count := (s_count (r_scheme r)).

Definition sd_pageiter_result (i : sdpageiter) : cmd pgst sdpageiter :=
  match pi_v i with
  | None => cret i
  | Some v =>
      match r_fmt_storage r with
      | SF_SRAW => let! c := on_page (sd_vif v) in cret (pi_set i c)
      | SF_SKEYVALUE =>
          sd_pagekv_convert count v;;;
          let! c := on_xf (sd_vrawif 0) in
          cret (pi_set i c)
      end
  end.
Definition sd_pageiter_end (i : sdpageiter) : cmd pgst sdpageiter :=
  let! h := on_page page_h in cret (pi_at i (h_count h) None).
Fixpoint pageiter_cmp_loop (key : bytes) (v : nat) (parts : list srkey) : cmd bytes Z :=
  match parts with
  | [] => cret 0
  | part :: parts =>
      let! k := sd_pagekv_key v (k_pos part) in
      let! a := cread (read_int k.1 k.2) in
      let! b := cread (λ _, sf_keydata (k_pos part) key) in
      let! rc := cread (λ _, f ← k_cmpraw part; call_cmp f (k_pos part) a b) in
      if c_true rc then cret rc else pageiter_cmp_loop key v parts
  end.
Definition sd_pageiter_cmp (i : sdpageiter) (v : nat) : cmd pgst Z :=
  let! key := cread (λ _, pi_key i) in
  match r_fmt_storage r with
  | SF_SRAW =>
      let! meta := on_page (sd_pagemetaof v) in
      let! row := on_page (cread (read_int meta.1.1 meta.1.2)) in
      cread (λ _, sr_compare (r_scheme r) row key)
  | SF_SKEYVALUE =>
      if decide (length (parts_of (r_scheme r)) = count) then on_page (pageiter_cmp_loop key v (parts_of (r_scheme r))) else cfail
  end.
(** The bounds of the search. *)
Definition pageiter_search_turn (i : sdpageiter) (b : Z * Z) : cmd pgst (Z * Z + Z) :=
  let '(min, max) := b in
  if Z.ltb max min then cret (inr min) else
  let mid := min + Z.quot (max - min) 2 in
  let! v := on_page (sd_pagev mid) in
  let! rc := sd_pageiter_cmp i v in
  cret (if Z.eqb rc (-1) then inl (mid + 1, max) else if Z.eqb rc 1 then inl (min, mid - 1) else inr mid).
Definition sd_pageiter_search (i : sdpageiter) : cmd pgst Z :=
  let! h := on_page page_h in
  cloop (S (S (Z.to_nat (h_count h)))) (pageiter_search_turn i) (0, i32 (h_count h - 1)).
(** [n] positions to look at, down from [n - 1]. *)
Fixpoint chain_head_loop (i : sdpageiter) (n : nat) : cmd pgst sdpageiter :=
  match n with
  | O => sd_pageiter_end i
  | S n =>
      let! v := on_page (sd_pagev (Z.of_nat n)) in
      let! d := on_page (rd_sdv v) in
      if c_true (Z.land (d_flags d) SVDUP) then chain_head_loop i n
      else cret (pi_at i (Z.of_nat n) (Some v))
  end.
Definition sd_pageiter_chain_head (i : sdpageiter) (pos : Z) : cmd pgst sdpageiter :=
  chain_head_loop i (Z.to_nat (pos + 1)).
(** [n] positions to look at, up from [pos]. *)
Fixpoint chain_next_loop (i : sdpageiter) (n : nat) (pos : Z) : cmd pgst sdpageiter :=
  match n with
  | O => sd_pageiter_end i
  | S n =>
      let! v := on_page (sd_pagev pos) in
      let! d := on_page (rd_sdv v) in
      if c_true (Z.land (d_flags d) SVDUP) then chain_next_loop i n (pos + 1)
      else cret (pi_at i pos (Some v))
  end.
Definition sd_pageiter_chain_next (i : sdpageiter) : cmd pgst sdpageiter :=
  let! h := on_page page_h in
  chain_next_loop i (Z.to_nat (h_count h - (pi_pos i + 1))) (pi_pos i + 1).

(** The position of the search, at the last version when it is past it. *)
Definition pageiter_seek (i : sdpageiter) : cmd pgst sdpageiter :=
  let! pos := sd_pageiter_search i in
  let! h := on_page page_h in
  sd_pageiter_chain_head i (if Z.geb pos (h_count h) then h_count h - 1 else pos).
Definition sd_pageiter_gt (i : sdpageiter) (e : bool) : cmd pgst (bool * sdpageiter) :=
  match pi_key i with
  | None => let! v := on_page (sd_pagev 0) in cret (false, pi_at i 0 (Some v))
  | Some _ =>
      let! i := pageiter_seek i in
      match pi_v i with
      | None => cret (false, i)
      | Some v =>
          let! rc := sd_pageiter_cmp i v in
          let! i := (if (Z.eqb rc 0 && negb e) || Z.eqb rc (-1) then sd_pageiter_chain_next i else cret i) in
          cret (Z.eqb rc 0, i)
      end
  end.
Definition sd_pageiter_lt (i : sdpageiter) (e : bool) : cmd pgst (bool * sdpageiter) :=
  match pi_key i with
  | None =>
      let! h := on_page page_h in
      let! i := sd_pageiter_chain_head i (h_count h - 1) in
      cret (false, i)
  | Some _ =>
      let! i := pageiter_seek i in
      match pi_v i with
      | None => cret (false, i)
      | Some v =>
          let! rc := sd_pageiter_cmp i v in
          let! i := (if (Z.eqb rc 0 && negb e) || Z.eqb rc 1 then sd_pageiter_chain_head i (pi_pos i - 1) else cret i) in
          cret (Z.eqb rc 0, i)
      end
  end.
Definition sd_pageiter_open (o : ssorder) (key : option bytes) : cmd pgst (bool * sdpageiter) :=
  let i := mk_pageiter 0 None (mk_sv 0 0 []) o key in
  let! h := on_page page_h in
  if Z.eqb (h_count h) 0 then let! i := sd_pageiter_end i in cret (false, i) else
  let! p := (match o with
             | SS_GT => sd_pageiter_gt i false
             | SS_GTE => sd_pageiter_gt i true
             | SS_LT => sd_pageiter_lt i false
             | SS_LTE => sd_pageiter_lt i true
             | _ => cfail
             end) in
  let! i := sd_pageiter_result p.2 in
  cret (p.1, i).
Definition sd_pageiter_has (i : sdpageiter) : bool := match pi_v i with Some _ => true | None => false end.
Definition sd_pageiter_of (i : sdpageiter) : option sv := if sd_pageiter_has i then Some (pi_current i) else None.
Definition sd_pageiter_next (i : sdpageiter) : cmd pgst sdpageiter :=
  match pi_v i with
  | None => cret i
  | Some _ =>
      let! h := on_page page_h in
      match pi_order i with
      | SS_GTE | SS_GT =>
          let i := pi_at i (pi_pos i + 1) (pi_v i) in
          if Z.geb (pi_pos i) (h_count h) then sd_pageiter_end i else
          let! v := on_page (sd_pagev (pi_pos i)) in
          sd_pageiter_result (pi_at i (pi_pos i) (Some v))
      | SS_LT | SS_LTE =>
          let pos := pi_pos i + 1 in
          let! dup := (if Z.ltb pos (h_count h) then
                         let! v := on_page (sd_pagev pos) in
                         let! d := on_page (rd_sdv v) in
                         cret (if c_true (Z.land (d_flags d) SVDUP) then Some v else None)
                       else cret None) in
          let! i := (match dup with
                     | Some v => cret (pi_at i pos (Some v))
                     | None =>
                         let! i := sd_pageiter_chain_head i (pi_pos i) in
                         sd_pageiter_chain_head i (pi_pos i - 1)
                     end) in
          sd_pageiter_result i
      | _ => cfail
      end
  end.
End iter.

(** The iterator as a source of the merge. *)
Definition pageiter_iter (r : sr) : SsIter (pgst * sdpageiter) := {|
  it_of p := sd_pageiter_of p.2;
  it_next p := match sd_pageiter_next r p.2 p.1 with Some (i, s) => (s, i) | None => p end
|}.
