(* ===== verification/SdPageIter.v ===== *)
(** The iterator over a page: against any page whose versions can be read and compared, it
    visits the keys on one side of the given one, in either direction. *)
From stdpp Require Import base list sorting sets.
From S2P Require Import Prelude SsOrder Sv SsBytes SsBuf Sf SrScheme SvMerge SvMergeProofs SvIndex SvIndexProofs SvIndexIter SdPage.
Local Open Scope Z_scope.
Local Open Scope c_scope.

Definition sdv_at (n : nat) : nat := (sizeof_sdpageheader + sizeof_sdv * n)%nat.

(** What a page promises the iterator: the states [ps_ok] in which its versions are [vs]. *)
Record page_view (r : sr) (cmp : bytes → bytes → Z) (keys : bytes → Prop) (ok : pgst → Prop) (vs : list sv) : Prop := {
  pv_size : Z.of_nat (length vs) < 2147483648;
  pv_header s : ok s → ∃ h, on_page page_h s = Some (h, s) ∧ h_count h = Z.of_nat (length vs);
  pv_flags s n v : ok s → vs !! n = Some v → ∃ d, on_page (rd_sdv (sdv_at n)) s = Some (d, s) ∧ d_flags d = sv_flags v;
  pv_result s n v i : ok s → vs !! n = Some v → pi_v i = Some (sdv_at n) →
    ∃ s', sd_pageiter_result r i s = Some (pi_set i v, s') ∧ ok s';
  pv_cmp s n v k i : ok s → vs !! n = Some v → pi_key i = Some k → keys k →
    sd_pageiter_cmp r i (sdv_at n) s = Some (cmp (sv_pointer v) k, s)
}.

(** There is a version of the key. *)
Definition found (cmp : bytes → bytes → Z) (k : bytes) (vss : list (list sv)) : bool :=
  existsb (λ c, Z.eqb (sv_compare cmp (default (mk_sv 0 0 []) (head c)) (mk_sv 0 0 k)) 0) vss.
(** The iterator gives these versions, one after the other and without a fault, and the page
    stays as it is. *)
Fixpoint page_gives (r : sr) (ok : pgst → Prop) (s : pgst) (i : sdpageiter) (l : list sv) : Prop :=
  ok s ∧ match l with
         | [] => sd_pageiter_of i = None
         | v :: l => sd_pageiter_of i = Some v ∧ ∃ i' s', sd_pageiter_next r i s = Some (i', s') ∧ page_gives r ok s' i' l
         end.
Lemma page_gives_enumerates r ok l : ∀ s i, page_gives r ok s i l → @enumerates _ (pageiter_iter r) (s, i) l.
Proof.
  induction l as [|v l IH]; intros s i [_ H]; [done|]. destruct H as (E & i' & s' & En & Hl). split; [done|]. cbn [it_next pageiter_iter fst snd]. rewrite En. by apply IH.
Qed.

Section walk.
Context (r : sr) (cmp : bytes → bytes → Z) `{!KeyOrder cmp} (keys : bytes → Prop) (ok : pgst → Prop).
Context (vss : list (list sv)) (Hv : page_view r cmp keys ok (concat vss)) (Hc : content_ok cmp vss).
Abbreviation vs := (concat vss).
Implicit Types (s : pgst) (i : sdpageiter).

Lemma header_run {B} s (f : sdpageheader → cmd pgst B) : ok s →
  ∃ h, (let! h := on_page page_h in f h) s = f h s ∧ h_count h = Z.of_nat (length vs).
Proof. intros Hs. destruct (pv_header _ _ _ _ _ Hv s Hs) as (h & E & Hh). exists h. unfold cbind. by rewrite E. Qed.
Lemma pagev_run s n : ok s → (n < length vs)%nat → on_page (sd_pagev (Z.of_nat n)) s = Some (sdv_at n, s).
Proof.
  intros Hs Hn. destruct (pv_header _ _ _ _ _ Hv s Hs) as (h & E & Hh). pose proof (pv_size _ _ _ _ _ Hv) as Hsz.
  unfold on_page in *. unfold sd_pagev, cbind. destruct (page_h (pg_page s)) as [[h' p]|]; [|done]. injection E as -> E.
  destruct s as [pg xf]. cbn in *. injection E as ->.
  rewrite wrap_id by (unfold in_u; lia). unfold cassert. destruct (Z.ltb_spec (Z.of_nat n) (h_count h)); [|lia].
  unfold cret. by rewrite Nat2Z.id.
Qed.
Lemma end_run s i : ok s → ∃ n, sd_pageiter_end i s = Some (pi_at i n None, s).
Proof. intros Hs. destruct (header_run s (λ h, cret (pi_at i (h_count h) None)) Hs) as (h & E & _). eauto. Qed.

(** ** Chains *)

Lemma split_chain (n : nat) : (n < length vs)%nat → ∃ A c B j, vss = A ++ c :: B ∧ n = (length (concat A) + j)%nat ∧ (j < length c)%nat.
Proof.
  clear Hv Hc. revert n. induction vss as [|c L IH]; cbn [concat]; intros n Hn; [simpl in Hn; lia|]. rewrite length_app in Hn.
  destruct (decide (n < length c)%nat) as [Hlt|Hge]; [exists [], c, L, n; split_and!; done|].
  destruct (IH (n - length c)%nat) as (A & d & B & j & -> & E & Hj); [lia|].
  exists (c :: A), d, B, j. cbn [concat]. rewrite length_app. split_and!; [done|lia|done].
Qed.
Lemma lookup_chain A c B j : vss = A ++ c :: B → vs !! (length (concat A) + j)%nat = (c ++ concat B) !! j.
Proof. intros ->. rewrite concat_app. cbn [concat]. rewrite lookup_app_r by lia. f_equal. lia. Qed.
Lemma chain_dup A c B j v : vss = A ++ c :: B → c !! j = Some v → sv_is v SVDUP = negb (bool_decide (j = 0%nat)).
Proof.
  intros E Hj. pose proof (ct_chains _ _ Hc) as HF. rewrite Forall_forall in HF. assert (chain_ok cmp c) as Hco.
  { apply HF. rewrite E. apply elem_of_app. right. constructor. }
  destruct c as [|u c]; [done|]. destruct j as [|j]; cbn in Hj.
  - injection Hj as ->. rewrite (co_head _ _ Hco v) by done. done.
  - pose proof (co_dup _ _ Hco) as Hd. rewrite Forall_forall in Hd. rewrite (Hd v); [done|]. by eapply list_elem_of_lookup_2.
Qed.

(** Reading the flag of the version at a position. *)
Lemma dup_run A c B j v s : vss = A ++ c :: B → c !! j = Some v → ok s →
  on_page (sd_pagev (Z.of_nat (length (concat A) + j))) s = Some (sdv_at (length (concat A) + j), s) ∧
  ∃ d, on_page (rd_sdv (sdv_at (length (concat A) + j))) s = Some (d, s) ∧
    c_true (Z.land (d_flags d) SVDUP) = negb (bool_decide (j = 0%nat)).
Proof.
  intros E Hj Hs. assert (vs !! (length (concat A) + j)%nat = Some v) as Hl.
  { rewrite (lookup_chain A c B j E). apply lookup_app_Some. by left. }
  split; [apply pagev_run; [done|by eapply lookup_lt_Some]|].
  destruct (pv_flags _ _ _ _ _ Hv s _ v Hs Hl) as (d & Ed & Hf). exists d. split; [done|].
  rewrite Hf, <- (chain_dup A c B j v E Hj). unfold sv_is, c_true. assert (0 <= Z.land (sv_flags v) SVDUP) by (apply Z.land_nonneg; right; done).
  destruct (Z.eqb_spec (Z.land (sv_flags v) SVDUP) 0) as [->|], (Z.gtb_spec (Z.land (sv_flags v) SVDUP) 0); try done; lia.
Qed.
Lemma head_run A c B s i : vss = A ++ c :: B → ok s → ∀ j, (j < length c)%nat →
  chain_head_loop i (S (length (concat A) + j)) s = Some (pi_at i (Z.of_nat (length (concat A))) (Some (sdv_at (length (concat A)))), s).
Proof.
  intros E Hs. induction j as [|j IH]; intros Hj; destruct (lookup_lt_is_Some_2 c _ Hj) as [v Hjv];
    destruct (dup_run A c B _ v s E Hjv Hs) as (E1 & d & E2 & E3); cbn [chain_head_loop]; unfold cbind; rewrite E1, E2, E3.
  - rewrite bool_decide_true by done. by rewrite !Nat.add_0_r.
  - cbn [bool_decide]. rewrite bool_decide_false by done. cbn [negb]. rewrite Nat.add_succ_r. apply IH. lia.
Qed.
Lemma chain_nonempty c : c ∈ vss → (0 < length c)%nat.
Proof.
  intros Hin. pose proof (ct_chains _ _ Hc) as HF. rewrite Forall_forall in HF. specialize (HF c Hin).
  destruct c; [by destruct (co_ne _ _ HF)|]. simpl. lia.
Qed.
(** The position of the first of the chains [L] behind [A], or the end. *)
Definition stands i (L : list (list sv)) (n : nat) i' : Prop :=
  match L with
  | [] => ∃ p, i' = pi_at i p None
  | _ => i' = pi_at i (Z.of_nat n) (Some (sdv_at n))
  end.
Lemma next_run A c B s i : vss = A ++ c :: B → ok s → ∀ m j, (j + m = length c)%nat → (0 < j)%nat →
  ∃ i', chain_next_loop i (m + length (concat B)) (Z.of_nat (length (concat A) + j)) s = Some (i', s) ∧
    stands i B (length (concat A) + length c) i'.
Proof.
  intros E Hs. induction m as [|m IH]; intros j Hj Hpos.
  - assert (j = length c) as -> by lia. destruct B as [|d B].
    + cbn. destruct (end_run s i Hs) as [n En]. rewrite En. eexists. split; [done|]. by exists n.
    + assert (0 < length d)%nat as Hd by (apply chain_nonempty; rewrite E; apply elem_of_app; right; do 2 constructor).
      destruct (lookup_lt_is_Some_2 d 0 Hd) as [v Hdv].
      assert (vss = (A ++ [c]) ++ d :: B) as E' by (by rewrite <- app_assoc).
      destruct (dup_run (A ++ [c]) d B 0 v s E' Hdv Hs) as (E1 & dd & E2 & E3).
      rewrite concat_app in E1, E2. cbn [concat] in E1, E2. rewrite app_nil_r, length_app, Nat.add_0_r in E1, E2.
      cbn [concat]. rewrite length_app. destruct d as [|u d]; [simpl in Hd; lia|]. cbn [length plus chain_next_loop].
      unfold cbind. rewrite E1, E2, E3. cbn. by eexists.
  - destruct (lookup_lt_is_Some_2 c j) as [v Hjv]; [lia|]. destruct (dup_run A c B _ v s E Hjv Hs) as (E1 & d & E2 & E3).
    cbn [plus chain_next_loop]. unfold cbind. rewrite E1, E2, E3, bool_decide_false by lia. cbn [negb].
    specialize (IH (S j)). replace (Z.of_nat (length (concat A) + j) + 1) with (Z.of_nat (length (concat A) + S j)) by lia. apply IH; lia.
Qed.

(** ** The search *)

Lemma key_places k : ∃ A M B, vss = A ++ M ++ B ∧ (∀ c a, c ∈ A → a ∈ c → sv_compare cmp a (mk_sv 0 0 k) = -1) ∧
  (∀ c a, c ∈ M → a ∈ c → sv_compare cmp a (mk_sv 0 0 k) = 0) ∧ (∀ c a, c ∈ B → a ∈ c → sv_compare cmp a (mk_sv 0 0 k) = 1) ∧
  (M = [] ∨ ∃ c, M = [c]).
Proof.
  destruct (key_split cmp (mk_sv 0 0 k) vss Hc) as (A & M & B & E & HA & HB & HM). exists A, M, B.
  split_and!; [done|done| |done|]; destruct HM as [[-> _]|(c & -> & Hk & _)]; eauto.
  - by intros c a Hx%not_elem_of_nil.
  - intros d a ->%list_elem_of_singleton. apply Hk.
Qed.
Lemma search_turn_ok s i k (lo hi : nat) : ok s → pi_key i = Some k → keys k → (lo <= hi <= length vs)%nat →
  (∀ n v, vs !! n = Some v → cmp (sv_pointer v) k = if decide (n < lo)%nat then -1 else if decide (n < hi)%nat then 0 else 1) →
  ∀ (n : nat) min max fuel, 0 <= min <= Z.of_nat lo → Z.of_nat hi <= max + 1 <= Z.of_nat (length vs) → max - min < Z.of_nat n → (n < fuel)%nat →
  ∃ pos, cloop fuel (pageiter_search_turn r i) (min, max) s = Some (Z.of_nat pos, s) ∧
    ((lo <= pos < hi)%nat ∨ lo = hi ∧ pos = lo).
Proof.
  intros Hs Hk Hkk Hlh Hcmp. induction n as [|n IH]; intros min max [|fuel] Hmin Hmax Hn Hf; try lia; rewrite cloop_S; cbn [pageiter_search_turn].
  - destruct (Z.ltb_spec max min); [|lia]. unfold cret. exists lo. split; [|lia]. do 2 f_equal. lia.
  - destruct (Z.ltb_spec max min); [unfold cret; exists lo; split; [do 2 f_equal; lia|lia]|].
    assert (0 <= Z.quot (max - min) 2 <= max - min) as Hq.
    { rewrite Z.quot_div_nonneg by lia. pose proof (Z.div_mod (max - min) 2). pose proof (Z.mod_pos_bound (max - min) 2). lia. }
    set (mid := min + Z.quot (max - min) 2) in *. destruct (Z_of_nat_complete mid) as [m Em]; [lia|].
    destruct (lookup_lt_is_Some_2 vs m) as [v Hmv]; [lia|].
    unfold cbind at 1. rewrite Em, pagev_run by (done || lia). unfold cbind at 1.
    rewrite (pv_cmp _ _ _ _ _ Hv s m v k i Hs Hmv Hk Hkk), (Hcmp m v Hmv).
    unfold cret. destruct (decide (m < lo)%nat); [|destruct (decide (m < hi)%nat)]; cbn [Z.eqb Pos.eqb].
    + apply IH; lia.
    + exists m. split; [done|lia].
    + apply IH; lia.
Qed.

(** ** Opening *)

Definition ended i i' : Prop := ∃ p, i' = pi_at i p None.
Definition at_chain i (A : list (list sv)) : sdpageiter := pi_at i (Z.of_nat (length (concat A))) (Some (sdv_at (length (concat A)))).

Lemma chain_cmp A c B v k R : vss = A ++ c :: B → (∀ a, a ∈ c → sv_compare cmp a (mk_sv 0 0 k) = R) → head c = Some v →
  vs !! length (concat A) = Some v ∧ cmp (sv_pointer v) k = R.
Proof.
  intros E HR Hh. destruct c as [|u c]; [done|]. injection Hh as ->. split.
  - rewrite <- (Nat.add_0_r (length (concat A))), (lookup_chain A (v :: c) B 0 E). done.
  - apply (HR v). constructor.
Qed.
Lemma places_cmp A M B k : vss = A ++ M ++ B → (∀ c a, c ∈ A → a ∈ c → sv_compare cmp a (mk_sv 0 0 k) = -1) →
  (∀ c a, c ∈ M → a ∈ c → sv_compare cmp a (mk_sv 0 0 k) = 0) → (∀ c a, c ∈ B → a ∈ c → sv_compare cmp a (mk_sv 0 0 k) = 1) →
  ∀ n v, vs !! n = Some v → cmp (sv_pointer v) k =
    if decide (n < length (concat A))%nat then -1 else if decide (n < length (concat A) + length (concat M))%nat then 0 else 1.
Proof.
  intros E HA HM HB n v Hn. rewrite E, !concat_app in Hn.
  assert (∀ L R, (∀ c a, c ∈ L → a ∈ c → sv_compare cmp a (mk_sv 0 0 k) = R) → v ∈ concat L → cmp (sv_pointer v) k = R) as HL.
  { intros L R HL (m & c & Hm & Hv')%elem_of_concat. apply (HL c v); [by eapply list_elem_of_lookup_2|done]. }
  destruct (decide _) as [Hlt|Hge]; [|destruct (decide _) as [Hlt|Hge']].
  - rewrite lookup_app_l in Hn by done. apply (HL A); [done|by eapply list_elem_of_lookup_2].
  - rewrite lookup_app_r, lookup_app_l in Hn by lia. apply (HL M); [done|by eapply list_elem_of_lookup_2].
  - rewrite !lookup_app_r in Hn by lia. apply (HL B); [done|by eapply list_elem_of_lookup_2].
Qed.

(** The search ends in the chain of the key, or at the next one, or in the last chain. *)
Definition landing A M B (P : list (list sv)) (c : list sv) S (R : Z) : Prop :=
  (R = 0 ∧ P = A ∧ M = [c] ∧ S = B) ∨ (R = 1 ∧ P = A ∧ M = [] ∧ B = c :: S) ∨ (R = -1 ∧ A = P ++ [c] ∧ M = [] ∧ B = [] ∧ S = []).
Lemma concat_pos (L : list (list sv)) : L ≠ [] → (∀ c, c ∈ L → (0 < length c)%nat) → (0 < length (concat L))%nat.
Proof.
  destruct L as [|c L]; [done|]. intros _ H. cbn [concat]. rewrite length_app. specialize (H c (list_elem_of_here _ _)). lia.
Qed.
Lemma landing_place A M B k (pos : nat) : vss ≠ [] → vss = A ++ M ++ B → (M = [] ∨ ∃ c, M = [c]) →
  (∀ c a, c ∈ A → a ∈ c → sv_compare cmp a (mk_sv 0 0 k) = -1) → (∀ c a, c ∈ M → a ∈ c → sv_compare cmp a (mk_sv 0 0 k) = 0) →
  (∀ c a, c ∈ B → a ∈ c → sv_compare cmp a (mk_sv 0 0 k) = 1) →
  ((length (concat A) <= pos < length (concat A) + length (concat M))%nat ∨
   (length (concat A) = length (concat A) + length (concat M))%nat ∧ pos = length (concat A)) →
  ∃ P c S j R, vss = P ++ c :: S ∧ (j < length c)%nat ∧
    (if Z.geb (Z.of_nat pos) (Z.of_nat (length vs)) then Z.of_nat (length vs) - 1 else Z.of_nat pos) = Z.of_nat (length (concat P) + j) ∧
    (∀ a, a ∈ c → sv_compare cmp a (mk_sv 0 0 k) = R) ∧ landing A M B P c S R.
Proof.
  intros Hne E HM1 HA HM HB Hp.
  assert (length vs = length (concat A) + length (concat M) + length (concat B))%nat as Hlen by (rewrite E, !concat_app, !length_app; lia).
  assert (∀ P c S, vss = P ++ c :: S → (0 < length c)%nat) as Hcn.
  { intros P c S EP. apply chain_nonempty. rewrite EP. apply elem_of_app. right. constructor. }
  destruct HM1 as [->|[c ->]].
  - cbn [concat length app] in *. rewrite Nat.add_0_r in Hp. destruct Hp as [|[_ ->]]; [lia|]. destruct B as [|c B].
    + rewrite app_nil_r in E. destruct (exists_last (l := A)) as (P & c & ->); [by rewrite <- E|].
      specialize (Hcn P c [] E). exists P, c, [], (length c - 1)%nat, (-1).
      rewrite concat_app in Hlen |- *. cbn [concat] in Hlen |- *. rewrite app_nil_r, length_app in Hlen |- *. cbn [length] in Hlen.
      split_and!; [done|lia| |intros a; apply HA, elem_of_app; right; constructor|by right; right].
      destruct (Z.geb_spec (Z.of_nat (length (concat P) + length c)) (Z.of_nat (length vs))); lia.
    + specialize (Hcn A c B E). exists A, c, B, 0%nat, 1. cbn [concat] in Hlen. rewrite length_app in Hlen.
      split_and!; [done|lia| |intros a; apply HB; constructor|by right; left].
      destruct (Z.geb_spec (Z.of_nat (length (concat A))) (Z.of_nat (length vs))); lia.
  - cbn [concat app] in *. rewrite app_nil_r in *. specialize (Hcn A c B E). exists A, c, B, (pos - length (concat A))%nat, 0.
    split_and!; [done|lia| |intros a; apply HM; constructor|by left].
    destruct (Z.geb_spec (Z.of_nat pos) (Z.of_nat (length vs))); lia.
Qed.
Lemma pageseek_run s i k A M B : ok s → pi_key i = Some k → keys k → vss ≠ [] → vss = A ++ M ++ B → (M = [] ∨ ∃ c, M = [c]) →
  (∀ c a, c ∈ A → a ∈ c → sv_compare cmp a (mk_sv 0 0 k) = -1) → (∀ c a, c ∈ M → a ∈ c → sv_compare cmp a (mk_sv 0 0 k) = 0) →
  (∀ c a, c ∈ B → a ∈ c → sv_compare cmp a (mk_sv 0 0 k) = 1) →
  ∃ P c S R, vss = P ++ c :: S ∧ pageiter_seek r i s = Some (at_chain i P, s) ∧
    (∀ i', pi_key i' = Some k → sd_pageiter_cmp r i' (sdv_at (length (concat P))) s = Some (R, s)) ∧ landing A M B P c S R.
Proof.
  intros Hs Hk Hkk Hne E HM1 HA HM HB. pose proof (places_cmp A M B k E HA HM HB) as Hcmp.
  assert (length vs = length (concat A) + length (concat M) + length (concat B))%nat as Hlen by (rewrite E, !concat_app, !length_app; lia).
  destruct (header_run s (λ h, cloop (S (S (Z.to_nat (h_count h)))) (pageiter_search_turn r i) (0, i32 (h_count h - 1))) Hs) as (h & Eh & Hh).
  pose proof (pv_size _ _ _ _ _ Hv) as Hsz. pose proof (concat_pos vss Hne chain_nonempty) as Hpos.
  destruct (search_turn_ok s i k (length (concat A)) (length (concat A) + length (concat M)) Hs Hk Hkk) with
    (n := S (length vs)) (min := 0) (max := Z.of_nat (length vs) - 1) (fuel := S (S (length vs))) as (pos & Ep & Hp); [lia|done|lia..|].
  rewrite Hh, swrap_id, Nat2Z.id in Eh by lia. rewrite Ep in Eh.
  destruct (landing_place A M B k pos Hne E HM1 HA HM HB Hp) as (P & c & S & j & R & EP & Hj & Epos & HR & Hcase).
  exists P, c, S, R. split_and!; [done| | |done].
  - unfold pageiter_seek. unfold cbind at 1. unfold sd_pageiter_search. rewrite Eh.
    destruct (pv_header _ _ _ _ _ Hv s Hs) as (h' & Eh' & Hh'). unfold cbind. rewrite Eh', Hh', Epos.
    unfold sd_pageiter_chain_head. replace (Z.to_nat (Z.of_nat (length (concat P) + j) + 1)) with (Datatypes.S (length (concat P) + j)) by lia.
    by apply (head_run P c S).
  - intros i' Hi'. destruct c as [|v c]; [simpl in Hj; lia|]. destruct (chain_cmp P (v :: c) S v k R EP HR eq_refl) as [Hl HRv].
    rewrite (pv_cmp _ _ _ _ _ Hv s _ v k i' Hs Hl Hi' Hkk). by rewrite HRv.
Qed.

(** Where an opened iterator stands: upward at the first of the chains [L] to visit, downward at
    the last of the chains [P]. *)
Definition opened_up i (L : list (list sv)) i' : Prop :=
  ∃ pre, vss = pre ++ L ∧ match L with [] => ended i i' | _ => i' = at_chain i pre end.
Definition opened_down i (P : list (list sv)) i' : Prop :=
  (P = [] ∧ ended i i') ∨ ∃ P' c S, P = P' ++ [c] ∧ vss = P' ++ c :: S ∧ i' = at_chain i P'.

Lemma head_before A B s i : vss = A ++ B → ok s →
  ∃ i', sd_pageiter_chain_head i (Z.of_nat (length (concat A)) - 1) s = Some (i', s) ∧ opened_down i A i'.
Proof.
  intros E Hs. unfold sd_pageiter_chain_head. replace (Z.to_nat (Z.of_nat (length (concat A)) - 1 + 1)) with (length (concat A)) by lia.
  destruct (decide (A = [])) as [->|Hne].
  - cbn. destruct (end_run s i Hs) as [n En]. rewrite En. eexists. split; [done|]. left. split; [done|]. by exists n.
  - destruct (exists_last Hne) as (P & c & ->). rewrite <- app_assoc in E. cbn [app] in E.
    assert (0 < length c)%nat as Hcn by (apply chain_nonempty; rewrite E; apply elem_of_app; right; constructor).
    rewrite concat_app. cbn [concat]. rewrite app_nil_r, length_app.
    replace (length (concat P) + length c)%nat with (S (length (concat P) + (length c - 1)))%nat by lia.
    rewrite (head_run P c B s i E Hs) by lia. eexists. split; [done|]. right. by exists P, c, B.
Qed.
Lemma next_after A c B s i : vss = A ++ c :: B → ok s →
  ∃ i', sd_pageiter_chain_next (at_chain i A) s = Some (i', s) ∧ opened_up i B i'.
Proof.
  intros E Hs. unfold sd_pageiter_chain_next.
  destruct (header_run s (λ h, chain_next_loop (at_chain i A) (Z.to_nat (h_count h - (pi_pos (at_chain i A) + 1))) (pi_pos (at_chain i A) + 1)) Hs) as (h & -> & ->).
  assert (0 < length c)%nat as Hcn by (apply chain_nonempty; rewrite E; apply elem_of_app; right; constructor).
  assert (length vs = length (concat A) + length c + length (concat B))%nat as Hlen by (rewrite E, concat_app; cbn [concat]; rewrite !length_app; lia).
  cbn [at_chain pi_at pi_pos].
  destruct (next_run A c B s (at_chain i A) E Hs (length c - 1) 1) as (i' & En & Hi'); [lia..|].
  replace (Z.to_nat _) with (length c - 1 + length (concat B))%nat by lia.
  replace (Z.of_nat (length (concat A)) + 1) with (Z.of_nat (length (concat A) + 1)) by lia.
  exists i'. split; [exact En|]. exists (A ++ [c]). rewrite <- app_assoc. split; [done|]. unfold stands in Hi'. destruct B as [|d B].
  - destruct Hi' as [p ->]. by exists p.
  - rewrite Hi'. unfold at_chain. rewrite concat_app. cbn [concat]. by rewrite app_nil_r, length_app.
Qed.

Section opening.
Context (s : pgst) (i : sdpageiter) (k : bytes) (A M B : list (list sv)).
Context (Hs : ok s) (Hk : pi_key i = Some k) (Hkk : keys k) (Hne : vss ≠ []) (E : vss = A ++ M ++ B) (HM1 : M = [] ∨ ∃ c, M = [c]).
Context (HA : ∀ c a, c ∈ A → a ∈ c → sv_compare cmp a (mk_sv 0 0 k) = -1).
Context (HM : ∀ c a, c ∈ M → a ∈ c → sv_compare cmp a (mk_sv 0 0 k) = 0).
Context (HB : ∀ c a, c ∈ B → a ∈ c → sv_compare cmp a (mk_sv 0 0 k) = 1).

Lemma gt_ok e : ∃ b i', sd_pageiter_gt r i e s = Some ((b, i'), s) ∧ opened_up i (if e then M ++ B else B) i' ∧ b = match M with [] => false | _ => true end.
Proof.
  destruct (pageseek_run s i k A M B Hs Hk Hkk Hne E HM1 HA HM HB) as (P & c & S & R & EP & Es & Ec & HR).
  destruct (next_after P c S s i EP Hs) as (i2 & En & H2).
  unfold sd_pageiter_gt. rewrite Hk. unfold cbind at 1. rewrite Es.
  change (pi_v (at_chain i P)) with (Some (sdv_at (length (concat P)))). unfold cbind at 1. rewrite (Ec (at_chain i P) Hk).
  destruct HR as [(-> & -> & -> & ->)|[(-> & -> & -> & ->)|(-> & -> & -> & -> & ->)]]; cbn [Z.eqb Pos.eqb].
  - destruct e; cbn [negb andb orb]; unfold cbind; rewrite ?En; unfold cret; eexists _, _; (split; [done|]); (split; [|done]); [|done]. by exists A.
  - cbn [andb orb]. unfold cbind, cret. eexists _, _. split; [done|]. split; [|done]. assert (opened_up i (c :: S) (at_chain i A)) by (by exists A).
    by destruct e.
  - cbn [andb orb]. unfold cbind. rewrite En. eexists _, _. split; [done|]. split; [|done]. by destruct e.
Qed.
Lemma lt_ok e : ∃ b i', sd_pageiter_lt r i e s = Some ((b, i'), s) ∧ opened_down i (if e then A ++ M else A) i'.
Proof.
  destruct (pageseek_run s i k A M B Hs Hk Hkk Hne E HM1 HA HM HB) as (P & c & S & R & EP & Es & Ec & HR).
  destruct (head_before P (c :: S) s (at_chain i P) EP Hs) as (i2 & En & H2).
  assert (opened_down i P i2) as H2'.
  { destruct H2 as [[-> [p ->]]|(P' & c' & S' & -> & E' & ->)]; [left; split; [done|]; by exists p|]. right. by exists P', c', S'. }
  unfold sd_pageiter_lt. rewrite Hk. unfold cbind at 1. rewrite Es.
  change (pi_v (at_chain i P)) with (Some (sdv_at (length (concat P)))). unfold cbind at 1. rewrite (Ec (at_chain i P) Hk).
  change (pi_pos (at_chain i P)) with (Z.of_nat (length (concat P))).
  assert (opened_down i (P ++ [c]) (at_chain i P)) as Hhere by (right; by exists P, c, S).
  destruct HR as [(-> & -> & -> & ->)|[(-> & -> & -> & ->)|(-> & -> & -> & -> & ->)]]; cbn [Z.eqb Pos.eqb].
  - destruct e; cbn [negb andb orb]; unfold cbind; rewrite ?En; unfold cret; eexists _, _; (split; [done|]); done.
  - cbn [andb orb]. unfold cbind. rewrite En. eexists _, _. split; [done|]. rewrite app_nil_r. by destruct e.
  - cbn [andb orb]. unfold cbind, cret. eexists _, _. split; [done|]. rewrite app_nil_r. by destruct e.
Qed.
End opening.

(** ** Iterating *)

Abbreviation gives := (page_gives r ok).
(** The iterator stands at the version at [n] and shows it. *)
Definition at_pos (o : ssorder) s i (n : nat) : Prop :=
  ok s ∧ pi_order i = o ∧ pi_pos i = Z.of_nat n ∧ pi_v i = Some (sdv_at n) ∧ vs !! n = Some (pi_current i).
Lemma gives_cons o s i n s' i' l : at_pos o s i n → sd_pageiter_next r i s = Some (i', s') → gives s' i' l →
  gives s i (pi_current i :: l).
Proof.
  intros (Hs & _ & _ & Hvi & _) E Hl. cbn [page_gives]. split; [done|]. split; [|by exists i', s']. unfold sd_pageiter_of, sd_pageiter_has. by rewrite Hvi.
Qed.
Lemma gives_end s i i' : ok s → ended i i' → gives s i' [].
Proof. by intros Hs [p ->]. Qed.
Lemma result_at o s i n : ok s → pi_order i = o → (n < length vs)%nat →
  ∃ i' s', sd_pageiter_result r (pi_at i (Z.of_nat n) (Some (sdv_at n))) s = Some (i', s') ∧ at_pos o s' i' n.
Proof.
  intros Hs Ho Hn. destruct (lookup_lt_is_Some_2 vs n Hn) as [v Hnv].
  destruct (pv_result _ _ _ _ _ Hv s n v (pi_at i (Z.of_nat n) (Some (sdv_at n))) Hs Hnv eq_refl) as (s' & E & Hs').
  eexists _, s'. split; [exact E|]. by split_and!.
Qed.
Lemma result_end s i i' : ended i i' → sd_pageiter_result r i' s = Some (i', s).
Proof. by intros [p ->]. Qed.

Lemma up_gives o : (o = SS_GT ∨ o = SS_GTE) → ∀ m n s i, (length vs <= n + m)%nat → at_pos o s i n → gives s i (drop n vs).
Proof.
  intros Ho. induction m as [|m IH]; intros n s i Hm Hat; pose proof Hat as (Hs & Hor & Hpos & Hvi & Hl).
  { apply lookup_lt_Some in Hl. lia. }
  rewrite (drop_S vs _ n Hl).
  assert (∃ i' s', sd_pageiter_next r i s = Some (i', s') ∧ gives s' i' (drop (S n) vs)) as (i' & s' & E & G); [|by eapply gives_cons].
  unfold sd_pageiter_next. rewrite Hvi. destruct (pv_header _ _ _ _ _ Hv s Hs) as (h & Eh & Hh). unfold cbind at 1. rewrite Eh.
  assert (∃ i' s', (let i0 := pi_at i (pi_pos i + 1) (Some (sdv_at n)) in
    if Z.geb (pi_pos i0) (h_count h) then sd_pageiter_end i0
    else let! v := on_page (sd_pagev (pi_pos i0)) in sd_pageiter_result r (pi_at i0 (pi_pos i0) (Some v))) s = Some (i', s') ∧ gives s' i' (drop (S n) vs)) as Hg;
    [|rewrite Hor; by destruct Ho as [-> | ->]].
  cbv zeta. cbn [pi_at pi_pos]. rewrite Hpos, Hh. destruct (Z.geb_spec (Z.of_nat n + 1) (Z.of_nat (length vs))) as [Hge|Hlt].
  - destruct (end_run s (pi_at i (Z.of_nat n + 1) (Some (sdv_at n))) Hs) as [p Ep]. eexists _, s. split; [exact Ep|].
    rewrite drop_ge by lia. done.
  - replace (Z.of_nat n + 1) with (Z.of_nat (S n)) by lia. unfold cbind. rewrite pagev_run by (done || lia).
    destruct (result_at o s i (S n) Hs Hor) as (i' & s' & E & Hat'); [lia|]. eexists i', s'. split; [exact E|]. apply IH; [lia|done].
Qed.

(** Whether the version after the current one belongs to its chain. *)
Lemma next_dup A c S j s i h : vss = A ++ c :: S → ok s → pi_pos i = Z.of_nat (length (concat A) + j) → h_count h = Z.of_nat (length vs) →
  (j < length c)%nat →
  (if Z.ltb (pi_pos i + 1) (h_count h) then
     let! v := on_page (sd_pagev (pi_pos i + 1)) in
     let! d := on_page (rd_sdv v) in
     cret (if c_true (Z.land (d_flags d) SVDUP) then Some v else None)
   else cret None) s = Some (if decide (j + 1 < length c)%nat then Some (sdv_at (length (concat A) + (j + 1))) else None, s).
Proof.
  intros E Hs Hpos Hh Hj.
  assert (length vs = length (concat A) + length c + length (concat S))%nat as Hlen by (rewrite E, concat_app; cbn [concat]; rewrite !length_app; lia).
  rewrite Hpos, Hh. replace (Z.of_nat (length (concat A) + j) + 1) with (Z.of_nat (length (concat A) + (j + 1))) by lia.
  destruct (Z.ltb_spec (Z.of_nat (length (concat A) + (j + 1))) (Z.of_nat (length vs))); [|by rewrite decide_False by lia].
  destruct (decide (j + 1 < length c)%nat) as [Hin|Hout].
  - destruct (lookup_lt_is_Some_2 c _ Hin) as [v Hjv]. destruct (dup_run A c S _ v s E Hjv Hs) as (E1 & d & E2 & E3).
    unfold cbind. rewrite E1, E2, E3, bool_decide_false by lia. done.
  - destruct S as [|d0 S]; [simpl in Hlen; lia|]. assert (vss = (A ++ [c]) ++ d0 :: S) as E' by (by rewrite <- app_assoc).
    assert (0 < length d0)%nat as Hd0 by (apply chain_nonempty; rewrite E'; apply elem_of_app; right; constructor).
    destruct (lookup_lt_is_Some_2 d0 _ Hd0) as [v Hjv]. destruct (dup_run _ d0 S _ v s E' Hjv Hs) as (E1 & d & E2 & E3).
    rewrite concat_app in E1, E2. cbn [concat] in E1, E2. rewrite app_nil_r, length_app, Nat.add_0_r in E1, E2.
    replace (length (concat A) + (j + 1))%nat with (length (concat A) + length c)%nat by lia. unfold cbind. by rewrite E1, E2, E3.
Qed.
(** Downward, one chain after another. *)
Lemma down_step o A c S j s i : (o = SS_LT ∨ o = SS_LTE) → vss = A ++ c :: S → at_pos o s i (length (concat A) + j) → (j < length c)%nat →
  ∃ i' s', sd_pageiter_next r i s = Some (i', s') ∧
    ((j + 1 < length c)%nat ∧ at_pos o s' i' (length (concat A) + (j + 1)) ∨
     (j + 1 = length c)%nat ∧ ((A = [] ∧ gives s' i' []) ∨ ∃ P d, A = P ++ [d] ∧ at_pos o s' i' (length (concat P)))).
Proof.
  intros Ho E Hat Hj. pose proof Hat as (Hs & Hor & Hpos & Hvi & Hl).
  unfold sd_pageiter_next. rewrite Hvi. destruct (pv_header _ _ _ _ _ Hv s Hs) as (h & Eh & Hh). unfold cbind at 1. rewrite Eh.
  assert (length vs = length (concat A) + length c + length (concat S))%nat as Hlen by (rewrite E, concat_app; cbn [concat]; rewrite !length_app; lia).
  set (dup := if Z.ltb _ _ then _ else _).
  assert (dup s = Some (if decide (j + 1 < length c)%nat then Some (sdv_at (length (concat A) + (j + 1))) else None, s)) as Ed
    by (by apply (next_dup A c S j s i h)).
  set (tail := λ d : option nat, let! i := (match d with Some v => cret (pi_at i (pi_pos i + 1) (Some v)) | None =>
     let! i := sd_pageiter_chain_head i (pi_pos i) in sd_pageiter_chain_head i (pi_pos i - 1) end) in sd_pageiter_result r i).
  assert (∃ i' s', (let! d := dup in tail d) s = Some (i', s') ∧
    ((j + 1 < length c)%nat ∧ at_pos o s' i' (length (concat A) + (j + 1)) ∨
     (j + 1 = length c)%nat ∧ ((A = [] ∧ gives s' i' []) ∨ ∃ P d, A = P ++ [d] ∧ at_pos o s' i' (length (concat P))))) as Hg;
    [|rewrite Hor; by destruct Ho as [-> | ->]].
  unfold cbind at 1. rewrite Ed. subst tail. cbv beta. destruct (decide (j + 1 < length c)%nat) as [Hin|Hout].
  - destruct (result_at o s i (length (concat A) + (j + 1)) Hs Hor) as (i' & s' & Er & Hat'); [lia|]. exists i', s'.
    split; [|left; done]. unfold cbind, cret. rewrite Hpos. by replace (Z.of_nat (length (concat A) + j) + 1) with (Z.of_nat (length (concat A) + (j + 1))) by lia.
  - rewrite Hpos. unfold cbind, sd_pageiter_chain_head at 1. replace (Z.to_nat (Z.of_nat (length (concat A) + j) + 1)) with (Datatypes.S (length (concat A) + j)) by lia.
    rewrite (head_run A c S s i E Hs j Hj). change (pi_at i _ _) with (at_chain i A).
    change (pi_pos (at_chain i A)) with (Z.of_nat (length (concat A))).
    destruct (head_before A (c :: S) s (at_chain i A) E Hs) as (i2 & E2 & H2). rewrite E2.
    destruct H2 as [[-> Hend]|(P & d & S' & -> & EP & ->)].
    + rewrite (result_end s _ _ Hend). eexists _, _. split; [done|]. right. split; [lia|]. left. split; [done|]. by eapply gives_end.
    + assert (0 < length d)%nat by (apply chain_nonempty; rewrite EP; apply elem_of_app; right; constructor).
      destruct (result_at o s (at_chain i (P ++ [d])) (length (concat P)) Hs Hor) as (i' & s' & Er & Hat').
      { rewrite EP, concat_app. cbn [concat]. rewrite !length_app. lia. }
      exists i', s'. split; [exact Er|]. right. split; [lia|]. right. by exists P, d.
Qed.
Lemma down_gives o : (o = SS_LT ∨ o = SS_LTE) → ∀ A c S, vss = A ++ c :: S → ∀ m j s i, (j + m = length c)%nat → (0 < m)%nat →
  at_pos o s i (length (concat A) + j) → gives s i (drop j c ++ concat (reverse A)).
Proof.
  intros Ho A. induction A as [|d P IHA] using rev_ind; intros c S E m; induction m as [|m IHm]; intros j s i Hj Hm Hat; try lia.
  all: pose proof Hat as (_ & _ & _ & _ & Hl); destruct (lookup_lt_is_Some_2 c j) as [v Hjv]; [lia|].
  all: rewrite (lookup_chain _ c S j E), lookup_app_l, Hjv in Hl by lia; injection Hl as Hl.
  all: rewrite (drop_S c v j Hjv); rewrite Hl; cbn [app].
  all: destruct (down_step o _ c S j s i Ho E Hat) as (i' & s' & En & [[Hlt Hat']|[Heq [[HA G]|(P' & d' & HA & Hat')]]]); [lia|..].
  all: eapply gives_cons; [exact Hat|exact En|].
  - replace (Datatypes.S j) with (j + 1)%nat by lia. apply IHm; [lia|lia|done].
  - rewrite drop_ge by lia. done.
  - by destruct P'.
  - replace (Datatypes.S j) with (j + 1)%nat by lia. apply IHm; [lia|lia|done].
  - by destruct P.
  - apply app_inj_2 in HA as [<- [= <-]]; [|done]. rewrite drop_ge by lia. rewrite reverse_snoc. cbn [app concat].
    rewrite <- app_assoc in E. cbn [app] in E.
    assert (0 < length d)%nat by (apply chain_nonempty; rewrite E; apply elem_of_app; right; constructor).
    apply (IHA d (c :: S) E (length d) 0%nat s' i'); [lia|lia|]. by rewrite Nat.add_0_r.
Qed.

(** ** Opening and iterating *)

Lemma up_opened o s i L i' : (o = SS_GT ∨ o = SS_GTE) → ok s → pi_order i = o → opened_up i L i' →
  ∃ i2 s2, sd_pageiter_result r i' s = Some (i2, s2) ∧ gives s2 i2 (concat L).
Proof.
  intros Ho Hs Hor (pre & E & HL). destruct L as [|c L].
  - exists i', s. split; [by eapply result_end|by eapply gives_end].
  - subst i'. assert (0 < length c)%nat by (apply chain_nonempty; rewrite E; apply elem_of_app; right; constructor).
    assert (length vs = length (concat pre) + length c + length (concat L))%nat by (rewrite E, concat_app; cbn [concat]; rewrite !length_app; lia).
    destruct (result_at o s i (length (concat pre)) Hs Hor) as (i2 & s2 & Er & Hat); [lia|]. exists i2, s2. split; [exact Er|].
    replace (concat (c :: L)) with (drop (length (concat pre)) vs); [|by rewrite E, concat_app, drop_app_length].
    by apply (up_gives o Ho (length vs)); [lia|].
Qed.
Lemma down_opened o s i P i' : (o = SS_LT ∨ o = SS_LTE) → ok s → pi_order i = o → opened_down i P i' →
  ∃ i2 s2, sd_pageiter_result r i' s = Some (i2, s2) ∧ gives s2 i2 (concat (reverse P)).
Proof.
  intros Ho Hs Hor [[-> Hend]|(A & c & S & -> & E & ->)].
  - exists i', s. split; [by eapply result_end|by eapply gives_end].
  - assert (0 < length c)%nat by (apply chain_nonempty; rewrite E; apply elem_of_app; right; constructor).
    assert (length vs = length (concat A) + length c + length (concat S))%nat by (rewrite E, concat_app; cbn [concat]; rewrite !length_app; lia).
    destruct (result_at o s i (length (concat A)) Hs Hor) as (i2 & s2 & Er & Hat); [lia|]. exists i2, s2. split; [exact Er|].
    rewrite reverse_snoc. cbn [concat app]. rewrite <- (drop_0 c).
    apply (down_gives o Ho A c S E (length c) 0 s2 i2); [lia|lia|]. by rewrite Nat.add_0_r.
Qed.
Lemma found_split k A M B : vss = A ++ M ++ B → (∀ c a, c ∈ A → a ∈ c → sv_compare cmp a (mk_sv 0 0 k) = -1) → (∀ c a, c ∈ M → a ∈ c → sv_compare cmp a (mk_sv 0 0 k) = 0) →
  (∀ c a, c ∈ B → a ∈ c → sv_compare cmp a (mk_sv 0 0 k) = 1) → found cmp k vss = match M with [] => false | _ => true end.
Proof.
  intros E HA HM HB. assert (∀ c, c ∈ vss → ∃ a, head c = Some a ∧ a ∈ c) as Hh.
  { intros c Hin. pose proof (chain_nonempty c Hin). destruct c as [|a c]; [simpl in *; lia|]. exists a. split; [done|constructor]. }
  assert (∀ L (R : Z), (∀ c, c ∈ L → c ∈ vss) → R ≠ 0 → (∀ c a, c ∈ L → a ∈ c → sv_compare cmp a (mk_sv 0 0 k) = R) → found cmp k L = false) as HL.
  { intros L R Hin HR HL. apply not_true_iff_false. intros (c & Hcin & Hz)%existsb_exists. apply list_elem_of_In in Hcin. destruct (Hh c (Hin c Hcin)) as (a & Ea & Ha). rewrite Ea in Hz. cbn in Hz. rewrite (HL c a Hcin Ha) in Hz. lia. }
  unfold found. rewrite E, !existsb_app. fold (found cmp k A) (found cmp k M) (found cmp k B).
  rewrite (HL A (-1)), (HL B 1) by (done || intros c Hin; rewrite E; set_solver). rewrite orb_false_r. cbn [orb]. destruct M as [|c M]; [done|]. cbn. unfold found. cbn.
  destruct (Hh c) as (a & Ea & Ha); [rewrite E; set_solver|]. rewrite Ea. cbn. by rewrite (HM c a (list_elem_of_here _ _) Ha).
Qed.
Lemma pageiter_open_ok o key s : ok s → walk_order o = true → (∀ k, key = Some k → keys k) →
  ∃ eq i s', sd_pageiter_open r o key s = Some ((eq, i), s') ∧ gives s' i (concat (seek cmp o key vss)) ∧ ∀ k, o = SS_GTE → key = Some k → eq = found cmp k vss.
Proof.
  intros Hs Ho Hkey. unfold sd_pageiter_open. cbv zeta. set (i0 := mk_pageiter 0 None (mk_sv 0 0 []) o key).
  destruct (pv_header _ _ _ _ _ Hv s Hs) as (h & Eh & Hh). unfold cbind at 1. rewrite Eh.
  destruct (decide (vss = [])) as [E|Hne].
  { assert (h_count h = 0) as -> by (by rewrite Hh, E). rewrite Z.eqb_refl. destruct (end_run s i0 Hs) as [n En]. unfold cbind. rewrite En.
    eexists _, _, s. split; [done|]. rewrite E. split; [|done]. unfold seek. replace (match key with None => [] | Some _ => _ end) with (@nil (list sv)) by (by destruct key).
    destruct (downward o); done. }
  pose proof (concat_pos vss Hne chain_nonempty) as Hpos. destruct (Z.eqb_spec (h_count h) 0); [lia|].
  set (m := match o with SS_GT => _ | _ => _ end).
  assert (∃ b i' i2 s2, m s = Some ((b, i'), s) ∧ sd_pageiter_result r i' s = Some (i2, s2) ∧ gives s2 i2 (concat (seek cmp o key vss)) ∧ ∀ k, o = SS_GTE → key = Some k → b = found cmp k vss)
    as (b & i' & i2 & s2 & Em & Er & G).
  2: { exists b, i2, s2. unfold cbind. rewrite Em. cbn [snd]. by rewrite Er. }
  subst m. destruct key as [k|].
  - destruct (key_places k) as (A & M & B & E & HA & HM & HB & HM1). specialize (Hkey k eq_refl).
    rewrite (seek_split cmp o k vss A M B Hc E HA HM HB).
    pose proof (gt_ok s i0 k A M B Hs eq_refl Hkey Hne E HM1 HA HM HB) as Hgt.
    pose proof (lt_ok s i0 k A M B Hs eq_refl Hkey Hne E HM1 HA HM HB) as Hlt.
    destruct o; try done.
    + destruct (Hlt false) as (b & i' & Em & Hop). destruct (down_opened SS_LT s i0 A i') as (i2 & s2 & Er & G); [auto..|]. eexists _, _, _, _. split_and!; [done|exact Er|exact G|done].
    + destruct (Hlt true) as (b & i' & Em & Hop). destruct (down_opened SS_LTE s i0 (A ++ M) i') as (i2 & s2 & Er & G); [auto..|]. eexists _, _, _, _. split_and!; [done|exact Er|exact G|done].
    + destruct (Hgt false) as (b & i' & Em & Hop & _). destruct (up_opened SS_GT s i0 B i') as (i2 & s2 & Er & G); [auto..|]. eexists _, _, _, _. split_and!; [done|exact Er|exact G|done].
    + destruct (Hgt true) as (b & i' & Em & Hop & Hb). destruct (up_opened SS_GTE s i0 (M ++ B) i') as (i2 & s2 & Er & G); [auto..|].
      exists b, i', i2, s2. split_and!; [done|done|done|]. intros k' _ [= <-]. rewrite Hb. symmetry. by apply (found_split k A M B).
  - assert (opened_up i0 vss (at_chain i0 [])) as Hup by (exists []; split; [done|by destruct vss]).
    assert (∀ e, sd_pageiter_gt r i0 e s = Some ((false, at_chain i0 []), s)) as Egt.
    { intros e. unfold sd_pageiter_gt. cbn [i0 pi_key]. unfold cbind. change 0 with (Z.of_nat 0) at 1; by rewrite (pagev_run s 0 Hs Hpos). }
    destruct (head_before vss [] s i0) as (i' & El & Hdn); [by rewrite app_nil_r|done|].
    assert (∀ e, sd_pageiter_lt r i0 e s = Some ((false, i'), s)) as Elt.
    { intros e. unfold sd_pageiter_lt. cbn [i0 pi_key]. unfold cbind. fold i0. rewrite Eh, Hh. by rewrite El. }
    unfold seek. destruct o; try done; cbn [downward]; rewrite ?Egt, ?Elt.
    + destruct (down_opened SS_LT s i0 vss i') as (i2 & s2 & Er & G); [auto..|]. eexists _, _, _, _. split_and!; [done|exact Er|exact G|done].
    + destruct (down_opened SS_LTE s i0 vss i') as (i2 & s2 & Er & G); [auto..|]. eexists _, _, _, _. split_and!; [done|exact Er|exact G|done].
    + destruct (up_opened SS_GT s i0 vss (at_chain i0 [])) as (i2 & s2 & Er & G); [auto..|]. eexists _, _, _, _. split_and!; [done|exact Er|exact G|done].
    + destruct (up_opened SS_GTE s i0 vss (at_chain i0 [])) as (i2 & s2 & Er & G); [auto..|]. eexists _, _, _, _. split_and!; [done|exact Er|exact G|done].
Qed.
End walk.
