(* ===== verification/SdPageRep.v ===== *)
(** Pages as blocks of bytes: what a page that holds given versions looks like in the two
    storage formats, and that its versions are read, compared and iterated accordingly. *)
From stdpp Require Import base list sorting sets.
From S2P Require Import Prelude SsOrder Sv SsBytes SsBuf Sf SrScheme SvMerge SvMergeProofs SvIndex SvIndexProofs SvIndexIter SdPage SdPageIter.
Local Open Scope Z_scope.
Local Open Scope c_scope.

(** * Header and array *)

Definition header_ok (h : sdpageheader) : Prop :=
  is_u32 (h_crc h) ∧ is_u32 (h_crcdata h) ∧ is_u32 (h_count h) ∧ is_u32 (h_countdup h) ∧ is_u32 (h_sizeorigin h) ∧
  is_u32 (h_sizekeys h) ∧ is_u32 (h_size h) ∧ is_u64 (h_lsnmin h) ∧ is_u64 (h_lsnmindup h) ∧ is_u64 (h_lsnmax h).
Lemma header_length h : length (header_enc h) = sizeof_sdpageheader.
Proof. unfold header_enc. by rewrite !length_app, !le_enc_length. Qed.
Lemma header_read m off h : mem_at m off (header_enc h) → header_ok h → header_at off m = Some h.
Proof.
  intros Hm (H1 & H2 & H3 & H4 & H5 & H6 & H7 & H8 & H9 & H10). unfold header_enc in Hm. unfold in_u in *.
  repeat match type of Hm with mem_at _ _ (_ ++ _) => apply mem_at_app in Hm as [?M Hm] end.
  rewrite !le_enc_length in *. rewrite <- !Nat.add_assoc in *. cbn [plus] in *. unfold header_at.
  repeat (erewrite load_le_at by (eassumption || done); cbn [mbind option_bind]).
  by destruct h.
Qed.

Definition sdv_ok (d : sdv) : Prop := is_u32 (d_offset d) ∧ is_byte (d_flags d).
Lemma sdv_length d : length (sdv_enc d) = sizeof_sdv.
Proof. unfold sdv_enc. by rewrite length_app, le_enc_length. Qed.
Lemma sdvs_length ds : length (concat (sdv_enc <$> ds)) = (sizeof_sdv * length ds)%nat.
Proof. induction ds as [|d ds IH]; [done|]. rewrite fmap_cons. cbn [concat]. rewrite length_app, sdv_length, IH. cbn [length]. lia. Qed.
Lemma sdvs_at ds n d : ds !! n = Some d → mem_at (concat (sdv_enc <$> ds)) (sizeof_sdv * n) (sdv_enc d).
Proof.
  intros (l & r & -> & <- & _)%split_at. exists (concat (sdv_enc <$> l)), (concat (sdv_enc <$> r)).
  rewrite fmap_app, concat_app, fmap_cons. cbn [concat]. by rewrite sdvs_length.
Qed.
Lemma rd_sdv_run m p d : mem_at m p (sdv_enc d) → sdv_ok d → rd_sdv p m = Some (d, m).
Proof.
  intros [Ho Hf]%mem_at_app [Hu _]. rewrite le_enc_length in Hf. unfold rd_sdv, load8, cbind, cread.
  rewrite (load_le_at _ _ _ _ Ho) by (unfold in_u in Hu; done). cbv beta iota. rewrite (mem_at_load8 _ _ _ _ Hf). by destruct d.
Qed.

(** A page: its header, the array, and the rest. *)
Record page_rep (P : bytes) (h : sdpageheader) (ds : list sdv) (body : bytes) : Prop := {
  pr_bytes : P = header_enc h ++ concat (sdv_enc <$> ds) ++ body;
  pr_header : header_ok h;
  pr_count : h_count h = Z.of_nat (length ds);
  pr_size : h_sizeorigin h = Z.of_nat (sizeof_sdv * length ds + length body);
  pr_sdvs : Forall sdv_ok ds
}.
Lemma page_body P h ds body off bs : page_rep P h ds body → mem_at body off bs →
  mem_at P (sizeof_sdpageheader + sizeof_sdv * length ds + off) bs.
Proof.
  intros [-> _ _ _ _] (l & r & -> & <-). exists (header_enc h ++ concat (sdv_enc <$> ds) ++ l), r.
  rewrite !length_app, header_length, sdvs_length, <- !app_assoc. split; [done|lia].
Qed.
Lemma page_h_run P h ds body : page_rep P h ds body → page_h P = Some (h, P).
Proof.
  intros [-> Hh _ _ _]. unfold page_h, cread. rewrite (header_read _ 0 h); [done| |done].
  by exists [], (concat (sdv_enc <$> ds) ++ body).
Qed.
Lemma page_sdv P h ds body n d : page_rep P h ds body → ds !! n = Some d →
  mem_at P (sdv_at n) (sdv_enc d) ∧ rd_sdv (sdv_at n) P = Some (d, P).
Proof.
  intros [-> _ _ _ Hok] Hd. destruct (sdvs_at ds n d Hd) as (l & r & E & Hl).
  assert (mem_at (header_enc h ++ concat (sdv_enc <$> ds) ++ body) (sdv_at n) (sdv_enc d)) as Hm.
  { exists (header_enc h ++ l), (r ++ body). rewrite E, length_app, header_length, <- !app_assoc. split; [done|]. unfold sdv_at. lia. }
  split; [done|]. apply rd_sdv_run; [done|]. by eapply Forall_lookup_1.
Qed.
Lemma page_pointer P h ds body n d : page_rep P h ds body → ds !! n = Some d → d_offset d <= Z.of_nat (length body) →
  sd_pagepointer (sdv_at n) P = Some ((sizeof_sdpageheader + sizeof_sdv * length ds + Z.to_nat (d_offset d))%nat, P).
Proof.
  intros Hp Hd Ho. unfold sd_pagepointer, cbind. rewrite (page_h_run _ _ _ _ Hp), (proj2 (page_sdv _ _ _ _ _ _ Hp Hd)).
  unfold cassert. rewrite (pr_count _ _ _ _ Hp), (pr_size _ _ _ _ Hp).
  destruct (Z.leb_spec (Z.of_nat sizeof_sdv * Z.of_nat (length ds) + d_offset d) (Z.of_nat (sizeof_sdv * length ds + length body))); [|lia].
  unfold cret. by rewrite Nat2Z.id.
Qed.

(** * The raw format: size, lsn and row of a version *)

Definition raw_rec (v : sv) : bytes := leb (sv_size v) ++ leb (sv_lsn v) ++ sv_pointer v.
Definition sv_ok (v : sv) : Prop := is_u64 (sv_lsn v) ∧ sv_size v < 2147483648.
Definition raw_entry (body : bytes) (d : sdv) (v : sv) : Prop :=
  d_flags d = sv_flags v ∧ mem_at body (Z.to_nat (d_offset d)) (raw_rec v) ∧ sv_ok v.
Definition raw_page (P : bytes) (vs : list sv) : Prop :=
  ∃ h ds body, page_rep P h ds body ∧ Forall2 (raw_entry body) ds vs.

Lemma sv_size_u64 v : sv_ok v → is_u64 (sv_size v).
Proof. intros [_ H]. unfold in_u, sv_size in *. lia. Qed.
Lemma mem_at_length m off bs : mem_at m off bs → (off + length bs <= length m)%nat.
Proof. intros (l & r & -> & <-). rewrite !length_app. lia. Qed.
(** The version at [n], where its bytes are, and what the accessors read. *)
Lemma raw_version P vs n v : raw_page P vs → vs !! n = Some v → ∃ ptr,
  sd_pagepointer (sdv_at n) P = Some (ptr, P) ∧ mem_at P ptr (raw_rec v) ∧ sv_ok v ∧
  ∃ d, rd_sdv (sdv_at n) P = Some (d, P) ∧ d_flags d = sv_flags v.
Proof.
  intros (h & ds & body & Hp & HF) Hv. destruct (Forall2_lookup_r _ _ _ _ _ HF Hv) as (d & Hd & Hfl & Hm & Hok).
  eexists. split_and!.
  - apply (page_pointer P h ds body n d Hp Hd). pose proof (mem_at_length _ _ _ Hm). pose proof (Forall_lookup_1 _ _ _ _ (pr_sdvs _ _ _ _ Hp) Hd) as [Hu _].
    unfold in_u in Hu. lia.
  - by eapply page_body.
  - done.
  - exists d. split; [|done]. by apply (page_sdv P h ds body n d Hp Hd).
Qed.
Lemma raw_meta P vs n v : raw_page P vs → vs !! n = Some v →
  ∃ ptr, sd_pagemetaof (sdv_at n) P = Some ((ptr, sv_size v, sv_lsn v), P) ∧ mem_at P ptr (sv_pointer v) ∧ sv_ok v.
Proof.
  intros Hp Hv. destruct (raw_version P vs n v Hp Hv) as (ptr & E & Hm & Hok & _). unfold raw_rec in Hm.
  pose proof Hm as Hm2. apply mem_at_app in Hm2 as [_ Hm2]. pose proof Hm2 as Hm3. apply mem_at_app in Hm3 as [_ Hm3].
  exists (ptr + length (leb (sv_size v)) + length (leb (sv_lsn v)))%nat. split_and!; [|done|done].
  unfold sd_pagemetaof, cbind. rewrite E, (leb_read_at _ _ _ _ Hm (sv_size_u64 v Hok)). cbn [fst snd].
  by rewrite (leb_read_at _ _ _ _ Hm2 (proj1 Hok)).
Qed.
Lemma raw_vif P vs n v : raw_page P vs → vs !! n = Some v → sd_vif (sdv_at n) P = Some (v, P).
Proof.
  intros Hp Hv. destruct (raw_version P vs n v Hp Hv) as (ptr & E & Hm & Hok & d & Ed & Hfl). unfold raw_rec in Hm.
  pose proof Hm as Hm2. apply mem_at_app in Hm2 as [_ Hm2]. pose proof Hm2 as Hm3. apply mem_at_app in Hm3 as [_ Hm3].
  assert (sd_viflsn (sdv_at n) P = Some (sv_lsn v, P)) as E1.
  { unfold sd_viflsn, sd_pagelsnof, cbind. rewrite E, (leb_skip_at _ _ _ _ Hm (sv_size_u64 v Hok)). by rewrite (leb_read_at _ _ _ _ Hm2 (proj1 Hok)). }
  assert (sd_vifsize (sdv_at n) P = Some (sv_size v, P)) as E2.
  { unfold sd_vifsize, sd_pagesizeof, cbind. rewrite E, (leb_read_at _ _ _ _ Hm (sv_size_u64 v Hok)). unfold cret. cbn [snd].
    rewrite wrap_id; [done|]. destruct Hok. unfold in_u, sv_size in *. lia. }
  unfold sd_vif, sv_through, sd_vifflags, sd_vifpointer, cbind, cret, cread. rewrite Ed, E1, E2, E, (leb_skip_at _ _ _ _ Hm (sv_size_u64 v Hok)).
  rewrite (leb_skip_at _ _ _ _ Hm2 (proj1 Hok)). unfold sv_size. rewrite Nat2Z.id. unfold sv_size in Hm3. rewrite (mem_at_read _ _ _ Hm3), Hfl. by destruct v.
Qed.

(** The scheme compares with its own functions. *)
Definition own_scheme (s : srscheme) : Prop := s_cmp s = SCHEME_OWN ∧ s_count s = length (parts_of s).
Definition small (vs : list sv) : Prop := Z.of_nat (length vs) < 2147483648.
Lemma read_int_at m p bs : mem_at m p bs → Z.of_nat (length bs) < 2147483648 → read_int p (Z.of_nat (length bs)) m = Some bs.
Proof.
  intros Hm Hl. unfold read_int. rewrite swrap_id by lia. destruct (Z.ltb_spec (Z.of_nat (length bs)) 0); [lia|].
  rewrite Nat2Z.id. by apply mem_at_read.
Qed.
Lemma compare_ok s a b : own_scheme s → row_ready s a → row_ready s b → sr_compare s a b = Some (scheme_cmp s a b).
Proof.
  intros [Ho Hc] Ha Hb. unfold sr_compare, sr_schemecompare. rewrite Ho, Hc, decide_True by done. apply schemecompare_loop_ok.
  unfold row_ready in *. rewrite !Forall_forall in *. intros p Hp. auto.
Qed.
(** On a page of the raw format the iterator may rely on what it needs. *)
Lemma raw_view r P xf vs : r_fmt_storage r = SF_SRAW → own_scheme (r_scheme r) → small vs → raw_page P vs →
  Forall (λ v, row_ready (r_scheme r) (sv_pointer v)) vs →
  page_view r (scheme_cmp (r_scheme r)) (row_ready (r_scheme r)) (λ s, s = mk_pgst P xf) vs.
Proof.
  intros Hr Hsc Hs Hp Hrow. split; [done|..].
  - intros s ->. destruct Hp as (h & ds & body & Hp & HF). exists h. unfold on_page. cbn [pg_page]. rewrite (page_h_run _ _ _ _ Hp). split; [done|].
    rewrite (pr_count _ _ _ _ Hp). by rewrite (Forall2_length _ _ _ HF).
  - intros s n v -> Hv. destruct (raw_version P vs n v Hp Hv) as (_ & _ & _ & _ & d & Ed & Hfl). exists d. unfold on_page. cbn [pg_page]. by rewrite Ed.
  - intros s n v i -> Hv Hi. eexists. split; [|done]. unfold sd_pageiter_result, on_page, cbind. rewrite Hi, Hr. cbn [pg_page].
    by rewrite (raw_vif P vs n v Hp Hv).
  - intros s n v k i -> Hv Hi Hk. destruct (raw_meta P vs n v Hp Hv) as (ptr & E & Hm & Hok).
    unfold sd_pageiter_cmp, on_page, cbind, cread. rewrite Hi, Hr. cbn [pg_page]. rewrite E. cbn [fst snd pg_page].
    unfold sv_size. rewrite (read_int_at _ _ _ Hm) by (apply Hok). rewrite compare_ok; [done|done| |done].
    by eapply (Forall_lookup_1 (λ v, row_ready (r_scheme r) (sv_pointer v))).
Qed.
