(* ===== verification/SdPageKv.v ===== *)
(** Pages of the key-value format: the key parts of the versions are kept at the end of the
    page, each once if duplicates are found, and a version refers to its own by offsets. *)
From stdpp Require Import base list sorting sets.
From S2P Require Import Prelude SsOrder Sv SsBytes SsBuf Sf SrScheme SvMerge SvMergeProofs SvIndex SvIndexProofs SvIndexIter SdPage SdPageIter SdPageRep.
Local Open Scope Z_scope.
Local Open Scope c_scope.

(** * Layout *)

Definition blen (bs : bytes) : Z := Z.of_nat (length bs).
Definition kv_rec (size lsn : Z) (offs : list Z) (value : bytes) : bytes :=
  leb size ++ leb lsn ++ concat (leb <$> offs) ++ value.
Definition key_rec (k : bytes) : bytes := leb (blen k) ++ k.
(** A version whose row has the parts [ks] and the value [value]. *)
Record kv_parts (v : sv) (ks : list bytes) (value : bytes) : Prop := {
  kp_row : sv_pointer v = row ks value;
  kp_fits : fits ks;
  kp_lsn : is_u64 (sv_lsn v);
  kp_size : sv_size v < 2147483648
}.
Definition kv_entry (count : nat) (versions keys : bytes) (d : sdv) (v : sv) : Prop :=
  ∃ ks value offs, kv_parts v ks value ∧ length ks = count ∧ d_flags d = sv_flags v ∧
    mem_at versions (Z.to_nat (d_offset d)) (kv_rec (blen (concat ks) + blen value) (sv_lsn v) offs value) ∧
    Forall2 (λ o k, is_u32 o ∧ mem_at keys (Z.to_nat o) (key_rec k)) offs ks.
Definition kv_page (count : nat) (P : bytes) (vs : list sv) : Prop :=
  ∃ h ds versions keys, page_rep P h ds (versions ++ keys) ∧ h_sizekeys h = blen keys ∧ Forall2 (kv_entry count versions keys) ds vs.

Lemma kv_sizes v ks value : kv_parts v ks value → sv_size v = Z.of_nat (sizeof_sfref * length ks) + blen (concat ks) + blen value.
Proof. intros [E _ _ _]. unfold sv_size, blen. rewrite E. unfold row. rewrite !length_app, refs_length. lia. Qed.

(** * Reading *)

Section entry.
Context (count : nat) (P : bytes) (h : sdpageheader) (ds : list sdv) (versions keys : bytes).
Context (Hp : page_rep P h ds (versions ++ keys)) (Hk : h_sizekeys h = blen keys).

Lemma keys_at o bs : mem_at keys o bs → mem_at P (sizeof_sdpageheader + sizeof_sdv * length ds + length versions + o) bs.
Proof.
  intros (l & r & -> & <-). rewrite <- (Nat.add_assoc (_ + _)). eapply (page_body P h ds); [exact Hp|].
  exists (versions ++ l), r. by rewrite length_app, <- !app_assoc.
Qed.
Lemma keyread_run o k : is_u32 o → mem_at keys (Z.to_nat o) (key_rec k) → is_u64 (blen k) →
  ∃ ptr, sd_pagekv_keyread o P = Some ((ptr, blen k), P) ∧ mem_at P ptr k.
Proof.
  intros Ho Hm Hl. apply keys_at in Hm. unfold key_rec in Hm. pose proof Hm as Hm2. apply mem_at_app in Hm2 as [_ Hm2].
  eexists. split; [|exact Hm2]. unfold sd_pagekv_keyread, cbind. rewrite (page_h_run _ _ _ _ Hp).
  pose proof (pr_header _ _ _ _ Hp) as (_ & _ & _ & _ & Hu & _). rewrite Hk.
  rewrite (pr_size _ _ _ _ Hp) in *. unfold blen, in_u in *. rewrite length_app in *. rewrite !wrap_id by (unfold in_u; lia).
  replace (Z.to_nat _) with (sizeof_sdpageheader + sizeof_sdv * length ds + length versions + Z.to_nat o)%nat by lia.
  by rewrite (leb_read_at _ _ _ _ Hm).
Qed.
Context (n : nat) (d : sdv) (v : sv) (Hd : ds !! n = Some d) (ks : list bytes) (value : bytes) (offs : list Z).
Context (Hv : kv_parts v ks value) (Hcount : length ks = count).
Context (Hm : mem_at versions (Z.to_nat (d_offset d)) (kv_rec (blen (concat ks) + blen value) (sv_lsn v) offs value)).
Context (Ho : Forall2 (λ o k, is_u32 o ∧ mem_at keys (Z.to_nat o) (key_rec k)) offs ks).

Lemma kv_size_u64 : is_u64 (blen (concat ks) + blen value).
Proof. pose proof (kv_sizes _ _ _ Hv). pose proof (kp_size _ _ _ Hv). unfold in_u, blen in *. lia. Qed.
Lemma kv_pointer : ∃ ptr, sd_pagepointer (sdv_at n) P = Some (ptr, P) ∧
  mem_at P ptr (kv_rec (blen (concat ks) + blen value) (sv_lsn v) offs value).
Proof.
  assert (mem_at (versions ++ keys) (Z.to_nat (d_offset d)) (kv_rec (blen (concat ks) + blen value) (sv_lsn v) offs value)) as Hm'.
  { destruct Hm as (l & r & -> & <-). exists l, (r ++ keys). by rewrite <- !app_assoc. }
  eexists. split; [|by eapply (page_body P h ds)]. apply (page_pointer P h ds (versions ++ keys) n d Hp Hd).
  pose proof (mem_at_length _ _ _ Hm'). pose proof (Forall_lookup_1 _ _ _ _ (pr_sdvs _ _ _ _ Hp) Hd) as [Hu _]. unfold in_u in Hu. lia.
Qed.
(** The pieces of the record, one after another. *)
Lemma kv_places : ∃ ptr, sd_pagepointer (sdv_at n) P = Some (ptr, P) ∧
  let p1 := (ptr + length (leb (blen (concat ks) + blen value)))%nat in
  let p2 := (p1 + length (leb (sv_lsn v)))%nat in
  ss_leb128read ptr P = Some ((length (leb (blen (concat ks) + blen value)), blen (concat ks) + blen value), P) ∧
  ss_leb128skip ptr P = Some (length (leb (blen (concat ks) + blen value)), P) ∧
  ss_leb128read p1 P = Some ((length (leb (sv_lsn v)), sv_lsn v), P) ∧
  ss_leb128skip p1 P = Some (length (leb (sv_lsn v)), P) ∧ mem_at P p2 (concat (leb <$> offs) ++ value).
Proof.
  destruct kv_pointer as (ptr & E & Hr). exists ptr. split; [done|]. cbv zeta. unfold kv_rec in Hr.
  pose proof Hr as Hr2. apply mem_at_app in Hr2 as [_ Hr2]. pose proof Hr2 as Hr3. apply mem_at_app in Hr3 as [_ Hr3].
  pose proof kv_size_u64 as Hs. pose proof (kp_lsn _ _ _ Hv) as Hl.
  split_and!; [by eapply leb_read_at|by eapply leb_skip_at|by eapply leb_read_at|by eapply leb_skip_at|done].
Qed.
Lemma offset_run os ptr part o rest : Forall is_u32 os → mem_at P ptr (concat (leb <$> os) ++ rest) → os !! part = Some o →
  pagekv_offset part ptr P = Some (o, P).
Proof.
  intros Hos. revert ptr part. induction Hos as [|o' os Ho' Hos IH]; intros ptr part Hat Hpart; [done|].
  rewrite fmap_cons in Hat. cbn [concat] in Hat. rewrite <- app_assoc in Hat. pose proof Hat as Hat2. apply mem_at_app in Hat2 as [_ Hat2].
  assert (is_u64 o') as Hu by (unfold in_u in *; lia).
  destruct part as [|part]; cbn [pagekv_offset]; unfold cbind; rewrite (leb_read_at _ _ _ _ Hat Hu); cbn in Hpart.
  - by injection Hpart as ->.
  - by apply IH.
Qed.
Lemma parts_small k : k ∈ ks → is_u64 (blen k) ∧ blen k < 65536.
Proof.
  intros Hin. destruct (kp_fits _ _ _ Hv) as [Hf _]. rewrite Forall_forall in Hf. specialize (Hf k Hin). unfold in_u, blen. lia.
Qed.
Lemma kv_key part k : ks !! part = Some k → ∃ ptr, sd_pagekv_key (sdv_at n) part P = Some ((ptr, blen k), P) ∧ mem_at P ptr k.
Proof.
  intros Hpart. destruct kv_places as (ptr & E & _ & E2 & _ & E4 & Hat). destruct (Forall2_lookup_r _ _ _ _ _ Ho Hpart) as (o & Hoo & Hu & Hko).
  destruct (keyread_run o k Hu Hko) as (p & Ek & Hkk); [apply parts_small; by eapply list_elem_of_lookup_2|].
  exists p. split; [|done]. unfold sd_pagekv_key, cbind. rewrite E, E2, E4, (offset_run offs _ part o value); [exact Ek| |exact Hat|exact Hoo].
  apply Forall_forall. intros x Hx. apply list_elem_of_lookup in Hx as [j Hj]. by destruct (Forall2_lookup_l _ _ _ _ _ Ho Hj) as (? & _ & ? & _).
Qed.

Abbreviation key_at := (λ o k, is_u32 o ∧ mem_at keys (Z.to_nat o) (key_rec k)).
Lemma value_loop_run os : ∀ ks' ptr acc rest, Forall2 key_at os ks' → mem_at P ptr (concat (leb <$> os) ++ rest) →
  (∀ k, k ∈ ks' → is_u64 (blen k)) → 0 <= acc → acc + blen (concat ks') < 2 ^ 64 →
  pagekv_value_loop (length ks') ptr acc P = Some (((ptr + length (concat (leb <$> os)))%nat, acc + blen (concat ks')), P).
Proof.
  induction os as [|o os IH]; intros ks' ptr acc rest HF Hat Hu Hacc Hmax.
  { apply Forall2_nil_inv_l in HF as ->. cbn. unfold cret. do 3 f_equal; unfold blen; simpl; lia. }
  apply Forall2_cons_inv_l in HF as (k & ks2 & [Huo Hk2] & HF & ->).
  rewrite fmap_cons in Hat |- *. cbn [concat] in Hat, Hmax |- *. rewrite <- app_assoc in Hat. pose proof Hat as Hat2. apply mem_at_app in Hat2 as [_ Hat2].
  assert (is_u64 o) as Ho64 by (unfold in_u in *; lia). destruct (keyread_run o k Huo Hk2) as (p & Ek & _); [apply Hu; constructor|].
  unfold blen in *. rewrite length_app in Hmax |- *.
  cbn [length pagekv_value_loop]. unfold cbind. rewrite (leb_read_at _ _ _ _ Hat Ho64). cbn [fst snd]. rewrite Ek. cbn [snd].
  rewrite wrap_id by (unfold in_u; lia). rewrite (IH ks2 _ _ rest HF Hat2); [|intros; apply Hu; by constructor|lia|lia].
  do 3 f_equal; rewrite ?length_app; lia.
Qed.
Lemma kv_value : ∃ ptr, sd_pagekv_value count (sdv_at n) P = Some ((ptr, blen value), P) ∧ mem_at P ptr value.
Proof.
  destruct kv_places as (ptr & E & E1 & _ & _ & E4 & Hat). pose proof Hat as Hval. apply mem_at_app in Hval as [_ Hval].
  eexists. split; [|exact Hval]. unfold sd_pagekv_value, cbind. rewrite E, E1. cbn [fst snd]. rewrite E4.
  pose proof kv_size_u64 as Hs. unfold in_u, blen in *. rewrite <- Hcount, (value_loop_run offs ks _ 0 value Ho Hat); [|intros k Hk1; by apply parts_small|lia|unfold blen; lia].
  unfold cret. cbn [fst snd]. unfold blen. rewrite wrap_id by (unfold in_u; lia). do 3 f_equal. lia.
Qed.
Lemma kv_keys_run m : ∀ i, (i + m = length ks)%nat → ∃ fs, pagekv_keys m i (sdv_at n) P = Some (fs, P) ∧
  sfv_data <$> fs = drop i ks ∧ Forall sfv_ok fs.
Proof.
  induction m as [|m IH]; intros i Hi.
  - exists []. split_and!; [done| |constructor]. by rewrite drop_ge by lia.
  - destruct (lookup_lt_is_Some_2 ks i) as [k Hik]; [lia|]. destruct (kv_key i k Hik) as (ptr & Ek & Hat).
    destruct (IH (S i)) as (fs & Ef & Hfs & Hok); [lia|]. destruct (parts_small k) as [_ Hsm]; [by eapply list_elem_of_lookup_2|].
    assert (u16 (blen k) = blen k) as E16 by (apply wrap_id; unfold in_u, blen in *; lia).
    pose proof (mem_at_length _ _ _ Hat) as Hlen. apply mem_at_read in Hat. unfold mem_read in Hat. rewrite decide_True in Hat by done.
    exists (mk_sfv (drop ptr P) 0 (blen k) :: fs). split_and!.
    + cbn [pagekv_keys]. unfold cbind. rewrite Ek. unfold cread. rewrite Ef. cbn [fst snd]. by rewrite E16.
    + rewrite fmap_cons, Hfs, (drop_S ks k i Hik). f_equal. unfold sfv_data, blen. cbn [k_size k_key]. rewrite Nat2Z.id. by injection Hat.
    + constructor; [|done]. unfold sfv_ok, blen in *. cbn [k_size k_key]. rewrite length_drop. lia.
Qed.

(** * Converting *)

Lemma row_length : sv_size v = blen (row ks value).
Proof. unfold sv_size, blen. by rewrite (kp_row _ _ _ Hv). Qed.
Lemma on_page_run {A} (m : cmd bytes A) a X : m P = Some (a, P) → on_page m (mk_pgst P X) = Some (a, mk_pgst P X).
Proof. intros E. unfold on_page. cbn. by rewrite E. Qed.
Lemma on_xf_run {A} (m : cmd bytes A) a X X' : m X = Some (a, X') → on_xf m (mk_pgst P X) = Some (a, mk_pgst P X').
Proof. intros E. unfold on_xf. cbn. by rewrite E. Qed.
Lemma write_row_run l old rest fs : sfv_data <$> fs = ks → Forall sfv_ok fs → length old = length (row ks value) →
  write_row_at (length l) fs value (l ++ old ++ rest) = Some ((), l ++ row ks value ++ rest).
Proof.
  intros Hfs Hok Hold. unfold write_row_at. rewrite drop_app_length, write_kv_ext; [|done|].
  - by rewrite decide_True, Hfs, take_app_length by (rewrite length_app; lia).
  - rewrite Hold. unfold sf_size. rewrite sum_sizes_concat by done. unfold row. rewrite !length_app, refs_length, <- Hfs, length_fmap. lia.
Qed.
Lemma convert_run X : (count <= 8)%nat → (sizeof_sdv + length (raw_rec v) <= length X)%nat →
  ∃ rest, sd_pagekv_convert count (sdv_at n) (mk_pgst P X) = Some ((), mk_pgst P (sdv_enc d ++ raw_rec v ++ rest)) ∧
    length (sdv_enc d ++ raw_rec v ++ rest) = length X.
Proof.
  intros H8 HX. unfold raw_rec in HX. rewrite !length_app in HX.
  destruct (cut_block X sizeof_sdv (length X - sizeof_sdv)) as (x1 & X1 & -> & L1 & L1'); [lia|].
  destruct (cut_block X1 (length (leb (sv_size v))) (length X1 - length (leb (sv_size v)))) as (x2 & X2 & -> & L2 & L2'); [lia|].
  destruct (cut_block X2 (length (leb (sv_lsn v))) (length X2 - length (leb (sv_lsn v)))) as (x3 & X3 & -> & L3 & L3'); [rewrite !length_app in *; lia|].
  destruct (cut_block X3 (length (sv_pointer v)) (length X3 - length (sv_pointer v))) as (x4 & rest & -> & L4 & L4'); [rewrite !length_app in *; lia|].
  exists rest. split; [|unfold raw_rec; rewrite !length_app, sdv_length; lia].
  destruct kv_places as (ptr & E & E1 & _ & E3 & _ & _). destruct kv_value as (pv & Eval & Hval). destruct (kv_keys_run (length ks) 0) as (fs & Ef & Hfs & Hok); [lia|].
  assert (sd_pagemetaof (sdv_at n) P = Some ((ptr + length (leb (blen (concat ks) + blen value)) + length (leb (sv_lsn v)))%nat, blen (concat ks) + blen value, sv_lsn v, P)) as Em.
  { unfold sd_pagemetaof, cbind. rewrite E, E1. cbn [fst snd]. by rewrite E3. }
  assert (u64 (blen (concat ks) + blen value + Z.of_nat (sizeof_sfref * count)) = sv_size v) as Esz.
  { pose proof (kv_sizes _ _ _ Hv). rewrite <- Hcount. pose proof (kp_size _ _ _ Hv). unfold blen in *. rewrite wrap_id; [lia|]. unfold in_u. lia. }
  assert (is_u64 (sv_size v)) as Hsu by (rewrite <- Esz; by apply wrap_in_u).
  pose proof (kp_lsn _ _ _ Hv) as Hlu. destruct (page_sdv P h ds _ n d Hp Hd) as [Hdm _]. apply mem_at_read in Hdm. rewrite sdv_length in Hdm.
  unfold sd_pagekv_convert. unfold cbind at 1. rewrite (on_page_run _ _ _ Em). cbn [fst snd]. rewrite Esz.
  unfold cbind at 1. rewrite (on_page_run _ (sdv_enc d)) by (unfold cread; by rewrite Hdm).
  unfold cbind at 1. rewrite (on_xf_run _ () _ (sdv_enc d ++ x2 ++ x3 ++ x4 ++ rest)) by (apply (put_at_run []); by rewrite sdv_length).
  unfold cbind at 1. rewrite (on_xf_run _ (length (leb (sv_size v))) _ (sdv_enc d ++ leb (sv_size v) ++ x3 ++ x4 ++ rest))
    by (rewrite <- (sdv_length d); by apply leb_write_ok).
  unfold cbind at 1. rewrite (on_xf_run _ (length (leb (sv_lsn v))) _ (sdv_enc d ++ leb (sv_size v) ++ leb (sv_lsn v) ++ x4 ++ rest))
    by (rewrite <- (sdv_length d), <- length_app, !(app_assoc (sdv_enc d)); by apply leb_write_ok).
  unfold cbind at 1, cassert at 1. rewrite bool_decide_true by done.
  unfold cbind at 1. rewrite <- Hcount, (on_page_run _ _ _ Ef), Hcount. unfold cbind at 1. rewrite (on_page_run _ _ _ Eval). cbn [fst snd].
  unfold cbind at 1. rewrite (on_page_run _ value).
  2: { unfold cread. pose proof (kv_sizes _ _ _ Hv). pose proof (kp_size _ _ _ Hv). unfold blen. rewrite read_int_at; [done|done|]. unfold blen in *. lia. }
  rewrite (on_xf_run _ () _ (sdv_enc d ++ raw_rec v ++ rest)); [done|]. unfold raw_rec. rewrite (kp_row _ _ _ Hv), <- !app_assoc.
  replace (sizeof_sdv + length (leb (sv_size v)) + length (leb (sv_lsn v)))%nat with (length (sdv_enc d ++ leb (sv_size v) ++ leb (sv_lsn v)))
    by (rewrite !length_app, sdv_length; lia).
  pose proof (write_row_run (sdv_enc d ++ leb (sv_size v) ++ leb (sv_lsn v)) x4 rest fs) as Hw. rewrite <- !app_assoc in Hw. apply Hw; [done|done|].
  by rewrite L4, (kp_row _ _ _ Hv).
Qed.
End entry.

Lemma vrawif_run d v rest : sdv_ok d → d_flags d = sv_flags v → sv_ok v →
  sd_vrawif 0 (sdv_enc d ++ raw_rec v ++ rest) = Some (v, sdv_enc d ++ raw_rec v ++ rest).
Proof.
  intros Hd Hfl Hok. set (X := sdv_enc d ++ raw_rec v ++ rest).
  assert (mem_at X 0 (sdv_enc d)) as Hm0 by (by exists [], (raw_rec v ++ rest)).
  assert (mem_at X sizeof_sdv (raw_rec v)) as Hm by (exists (sdv_enc d), rest; by rewrite sdv_length). unfold raw_rec in Hm.
  pose proof Hm as Hm2. apply mem_at_app in Hm2 as [_ Hm2]. pose proof Hm2 as Hm3. apply mem_at_app in Hm3 as [_ Hm3].
  assert (sd_vrawiflsn 0 X = Some (sv_lsn v, X)) as E1.
  { unfold sd_vrawiflsn, cbind. cbn [plus]. rewrite (leb_skip_at _ _ _ _ Hm (sv_size_u64 v Hok)). by rewrite (leb_read_at _ _ _ _ Hm2 (proj1 Hok)). }
  assert (sd_vrawifsize 0 X = Some (sv_size v, X)) as E2.
  { unfold sd_vrawifsize, cbind. cbn [plus]. rewrite (leb_read_at _ _ _ _ Hm (sv_size_u64 v Hok)). unfold cret. cbn [snd].
    rewrite wrap_id; [done|]. destruct Hok. unfold in_u, sv_size in *. lia. }
  unfold sd_vrawif, sv_through, sd_vifflags, sd_vrawifpointer, cbind, cret, cread. cbn [plus].
  rewrite (rd_sdv_run _ _ _ Hm0 Hd), E1, E2, (leb_skip_at _ _ _ _ Hm (sv_size_u64 v Hok)).
  rewrite (leb_skip_at _ _ _ _ Hm2 (proj1 Hok)). unfold sv_size. rewrite Nat2Z.id. unfold sv_size in Hm3. rewrite (mem_at_read _ _ _ Hm3), Hfl. by destruct v.
Qed.

(** * Comparing *)

(** The comparison of bare parts that goes with one of rows. *)
Definition raw_of (f : srcmpf) : option srcmpf :=
  match f with
  | CMPU32 => Some CMPU32_RAW | CMPU32_REVERSE => Some CMPU32_RAW_REVERSE
  | CMPU64 => Some CMPU64_RAW | CMPU64_REVERSE => Some CMPU64_RAW_REVERSE
  | CMPSTRING => Some CMPSTRING_RAW
  | _ => None
  end.
Definition raw_parts (count : nat) (s : srscheme) : Prop :=
  Forall (λ p, (k_pos p < count)%nat ∧ ∃ f g, k_cmp p = Some f ∧ k_cmpraw p = Some g ∧ raw_of f = Some g) (parts_of s).
Lemma load_take n a : (n <= length a)%nat → load_le 0 n a = Some (le_dec (take n a)).
Proof. intros Hn. unfold load_le, mem_read. by rewrite decide_True by lia. Qed.
Lemma raw_cmp_ok f g pos a b : raw_of f = Some g → (part_width f <= length a)%nat → (part_width f <= length b)%nat →
  call_cmp g pos a b = Some (part_cmp f a b).
Proof.
  intros Hg Ha Hb. destruct f; simplify_eq/=;
    unfold sr_cmpu32_raw, sr_cmpu32_raw_reverse, sr_cmpu64_raw, sr_cmpu64_raw_reverse, sr_cmpstring_raw, sr_compare_u32, sr_compare_u64;
    rewrite ?load_take by done; cbn [mbind option_bind fmap option_fmap option_map]; rewrite ?compare_string_ok; done.
Qed.
Lemma kv_cmp_run P h ds versions keys count n d v ks value offs key parts :
  page_rep P h ds (versions ++ keys) → h_sizekeys h = blen keys → ds !! n = Some d → kv_parts v ks value → length ks = count →
  mem_at versions (Z.to_nat (d_offset d)) (kv_rec (blen (concat ks) + blen value) (sv_lsn v) offs value) →
  Forall2 (λ o k, is_u32 o ∧ mem_at keys (Z.to_nat o) (key_rec k)) offs ks →
  Forall (λ p, (k_pos p < count)%nat ∧ ∃ f g, k_cmp p = Some f ∧ k_cmpraw p = Some g ∧ raw_of f = Some g) parts →
  Forall (λ p, part_ready p (row ks value)) parts → Forall (λ p, part_ready p key) parts →
  pageiter_cmp_loop key (sdv_at n) parts P = Some (parts_cmp parts (row ks value) key, P).
Proof.
  intros Hp Hk Hd Hv Hcount Hm Ho Hraw Hrow Hkey. induction parts as [|p parts IH]; [done|].
  apply Forall_cons in Hraw as [(Hpos & f & g & Ef & Eg & Hfg) Hraw]. apply Forall_cons in Hrow as [Hr1 Hrow]. apply Forall_cons in Hkey as [Hk1 Hkey].
  specialize (IH Hraw Hrow Hkey). destruct (lookup_lt_is_Some_2 ks (k_pos p)) as [k Hkp]; [lia|].
  destruct (kv_key count P h ds versions keys Hp Hk n d v Hd ks value offs Hv Hcount Hm Ho _ k Hkp) as (ptr & E & Hat).
  pose proof (row_has_keys ks value (kp_fits _ _ _ Hv) _ _ Hkp) as Hkd.
  destruct Hr1 as (f1 & k1 & Ef1 & _ & Hk1d & Hw1). destruct Hk1 as (f2 & k2 & Ef2 & _ & Hk2d & Hw2).
  rewrite Ef in Ef1, Ef2. injection Ef1 as <-. injection Ef2 as <-. rewrite Hkd in Hk1d. injection Hk1d as <-.
  destruct (parts_small count v ks value Hv Hcount k) as [_ Hsm]; [by eapply list_elem_of_lookup_2|].
  cbn [pageiter_cmp_loop parts_cmp]. unfold cbind at 1. rewrite E. cbn [fst snd]. unfold cbind at 1, cread at 1.
  unfold blen in *. rewrite (read_int_at _ _ _ Hat) by lia. unfold cbind at 1, cread at 1. rewrite Hk2d. unfold cbind at 1, cread at 1.
  rewrite Eg. cbn [mbind option_bind]. erewrite raw_cmp_ok by eassumption. unfold at_part. rewrite Ef, Hkd, Hk2d. cbn [default].
  by destruct (c_true _).
Qed.

(** On a page of the key-value format, with a buffer that takes every converted version, the
    iterator may rely on what it needs. *)
Lemma kv_view r P N vs : r_fmt_storage r = SF_SKEYVALUE → s_count (r_scheme r) = length (parts_of (r_scheme r)) →
  (s_count (r_scheme r) <= 8)%nat → raw_parts (s_count (r_scheme r)) (r_scheme r) → small vs → kv_page (s_count (r_scheme r)) P vs →
  Forall (λ v, row_ready (r_scheme r) (sv_pointer v)) vs → Forall (λ v, (sizeof_sdv + length (raw_rec v) <= N)%nat) vs →
  page_view r (scheme_cmp (r_scheme r)) (row_ready (r_scheme r)) (λ s, pg_page s = P ∧ length (pg_xf s) = N) vs.
Proof.
  intros Hr Hsc H8 Hraw Hs (h & ds & versions & keys & Hp & Hk & HF) Hrow HN. split; [done|..].
  - intros [Q X] [HQ _]. cbn in HQ. subst Q. exists h. unfold on_page. cbn [pg_page]. rewrite (page_h_run _ _ _ _ Hp). split; [done|].
    rewrite (pr_count _ _ _ _ Hp). by rewrite (Forall2_length _ _ _ HF).
  - intros [Q X] n v [HQ _] Hv. cbn in HQ. subst Q. destruct (Forall2_lookup_r _ _ _ _ _ HF Hv) as (d & Hd & ks & value & offs & _ & _ & Hfl & _).
    exists d. unfold on_page. cbn [pg_page]. by rewrite (proj2 (page_sdv P h ds _ n d Hp Hd)).
  - intros [Q X] n v i [HQ HX] Hv Hi. cbn [pg_page pg_xf] in *. subst Q.
    destruct (Forall2_lookup_r _ _ _ _ _ HF Hv) as (d & Hd & ks & value & offs & Hkv & Hcount & Hfl & Hm & Ho).
    pose proof (Forall_lookup_1 _ _ _ _ HN Hv) as Hn. rewrite <- HX in Hn.
    destruct (convert_run (s_count (r_scheme r)) P h ds versions keys Hp Hk n d v Hd ks value offs Hkv Hcount Hm Ho X H8 Hn) as (rest & E & Hlen).
    exists (mk_pgst P (sdv_enc d ++ raw_rec v ++ rest)). split; [|cbn [pg_page pg_xf]; split; [done|lia]].
    unfold sd_pageiter_result, cbind. rewrite Hi, Hr, E. unfold on_xf. cbn [pg_page pg_xf].
    rewrite vrawif_run; [done|by apply (Forall_lookup_1 _ _ _ _ (pr_sdvs _ _ _ _ Hp) Hd)|done|]. destruct Hkv. by split.
  - intros [Q X] n v k i [HQ _] Hv Hi Hkey. cbn in HQ. subst Q. destruct (Forall2_lookup_r _ _ _ _ _ HF Hv) as (d & Hd & ks & value & offs & Hkv & Hcount & Hfl & Hm & Ho).
    pose proof (Forall_lookup_1 _ _ _ _ Hrow Hv) as Hvr. cbn beta in Hvr. rewrite (kp_row _ _ _ Hkv) in Hvr |- *.
    unfold sd_pageiter_cmp, cbind, cread. rewrite Hi, Hr, decide_True by done. unfold on_page. cbn [pg_page].
    by rewrite (kv_cmp_run P h ds versions keys (s_count (r_scheme r)) n d v ks value offs k).
Qed.
