(* ===== verification/SdPageSpec.v ===== *)
(** What the page iterator promises, for pages of both storage formats. *)
From stdpp Require Import base list sorting sets.
From S2P Require Import Prelude SsOrder Sv SsBytes SsBuf Sf SrScheme SvMerge SvMergeProofs SvIndex SvIndexProofs SvIndexIter SdPage SdPageIter SdPageRep SdPageKv.
Local Open Scope Z_scope.
Local Open Scope c_scope.

(** The page [P] holds the versions [vs] in the storage format of the runtime. *)
Definition page_of (r : sr) (P : bytes) (vs : list sv) : Prop :=
  match r_fmt_storage r with SF_SRAW => raw_page P vs | SF_SKEYVALUE => kv_page (s_count (r_scheme r)) P vs end.
(** What reading these versions takes of the scheme; [xf] is the buffer the versions of the
    key-value format are converted in. *)
Definition readable (r : sr) (xf : bytes) (vs : list sv) : Prop :=
  let s := r_scheme r in
  small vs ∧ Forall (λ v, row_ready s (sv_pointer v)) vs ∧ s_count s = length (parts_of s) ∧
  match r_fmt_storage r with
  | SF_SRAW => s_cmp s = SCHEME_OWN
  | SF_SKEYVALUE => (s_count s <= 8)%nat ∧ raw_parts (s_count s) s ∧ Forall (λ v, (sizeof_sdv + length (raw_rec v) <= length xf)%nat) vs
  end.
Lemma readable_view r P xf vs : readable r xf vs → page_of r P vs → ∃ ok, ok (mk_pgst P xf) ∧ (∀ s, ok s → pg_page s = P ∧ length (pg_xf s) = length xf) ∧
  page_view r (scheme_cmp (r_scheme r)) (row_ready (r_scheme r)) ok vs.
Proof.
  intros (Hs & Hrow & Hcount & Hr') Hp. unfold page_of in Hp. destruct (r_fmt_storage r) eqn:Hr.
  - destruct Hr' as (H8 & Hraw & Hxf). exists (λ s, pg_page s = P ∧ length (pg_xf s) = length xf). split; [done|]. split; [done|]. by apply (kv_view r P (length xf)).
  - exists (λ s, s = mk_pgst P xf). split; [done|]. split; [by intros s ->|]. apply raw_view; [done|by split|done..].
Qed.
(** Iterating from any place in any direction gives the versions of the keys on that side. *)
Definition iterates (r : sr) (P xf : bytes) (vss : list (list sv)) : Prop :=
  ∀ o key, walk_order o = true → (∀ k, key = Some k → row_ready (r_scheme r) k) →
  ∃ eq i s', sd_pageiter_open r o key (mk_pgst P xf) = Some ((eq, i), s') ∧
    @enumerates _ (pageiter_iter r) (s', i) (concat (seek (scheme_cmp (r_scheme r)) o key vss)).
(** The page is not changed, and the buffer keeps its size. *)
Definition page_kept (P xf : bytes) (s : pgst) : Prop := pg_page s = P ∧ length (pg_xf s) = length xf.
Lemma page_gives_mono r (ok ok' : pgst → Prop) l : (∀ s, ok s → ok' s) → ∀ s i, page_gives r ok s i l → page_gives r ok' s i l.
Proof. intros Hok. induction l as [|v l IH]; intros s i [Hs H]; (split; [by apply Hok|]); [done|]. destruct H as (E & i' & s' & En & Hl). split; [done|]. exists i', s'. auto. Qed.
Lemma page_open r P xf vss o key : readable r xf (concat vss) → page_of r P (concat vss) → content_ok (scheme_cmp (r_scheme r)) vss → walk_order o = true →
  (∀ k, key = Some k → row_ready (r_scheme r) k) →
  ∃ eq i s', sd_pageiter_open r o key (mk_pgst P xf) = Some ((eq, i), s') ∧ page_gives r (page_kept P xf) s' i (concat (seek (scheme_cmp (r_scheme r)) o key vss)) ∧
    ∀ k, o = SS_GTE → key = Some k → eq = found (scheme_cmp (r_scheme r)) k vss.
Proof.
  intros Hr Hp Hc Ho Hkey. destruct (readable_view _ _ _ _ Hr Hp) as (ok & Hok & Hkept & Hv).
  destruct (pageiter_open_ok r (scheme_cmp (r_scheme r)) (row_ready (r_scheme r)) ok vss Hv Hc o key _ Hok Ho Hkey) as (eq & i & s' & E & G & Hf).
  exists eq, i, s'. split_and!; [done| |done]. by eapply page_gives_mono.
Qed.
Lemma page_iterates r P xf vss : readable r xf (concat vss) → page_of r P (concat vss) → content_ok (scheme_cmp (r_scheme r)) vss → iterates r P xf vss.
Proof.
  intros Hr Hp Hc o key Ho Hkey. destruct (page_open _ _ _ _ _ _ Hr Hp Hc Ho Hkey) as (eq & i & s' & E & G & _). exists eq, i, s'. split; [done|]. by eapply page_gives_enumerates.
Qed.

(** C16: an iterator opened on a page of either storage format, at any key or at an end and in
    any direction, terminates without a fault; it yields exactly the versions of the keys on that
    side, key by key and newest first, and this stream is sorted and flagged as the merge
    iterator requires.  The binary search, the walk over the duplicates of a key and the
    conversion of versions kept as keys and values are all on the way. *)
Theorem sd_pageiter_streams r P xf vss o key :
  readable r xf (concat vss) → page_of r P (concat vss) → content_ok (scheme_cmp (r_scheme r)) vss → walk_order o = true →
  (∀ k, key = Some k → row_ready (r_scheme r) k) →
  ∃ eq i s', sd_pageiter_open r o key (mk_pgst P xf) = Some ((eq, i), s') ∧
    @enumerates _ (pageiter_iter r) (s', i) (concat (seek (scheme_cmp (r_scheme r)) o key vss)) ∧
    stream_ok (order_cmp o (scheme_cmp (r_scheme r))) (concat (seek (scheme_cmp (r_scheme r)) o key vss)).
Proof.
  intros Hr Hp Hc Ho Hkey. destruct (page_iterates _ _ _ _ Hr Hp Hc o key Ho Hkey) as (eq & i & s' & E & G).
  exists eq, i, s'. split_and!; [done|done|]. apply run_stream; [apply _|]. apply seek_run; [apply _|done].
Qed.

(** ** Witness: a page of three versions of two keys, kept as keys and values *)
Definition demo_pagekey : srkey := mk_srkey (Some []) (Some []) SS_U32 0 None (Some CMPU32_RAW) (Some CMPU32).
Definition demo_pagesr : sr := mk_sr (mk_scheme (Some [demo_pagekey]) 1 SCHEME_OWN SCHEME_OWN) SF_KV SF_SKEYVALUE.
Definition demo_pagev (lsn flags k v : Z) : sv := mk_sv lsn flags (row [le_enc 4 k] [v]).
Definition demo_pagevs : list (list sv) := [[demo_pagev 9 0 5 50; demo_pagev 3 4 5 51]; [demo_pagev 4 0 7 70]].
Definition demo_versions : list bytes := [kv_rec 5 9 [0] [50]; kv_rec 5 3 [0] [51]; kv_rec 5 4 [5] [70]].
Definition demo_sdvs : list sdv := [mk_sdv 0 0; mk_sdv 4 4; mk_sdv 8 0].
Definition demo_keys : bytes := key_rec (le_enc 4 5) ++ key_rec (le_enc 4 7).
Definition demo_header : sdpageheader := mk_pageheader 0 0 3 1 37 10 37 3 3 9.
Definition demo_pagebytes : bytes := header_enc demo_header ++ concat (sdv_enc <$> demo_sdvs) ++ concat demo_versions ++ demo_keys.

Lemma demo_page_rep : page_rep demo_pagebytes demo_header demo_sdvs (concat demo_versions ++ demo_keys).
Proof.
  split; [done|..].
  - unfold header_ok, in_u. cbn. lia.
  - done.
  - by vm_compute.
  - repeat constructor; cbn; lia.
Qed.
Lemma demo_readable : readable demo_pagesr (replicate 64 0) (concat demo_pagevs).
Proof.
  unfold readable. cbn [demo_pagesr r_scheme r_fmt_storage s_count]. split_and!; [done| |done|lia| |].
  - repeat constructor; eexists _, _; (split_and!; [reflexivity|reflexivity|vm_compute; reflexivity|cbn; lia]).
  - constructor; [|constructor]. split; [cbn; lia|]. by exists CMPU32, CMPU32_RAW.
  - repeat constructor; vm_compute; lia.
Qed.
Lemma demo_page_of : page_of demo_pagesr demo_pagebytes (concat demo_pagevs).
Proof.
  exists demo_header, demo_sdvs, (concat demo_versions), demo_keys. split; [exact demo_page_rep|]. split; [done|].
    assert (∀ lsn flags k v o off l1 l2 r1 r2, is_u64 lsn → is_u32 o →
      concat demo_versions = l1 ++ kv_rec 5 lsn [o] [v] ++ r1 → demo_keys = l2 ++ key_rec (le_enc 4 k) ++ r2 →
      length l1 = Z.to_nat off → length l2 = Z.to_nat o →
      kv_entry 1 (concat demo_versions) demo_keys (mk_sdv off flags) (demo_pagev lsn flags k v)) as He.
    { intros * Hl Ho E1 E2 N1 N2. exists [le_enc 4 k], [v], [o]. split_and!; try done.
      - split; [done| |done|done]. split; [|done]. constructor; [|done]. by rewrite le_enc_length.
      - exists l1, r1. split; [|done]. rewrite E1. unfold blen. cbn [concat]. by rewrite app_nil_r, le_enc_length.
      - constructor; [|done]. split; [done|]. by exists l2, r2. }
    constructor; [|constructor; [|constructor; [|done]]].
    + apply (He 9 0 5 50 0 0 [] [] (concat (drop 1 demo_versions)) (drop 5 demo_keys)); (unfold in_u; lia) || reflexivity.
    + apply (He 3 4 5 51 0 4 (concat (take 1 demo_versions)) [] (concat (drop 2 demo_versions)) (drop 5 demo_keys)); (unfold in_u; lia) || reflexivity.
    + apply (He 4 0 7 70 5 8 (concat (take 2 demo_versions)) (take 5 demo_keys) [] []); (unfold in_u; lia) || reflexivity.
Qed.

Lemma demo_content_ok : content_ok (scheme_cmp (r_scheme demo_pagesr)) demo_pagevs.
Proof.
  assert (KeyOrder (scheme_cmp (r_scheme demo_pagesr))) by apply _. set (cmp := scheme_cmp (r_scheme demo_pagesr)) in *.
  assert (content_ok cmp []) as H0 by (split; constructor).
  assert (content_ok cmp (insert_key cmp (demo_pagev 4 0 7 70) [])) as H1.
  { apply (insert_key_ok cmp); [done|done|]. by intros c w ?%not_elem_of_nil. }
  assert (content_ok cmp (insert_key cmp (demo_pagev 3 0 5 51) (insert_key cmp (demo_pagev 4 0 7 70) []))) as H2.
  { apply (insert_key_ok cmp); [done|done|]. by intros c w ->%list_elem_of_singleton ->%list_elem_of_singleton ?. }
  apply (insert_key_ok cmp (demo_pagev 9 0 5 50)) in H2; [exact H2|done|].
  intros c w Hc Hw _. repeat (apply elem_of_cons in Hc as [->|Hc]; [by apply list_elem_of_singleton in Hw as ->|]). by apply not_elem_of_nil in Hc.
Qed.
(** From key 6 downwards: the two versions of key 5, newest first. *)
Lemma sd_pageiter_streams_witness : ∃ eq i s',
  sd_pageiter_open demo_pagesr SS_LT (Some (row [le_enc 4 6] [])) (mk_pgst demo_pagebytes (replicate 64 0)) = Some ((eq, i), s') ∧
  @enumerates _ (pageiter_iter demo_pagesr) (s', i) [demo_pagev 9 0 5 50; demo_pagev 3 4 5 51].
Proof.
  destruct (sd_pageiter_streams demo_pagesr demo_pagebytes (replicate 64 0) demo_pagevs SS_LT (Some (row [le_enc 4 6] [])))
    as (eq & i & s' & E & Hen & _).
  - exact demo_readable.
  - exact demo_page_of.
  - exact demo_content_ok.
  - reflexivity.
  - intros k [= <-]. repeat constructor. eexists _, _. split; [reflexivity|]. split; [reflexivity|]. split; [vm_compute; reflexivity|cbn; lia].
  - replace (concat (seek _ _ _ _)) with [demo_pagev 9 0 5 50; demo_pagev 3 4 5 51] in Hen by (vm_compute; reflexivity).
    exists eq, i, s'. exact (conj E Hen).
Defined.
