(* ===== verification/SdBuild.v ===== *)
(** Building pages: sd_build.h and sd_build.c.  A page is collected in three buffers (header and
    array of versions, versions, keys) behind those of the pages before it. *)
From stdpp Require Import base list.
From S2P Require Import Prelude Sv SsBytes SsBuf SsFilter SsHt Sf SrScheme SdPage.
Local Open Scope Z_scope.
Local Open Scope c_scope.

(** * State *)

(** Where a page starts in the buffers and how much of them it takes. *)
Record sdbuildref := mk_ref {
  f_m : Z; f_msize : Z; f_v : Z; f_vsize : Z; f_k : Z; f_ksize : Z; f_c : Z; f_csize : Z
}.
(** A key that was written: where it is, to find it again. *)
Record sdbuildkey := mk_buildkey { bk_hash : Z; bk_offset : Z; bk_offsetstart : Z; bk_size : Z }.
(** The list of references as the list of its records. *)
Record sdbuild := mk_build {
  bd_list : list sdbuildref; bd_m : ssbuf; bd_v : ssbuf; bd_k : ssbuf; bd_c : ssbuf;
  bd_compress_dup : bool; bd_compress : bool; bd_crc : bool; bd_vmax : Z; bd_n : nat; bd_tracker : ssht sdbuildkey
}.

Definition with_list l (b : sdbuild) := mk_build l (bd_m b) (bd_v b) (bd_k b) (bd_c b) (bd_compress_dup b) (bd_compress b) (bd_crc b) (bd_vmax b) (bd_n b) (bd_tracker b).
Definition with_m m (b : sdbuild) := mk_build (bd_list b) m (bd_v b) (bd_k b) (bd_c b) (bd_compress_dup b) (bd_compress b) (bd_crc b) (bd_vmax b) (bd_n b) (bd_tracker b).
Definition with_v v (b : sdbuild) := mk_build (bd_list b) (bd_m b) v (bd_k b) (bd_c b) (bd_compress_dup b) (bd_compress b) (bd_crc b) (bd_vmax b) (bd_n b) (bd_tracker b).
Definition with_k k (b : sdbuild) := mk_build (bd_list b) (bd_m b) (bd_v b) k (bd_c b) (bd_compress_dup b) (bd_compress b) (bd_crc b) (bd_vmax b) (bd_n b) (bd_tracker b).
Definition with_c c (b : sdbuild) := mk_build (bd_list b) (bd_m b) (bd_v b) (bd_k b) c (bd_compress_dup b) (bd_compress b) (bd_crc b) (bd_vmax b) (bd_n b) (bd_tracker b).
Definition with_tracker t (b : sdbuild) := mk_build (bd_list b) (bd_m b) (bd_v b) (bd_k b) (bd_c b) (bd_compress_dup b) (bd_compress b) (bd_crc b) (bd_vmax b) (bd_n b) t.
Definition with_vmax x (b : sdbuild) := mk_build (bd_list b) (bd_m b) (bd_v b) (bd_k b) (bd_c b) (bd_compress_dup b) (bd_compress b) (bd_crc b) x (bd_n b) (bd_tracker b).
Definition with_flags d c crc (b : sdbuild) := mk_build (bd_list b) (bd_m b) (bd_v b) (bd_k b) (bd_c b) d c crc (bd_vmax b) (bd_n b) (bd_tracker b).
Definition with_n n (b : sdbuild) := mk_build (bd_list b) (bd_m b) (bd_v b) (bd_k b) (bd_c b) (bd_compress_dup b) (bd_compress b) (bd_crc b) (bd_vmax b) n (bd_tracker b).
(** Running code on a part of the state. *)
Definition lift {R S A} (get : R → S) (put : S → R → R) (m : cmd S A) : cmd R A := λ b,
  match m (get b) with Some (a, s) => Some (a, put s b) | None => None end.
Definition on_m {A} : cmd ssbuf A → cmd sdbuild A := lift bd_m with_m.
Definition on_v {A} : cmd ssbuf A → cmd sdbuild A := lift bd_v with_v.
Definition on_k {A} : cmd ssbuf A → cmd sdbuild A := lift bd_k with_k.
Definition on_c {A} : cmd ssbuf A → cmd sdbuild A := lift bd_c with_c.
Definition on_tracker {A} : cmd (ssht sdbuildkey) A → cmd sdbuild A := lift bd_tracker with_tracker.
Definition bmodify (f : sdbuild → sdbuild) : cmd sdbuild () := λ b, Some ((), f b).

Definition sd_buildinit : sdbuild :=
  mk_build [] ss_bufinit ss_bufinit ss_bufinit ss_bufinit false false false 0 0 (mk_ht [] 0 0).
Definition sd_buildfree_tracker (b : sdbuild) : sdbuild :=
  if Z.eqb (t_count (bd_tracker b)) 0 then b
  else with_tracker (mk_ht ((λ _, None) <$> t_i (bd_tracker b)) 0 (t_size (bd_tracker b))) b.
Definition sd_buildfree (b : sdbuild) : sdbuild :=
  let b := sd_buildfree_tracker b in
  mk_build [] (ss_buffree (bd_m b)) (ss_buffree (bd_v b)) (ss_buffree (bd_k b)) (ss_buffree (bd_c b))
    (bd_compress_dup b) (bd_compress b) (bd_crc b) (bd_vmax b) (bd_n b) (ss_htfree (bd_tracker b)).
Definition sd_buildreset (b : sdbuild) : sdbuild :=
  mk_build [] (ss_bufreset (bd_m b)) (ss_bufreset (bd_v b)) (ss_bufreset (bd_k b)) (ss_bufreset (bd_c b))
    (bd_compress_dup b) (bd_compress b) (bd_crc b) 0 0 (ss_htreset (bd_tracker b)).

(** The reference of the current page, its header in the buffer, and the page in the buffers. *)
Definition sd_buildref : cmd sdbuild sdbuildref := cread (λ b, bd_list b !! bd_n b).
Definition sd_buildheader : cmd sdbuild sdpageheader :=
  let! r := sd_buildref in cread (λ b, header_at (Z.to_nat (f_m r)) (b_mem (bd_m b))).
Definition set_header (h : sdpageheader) : cmd sdbuild () :=
  let! r := sd_buildref in on_m (buf_copy (Z.to_nat (f_m r)) (header_enc h)).
Definition set_ref (r : sdbuildref) : cmd sdbuild () := bmodify (λ b, with_list (<[bd_n b := r]> (bd_list b)) b).
Definition sd_buildoffset : cmd sdbuild Z :=
  let! r := sd_buildref in
  let! b := cget in
  cret (if bd_compress b then f_c r
        else u32 (f_m r + (ss_bufused (bd_v b) - (ss_bufused (bd_v b) - f_v r)) +
                  (ss_bufused (bd_k b) - (ss_bufused (bd_k b) - f_k r)))).
Definition sd_buildmin : cmd sdbuild nat :=
  let! r := sd_buildref in cret (Z.to_nat (f_m r) + sizeof_sdpageheader)%nat.
Definition sd_buildmax : cmd sdbuild nat :=
  let! r := sd_buildref in
  let! h := sd_buildheader in
  cret (Z.to_nat (f_m r) + sizeof_sdpageheader + sizeof_sdv * Z.to_nat (u32 (h_count h - 1)))%nat.
Definition build_key (d : nat) : cmd sdbuild nat :=
  let! r := sd_buildref in
  let! x := cread (λ b, fst <$> rd_sdv d (b_mem (bd_m b))) in
  cret (Z.to_nat (f_v r) + Z.to_nat (d_offset x))%nat.
Definition sd_buildminkey : cmd sdbuild nat := let! d := sd_buildmin in build_key d.
Definition sd_buildmaxkey : cmd sdbuild nat := let! d := sd_buildmax in build_key d.

(** * Operations *)

Section ops.
Context `{Alloc}.
(** [r->crc] and [r->compression]: the checksum of a block and a filter, functions the runtime
    points to. *)
Context (crcf : Z → bytes → Z) {F : Type} (compression : ssfilterif F).
Definition ss_crcp (p : bytes) (crc : Z) : Z := crcf crc p.
(** The checksum of a structure that begins with its own checksum. *)
Definition ss_crcs (p : bytes) (crc : Z) : Z := crcf crc (drop 4 p).

(** [g]: whether the list of references gets the memory it may ask for. *)
Definition sd_buildbegin (g : bool) (crc compress compress_dup : bool) : cmd sdbuild Z :=
  bmodify (with_flags compress_dup compress crc);;;
  let! b := cget in
  let! rc := (if compress_dup && bool_decide (t_size (bd_tracker b) = 0%nat)
              then let '(rc, t) := ss_htinit 32768 in bmodify (with_tracker t);;; cret rc
              else cret 0) in
  if Z.eqb rc (-1) then cret (-1) else
  if negb g then cret (-1) else
  let! b := cget in
  let ref := mk_ref (ss_bufused (bd_m b)) 0 (ss_bufused (bd_v b)) 0 (ss_bufused (bd_k b)) 0 (ss_bufused (bd_c b)) 0 in
  let! rc := on_m (ss_bufensure (Z.of_nat sizeof_sdpageheader)) in
  if Z.eqb rc (-1) then cret (-1) else
  bmodify (λ b, with_list (take (bd_n b) (bd_list b) ++ [ref]) b);;;
  set_header (mk_pageheader 0 0 0 0 0 0 0 UINT64_MAX UINT64_MAX 0);;;
  on_m (ss_bufadvance sizeof_sdpageheader);;;
  cret 0.

(** [ss_bufadvance(b, ss_leb128write(b->p, v))] *)
Definition add_leb (v : Z) : cmd ssbuf () := λ b,
  match ss_leb128write (b_p b) v (b_mem b) with
  | Some (n, m) => Some ((), mk_buf (b_reserve b) (b_at b) m (b_p b + n))
  | None => None
  end.

(** Room for size, lsn and [more] bytes, and the size and the lsn. *)
Definition add_meta (size lsn more : Z) : cmd sdbuild bool :=
  let! n1 := cread (λ _, ss_leb128size size) in
  let! n2 := cread (λ _, ss_leb128size lsn) in
  let sizemeta := u32 (n1 + n2) in
  let! rc := on_v (ss_bufensure (u32 (sizemeta + more))) in
  if Z.eqb rc (-1) then cret false else
  on_v (add_leb size);;;
  on_v (add_leb lsn);;;
  cret true.

(** A part of the key of a version that is already among the keys of the page. *)
Definition sd_buildsearch (hash : Z) (part : bytes) : cmd sdbuild nat := λ b,
  on_tracker (ss_htsearch (λ n, Z.eqb (bk_hash n) hash && Z.eqb (bk_size n) (Z.of_nat (length part)) &&
    match mem_read (Z.to_nat (bk_offsetstart n)) (length part) (b_mem (bd_k b)) with
    | Some bs => bool_decide (bs = part) | None => false end) hash) b.

(** The slot of the tracker for the part and what it holds. *)
Definition find_key (hash : Z) (part : bytes) : cmd sdbuild (nat * option sdbuildkey) :=
  let! b := cget in
  if bd_compress_dup b then
    let! pos := sd_buildsearch hash part in
    let! slot := cread (λ b, t_i (bd_tracker b) !! pos) in
    cret (pos, slot)
  else cret (0%nat, None).
(** The part is copied behind the keys; answers the length of the size before it. *)
Definition copy_key (part : bytes) : cmd sdbuild (option Z) :=
  let partsize := Z.of_nat (length part) in
  let! meta := cread (λ _, ss_leb128size partsize) in
  let! rc := on_k (ss_bufensure (meta + partsize)) in
  if Z.eqb rc (-1) then cret None else
  on_k (add_leb partsize);;;
  on_k (copy_advance part);;;
  cret (Some meta).
(** And entered in the tracker.  The code tests the result of the resize again where it
    means the result of [ss_malloc]: without memory for the node it writes through NULL. *)
Definition track_key (pos : nat) (node : sdbuildkey) : cmd sdbuild bool :=
  let! full := cread (λ b, Some (ss_htisfull (bd_tracker b))) in
  let! rc := (if full : bool then on_tracker (ss_htresize bk_hash) else cret 0) in
  if Z.eqb rc (-1) then cret false else
  match ss_malloc 16 with
  | None => cfail
  | Some _ => on_tracker (ss_htset pos node);;; cret true
  end.
Definition keyvalue_part (part : bytes) : cmd sdbuild bool :=
  let! b := cget in
  let! r := sd_buildref in
  let offsetstart := i32 (ss_bufused (bd_k b)) in
  let hash := ss_fnv part in
  let! found := find_key hash part in
  let offset := match found.2 with Some n => i32 (bk_offset n) | None => i32 (offsetstart - f_k r) end in
  let! osize := cread (λ _, ss_leb128size (u64 offset)) in
  let! rc := on_v (ss_bufensure osize) in
  if Z.eqb rc (-1) then cret false else
  on_v (add_leb (u64 offset));;;
  match found.2 with
  | Some _ => cret true
  | None =>
      let! copied := copy_key part in
      match copied with
      | None => cret false
      | Some meta =>
          if bd_compress_dup b
          then track_key found.1 (mk_buildkey hash (u32 offset) (u32 (offsetstart + meta)) (u32 (Z.of_nat (length part))))
          else cret true
      end
  end.
Fixpoint keyvalue_parts (v : sv) (n i : nat) : cmd sdbuild bool :=
  match n with
  | O => cret true
  | S n =>
      let! part := cread (λ _, sf_keydata i (sv_pointer v)) in
      let! ok := keyvalue_part part in
      if ok : bool then keyvalue_parts v n (S i) else cret false
  end.
Fixpoint keyvalue_size (v : sv) (n i : nat) : option Z :=
  match n with
  | O => Some 0
  | S n => size ← sf_keysize i (sv_pointer v); total ← keyvalue_size v n (S i); Some (u32 (Z.of_nat size + total))
  end.
Definition sd_buildadd_keyvalue (fmt : sf) (count : nat) (v : sv) : cmd sdbuild Z :=
  let! keysize := cread (λ _, keyvalue_size v count 0) in
  let! vsize := cread (λ _, sf_valuesize fmt (length (sv_pointer v)) count (sv_pointer v)) in
  let valuesize := u32 vsize in
  let size := u32 (keysize + valuesize) in
  let! ok := add_meta size (sv_lsn v) 0 in
  if negb ok then cret (-1) else
  let! ok := keyvalue_parts v count 0 in
  if negb ok then cret (-1) else
  let! rc := on_v (ss_bufensure valuesize) in
  if Z.eqb rc (-1) then cret (-1) else
  let! value := cread (λ _, off ← sf_value fmt count (sv_pointer v); mem_read off (Z.to_nat valuesize) (sv_pointer v)) in
  on_v (copy_advance value);;;
  cret 0.
Definition sd_buildadd_raw (v : sv) : cmd sdbuild Z :=
  let size := u32 (sv_size v) in
  let! ok := add_meta size (sv_lsn v) size in
  if negb ok then cret (-1) else
  on_v (copy_advance (sv_pointer v));;;
  cret 0.

(** The header after a version with the given flags. *)
Definition header_add (flags lsn : Z) (h : sdpageheader) : sdpageheader :=
  let dup := c_true (Z.land flags SVDUP) in
  mk_pageheader (h_crc h) (h_crcdata h) (u32 (h_count h + 1))
    (if dup then u32 (h_countdup h + 1) else h_countdup h)
    (h_sizeorigin h) (h_sizekeys h) (h_size h)
    (if Z.ltb lsn (h_lsnmin h) then lsn else h_lsnmin h)
    (if dup && Z.ltb lsn (h_lsnmindup h) then lsn else h_lsnmindup h)
    (if Z.gtb lsn (h_lsnmax h) then lsn else h_lsnmax h).
(** The reference to the version in the array of the page. *)
Definition add_sdv (v : sv) (flags : Z) : cmd sdbuild (option sdv) :=
  let! rc := on_m (ss_bufensure (Z.of_nat sizeof_sdv)) in
  if Z.eqb rc (-1) then cret None else
  let! ref := sd_buildref in
  let! b := cget in
  let d := mk_sdv (u32 (ss_bufused (bd_v b) - f_v ref)) (u8 (Z.lor (sv_flags v) flags)) in
  on_m (copy_advance (sdv_enc d));;;
  cret (Some d).
Definition store_version (r : sr) (v : sv) : cmd sdbuild Z :=
  match r_fmt_storage r with
  | SF_SKEYVALUE => sd_buildadd_keyvalue (r_fmt r) (s_count (r_scheme r)) v
  | SF_SRAW => sd_buildadd_raw v
  end.
Definition sd_buildadd (r : sr) (v : sv) (flags : Z) : cmd sdbuild Z :=
  let! res := add_sdv v flags in
  match res with
  | None => cret (-1)
  | Some d =>
      let! rc := store_version r v in
      if Z.eqb rc (-1) then cret (-1) else
      let! h := sd_buildheader in
      let size := u32 (Z.of_nat sizeof_sdv + sv_size v + Z.of_nat (sizeof_sfref * s_count (r_scheme r))) in
      bmodify (λ b, if Z.gtb size (bd_vmax b) then with_vmax size b else b);;;
      set_header (header_add (d_flags d) (sv_lsn v) h);;;
      cret 0
  end.

(** The blocks given to the filter one after another, up to the first error. *)
Fixpoint filter_blocks (blocks : list bytes) : cmd (ssfilter F * ssbuf) Z :=
  match blocks with
  | [] => ss_filtercomplete
  | bs :: blocks =>
      let! rc := ss_filternext bs in
      if Z.eqb rc (-1) then cret (-1) else filter_blocks blocks
  end.
Definition filter_page (m v k : bytes) : cmd (ssfilter F * ssbuf) Z :=
  let! rc := ss_filterstart in
  if Z.eqb rc (-1) then cret (-1) else
  let! rc := filter_blocks [m; v; k] in
  cret (if Z.eqb rc (-1) then -1 else 0).
Definition sd_buildcompress : cmd sdbuild Z :=
  let! rc := on_c (ss_bufensure (Z.of_nat sizeof_sdpageheader)) in
  if Z.eqb rc (-1) then cret (-1) else
  on_c (ss_bufadvance sizeof_sdpageheader);;;
  let! r := sd_buildref in
  let '(rc, f) := ss_filterinit compression SS_FINPUT in
  if Z.eqb rc (-1) then cret (-1) else
  let! m := cread (λ b, mem_read (Z.to_nat (f_m r) + sizeof_sdpageheader) (Z.to_nat (f_msize r) - sizeof_sdpageheader) (b_mem (bd_m b))) in
  let! v := cread (λ b, mem_read (Z.to_nat (f_v r)) (Z.to_nat (f_vsize r)) (b_mem (bd_v b))) in
  let! k := cread (λ b, mem_read (Z.to_nat (f_k r)) (Z.to_nat (f_ksize r)) (b_mem (bd_k b))) in
  on_c (λ c, match filter_page m v k (f, c) with Some (rc, (_, c)) => Some (rc, c) | None => None end).

Definition with_crc (c : Z) (h : sdpageheader) : sdpageheader :=
  mk_pageheader c (h_crcdata h) (h_count h) (h_countdup h) (h_sizeorigin h) (h_sizekeys h) (h_size h) (h_lsnmin h) (h_lsnmindup h) (h_lsnmax h).
Definition with_crcdata (c : Z) (h : sdpageheader) : sdpageheader :=
  mk_pageheader (h_crc h) c (h_count h) (h_countdup h) (h_sizeorigin h) (h_sizekeys h) (h_size h) (h_lsnmin h) (h_lsnmindup h) (h_lsnmax h).
Definition with_sizes (origin keys size : Z) (h : sdpageheader) : sdpageheader :=
  mk_pageheader (h_crc h) (h_crcdata h) (h_count h) (h_countdup h) origin keys size (h_lsnmin h) (h_lsnmindup h) (h_lsnmax h).
Definition with_csize (csize : Z) (r : sdbuildref) : sdbuildref :=
  mk_ref (f_m r) (f_msize r) (f_v r) (f_vsize r) (f_k r) (f_ksize r) (f_c r) csize.

(** The sizes of the page in the buffers. *)
Definition end_sizes : cmd sdbuild sdbuildref :=
  let! r := sd_buildref in
  let! b := cget in
  let r := mk_ref (f_m r) (u32 (ss_bufused (bd_m b) - f_m r)) (f_v r) (u32 (ss_bufused (bd_v b) - f_v r))
             (f_k r) (u32 (ss_bufused (bd_k b) - f_k r)) (f_c r) 0 in
  set_ref r;;;
  cret r.
(** The checksum of the page, if it is to have one. *)
Definition end_crcdata (r : sdbuildref) : cmd sdbuild Z :=
  let! b := cget in
  if bd_crc b then
    let! m := cread (λ b, mem_read (Z.to_nat (f_m r)) (Z.to_nat (f_msize r)) (b_mem (bd_m b))) in
    let! v := cread (λ b, mem_read (Z.to_nat (f_v r)) (Z.to_nat (f_vsize r)) (b_mem (bd_v b))) in
    let! k := cread (λ b, mem_read (Z.to_nat (f_k r)) (Z.to_nat (f_ksize r)) (b_mem (bd_k b))) in
    cret (ss_crcp k (ss_crcp v (ss_crcp m 0)))
  else cret 0.
Definition sd_buildend : cmd sdbuild Z :=
  let! r := end_sizes in
  let! crc := end_crcdata r in
  let! h := sd_buildheader in
  let h := with_crcdata crc h in
  set_header h;;;
  let! b := cget in
  let! rc := (if bd_compress b then sd_buildcompress else cret 0) in
  if Z.eqb rc (-1) then cret (-1) else
  let! b := cget in
  let r := if bd_compress b then with_csize (u32 (ss_bufused (bd_c b) - f_c r)) r else r in
  set_ref r;;;
  let total := i32 (f_msize r + f_vsize r + f_ksize r) in
  let sizeorigin := u32 (total - Z.of_nat sizeof_sdpageheader) in
  let size := if bd_compress b then u32 (f_csize r - Z.of_nat sizeof_sdpageheader) else sizeorigin in
  let h := with_sizes sizeorigin (f_ksize r) size h in
  let h := with_crc (ss_crcs (header_enc h) 0) h in
  set_header h;;;
  (if bd_compress b then on_c (buf_copy (Z.to_nat (f_c r)) (header_enc h)) else cret ());;;
  cret 0.

Definition sd_buildcommit : cmd sdbuild Z :=
  let! b := cget in
  (if bd_compress_dup b then bmodify sd_buildfree_tracker else cret ());;;
  (if bd_compress b then bmodify (λ b, with_k (ss_bufreset (bd_k b)) (with_v (ss_bufreset (bd_v b)) (with_m (ss_bufreset (bd_m b)) b))) else cret ());;;
  bmodify (λ b, with_n (S (bd_n b)) b);;;
  cret 0.
End ops.
