(* ===== verification/SdBuildProofs.v ===== *)
(** Building pages: what the buffers hold after each step, and the page they hold in the end. *)
From stdpp Require Import base list sorting sets.
From S2P Require Import Prelude Sv SsBytes SsBuf SsFilter SsHt Sf SrScheme SdPage SdPageIter SdPageRep SdPageKv SdBuild.
Local Open Scope Z_scope.
Local Open Scope c_scope.

(** * Buffers *)

Section buffers.
Context `{Alloc}.

Lemma add_leb_ok T b v : buf_cap T b → is_u64 v → fresh_room b (length (leb v)) →
  wp (add_leb v) b (λ _ b', buf_cap T b' ∧ content b' = content b ++ leb v ∧
    ∀ n, fresh_room b (length (leb v) + n) → fresh_room b' n).
Proof.
  intros [[Hp Hn Hr] Hsz] Hv Hroom. unfold fresh_room, ss_bufunused in *.
  destruct (cut_block (b_mem b) (b_p b) (length (b_mem b) - b_p b)) as (l & r & E & Hl & Hlr); [lia|].
  destruct (cut_block r (length (leb v)) (length r - length (leb v))) as (old & r2 & -> & Ho & Hr2); [lia|].
  unfold wp, add_leb. rewrite E, <- Hl, leb_write_ok by done. unfold ss_bufsize in *. rewrite E in *.
  assert (buf_ok (mk_buf (b_reserve b) (b_at b) (l ++ leb v ++ r2) (length l + length (leb v)))) as Hok.
  { split; cbn [b_p b_mem b_at b_reserve]; [rewrite !length_app; lia| |done]. intros Hnull. specialize (Hn Hnull).
    apply (f_equal length) in Hn. rewrite !length_app in Hn. apply length_zero_iff_nil. rewrite !length_app. cbn [length] in *. lia. }
  split_and!.
  - split; [done|]. unfold ss_bufsize; cbn [b_mem]. rewrite !length_app in *. lia.
  - unfold content. cbn [b_p b_mem]. rewrite E, <- Hl, take_app_length, app_assoc, take_app_length' by (by rewrite length_app). done.
  - intros n Hroom'. cbn [b_p b_mem]. rewrite !length_app in *. lia.
Qed.
(** Overwriting a part of the content. *)
Lemma copy_inside T b l old r bs : buf_cap T b → content b = l ++ old ++ r → length old = length bs →
  ∃ b', buf_copy (length l) bs b = Some ((), b') ∧ buf_cap T b' ∧ content b' = l ++ bs ++ r.
Proof.
  intros [Hok Hsz] Hc Ho. pose proof (content_length b Hok) as Hcl. rewrite Hc in Hcl.
  assert (∃ d, b_mem b = l ++ old ++ (r ++ d)) as [d Em].
  { exists (drop (b_p b) (b_mem b)). rewrite <- (take_drop (b_p b) (b_mem b)) at 1.
    change (take (b_p b) (b_mem b)) with (content b). rewrite Hc. by rewrite <- !app_assoc. }
  assert (mem_at (b_mem b) (length l) old) as Hat by (exists l, (r ++ d); by split).
  assert (buf_copy (length l) bs b = Some ((), mk_buf (b_reserve b) (b_at b) (l ++ bs ++ (r ++ d)) (b_p b))) as E.
  { unfold buf_copy, mem_write. rewrite Em, decide_True by (rewrite !length_app; lia). cbn [mbind option_bind]. do 2 f_equal.
    f_equal. rewrite take_app_length, <- Ho, !(app_assoc l old), drop_app_length' by (by rewrite length_app). done. }
  pose proof (buf_copy_ok b (length l) old bs Hok Hat Ho) as W. unfold wp in W. rewrite E in W. destruct W as (Hok' & _ & _ & Hl' & _).
  eexists. split; [exact E|]. split.
  - split; [exact Hok'|]. unfold ss_bufsize in *. by rewrite Hl'.
  - unfold content. cbn [b_p b_mem]. rewrite !app_assoc, take_app_length'; [done|]. rewrite <- Hcl, !length_app. lia.
Qed.
(** Reading it: what the content holds is in the block. *)
Lemma content_at T b l bs r : buf_cap T b → content b = l ++ bs ++ r → mem_at (b_mem b) (length l) bs.
Proof.
  intros _ Hc. exists l, (r ++ drop (b_p b) (b_mem b)). split; [|done].
  rewrite <- (take_drop (b_p b) (b_mem b)) at 1. change (take (b_p b) (b_mem b)) with (content b). rewrite Hc. by rewrite <- !app_assoc.
Qed.
End buffers.

Lemma wp_lift {R S A} (get : R → S) put (m : cmd S A) b (Q : A → R → Prop) :
  wp m (get b) (λ a s, Q a (put s b)) → wp (lift get put m) b Q.
Proof. unfold wp, lift. by destruct (m (get b)) as [[a s]|]. Qed.

(** * A page under construction *)

Section building.
Context `{Alloc}.
Definition refused : Prop := ∃ n, ss_malloc n = None.

(** What stays while versions are added. *)
Definition config (b : sdbuild) := (bd_list b, bd_compress_dup b, bd_compress b, bd_crc b, bd_n b, bd_c b).
(** The current page behind the pages [M0], [V0], [K0]. *)
Record building (T : Z) (b : sdbuild) (M0 V0 K0 : bytes) (h : sdpageheader) (ds : list sdv) (body keys : bytes) : Prop := {
  bg_ref : ∃ ref, bd_list b !! bd_n b = Some ref ∧ f_m ref = blen M0 ∧ f_v ref = blen V0 ∧ f_k ref = blen K0;
  bg_mcap : buf_cap T (bd_m b);
  bg_m : content (bd_m b) = M0 ++ header_enc h ++ concat (sdv_enc <$> ds);
  bg_vcap : buf_cap T (bd_v b);
  bg_v : content (bd_v b) = V0 ++ body;
  bg_kcap : buf_cap T (bd_k b);
  bg_k : content (bd_k b) = K0 ++ keys;
  bg_h : header_ok h
}.

Lemma buildref_run T b M0 V0 K0 h ds body keys : building T b M0 V0 K0 h ds body keys →
  ∃ ref, sd_buildref b = Some (ref, b) ∧ f_m ref = blen M0 ∧ f_v ref = blen V0 ∧ f_k ref = blen K0.
Proof. intros Hb. destruct (bg_ref _ _ _ _ _ _ _ _ _ Hb) as (ref & E & Hr). exists ref. unfold sd_buildref, cread. by rewrite E. Qed.
Lemma buildheader_run T b M0 V0 K0 h ds body keys : building T b M0 V0 K0 h ds body keys → sd_buildheader b = Some (h, b).
Proof.
  intros Hb. destruct (buildref_run _ _ _ _ _ _ _ _ _ Hb) as (ref & E & Hm & _). unfold sd_buildheader, cbind, cread. rewrite E, Hm.
  unfold blen. rewrite Nat2Z.id. erewrite header_read; [done| |exact (bg_h _ _ _ _ _ _ _ _ _ Hb)].
  eapply content_at; [exact (bg_mcap _ _ _ _ _ _ _ _ _ Hb)|exact (bg_m _ _ _ _ _ _ _ _ _ Hb)].
Qed.
Lemma set_header_run T b M0 V0 K0 h ds body keys h' : building T b M0 V0 K0 h ds body keys → header_ok h' →
  ∃ m', set_header h' b = Some ((), with_m m' b) ∧ building T (with_m m' b) M0 V0 K0 h' ds body keys.
Proof.
  intros Hb Hh. destruct (buildref_run _ _ _ _ _ _ _ _ _ Hb) as (ref & E & Hm & _).
  destruct (copy_inside T (bd_m b) M0 (header_enc h) (concat (sdv_enc <$> ds)) (header_enc h')) as (m' & Em & Hcap & Hc);
    [apply Hb|apply Hb|by rewrite !header_length|].
  exists m'. split.
  - unfold set_header, cbind. rewrite E, Hm. unfold blen. rewrite Nat2Z.id. unfold on_m, lift. by rewrite Em.
  - destruct Hb. by split.
Qed.
Lemma used_blen T b : buf_cap T b → ss_bufused b = blen (content b).
Proof. intros [Hok _]. unfold ss_bufused, blen. by rewrite content_length. Qed.

(** * Storing a version in the raw format *)

Lemma leb_le v : (length (leb v) <= 10)%nat.
Proof. apply leb_size. Qed.
Lemma add_meta_ok T b x y more : 4 * T <= INT_MAX → buf_cap T (bd_v b) → is_u64 x → is_u64 y → 0 <= more →
  blen (content (bd_v b)) + 20 + more <= T →
  wp (add_meta x y more) b (λ ok b', (ok = false ∧ refused) ∨ (ok = true ∧
    ∃ v, b' = with_v v b ∧ buf_cap T v ∧ content v = content (bd_v b) ++ leb x ++ leb y ∧ fresh_room v (Z.to_nat more))).
Proof.
  intros HT Hcap Hx Hy Hm Hlen. pose proof (leb_le x). pose proof (leb_le y). unfold add_meta. pose proof HT as HT'. unfold INT_MAX in HT'.
  assert (0 <= blen (content (bd_v b))) by (unfold blen; lia).
  apply wp_bind. unfold cread at 1, wp at 1. rewrite leb_size_ok by done. apply wp_bind. unfold cread at 1, wp at 1. rewrite leb_size_ok by done. cbv zeta.
  rewrite (wrap_id 32 (Z.of_nat _ + _)) by (unfold in_u; lia). rewrite wrap_id by (unfold in_u; lia).
  apply wp_bind, wp_lift. eapply wp_mono; [apply (ensure_cap T); [done|done|lia|rewrite (used_blen T) by done; lia]|].
  intros rc b1 [(-> & _ & Hn)|(-> & Hcap1 & Hc1 & Hroom)]; [by left|]. cbn [Z.eqb].
  replace (Z.to_nat _) with (length (leb x) + (length (leb y) + Z.to_nat more))%nat in Hroom by lia.
  apply wp_bind, wp_lift. eapply wp_mono; [apply (add_leb_ok T); [done|done|]|]. { unfold fresh_room in *. cbn [bd_v with_v]. lia. }
  intros [] b2 (Hcap2 & Hc2 & Hr2). apply Hr2 in Hroom. apply wp_bind, wp_lift. eapply wp_mono; [apply (add_leb_ok T); [done|done|]|].
  { unfold fresh_room in *. cbn [bd_v with_v]. lia. }
  intros [] b3 (Hcap3 & Hc3 & Hr3). apply Hr3 in Hroom. apply wp_ret. right. split; [done|]. exists b3.
  cbn [bd_v with_v] in *. split_and!; [done|done| |done]. by rewrite Hc3, Hc2, Hc1, <- app_assoc.
Qed.
Lemma add_raw_ok T b v : 4 * T <= INT_MAX → buf_cap T (bd_v b) → sv_ok v → blen (content (bd_v b)) + 20 + sv_size v <= T →
  wp (sd_buildadd_raw v) b (λ rc b', (rc = -1 ∧ refused) ∨
    (rc = 0 ∧ ∃ v', b' = with_v v' b ∧ buf_cap T v' ∧ content v' = content (bd_v b) ++ raw_rec v)).
Proof.
  intros HT Hcap Hok Hu. pose proof (sv_size_u64 v Hok) as Hs64. destruct Hok as [Hl Hsz].
  assert (u32 (sv_size v) = sv_size v) as E32 by (apply wrap_id; unfold in_u, sv_size in *; lia).
  unfold sd_buildadd_raw. cbv zeta. rewrite E32. apply wp_bind.
  eapply wp_mono; [apply (add_meta_ok T); [done|done|done|done|unfold in_u in Hs64; lia|done]|].
  intros ok b1 [[-> Hno]|(-> & v1 & -> & Hcap1 & Hc1 & Hroom)]; [by left|]. cbn [negb]. unfold sv_size in Hroom. rewrite Nat2Z.id in Hroom.
  apply wp_bind, wp_lift. eapply wp_mono; [by apply (copy_advance_ok T)|].
  intros [] v2 (Hcap2 & Hc2 & _). apply wp_ret. right. split; [done|]. exists v2. split_and!; [done|done|].
  cbn [bd_v with_v] in *. rewrite Hc2, Hc1. unfold raw_rec. by rewrite <- !app_assoc.
Qed.

(** * Adding a version *)

Lemma header_add_ok f l h : header_ok h → is_u64 l → header_ok (header_add f l h).
Proof.
  intros (H1 & H2 & H3 & H4 & H5 & H6 & H7 & H8 & H9 & H10) Hl. unfold header_ok, header_add. cbn.
  split_and!; try done; try (apply wrap_in_u; done); repeat case_match; try done; apply wrap_in_u; done.
Qed.
End building.
