(* ===== verification/SdBuildKv.v ===== *)
(** Storing a version as keys and value: the parts of its key are appended to the keys of the
    page, or found among them, and the version refers to them by their offsets. *)
From stdpp Require Import base list sorting sets.
From S2P Require Import Prelude Sv SsBytes SsBuf SsFilter SsHt Sf SrScheme SdPage SdPageIter SdPageRep SdPageKv SdBuild SdBuildProofs.
Local Open Scope Z_scope.
Local Open Scope c_scope.

Section keyvalue.
Context `{Alloc}.

(** * The tracker *)

(** A node of the tracker stands for a key among the keys of the page. *)
Definition tracked (K0 keys : bytes) (n : sdbuildkey) : Prop := ∃ k,
  is_u32 (bk_offset n) ∧ mem_at keys (Z.to_nat (bk_offset n)) (key_rec k) ∧ bk_size n = blen k ∧
  bk_offsetstart n = blen K0 + bk_offset n + blen (leb (blen k)).
Record tracker_ok (K0 keys : bytes) (t : ssht sdbuildkey) : Prop := {
  to_dim : ht_dim t;
  to_size : (4 <= t_size t)%nat;
  to_count : t_count t = Z.of_nat (length (nodes_of t));
  to_room : (length (nodes_of t) <= t_size t / 2 + 1)%nat;
  to_few : (length (nodes_of t) <= length keys)%nat;
  to_nodes : ∀ n, n ∈ nodes_of t → tracked K0 keys n
}.
Lemma mem_at_more m off bs r : mem_at m off bs → mem_at (m ++ r) off bs.
Proof. intros (l & r' & -> & <-). exists l, (r' ++ r). by rewrite <- !app_assoc. Qed.
Lemma tracked_more K0 keys r n : tracked K0 keys n → tracked K0 (keys ++ r) n.
Proof. intros (k & Hu & Hm & Hs & Ho). exists k. split_and!; [done|by apply mem_at_more|done|done]. Qed.
Lemma tracker_more K0 keys r t : tracker_ok K0 keys t → tracker_ok K0 (keys ++ r) t.
Proof. intros [Hd Hs Hc Hr Hf Hn]. split; try done; [rewrite length_app; lia|]. intros n Hin. by apply tracked_more, Hn. Qed.
Lemma tracker_has_room K0 keys t : tracker_ok K0 keys t → room t.
Proof. intros [_ Hs _ Hr _ _]. unfold room. pose proof (Nat.div_mod_eq (t_size t) 2). pose proof (Nat.mod_upper_bound (t_size t) 2). lia. Qed.

(** What the search answers: a slot with the offset of the part among the keys, or an empty one. *)
Lemma buildsearch_ok T b K0 keys part : buf_cap T (bd_k b) → content (bd_k b) = K0 ++ keys → tracker_ok K0 keys (bd_tracker b) →
  ∃ pos slot, sd_buildsearch (ss_fnv part) part b = Some (pos, b) ∧ t_i (bd_tracker b) !! pos = Some slot ∧
    ∀ n, slot = Some n → is_u32 (bk_offset n) ∧ mem_at keys (Z.to_nat (bk_offset n)) (key_rec part).
Proof.
  intros Hcap Hc Ht. unfold sd_buildsearch. set (compare := λ n : sdbuildkey, _).
  destruct (search_run compare (bd_tracker b) (ss_fnv part) (to_dim _ _ _ Ht) (tracker_has_room _ _ _ Ht)) as (k & slot & Hk & E & Hsl & Hst & _).
  exists (probe (bd_tracker b) (ss_fnv part) k), slot. split_and!.
  - unfold on_tracker, lift. rewrite E. by destruct b.
  - done.
  - intros n ->. simpl in Hst. unfold compare in Hst. apply andb_true_iff in Hst as [[_ Hsz%Z.eqb_eq]%andb_true_iff Hrd].
    destruct (to_nodes _ _ _ Ht n) as (key & Hu & Hm & Hs & Ho); [apply node_elem; by eexists|]. split; [done|].
    assert (mem_at (b_mem (bd_k b)) (Z.to_nat (bk_offsetstart n)) key) as Hat.
    { unfold key_rec in Hm. apply mem_at_app in Hm as [_ (l & r & -> & Hl)]. exists (K0 ++ l), (r ++ drop (b_p (bd_k b)) (b_mem (bd_k b))).
      rewrite <- (take_drop (b_p (bd_k b)) (b_mem (bd_k b))) at 1. change (take (b_p (bd_k b)) (b_mem (bd_k b))) with (content (bd_k b)).
      rewrite Hc, <- !app_assoc. split; [done|]. unfold in_u, blen in *. rewrite length_app. lia. }
    assert (length key = length part) as El by (unfold blen in *; lia). apply mem_at_read in Hat. rewrite El in Hat. rewrite Hat in Hrd.
    by apply bool_decide_eq_true in Hrd as ->.
Qed.

Lemma elem_insert (l : list (option sdbuildkey)) pos n x : x ∈ omap id (<[pos := Some n]> l) → x = n ∨ x ∈ omap id l.
Proof.
  rewrite !list_elem_of_omap. intros (y & Hy & Ey). simpl in Ey. subst y. apply list_elem_of_lookup in Hy as [i Hi].
  apply list_lookup_insert_Some in Hi as [(_ & ? & _)|[_ Hi]]; [left; congruence|]. right. exists (Some x). split; [|done].
  by eapply list_elem_of_lookup_2.
Qed.
(** Before a key is entered the tracker is made larger when it is full. *)
Lemma track_resize_ok T b K0 keys : 4 * T <= INT_MAX → blen keys <= T → tracker_ok K0 keys (bd_tracker b) →
  wp (if ss_htisfull (bd_tracker b) then on_tracker (ss_htresize bk_hash) else cret 0) b (λ rc b', (rc = -1 ∧ refused) ∨
    (rc = 0 ∧ ∃ t, b' = with_tracker t b ∧ tracker_ok K0 keys t ∧ (length (nodes_of t) <= t_size t / 2)%nat ∧ (t_size (bd_tracker b) <= t_size t)%nat)).
Proof.
  intros HT Hk Ht. set (t := bd_tracker b) in *. pose proof Ht as [Hd Hs Hc Hr Hf Hn]. unfold blen in Hk.
  destruct (ss_htisfull t) eqn:Ef; unfold ss_htisfull in Ef; rewrite Hc, Z.gtb_ltb in Ef.
  - apply Z.ltb_lt in Ef. unfold on_tracker. apply wp_lift. fold t. unfold wp.
    pose proof (Nat.div_mod_eq (t_size t) 2). pose proof (Nat.mod_upper_bound (t_size t) 2).
    destruct (htresize_ok bk_hash t Hd Hc) as (rc & t' & E & [(-> & _ & Hno)|(-> & Hok' & Hp & Hc' & Hs' & Hf')]); [lia| |]; rewrite E.
    + left. by split.
    + right. split; [done|]. exists t'. unfold ss_htisfull in Hf'. rewrite Hc', Hc, Z.gtb_ltb in Hf'. apply Z.ltb_ge in Hf'.
      assert (length (nodes_of t') = length (nodes_of t)) as El by (by rewrite Hp).
      assert (length (nodes_of t') <= t_size t' / 2)%nat by lia. split_and!; [done| |done|lia].
      split; try lia; [by apply (ht_ok_dim bk_hash)|]. intros n Hin. apply Hn. by rewrite <- Hp.
  - apply Z.ltb_ge in Ef. apply wp_ret. right. split; [done|]. exists t. split_and!; [by destruct b|done|lia|lia].
Qed.
Lemma track_set_ok b K0 keys part pos n : tracker_ok K0 keys (bd_tracker b) → (pos < t_size (bd_tracker b))%nat →
  (length (nodes_of (bd_tracker b)) <= t_size (bd_tracker b) / 2)%nat → (length (nodes_of (bd_tracker b)) + 1 <= length (keys ++ key_rec part))%nat →
  tracked K0 (keys ++ key_rec part) n →
  ∃ t, on_tracker (ss_htset pos n) b = Some ((), with_tracker t b) ∧ tracker_ok K0 (keys ++ key_rec part) t.
Proof.
  intros [[Hl Hp] Hs Hc Hr Hf Hn] Hpos Hhalf Hlen Htr. set (t := bd_tracker b) in *.
  destruct (lookup_lt_is_Some_2 (t_i t) pos) as [slot Hslot]; [lia|]. unfold on_tracker, lift. fold t. rewrite (htset_ok t pos slot n Hslot).
  eexists. split; [done|]. assert (∀ x, x ∈ omap id (<[pos:=Some n]> (t_i t)) → tracked K0 (keys ++ key_rec part) x) as Hall.
  { intros x [->|Hx]%elem_insert; [done|]. by apply tracked_more, Hn. }
  assert (length (omap id (<[pos:=Some n]> (t_i t))) = match slot with None => S (length (nodes_of t)) | Some _ => length (nodes_of t) end) as El.
  { destruct slot as [o|]; [|by rewrite (nodes_insert _ _ n Hslot)]. pose proof (Permutation_length (nodes_replace _ _ o n Hslot)) as E.
    simpl in E. unfold nodes_of. lia. }
  split; unfold nodes_of, ht_dim; cbn [t_i t_count t_size]; [split; [by rewrite length_insert|done]|done|..|done]; rewrite El; destruct slot; lia.
Qed.

(** * The parts of a key *)

(** The page while the parts of a version are stored. *)
Record kv_state (T : Z) (b : sdbuild) (K0 keys : bytes) : Prop := {
  kv_ref : ∃ ref, bd_list b !! bd_n b = Some ref ∧ f_k ref = blen K0;
  kv_v : buf_cap T (bd_v b);
  kv_k : buf_cap T (bd_k b);
  kv_kc : content (bd_k b) = K0 ++ keys;
  kv_tracker : bd_compress_dup b = true → tracker_ok K0 keys (bd_tracker b)
}.
(** The buffers of versions and keys and the tracker are all that changes. *)
Definition stores (b b' : sdbuild) : Prop := ∃ v k t, b' = with_tracker t (with_k k (with_v v b)).
Lemma stores_refl b : stores b b.
Proof. exists (bd_v b), (bd_k b), (bd_tracker b). by destruct b. Qed.
Lemma stores_trans a b c : stores a b → stores b c → stores a c.
Proof. intros (v & k & t & ->) (v' & k' & t' & ->). by exists v', k', t'. Qed.
(** No memory for a node of the tracker is a fault. *)
Definition node_memory (b : sdbuild) : Prop := bd_compress_dup b = true → is_Some (ss_malloc 16).

Lemma add_v_leb T b o : 4 * T <= INT_MAX → buf_cap T (bd_v b) → is_u64 o → blen (content (bd_v b)) + 10 <= T → ∀ n, n = Z.of_nat (length (leb o)) →
  wp (on_v (ss_bufensure n)) b (λ rc b1, (rc = -1 ∧ refused) ∨ (rc = 0 ∧
    wp (on_v (add_leb o)) b1 (λ _ b2, ∃ v, b2 = with_v v b ∧ buf_cap T v ∧ content v = content (bd_v b) ++ leb o))).
Proof.
  intros HT Hcap Ho Hlen n ->. pose proof (leb_le o). apply wp_lift. eapply wp_mono; [apply (ensure_cap T); [done|done|lia|rewrite (used_blen T) by done; lia]|].
  intros rc b1 [(-> & _ & Hn)|(-> & Hcap1 & Hc1 & Hroom)]; [by left|]. right. split; [done|]. rewrite Nat2Z.id in Hroom.
  apply wp_lift. eapply wp_mono; [by apply (add_leb_ok T)|]. intros [] b2 (Hcap2 & Hc2 & _). exists b2. split_and!; [done|done|].
  cbn [bd_v with_v] in Hc2. by rewrite Hc2, Hc1.
Qed.
Lemma copy_key_ok T b part : 4 * T <= INT_MAX → buf_cap T (bd_k b) → is_u64 (blen part) → blen (content (bd_k b)) + blen (key_rec part) <= T →
  wp (copy_key part) b (λ res b', (res = None ∧ refused) ∨
    (res = Some (blen (leb (blen part))) ∧ ∃ k, b' = with_k k b ∧ buf_cap T k ∧ content k = content (bd_k b) ++ key_rec part)).
Proof.
  intros HT Hcap Hp Hlen. unfold key_rec, blen in Hlen. rewrite length_app in Hlen. unfold copy_key. cbv zeta. fold (blen part). apply wp_bind. unfold cread at 1, wp at 1.
  rewrite leb_size_ok by done. apply wp_bind, wp_lift. eapply wp_mono.
  { apply (ensure_cap T); [done|done|unfold blen; lia|]. rewrite (used_blen T) by done. unfold blen. lia. }
  intros rc b1 [(-> & _ & Hn)|(-> & Hcap1 & Hc1 & Hroom)]; [by left|]. cbn [Z.eqb]. unfold blen at 2 in Hroom. rewrite <- Nat2Z.inj_add, Nat2Z.id in Hroom.
  apply wp_bind, wp_lift. eapply wp_mono; [apply (add_leb_ok T); [done|done|]|]. { unfold fresh_room in *. cbn [bd_k with_k]. lia. }
  intros [] b2 (Hcap2 & Hc2 & Hr2). apply Hr2 in Hroom. apply wp_bind, wp_lift. eapply wp_mono; [by apply (copy_advance_ok T)|].
  intros [] b3 (Hcap3 & Hc3 & _). apply wp_ret. right. split; [done|]. exists b3. split_and!; [done|done|].
  cbn [bd_k with_k] in *. rewrite Hc3, Hc2, Hc1. unfold key_rec. by rewrite <- app_assoc.
Qed.

Lemma track_key_ok T b K0 keys part pos n : 4 * T <= INT_MAX → blen (keys ++ key_rec part) <= T → tracker_ok K0 keys (bd_tracker b) →
  (pos < t_size (bd_tracker b))%nat → tracked K0 (keys ++ key_rec part) n → is_Some (ss_malloc 16) →
  wp (track_key pos n) b (λ ok b', (ok = false ∧ refused) ∨
    (ok = true ∧ ∃ t, b' = with_tracker t b ∧ tracker_ok K0 (keys ++ key_rec part) t)).
Proof.
  intros HT Hlen Ht Hpos Htr [m Hm]. unfold track_key. apply wp_bind. unfold cread at 1, wp at 1. apply wp_bind.
  assert (blen keys <= T) by (unfold blen in *; rewrite length_app in Hlen; lia).
  eapply wp_mono; [by apply (track_resize_ok T b K0 keys)|]. intros rc b1 [[-> Hno]|(-> & t & -> & Ht1 & Hhalf & Hsz)]; [by left|].
  cbn [Z.eqb]. rewrite Hm. destruct (track_set_ok (with_tracker t b) K0 keys part pos n) as (t' & E & Ht'); cbn [bd_tracker with_tracker]; try done.
  - lia.
  - pose proof (to_few _ _ _ Ht1). rewrite length_app. unfold key_rec. rewrite length_app. pose proof (leb_size 9 (blen part)). unfold leb. lia.
  - unfold wp, cbind. rewrite E. right. split; [done|]. by exists t'.
Qed.

Lemma find_key_ok T b K0 keys part : kv_state T b K0 keys → ∃ pos slot, find_key (ss_fnv part) part b = Some ((pos, slot), b) ∧
  (bd_compress_dup b = true → (pos < t_size (bd_tracker b))%nat) ∧
  ∀ n, slot = Some n → is_u32 (bk_offset n) ∧ mem_at keys (Z.to_nat (bk_offset n)) (key_rec part).
Proof.
  intros [_ _ Hkc Hkk Htr]. unfold find_key, cbind at 1, cget. destruct (bd_compress_dup b); [|by exists 0%nat, None].
  destruct (buildsearch_ok T b K0 keys part Hkc Hkk (Htr eq_refl)) as (pos & slot & E & Hsl & Hn).
  exists pos, slot. unfold cbind, cread. rewrite E, Hsl. split_and!; [done| |done]. intros _.
  rewrite <- (proj1 (to_dim _ _ _ (Htr eq_refl))). by eapply lookup_lt_Some.
Qed.
(** A new part: behind the keys, and in the tracker. *)
Lemma new_key_ok T b K0 keys part pos : 4 * T <= INT_MAX → kv_state T b K0 keys → node_memory b → blen part < 65536 →
  blen K0 + blen keys + 10 + blen part <= T → (bd_compress_dup b = true → (pos < t_size (bd_tracker b))%nat) →
  let node meta := mk_buildkey (ss_fnv part) (u32 (blen keys)) (u32 (blen K0 + blen keys + meta)) (u32 (blen part)) in
  wp (let! copied := copy_key part in
      match copied with
      | None => cret false
      | Some meta => if bd_compress_dup b then track_key pos (node meta) else cret true
      end) b (λ ok b', (ok = false ∧ refused) ∨ (ok = true ∧ stores b b' ∧ kv_state T b' K0 (keys ++ key_rec part) ∧ bd_v b' = bd_v b)).
Proof.
  intros HT [Href Hvc Hkc Hkk Htr] Hmem Hp Hlen Hpos node. pose proof (leb_le (blen part)) as Hleb.
  assert (blen (K0 ++ keys) = blen K0 + blen keys) as El by (unfold blen; rewrite length_app; lia).
  assert (blen (key_rec part) = blen (leb (blen part)) + blen part) as Er by (unfold key_rec, blen; rewrite length_app; lia).
  assert (0 <= blen keys ∧ 0 <= blen K0 ∧ 0 <= blen part ∧ 0 <= blen (leb (blen part)) <= 10) as (? & ? & ? & ?) by (unfold blen in *; lia).
  unfold INT_MAX in *. apply wp_bind. eapply wp_mono; [apply (copy_key_ok T); [done|done|unfold in_u; lia|rewrite Hkk, El, Er; lia]|].
  intros res b1 [[-> Hno]|(-> & k & -> & Hk1 & Hc1)]; [apply wp_ret; by left|]. rewrite Hkk, <- app_assoc in Hc1. cbv beta iota.
  destruct (bd_compress_dup b) eqn:Ed.
  - eapply wp_mono; [apply (track_key_ok T _ K0 keys part); cbn [bd_tracker with_k]; auto|].
    + unfold blen in *. rewrite length_app. lia.
    + exists part. subst node. cbn [bk_offset bk_size bk_offsetstart]. rewrite !wrap_id by (unfold in_u; lia).
      split_and!; [unfold in_u; lia| |done|done]. exists keys, []. rewrite app_nil_r. split; [done|]. unfold blen. lia.
    + intros ok b2 [[-> Hno]|(-> & t & -> & Ht)]; [by left|]. right. split_and!; [done| | |done].
      { exists (bd_v b), k, t. by destruct b. }
      by split.
  - apply wp_ret. right. split_and!; [done| | |done]. { exists (bd_v b), k, (bd_tracker b). by destruct b. }
    split; try done. cbn. congruence.
Qed.
(** A part: what is appended, and where the version finds it. *)
Lemma part_ok T b K0 keys part : 4 * T <= INT_MAX → kv_state T b K0 keys → node_memory b → blen part < 65536 →
  blen (content (bd_v b)) + 10 <= T → blen K0 + blen keys + 10 + blen part <= T →
  wp (keyvalue_part part) b (λ ok b', (ok = false ∧ refused) ∨
    (ok = true ∧ ∃ o new, stores b b' ∧ kv_state T b' K0 (keys ++ new) ∧ blen new <= 10 + blen part ∧
      content (bd_v b') = content (bd_v b) ++ leb o ∧ is_u32 o ∧ mem_at (keys ++ new) (Z.to_nat o) (key_rec part))).
Proof.
  intros HT Hst Hmem Hp Hv Hk. destruct (find_key_ok T b K0 keys part Hst) as (pos & slot & Ef & Hpos & Hslot).
  pose proof Hst as [(ref & Eref & Hfk) Hvc Hkc Hkk Htr]. pose proof (leb_le (blen part)) as Hleb.
  assert (ss_bufused (bd_k b) = blen K0 + blen keys) as Eu by (rewrite (used_blen T), Hkk by done; unfold blen; rewrite length_app; lia).
  assert (0 <= blen keys ∧ 0 <= blen K0 ∧ 0 <= blen part) as (? & ? & ?) by (unfold blen; lia). pose proof HT as HT'. unfold INT_MAX in HT'.
  unfold keyvalue_part. apply wp_bind. unfold cget at 1, wp at 1. apply wp_bind. unfold sd_buildref, cread at 1, wp at 1. rewrite Eref.
  cbv zeta. rewrite Eu, Hfk, (swrap_id 32 (blen K0 + blen keys)) by lia.
  apply wp_bind. unfold wp at 1. rewrite Ef. cbv beta iota. cbn [fst snd]. set (offset := match slot with Some _ => _ | None => _ end).
  assert (0 <= offset < 2147483648) as Hoff.
  { subst offset. destruct slot as [n|]; [|rewrite swrap_id; lia]. destruct (Hslot n eq_refl) as [Hu Hm].
    apply mem_at_length in Hm. unfold in_u, blen in *. rewrite swrap_id; lia. }
  assert (u64 offset = offset) as -> by (apply wrap_id; unfold in_u; lia). assert (is_u64 offset) as Ho64 by (unfold in_u; lia).
  apply wp_bind. unfold cread at 1, wp at 1. rewrite leb_size_ok by done.
  apply wp_bind. eapply wp_mono; [by apply (add_v_leb T)|]. intros rc b1 [[-> Hno]|[-> W]]; [by left|]. cbn [Z.eqb].
  apply wp_bind. eapply wp_mono; [exact W|]. intros [] b2 (v & -> & Hvc2 & Hc2).
  assert (kv_state T (with_v v b) K0 keys) as Hst2. { split; try done. by exists ref. }
  assert (stores b (with_v v b)) as Hs2. { exists v, (bd_k b), (bd_tracker b). by destruct b. }
  destruct slot as [n|].
  - apply wp_ret. right. split; [done|]. destruct (Hslot n eq_refl) as [Hu Hm]. exists offset, []. rewrite app_nil_r. apply mem_at_length in Hm as Hl.
    assert (offset = bk_offset n) as ->. { subst offset. unfold in_u, blen in *. rewrite swrap_id; lia. }
    split_and!; [done|done|unfold blen; cbn; lia|done|done|done].
  - assert (offset = blen keys) as ->. { subst offset. rewrite swrap_id; lia. }
    eapply wp_mono; [by apply (new_key_ok T (with_v v b) K0 keys part pos)|].
    intros ok b3 [[-> Hno]|(-> & Hs3 & Hst3 & Ev)]; [by left|]. right. split; [done|]. exists (blen keys), (key_rec part).
    split_and!; [exact (stores_trans _ _ _ Hs2 Hs3)|done| |by rewrite Ev|unfold in_u; lia|].
    + unfold key_rec, blen in *. rewrite length_app. lia.
    + exists keys, []. rewrite app_nil_r. split; [done|]. unfold blen. lia.
Qed.

(** * A version *)

Definition refers (keys : bytes) (o : Z) (k : bytes) : Prop := is_u32 o ∧ mem_at keys (Z.to_nat o) (key_rec k).
Lemma refers_more keys new offs ks : Forall2 (refers keys) offs ks → Forall2 (refers (keys ++ new)) offs ks.
Proof. intros HF. eapply Forall2_impl; [exact HF|]. intros o k [Ho Hm]. split; [done|]. by apply mem_at_more. Qed.
Lemma stores_memory b b' : stores b b' → node_memory b → node_memory b'.
Proof. by intros (v & k & t & ->). Qed.
Lemma blen_app a b : blen (a ++ b) = blen a + blen b.
Proof. unfold blen. rewrite length_app. lia. Qed.
Lemma blen_pos a : 0 <= blen a.
Proof. unfold blen. lia. Qed.

Lemma blen_leb v : 0 <= blen (leb v) <= 10.
Proof. pose proof (leb_le v). unfold blen. lia. Qed.
Lemma lebs_le (offs : list Z) : (length (concat (leb <$> offs)) <= 10 * length offs)%nat.
Proof. induction offs as [|o offs IH]; [done|]. rewrite fmap_cons. cbn [concat length]. rewrite length_app. pose proof (leb_le o). lia. Qed.
Lemma parts_ok T K0 v ks value : 4 * T <= INT_MAX → kv_parts v ks value → ∀ ks2 ks1 b keys, ks = ks1 ++ ks2 →
  kv_state T b K0 keys → node_memory b → blen (content (bd_v b)) + 10 * Z.of_nat (length ks2) <= T →
  blen K0 + blen keys + 10 * Z.of_nat (length ks2) + blen (concat ks2) <= T →
  wp (keyvalue_parts v (length ks2) (length ks1)) b (λ ok b', (ok = false ∧ refused) ∨
    (ok = true ∧ ∃ offs new, stores b b' ∧ kv_state T b' K0 (keys ++ new) ∧ blen new <= 10 * Z.of_nat (length ks2) + blen (concat ks2) ∧
      content (bd_v b') = content (bd_v b) ++ concat (leb <$> offs) ∧ Forall2 (refers (keys ++ new)) offs ks2)).
Proof.
  intros HT Hv. induction ks2 as [|k ks2 IH]; intros ks1 b keys Eks Hst Hmem Hlv Hlk.
  { apply wp_ret. right. split; [done|]. exists [], []. rewrite !app_nil_r. split_and!; [apply stores_refl|done|done|done|constructor]. }
  cbn [length keyvalue_parts concat] in *. rewrite blen_app in Hlk |- *. pose proof (blen_pos k). pose proof (blen_pos (concat ks2)).
  pose proof (row_has_keys ks value (kp_fits _ _ _ Hv) (length ks1) k) as Hkd. rewrite <- (kp_row _ _ _ Hv) in Hkd.
  apply wp_bind. unfold cread at 1, wp at 1. rewrite Hkd by (rewrite Eks; by apply list_lookup_middle).
  assert (blen k < 65536) as Hk16. { destruct (kp_fits _ _ _ Hv) as [Hf _]. rewrite Forall_forall in Hf. unfold blen. apply Hf. rewrite Eks. set_solver. }
  apply wp_bind. eapply wp_mono; [apply (part_ok T b K0 keys k); (done || lia)|].
  intros ok b1 [[-> Hno]|(-> & o & new & Hs1 & Hst1 & Hn1 & Hc1 & Ho & Hm)]; [apply wp_ret; by left|].
  pose proof (leb_le o) as Hlo. specialize (IH (ks1 ++ [k]) b1 (keys ++ new)). rewrite length_app, Nat.add_1_r in IH. eapply wp_mono; [apply IH|].
  - by rewrite <- app_assoc.
  - done.
  - by eapply stores_memory.
  - rewrite Hc1, blen_app. unfold blen in *. lia.
  - rewrite blen_app. lia.
  - intros ok b2 [[-> Hno]|(-> & offs & new2 & Hs2 & Hst2 & Hn2 & Hc2 & HF)]; [by left|]. right. split; [done|].
    exists (o :: offs), (new ++ new2). rewrite app_assoc, blen_app. split_and!; [exact (stores_trans _ _ _ Hs1 Hs2)|done|lia| |].
    + rewrite Hc2, Hc1, <- app_assoc. done.
    + constructor; [|done]. split; [done|]. by apply mem_at_more.
Qed.
Lemma keysize_ok v ks value : kv_parts v ks value → ∀ ks2 ks1, ks = ks1 ++ ks2 → keyvalue_size v (length ks2) (length ks1) = Some (blen (concat ks2)).
Proof.
  intros Hv. induction ks2 as [|k ks2 IH]; intros ks1 Eks; [done|]. cbn [length keyvalue_size concat].
  destruct (row_part ks1 k ks2 value) as (_ & _ & E). { rewrite <- Eks. apply Hv. }
  cbv zeta in E. rewrite <- Eks, <- (kp_row _ _ _ Hv) in E. rewrite E. cbn [mbind option_bind].
  specialize (IH (ks1 ++ [k])). rewrite length_app, Nat.add_1_r in IH. rewrite IH by (by rewrite <- app_assoc). cbn [mbind option_bind].
  rewrite blen_app. unfold blen at 1. rewrite wrap_id; [done|]. pose proof (kp_size _ _ _ Hv) as Hs. rewrite (kv_sizes _ _ _ Hv), Eks, concat_app, blen_app in Hs.
  cbn [concat] in Hs. rewrite blen_app in Hs. unfold in_u, blen in *. lia.
Qed.

Lemma add_keyvalue_ok T b v ks value K0 keys : 4 * T <= INT_MAX → kv_parts v ks value → ks ≠ [] → kv_state T b K0 keys → node_memory b →
  blen (content (bd_v b)) + 20 + 10 * Z.of_nat (length ks) + sv_size v <= T →
  blen K0 + blen keys + 10 * Z.of_nat (length ks) + sv_size v <= T →
  wp (sd_buildadd_keyvalue SF_KV (length ks) v) b (λ rc b', (rc = -1 ∧ refused) ∨
    (rc = 0 ∧ ∃ offs new, stores b b' ∧ kv_state T b' K0 (keys ++ new) ∧ blen new <= 10 * Z.of_nat (length ks) + sv_size v ∧
      content (bd_v b') = content (bd_v b) ++ kv_rec (blen (concat ks) + blen value) (sv_lsn v) offs value ∧
      Forall2 (refers (keys ++ new)) offs ks ∧ (length offs = length ks)%nat)).
Proof.
  intros HT Hv Hne Hst Hmem Hlv Hlk. pose proof (kv_sizes _ _ _ Hv) as Hsz. pose proof (kp_size _ _ _ Hv) as Hsz31.
  destruct (row_value ks value Hne (kp_fits _ _ _ Hv)) as (voff & Ev & Evs & Evr). rewrite <- (kp_row _ _ _ Hv) in Ev, Evs, Evr.
  pose proof (blen_pos (concat ks)). pose proof (blen_pos value). pose proof (blen_pos (content (bd_v b))). pose proof (kp_lsn _ _ _ Hv) as Hl64.
  assert (keyvalue_size v (length ks) 0 = Some (blen (concat ks))) as Eks by exact (keysize_ok v ks value Hv ks [] eq_refl).
  unfold sd_buildadd_keyvalue. apply wp_bind. unfold cread at 1, wp at 1. rewrite Eks.
  apply wp_bind. unfold cread at 1, wp at 1. rewrite Evs. fold (blen value). cbv zeta. unfold INT_MAX in HT.
  rewrite (wrap_id 32 (blen value)) by (unfold in_u; lia). rewrite (wrap_id 32 (blen (concat ks) + blen value)) by (unfold in_u; lia).
  apply wp_bind. eapply wp_mono; [apply (add_meta_ok T); [done|apply Hst|unfold in_u; lia|done|lia|lia]|].
  intros ok b1 [[-> Hno]|(-> & v1 & -> & Hcap1 & Hc1 & _)]; [by left|]. cbn [negb].
  assert (kv_state T (with_v v1 b) K0 keys) as Hst1. { destruct Hst. by split. }
  assert (stores b (with_v v1 b)) as Hs1. { exists v1, (bd_k b), (bd_tracker b). by destruct b. }
  pose proof (blen_leb (blen (concat ks) + blen value)). pose proof (blen_leb (sv_lsn v)).
  apply wp_bind. eapply wp_mono; [apply (parts_ok T K0 v ks value HT Hv ks [] (with_v v1 b) keys eq_refl Hst1 Hmem)|].
  { cbn [bd_v with_v]. rewrite Hc1, !blen_app. lia. }
  { lia. }
  intros ok b2 [[-> Hno]|(-> & offs & new & Hs2 & Hst2 & Hn2 & Hc2 & HF)]; [by left|]. cbn [negb]. cbn [bd_v with_v] in Hc2.
  assert (blen (content (bd_v b2)) + blen value <= T) as Hfit.
  { rewrite Hc2, Hc1, !blen_app. pose proof (Forall2_length _ _ _ HF) as El. pose proof (lebs_le offs) as Hlo. assert (blen (concat (leb <$> offs)) <= 10 * Z.of_nat (length offs)) by (unfold blen; lia). lia. }
  apply wp_bind, wp_lift. eapply wp_mono; [apply (ensure_cap T); [done|apply Hst2|lia|rewrite (used_blen T) by apply Hst2; done]|].
  intros rc v2 [(-> & _ & Hno)|(-> & Hcap3 & Hc3 & Hroom)]; [by left|]. cbn [Z.eqb]. unfold blen in Hroom. rewrite Nat2Z.id in Hroom.
  apply wp_bind. unfold cread at 1, wp at 1. rewrite Ev. cbn [mbind option_bind]. unfold blen at 1. rewrite Nat2Z.id, Evr.
  apply wp_bind, wp_lift. eapply wp_mono; [by apply (copy_advance_ok T)|]. intros [] v3 (Hcap4 & Hc4 & _). apply wp_ret. right.
  split; [done|]. exists offs, new. cbn [bd_v with_v] in *. split_and!; [| |lia| |done|by apply (Forall2_length _ _ _ HF)].
  - apply (stores_trans _ _ _ Hs1), (stores_trans _ _ _ Hs2). exists v3, (bd_k b2), (bd_tracker b2). by destruct b2.
  - destruct Hst2. by split.
  - rewrite Hc4, Hc3, Hc2, Hc1. unfold kv_rec. by rewrite <- !app_assoc.
Qed.
End keyvalue.
