(* ===== verification/SdBuildSpec.v ===== *)
(** Building a page, from its first version to its last: the page the buffers hold then. *)
From stdpp Require Import base list sorting sets.
From S2P Require Import Prelude Sv SsBytes SsBuf SsFilter SsHt Sf SsCrc SrScheme SvMergeProofs SvIndexProofs SvIndexIter SdPage SdPageIter SdPageRep SdPageKv SdPageSpec SdBuild SdBuildProofs SdBuildKv.
Local Open Scope Z_scope.
Local Open Scope c_scope.

(** * What a page under construction holds *)

Definition flagged_sv (v : sv) (f : Z) : sv := mk_sv (sv_lsn v) (u8 (Z.lor (sv_flags v) f)) (sv_pointer v).
Definition page_entries (r : sr) (body keys : bytes) (ds : list sdv) (vs : list sv) : Prop :=
  match r_fmt_storage r with
  | SF_SRAW => Forall2 (raw_entry body) ds vs
  | SF_SKEYVALUE => Forall2 (kv_entry (s_count (r_scheme r)) body keys) ds vs
  end.
(** A version that can be stored. *)
Definition storable (r : sr) (v : sv) : Prop :=
  match r_fmt_storage r with
  | SF_SRAW => sv_ok v
  | SF_SKEYVALUE => r_fmt r = SF_KV ∧ s_count (r_scheme r) ≠ 0%nat ∧ ∃ ks value, kv_parts v ks value ∧ length ks = s_count (r_scheme r)
  end.
(** The most a version adds to a buffer. *)
Definition cost (r : sr) (v : sv) : Z := 20 + 10 * Z.of_nat (s_count (r_scheme r)) + sv_size v.

Lemma entries_more r body keys more new ds vs : page_entries r body keys ds vs → page_entries r (body ++ more) (keys ++ new) ds vs.
Proof.
  unfold page_entries. destruct (r_fmt_storage r); intros HF; (eapply Forall2_impl; [exact HF|]); intros d v.
  - intros (ks & value & offs & Hv & Hc & Hf & Hm & Ho). exists ks, value, offs. split_and!; [done|done|done|by apply mem_at_more|by apply refers_more].
  - intros (Hf & Hm & Hok). split_and!; [done|by apply mem_at_more|done].
Qed.

(** What the header says of the versions. *)
Definition is_dup (v : sv) : bool := c_true (Z.land (sv_flags v) SVDUP).
Record summary (h : sdpageheader) (vs : list sv) : Prop := {
  sm_count : h_count h = Z.of_nat (length vs);
  sm_countdup : h_countdup h = Z.of_nat (length (filter is_dup vs));
  sm_lsnmin : h_lsnmin h = foldr Z.min UINT64_MAX (sv_lsn <$> vs);
  sm_lsnmindup : h_lsnmindup h = foldr Z.min UINT64_MAX (sv_lsn <$> filter is_dup vs);
  sm_lsnmax : h_lsnmax h = foldr Z.max 0 (sv_lsn <$> vs)
}.
Lemma fold_snoc (f : Z → Z → Z) e l x : (∀ a b c, f a (f b c) = f (f a b) c) → (∀ a b, f a b = f b a) → foldr f e (l ++ [x]) = f (foldr f e l) x.
Proof. intros Ha Hc. induction l as [|y l IH]; simpl; [apply Hc|]. by rewrite IH, Ha. Qed.
Lemma min_snoc l x : foldr Z.min UINT64_MAX (l ++ [x]) = if Z.ltb x (foldr Z.min UINT64_MAX l) then x else foldr Z.min UINT64_MAX l.
Proof. rewrite fold_snoc by lia. destruct (Z.ltb_spec x (foldr Z.min UINT64_MAX l)); lia. Qed.
Lemma max_snoc l x : foldr Z.max 0 (l ++ [x]) = if Z.gtb x (foldr Z.max 0 l) then x else foldr Z.max 0 l.
Proof. rewrite fold_snoc by lia. rewrite Z.gtb_ltb. destruct (Z.ltb_spec (foldr Z.max 0 l) x); lia. Qed.
Lemma summary_add h vs v : summary h vs → Z.of_nat (length vs) + 1 < 4294967296 → summary (header_add (sv_flags v) (sv_lsn v) h) (vs ++ [v]).
Proof.
  intros [H1 H2 H3 H4 H5] Hlen. pose proof (length_filter is_dup vs) as Hle.
  split; unfold header_add; cbn [h_count h_countdup h_lsnmin h_lsnmindup h_lsnmax]; rewrite ?filter_app, ?fmap_app, ?length_app.
  - rewrite H1, wrap_id; [cbn; lia|]. unfold in_u. lia.
  - fold (is_dup v). rewrite H2. destruct (is_dup v) eqn:Ed.
    + rewrite filter_cons_True, filter_nil by (by rewrite Ed). rewrite wrap_id; [cbn; lia|]. unfold in_u. lia.
    + rewrite filter_cons_False, filter_nil by (rewrite Ed; simpl; tauto). cbn. lia.
  - cbn [fmap list_fmap]. by rewrite min_snoc, H3.
  - fold (is_dup v). rewrite H4. destruct (is_dup v) eqn:Ed.
    + rewrite filter_cons_True, filter_nil by (by rewrite Ed). cbn [fmap list_fmap andb]. by rewrite min_snoc.
    + rewrite filter_cons_False, filter_nil by (rewrite Ed; simpl; tauto). by rewrite app_nil_r.
  - cbn [fmap list_fmap]. by rewrite max_snoc, H5.
Qed.

Section spec.
Context `{Alloc}.
Context (r : sr).

Record page_state (T : Z) (b : sdbuild) (M0 V0 K0 : bytes) (vs : list sv) (used : Z) (h : sdpageheader) (ds : list sdv) (body keys : bytes) : Prop := {
  ps_building : building T b M0 V0 K0 h ds body keys;
  ps_entries : page_entries r body keys ds vs;
  ps_sdvs : Forall sdv_ok ds;
  ps_summary : summary h vs;
  ps_tracker : bd_compress_dup b = true → tracker_ok K0 keys (bd_tracker b);
  ps_body : blen body <= used;
  ps_keys : blen keys <= used;
  ps_vmax : is_u32 (bd_vmax b)
}.

(** * Adding a version *)

Lemma entries_length body keys ds vs : page_entries r body keys ds vs → length ds = length vs.
Proof. unfold page_entries. destruct (r_fmt_storage r); intros HF; by eapply Forall2_length. Qed.
Lemma building_d T b M0 V0 K0 h ds body keys m d : building T b M0 V0 K0 h ds body keys → buf_cap T m →
  content m = content (bd_m b) ++ sdv_enc d → building T (with_m m b) M0 V0 K0 h (ds ++ [d]) body keys.
Proof.
  intros [Href _ Hm Hvc Hv Hkc Hk Hh] Hcap Hc. split; try done. cbn [bd_m with_m]. rewrite Hc, Hm, fmap_app, concat_app, <- !app_assoc.
  cbn [fmap list_fmap concat]. by rewrite app_nil_r.
Qed.
Definition new_sdv (body : bytes) (v : sv) (f : Z) : sdv := mk_sdv (blen body) (u8 (Z.lor (sv_flags v) f)).
(** What storing a version in the format of the runtime leaves. *)
Definition stored (T : Z) (b : sdbuild) (V0 K0 : bytes) (body keys : bytes) (v : sv) (f : Z) (b' : sdbuild) (more new : bytes) : Prop :=
  stores b b' ∧ buf_cap T (bd_v b') ∧ content (bd_v b') = V0 ++ body ++ more ∧ buf_cap T (bd_k b') ∧ content (bd_k b') = K0 ++ keys ++ new ∧
  (bd_compress_dup b = true → tracker_ok K0 (keys ++ new) (bd_tracker b')) ∧ blen more <= cost r v ∧ blen new <= cost r v ∧
  page_entries r (body ++ more) (keys ++ new) [new_sdv body v f] [flagged_sv v f].
Lemma store_ok T b M0 V0 K0 h ds body keys v f : 4 * T <= INT_MAX → building T b M0 V0 K0 h ds body keys → node_memory b →
  (bd_compress_dup b = true → tracker_ok K0 keys (bd_tracker b)) → storable r v →
  blen V0 + blen body + cost r v <= T → blen K0 + blen keys + cost r v <= T →
  wp (store_version r v) b (λ rc b', (rc = -1 ∧ refused) ∨ (rc = 0 ∧ ∃ more new, stored T b V0 K0 body keys v f b' more new)).
Proof.
  intros HT Hb Hmem Htr Hst HlV HlK. pose proof (bg_v _ _ _ _ _ _ _ _ _ Hb) as Hcv. pose proof (bg_k _ _ _ _ _ _ _ _ _ Hb) as Hck.
  assert (blen (content (bd_v b)) = blen V0 + blen body) as Elv by (by rewrite Hcv, blen_app).
  assert (∀ rec, mem_at (body ++ rec) (Z.to_nat (d_offset (new_sdv body v f))) rec) as Hat.
  { intros rec. exists body, []. rewrite app_nil_r. split; [done|]. cbn. unfold blen. lia. }
  unfold store_version, storable, stored, page_entries, cost in *. destruct (r_fmt_storage r).
  - destruct Hst as (-> & Hne & ks & value & Hv & Hcount). rewrite <- Hcount in *.
    eapply wp_mono; [apply (add_keyvalue_ok T b v ks value K0 keys); [done|done|by destruct ks| |done|lia|lia]|].
    + destruct Hb as [(ref & E1 & _ & _ & E2) _ _ Hvc _ Hkc _ _]. split; try done. by exists ref.
    + intros rc b' [[-> Hno]|(-> & offs & new & Hs & Hst' & Hn & Hc & HF & Hlo)]; [by left|]. right. split; [done|].
      exists (kv_rec (blen (concat ks) + blen value) (sv_lsn v) offs value), new.
      assert (blen (kv_rec (blen (concat ks) + blen value) (sv_lsn v) offs value) <= 20 + 10 * Z.of_nat (length ks) + sv_size v) as Hrl.
      { unfold kv_rec. rewrite !blen_app, (kv_sizes v ks value Hv). pose proof (lebs_le offs). pose proof (blen_leb (blen (concat ks) + blen value)).
        pose proof (blen_leb (sv_lsn v)). assert (blen (concat (leb <$> offs)) <= 10 * Z.of_nat (length ks)) by (unfold blen; lia).
        pose proof (blen_pos (concat ks)). lia. }
      split_and!; [done|apply Hst'|rewrite Hc, Hcv; by rewrite <- app_assoc|apply Hst'|rewrite (kv_kc _ _ _ _ Hst'); done| |done|lia|].
      { destruct Hs as (? & ? & ? & ->). apply Hst'. }
      constructor; [|constructor]. exists ks, value, offs. split_and!; [|done|done|apply Hat|done]. destruct Hv. by split.
  - eapply wp_mono; [apply (add_raw_ok T); [done|apply Hb|done|lia]|].
    intros rc b' [[-> Hno]|(-> & v' & -> & Hcap & Hc)]; [by left|]. right. split; [done|]. exists (raw_rec v), []. rewrite !app_nil_r.
    split_and!; [| |rewrite Hcv in Hc; cbn; by rewrite Hc, <- app_assoc|apply Hb|done|done| |unfold blen, sv_size; cbn [length]; lia|].
    + exists v', (bd_k b), (bd_tracker b). by destruct b.
    + done.
    + unfold raw_rec. rewrite !blen_app. pose proof (blen_leb (sv_size v)). pose proof (blen_leb (sv_lsn v)). unfold sv_size, blen in *. lia.
    + constructor; [|constructor]. by split_and!.
Qed.

Lemma stored_building T b b' M0 V0 K0 h ds body keys v f more new : building T b M0 V0 K0 h ds body keys →
  stored T b V0 K0 body keys v f b' more new → building T b' M0 V0 K0 h ds (body ++ more) (keys ++ new) ∧ config b' = config b.
Proof.
  intros [Href Hmc Hm _ _ _ _ Hh] ((v' & k' & t' & ->) & Hvc & Hv & Hkc & Hk & _). split; [|done]. by split.
Qed.
(** Memory for the version's reference and the reference. *)
Lemma add_sdv_ok T b M0 V0 K0 h ds body keys v f : 4 * T <= INT_MAX → building T b M0 V0 K0 h ds body keys →
  blen (content (bd_m b)) + 5 <= T → blen body < 4294967296 →
  wp (add_sdv v f) b (λ res b', (res = None ∧ refused) ∨ (res = Some (new_sdv body v f) ∧
    ∃ m, b' = with_m m b ∧ building T b' M0 V0 K0 h (ds ++ [new_sdv body v f]) body keys)).
Proof.
  intros HT Hb Hlen Hbody. unfold add_sdv. apply wp_bind, wp_lift.
  eapply wp_mono; [apply (ensure_cap T); [done|apply Hb|done|rewrite (used_blen T) by apply Hb; done]|].
  intros rc m1 [(-> & _ & Hn)|(-> & Hcap1 & Hc1 & Hroom)]; [by left|]. cbn [Z.eqb]. rewrite Nat2Z.id in Hroom.
  destruct (bg_ref _ _ _ _ _ _ _ _ _ Hb) as (ref & Eref & _ & Hfv & _).
  apply wp_bind. unfold sd_buildref, cread at 1, wp at 1. cbn [bd_list bd_n with_m]. rewrite Eref.
  apply wp_bind. unfold cget at 1, wp at 1. cbv zeta. cbn [bd_v with_m].
  rewrite (used_blen T), (bg_v _ _ _ _ _ _ _ _ _ Hb), blen_app, Hfv by apply Hb.
  replace (blen V0 + blen body - blen V0) with (blen body) by lia. rewrite wrap_id by (unfold in_u; pose proof (blen_pos body); lia).
  apply wp_bind, wp_lift. eapply wp_mono; [apply (copy_advance_ok T); [done|by rewrite sdv_length]|].
  intros [] m2 (Hcap2 & Hc2 & _). apply wp_ret. right. split; [done|]. exists m2. split; [done|].
  apply (building_d T b); [done|done|]. by rewrite Hc2, <- Hc1.
Qed.
Lemma config_dup b b' : config b = config b' → bd_compress_dup b = bd_compress_dup b'.
Proof. unfold config. by intros [=]. Qed.
Lemma storable_lsn v : storable r v → is_u64 (sv_lsn v).
Proof. unfold storable. destruct (r_fmt_storage r); [intros (_ & _ & ks & value & [] & _); done|by intros []]. Qed.
Lemma new_sdv_ok body v f : blen body < 4294967296 → sdv_ok (new_sdv body v f).
Proof. intros Hl. split; cbn; [unfold in_u; pose proof (blen_pos body); lia|]. by apply wrap_in_u. Qed.

Lemma buildadd_ok T b M0 V0 K0 vs used h ds body keys v f : 4 * T <= INT_MAX → page_state T b M0 V0 K0 vs used h ds body keys → node_memory b →
  storable r v → blen V0 + used + cost r v <= T → blen K0 + used + cost r v <= T →
  blen M0 + Z.of_nat sizeof_sdpageheader + Z.of_nat sizeof_sdv * (Z.of_nat (length vs) + 1) <= T →
  wp (sd_buildadd r v f) b (λ rc b', (rc = -1 ∧ refused) ∨ (rc = 0 ∧ config b' = config b ∧ ∃ h ds body keys,
    page_state T b' M0 V0 K0 (vs ++ [flagged_sv v f]) (used + cost r v) h ds body keys)).
Proof.
  intros HT [Hb He Hds Hsum Htr Hlb Hlk Hvm] Hmem Hst HlV HlK HlM. pose proof (entries_length _ _ _ _ He) as Elen.
  pose proof (blen_pos V0). pose proof (blen_pos K0). pose proof (blen_pos M0). assert (0 <= cost r v) by (unfold cost, sv_size; lia).
  pose proof HT as HT'. unfold INT_MAX in HT'. unfold sizeof_sdv, sizeof_sdpageheader in HlM. unfold sd_buildadd. apply wp_bind. eapply wp_mono; [apply (add_sdv_ok T b M0 V0 K0 h ds body keys v f HT Hb)|].
  { rewrite (bg_m _ _ _ _ _ _ _ _ _ Hb), !blen_app. unfold blen at 2 3. rewrite header_length, sdvs_length. unfold sizeof_sdv, sizeof_sdpageheader in *. lia. }
  { lia. }
  intros res b1 [[-> Hno]|(-> & m & -> & Hb1)]; [by left|].
  apply wp_bind. eapply wp_mono; [apply (store_ok T (with_m m b) M0 V0 K0 h (ds ++ [new_sdv body v f]) body keys v f); (done || lia)|].
  intros rc b2 [[-> Hno]|(-> & more & new & Hs)]; [by left|]. cbn [Z.eqb]. destruct (stored_building _ _ _ _ _ _ _ _ _ _ _ _ _ _ Hb1 Hs) as [Hb2 Hcfg].
  apply wp_bind. unfold wp at 1. rewrite (buildheader_run _ _ _ _ _ _ _ _ _ Hb2). cbv zeta.
  set (size := u32 _). apply wp_bind. unfold bmodify at 1, wp at 1. set (b3 := if Z.gtb _ _ then _ else _).
  assert (building T b3 M0 V0 K0 h (ds ++ [new_sdv body v f]) (body ++ more) (keys ++ new) ∧ config b3 = config b2 ∧ bd_tracker b3 = bd_tracker b2) as (Hb3 & Hcfg3 & Et).
  { subst b3. destruct (Z.gtb _ _); [|done]. split; [|done]. destruct Hb2. by split. }
  assert (summary (header_add (sv_flags (flagged_sv v f)) (sv_lsn v) h) (vs ++ [flagged_sv v f])) as Hsum' by (apply (summary_add h vs (flagged_sv v f)); [done|lia]).
  destruct (set_header_run _ _ _ _ _ _ _ _ _ (header_add (sv_flags (flagged_sv v f)) (sv_lsn v) h) Hb3) as (m' & E & Hb4).
  { apply header_add_ok; [apply Hb|]. by apply (storable_lsn v). }
  apply wp_bind. unfold wp at 1. change (d_flags (new_sdv body v f)) with (sv_flags (flagged_sv v f)). rewrite E.
  apply wp_ret. right. split; [done|]. split. { transitivity (config b3); [done|]. by rewrite Hcfg3, Hcfg. }
  destruct Hs as (Hstores & _ & _ & _ & _ & Htr' & Hlm & Hln & He').
  eexists _, _, _, _. split; [exact Hb4| | |exact Hsum'| |rewrite blen_app; lia|rewrite blen_app; lia|].
  - pose proof (entries_more r body keys more new ds vs He) as He''. clear -He'' He'. unfold page_entries in *.
    destruct (r_fmt_storage r); by apply Forall2_app.
  - apply Forall_app. split; [done|]. constructor; [|done]. apply new_sdv_ok. lia.
  - cbn [bd_compress_dup bd_tracker with_m]. rewrite Et. intros Hd. apply Htr'. rewrite <- (config_dup _ _ Hcfg), <- (config_dup _ _ Hcfg3). exact Hd.
  - cbn [bd_vmax with_m]. subst b3. destruct Hstores as (v2 & k2 & t2 & ->). destruct (Z.gtb _ _); [by apply wrap_in_u|exact Hvm].
Qed.

(** * The first step *)

(** The builder between two pages; [dup]: whether duplicate keys are looked for. *)
Record ready (dup : bool) (T : Z) (b : sdbuild) (M0 V0 K0 : bytes) : Prop := {
  rd_mcap : buf_cap T (bd_m b);
  rd_m : content (bd_m b) = M0;
  rd_vcap : buf_cap T (bd_v b);
  rd_v : content (bd_v b) = V0;
  rd_kcap : buf_cap T (bd_k b);
  rd_k : content (bd_k b) = K0;
  rd_n : (bd_n b <= length (bd_list b))%nat;
  rd_vmax : is_u32 (bd_vmax b);
  rd_tracker : dup = true → t_size (bd_tracker b) = 0%nat ∨ ((4 <= t_size (bd_tracker b))%nat ∧
    bd_tracker b = mk_ht (replicate (t_size (bd_tracker b)) None) 0 (t_size (bd_tracker b)))
}.
Lemma fresh_tracker K0 n : (4 <= n)%nat → tracker_ok K0 [] (mk_ht (replicate n None) 0 n).
Proof.
  intros Hn. split; rewrite ?nodes_init; cbn [t_size t_count length]; try lia.
  - split; cbn; [apply length_replicate|lia].
  - by intros x ?%not_elem_of_nil.
Qed.
Definition empty_header : sdpageheader := mk_pageheader 0 0 0 0 0 0 0 UINT64_MAX UINT64_MAX 0.
Lemma empty_header_ok : header_ok empty_header ∧ summary empty_header [].
Proof. split; [|done]. unfold header_ok, in_u, UINT64_MAX. cbn. unfold UINT64_MAX. lia. Qed.

(** The header behind what the buffer holds. *)
Lemma begin_header_ok T b M0 ref : buf_cap T (bd_m b) → content (bd_m b) = M0 → fresh_room (bd_m b) sizeof_sdpageheader →
  bd_list b !! bd_n b = Some ref → f_m ref = blen M0 → ∀ h,
  wp (set_header h;;; on_m (ss_bufadvance sizeof_sdpageheader);;; cret 0) b (λ rc b', rc = 0 ∧
    ∃ m, b' = with_m m b ∧ buf_cap T m ∧ content m = M0 ++ header_enc h).
Proof.
  intros Hcap Hm Hroom Eref Hfm h. pose proof (copy_advance_ok T (bd_m b) (header_enc h) Hcap) as W. rewrite header_length in W. specialize (W Hroom).
  unfold wp, copy_advance, cbind, cget in W. unfold wp, set_header, cbind, sd_buildref, cread. rewrite Eref, Hfm.
  assert (Z.to_nat (blen M0) = b_p (bd_m b)) as ->. { unfold blen. rewrite Nat2Z.id, <- Hm. apply content_length, Hcap. }
  unfold on_m, lift. destruct (buf_copy (b_p (bd_m b)) (header_enc h) (bd_m b)) as [[[] m1]|]; [|done]. cbn [bd_m with_m].
  rewrite header_length in W. destruct (ss_bufadvance sizeof_sdpageheader m1) as [[[] m2]|]; [|done]. destruct W as (Hcap2 & Hc2 & _).
  unfold cret. split; [done|]. exists m2. split_and!; [done|done|]. by rewrite Hc2, Hm.
Qed.
Lemma buildbegin_ok T b M0 V0 K0 g crc dup : 4 * T <= INT_MAX → ready dup T b M0 V0 K0 → blen M0 + Z.of_nat sizeof_sdpageheader <= T →
  wp (sd_buildbegin g crc false dup) b (λ rc b', (rc = -1 ∧ (refused ∨ g = false)) ∨ (rc = 0 ∧
    bd_compress_dup b' = dup ∧ bd_compress b' = false ∧ bd_crc b' = crc ∧ bd_n b' = bd_n b ∧ length (bd_list b') = S (bd_n b) ∧
    take (bd_n b) (bd_list b') = take (bd_n b) (bd_list b) ∧ bd_vmax b' = bd_vmax b ∧ bd_c b' = bd_c b ∧ page_state T b' M0 V0 K0 [] 0 empty_header [] [] [])).
Proof.
  intros HT [Hmc Hm Hvc Hv Hkc Hk Hn Hvm Ht] Hlen. unfold sd_buildbegin. apply wp_bind. unfold bmodify at 1, wp at 1.
  apply wp_bind. unfold cget at 1, wp at 1. set (b1 := with_flags dup false crc b).
  set (init := if dup && _ then _ else _). assert (wp init b1 (λ rc b2, (rc = -1 ∧ refused) ∨ (rc = 0 ∧
    ∃ t, b2 = with_tracker t b1 ∧ (dup = true → tracker_ok K0 [] t)))) as W.
  { subst init. destruct dup; cbn [andb]; [|apply wp_ret; right; split; [done|]; exists (bd_tracker b); by destruct b].
    cbn [bd_tracker b1 with_flags]. case_bool_decide as Hz.
    - unfold ss_htinit. destruct (ss_malloc _) eqn:Em; apply wp_bind; unfold bmodify, wp at 1; apply wp_ret; [|left; split; [done|by eexists]].
      right. split; [done|]. eexists. split; [done|]. intros _. apply fresh_tracker, Nat.leb_le. vm_compute. reflexivity.
    - destruct (Ht eq_refl) as [|[Hsz E]]; [done|]. apply wp_ret. right. split; [done|]. exists (bd_tracker b). split; [by destruct b|].
      intros _. rewrite E. by apply fresh_tracker. }
  apply wp_bind. eapply wp_mono; [exact W|]. intros rc b2 [[-> Hno]|(-> & t & -> & Ht1)]; [apply wp_ret; auto|]. cbn [Z.eqb].
  destruct g; cbn [negb]; [|apply wp_ret; auto]. apply wp_bind. unfold cget at 1, wp at 1. cbv zeta.
  cbn [bd_m bd_v bd_k bd_c b1 with_tracker with_flags]. set (ref := mk_ref _ _ _ _ _ _ _ _).
  apply wp_bind, wp_lift. eapply wp_mono; [apply (ensure_cap T); [done|done|lia|cbn; rewrite (used_blen T), Hm by done; done]|].
  intros rc m1 [(-> & _ & Hno)|(-> & Hcap1 & Hc1 & Hroom)]; [apply wp_ret; left; split; [done|by left]|]. cbn [Z.eqb].
  apply wp_bind. unfold bmodify at 1, wp at 1. cbn [bd_n bd_list b1 with_tracker with_flags with_m]. rewrite Nat2Z.id in Hroom. cbn in Hc1.
  set (b3 := with_list _ _).
  assert (bd_list b3 !! bd_n b3 = Some ref) as Eref. { cbn. rewrite lookup_app_r; rewrite length_take; [|lia]. by replace (_ - _)%nat with 0%nat by lia. }
  change (mk_pageheader 0 0 0 0 0 0 0 UINT64_MAX UINT64_MAX 0) with empty_header.
  eapply wp_mono; [apply (begin_header_ok T b3 M0 ref); [done|by cbn; rewrite Hc1|done|done|]|].
  { cbn. by rewrite (used_blen T), Hm. }
  intros rc b4 (-> & m & -> & Hcap4 & Hc4). right. split; [done|]. cbn. split_and!; try done.
  - rewrite length_app, length_take. cbn. lia.
  - rewrite take_app_le, take_take by (rewrite length_take; lia). by rewrite Nat.min_id.
  - destruct empty_header_ok as [Hh Hs]. split; [|unfold page_entries; by destruct (r_fmt_storage r)|done|done|done|done|done|done].
    split; cbn; rewrite ?app_nil_r; try done. exists ref. split; [done|]. cbn. by rewrite !(used_blen T), Hm, Hv, Hk.
Qed.

(** * All versions *)

(** The versions with the flags they are added with, up to the first error. *)
Fixpoint add_all (l : list (sv * Z)) : cmd sdbuild Z :=
  match l with
  | [] => cret 0
  | (v, f) :: l =>
      let! rc := sd_buildadd r v f in
      if Z.eqb rc (-1) then cret (-1) else add_all l
  end.
Definition stored_svs (l : list (sv * Z)) : list sv := (λ p, flagged_sv p.1 p.2) <$> l.
Definition costs (l : list (sv * Z)) : Z := foldr (λ p n, cost r p.1 + n) 0 l.
Lemma costs_pos l : 0 <= costs l.
Proof. unfold costs. induction l as [|[v f] l IH]; cbn [foldr fst]; [done|]. assert (0 <= cost r v) by (unfold cost, sv_size; lia). lia. Qed.
Lemma add_all_ok T M0 V0 K0 l : 4 * T <= INT_MAX → ∀ b vs used h ds body keys, page_state T b M0 V0 K0 vs used h ds body keys → node_memory b →
  Forall (λ p, storable r p.1) l → blen V0 + used + costs l <= T → blen K0 + used + costs l <= T →
  blen M0 + Z.of_nat sizeof_sdpageheader + Z.of_nat sizeof_sdv * (Z.of_nat (length vs) + Z.of_nat (length l)) <= T →
  wp (add_all l) b (λ rc b', (rc = -1 ∧ refused) ∨ (rc = 0 ∧ config b' = config b ∧ ∃ h ds body keys,
    page_state T b' M0 V0 K0 (vs ++ stored_svs l) (used + costs l) h ds body keys)).
Proof.
  intros HT. induction l as [|[v f] l IH]; intros b vs used h ds body keys Hp Hmem Hst HlV HlK HlM.
  { apply wp_ret. right. split; [done|]. split; [done|]. cbn. rewrite app_nil_r, Z.add_0_r. by exists h, ds, body, keys. }
  apply Forall_cons in Hst as [Hv Hst]. pose proof (costs_pos l) as Hcp. change (costs ((v, f) :: l)) with (cost r v + costs l) in *. cbn [length] in HlM.
  cbn [add_all]. apply wp_bind. eapply wp_mono; [eapply buildadd_ok; [done|exact Hp|done|done|lia|lia|unfold sizeof_sdv in *; lia]|].
  intros rc b1 [[-> Hno]|(-> & Hcfg & h1 & ds1 & body1 & keys1 & Hp1)]; [apply wp_ret; by left|]. cbn [Z.eqb].
  eapply wp_mono; [eapply IH; [exact Hp1| |done|lia|lia|]|].
  - unfold node_memory. by rewrite (config_dup _ _ Hcfg).
  - rewrite length_app. unfold sizeof_sdv in *. cbn [length]. lia.
  - intros rc b2 [[-> Hno]|(-> & Hcfg2 & h2 & ds2 & body2 & keys2 & Hp2)]; [by left|]. right. split; [done|]. split; [congruence|].
    exists h2, ds2, body2, keys2. rewrite <- app_assoc, <- Z.add_assoc in Hp2. exact Hp2.
Qed.

(** * The last step *)

Context (crcf : Z → bytes → Z) {F : Type} (compression : ssfilterif F).
(** The page behind [M0], [V0] and [K0] in the buffers. *)
Record built (b : sdbuild) (n : nat) (M0 V0 K0 : bytes) (vs : list sv) (h : sdpageheader) (ds : list sdv) (body keys : bytes) : Prop := {
  bt_m : content (bd_m b) = M0 ++ header_enc h ++ concat (sdv_enc <$> ds);
  bt_v : content (bd_v b) = V0 ++ body;
  bt_k : content (bd_k b) = K0 ++ keys;
  bt_page : page_rep (header_enc h ++ concat (sdv_enc <$> ds) ++ body ++ keys) h ds (body ++ keys);
  bt_entries : page_entries r body keys ds vs;
  bt_summary : summary h vs;
  bt_sizekeys : h_sizekeys h = blen keys;
  bt_size : h_size h = h_sizeorigin h;
  bt_crc : h_crc h = ss_crcs crcf (header_enc h) 0;
  bt_ref : ∃ ref, bd_list b !! n = Some ref ∧ f_m ref = blen M0 ∧ f_msize ref = blen (header_enc h ++ concat (sdv_enc <$> ds)) ∧
    f_v ref = blen V0 ∧ f_vsize ref = blen body ∧ f_k ref = blen K0 ∧ f_ksize ref = blen keys
}.
Lemma set_ref_run T b M0 V0 K0 h ds body keys ref : building T b M0 V0 K0 h ds body keys → f_m ref = blen M0 → f_v ref = blen V0 → f_k ref = blen K0 →
  let b' := with_list (<[bd_n b := ref]> (bd_list b)) b in
  set_ref ref b = Some ((), b') ∧ building T b' M0 V0 K0 h ds body keys ∧ bd_list b' !! bd_n b = Some ref ∧ length (bd_list b') = length (bd_list b).
Proof.
  intros [(old & E & _) Hmc Hm Hvc Hv Hkc Hk Hh] H1 H2 H3 b'. split; [done|]. cbn.
  assert (<[bd_n b := ref]> (bd_list b) !! bd_n b = Some ref) as El by (apply list_lookup_insert_eq; by eapply lookup_lt_Some).
  split_and!; [|done|apply length_insert]. split; try done. by exists ref.
Qed.
(** A part of a buffer is read back. *)
Lemma part_read T b A B : buf_cap T b → content b = A ++ B → mem_read (Z.to_nat (blen A)) (Z.to_nat (blen B)) (b_mem b) = Some B.
Proof.
  intros Hcap Hc. unfold blen. rewrite !Nat2Z.id. apply mem_at_read. apply (content_at T b A B []); [done|]. by rewrite app_nil_r.
Qed.

(** The sizes and the checksum. *)
Lemma end_sizes_ok T b M0 V0 K0 h ds body keys : building T b M0 V0 K0 h ds body keys →
  let mp := header_enc h ++ concat (sdv_enc <$> ds) in
  is_u32 (blen mp) → is_u32 (blen body) → is_u32 (blen keys) → ∃ c b',
  let ref := mk_ref (blen M0) (blen mp) (blen V0) (blen body) (blen K0) (blen keys) c 0 in
  end_sizes b = Some (ref, b') ∧ building T b' M0 V0 K0 h ds body keys ∧ (∃ l, b' = with_list l b ∧ length l = length (bd_list b) ∧ take (bd_n b) l = take (bd_n b) (bd_list b)).
Proof.
  intros Hb mp H1 H2 H3. destruct (buildref_run _ _ _ _ _ _ _ _ _ Hb) as (ref & Eref & Hfm & Hfv & Hfk). eexists (f_c ref), _. cbv zeta.
  unfold end_sizes, cbind at 1. rewrite Eref. unfold cbind at 1, cget at 1. rewrite !(used_blen T) by apply Hb.
  rewrite (bg_m _ _ _ _ _ _ _ _ _ Hb), (bg_v _ _ _ _ _ _ _ _ _ Hb), (bg_k _ _ _ _ _ _ _ _ _ Hb). fold mp. rewrite !(blen_app M0), !(blen_app V0), !(blen_app K0), Hfm, Hfv, Hfk.
  replace (blen M0 + blen mp - blen M0) with (blen mp) by lia. replace (blen V0 + blen body - blen V0) with (blen body) by lia.
  replace (blen K0 + blen keys - blen K0) with (blen keys) by lia. rewrite !wrap_id by done.
  set (r1 := mk_ref _ _ _ _ _ _ _ _). destruct (set_ref_run _ _ _ _ _ _ _ _ _ r1 Hb) as (E1 & Hb1 & _ & Hn1); [done..|]. unfold cbind at 1. rewrite E1.
  split_and!; [done|exact Hb1|]. eexists. split_and!; [done|done|]. by apply take_insert_ge.
Qed.
Lemma end_crcdata_ok T b M0 V0 K0 h ds body keys c : (∀ c p, is_u32 (crcf c p)) → building T b M0 V0 K0 h ds body keys →
  ∃ crc, end_crcdata crcf (mk_ref (blen M0) (blen (header_enc h ++ concat (sdv_enc <$> ds))) (blen V0) (blen body) (blen K0) (blen keys) c 0) b =
    Some (crc, b) ∧ is_u32 crc.
Proof.
  intros Hcrc Hb. unfold end_crcdata, cbind at 1, cget. destruct (bd_crc b); [|by exists 0]. cbn [f_m f_msize f_v f_vsize f_k f_ksize].
  unfold cbind, cread. rewrite (part_read T _ M0) by apply Hb. rewrite (part_read T _ V0 body) by apply Hb. rewrite (part_read T _ K0 keys) by apply Hb.
  eexists. split; [done|]. apply Hcrc.
Qed.
Lemma buildend_ok T b M0 V0 K0 vs used h ds body keys : 4 * T <= INT_MAX → (∀ c p, is_u32 (crcf c p)) →
  page_state T b M0 V0 K0 vs used h ds body keys → bd_compress b = false →
  blen M0 + Z.of_nat sizeof_sdpageheader + Z.of_nat sizeof_sdv * Z.of_nat (length vs) <= T → blen V0 + used <= T → blen K0 + used <= T →
  ∃ b' h', sd_buildend crcf compression b = Some (0, b') ∧ built b' (bd_n b) M0 V0 K0 vs h' ds body keys ∧ building T b' M0 V0 K0 h' ds body keys ∧
    ∃ l m, b' = with_m m (with_list l b) ∧ length l = length (bd_list b) ∧ take (bd_n b) l = take (bd_n b) (bd_list b).
Proof.
  intros HT Hcrc [Hb He Hds Hsum Htr Hlb Hlk Hvm] Hnc HlM HlV HlK. pose proof HT as HT'. unfold INT_MAX in HT'.
  pose proof (entries_length _ _ _ _ He) as Elen. pose proof (blen_pos V0). pose proof (blen_pos K0). pose proof (blen_pos M0). pose proof (blen_pos body). pose proof (blen_pos keys).
  assert (blen (header_enc h ++ concat (sdv_enc <$> ds)) = 60 + 5 * Z.of_nat (length vs)) as Emp.
  { unfold blen. rewrite length_app, header_length, sdvs_length. unfold sizeof_sdpageheader, sizeof_sdv. lia. }
  unfold sizeof_sdpageheader, sizeof_sdv in HlM.
  destruct (end_sizes_ok _ _ _ _ _ _ _ _ _ Hb) as (c & b1 & E1 & Hb1 & l1 & -> & Hl1 & Ht1); [unfold in_u; lia..|].
  destruct (end_crcdata_ok _ _ _ _ _ _ _ _ _ c Hcrc Hb1) as (crc & E2 & Hcu). unfold sd_buildend, cbind at 1. rewrite E1. unfold cbind at 1. rewrite E2.
  unfold cbind at 1. rewrite (buildheader_run _ _ _ _ _ _ _ _ _ Hb1). cbv zeta.
  assert (header_ok (with_crcdata crc h)) as Hh1 by (destruct (bg_h _ _ _ _ _ _ _ _ _ Hb) as (? & ? & ? & ? & ? & ? & ? & ? & ? & ?); by split_and!).
  destruct (set_header_run _ _ _ _ _ _ _ _ _ _ Hb1 Hh1) as (m2 & E3 & Hb2). unfold cbind at 1. rewrite E3. set (b2 := with_m m2 _) in *.
  unfold cbind at 1, cget at 1. change (bd_compress b2) with (bd_compress b). rewrite Hnc. unfold cbind at 1, cret at 1. cbn [Z.eqb].
  unfold cbind at 1, cget at 1. change (bd_compress b2) with (bd_compress b). rewrite Hnc. set (r1 := mk_ref _ _ _ _ _ _ _ _).
  destruct (set_ref_run _ _ _ _ _ _ _ _ _ r1 Hb2) as (E4 & Hb3 & Hr3 & Hn3); [done..|]. unfold cbind at 1. rewrite E4. set (b3 := with_list _ b2) in *.
  set (total := i32 _). assert (u32 (total - Z.of_nat sizeof_sdpageheader) = 5 * Z.of_nat (length vs) + blen body + blen keys) as ->.
  { subst total. cbn [r1 f_msize f_vsize f_ksize]. unfold sizeof_sdpageheader. rewrite Emp, swrap_id by lia. rewrite wrap_id by (unfold in_u; lia). lia. }
  set (h2 := with_sizes _ _ _ _). set (h3 := with_crc _ h2).
  assert (header_ok h3) as Hh3. { destruct Hh1 as (? & ? & ? & ? & ? & ? & ? & ? & ? & ?). split_and!; try done; cbn; (apply Hcrc || (unfold in_u; lia)). }
  destruct (set_header_run _ _ _ _ _ _ _ _ _ h3 Hb3 Hh3) as (m4 & E5 & Hb4). unfold cbind at 1. rewrite E5. eexists _, h3. split; [done|].
  split_and!; [|done|eexists _, _; split; [done|]; split; [etransitivity; [exact Hn3|done]|rewrite <- Ht1; by apply take_insert_ge]].
  split; try (by apply Hb4); try done.
  - split; [done|done|by rewrite Elen, <- (sm_count _ _ Hsum)| |done]. cbn. rewrite Elen, length_app. unfold blen, sizeof_sdv. lia.
  - by destruct Hsum.
  - exists r1. by split_and!.
Qed.

(** * The page *)

Lemma no_nodes (l : list (option sdbuildkey)) : omap id l = [] → l = replicate (length l) None.
Proof. induction l as [|[n|] l IH]; intros E; csimpl in *; [done|done|]. by rewrite <- IH. Qed.
(** After the last step the builder is ready for the next page. *)
Lemma buildcommit_ok T b M0 V0 K0 h ds body keys : building T b M0 V0 K0 h ds body keys → bd_compress b = false → (bd_n b < length (bd_list b))%nat →
  (bd_compress_dup b = true → tracker_ok K0 keys (bd_tracker b)) → is_u32 (bd_vmax b) → ∃ b', sd_buildcommit b = Some (0, b') ∧ bd_n b' = S (bd_n b) ∧ bd_list b' = bd_list b ∧
  bd_m b' = bd_m b ∧ bd_v b' = bd_v b ∧ bd_k b' = bd_k b ∧ bd_vmax b' = bd_vmax b ∧ bd_c b' = bd_c b ∧
  ready (bd_compress_dup b) T b' (M0 ++ header_enc h ++ concat (sdv_enc <$> ds)) (V0 ++ body) (K0 ++ keys).
Proof.
  intros Hb Hnc Hn Htr Hvm. set (b1 := if bd_compress_dup b then sd_buildfree_tracker b else b).
  assert (sd_buildcommit b = Some (0, with_n (S (bd_n b1)) b1)) as ->.
  { subst b1. unfold sd_buildcommit, cbind, cget, bmodify, cret. rewrite Hnc. by destruct (bd_compress_dup b). }
  assert (bd_n b1 = bd_n b ∧ bd_list b1 = bd_list b ∧ bd_m b1 = bd_m b ∧ bd_v b1 = bd_v b ∧ bd_k b1 = bd_k b ∧ bd_vmax b1 = bd_vmax b ∧ bd_c b1 = bd_c b) as (E1 & E2 & E3 & E4 & E5 & E6 & E7).
  { subst b1. unfold sd_buildfree_tracker. destruct (bd_compress_dup b); [|done]. by destruct (Z.eqb _ _). }
  eexists. split; [done|]. cbn. rewrite E1, E2, E3, E4, E5, E6, E7. split_and!; [done..|]. destruct Hb as [_ Hmc Hm Hvc Hv Hkc Hk _].
  split; cbn; rewrite ?E1, ?E2, ?E3, ?E4, ?E5, ?E6; try done. intros Ed. right. subst b1. rewrite Ed.
  destruct (Htr Ed) as [[Hl Hp] Hs Hc _ _ _]. unfold sd_buildfree_tracker. destruct (Z.eqb_spec (t_count (bd_tracker b)) 0) as [Ez|Ez].
  - split; [done|]. rewrite Hc in Ez. assert (omap id (t_i (bd_tracker b)) = []) as Eo by (apply length_zero_iff_nil; unfold nodes_of in Ez; lia).
    destruct (bd_tracker b) as [ti tc ts]. cbn in *. rewrite (no_nodes ti Eo), Hl. f_equal. lia.
  - cbn. split; [done|]. f_equal. rewrite <- Hl. clear. induction (t_i (bd_tracker b)) as [|x l IH]; [done|]. cbn. by rewrite <- IH.
Qed.
Definition build_page (g crc dup : bool) (l : list (sv * Z)) : cmd sdbuild Z :=
  let! rc := sd_buildbegin g crc false dup in
  if Z.eqb rc (-1) then cret (-1) else
  let! rc := add_all l in
  if Z.eqb rc (-1) then cret (-1) else
  let! rc := sd_buildend crcf compression in
  if Z.eqb rc (-1) then cret (-1) else
  sd_buildcommit.
Lemma built_page b n M0 V0 K0 vs h ds body keys : built b n M0 V0 K0 vs h ds body keys →
  page_of r ((header_enc h ++ concat (sdv_enc <$> ds)) ++ body ++ keys) vs.
Proof.
  intros [_ _ _ Hp He _ Hk _ _ _]. unfold page_of, page_entries in *. rewrite <- app_assoc. destruct (r_fmt_storage r).
  - exists h, ds, body, keys. by split_and!.
  - exists h, ds, (body ++ keys). split; [done|]. eapply Forall2_impl; [exact He|]. intros d v (Hf & Hm & Hok). split_and!; [done|by apply mem_at_more|done].
Qed.

Lemma build_page_ok T b M0 V0 K0 g crc dup l :
  4 * T <= INT_MAX → (∀ c p, is_u32 (crcf c p)) → (dup = true → is_Some (ss_malloc 16)) →
  ready dup T b M0 V0 K0 → Forall (λ p, storable r p.1) l →
  blen M0 + Z.of_nat sizeof_sdpageheader + Z.of_nat sizeof_sdv * Z.of_nat (length l) <= T →
  blen V0 + costs l <= T → blen K0 + costs l <= T →
  ∃ rc b', build_page g crc dup l b = Some (rc, b') ∧
    ((rc = -1 ∧ (refused ∨ g = false)) ∨
     (rc = 0 ∧ bd_n b' = S (bd_n b) ∧ ∃ m v k h, ready dup T b' (M0 ++ m) (V0 ++ v) (K0 ++ k) ∧
       page_of r (m ++ v ++ k) (stored_svs l) ∧ page_h (m ++ v ++ k) = Some (h, m ++ v ++ k) ∧
       summary h (stored_svs l) ∧ h_crc h = ss_crcs crcf (header_enc h) 0)).
Proof.
  intros HT Hcrc Hmem Hrd Hst HlM HlV HlK. pose proof (costs_pos l) as Hcp. apply wp_run.
  unfold build_page. apply wp_bind. eapply wp_mono; [apply (buildbegin_ok T b M0 V0 K0); [done|done|unfold sizeof_sdv in *; lia]|].
  intros rc b1 [[-> Hno]|(-> & Ed & Ec & _ & En & El & _ & _ & _ & Hp)]; [by left|]. cbn [Z.eqb].
  apply wp_bind. eapply wp_mono; [apply (add_all_ok T M0 V0 K0 l HT b1 [] 0 _ _ _ _ Hp); [by unfold node_memory; rewrite Ed|done|lia|lia|cbn [length]; lia]|].
  intros rc b2 [[-> Hno]|(-> & Hcfg & h & ds & body & keys & Hp2)]; [left; auto|]. cbn [Z.eqb]. unfold config in Hcfg. injection Hcfg as El2 Ed2 Ec2 _ En2 _.
  destruct (buildend_ok T b2 M0 V0 K0 (stored_svs l) (costs l) h ds body keys) as (b3 & h3 & E3 & Hbt & Hb3 & ls & m & -> & Hls & _); try done; [congruence|by unfold stored_svs; rewrite length_fmap|].
  apply wp_bind. unfold wp at 1. rewrite E3. cbn [Z.eqb].
  destruct (buildcommit_ok _ _ _ _ _ _ _ _ _ Hb3) as (b4 & E4 & En4 & El4 & Em & Ev & Ek & _ & _ & Hrd4); [cbn; congruence|cbn; rewrite Hls, El2, El, En2, En; lia|apply Hp2|apply Hp2|].
  unfold wp. rewrite E4. right. split; [done|]. cbn in En4, Hrd4. rewrite Ed2, Ed in Hrd4. split; [congruence|].
  exists (header_enc h3 ++ concat (sdv_enc <$> ds)), body, keys, h3. split_and!; [done|by eapply built_page| |apply Hbt|apply Hbt].
  rewrite <- app_assoc. eapply page_h_run, (bt_page _ _ _ _ _ _ _ _ _ _ Hbt).
Qed.
End spec.

(** * Correctness *)


(** C18: what is built is what is read.  Versions in order (keys sorted, the versions of a key
    newest first, the older ones flagged as duplicates) are built into a page; an iterator on
    that page, opened at any key or end and in any direction, yields exactly the versions on
    that side, for both storage formats. *)
Theorem sd_build_then_read `{Alloc} r crcf {F} (compression : ssfilterif F) T b M0 V0 K0 g crc dup l vss xf :
  4 * T <= INT_MAX → (∀ c p, is_u32 (crcf c p)) → (dup = true → is_Some (ss_malloc 16)) →
  ready dup T b M0 V0 K0 → Forall (λ p, storable r p.1) l →
  blen M0 + Z.of_nat sizeof_sdpageheader + Z.of_nat sizeof_sdv * Z.of_nat (length l) <= T →
  blen V0 + costs r l <= T → blen K0 + costs r l <= T →
  stored_svs l = concat vss → content_ok (scheme_cmp (r_scheme r)) vss → readable r xf (concat vss) →
  ∃ rc b', build_page r crcf compression g crc dup l b = Some (rc, b') ∧
    ((rc = -1 ∧ (refused ∨ g = false)) ∨
     (rc = 0 ∧ ∃ m v k, content (bd_m b') = M0 ++ m ∧ content (bd_v b') = V0 ++ v ∧ content (bd_k b') = K0 ++ k ∧
       iterates r (m ++ v ++ k) xf vss)).
Proof.
  intros HT Hcrc Hmem Hrd Hst HlM HlV HlK Hvs Hc Hr.
  destruct (build_page_ok r crcf compression T b M0 V0 K0 g crc dup l HT Hcrc Hmem Hrd Hst HlM HlV HlK) as (rc & b' & E & HE).
  exists rc, b'. split; [done|]. destruct HE as [HE|(-> & _ & m & v & k & h & [] & Hp & _)]; [by left|]. right. split; [done|].
  exists m, v, k. rewrite Hvs in Hp. split_and!; [done..|]. by apply page_iterates.
Qed.

(** ** Witnesses: the three versions of two keys *)
Definition demo_l : list (sv * Z) := [(demo_pagev 9 0 5 50, 0); (demo_pagev 3 0 5 51, 4); (demo_pagev 4 0 7 70, 0)].
Definition demo_crcf (c : Z) (p : bytes) : Z := u32 (crc32c c p).
Lemma demo_ready : ready true 100000 sd_buildinit [] [] [].
Proof.
  assert (buf_cap 100000 ss_bufinit) as Hcap by (split; [by split|done]).
  split; [exact Hcap|done|exact Hcap|done|exact Hcap|done|done|done|]. by left.
Qed.
Lemma demo_storable : Forall (λ p, storable demo_pagesr p.1) demo_l.
Proof.
  assert (∀ lsn f k v, is_u64 lsn → storable demo_pagesr (demo_pagev lsn f k v)) as Hs.
  { intros lsn f k v Hl. split; [done|]. split; [done|]. exists [le_enc 4 k], [v]. split; [|done].
    split; [done| |done|]; [split; [|done]; constructor; [by rewrite le_enc_length|done]|done]. }
  constructor; [by apply Hs|]. constructor; [by apply Hs|]. constructor; [by apply Hs|constructor].
Qed.
Lemma demo_crcf_u32 c p : is_u32 (demo_crcf c p).
Proof. by apply wrap_in_u. Qed.

Lemma sd_build_then_read_witness : ∃ b',
  build_page (H := demo_alloc) demo_pagesr demo_crcf ss_nonefilter true true true demo_l sd_buildinit = Some (0, b') ∧
  iterates demo_pagesr (content (bd_m b') ++ content (bd_v b') ++ content (bd_k b')) (replicate 64 0) demo_pagevs.
Proof.
  destruct (sd_build_then_read (H := demo_alloc) demo_pagesr demo_crcf ss_nonefilter 100000 sd_buildinit [] [] [] true true true demo_l demo_pagevs (replicate 64 0))
    as (rc & b' & E & [(_ & [[n Hn]|Hg])|(-> & m & v & k & Hm & Hv & Hk & Hi)]).
  - unfold INT_MAX. lia.
  - exact demo_crcf_u32.
  - intros _. eexists. reflexivity.
  - exact demo_ready.
  - exact demo_storable.
  - vm_compute. discriminate.
  - vm_compute. discriminate.
  - vm_compute. discriminate.
  - reflexivity.
  - exact demo_content_ok.
  - exact demo_readable.
  - discriminate.
  - discriminate.
  - exists b'. rewrite Hm, Hv, Hk. exact (conj E Hi).
Defined.

(** ** The buffer for converted versions *)

(** The size of the largest version the builder keeps in [vmax] is what the readers take for
    the buffer [xf]; a key of one part, 130 bytes of value and an lsn of 2^28. *)
Definition demo_long : sv := mk_sv 268435456 0 (row [le_enc 4 1] (replicate 130 7)).
Definition demo_long_run : option (Z * sdbuild) :=
  build_page (H := demo_alloc) demo_pagesr demo_crcf ss_nonefilter true false false [(demo_long, 0)] sd_buildinit.
Definition page_in (b : sdbuild) : bytes := content (bd_m b) ++ content (bd_v b) ++ content (bd_k b).
Definition convert_in (b : sdbuild) (room : Z) : option (() * pgst) :=
  sd_pagekv_convert 1 sizeof_sdpageheader (mk_pgst (page_in b) (replicate (Z.to_nat room) 0)).

