(* ===== verification/SdIndex.v ===== *)
(** The index of the pages of a branch: sd_index.h, sd_index.c, sd_indexiter.h, sd_id.h and the
    seal of sd_seal.h.  It is a header, an array with an entry for each page and, behind it, the
    smallest and the largest key of each page. *)
From stdpp Require Import base list.
From S2P Require Import Prelude SsOrder Sv SsBytes SsBuf Sf Sr SrScheme SdPage SdBuild.
Local Open Scope Z_scope.
Local Open Scope c_scope.

(** * Layout *)

Definition SD_IDBRANCH : Z := 1.
Record sdid := mk_sdid { id_parent : Z; id_id : Z; id_flags : Z }.
Definition sd_idinit (id parent flags : Z) : sdid := mk_sdid parent id (u8 flags).

Record sdindexheader := mk_idxheader {
  x_crc : Z; x_version : srversion; x_id : sdid; x_offset : Z; x_size : Z; x_sizevmax : Z; x_count : Z; x_keys : Z;
  x_total : Z; x_totalorigin : Z; x_tsmin : Z; x_lsnmin : Z; x_lsnmax : Z; x_dupkeys : Z; x_dupmin : Z; x_extension : Z
}.
(** The header is packed; [sizeof(sdindexheader)] *)
Definition sizeof_sdindexheader : nat := 132.
Definition version_enc (v : srversion) : bytes := le_enc 8 (r_magic v) ++ le_enc 1 (r_a v) ++ le_enc 1 (r_b v) ++ le_enc 1 (r_c v).
Definition id_enc (i : sdid) : bytes := le_enc 4 (id_parent i) ++ le_enc 4 (id_id i) ++ le_enc 1 (id_flags i).
Definition idxheader_enc (h : sdindexheader) : bytes :=
  le_enc 4 (x_crc h) ++ version_enc (x_version h) ++ id_enc (x_id h) ++ le_enc 8 (x_offset h) ++ le_enc 4 (x_size h) ++
  le_enc 4 (x_sizevmax h) ++ le_enc 4 (x_count h) ++ le_enc 4 (x_keys h) ++ le_enc 8 (x_total h) ++ le_enc 8 (x_totalorigin h) ++
  le_enc 4 (x_tsmin h) ++ le_enc 8 (x_lsnmin h) ++ le_enc 8 (x_lsnmax h) ++ le_enc 4 (x_dupkeys h) ++ le_enc 8 (x_dupmin h) ++
  le_enc 4 (x_extension h) ++ le_enc 32 0.
Definition version_at (o : nat) (m : bytes) : option srversion :=
  magic ← load_le o 8 m; a ← load_le (o + 8) 1 m; b ← load_le (o + 9) 1 m; c ← load_le (o + 10) 1 m; Some (mk_version magic a b c).
Definition id_at (o : nat) (m : bytes) : option sdid :=
  parent ← load_le o 4 m; id ← load_le (o + 4) 4 m; flags ← load_le (o + 8) 1 m; Some (mk_sdid parent id flags).
Definition idxheader_at (o : nat) (m : bytes) : option sdindexheader :=
  crc ← load_le o 4 m; version ← version_at (o + 4) m; id ← id_at (o + 15) m; offset ← load_le (o + 24) 8 m;
  size ← load_le (o + 32) 4 m; sizevmax ← load_le (o + 36) 4 m; count ← load_le (o + 40) 4 m; keys ← load_le (o + 44) 4 m;
  total ← load_le (o + 48) 8 m; totalorigin ← load_le (o + 56) 8 m; tsmin ← load_le (o + 64) 4 m; lsnmin ← load_le (o + 68) 8 m;
  lsnmax ← load_le (o + 76) 8 m; dupkeys ← load_le (o + 84) 4 m; dupmin ← load_le (o + 88) 8 m; extension ← load_le (o + 96) 4 m;
  Some (mk_idxheader crc version id offset size sizevmax count keys total totalorigin tsmin lsnmin lsnmax dupkeys dupmin extension).

Record sdindexpage := mk_idxpage {
  g_offset : Z; g_offsetindex : Z; g_size : Z; g_sizeorigin : Z; g_sizemin : Z; g_sizemax : Z; g_lsnmin : Z; g_lsnmax : Z
}.
Definition sizeof_sdindexpage : nat := 40.
Definition idxpage_enc (p : sdindexpage) : bytes :=
  le_enc 8 (g_offset p) ++ le_enc 4 (g_offsetindex p) ++ le_enc 4 (g_size p) ++ le_enc 4 (g_sizeorigin p) ++
  le_enc 2 (g_sizemin p) ++ le_enc 2 (g_sizemax p) ++ le_enc 8 (g_lsnmin p) ++ le_enc 8 (g_lsnmax p).
Definition idxpage_at (o : nat) (m : bytes) : option sdindexpage :=
  offset ← load_le o 8 m; offsetindex ← load_le (o + 8) 4 m; size ← load_le (o + 12) 4 m; sizeorigin ← load_le (o + 16) 4 m;
  sizemin ← load_le (o + 20) 2 m; sizemax ← load_le (o + 22) 2 m; lsnmin ← load_le (o + 24) 8 m; lsnmax ← load_le (o + 32) 8 m;
  Some (mk_idxpage offset offsetindex size sizeorigin sizemin sizemax lsnmin lsnmax).

(** * State and accessors *)

(** [xh]: whether [h] points to the header (it is NULL until the index is complete). *)
Record sdindex := mk_sdindex { xi : ssbuf; xv : ssbuf; xh : bool }.
Definition with_i (b : ssbuf) (x : sdindex) := mk_sdindex b (xv x) (xh x).
Definition with_xv (b : ssbuf) (x : sdindex) := mk_sdindex (xi x) b (xh x).
Definition with_h (h : bool) (x : sdindex) := mk_sdindex (xi x) (xv x) h.
Definition on_i {A} : cmd ssbuf A → cmd sdindex A := lift xi with_i.
Definition on_xv {A} : cmd ssbuf A → cmd sdindex A := lift xv with_xv.
Definition xmodify (f : sdindex → sdindex) : cmd sdindex () := λ x, Some ((), f x).

Definition sd_indexinit : sdindex := mk_sdindex ss_bufinit ss_bufinit false.
Definition sd_indexfree (x : sdindex) : sdindex := mk_sdindex (ss_buffree (xi x)) (ss_buffree (xv x)) (xh x).
Definition sd_indexheader : cmd sdindex sdindexheader := cread (λ x, idxheader_at 0 (b_mem (xi x))).
Definition set_idxheader (h : sdindexheader) : cmd sdindex () := on_i (buf_copy 0 (idxheader_enc h)).
(** [i->h] *)
Definition index_h : cmd sdindex sdindexheader :=
  let! x := cget in
  cassert (xh x);;;
  sd_indexheader.
(** The place of an entry, and the entry. *)
Definition sd_indexpage (pos : Z) : cmd sdindex nat :=
  let! h := index_h in
  cassert (Z.ltb (u32 pos) (x_count h));;;
  cret (sizeof_sdindexpage * Z.to_nat (u32 pos) + sizeof_sdindexheader)%nat.
Definition rd_indexpage (p : nat) : cmd sdindex sdindexpage := cread (λ x, idxpage_at p (b_mem (xi x))).
Definition sd_indexpage_min (p : sdindexpage) : cmd sdindex nat :=
  let! h := index_h in
  cret (sizeof_sdindexheader + Z.to_nat (x_count h) * sizeof_sdindexpage + Z.to_nat (g_offsetindex p))%nat.
Definition sd_indexpage_max (p : sdindexpage) : cmd sdindex nat :=
  let! o := sd_indexpage_min p in
  cret (o + Z.to_nat (g_sizemin p))%nat.
Definition sd_indexmin : cmd sdindex nat := sd_indexpage 0.
Definition sd_indexmax : cmd sdindex nat := let! h := index_h in sd_indexpage (x_count h - 1).
Definition no_memory (x : sdindex) : bool := match b_at (xi x) with SNull => true | _ => false end.
Definition sd_indexkeys : cmd sdindex Z :=
  let! x := cget in
  if no_memory x then cret 0 else let! h := sd_indexheader in cret (x_keys h).
Definition sd_indextotal : cmd sdindex Z :=
  let! x := cget in
  if no_memory x then cret 0 else let! h := sd_indexheader in cret (u32 (x_total h)).
Definition sd_indexsize (h : sdindexheader) : Z := u32 (Z.of_nat sizeof_sdindexheader + x_size h).

(** * Building *)

(** Reading from the page under construction. *)
Definition from_build {A} (build : sdbuild) (m : cmd sdbuild A) : cmd sdindex A := cread (λ _, fst <$> m build).
(** Writing behind the content of a buffer, at [b->p]. *)
Definition at_end {A} (m : cmd bytes A) : cmd ssbuf A := λ b,
  match m (drop (b_p b) (b_mem b)) with
  | Some (a, bs) => Some (a, mk_buf (b_reserve b) (b_at b) (take (b_p b) (b_mem b) ++ bs) (b_p b))
  | None => None
  end.

Section build.
Context `{Alloc}.
Context (crcf : Z → bytes → Z) (r : sr).
Abbreviation count := (s_count (r_scheme r)).

Definition sd_indexbegin (offset : Z) : cmd sdindex Z :=
  let! rc := on_i (ss_bufensure (Z.of_nat sizeof_sdindexheader)) in
  if Z.eqb rc (-1) then cret (-1) else
  set_idxheader (mk_idxheader 0 sr_version (sd_idinit 0 0 0) offset 0 0 0 0 0 0 0 UINT64_MAX 0 0 UINT64_MAX 0);;;
  xmodify (with_h false);;;
  on_i (ss_bufadvance sizeof_sdindexheader);;;
  cret 0.

(** The key of a row copied behind the keys of the index. *)
Definition copy_row (row : bytes) (size : Z) : cmd sdindex () :=
  let! n := on_xv (at_end (sf_keycopy row count)) in
  cassert (Z.eqb (Z.of_nat n) size);;;
  on_xv (ss_bufadvance (Z.to_nat size)).
(** Answers the sizes of the keys; [None] without memory. *)
Definition sd_indexadd_raw (min max : bytes) : cmd sdindex (option (Z * Z)) :=
  let! a := cread (λ _, sf_keytotal count min) in
  let! b := cread (λ _, sf_keytotal count max) in
  let sizemin := u16 (Z.of_nat a) in
  let sizemax := u16 (Z.of_nat b) in
  let! rc := on_xv (ss_bufensure (sizemin + sizemax)) in
  if Z.eqb rc (-1) then cret None else
  copy_row min sizemin;;;
  copy_row max sizemax;;;
  cret (Some (sizemin, sizemax)).

(** The parts of a key from the offsets at [p] in the versions and the keys of the page, and
    the sum of their sizes. *)
Fixpoint build_keys (build : sdbuild) (n p : nat) : cmd sdindex (list sfv * Z) :=
  match n with
  | O => cret ([], 0)
  | S n =>
      let! o := cread (λ _, fst <$> ss_leb128read p (b_mem (bd_v build))) in
      let! ref := from_build build sd_buildref in
      let key := (Z.to_nat (f_k ref) + Z.to_nat o.2)%nat in
      let! k := cread (λ _, fst <$> ss_leb128read key (b_mem (bd_k build))) in
      let! ks := build_keys build n (p + o.1) in
      cret (mk_sfv (drop (key + k.1) (b_mem (bd_k build))) 0 (u16 k.2) :: ks.1, i32 (k.2 + ks.2))
  end.
Definition write_key (build : sdbuild) (p : nat) : cmd sdindex (option Z) :=
  let! ks := build_keys build count p in
  let size := u16 (ks.2 + Z.of_nat (count * sizeof_sfref)) in
  let! rc := on_xv (ss_bufensure size) in
  if Z.eqb rc (-1) then cret None else
  on_xv (at_end (sf_write SF_KV ks.1 []));;;
  on_xv (ss_bufadvance (Z.to_nat size));;;
  cret (Some size).
Definition sd_indexadd_keyvalue (build : sdbuild) (min max : nat) : cmd sdindex (option (Z * Z)) :=
  cassert (bool_decide (count <= 8)%nat);;;
  let! a := write_key build min in
  match a with
  | None => cret None
  | Some sizemin =>
      let! b := write_key build max in
      cret (pair sizemin <$> b)
  end.

(** The key at the given place of a version, behind its size and its lsn. *)
Definition key_of (build : sdbuild) (place : cmd sdbuild nat) : cmd sdindex nat :=
  let! p := from_build build place in
  let! n := cread (λ _, fst <$> ss_leb128skip p (b_mem (bd_v build))) in
  let! m := cread (λ _, fst <$> ss_leb128skip (p + n) (b_mem (bd_v build))) in
  cret (p + n + m)%nat.
Definition add_keys (build : sdbuild) : cmd sdindex (option (Z * Z)) :=
  let! min := key_of build sd_buildminkey in
  let! max := key_of build sd_buildmaxkey in
  match r_fmt_storage r with
  | SF_SRAW => sd_indexadd_raw (drop min (b_mem (bd_v build))) (drop max (b_mem (bd_v build)))
  | SF_SKEYVALUE => sd_indexadd_keyvalue build min max
  end.
(** The header after a page. *)
Definition idxheader_add (build : sdbuild) (ph : sdpageheader) (p : sdindexpage) (size sizeorigin : Z) (h : sdindexheader) : sdindexheader :=
  mk_idxheader (x_crc h) (x_version h) (x_id h) (x_offset h)
    (u32 (x_size h + (Z.of_nat sizeof_sdindexpage + g_sizemin p + g_sizemax p)))
    (if Z.gtb (bd_vmax build) (x_sizevmax h) then bd_vmax build else x_sizevmax h)
    (u32 (x_count h + 1)) (u32 (x_keys h + h_count ph)) (u64 (x_total h + size)) (u64 (x_totalorigin h + sizeorigin)) (x_tsmin h)
    (if Z.ltb (h_lsnmin ph) (x_lsnmin h) then h_lsnmin ph else x_lsnmin h)
    (if Z.gtb (h_lsnmax ph) (x_lsnmax h) then h_lsnmax ph else x_lsnmax h)
    (u32 (x_dupkeys h + h_countdup ph))
    (if Z.ltb (h_lsnmindup ph) (x_dupmin h) then h_lsnmindup ph else x_dupmin h) (x_extension h).
Definition sd_indexadd (build : sdbuild) : cmd sdindex Z :=
  let! rc := on_i (ss_bufensure (Z.of_nat sizeof_sdindexpage)) in
  if Z.eqb rc (-1) then cret (-1) else
  let! ph := from_build build sd_buildheader in
  let size := i32 (h_size ph + Z.of_nat sizeof_sdpageheader) in
  let sizeorigin := i32 (h_sizeorigin ph + Z.of_nat sizeof_sdpageheader) in
  let! offset := from_build build sd_buildoffset in
  let! x := cget in
  let! sizes := (if Z.gtb (h_count ph) 0 then add_keys build else cret (Some (0, 0))) in
  match sizes with
  | None => cret (-1)
  | Some (sizemin, sizemax) =>
      let p := mk_idxpage offset (u32 (ss_bufused (xv x))) (u32 size) (u32 sizeorigin) sizemin sizemax (h_lsnmin ph) (h_lsnmax ph) in
      let! h := sd_indexheader in
      set_idxheader (idxheader_add build ph p size sizeorigin h);;;
      on_i (copy_advance (idxpage_enc p));;;
      cret 0
  end.

Definition sd_indexcommit (id : sdid) : cmd sdindex Z :=
  let! x := cget in
  let size := ss_bufused (xv x) in
  let! rc := on_i (ss_bufensure size) in
  if Z.eqb rc (-1) then cret (-1) else
  let! keys := cread (λ x, mem_read 0 (Z.to_nat size) (b_mem (xv x))) in
  on_i (copy_advance keys);;;
  xmodify (λ x, with_h true (with_xv (ss_buffree (xv x)) x));;;
  let! h := sd_indexheader in
  let h := mk_idxheader (x_crc h) (x_version h) id (x_offset h) (x_size h) (x_sizevmax h) (x_count h) (x_keys h) (x_total h)
             (x_totalorigin h) (x_tsmin h) (x_lsnmin h) (x_lsnmax h) (x_dupkeys h) (x_dupmin h) (x_extension h) in
  let h := mk_idxheader (ss_crcs crcf (idxheader_enc h) 0) (x_version h) id (x_offset h) (x_size h) (x_sizevmax h) (x_count h) (x_keys h) (x_total h)
             (x_totalorigin h) (x_tsmin h) (x_lsnmin h) (x_lsnmax h) (x_dupkeys h) (x_dupmin h) (x_extension h) in
  set_idxheader h;;;
  cret 0.
(** [image]: the memory the header [h] of a complete index is read from. *)
Definition sd_indexcopy (image : bytes) : cmd sdindex Z :=
  let! h := cread (λ _, idxheader_at 0 image) in
  let size := sd_indexsize h in
  let! rc := on_i (ss_bufensure size) in
  if Z.eqb rc (-1) then cret (-1) else
  let! bs := cread (λ _, mem_read 0 (Z.to_nat size) image) in
  on_i (buf_copy 0 bs);;;
  on_i (ss_bufadvance (Z.to_nat size));;;
  xmodify (with_h true);;;
  cret 0.
End build.

(** * The iterator over the pages *)

Record sdindexiter := mk_indexiter { ii_v : option nat; ii_pos : Z; ii_cmp : ssorder; ii_key : option bytes }.
Definition ii_at (i : sdindexiter) (pos : Z) (v : option nat) : sdindexiter := mk_indexiter v pos (ii_cmp i) (ii_key i).

Section iter.
Context (s : srscheme).

(** Comparing the smallest or the largest key of a page with the key. *)
Definition cmp_min (p : sdindexpage) (key : bytes) : cmd sdindex Z :=
  let! o := sd_indexpage_min p in
  let! k := cread (λ x, mem_read o (Z.to_nat (g_sizemin p)) (b_mem (xi x))) in
  cread (λ _, sr_compare s k key).
Definition cmp_max (p : sdindexpage) (key : bytes) : cmd sdindex Z :=
  let! o := sd_indexpage_max p in
  let! k := cread (λ x, mem_read o (Z.to_nat (g_sizemax p)) (b_mem (xi x))) in
  cread (λ _, sr_compare s k key).
Definition route_turn (key : bytes) (b : Z * Z) : cmd sdindex (Z * Z + Z) :=
  let '(begin, end_) := b in
  if Z.eqb begin end_ then cret (inr end_) else
  let mid := begin + Z.quot (end_ - begin) 2 in
  let! o := sd_indexpage mid in
  let! p := rd_indexpage o in
  let! rc := cmp_max p key in
  cret (inl (if Z.ltb rc 0 then (mid + 1, end_) else (begin, mid))).
Definition sd_indexiter_route (key : bytes) : cmd sdindex Z :=
  let! h := index_h in
  let! end_ := cloop (S (Z.to_nat (x_count h))) (route_turn key) (0, i32 (x_count h - 1)) in
  cret (if Z.geb end_ (i32 (x_count h)) then i32 (x_count h - 1) else end_).
Definition sd_indexiter_open (o : ssorder) (key : option bytes) : cmd sdindex sdindexiter :=
  let i := mk_indexiter None 0 o key in
  let! h := index_h in
  if Z.eqb (x_count h) 1 && (Z.eqb (x_lsnmin h) UINT64_MAX && Z.eqb (x_lsnmax h) 0) then cret i else
  match key with
  | None =>
      let! pos := (match o with
                   | SS_LT | SS_LTE => cret (i32 (x_count h - 1))
                   | SS_GT | SS_GTE => cret 0
                   | _ => cfail
                   end) in
      let! v := sd_indexpage pos in
      cret (ii_at i pos (Some v))
  | Some k =>
      let! pos := (if Z.gtb (x_count h) 1 then sd_indexiter_route k else cret 0) in
      let! v := sd_indexpage pos in
      let! p := rd_indexpage v in
      let! pos := (match o with
                   | SS_LT | SS_LTE =>
                       let! rc := cmp_min p k in
                       cret (if Z.eqb rc 1 || (Z.eqb rc 0 && bool_decide (o = SS_LT)) then pos - 1 else pos)
                   | SS_GT | SS_GTE =>
                       let! rc := cmp_max p k in
                       cret (if Z.eqb rc (-1) || (Z.eqb rc 0 && bool_decide (o = SS_GT)) then pos + 1 else pos)
                   | _ => cfail
                   end) in
      if Z.eqb pos (-1) || Z.geb pos (i32 (x_count h)) then cret (ii_at i pos None) else
      let! v := sd_indexpage pos in
      cret (ii_at i pos (Some v))
  end.
Definition sd_indexiter_has (i : sdindexiter) : bool := match ii_v i with Some _ => true | None => false end.
Definition sd_indexiter_of (i : sdindexiter) : option nat := ii_v i.
Definition sd_indexiter_next (i : sdindexiter) : cmd sdindex sdindexiter :=
  let! pos := (match ii_cmp i with
               | SS_LT | SS_LTE => cret (ii_pos i - 1)
               | SS_GT | SS_GTE => cret (ii_pos i + 1)
               | _ => cfail
               end) in
  if Z.ltb pos 0 then cret (ii_at i pos None) else
  let! h := index_h in
  if Z.geb pos (i32 (x_count h)) then cret (ii_at i pos None) else
  let! v := sd_indexpage pos in
  cret (ii_at i pos (Some v)).
End iter.

(** * The seal of a branch *)

Record sdseal := mk_sdseal { l_crc : Z; l_index_crc : Z; l_index_offset : Z }.
Definition seal_enc (s : sdseal) : bytes := le_enc 4 (l_crc s) ++ le_enc 4 (l_index_crc s) ++ le_enc 8 (l_index_offset s).
(** [old]: the checksum in the memory before, which takes no part. *)
Definition sd_seal (crcf : Z → bytes → Z) (old : Z) (h : sdindexheader) : sdseal :=
  let s := mk_sdseal old (x_crc h) (x_offset h) in
  mk_sdseal (ss_crcs crcf (seal_enc s) 0) (l_index_crc s) (l_index_offset s).
Definition sd_sealvalidate (crcf : Z → bytes → Z) (s : sdseal) (h : sdindexheader) : Z :=
  let crc := ss_crcs crcf (seal_enc s) 0 in
  if negb (Z.eqb (l_crc s) crc) then -1 else
  if negb (Z.eqb (x_crc h) (l_index_crc s)) then -1 else
  if negb (Z.eqb (x_offset h) (l_index_offset s)) then -1 else 0.
