(* ===== verification/SdIndexIter.v ===== *)
(** Searching and iterating the index of pages. *)
From stdpp Require Import base list sorting sets.
From S2P Require Import Prelude SsOrder Sv SsBytes SsBuf Sf Sr SrScheme SvMergeProofs SvIndexIter SdPage SdPageRep SdPageKv SdPageSpec SdBuild SdIndex.
Local Open Scope Z_scope.
Local Open Scope c_scope.

(** * A complete index in memory *)

Definition version_ok (v : srversion) : Prop := is_u64 (r_magic v) ∧ is_byte (r_a v) ∧ is_byte (r_b v) ∧ is_byte (r_c v).
Definition id_ok (i : sdid) : Prop := is_u32 (id_parent i) ∧ is_u32 (id_id i) ∧ is_byte (id_flags i).
Definition idxheader_ok (h : sdindexheader) : Prop :=
  is_u32 (x_crc h) ∧ version_ok (x_version h) ∧ id_ok (x_id h) ∧ is_u64 (x_offset h) ∧ is_u32 (x_size h) ∧ is_u32 (x_sizevmax h) ∧
  is_u32 (x_count h) ∧ is_u32 (x_keys h) ∧ is_u64 (x_total h) ∧ is_u64 (x_totalorigin h) ∧ is_u32 (x_tsmin h) ∧ is_u64 (x_lsnmin h) ∧
  is_u64 (x_lsnmax h) ∧ is_u32 (x_dupkeys h) ∧ is_u64 (x_dupmin h) ∧ is_u32 (x_extension h).
Definition idxpage_ok (p : sdindexpage) : Prop :=
  is_u64 (g_offset p) ∧ is_u32 (g_offsetindex p) ∧ is_u32 (g_size p) ∧ is_u32 (g_sizeorigin p) ∧ in_u 16 (g_sizemin p) ∧
  in_u 16 (g_sizemax p) ∧ is_u64 (g_lsnmin p) ∧ is_u64 (g_lsnmax p).

Ltac split_fields Hm := repeat match type of Hm with mem_at _ _ (_ ++ _) => apply mem_at_app in Hm as [?M Hm] end.
Lemma idxheader_length h : length (idxheader_enc h) = sizeof_sdindexheader.
Proof. unfold idxheader_enc, version_enc, id_enc. by rewrite !length_app, !le_enc_length. Qed.
Lemma version_read m o v : mem_at m o (version_enc v) → version_ok v → version_at o m = Some v.
Proof.
  intros Hm (H1 & H2 & H3 & H4). unfold version_enc in Hm. unfold in_u in *. split_fields Hm. rewrite !le_enc_length in *.
  rewrite <- !Nat.add_assoc in *. cbn [plus] in *. unfold version_at.
  repeat (erewrite load_le_at by (eassumption || done); cbn [mbind option_bind]). by destruct v.
Qed.
Lemma id_read m o i : mem_at m o (id_enc i) → id_ok i → id_at o m = Some i.
Proof.
  intros Hm (H1 & H2 & H3). unfold id_enc in Hm. unfold in_u in *. split_fields Hm. rewrite !le_enc_length in *.
  rewrite <- !Nat.add_assoc in *. cbn [plus] in *. unfold id_at.
  repeat (erewrite load_le_at by (eassumption || done); cbn [mbind option_bind]). by destruct i.
Qed.
Lemma idxheader_read m o h : mem_at m o (idxheader_enc h) → idxheader_ok h → idxheader_at o m = Some h.
Proof.
  intros Hm (H1 & H2 & H3 & H4 & H5 & H6 & H7 & H8 & H9 & H10 & H11 & H12 & H13 & H14 & H15 & H16). unfold idxheader_enc in Hm. unfold in_u in *.
  apply mem_at_app in Hm as [Ma Hm]. apply mem_at_app in Hm as [Mv Hm]. apply mem_at_app in Hm as [Mi Hm]. split_fields Hm.
  assert (∀ v, length (version_enc v) = 11%nat) as Lv by (intros; unfold version_enc; by rewrite !length_app, !le_enc_length).
  assert (∀ i, length (id_enc i) = 9%nat) as Li by (intros; unfold id_enc; by rewrite !length_app, !le_enc_length).
  rewrite ?Lv, ?Li, ?le_enc_length in *. rewrite <- ?Nat.add_assoc in *. cbn [plus] in *. unfold idxheader_at.
  erewrite load_le_at by (eassumption || done). cbn [mbind option_bind]. erewrite version_read by eassumption. cbn [mbind option_bind].
  erewrite id_read by eassumption. cbn [mbind option_bind].
  repeat (erewrite load_le_at by (eassumption || done); cbn [mbind option_bind]). by destruct h.
Qed.
Lemma idxpage_length p : length (idxpage_enc p) = sizeof_sdindexpage.
Proof. unfold idxpage_enc. by rewrite !length_app, !le_enc_length. Qed.
Lemma idxpage_read m o p : mem_at m o (idxpage_enc p) → idxpage_ok p → idxpage_at o m = Some p.
Proof.
  intros Hm (H1 & H2 & H3 & H4 & H5 & H6 & H7 & H8). unfold idxpage_enc in Hm. unfold in_u in *. split_fields Hm. rewrite !le_enc_length in *.
  rewrite <- !Nat.add_assoc in *. cbn [plus] in *. unfold idxpage_at.
  repeat (erewrite load_le_at by (eassumption || done); cbn [mbind option_bind]). by destruct p.
Qed.
Lemma idxpages_length ps : length (concat (idxpage_enc <$> ps)) = (sizeof_sdindexpage * length ps)%nat.
Proof. induction ps as [|p ps IH]; [done|]. rewrite fmap_cons. cbn [concat]. rewrite length_app, idxpage_length, IH. cbn [length]. lia. Qed.

(** An entry and the keys of its page among the keys of the index. *)
Definition page_keys (keys : bytes) (p : sdindexpage) (mm : bytes * bytes) : Prop :=
  idxpage_ok p ∧ mem_at keys (Z.to_nat (g_offsetindex p)) (mm.1 ++ mm.2) ∧ g_sizemin p = blen mm.1 ∧ g_sizemax p = blen mm.2.
Record index_rep (x : sdindex) (h : sdindexheader) (ps : list sdindexpage) (mms : list (bytes * bytes)) : Prop := {
  ir_h : xh x = true;
  ir_mem : ∃ keys rest, b_mem (xi x) = idxheader_enc h ++ concat (idxpage_enc <$> ps) ++ keys ++ rest ∧ Forall2 (page_keys keys) ps mms;
  ir_header : idxheader_ok h;
  ir_count : x_count h = Z.of_nat (length ps);
  ir_small : Z.of_nat (length ps) < 2147483648
}.

Section index.
Context (x : sdindex) (h : sdindexheader) (ps : list sdindexpage) (mms : list (bytes * bytes)) (Hx : index_rep x h ps mms).

Lemma index_h_run : index_h x = Some (h, x).
Proof.
  destruct (ir_mem _ _ _ _ Hx) as (keys & rest & Em & _). unfold index_h, cbind, cget, cassert. rewrite (ir_h _ _ _ _ Hx).
  unfold sd_indexheader, cread. erewrite idxheader_read; [done| |exact (ir_header _ _ _ _ Hx)].
  exists [], (concat (idxpage_enc <$> ps) ++ keys ++ rest). by rewrite Em.
Qed.
Definition entry_at (n : nat) : nat := (sizeof_sdindexpage * n + sizeof_sdindexheader)%nat.
Lemma indexpage_run n : (n < length ps)%nat → sd_indexpage (Z.of_nat n) x = Some (entry_at n, x).
Proof.
  intros Hn. pose proof (ir_small _ _ _ _ Hx). unfold sd_indexpage, cbind. rewrite index_h_run. unfold cassert, cret.
  rewrite wrap_id by (unfold in_u; lia). rewrite (ir_count _ _ _ _ Hx), Nat2Z.id. destruct (Z.ltb_spec (Z.of_nat n) (Z.of_nat (length ps))); [done|lia].
Qed.
Lemma rd_indexpage_run n p : ps !! n = Some p → rd_indexpage (entry_at n) x = Some (p, x).
Proof.
  intros Hp. destruct (ir_mem _ _ _ _ Hx) as (keys & rest & Em & HF). destruct (Forall2_lookup_l _ _ _ _ _ HF Hp) as (mm & _ & Hok & _).
  unfold rd_indexpage, cread. erewrite idxpage_read; [done| |exact Hok]. destruct (split_at _ _ _ Hp) as (l & r & E & Hl & _).
  exists (idxheader_enc h ++ concat (idxpage_enc <$> l)), (concat (idxpage_enc <$> r) ++ keys ++ rest).
  rewrite Em, E, fmap_app, concat_app, fmap_cons. cbn [concat]. rewrite <- !app_assoc. split; [done|].
  rewrite length_app, idxheader_length, idxpages_length, Hl. unfold entry_at. lia.
Qed.
Lemma keys_run n p mm : ps !! n = Some p → mms !! n = Some mm →
  (let! o := sd_indexpage_min p in cread (λ x, mem_read o (Z.to_nat (g_sizemin p)) (b_mem (xi x)))) x = Some (mm.1, x) ∧
  (let! o := sd_indexpage_max p in cread (λ x, mem_read o (Z.to_nat (g_sizemax p)) (b_mem (xi x)))) x = Some (mm.2, x).
Proof.
  intros Hp Hm. destruct (ir_mem _ _ _ _ Hx) as (keys & rest & Em & HF). destruct (Forall2_lookup_lr _ _ _ _ _ _ HF Hp Hm) as (_ & Hat & E1 & E2).
  assert (mem_at (b_mem (xi x)) (sizeof_sdindexheader + Z.to_nat (x_count h) * sizeof_sdindexpage + Z.to_nat (g_offsetindex p)) (mm.1 ++ mm.2)) as Hat'.
  { destruct Hat as (l & r & -> & Hl). exists (idxheader_enc h ++ concat (idxpage_enc <$> ps) ++ l), (r ++ rest). rewrite Em, <- !app_assoc. split; [done|].
    rewrite !length_app, idxheader_length, idxpages_length, Hl, (ir_count _ _ _ _ Hx), Nat2Z.id. lia. }
  apply mem_at_app in Hat' as [Ha%mem_at_read Hb%mem_at_read].
  unfold sd_indexpage_max, sd_indexpage_min, cbind. rewrite index_h_run. unfold cret, cread. rewrite E1, E2. unfold blen. rewrite !Nat2Z.id.
  by rewrite Ha, Hb.
Qed.

Context (s : srscheme) (Hs : own_scheme s) (Hready : Forall (λ mm, row_ready s mm.1 ∧ row_ready s mm.2) mms).
Lemma cmp_run n p mm key : ps !! n = Some p → mms !! n = Some mm → row_ready s key →
  cmp_min s p key x = Some (scheme_cmp s mm.1 key, x) ∧ cmp_max s p key x = Some (scheme_cmp s mm.2 key, x).
Proof.
  intros Hp Hm Hk. destruct (keys_run n p mm Hp Hm) as [E1 E2]. destruct (Forall_lookup_1 _ _ _ _ Hready Hm) as [R1 R2].
  unfold cmp_min, cmp_max, cbind, cread in *.
  destruct (sd_indexpage_min p x) as [[o1 x1]|]; [|done]. destruct (sd_indexpage_max p x) as [[o2 x2]|]; [|done].
  destruct (mem_read o1 _ _) as [b1|]; [|done]. destruct (mem_read o2 _ _) as [b2|]; [|done].
  injection E1 as -> ->. injection E2 as -> ->. by rewrite !compare_ok.
Qed.
End index.

(** * The pages a walk visits *)

(** The key of a page that decides: its largest on the way up, its smallest on the way down. *)
Definition edge (o : ssorder) (mm : bytes * bytes) : bytes := if downward o then mm.1 else mm.2.
Definition seek_pages (cmp : bytes → bytes → Z) (o : ssorder) (key : option bytes) (l : list (sdindexpage * (bytes * bytes))) : list sdindexpage :=
  let l := match key with None => l | Some k => filter (λ pm, visits o (cmp (edge o pm.2) k) = true) l end in
  fst <$> (if downward o then reverse l else l).
(** The pages do not overlap and are in order. *)
Definition pages_sorted (cmp : bytes → bytes → Z) (mms : list (bytes * bytes)) : Prop :=
  Forall (λ mm, cmp mm.1 mm.2 <= 0) mms ∧ StronglySorted (λ a b, cmp a.2 b.1 = -1) mms.
(** Draining the iterator. *)
Fixpoint index_walk (fuel : nat) (i : sdindexiter) : cmd sdindex (list sdindexpage) :=
  match fuel with
  | O => cfail
  | S fuel =>
      match sd_indexiter_of i with
      | None => cret []
      | Some v =>
          let! p := rd_indexpage v in
          let! i := sd_indexiter_next i in
          let! l := index_walk fuel i in
          cret (p :: l)
      end
  end.

Lemma filter_take {A} (P : A → Prop) `{∀ x, Decision (P x)} (l : list A) n : (∀ i a, l !! i = Some a → P a ↔ (i < n)%nat) → filter P l = take n l.
Proof.
  revert n. induction l as [|a l IH]; intros n Hl; [by destruct n|]. pose proof (Hl O a eq_refl) as Ha. destruct n as [|n]; simpl.
  - rewrite filter_cons_False by (rewrite Ha; lia). rewrite (IH O); [by destruct l|]. intros i b Hb. rewrite (Hl (S i) b Hb). lia.
  - rewrite filter_cons_True by (apply Ha; lia). f_equal. apply IH. intros i b Hb. rewrite (Hl (S i) b Hb). lia.
Qed.
Lemma filter_drop {A} (P : A → Prop) `{∀ x, Decision (P x)} (l : list A) n : (∀ i a, l !! i = Some a → P a ↔ (n <= i)%nat) → filter P l = drop n l.
Proof.
  revert n. induction l as [|a l IH]; intros n Hl; [by destruct n|]. pose proof (Hl O a eq_refl) as Ha. destruct n as [|n]; simpl.
  - rewrite filter_cons_True by (apply Ha; lia). f_equal. rewrite (IH O); [done|]. intros i b Hb. rewrite (Hl (S i) b Hb). lia.
  - rewrite filter_cons_False by (rewrite Ha; lia). apply IH. intros i b Hb. rewrite (Hl (S i) b Hb). lia.
Qed.

Section walk.
Context (x : sdindex) (h : sdindexheader) (ps : list sdindexpage) (mms : list (bytes * bytes)) (Hx : index_rep x h ps mms).
Context (s : srscheme) (Hs : own_scheme s) (Hready : Forall (λ mm, row_ready s mm.1 ∧ row_ready s mm.2) mms).
Abbreviation cmp := (scheme_cmp s).
Context (Hsorted : pages_sorted cmp mms).
Abbreviation N := (length ps).

Lemma mms_length : length mms = N.
Proof. destruct (ir_mem _ _ _ _ Hx) as (keys & rest & _ & HF). symmetry. by eapply Forall2_length. Qed.
Lemma count_int d : -1 <= d <= 0 → i32 (x_count h + d) = Z.of_nat N + d.
Proof. intros Hd. pose proof (ir_small _ _ _ _ Hx). rewrite (ir_count _ _ _ _ Hx), swrap_id; lia. Qed.

(** ** Walking on *)

(** A step of the iterator. *)
Lemma up_next o pos i : (o = SS_GT ∨ o = SS_GTE) → ii_cmp i = o → ii_pos i = Z.of_nat pos →
  ∃ i', sd_indexiter_next i x = Some (i', x) ∧ ii_cmp i' = o ∧ ii_pos i' = Z.of_nat (S pos) ∧ ii_v i' = if decide (S pos < N)%nat then Some (entry_at (S pos)) else None.
Proof.
  intros Ho Hc Hp. unfold sd_indexiter_next. rewrite Hc, Hp. unfold cbind at 1. replace (Z.of_nat pos + 1) with (Z.of_nat (S pos)) by lia.
  assert ((match o with SS_LT | SS_LTE => cret (Z.of_nat pos - 1) | SS_GT | SS_GTE => cret (Z.of_nat (S pos)) | _ => cfail end) x = Some (Z.of_nat (S pos), x)) as ->
    by (by destruct Ho as [-> | ->]).
  destruct (Z.ltb_spec (Z.of_nat (S pos)) 0); [lia|]. unfold cbind at 1. rewrite (index_h_run _ _ _ _ Hx).
  pose proof (count_int 0) as Ec. rewrite !Z.add_0_r in Ec. rewrite Ec by lia. rewrite Z.geb_leb.
  destruct (Z.leb_spec (Z.of_nat N) (Z.of_nat (S pos))).
  - rewrite decide_False by lia. eexists. split; [done|]. by rewrite <- Hc.
  - rewrite decide_True by lia. unfold cbind. rewrite (indexpage_run _ _ _ _ Hx) by lia. eexists. split; [done|]. by rewrite <- Hc.
Qed.
Lemma down_next o n i : (o = SS_LT ∨ o = SS_LTE) → (n < N)%nat → ii_cmp i = o → ii_pos i = Z.of_nat n →
  ∃ i', sd_indexiter_next i x = Some (i', x) ∧ ii_cmp i' = o ∧ ii_pos i' = Z.of_nat n - 1 ∧ ii_v i' = match n with O => None | S m => Some (entry_at m) end.
Proof.
  intros Ho Hn Hc Hp. unfold sd_indexiter_next. rewrite Hc, Hp. unfold cbind at 1.
  assert ((match o with SS_LT | SS_LTE => cret (Z.of_nat n - 1) | SS_GT | SS_GTE => cret (Z.of_nat n + 1) | _ => cfail end) x = Some (Z.of_nat n - 1, x)) as ->
    by (by destruct Ho as [-> | ->]).
  destruct n as [|n]; [eexists; split; [done|]; by rewrite <- Hc|]. destruct (Z.ltb_spec (Z.of_nat (S n) - 1) 0); [lia|].
  unfold cbind at 1. rewrite (index_h_run _ _ _ _ Hx). pose proof (count_int 0) as Ec. rewrite !Z.add_0_r in Ec. rewrite Ec by lia. rewrite Z.geb_leb.
  destruct (Z.leb_spec (Z.of_nat N) (Z.of_nat (S n) - 1)); [lia|]. replace (Z.of_nat (S n) - 1) with (Z.of_nat n) by lia.
  unfold cbind. rewrite (indexpage_run _ _ _ _ Hx) by lia. eexists. split; [done|]. by rewrite <- Hc.
Qed.
Lemma up_walk o n : (o = SS_GT ∨ o = SS_GTE) → ∀ pos i, (pos + n = N)%nat → ii_cmp i = o → ii_pos i = Z.of_nat pos →
  ii_v i = (if decide (pos < N)%nat then Some (entry_at pos) else None) → ∀ fuel, (n < fuel)%nat → index_walk fuel i x = Some (drop pos ps, x).
Proof.
  intros Ho. induction n as [|n IH]; intros pos i Hn Hc Hp Hv fuel Hf; (destruct fuel as [|fuel]; [lia|]); cbn [index_walk]; unfold sd_indexiter_of; rewrite Hv.
  - rewrite decide_False by lia. unfold cret. rewrite drop_ge by lia. done.
  - rewrite decide_True by lia. destruct (lookup_lt_is_Some_2 ps pos) as [p Hpp]; [lia|].
    unfold cbind at 1. rewrite (rd_indexpage_run _ _ _ _ Hx _ _ Hpp). unfold cbind at 1.
    destruct (up_next o pos i Ho Hc Hp) as (i' & E & H1 & H2 & H3).
    rewrite E. unfold cbind. rewrite (IH (S pos) i') by (done || lia). unfold cret. do 2 f_equal. symmetry. by apply drop_S.
Qed.
Lemma down_walk o n : (o = SS_LT ∨ o = SS_LTE) → ∀ i, (n <= N)%nat → ii_cmp i = o → ii_pos i = Z.of_nat n - 1 →
  ii_v i = (match n with O => None | S m => Some (entry_at m) end) → ∀ fuel, (n < fuel)%nat → index_walk fuel i x = Some (reverse (take n ps), x).
Proof.
  intros Ho. induction n as [|n IH]; intros i Hn Hc Hp Hv fuel Hf; (destruct fuel as [|fuel]; [lia|]); cbn [index_walk]; unfold sd_indexiter_of; rewrite Hv; [done|].
  destruct (lookup_lt_is_Some_2 ps n) as [p Hpp]; [lia|]. unfold cbind at 1. rewrite (rd_indexpage_run _ _ _ _ Hx _ _ Hpp). unfold cbind at 1.
  destruct (down_next o n i Ho) as (i' & E & H1 & H2 & H3); [lia|done|lia|].
  rewrite E. unfold cbind. rewrite (IH i') by (done || lia). unfold cret. by rewrite (take_S_r ps n p Hpp), reverse_app.
Qed.

(** ** The search *)

Lemma prefix_split {A} (P : A → Prop) `{∀ a, Decision (P a)} (l : list A) : (∀ i j a b, (i < j)%nat → l !! i = Some a → l !! j = Some b → P b → P a) →
  ∃ n, (n <= length l)%nat ∧ ∀ i a, l !! i = Some a → P a ↔ (i < n)%nat.
Proof.
  induction l as [|a l IH]; intros Hl; [exists O; split; [done|]; by intros i a ?|]. destruct (decide (P a)) as [Ha|Ha].
  - destruct IH as (n & Hn & Hi). { intros i j b c Hij Hb Hc. apply (Hl (S i) (S j) b c); [lia|done|done]. }
    exists (S n). split; [simpl; lia|]. intros [|i] b Hb; simpl in Hb; [simplify_eq; split; [lia|done]|]. rewrite (Hi i b Hb). lia.
  - exists O. split; [lia|]. intros [|i] b Hb; simpl in Hb; [simplify_eq; split; [done|lia]|]. split; [|lia].
    intros Hp. exfalso. apply Ha. by apply (Hl O (S i) a b); [lia|done|done|].
Qed.
Lemma max_lt i j a b : (i < j)%nat → mms !! i = Some a → mms !! j = Some b → cmp a.2 b.1 = -1 ∧ cmp a.2 b.2 = -1 ∧ cmp b.1 b.2 <= 0.
Proof.
  intros Hij Ha Hb. destruct Hsorted as [Hle Hss]. pose proof (Forall_lookup_1 _ _ _ _ Hle Hb) as Hb12. cbn beta in Hb12.
  assert (cmp a.2 b.1 = -1) as Hab.
  { clear -Hss Hij Ha Hb. revert i j Hij Ha Hb. induction Hss as [|c l Hss' IH Hf]; intros i j Hij Ha Hb; [done|].
    destruct j as [|j]; [lia|]. simpl in Hb. destruct i as [|i]; simpl in Ha; [|apply (IH i j); (done || lia)]. simplify_eq.
    by apply (Forall_lookup_1 _ _ _ _ Hf Hb). }
  split_and!; [done| |done]. by apply (cmp_lt_le_trans cmp a.2 b.1).
Qed.
Context (k : bytes) (Hk : row_ready s k).
(** The number of pages before the key. *)
Lemma pages_before : ∃ lo, (lo <= N)%nat ∧ ∀ n mm, mms !! n = Some mm → cmp mm.2 k = -1 ↔ (n < lo)%nat.
Proof.
  rewrite <- mms_length. apply (prefix_split (λ mm, cmp mm.2 k = -1)). intros i j a b Hij Ha Hb E.
  destruct (max_lt i j a b Hij Ha Hb) as (_ & E2 & _). apply (cmp_le_lt_trans cmp _ b.2); [lia|done].
Qed.
Lemma route_ok lo : (0 < N)%nat → (∀ n mm, mms !! n = Some mm → cmp mm.2 k = -1 ↔ (n < lo)%nat) → (lo <= N)%nat →
  sd_indexiter_route s k x = Some (Z.of_nat (lo `min` (N - 1)), x).
Proof.
  intros HN Hlo HloN. remember (lo `min` (N - 1))%nat as t eqn:Et. unfold sd_indexiter_route, cbind at 1. rewrite (index_h_run _ _ _ _ Hx).
  pose proof (count_int (-1)) as E1. pose proof (count_int 0) as E0. rewrite !Z.add_0_r in E0.
  change (x_count h - 1) with (x_count h + -1). rewrite E1, E0 by lia. rewrite (ir_count _ _ _ _ Hx), Nat2Z.id.
  assert (∀ fuel n (b e : nat), (e - b <= n)%nat → (n < fuel)%nat → (b <= t <= e)%nat → (e < N)%nat →
    cloop fuel (route_turn s k) (Z.of_nat b, Z.of_nat e) x = Some (Z.of_nat t, x)) as Hloop.
  { intros fuel. induction fuel as [|fuel IH]; intros n b e Hn Hf Ht He; [lia|]. rewrite cloop_S. cbn [route_turn].
    destruct (Z.eqb_spec (Z.of_nat b) (Z.of_nat e)); [unfold cret; do 2 f_equal; lia|].
    assert (Z.of_nat b + Z.quot (Z.of_nat e - Z.of_nat b) 2 = Z.of_nat (b + (e - b) / 2)) as ->.
    { rewrite Z.quot_div_nonneg by lia. rewrite Nat2Z.inj_add, Nat2Z.inj_div, Nat2Z.inj_sub by lia. done. }
    assert ((e - b) / 2 < e - b)%nat by (apply Nat.div_lt; lia). remember (b + (e - b) / 2)%nat as m eqn:Em.
    assert (b <= m < e)%nat by lia. clear Em.
    destruct (lookup_lt_is_Some_2 ps m) as [p Hp]; [lia|]. destruct (lookup_lt_is_Some_2 mms m) as [mm Hmm]; [rewrite mms_length; lia|].
    unfold cbind at 1. rewrite (indexpage_run _ _ _ _ Hx) by lia. unfold cbind at 1. rewrite (rd_indexpage_run _ _ _ _ Hx _ _ Hp).
    unfold cbind at 1. rewrite (proj2 (cmp_run _ _ _ _ Hx s Hs Hready m p mm k Hp Hmm Hk)). unfold cret. pose proof (Hlo m mm Hmm) as Hm.
    pose proof (cmp_range (cmp:=scheme_cmp s) mm.2 k) as Hr. destruct (Z.ltb_spec (cmp mm.2 k) 0).
    - assert (m < lo)%nat by (apply Hm; lia). replace (Z.of_nat m + 1) with (Z.of_nat (S m)) by lia. apply (IH (n - 1)%nat); lia.
    - assert (¬ (m < lo))%nat by (rewrite <- Hm; lia). apply (IH (n - 1)%nat); lia. }
  unfold cbind. specialize (Hloop (S N) N 0%nat (N - 1)%nat). replace (Z.of_nat (N - 1)) with (Z.of_nat N + -1) in Hloop by lia. change (Z.of_nat 0) with 0 in Hloop.
  rewrite Hloop by lia. unfold cret. rewrite Z.geb_leb. destruct (Z.leb_spec (Z.of_nat N) (Z.of_nat t)); [lia|done].
Qed.
(** ** Opening *)

(** The only page of a node that was just made holds nothing. *)
Definition bootstrap (h : sdindexheader) : bool := Z.eqb (x_count h) 1 && (Z.eqb (x_lsnmin h) UINT64_MAX && Z.eqb (x_lsnmax h) 0).
Definition open_at (o : ssorder) (key : option bytes) (n : nat) (pos : Z) : sdindexiter :=
  mk_indexiter (if decide (n < N)%nat then Some (entry_at n) else None) pos o key.
Lemma first_pos lo : (0 < N)%nat → (∀ n mm, mms !! n = Some mm → cmp mm.2 k = -1 ↔ (n < lo)%nat) → (lo <= N)%nat →
  (if Z.gtb (x_count h) 1 then sd_indexiter_route s k else cret 0) x = Some (Z.of_nat (lo `min` (N - 1)), x).
Proof.
  intros HN Hlo HloN. rewrite Z.gtb_ltb. pose proof (ir_count _ _ _ _ Hx). destruct (Z.ltb_spec 1 (x_count h)); [by apply route_ok|].
  unfold cret. do 2 f_equal. lia.
Qed.
(** From where the pages on the way up are visited. *)
Definition up_from (o : ssorder) (n : nat) : Prop := ∀ i mm, mms !! i = Some mm → visits o (cmp (edge o mm) k) = true ↔ (n <= i)%nat.
Definition down_to (o : ssorder) (n : nat) : Prop := ∀ i mm, mms !! i = Some mm → visits o (cmp (edge o mm) k) = true ↔ (i < n)%nat.

Lemma up_from_spec lo o mm : (o = SS_GT ∨ o = SS_GTE) → (∀ n mm, mms !! n = Some mm → cmp mm.2 k = -1 ↔ (n < lo)%nat) → mms !! lo = Some mm →
  up_from o (if Z.eqb (cmp mm.2 k) 0 && bool_decide (o = SS_GT) then S lo else lo).
Proof.
  intros Ho Hlo Hm i ni Hi. pose proof (Hlo i ni Hi) as H1. pose proof (cmp_range (cmp:=scheme_cmp s) ni.2 k) as R1.
  pose proof (Hlo lo mm Hm) as H2. pose proof (cmp_range (cmp:=scheme_cmp s) mm.2 k) as R2.
  assert (i = lo → cmp ni.2 k = cmp mm.2 k) as Heq by (intros ->; by simplify_eq).
  assert ((lo < i)%nat → cmp ni.2 k = 1) as Hgt.
  { intros Hl. destruct (max_lt lo i mm ni Hl Hm Hi) as (_ & E & _). pose proof (cmp_opp (cmp:=scheme_cmp s) mm.2 ni.2).
    pose proof (cmp_opp (cmp:=scheme_cmp s) k ni.2). pose proof (cmp_opp (cmp:=scheme_cmp s) k mm.2).
    enough (cmp k ni.2 = -1) by lia. apply (cmp_le_lt_trans cmp _ mm.2); lia. }
  unfold edge. destruct Ho as [-> | ->]; cbn [downward visits]; rewrite ?Z.gtb_ltb, ?Z.geb_leb, ?Z.ltb_lt, ?Z.leb_le.
  - rewrite bool_decide_true, andb_true_r by done. destruct (Z.eqb_spec (cmp mm.2 k) 0); destruct (Nat.lt_total i lo) as [?|[?|?]]; lia.
  - rewrite bool_decide_false, andb_false_r by done. destruct (Nat.lt_total i lo) as [?|[?|?]]; lia.
Qed.
Lemma down_to_spec lo o mm : (o = SS_LT ∨ o = SS_LTE) → (∀ n mm, mms !! n = Some mm → cmp mm.2 k = -1 ↔ (n < lo)%nat) →
  mms !! (lo `min` (N - 1))%nat = Some mm → (0 < N)%nat → (lo <= N)%nat →
  down_to o (if Z.eqb (cmp mm.1 k) 1 || (Z.eqb (cmp mm.1 k) 0 && bool_decide (o = SS_LT)) then lo `min` (N - 1) else S (lo `min` (N - 1))).
Proof.
  intros Ho Hlo Hm HN HloN. remember (lo `min` (N - 1))%nat as t eqn:Et. intros i ni Hi.
  assert (i < N)%nat by (rewrite <- mms_length; by eapply lookup_lt_Some).
  pose proof (cmp_range (cmp:=scheme_cmp s) ni.1 k) as R1. pose proof (cmp_range (cmp:=scheme_cmp s) mm.1 k) as R2.
  assert (i = t → cmp ni.1 k = cmp mm.1 k) as Heq by (intros ->; by simplify_eq).
  assert ((i < t)%nat → cmp ni.1 k = -1) as Hlt.
  { intros Hl. apply (cmp_le_lt_trans cmp _ ni.2); [exact (Forall_lookup_1 _ _ _ _ (proj1 Hsorted) Hi)|]. apply (Hlo i ni Hi). lia. }
  assert ((t < i)%nat → cmp ni.1 k = 1) as Hgt.
  { intros Hl. destruct (max_lt t i mm ni Hl Hm Hi) as (E & _ & _). assert (t = lo) by lia. pose proof (Hlo t mm Hm).
    pose proof (cmp_opp (cmp:=scheme_cmp s) k ni.1). pose proof (cmp_opp (cmp:=scheme_cmp s) k mm.2). pose proof (cmp_range (cmp:=scheme_cmp s) mm.2 k).
    enough (cmp k ni.1 = -1) by lia. apply (cmp_le_lt_trans cmp _ mm.2); lia. }
  unfold edge. destruct Ho as [-> | ->]; cbn [downward visits]; rewrite ?Z.ltb_lt, ?Z.leb_le.
  - rewrite bool_decide_true, andb_true_r by done. destruct (Z.eqb_spec (cmp mm.1 k) 1), (Z.eqb_spec (cmp mm.1 k) 0); cbn [orb]; destruct (Nat.lt_total i t) as [?|[?|?]]; lia.
  - rewrite bool_decide_false, andb_false_r, orb_false_r by done. destruct (Z.eqb_spec (cmp mm.1 k) 1); destruct (Nat.lt_total i t) as [?|[?|?]]; lia.
Qed.

Lemma open_up o : (o = SS_GT ∨ o = SS_GTE) → (0 < N)%nat → bootstrap h = false →
  ∃ n, (n <= N)%nat ∧ up_from o n ∧ sd_indexiter_open s o (Some k) x = Some (open_at o (Some k) n (Z.of_nat n), x).
Proof.
  intros Ho HN Hb. destruct pages_before as (lo & HloN & Hlo). set (t := (lo `min` (N - 1))%nat).
  destruct (lookup_lt_is_Some_2 ps t) as [p Hp]; [lia|]. destruct (lookup_lt_is_Some_2 mms t) as [mm Hm]; [rewrite mms_length; lia|].
  set (n := if Z.eqb (cmp mm.2 k) (-1) || (Z.eqb (cmp mm.2 k) 0 && bool_decide (o = SS_GT)) then S t else t).
  assert (up_from o n) as Hup.
  { destruct (decide (lo = N)) as [->|Hne].
    - assert (cmp mm.2 k = -1) as E by (apply (Hlo t mm Hm); lia). unfold n. rewrite E. cbn [Z.eqb Pos.eqb orb]. intros i ni Hi.
      assert (i < N)%nat by (rewrite <- mms_length; by eapply lookup_lt_Some). unfold edge.
      assert (cmp ni.2 k = -1) as Ei by (by apply (Hlo i ni Hi)). destruct Ho as [-> | ->]; cbn [downward]; rewrite Ei; cbn; (split; [done|lia]).
    - assert (t = lo) as Et by lia. assert (cmp mm.2 k ≠ -1) by (rewrite (Hlo t mm Hm); lia). unfold n.
      destruct (Z.eqb_spec (cmp mm.2 k) (-1)); [done|]. cbn [orb]. rewrite Et in *. by apply up_from_spec. }
  exists n. assert (n <= N)%nat by (unfold n; case_match; lia). split_and!; [done|done|].
  unfold sd_indexiter_open, cbind at 1. rewrite (index_h_run _ _ _ _ Hx). fold (bootstrap h). rewrite Hb. unfold cbind at 1. rewrite (first_pos lo) by done. fold t.
  unfold cbind at 1. rewrite (indexpage_run _ _ _ _ Hx) by lia. unfold cbind at 1. rewrite (rd_indexpage_run _ _ _ _ Hx _ _ Hp).
  assert (∀ P Q : cmd sdindex Z, (match o with SS_LT | SS_LTE => P | SS_GT | SS_GTE => Q | _ => cfail end) = Q) as -> by (intros; by destruct Ho as [-> | ->]).
  unfold cbind at 1 2. rewrite (proj2 (cmp_run _ _ _ _ Hx s Hs Hready t p mm k Hp Hm Hk)). unfold cret at 1.
  assert ((if Z.eqb (cmp mm.2 k) (-1) || Z.eqb (cmp mm.2 k) 0 && bool_decide (o = SS_GT) then Z.of_nat t + 1 else Z.of_nat t) = Z.of_nat n) as ->
    by (unfold n; case_match; lia).
  destruct (Z.eqb_spec (Z.of_nat n) (-1)); [lia|]. cbn [orb]. pose proof (count_int 0) as Ec. rewrite !Z.add_0_r in Ec. rewrite Ec by lia. rewrite Z.geb_leb. unfold open_at.
  destruct (Z.leb_spec (Z.of_nat N) (Z.of_nat n)); [by rewrite decide_False by lia|]. rewrite decide_True by lia.
  unfold cbind. by rewrite (indexpage_run _ _ _ _ Hx) by lia.
Qed.
Lemma open_down o : (o = SS_LT ∨ o = SS_LTE) → (0 < N)%nat → bootstrap h = false →
  ∃ n i, (n <= N)%nat ∧ down_to o n ∧ sd_indexiter_open s o (Some k) x = Some (i, x) ∧ ii_cmp i = o ∧ ii_pos i = Z.of_nat n - 1 ∧
    ii_v i = match n with O => None | S m => Some (entry_at m) end.
Proof.
  intros Ho HN Hb. destruct pages_before as (lo & HloN & Hlo). set (t := (lo `min` (N - 1))%nat).
  destruct (lookup_lt_is_Some_2 ps t) as [p Hp]; [lia|]. destruct (lookup_lt_is_Some_2 mms t) as [mm Hm]; [rewrite mms_length; lia|].
  pose proof (down_to_spec lo o mm Ho Hlo Hm HN HloN) as Hd. fold t in Hd.
  set (n := if Z.eqb (cmp mm.1 k) 1 || (Z.eqb (cmp mm.1 k) 0 && bool_decide (o = SS_LT)) then t else S t) in *.
  exists n. assert (n <= N)%nat by (unfold n; case_match; lia).
  unfold sd_indexiter_open, cbind at 1. rewrite (index_h_run _ _ _ _ Hx). fold (bootstrap h). rewrite Hb. unfold cbind at 1. rewrite (first_pos lo) by done. fold t.
  unfold cbind at 1. rewrite (indexpage_run _ _ _ _ Hx) by lia. unfold cbind at 1. rewrite (rd_indexpage_run _ _ _ _ Hx _ _ Hp).
  assert (∀ P Q : cmd sdindex Z, (match o with SS_LT | SS_LTE => P | SS_GT | SS_GTE => Q | _ => cfail end) = P) as -> by (intros; by destruct Ho as [-> | ->]).
  unfold cbind at 1 2. rewrite (proj1 (cmp_run _ _ _ _ Hx s Hs Hready t p mm k Hp Hm Hk)). unfold cret at 1.
  assert ((if Z.eqb (cmp mm.1 k) 1 || Z.eqb (cmp mm.1 k) 0 && bool_decide (o = SS_LT) then Z.of_nat t - 1 else Z.of_nat t) = Z.of_nat n - 1) as ->
    by (unfold n; case_match; lia).
  pose proof (count_int 0) as Ec. rewrite !Z.add_0_r in Ec. rewrite Ec by lia. rewrite Z.geb_leb.
  destruct n as [|n]; [eexists; split_and!; done|]. destruct (Z.eqb_spec (Z.of_nat (S n) - 1) (-1)); [lia|]. cbn [orb].
  destruct (Z.leb_spec (Z.of_nat N) (Z.of_nat (S n) - 1)); [lia|]. replace (Z.of_nat (S n) - 1) with (Z.of_nat n) by lia.
  unfold cbind. rewrite (indexpage_run _ _ _ _ Hx) by lia. eexists; split_and!; done.
Qed.
End walk.

Lemma walk_order_cases o : walk_order o = true → o = SS_LT ∨ o = SS_LTE ∨ o = SS_GT ∨ o = SS_GTE.
Proof. destruct o; auto; done. Qed.
Lemma fst_zip_drop {A B} (l : list A) (l' : list B) n : length l = length l' → fst <$> drop n (zip l l') = drop n l.
Proof. intros E. rewrite fmap_drop, fst_zip by lia. done. Qed.
Lemma fst_zip_take {A B} (l : list A) (l' : list B) n : length l = length l' → fst <$> take n (zip l l') = take n l.
Proof. intros E. rewrite fmap_take, fst_zip by lia. done. Qed.
Lemma lookup_zip_snd {A B} (l : list A) (l' : list B) i pm : zip l l' !! i = Some pm → l' !! i = Some pm.2.
Proof. intros H. apply lookup_zip_with_Some in H as (a & b & -> & _ & E). done. Qed.

Section pages.
Context (x : sdindex) (h : sdindexheader) (ps : list sdindexpage) (mms : list (bytes * bytes)) (Hx : index_rep x h ps mms).
Context (s : srscheme) (Hs : own_scheme s) (Hready : Forall (λ mm, row_ready s mm.1 ∧ row_ready s mm.2) mms).
Context (Hsorted : pages_sorted (scheme_cmp s) mms).

Lemma indexiter_key o k fuel : row_ready s k → walk_order o = true → (0 < length ps)%nat → bootstrap h = false → (length ps < fuel)%nat →
  (let! i := sd_indexiter_open s o (Some k) in index_walk fuel i) x = Some (seek_pages (scheme_cmp s) o (Some k) (zip ps mms), x).
Proof.
  intros Hk Ho%walk_order_cases HN Hb Hf. pose proof (mms_length _ _ _ _ Hx) as HL. symmetry in HL. unfold cbind, seek_pages.
  destruct Ho as [Ho|[Ho|[Ho|Ho]]].
  1, 2: destruct (open_down x h ps mms Hx s Hs Hready Hsorted k Hk o) as (n & i & Hn & Hd & -> & H1 & H2 & H3); [tauto|done|done|];
    rewrite (down_walk x h ps mms Hx o n) by (tauto || lia); rewrite (filter_take _ _ n) by (intros j pm Hj; exact (Hd j _ (lookup_zip_snd _ _ _ _ Hj)));
    rewrite Ho; cbn [downward]; rewrite fmap_reverse, fst_zip_take by done; done.
  1, 2: destruct (open_up x h ps mms Hx s Hs Hready Hsorted k Hk o) as (n & Hn & Hd & ->); [tauto|done|done|];
    rewrite (up_walk x h ps mms Hx o (length ps - n) ltac:(tauto) n) by (done || lia); rewrite (filter_drop _ _ n) by (intros j pm Hj; exact (Hd j _ (lookup_zip_snd _ _ _ _ Hj)));
    rewrite Ho; cbn [downward]; rewrite fst_zip_drop by done; done.
Qed.
Lemma indexiter_all o fuel : walk_order o = true → (0 < length ps)%nat → bootstrap h = false → (length ps < fuel)%nat →
  (let! i := sd_indexiter_open s o None in index_walk fuel i) x = Some (seek_pages (scheme_cmp s) o None (zip ps mms), x).
Proof.
  intros Ho%walk_order_cases HN Hb Hf. pose proof (mms_length _ _ _ _ Hx) as HL. unfold cbind at 1, seek_pages, sd_indexiter_open.
  unfold cbind at 1. rewrite (index_h_run _ _ _ _ Hx). fold (bootstrap h). rewrite Hb. pose proof (count_int _ _ _ _ Hx (-1)) as Ec.
  change (x_count h - 1) with (x_count h + -1). rewrite Ec by lia. replace (Z.of_nat (length ps) + -1) with (Z.of_nat (length ps - 1)) by lia.
  pose proof (indexpage_run _ _ _ _ Hx 0 HN) as E0. change (Z.of_nat 0) with 0 in E0.
  destruct Ho as [-> | [-> | [-> | ->]]]; cbn [downward]; unfold cbind, cret; rewrite ?E0, ?(indexpage_run _ _ _ _ Hx (length ps - 1)) by lia.
  1: rewrite (down_walk x h ps mms Hx SS_LT (length ps) (or_introl eq_refl)) by (done || (cbn; lia) || (cbn [ii_v ii_at]; destruct (length ps) as [|n] eqn:En; [lia|]; by rewrite Nat.sub_succ, Nat.sub_0_r)).
  2: rewrite (down_walk x h ps mms Hx SS_LTE (length ps) (or_intror eq_refl)) by (done || (cbn; lia) || (cbn [ii_v ii_at]; destruct (length ps) as [|n] eqn:En; [lia|]; by rewrite Nat.sub_succ, Nat.sub_0_r)).
  1, 2: rewrite fmap_reverse, fst_zip, take_ge by lia; done.
  1: rewrite (up_walk x h ps mms Hx SS_GT (length ps) (or_introl eq_refl) 0%nat) by (done || lia || (cbn; by rewrite decide_True by lia)).
  2: rewrite (up_walk x h ps mms Hx SS_GTE (length ps) (or_intror eq_refl) 0%nat) by (done || lia || (cbn; by rewrite decide_True by lia)).
  1, 2: rewrite fst_zip by lia; done.
Qed.

(** The first page of a walk from a key that lies in a page is that page. *)
Lemma seek_first n p mm k : ps !! n = Some p → mms !! n = Some mm → scheme_cmp s mm.1 k <= 0 → 0 <= scheme_cmp s mm.2 k →
  head (seek_pages (scheme_cmp s) SS_GTE (Some k) (zip ps mms)) = Some p ∧ head (seek_pages (scheme_cmp s) SS_LTE (Some k) (zip ps mms)) = Some p.
Proof.
  intros Hp Hm H1 H2. pose proof (mms_length _ _ _ _ Hx) as HL. unfold seek_pages. cbn [downward]. assert (zip ps mms !! n = Some (p, mm)) as Hz by (apply lookup_zip_with_Some; eauto).
  pose proof (cmp_opp (cmp:=scheme_cmp s) k mm.2) as Eo. assert (∀ i ni, mms !! i = Some ni → (i < n)%nat → scheme_cmp s ni.2 k = -1) as Hbefore.
  { intros i ni Hi Hlt. destruct (max_lt mms s Hsorted i n ni mm Hlt Hi Hm) as (E & _ & _). apply (cmp_lt_le_trans (scheme_cmp s) _ mm.1); [done|lia]. }
  assert (∀ i ni, mms !! i = Some ni → (n < i)%nat → scheme_cmp s ni.1 k = 1) as Hafter.
  { intros i ni Hi Hlt. destruct (max_lt mms s Hsorted n i mm ni Hlt Hm Hi) as (E & _ & _). pose proof (cmp_opp (cmp:=scheme_cmp s) k ni.1).
    enough (scheme_cmp s k ni.1 = -1) by lia. apply (cmp_le_lt_trans (scheme_cmp s) _ mm.2); [lia|done]. }
  split.
  - rewrite (filter_drop _ _ n).
    + by rewrite (drop_S _ _ _ Hz), fmap_cons.
    + intros i pm Hi. pose proof (lookup_zip_snd _ _ _ _ Hi) as Hi'. cbn [edge downward visits]. rewrite Z.geb_leb, Z.leb_le. destruct (Nat.lt_total i n) as [Hl|[->|Hl]].
      * rewrite (Hbefore i _ Hi' Hl). lia. * simplify_eq. cbn [fst snd]. lia.
      * destruct (max_lt mms s Hsorted n i mm pm.2 Hl Hm Hi') as (_ & _ & E). pose proof (Hafter i _ Hi' Hl) as Ea. split; [lia|]. intros _.
        pose proof (cmp_opp (cmp:=scheme_cmp s) pm.2.1 k). pose proof (cmp_opp (cmp:=scheme_cmp s) pm.2.2 k). enough (scheme_cmp s k pm.2.2 <= 0) by lia. apply (cmp_le_trans (cmp:=scheme_cmp s) _ pm.2.1); lia.
  - rewrite (filter_take _ _ (S n)).
    + by rewrite (take_S_r _ _ _ Hz), reverse_app, fmap_app.
    + intros i pm Hi. pose proof (lookup_zip_snd _ _ _ _ Hi) as Hi'. cbn [edge downward visits]. rewrite Z.leb_le. destruct (Nat.lt_total i n) as [Hl|[->|Hl]].
      * split; [lia|]. intros _. pose proof (Hbefore i _ Hi' Hl) as Eb. pose proof (Forall_lookup_1 _ _ _ _ (proj1 Hsorted) Hi') as E. cbn beta in E. apply (cmp_le_trans (cmp:=scheme_cmp s) _ pm.2.2); lia.
      * simplify_eq. cbn [fst snd]. lia. * rewrite (Hafter i _ Hi' Hl). lia.
Qed.

(** ** The positions a walk visits *)

(** From where it stands the iterator goes on to the pages at these positions. *)
Fixpoint walks (i : sdindexiter) (todo : list nat) : Prop :=
  ∃ i', sd_indexiter_next i x = Some (i', x) ∧
    match todo with
    | [] => sd_indexiter_of i' = None
    | k :: todo => sd_indexiter_of i' = Some (entry_at k) ∧ walks i' todo
    end.
Definition stands_at (i : sdindexiter) (todo : list nat) : Prop :=
  match todo with [] => sd_indexiter_of i = None | k :: todo => sd_indexiter_of i = Some (entry_at k) ∧ walks i todo end.
Lemma up_walks o : (o = SS_GT ∨ o = SS_GTE) → ∀ n pos i, (pos + S n = length ps)%nat → ii_cmp i = o → ii_pos i = Z.of_nat pos → walks i (seq (S pos) n).
Proof.
  intros Ho. induction n as [|n IH]; intros pos i Hn Hc Hp; destruct (up_next x h ps mms Hx o pos i Ho Hc Hp) as (i' & E & H1 & H2 & H3); cbn [seq walks]; exists i'; (split; [exact E|]); unfold sd_indexiter_of; rewrite H3.
  - by rewrite decide_False by lia.
  - rewrite decide_True by lia. split; [done|]. apply IH; [lia|done|done].
Qed.
Lemma down_walks o : (o = SS_LT ∨ o = SS_LTE) → ∀ n i, (n < length ps)%nat → ii_cmp i = o → ii_pos i = Z.of_nat n → walks i (reverse (seq 0 n)).
Proof.
  intros Ho. induction n as [|n IH]; intros i Hn Hc Hp; destruct (down_next x h ps mms Hx o _ i Ho Hn Hc Hp) as (i' & E & H1 & H2 & H3).
  - cbn. exists i'. split; [exact E|]. by unfold sd_indexiter_of; rewrite H3.
  - rewrite seq_S, reverse_app. cbn. exists i'. split; [exact E|]. unfold sd_indexiter_of. rewrite H3. split; [done|]. apply IH; [lia|done|lia].
Qed.
(** The positions of the pages with keys on the side of the key. *)
Definition positions (o : ssorder) (key : option bytes) (todo : list nat) : Prop := ∃ n, (n <= length ps)%nat ∧
  if downward o then todo = reverse (seq 0 n) ∧ (key = None → n = length ps) ∧ ∀ k, key = Some k → ∀ i mm, mms !! i = Some mm → visits o (scheme_cmp s mm.1 k) = true ↔ (i < n)%nat
  else todo = seq n (length ps - n) ∧ (key = None → n = 0%nat) ∧ ∀ k, key = Some k → ∀ i mm, mms !! i = Some mm → visits o (scheme_cmp s mm.2 k) = true ↔ (n <= i)%nat.
Lemma down_stands o n i : (o = SS_LT ∨ o = SS_LTE) → (n <= length ps)%nat → ii_cmp i = o → ii_pos i = Z.of_nat n - 1 → ii_v i = match n with O => None | S m => Some (entry_at m) end →
  stands_at i (reverse (seq 0 n)).
Proof.
  intros Ho Hn Hc Hp Hv. destruct n as [|n]; [done|]. rewrite seq_S, reverse_app. cbn. split; [done|]. apply (down_walks o Ho); [lia|done|lia].
Qed.
Lemma up_stands o n i : (o = SS_GT ∨ o = SS_GTE) → (n <= length ps)%nat → ii_cmp i = o → ii_pos i = Z.of_nat n → ii_v i = (if decide (n < length ps)%nat then Some (entry_at n) else None) →
  stands_at i (seq n (length ps - n)).
Proof.
  intros Ho Hn Hc Hp Hv. destruct (length ps - n)%nat as [|m] eqn:Em; cbn; unfold sd_indexiter_of; rewrite Hv; [by rewrite decide_False by lia|]. rewrite decide_True by lia. split; [done|].
  apply (up_walks o Ho); [lia|done|done].
Qed.
Lemma open_positions o key : walk_order o = true → (∀ k, key = Some k → row_ready s k) → (0 < length ps)%nat → bootstrap h = false →
  ∃ i todo, sd_indexiter_open s o key x = Some (i, x) ∧ positions o key todo ∧ stands_at i todo.
Proof.
  intros Ho%walk_order_cases Hk HN Hb. assert ((o = SS_LT ∨ o = SS_LTE) ∨ (o = SS_GT ∨ o = SS_GTE)) as [Hd|Hu] by tauto; destruct key as [k|].
  - destruct (open_down x h ps mms Hx s Hs Hready Hsorted k (Hk k eq_refl) o Hd HN Hb) as (n & i & Hn & Hdt & E & H1 & H2 & H3).
    exists i, (reverse (seq 0 n)). split; [exact E|]. split; [|by apply (down_stands o)]. exists n. split; [done|].
    assert (downward o = true) as Edw by (by destruct Hd as [-> | ->]). rewrite Edw. split_and!; [done|done|]. intros k' [= <-] j mm Hj. specialize (Hdt j mm Hj). unfold edge in Hdt. by rewrite Edw in Hdt.
  - unfold sd_indexiter_open, cbind at 1. rewrite (index_h_run _ _ _ _ Hx). fold (bootstrap h). rewrite Hb. pose proof (count_int _ _ _ _ Hx (-1)) as Ec.
    change (x_count h - 1) with (x_count h + -1). rewrite Ec by lia. replace (Z.of_nat (length ps) + -1) with (Z.of_nat (length ps - 1)) by lia.
    assert ((match o with SS_LT | SS_LTE => cret (Z.of_nat (length ps - 1)) | SS_GT | SS_GTE => cret 0 | _ => cfail end) x = Some (Z.of_nat (length ps - 1), x)) as Em by (by destruct Hd as [-> | ->]).
    unfold cbind at 1. rewrite Em. unfold cbind. rewrite (indexpage_run _ _ _ _ Hx) by lia. eexists _, (reverse (seq 0 (length ps))). split; [done|]. split.
    + exists (length ps). split; [done|]. assert (downward o = true) as -> by (by destruct Hd as [-> | ->]). by split_and!.
    + apply (down_stands o); [done|done|done|cbn; lia|]. cbn. destruct (length ps); [lia|]. by rewrite Nat.sub_succ, Nat.sub_0_r.
  - destruct (open_up x h ps mms Hx s Hs Hready Hsorted k (Hk k eq_refl) o Hu HN Hb) as (n & Hn & Hup & E).
    eexists _, (seq n (length ps - n)). split; [exact E|]. split; [|by apply (up_stands o)]. exists n. split; [done|].
    assert (downward o = false) as Edw by (by destruct Hu as [-> | ->]). rewrite Edw. split_and!; [done|done|]. intros k' [= <-] j mm Hj. specialize (Hup j mm Hj). unfold edge in Hup. by rewrite Edw in Hup.
  - unfold sd_indexiter_open, cbind at 1. rewrite (index_h_run _ _ _ _ Hx). fold (bootstrap h). rewrite Hb. pose proof (indexpage_run _ _ _ _ Hx 0 HN) as E0. change (Z.of_nat 0) with 0 in E0.
    assert (∀ z, (match o with SS_LT | SS_LTE => cret z | SS_GT | SS_GTE => cret 0 | _ => cfail end) x = Some (0, x)) as Em by (by destruct Hu as [-> | ->]).
    unfold cbind at 1. rewrite Em. unfold cbind. rewrite E0. eexists _, (seq 0 (length ps - 0)). split; [done|]. split.
    + exists 0%nat. split; [lia|]. assert (downward o = false) as -> by (by destruct Hu as [-> | ->]). by split_and!.
    + apply (up_stands o); [done|lia|done|done|]. cbn. by rewrite decide_True by lia.
Qed.
End pages.

(** C21: opened at any key or at an end and in any direction, the iterator over the index ends
    without a fault and gives exactly the pages that have keys on that side, from the key on
    (the pages whose largest key is not before it on the way up, whose smallest key is not
    behind it on the way down), and none of a node that was just made; a key inside a page is
    routed to that page by the binary search. *)
Theorem sd_indexiter_pages x h ps mms s o key fuel : index_rep x h ps mms → own_scheme s → Forall (λ mm, row_ready s mm.1 ∧ row_ready s mm.2) mms →
  pages_sorted (scheme_cmp s) mms → walk_order o = true → (∀ k, key = Some k → row_ready s k) → (0 < length ps < fuel)%nat →
  (let! i := sd_indexiter_open s o key in index_walk fuel i) x = Some (if bootstrap h then [] else seek_pages (scheme_cmp s) o key (zip ps mms), x) ∧
  ∀ n p mm k, ps !! n = Some p → mms !! n = Some mm → scheme_cmp s mm.1 k <= 0 → 0 <= scheme_cmp s mm.2 k →
    head (seek_pages (scheme_cmp s) SS_GTE (Some k) (zip ps mms)) = Some p ∧ head (seek_pages (scheme_cmp s) SS_LTE (Some k) (zip ps mms)) = Some p.
Proof.
  intros Hx Hs Hr Hsorted Ho Hk [HN Hf]. split; [|intros; by eapply (seek_first x h ps mms Hx s)]. destruct (bootstrap h) eqn:Hb.
  - unfold cbind at 1, sd_indexiter_open, cbind at 1. rewrite (index_h_run _ _ _ _ Hx). fold (bootstrap h). rewrite Hb. unfold cret at 1. destruct fuel as [|fuel]; [lia|]. done.
  - destruct key as [k|]; [|by apply (indexiter_all x h ps mms Hx)]. apply (indexiter_key x h ps mms Hx); try done. by apply Hk.
Qed.

(** ** Witness: two pages, with the keys 5 to 7 and 9 to 11 *)
Definition demo_key (k : Z) : bytes := row [le_enc 4 k] [].
Definition demo_mms : list (bytes * bytes) := [(demo_key 5, demo_key 7); (demo_key 9, demo_key 11)].
Definition demo_idxpages : list sdindexpage := [mk_idxpage 0 0 100 100 10 10 3 9; mk_idxpage 100 20 90 90 10 10 1 4].
Definition demo_idxheader : sdindexheader := mk_idxheader 0 sr_version (sd_idinit 1 0 0) 0 120 0 2 5 190 190 0 1 9 0 UINT64_MAX 0.
Definition demo_idxmem : bytes := idxheader_enc demo_idxheader ++ concat (idxpage_enc <$> demo_idxpages) ++ concat ((λ mm, mm.1 ++ mm.2) <$> demo_mms).
Definition demo_index : sdindex := mk_sdindex (mk_buf None SHeap demo_idxmem (length demo_idxmem)) ss_bufinit true.
Lemma demo_sdindex_rep : index_rep demo_index demo_idxheader demo_idxpages demo_mms.
Proof.
  split; [done| |by vm_compute|done|done]. exists (concat ((λ mm, mm.1 ++ mm.2) <$> demo_mms)), []. split; [by vm_compute|].
  constructor; [|constructor; [|constructor]]; split_and!; try (by vm_compute).
  - exists [], (demo_key 9 ++ demo_key 11). by vm_compute.
  - exists (demo_key 5 ++ demo_key 7), []. by vm_compute.
Qed.
Lemma demo_key_ready k : row_ready (r_scheme demo_pagesr) (demo_key k).
Proof. constructor; [|constructor]. eexists _, _. split_and!; [reflexivity|reflexivity| |]; [cbv; reflexivity|cbn; lia]. Qed.
Lemma sd_indexiter_pages_witness :
  (let! i := sd_indexiter_open (r_scheme demo_pagesr) SS_GTE (Some (demo_key 8)) in index_walk 3 i) demo_index = Some ([mk_idxpage 100 20 90 90 10 10 1 4], demo_index) ∧
  head (seek_pages (scheme_cmp (r_scheme demo_pagesr)) SS_GTE (Some (demo_key 6)) (zip demo_idxpages demo_mms)) = Some (mk_idxpage 0 0 100 100 10 10 3 9).
Proof.
  destruct (sd_indexiter_pages demo_index demo_idxheader demo_idxpages demo_mms (r_scheme demo_pagesr) SS_GTE (Some (demo_key 8)) 3) as [E Hr].
  - exact demo_sdindex_rep.
  - done.
  - constructor; [|constructor; [|constructor]]; split; apply demo_key_ready.
  - split; [constructor; [|constructor; [|constructor]]; vm_compute; discriminate|]. constructor; [constructor; [constructor|constructor]|]. constructor; [by vm_compute|constructor].
  - reflexivity.
  - intros k [= <-]. apply demo_key_ready.
  - cbn. lia.
  - split; [exact E|]. apply (Hr 0%nat _ (demo_key 5, demo_key 7) (demo_key 6)); vm_compute; (reflexivity || discriminate).
Defined.
