(* ===== verification/SdIndexBuild.v ===== *)
(** Building the index of pages: what its buffers hold after each step, and the complete index. *)
From stdpp Require Import base list sorting sets.
From S2P Require Import Prelude SsOrder Sv SsBytes SsBuf SsFilter SsHt Sf Sr SrScheme SdPage SdPageRep SdPageKv SdBuild SdBuildProofs SdBuildKv SdBuildSpec SdIndex SdIndexIter.
Local Open Scope Z_scope.
Local Open Scope c_scope.

Lemma has_keys_more a b ks : has_keys a ks → has_keys (a ++ b) ks.
Proof.
  intros Hk i k Hi. pose proof (Hk i k Hi) as E. unfold sf_keydata in *.
  assert (∀ off n bs, mem_read off n a = Some bs → mem_read off n (a ++ b) = Some bs) as Hr.
  { intros off n bs [Hm <-]%mem_read_at. by apply mem_at_read, mem_at_more. }
  unfold sf_key, sf_keysize, load_le in *. destruct (mem_read (sizeof_sfref * i) 4 a) as [o|] eqn:E1; [|done]. destruct (mem_read (sizeof_sfref * i + 4) 2 a) as [n|] eqn:E2; [|done].
  rewrite (Hr _ _ _ E1), (Hr _ _ _ E2). by apply Hr.
Qed.
Lemma has_keys_eq data ks ks' : has_keys data ks → has_keys data ks' → length ks = length ks' → ks = ks'.
Proof.
  intros H1 H2 El. apply list_eq. intros i. destruct (ks !! i) as [k|] eqn:E.
  - destruct (lookup_lt_is_Some_2 ks' i) as [k' E']; [apply lookup_lt_Some in E; lia|]. rewrite E'. pose proof (H1 i k E). pose proof (H2 i k' E'). congruence.
  - symmetry. apply lookup_ge_None. apply lookup_ge_None in E. lia.
Qed.
Lemma row_app ks v : row ks v = row ks [] ++ v.
Proof. unfold row. by rewrite app_nil_r, app_assoc. Qed.
Lemma row_blen ks : blen (row ks []) = Z.of_nat (row_size ks).
Proof. unfold blen, row, row_size. rewrite app_nil_r, length_app, refs_length. done. Qed.

Section indexbuild.
Context `{Alloc}.

(** Writing behind the content of a buffer. *)
Lemma at_end_advance {A} T b (m : cmd bytes A) (a : A) new : buf_cap T b → fresh_room b (length new) →
  (∀ old rest, length old = length new → m (old ++ rest) = Some (a, new ++ rest)) →
  ∃ b' b'', at_end m b = Some (a, b') ∧ ss_bufadvance (length new) b' = Some ((), b'') ∧ buf_cap T b'' ∧ content b'' = content b ++ new ∧
    ∀ n, fresh_room b (length new + n) → fresh_room b'' n.
Proof.
  intros [[Hp Hn Hr] Hsz] Hroom Hm. unfold fresh_room, ss_bufunused, ss_bufsize in *.
  destruct (cut_block (drop (b_p b) (b_mem b)) (length new) (length (b_mem b) - b_p b - length new)) as (old & rest & E & Ho & Hrest); [rewrite length_drop; lia|].
  unfold at_end. rewrite E, Hm by done. eexists _, _. split; [done|]. split; [done|].
  assert (length (take (b_p b) (b_mem b)) = b_p b) as Lt by (rewrite length_take; lia). cbn [b_mem b_p b_at b_reserve].
  assert (length (take (b_p b) (b_mem b) ++ new ++ rest) = length (b_mem b)) as Lm by (rewrite !length_app, Lt; lia).
  split_and!.
  - split; [|unfold ss_bufsize; cbn [b_mem]; lia]. split; cbn [b_mem b_p b_at b_reserve]; [lia| |done].
    intros Hnull. rewrite (Hn Hnull) in *. apply length_zero_iff_nil. rewrite Lm. done.
  - unfold content. cbn [b_mem b_p]. rewrite app_assoc, take_app_length' by (rewrite length_app; lia). done.
  - intros n Hn'. rewrite Lm. lia.
Qed.
Context (r : sr).
Abbreviation count := (s_count (r_scheme r)).

(** The parts of the key of a version, which an entry can hold. *)
Definition key_parts (data : bytes) (ks : list bytes) : Prop :=
  has_keys data ks ∧ length ks = count ∧ fits ks ∧ Z.of_nat (row_size ks) < 65536.

Lemma copy_row_ok T x src ks : key_parts src ks → buf_cap T (xv x) → fresh_room (xv x) (row_size ks) →
  ∃ v, copy_row r src (Z.of_nat (row_size ks)) x = Some ((), with_xv v x) ∧ buf_cap T v ∧ content v = content (xv x) ++ row ks [] ∧
    ∀ n, fresh_room (xv x) (row_size ks + n) → fresh_room v n.
Proof.
  intros (Hk & Hc & Hf & Hs) Hcap Hroom. pose proof (row_blen ks) as Er. unfold blen in Er. apply Nat2Z.inj in Er.
  destruct (at_end_advance T (xv x) (sf_keycopy src count) (row_size ks) (row ks []) Hcap) as (v1 & v2 & E1 & E2 & Hcap2 & Hc2 & Hr2).
  - by rewrite Er.
  - intros old rest Ho. rewrite <- Hc. destruct (keycopy_ok src ks old rest Hk Hf) as (_ & E & _); [congruence|]. by rewrite E, row_app.
  - exists v2. rewrite Er in *. unfold copy_row, cbind, on_xv, lift. rewrite E1. unfold cassert. rewrite Z.eqb_refl, Nat2Z.id. cbn [xv with_xv].
    rewrite E2. split_and!; done.
Qed.
Lemma indexadd_raw_ok T x smin smax k1 k2 : 4 * T <= INT_MAX → key_parts smin k1 → key_parts smax k2 → buf_cap T (xv x) →
  blen (content (xv x)) + Z.of_nat (row_size k1) + Z.of_nat (row_size k2) <= T →
  wp (sd_indexadd_raw r smin smax) x (λ res x', (res = None ∧ refused) ∨
    (res = Some (blen (row k1 []), blen (row k2 [])) ∧ ∃ v, x' = with_xv v x ∧ buf_cap T v ∧ content v = content (xv x) ++ row k1 [] ++ row k2 [])).
Proof.
  intros HT H1 H2 Hcap Hlen. pose proof H1 as (Hk1 & Hc1 & Hf1 & Hs1). pose proof H2 as (Hk2 & Hc2 & Hf2 & Hs2).
  destruct (keycopy_ok smin k1 (replicate (row_size k1) 0) [] Hk1 Hf1) as (E1 & _); [apply length_replicate|].
  destruct (keycopy_ok smax k2 (replicate (row_size k2) 0) [] Hk2 Hf2) as (E2 & _); [apply length_replicate|]. rewrite Hc1 in E1. rewrite Hc2 in E2.
  unfold sd_indexadd_raw. apply wp_bind. unfold cread at 1, wp at 1. rewrite E1. apply wp_bind. unfold cread at 1, wp at 1. rewrite E2. cbv zeta.
  rewrite !wrap_id by (unfold in_u; lia). apply wp_bind, wp_lift.
  eapply wp_mono; [apply (ensure_cap T); [done|done|lia|rewrite (used_blen T) by done; lia]|].
  intros rc v [(-> & _ & Hn)|(-> & Hcapv & Hcv & Hroom)]; [by left|]. cbn [Z.eqb].
  rewrite <- Nat2Z.inj_add, Nat2Z.id in Hroom.
  destruct (copy_row_ok T (with_xv v x) smin k1 H1 Hcapv) as (v1 & Ea & Hcap1 & Hcc1 & Hr1); [unfold fresh_room in *; cbn [xv with_xv]; lia|].
  destruct (copy_row_ok T (with_xv v1 x) smax k2 H2 Hcap1) as (v2 & Eb & Hcap2 & Hcc2 & Hr2); [by apply Hr1|].
  unfold wp, cbind. rewrite Ea. change (with_xv v1 (with_xv v x)) with (with_xv v1 x). rewrite Eb. right. rewrite !row_blen. split; [done|].
  exists v2. split_and!; [done|done|]. cbn [xv with_xv] in *. by rewrite Hcc2, Hcc1, Hcv, <- app_assoc.
Qed.

(** * Keys from the page under construction *)

Context (crcf : Z → bytes → Z) (b : sdbuild) (M0 V0 K0 : bytes) (vs : list sv) (ph : sdpageheader) (ds : list sdv) (body keys : bytes).
Context (Hbt : built r crcf b (bd_n b) M0 V0 K0 vs ph ds body keys).

Lemma content_mem (c : ssbuf) l bs off new : content c = l ++ bs → mem_at bs off new → mem_at (b_mem c) (length l + off) new.
Proof.
  intros Hc (l' & r' & -> & <-). exists (l ++ l'), (r' ++ drop (b_p c) (b_mem c)). rewrite length_app. split; [|done].
  rewrite <- (take_drop (b_p c) (b_mem c)) at 1. change (take (b_p c) (b_mem c)) with (content c). by rewrite Hc, <- !app_assoc.
Qed.
Lemma built_ref : ∃ ref, sd_buildref b = Some (ref, b) ∧ f_m ref = blen M0 ∧ f_v ref = blen V0 ∧ f_k ref = blen K0.
Proof.
  destruct (bt_ref _ _ _ _ _ _ _ _ _ _ _ _ Hbt) as (ref & E & Em & _ & Ev & _ & Ek & _). exists ref. unfold sd_buildref, cread. by rewrite E.
Qed.
Lemma from_build_run {A} (m : cmd sdbuild A) a x : m b = Some (a, b) → from_build b m x = Some (a, x).
Proof. intros E. unfold from_build, cread. by rewrite E. Qed.
Lemma build_keys_run x offs ks : Forall2 (λ o k, is_u32 o ∧ mem_at keys (Z.to_nat o) (key_rec k)) offs ks →
  Forall (λ k, blen k < 65536) ks → blen (concat ks) < 2147483648 → ∀ p rest, mem_at (b_mem (bd_v b)) p (concat (leb <$> offs) ++ rest) →
  ∃ fs, build_keys b (length ks) p x = Some ((fs, blen (concat ks)), x) ∧ sfv_data <$> fs = ks ∧ Forall sfv_ok fs.
Proof.
  induction 1 as [|o k offs ks [Ho Hk] _ IH]; intros Hs Ht p rest Hp; [by exists []|]. apply Forall_cons in Hs as [Hks Hs].
  rewrite fmap_cons in Hp. cbn [concat] in Hp, Ht |- *. rewrite <- app_assoc in Hp. rewrite blen_app in Ht |- *. pose proof (blen_pos k). pose proof (blen_pos (concat ks)).
  destruct (IH Hs ltac:(lia) (p + length (leb o))%nat rest) as (fs & E & Hfs & Hok); [by apply mem_at_app in Hp as [_ Hp]|].
  destruct built_ref as (ref & Er & _ & _ & Hfk). cbn [build_keys length]. unfold cbind at 1, cread at 1.
  rewrite (leb_read_at _ _ o _ Hp) by (unfold in_u in *; lia). cbn [fmap option_fmap option_map fst snd]. unfold cbind at 1. rewrite (from_build_run _ _ x Er), Hfk.
  pose proof (content_mem (bd_k b) K0 keys _ _ (bt_k _ _ _ _ _ _ _ _ _ _ _ _ Hbt) Hk) as Hkm. unfold blen at 1. rewrite Nat2Z.id.
  unfold cbind at 1, cread at 1. rewrite (leb_read_at _ _ (blen k) k Hkm) by (unfold in_u in *; lia). cbn [fmap option_fmap option_map fst snd].
  unfold cbind. rewrite E. unfold cret. cbn [fst snd]. apply mem_at_app in Hkm as [_ Hkm]. pose proof (mem_at_length _ _ _ Hkm) as Hlen.
  apply mem_at_read in Hkm. unfold mem_read in Hkm. rewrite decide_True in Hkm by done.
  rewrite (wrap_id 16), swrap_id by (unfold in_u; lia). eexists. split; [unfold blen at 1; rewrite Nat2Z.id; reflexivity|]. split.
  - rewrite fmap_cons, Hfs. f_equal. unfold sfv_data, blen in *. cbn [k_size k_key]. rewrite Nat2Z.id. by injection Hkm.
  - constructor; [|done]. unfold sfv_ok, blen in *. cbn [k_size k_key]. rewrite length_drop. lia.
Qed.
Lemma write_key_ok T x offs ks p rest : 4 * T <= INT_MAX → Forall2 (λ o k, is_u32 o ∧ mem_at keys (Z.to_nat o) (key_rec k)) offs ks →
  length ks = count → Z.of_nat (row_size ks) < 65536 → mem_at (b_mem (bd_v b)) p (concat (leb <$> offs) ++ rest) →
  buf_cap T (xv x) → blen (content (xv x)) + Z.of_nat (row_size ks) <= T →
  wp (write_key r b p) x (λ res x', (res = None ∧ refused) ∨
    (res = Some (blen (row ks [])) ∧ ∃ v, x' = with_xv v x ∧ buf_cap T v ∧ content v = content (xv x) ++ row ks [])).
Proof.
  intros HT HF Hc Hs Hp Hcap Hlen. pose proof (row_blen ks) as Er. unfold blen in Er. apply Nat2Z.inj in Er. unfold row_size in Hs.
  assert (Forall (λ k, blen k < 65536) ks) as Hks.
  { apply Forall_forall. intros k (l & r' & E)%list_elem_of_split. unfold blen. rewrite E, concat_app in Hs. cbn [concat] in Hs. rewrite !length_app in Hs. lia. }
  destruct (build_keys_run x offs ks HF Hks ltac:(unfold blen; lia) p rest Hp) as (fs & E & Hfs & Hok).
  unfold write_key. apply wp_bind. unfold wp at 1. rewrite <- Hc, E. cbn [fst snd]. cbv zeta.
  assert (blen (concat ks) + Z.of_nat (length ks * sizeof_sfref) = Z.of_nat (row_size ks)) as -> by (unfold row_size, blen; lia).
  rewrite wrap_id by (unfold in_u, row_size; lia). apply wp_bind, wp_lift.
  eapply wp_mono; [apply (ensure_cap T); [done|done|lia|rewrite (used_blen T) by done; lia]|].
  intros rc v [(-> & _ & Hn)|(-> & Hcapv & Hcv & Hroom)]; [by left|]. cbn [Z.eqb]. rewrite Nat2Z.id in Hroom. rewrite <- Er in Hroom.
  destruct (at_end_advance T v (sf_write SF_KV fs []) () (row ks []) Hcapv Hroom) as (v1 & v2 & E1 & E2 & Hcap2 & Hc2 & _).
  { intros old more Ho. rewrite write_kv_ext, Hfs; [done|done|]. rewrite Ho, Er. unfold sf_size, row_size. rewrite sum_sizes_concat, Hfs by done.
    rewrite <- Hfs, length_fmap. cbn [length]. lia. }
  rewrite <- Er. unfold wp, cbind, on_xv, lift. cbn [xv with_xv]. rewrite E1, Nat2Z.id. cbn [xv with_xv]. rewrite E2. right. split; [done|].
  exists v2. split_and!; [done|done|]. by rewrite Hc2, Hcv.
Qed.

(** The record of a version: its size, its lsn and what the format keeps of the row. *)
Definition record_tail (v : sv) (tail : bytes) : Prop :=
  match r_fmt_storage r with
  | SF_SRAW => tail = sv_pointer v
  | SF_SKEYVALUE => ∃ ks value offs, kv_parts v ks value ∧ length ks = count ∧ tail = concat (leb <$> offs) ++ value ∧
      Forall2 (λ o k, is_u32 o ∧ mem_at keys (Z.to_nat o) (key_rec k)) offs ks
  end.
Lemma entry_record n d v : ds !! n = Some d → vs !! n = Some v →
  ∃ size tail, is_u64 size ∧ is_u64 (sv_lsn v) ∧ mem_at body (Z.to_nat (d_offset d)) (leb size ++ leb (sv_lsn v) ++ tail) ∧ record_tail v tail.
Proof.
  intros Hd Hv. pose proof (bt_entries _ _ _ _ _ _ _ _ _ _ _ _ Hbt) as HF. unfold page_entries, record_tail in *. destruct (r_fmt_storage r).
  - destruct (Forall2_lookup_lr _ _ _ _ _ _ HF Hd Hv) as (ks & value & offs & Hk & Hc & _ & Hm & Ho).
    exists (blen (concat ks) + blen value), (concat (leb <$> offs) ++ value). split_and!; [|by destruct Hk|done|by exists ks, value, offs].
    pose proof (kv_sizes v ks value Hk) as E. destruct Hk as [_ _ _ Hs]. pose proof (blen_pos (concat ks)). pose proof (blen_pos value). unfold in_u. lia.
  - destruct (Forall2_lookup_lr _ _ _ _ _ _ HF Hd Hv) as (_ & Hm & Hok). exists (sv_size v), (sv_pointer v). split_and!; [by apply sv_size_u64|apply Hok|done|done].
Qed.
Lemma built_header : sd_buildheader b = Some (ph, b).
Proof.
  destruct built_ref as (ref & E & Hm & _). unfold sd_buildheader, cbind, cread. rewrite E, Hm. unfold blen. rewrite Nat2Z.id.
  erewrite header_read; [done| |exact (pr_header _ _ _ _ (bt_page _ _ _ _ _ _ _ _ _ _ _ _ Hbt))].
  rewrite <- (Nat.add_0_r (length M0)). eapply content_mem; [exact (bt_m _ _ _ _ _ _ _ _ _ _ _ _ Hbt)|]. by exists [], (concat (sdv_enc <$> ds)).
Qed.
Lemma built_count : h_count ph = Z.of_nat (length ds) ∧ length ds = length vs.
Proof.
  split; [exact (pr_count _ _ _ _ (bt_page _ _ _ _ _ _ _ _ _ _ _ _ Hbt))|]. exact (entries_length r _ _ _ _ (bt_entries _ _ _ _ _ _ _ _ _ _ _ _ Hbt)).
Qed.
(** Where the reference to a version lies, and the version. *)
Definition ref_place (n : nat) : nat := (length M0 + sizeof_sdpageheader + sizeof_sdv * n)%nat.
Lemma build_key_run n d : ds !! n = Some d → build_key (ref_place n) b = Some ((length V0 + Z.to_nat (d_offset d))%nat, b).
Proof.
  intros Hd. destruct built_ref as (ref & E & _ & Hv & _). unfold build_key, cbind. rewrite E. unfold cread.
  pose proof (bt_page _ _ _ _ _ _ _ _ _ _ _ _ Hbt) as Hp. rewrite (rd_sdv_run _ _ d); [|..|exact (Forall_lookup_1 _ _ _ _ (pr_sdvs _ _ _ _ Hp) Hd)].
  - unfold cret. rewrite Hv. unfold blen. by rewrite Nat2Z.id.
  - unfold ref_place. rewrite <- Nat.add_assoc. eapply content_mem; [exact (bt_m _ _ _ _ _ _ _ _ _ _ _ _ Hbt)|].
    destruct (sdvs_at ds n d Hd) as (l & r' & Eq & Hl). exists (header_enc ph ++ l), r'. rewrite Eq, length_app, header_length, Hl, <- !app_assoc. done.
Qed.
Lemma places_run : (0 < length ds)%nat → sd_buildmin b = Some (ref_place 0, b) ∧ sd_buildmax b = Some (ref_place (length ds - 1), b).
Proof.
  intros Hn. destruct built_ref as (ref & E & Hm & _). destruct built_count as [Ec _]. pose proof (pr_header _ _ _ _ (bt_page _ _ _ _ _ _ _ _ _ _ _ _ Hbt)) as (_ & _ & Hc & _).
  unfold sd_buildmin, sd_buildmax, cbind. rewrite E, built_header, Hm. unfold cret, ref_place, blen. rewrite Nat2Z.id. split; [by rewrite Nat.mul_0_r, Nat.add_0_r|].
  rewrite wrap_id by (unfold in_u in *; lia). do 2 f_equal. rewrite Ec. lia.
Qed.
Lemma key_of_run x place n d v : ds !! n = Some d → vs !! n = Some v → place b = Some (ref_place n, b) →
  ∃ p tail, key_of b (let! d := place in build_key d) x = Some (p, x) ∧ mem_at (b_mem (bd_v b)) p tail ∧ record_tail v tail.
Proof.
  intros Hd Hv Hp. destruct (entry_record n d v Hd Hv) as (size & tail & Hs & Hl & Hm & Ht).
  pose proof (content_mem (bd_v b) V0 body _ _ (bt_v _ _ _ _ _ _ _ _ _ _ _ _ Hbt) Hm) as Hat.
  eexists _, tail. split; [|split; [|exact Ht]].
  - unfold key_of, cbind at 1. rewrite (from_build_run _ (length V0 + Z.to_nat (d_offset d))%nat) by (unfold cbind; rewrite Hp; by apply build_key_run).
    unfold cbind, cread. rewrite (leb_skip_at _ _ size _ Hat) by done. cbn [fmap option_fmap option_map fst].
    pose proof Hat as Hat2. apply mem_at_app in Hat2 as [_ Hat2]. rewrite (leb_skip_at _ _ (sv_lsn v) _ Hat2) by done. done.
  - apply mem_at_app in Hat as [_ Hat]. by apply mem_at_app in Hat as [_ Hat].
Qed.

Lemma tail_keys v p tail ks : r_fmt_storage r = SF_SRAW → record_tail v tail → mem_at (b_mem (bd_v b)) p tail → key_parts (sv_pointer v) ks →
  key_parts (drop p (b_mem (bd_v b))) ks.
Proof.
  intros Ef Ht (l & r' & -> & <-) (Hk & Hr). unfold record_tail in Ht. rewrite Ef in Ht. subst tail. split; [|done].
  rewrite drop_app_length. by apply has_keys_more.
Qed.
Lemma tail_parts v tail ks : r_fmt_storage r = SF_SKEYVALUE → record_tail v tail → key_parts (sv_pointer v) ks →
  ∃ offs value, tail = concat (leb <$> offs) ++ value ∧ Forall2 (λ o k, is_u32 o ∧ mem_at keys (Z.to_nat o) (key_rec k)) offs ks.
Proof.
  intros Ef Ht (Hk & Hc & _). unfold record_tail in Ht. rewrite Ef in Ht. destruct Ht as (ks' & value & offs & Hp & Hc' & -> & HF).
  exists offs, value. split; [done|]. enough (ks = ks') as -> by done. apply (has_keys_eq (sv_pointer v)); [done| |congruence].
  rewrite (kp_row _ _ _ Hp). apply row_has_keys, Hp.
Qed.
Lemma add_keys_ok T x v0 v1 k0 k1 : 4 * T <= INT_MAX → (r_fmt_storage r = SF_SKEYVALUE → count <= 8)%nat →
  vs !! 0%nat = Some v0 → vs !! (length vs - 1)%nat = Some v1 → key_parts (sv_pointer v0) k0 → key_parts (sv_pointer v1) k1 →
  buf_cap T (xv x) → blen (content (xv x)) + Z.of_nat (row_size k0) + Z.of_nat (row_size k1) <= T →
  wp (add_keys r b) x (λ res x', (res = None ∧ refused) ∨
    (res = Some (blen (row k0 []), blen (row k1 [])) ∧ ∃ v, x' = with_xv v x ∧ buf_cap T v ∧ content v = content (xv x) ++ row k0 [] ++ row k1 [])).
Proof.
  intros HT H8 Hv0 Hv1 H0 H1 Hcap Hlen. destruct built_count as [_ El]. pose proof (lookup_lt_Some _ _ _ Hv0) as Hn. rewrite <- El in Hn, Hv1.
  destruct (places_run Hn) as [Emin Emax]. destruct (lookup_lt_is_Some_2 ds 0) as [d0 Hd0]; [done|]. destruct (lookup_lt_is_Some_2 ds (length ds - 1)) as [d1 Hd1]; [lia|].
  destruct (key_of_run x sd_buildmin 0 d0 v0 Hd0 Hv0 Emin) as (p0 & t0 & E0 & Ha0 & Ht0).
  destruct (key_of_run x sd_buildmax _ d1 v1 Hd1 Hv1 Emax) as (p1 & t1 & E1 & Ha1 & Ht1).
  unfold add_keys. apply wp_bind. unfold sd_buildminkey, sd_buildmaxkey. unfold wp at 1. rewrite E0. apply wp_bind. unfold wp at 1. rewrite E1.
  destruct (r_fmt_storage r) eqn:Ef.
  - destruct (tail_parts v0 t0 k0 Ef Ht0 H0) as (o0 & w0 & -> & HF0). destruct (tail_parts v1 t1 k1 Ef Ht1 H1) as (o1 & w1 & -> & HF1).
    destruct H0 as (_ & Hc0 & _ & Hs0). destruct H1 as (_ & Hc1 & _ & Hs1).
    unfold sd_indexadd_keyvalue. apply wp_bind, wp_assert; [by rewrite bool_decide_true by auto|].
    apply wp_bind. eapply wp_mono; [apply (write_key_ok T x o0 k0 p0 w0); (done || lia)|].
    intros res x1 [[-> Hno]|(-> & v & -> & Hcv & Hc)]; [by left|]. apply wp_bind.
    eapply wp_mono; [apply (write_key_ok T _ o1 k1 p1 w1); try done; cbn [xv with_xv]; rewrite Hc, blen_app, row_blen; lia|].
    intros res x2 [[-> Hno]|(-> & v' & -> & Hcv' & Hc')]; apply wp_ret; [by left|]. right. split; [done|]. exists v'. cbn [xv with_xv] in Hc'.
    split_and!; [done|done|]. by rewrite Hc', Hc, <- app_assoc.
  - apply indexadd_raw_ok; [done|by apply (tail_keys v0 p0 t0)|by apply (tail_keys v1 p1 t1)|done|done].
Qed.
End indexbuild.

(** * What an index under construction holds *)

(** A page that was added: where it lies, its header, the largest version so far and its keys. *)
Record padd := mk_padd { a_offset : Z; a_header : sdpageheader; a_vmax : Z; a_keys : bytes * bytes }.
Definition total (f : padd → Z) (l : list padd) : Z := foldr (λ a n, f a + n) 0 l.
Definition a_size (a : padd) : Z := h_size (a_header a) + Z.of_nat sizeof_sdpageheader.
Definition a_sizeorigin (a : padd) : Z := h_sizeorigin (a_header a) + Z.of_nat sizeof_sdpageheader.
Definition a_index (a : padd) : Z := blen (a_keys a).1 + blen (a_keys a).2.
(** The keys, the entries and the header. *)
Definition keys_of (l : list padd) : bytes := concat ((λ a, (a_keys a).1 ++ (a_keys a).2) <$> l).
Definition entry_of (at_ : Z) (a : padd) : sdindexpage :=
  mk_idxpage (a_offset a) at_ (a_size a) (a_sizeorigin a) (blen (a_keys a).1) (blen (a_keys a).2) (h_lsnmin (a_header a)) (h_lsnmax (a_header a)).
Fixpoint entries (at_ : Z) (l : list padd) : list sdindexpage :=
  match l with
  | [] => []
  | a :: l => entry_of at_ a :: entries (at_ + a_index a) l
  end.
Definition header_of (offset : Z) (id : sdid) (l : list padd) : sdindexheader :=
  mk_idxheader 0 sr_version id offset (total (λ a, Z.of_nat sizeof_sdindexpage + a_index a) l) (foldr Z.max 0 (a_vmax <$> l))
    (Z.of_nat (length l)) (total (λ a, h_count (a_header a)) l) (total a_size l) (total a_sizeorigin l) 0
    (foldr Z.min UINT64_MAX ((λ a, h_lsnmin (a_header a)) <$> l)) (foldr Z.max 0 ((λ a, h_lsnmax (a_header a)) <$> l))
    (total (λ a, h_countdup (a_header a)) l) (foldr Z.min UINT64_MAX ((λ a, h_lsnmindup (a_header a)) <$> l)) 0.
(** Everything keeps to its width. *)
Definition padd_ok (a : padd) : Prop :=
  is_u64 (a_offset a) ∧ header_ok (a_header a) ∧ is_u32 (a_vmax a) ∧ a_size a < 2147483648 ∧ a_sizeorigin a < 2147483648 ∧
  blen (a_keys a).1 < 65536 ∧ blen (a_keys a).2 < 65536.
Record index_fits (offset : Z) (l : list padd) : Prop := {
  xf_offset : is_u64 offset;
  xf_pages : Forall padd_ok l;
  xf_len : Z.of_nat (length l) < 2147483648;
  xf_size : total (λ a, Z.of_nat sizeof_sdindexpage + a_index a) l < 4294967296;
  xf_keys : total (λ a, h_count (a_header a)) l < 4294967296;
  xf_dups : total (λ a, h_countdup (a_header a)) l < 4294967296
}.

Lemma total_app f l a : total f (l ++ [a]) = total f l + f a.
Proof. unfold total. induction l as [|b l IH]; simpl; lia. Qed.
Lemma total_bound f l k : Forall (λ a, 0 <= f a <= k) l → 0 <= total f l <= k * Z.of_nat (length l).
Proof. unfold total. induction 1 as [|a l Ha _ IH]; cbn [foldr length]; rewrite ?Nat2Z.inj_succ; lia. Qed.
Lemma total_pos f l : Forall (λ a, 0 <= f a) l → 0 <= total f l.
Proof. unfold total. induction 1 as [|a l Ha _ IH]; cbn [foldr length]; lia. Qed.
Lemma padd_pos a : padd_ok a → 0 <= a_size a ∧ 0 <= a_sizeorigin a ∧ 0 <= h_count (a_header a) ∧ 0 <= h_countdup (a_header a) ∧ 0 <= a_index a.
Proof.
  intros (_ & (H1 & H2 & H3 & H4 & H5 & H6 & H7 & _) & _). unfold a_size, a_sizeorigin, a_index, in_u in *. pose proof (blen_pos (a_keys a).1). pose proof (blen_pos (a_keys a).2). lia.
Qed.
Lemma fits_prefix offset l a : index_fits offset (l ++ [a]) → index_fits offset l.
Proof.
  intros [H1 H2 H3 H4 H5 H6]. apply Forall_app in H2 as [H2 Ha]. apply Forall_inv in Ha. pose proof (padd_pos a Ha). rewrite !total_app in *. rewrite length_app in H3.
  split; (done || lia).
Qed.
Lemma keys_of_app l a : keys_of (l ++ [a]) = keys_of l ++ (a_keys a).1 ++ (a_keys a).2.
Proof. unfold keys_of. rewrite fmap_app, concat_app. cbn [fmap list_fmap concat]. by rewrite app_nil_r. Qed.
Lemma entries_app at_ l a : entries at_ (l ++ [a]) = entries at_ l ++ [entry_of (at_ + blen (keys_of l)) a].
Proof.
  revert at_. induction l as [|b l IH]; intros at_; cbn [entries app]; [by rewrite Z.add_0_r|]. rewrite IH.
  assert (blen (keys_of (b :: l)) = a_index b + blen (keys_of l)) as ->; [|by rewrite Z.add_assoc].
  unfold keys_of. rewrite fmap_cons. cbn [concat]. by rewrite !blen_app.
Qed.
Lemma idx_entries_length at_ l : length (entries at_ l) = length l.
Proof. revert at_. induction l as [|a l IH]; intros at_; cbn [entries length]; [done|]. by rewrite IH. Qed.

Lemma idxheader_next offset id l a build : index_fits offset (l ++ [a]) → bd_vmax build = a_vmax a →
  idxheader_add build (a_header a) (entry_of 0 a) (a_size a) (a_sizeorigin a) (header_of offset id l) = header_of offset id (l ++ [a]).
Proof.
  intros Hf Ev. pose proof (fits_prefix _ _ _ Hf) as Hp. destruct Hf as [H1 H2 H3 H4 H5 H6]. apply Forall_app in H2 as [H2 Ha]. apply Forall_inv in Ha.
  pose proof (padd_pos a Ha) as Hpos. destruct Ha as (_ & _ & _ & Hs1 & Hs2 & _).
  assert (Forall (λ b, 0 <= a_size b <= 2147483648) l ∧ Forall (λ b, 0 <= a_sizeorigin b <= 2147483648) l) as [B1%total_bound B2%total_bound].
  { split; (eapply Forall_impl; [exact H2|]); intros b Hb; pose proof (padd_pos b Hb); destruct Hb as (_ & _ & _ & ? & ? & _); lia. }
  assert (0 <= total (λ b, Z.of_nat sizeof_sdindexpage + a_index b) l ∧ 0 <= total (λ b, h_count (a_header b)) l ∧ 0 <= total (λ b, h_countdup (a_header b)) l) as (P1 & P2 & P3).
  { split_and!; apply total_pos; (eapply Forall_impl; [exact H2|]); intros b Hb; pose proof (padd_pos b Hb); lia. }
  rewrite !total_app in *. rewrite length_app in H3. cbn [length] in H3. cbn beta in *. assert (a_index a = blen (a_keys a).1 + blen (a_keys a).2) as Ea by done.
  unfold idxheader_add, header_of. cbn [x_crc x_version x_id x_offset x_size x_sizevmax x_count x_keys x_total x_totalorigin x_tsmin x_lsnmin x_lsnmax x_dupkeys x_dupmin x_extension g_sizemin g_sizemax entry_of].
  rewrite !total_app, !fmap_app, length_app. cbn [fmap list_fmap length]. rewrite !min_snoc, !max_snoc, Ev.
  f_equal; try (apply wrap_id; unfold in_u; lia).
  - rewrite wrap_id by (unfold in_u; lia). lia.
  - rewrite wrap_id by (unfold in_u; lia). lia.
Qed.

Lemma foldr_min_u64 {A} (f : A → Z) l : Forall (λ a, is_u64 (f a)) l → is_u64 (foldr Z.min UINT64_MAX (f <$> l)).
Proof. induction 1 as [|a l Ha _ IH]; [by vm_compute|]. cbn [fmap list_fmap foldr]. unfold in_u in *. lia. Qed.
Lemma foldr_max_in {A} w (f : A → Z) l : 0 < w → Forall (λ a, in_u w (f a)) l → in_u w (foldr Z.max 0 (f <$> l)).
Proof.
  intros Hw. induction 1 as [|a l Ha _ IH]; [cbn; unfold in_u; pose proof (Z.pow_pos_nonneg 2 w); lia|]. cbn [fmap list_fmap foldr]. unfold in_u in *. lia.
Qed.
Lemma header_of_ok offset id l : index_fits offset l → id_ok id → idxheader_ok (header_of offset id l).
Proof.
  intros [H1 H2 H3 H4 H5 H6] Hid.
  assert (Forall (λ b, 0 <= a_size b <= 2147483648) l ∧ Forall (λ b, 0 <= a_sizeorigin b <= 2147483648) l) as [B1%total_bound B2%total_bound].
  { split; (eapply Forall_impl; [exact H2|]); intros b Hb; pose proof (padd_pos b Hb); destruct Hb as (_ & _ & _ & ? & ? & _); lia. }
  assert (0 <= total (λ b, Z.of_nat sizeof_sdindexpage + a_index b) l ∧ 0 <= total (λ b, h_count (a_header b)) l ∧ 0 <= total (λ b, h_countdup (a_header b)) l) as (P1 & P2 & P3).
  { split_and!; apply total_pos; (eapply Forall_impl; [exact H2|]); intros b Hb; pose proof (padd_pos b Hb); lia. }
  unfold idxheader_ok, header_of. cbn [x_crc x_version x_id x_offset x_size x_sizevmax x_count x_keys x_total x_totalorigin x_tsmin x_lsnmin x_lsnmax x_dupkeys x_dupmin x_extension].
  split_and!; try done; try (unfold in_u; lia).
  - apply foldr_max_in; [done|]. eapply Forall_impl; [exact H2|]. by intros b (_ & _ & ? & _).
  - apply foldr_min_u64. eapply Forall_impl; [exact H2|]. intros b (_ & Hh & _). by destruct Hh as (_ & _ & _ & _ & _ & _ & _ & ? & _).
  - apply (foldr_max_in 64); [done|]. eapply Forall_impl; [exact H2|]. intros b (_ & Hh & _). by destruct Hh as (_ & _ & _ & _ & _ & _ & _ & _ & _ & ?).
  - apply foldr_min_u64. eapply Forall_impl; [exact H2|]. intros b (_ & Hh & _). by destruct Hh as (_ & _ & _ & _ & _ & _ & _ & _ & ? & _).
Qed.
Lemma entries_keys offset l : index_fits offset l → Forall2 (page_keys (keys_of l)) (entries 0 l) (a_keys <$> l).
Proof.
  intros Hf. enough (∀ pre post, l = pre ++ post → Forall2 (page_keys (keys_of l)) (entries (blen (keys_of pre)) post) (a_keys <$> post)) as Hall by apply (Hall [] l eq_refl).
  intros pre post. revert pre. induction post as [|a post IH]; intros pre El; [constructor|]. cbn [entries fmap list_fmap].
  assert (blen (keys_of (pre ++ [a])) = blen (keys_of pre) + a_index a) as Ek by (by rewrite keys_of_app, !blen_app).
  constructor; [|rewrite <- Ek; apply IH; by rewrite <- app_assoc].
  assert (keys_of l = keys_of pre ++ ((a_keys a).1 ++ (a_keys a).2) ++ keys_of post) as Ekeys.
  { rewrite El. unfold keys_of. by rewrite fmap_app, concat_app. }
  pose proof (xf_pages _ _ Hf) as Hok. rewrite El in Hok. apply Forall_app in Hok as [_ Hok]. apply Forall_inv in Hok. pose proof (padd_pos a Hok) as Hpos.
  split_and!; cbn [g_offsetindex g_sizemin g_sizemax entry_of]; [|exists (keys_of pre), (keys_of post); split; [done|unfold blen; lia]|done|done].
  destruct Hok as (Ho & (_ & _ & _ & _ & _ & _ & _ & Hl1 & _ & Hl2) & _ & Hs1 & Hs2 & Hk1 & Hk2).
  assert (blen (keys_of pre) < 4294967296) as Hlk.
  { enough (blen (keys_of l) < 4294967296) by (rewrite Ekeys, !blen_app in *; pose proof (blen_pos (a_keys a).1); pose proof (blen_pos (a_keys a).2); pose proof (blen_pos (keys_of post)); lia).
    eapply Z.le_lt_trans; [|exact (xf_size _ _ Hf)]. clear. unfold total. induction l as [|b l IH]; [done|]. unfold keys_of in *. rewrite fmap_cons. cbn [concat foldr].
    rewrite !blen_app. change (a_index b) with (blen (a_keys b).1 + blen (a_keys b).2). lia. }
  pose proof (blen_pos (keys_of pre)). pose proof (blen_pos (a_keys a).1). pose proof (blen_pos (a_keys a).2).
  split_and!; cbn [g_offset g_offsetindex g_size g_sizeorigin g_sizemin g_sizemax g_lsnmin g_lsnmax entry_of]; (done || (unfold in_u; lia)).
Qed.

(** * The steps *)

Record indexing (T : Z) (x : sdindex) (offset : Z) (l : list padd) : Prop := {
  ig_icap : buf_cap T (xi x);
  ig_i : content (xi x) = idxheader_enc (header_of offset (sd_idinit 0 0 0) l) ++ concat (idxpage_enc <$> entries 0 l);
  ig_vcap : buf_cap T (xv x);
  ig_v : content (xv x) = keys_of l
}.
Lemma id0_ok : id_ok (sd_idinit 0 0 0).
Proof. by vm_compute. Qed.

Section steps.
Context `{Alloc} (r : sr) (crcf : Z → bytes → Z).

Lemma indexheader_run T x offset l id rest : buf_cap T (xi x) → content (xi x) = idxheader_enc (header_of offset id l) ++ rest →
  index_fits offset l → id_ok id → sd_indexheader x = Some (header_of offset id l, x).
Proof.
  intros Hcap Hc Hf Hid. unfold sd_indexheader, cread. rewrite (idxheader_read _ _ (header_of offset id l)); [done| |by apply header_of_ok].
  by apply (content_at T (xi x) [] (idxheader_enc (header_of offset id l)) rest).
Qed.
Lemma buf_copy_room off bs (c c' : ssbuf) n : buf_copy off bs c = Some ((), c') → fresh_room c n → fresh_room c' n.
Proof.
  unfold buf_copy, mem_write. case_decide as Hd; [|done]. cbn [mbind option_bind]. intros [= <-]. unfold fresh_room, ss_bufunused. cbn [b_mem b_p].
  rewrite !length_app, length_take, length_drop. lia.
Qed.
Lemma set_idxheader_run T x h h' rest : buf_cap T (xi x) → content (xi x) = idxheader_enc h ++ rest →
  ∃ i, set_idxheader h' x = Some ((), with_i i x) ∧ buf_cap T i ∧ content i = idxheader_enc h' ++ rest ∧ ∀ n, fresh_room (xi x) n → fresh_room i n.
Proof.
  intros Hcap Hc. destruct (copy_inside T (xi x) [] (idxheader_enc h) rest (idxheader_enc h')) as (i & E & Hcap' & Hc'); [done|done|by rewrite !idxheader_length|].
  exists i. unfold set_idxheader, on_i, lift. cbn [length] in E. rewrite E. split_and!; [done..|]. intros n. by apply (buf_copy_room 0 (idxheader_enc h')).
Qed.

Lemma indexbegin_ok T x offset : 4 * T <= INT_MAX → buf_cap T (xi x) → content (xi x) = [] → buf_cap T (xv x) → content (xv x) = [] →
  Z.of_nat sizeof_sdindexheader <= T →
  wp (sd_indexbegin offset) x (λ rc x', (rc = -1 ∧ refused) ∨ (rc = 0 ∧ xh x' = false ∧ indexing T x' offset [])).
Proof.
  intros HT Hcap Hc Hcv Hv Hlen. unfold sd_indexbegin. apply wp_bind, wp_lift.
  eapply wp_mono; [apply (ensure_cap T); [done|done|done|rewrite (used_blen T), Hc by done; done]|].
  intros rc i [(-> & _ & Hn)|(-> & Hcapi & Hci & Hroom)]; [by left|]. cbn [Z.eqb]. rewrite Nat2Z.id in Hroom.
  set (h0 := mk_idxheader _ _ _ _ _ _ _ _ _ _ _ _ _ _ _ _). assert (b_p i = 0%nat) as Ep. { rewrite <- (content_length i) by apply Hcapi. by rewrite Hci, Hc. }
  pose proof (copy_advance_ok T i (idxheader_enc h0) Hcapi) as W. rewrite idxheader_length in W. specialize (W Hroom).
  unfold wp, copy_advance, cbind, cget in W. rewrite Ep in W. unfold wp, cbind, set_idxheader, on_i, lift, xmodify. cbn [xi with_i].
  destruct (buf_copy 0 (idxheader_enc h0) i) as [[[] i1]|]; [|done]. cbn [xi with_i with_h]. rewrite idxheader_length in W.
  destruct (ss_bufadvance sizeof_sdindexheader i1) as [[[] i2]|]; [|done]. destruct W as (Hcap2 & Hc2 & _). unfold cret. right. split; [done|]. split; [done|].
  split; cbn [xi xv with_i with_h]; [done| |done|done]. rewrite Hc2, Hci, Hc. cbn [entries fmap list_fmap concat]. by rewrite app_nil_r.
Qed.

(** The keys of a page: of its first and its last version. *)
Definition page_range (vs : list sv) (mm : bytes * bytes) : Prop :=
  (vs = [] ∧ mm = ([], [])) ∨
  ∃ v0 v1 k0 k1, vs !! 0%nat = Some v0 ∧ vs !! (length vs - 1)%nat = Some v1 ∧ key_parts r (sv_pointer v0) k0 ∧ key_parts r (sv_pointer v1) k1 ∧
    mm = (row k0 [], row k1 []).
Lemma page_keys_ok T x b M0 V0 K0 vs ph ds body keys mm : 4 * T <= INT_MAX → built r crcf b (bd_n b) M0 V0 K0 vs ph ds body keys →
  (r_fmt_storage r = SF_SKEYVALUE → s_count (r_scheme r) <= 8)%nat → page_range vs mm → buf_cap T (xv x) →
  blen (content (xv x)) + blen mm.1 + blen mm.2 <= T →
  wp (if Z.gtb (h_count ph) 0 then add_keys r b else cret (Some (0, 0))) x (λ res x', (res = None ∧ refused) ∨
    (res = Some (blen mm.1, blen mm.2) ∧ ∃ v, x' = with_xv v x ∧ buf_cap T v ∧ content v = content (xv x) ++ mm.1 ++ mm.2)).
Proof.
  intros HT Hbt H8 Hr Hcap Hlen. destruct (built_count _ _ _ _ _ _ _ _ _ _ _ Hbt) as [Ec El]. rewrite Ec, El.
  destruct Hr as [[-> ->]|(v0 & v1 & k0 & k1 & H0 & H1 & Hk0 & Hk1 & ->)].
  - cbn. apply wp_ret. right. split; [done|]. exists (xv x). rewrite app_nil_r. by destruct x.
  - cbn [fst snd] in *. rewrite !row_blen in Hlen. apply lookup_lt_Some in H0 as Hn. rewrite Z.gtb_ltb. destruct (Z.ltb_spec 0 (Z.of_nat (length vs))); [|lia].
    by apply (add_keys_ok r crcf b M0 V0 K0 vs ph ds body keys Hbt T x v0 v1 k0 k1).
Qed.
Lemma buildoffset_run b M0 V0 K0 vs ph ds body keys : built r crcf b (bd_n b) M0 V0 K0 vs ph ds body keys → bd_compress b = false →
  is_u32 (blen M0 + blen V0 + blen K0) → sd_buildoffset b = Some (blen M0 + blen V0 + blen K0, b).
Proof.
  intros Hbt Hnc Hu. destruct (built_ref _ _ _ _ _ _ _ _ _ _ _ Hbt) as (ref & E & Em & Ev & Ek). unfold sd_buildoffset, cbind, cget, cret. rewrite E, Hnc, Em, Ev, Ek.
  do 2 f_equal. rewrite wrap_id; [lia|]. unfold in_u in *. lia.
Qed.
Lemma indexadd_ok T x offset l b M0 V0 K0 vs ph ds body keys mm : 4 * T <= INT_MAX → indexing T x offset l →
  built r crcf b (bd_n b) M0 V0 K0 vs ph ds body keys → bd_compress b = false → is_u32 (blen M0 + blen V0 + blen K0) →
  (r_fmt_storage r = SF_SKEYVALUE → s_count (r_scheme r) <= 8)%nat → page_range vs mm →
  let a := mk_padd (blen M0 + blen V0 + blen K0) ph (bd_vmax b) mm in index_fits offset (l ++ [a]) →
  Z.of_nat sizeof_sdindexheader + Z.of_nat sizeof_sdindexpage * (Z.of_nat (length l) + 1) <= T → blen (keys_of (l ++ [a])) <= T →
  wp (sd_indexadd r b) x (λ rc x', (rc = -1 ∧ refused) ∨ (rc = 0 ∧ xh x' = xh x ∧ indexing T x' offset (l ++ [a]))).
Proof.
  intros HT [Hic Hi Hvc Hv] Hbt Hnc Hu H8 Hr a Hf Hli Hlk. unfold sd_indexadd. apply wp_bind, wp_lift.
  assert (blen (content (xi x)) = 132 + 40 * Z.of_nat (length l)) as Eli.
  { rewrite Hi, blen_app. unfold blen. rewrite idxheader_length, idxpages_length, idx_entries_length. unfold sizeof_sdindexheader, sizeof_sdindexpage. lia. }
  unfold sizeof_sdindexheader, sizeof_sdindexpage in Hli.
  eapply wp_mono; [apply (ensure_cap T); [done|done|done|rewrite (used_blen T), Eli by done; unfold sizeof_sdindexpage; lia]|].
  intros rc i [(-> & _ & Hn)|(-> & Hcapi & Hci & Hroom)]; [by left|]. cbn [Z.eqb]. rewrite Nat2Z.id in Hroom.
  apply wp_bind. unfold wp at 1. rewrite (from_build_run b _ ph) by (by eapply built_header). cbv zeta.
  assert (padd_ok a) as Hok. { pose proof (xf_pages _ _ Hf) as HF. apply Forall_app in HF as [_ HF]. by apply Forall_inv in HF. }
  pose proof (padd_pos a Hok) as Hpos. change (h_size ph + Z.of_nat sizeof_sdpageheader) with (a_size a). change (h_sizeorigin ph + Z.of_nat sizeof_sdpageheader) with (a_sizeorigin a).
  pose proof Hok as (_ & _ & _ & Hs1 & Hs2 & _). rewrite !swrap_id by lia. rewrite !wrap_id by (unfold in_u; lia).
  apply wp_bind. unfold wp at 1. rewrite (from_build_run b _ _ _ (buildoffset_run b M0 V0 K0 vs ph ds body keys Hbt Hnc Hu)).
  apply wp_bind. unfold cget at 1, wp at 1. cbn [xv with_i]. rewrite (used_blen T), Hv by done. rewrite keys_of_app, !blen_app in Hlk. cbn [a_keys a] in Hlk.
  apply wp_bind. eapply wp_mono; [apply (page_keys_ok T (with_i i x) b M0 V0 K0 vs ph ds body keys mm HT Hbt H8 Hr Hvc); cbn [xv with_i]; rewrite Hv; lia|].
  intros res x1 [[-> Hno]|(-> & v & -> & Hcapv & Hcv)]; [apply wp_ret; by left|]. cbv beta iota. cbn [xv with_i] in Hcv.
  pose proof (fits_prefix _ _ _ Hf) as Hf0. rewrite Hi in Hci. apply wp_bind. unfold wp at 1.
  rewrite (indexheader_run T (with_xv v (with_i i x)) offset l (sd_idinit 0 0 0) _ Hcapi Hci Hf0 id0_ok). rewrite (wrap_id 32 (blen (keys_of l))).
  2: { pose proof (blen_pos (keys_of l)). pose proof (blen_pos mm.1). pose proof (blen_pos mm.2). unfold in_u, INT_MAX in *. lia. }
  pose proof (idxheader_next offset (sd_idinit 0 0 0) l a b Hf eq_refl) as En.
  match goal with |- wp (set_idxheader ?h;;; _) _ _ => change h with (idxheader_add b (a_header a) (entry_of 0 a) (a_size a) (a_sizeorigin a) (header_of offset (sd_idinit 0 0 0) l)) end.
  rewrite En. destruct (set_idxheader_run T (with_xv v (with_i i x)) _ (header_of offset (sd_idinit 0 0 0) (l ++ [a])) _ Hcapi Hci) as (i2 & E2 & Hcap2 & Hc2 & Hroom2).
  apply wp_bind. unfold wp at 1. rewrite E2. apply wp_bind, wp_lift. cbn [xi with_i].
  eapply wp_mono; [apply (copy_advance_ok T); [done|rewrite idxpage_length; by apply Hroom2]|].
  intros [] i3 (Hcap3 & Hc3 & _). apply wp_ret. right. split; [done|]. split; [done|]. split; cbn [xi xv with_i with_xv]; [done| |done|].
  - rewrite Hc3, Hc2, entries_app, fmap_app, concat_app, <- app_assoc. cbn [fmap list_fmap concat]. by rewrite app_nil_r.
  - by rewrite Hcv, Hv, keys_of_app.
Qed.

(** The header of the complete index: with its name and its checksum. *)
Definition final_header (offset : Z) (id : sdid) (l : list padd) : sdindexheader :=
  let h := header_of offset id l in
  mk_idxheader (ss_crcs crcf (idxheader_enc h) 0) (x_version h) id (x_offset h) (x_size h) (x_sizevmax h) (x_count h) (x_keys h) (x_total h)
    (x_totalorigin h) (x_tsmin h) (x_lsnmin h) (x_lsnmax h) (x_dupkeys h) (x_dupmin h) (x_extension h).
Definition image_of (offset : Z) (id : sdid) (l : list padd) : bytes :=
  idxheader_enc (final_header offset id l) ++ concat (idxpage_enc <$> entries 0 l) ++ keys_of l.
Lemma final_header_ok offset id l : (∀ c p, is_u32 (crcf c p)) → index_fits offset l → id_ok id → idxheader_ok (final_header offset id l).
Proof. intros Hc Hf Hid. destruct (header_of_ok offset id l Hf Hid) as (_ & Hrest). split; [apply Hc|exact Hrest]. Qed.
(** A block that begins with the image of an index is one. *)
Lemma image_rep x offset id l rest : (∀ c p, is_u32 (crcf c p)) → index_fits offset l → id_ok id → xh x = true → b_mem (xi x) = image_of offset id l ++ rest →
  index_rep x (final_header offset id l) (entries 0 l) (a_keys <$> l).
Proof.
  intros Hc Hf Hid Hh Hm. split; [done| |by apply final_header_ok|by rewrite idx_entries_length|rewrite idx_entries_length; apply Hf].
  exists (keys_of l), rest. split; [|by eapply entries_keys]. rewrite Hm. unfold image_of. by rewrite <- !app_assoc.
Qed.
Lemma indexcommit_ok T x offset l id : 4 * T <= INT_MAX → indexing T x offset l → index_fits offset l → id_ok id →
  Z.of_nat sizeof_sdindexheader + Z.of_nat sizeof_sdindexpage * Z.of_nat (length l) + blen (keys_of l) <= T →
  wp (sd_indexcommit crcf id) x (λ rc x', (rc = -1 ∧ refused) ∨ (rc = 0 ∧ xh x' = true ∧ buf_cap T (xi x') ∧ content (xi x') = image_of offset id l)).
Proof.
  intros HT [Hic Hi Hvc Hv] Hf Hid Hlen. unfold sd_indexcommit. apply wp_bind. unfold cget at 1, wp at 1. rewrite (used_blen T), Hv by done. cbv zeta.
  assert (blen (content (xi x)) = 132 + 40 * Z.of_nat (length l)) as Eli.
  { rewrite Hi, blen_app. unfold blen. rewrite idxheader_length, idxpages_length, idx_entries_length. unfold sizeof_sdindexheader, sizeof_sdindexpage. lia. }
  unfold sizeof_sdindexheader, sizeof_sdindexpage in Hlen. pose proof (blen_pos (keys_of l)). apply wp_bind, wp_lift.
  eapply wp_mono; [apply (ensure_cap T); [done|done|done|rewrite (used_blen T), Eli by done; lia]|].
  intros rc i [(-> & _ & Hn)|(-> & Hcapi & Hci & Hroom)]; [by left|]. cbn [Z.eqb]. apply wp_bind. unfold cread at 1, wp at 1. cbn [xv with_i].
  rewrite (part_read T (xv x) [] (keys_of l) Hvc Hv : mem_read 0 _ _ = _). unfold blen in Hroom. rewrite Nat2Z.id in Hroom.
  apply wp_bind, wp_lift. eapply wp_mono; [by apply (copy_advance_ok T)|]. intros [] i2 (Hcap2 & Hc2 & _). cbn [xi with_i] in Hc2. rewrite Hci, Hi, <- app_assoc in Hc2.
  apply wp_bind. unfold xmodify at 1, wp at 1. cbn [xv with_i]. set (x2 := with_h true _). apply wp_bind. unfold wp at 1.
  rewrite (indexheader_run T x2 offset l (sd_idinit 0 0 0) _ Hcap2 Hc2 Hf id0_ok).
  match goal with |- wp (set_idxheader ?h;;; _) _ _ => change h with (final_header offset id l) end.
  destruct (set_idxheader_run T x2 _ (final_header offset id l) _ Hcap2 Hc2) as (i3 & E3 & Hcap3 & Hc3 & _).
  apply wp_bind. unfold wp at 1. rewrite E3. apply wp_ret. right. by split_and!.
Qed.
End steps.
