(* ===== verification/SdMerge.v ===== *)
(** Writing a stream of versions as pages with their index, sd_merge.h and sd_merge.c: pages
    are built from the write iterator until the branch is large enough for a node. *)
From stdpp Require Import base list sorting sets gmap.
From S2P Require Import Prelude SsOrder Sv SsBytes SsBuf SsFilter Sf Sr SrScheme SvMerge SvUpdate SvRead SvWrite SdPage SdBuild SdIndex.
Local Open Scope Z_scope.
Local Open Scope c_scope.

(** * Model *)

Record sdmergeconf := mk_mergeconf {
  c_size_stream : Z; c_size_node : Z; c_size_page : Z; c_checksum : bool; c_compression : bool; c_compression_key : bool;
  c_offset : Z; c_vlsn : Z; c_save_delete : bool; c_save_update : bool
}.

Section model.
Context {M : Type} `{MergeIter M} (upd : sfupdatef) `{Alloc}.
Context (r : sr) (crcf : Z → bytes → Z) {F : Type} (compression : ssfilterif F).
(** [g n]: whether the list of references gets the memory it may ask for at page [n];
    [fuel] bounds the versions of a page and of a key. *)
Context (g : nat → bool) (fuel : nat).

(** The builder the merge writes to belongs to its state. *)
Record sdmerge := mk_sdmerge { m_index : sdindex; m_i : svwriteiter M; m_processed : Z; m_build : sdbuild }.
Definition with_mindex (x : sdindex) (m : sdmerge) := mk_sdmerge x (m_i m) (m_processed m) (m_build m).
Definition with_mi (i : svwriteiter M) (m : sdmerge) := mk_sdmerge (m_index m) i (m_processed m) (m_build m).
Definition with_processed (p : Z) (m : sdmerge) := mk_sdmerge (m_index m) (m_i m) p (m_build m).
Definition with_mbuild (b : sdbuild) (m : sdmerge) := mk_sdmerge (m_index m) (m_i m) (m_processed m) b.
Definition on_index {A} : cmd sdindex A → cmd sdmerge A := lift m_index with_mindex.
Definition on_build {A} : cmd sdbuild A → cmd sdmerge A := lift m_build with_mbuild.
Definition mmodify (f : sdmerge → sdmerge) : cmd sdmerge () := λ m, Some ((), f m).

Definition sd_mergeinit (i : M) (build : sdbuild) (update : svupdate) (conf : sdmergeconf) : option sdmerge :=
  w ← sv_writeiter_open upd fuel i update (c_size_page conf) (Z.of_nat sizeof_sdv) (c_vlsn conf) (c_save_delete conf) (c_save_update conf);
  Some (mk_sdmerge sd_indexinit w 0 build).
Definition sd_mergefree (m : sdmerge) : sdmerge := with_mindex (sd_indexfree (m_index m)) m.

(** How large the branch may become before it is cut. *)
Definition merge_limit (conf : sdmergeconf) (processed : Z) : Z :=
  let left := u64 (c_size_stream conf - processed) in
  if Z.geb left (u64 (c_size_node conf * 2)) then c_size_node conf
  else if Z.gtb left (c_size_node conf) then u64 (c_size_node conf * 2)
  else UINT64_MAX.

(** The versions of a page. *)
Fixpoint merge_versions (n : nat) : cmd sdmerge Z :=
  match n with
  | O => cfail
  | S n =>
      let! m := cget in
      if negb (sv_writeiter_has (m_i m)) then cret 0 else
      let! v := cread (λ m, sv_writeiter_of (m_i m)) in
      let! dup := cread (λ m, sv_writeiter_is_duplicate (m_i m)) in
      let flags := if dup : bool then SVDUP else 0 in
      let! rc := on_build (sd_buildadd r v flags) in
      if Z.eqb rc (-1) then cret (-1) else
      let! i := cread (λ m, sv_writeiter_next upd fuel (m_i m)) in
      mmodify (with_mi i);;;
      merge_versions n
  end.
Definition merge_page (conf : sdmergeconf) : cmd sdmerge Z :=
  let! rc := on_build (λ b, sd_buildbegin (g (bd_n b)) (c_checksum conf) (c_compression conf) (c_compression_key conf) b) in
  if Z.eqb rc (-1) then cret (-1) else
  let! rc := merge_versions fuel in
  if Z.eqb rc (-1) then cret (-1) else
  let! rc := on_build (sd_buildend crcf compression) in
  if Z.eqb rc (-1) then cret (-1) else
  let! m := cget in
  let! rc := on_index (sd_indexadd r (m_build m)) in
  if Z.eqb rc (-1) then cret (-1) else
  on_build sd_buildcommit;;;
  cret 0.
(** The pages; [current]: what the index counts so far. *)
Fixpoint merge_pages (n : nat) (conf : sdmergeconf) (limit current : Z) : cmd sdmerge Z :=
  match n with
  | O => cfail
  | S n =>
      let! m := cget in
      if negb (sv_writeiter_has (m_i m) && Z.leb current limit) then cret 0 else
      let! rc := merge_page conf in
      if Z.eqb rc (-1) then cret (-1) else
      let! current := on_index sd_indextotal in
      let! res := cread (λ m, sv_writeiter_resume (m_i m)) in
      mmodify (with_mi res.2);;;
      if negb res.1 then cret 0 else merge_pages n conf limit current
  end.
Definition sd_merge (n : nat) (conf : sdmergeconf) : cmd sdmerge Z :=
  let! m := cget in
  if negb (sv_writeiter_has (m_i m)) then cret 0 else
  mmodify (λ m, with_mindex sd_indexinit (with_mbuild (sd_buildreset (m_build m)) m));;;
  let! rc := on_index (sd_indexbegin (c_offset conf)) in
  if Z.eqb rc (-1) then cret (-1) else
  let limit := merge_limit conf (m_processed m) in
  let! rc := merge_pages n conf limit 0 in
  if Z.eqb rc (-1) then cret (-1) else
  let! total := on_index sd_indextotal in
  mmodify (λ m, with_processed (u64 (m_processed m + total)) m);;;
  cret 1.
Definition sd_mergecommit (id : sdid) : cmd sdmerge Z := on_index (sd_indexcommit crcf id).
End model.
Arguments sdmerge : clear implicits.
