(* ===== verification/SdMergeProofs.v ===== *)
(** Merging a stream into pages: the pages in the builder, the index over them, and where the
    stream is cut. *)
From stdpp Require Import base list sorting sets gmap.
From S2P Require Import Prelude SsOrder Sv SsBytes SsBuf SsFilter SsHt Sf Sr SrScheme SvMerge SvMergeProofs SvUpdate SvRead SvWrite SdPage SdPageRep SdPageKv SdPageSpec SdBuild SdBuildProofs SdBuildKv SdBuildSpec SdIndex SdIndexIter SdIndexBuild SdMerge.
Local Open Scope Z_scope.
Local Open Scope c_scope.

(** * The pages of a stream *)

(** The versions of a page with the flags they are stored with. *)
Definition marks (outs : list (sv * bool)) : list (sv * Z) := (λ p, (p.1, if p.2 : bool then SVDUP else 0)) <$> outs.
Definition page_svs (outs : list (sv * bool)) : list sv := stored_svs (marks outs).

(** The key of a version as the index keeps it, and the keys of a page. *)
Definition parts_in (r : sr) (data : bytes) : list bytes := (λ i, at_part i data) <$> seq 0 (s_count (r_scheme r)).
Definition index_key (r : sr) (v : sv) : bytes := row (parts_in r (sv_pointer v)) [].
Definition range_of (r : sr) (vs : list sv) : bytes * bytes :=
  match head vs, last vs with
  | Some v0, Some v1 => (index_key r v0, index_key r v1)
  | _, _ => ([], [])
  end.
Definition key_ok (r : sr) (v : sv) : Prop := key_parts r (sv_pointer v) (parts_in r (sv_pointer v)).
Lemma range_of_ok r vs : Forall (key_ok r) vs → page_range r vs (range_of r vs) ∧ blen (range_of r vs).1 < 65536 ∧ blen (range_of r vs).2 < 65536.
Proof.
  intros Hk. unfold range_of. destruct vs as [|v0 vs]; [split; [by left|done]|]. cbn [head].
  destruct (last (v0 :: vs)) as [v1|] eqn:El; [|by apply last_None in El]. rewrite last_lookup in El. cbn [length Nat.pred] in El.
  apply Forall_cons in Hk as Hk0. destruct Hk0 as [Hk0 _]. pose proof (Forall_lookup_1 _ _ _ _ Hk El) as Hk1. cbn [fst snd].
  unfold index_key. rewrite !row_blen. split; [|split; [apply Hk0|apply Hk1]]. right. exists v0, v1, (parts_in r (sv_pointer v0)), (parts_in r (sv_pointer v1)).
  split_and!; try done. cbn [length]. by rewrite Nat.sub_succ, Nat.sub_0_r.
Qed.

Lemma wp_bind_inv {S A B} (m : cmd S A) (f : A → cmd S B) s (Q : B → S → Prop) : wp (cbind m f) s Q → wp m s (λ a s', wp (f a) s' Q).
Proof. unfold wp, cbind. by destruct (m s) as [[a s']|]. Qed.

Section proofs.
Context {M : Type} `{MergeIter M} (upd : sfupdatef) `{Alloc}.
Context (r : sr) (crcf : Z → bytes → Z) {F : Type} (compression : ssfilterif F) (g : nat → bool) (fuel : nat).

(** ** The versions of one page *)

Lemma versions_run n : ∀ im outs im1 m Q, writeiter_drain upd n fuel im = Some (outs, im1) → m_i m = im →
  wp (add_all r (marks outs)) (m_build m) Q → wp (merge_versions upd r fuel n) m (λ rc m', ∃ b' i', Q rc b' ∧
    m' = mk_sdmerge (m_index m) i' (m_processed m) b' ∧ (rc = 0 → i' = im1)).
Proof.
  induction n as [|n IH]; intros im outs im1 m Q Hd Hi Hw; [done|]. cbn [writeiter_drain merge_versions] in *.
  apply wp_bind. unfold cget at 1, wp at 1. rewrite Hi. unfold sv_writeiter_has, sv_writeiter_of in *. destruct (wi_v im) as [v|] eqn:Ev.
  - destruct (sv_writeiter_next upd fuel im) as [im'|] eqn:En; [|done]. cbn [mbind option_bind] in Hd.
    destruct (writeiter_drain upd n fuel im') as [[l im'']|] eqn:Ed; [|done]. cbn [mbind option_bind] in Hd. injection Hd as <- <-.
    rewrite bool_decide_true by done. cbn [negb]. apply wp_bind. unfold cread at 1, wp at 1. rewrite Hi, Ev.
    apply wp_bind. unfold cread at 1, wp at 1, sv_writeiter_is_duplicate, sv_writeiter_has. rewrite Hi, Ev, bool_decide_true by done. cbv zeta.
    cbn [marks fmap list_fmap add_all fst snd] in Hw. apply wp_bind, wp_lift. apply wp_bind_inv in Hw. eapply wp_mono; [exact Hw|].
    intros rc b Hb. cbn beta in *. destruct (Z.eqb_spec rc (-1)).
    + apply wp_ret. unfold wp, cret in Hb. eexists _, _. split_and!; [exact Hb|by rewrite <- Hi|done].
    + apply wp_bind. unfold cread at 1, wp at 1. cbn [m_i with_mbuild]. rewrite Hi, En. apply wp_bind. unfold mmodify at 1, wp at 1.
      eapply wp_mono; [apply (IH im' l im'' _ Q Ed); [done|exact Hb]|]. intros rc' m' (b' & i' & HQ & -> & Hi'). by eexists _, _.
  - injection Hd as <- <-. rewrite bool_decide_false by (by intros []). cbn [negb]. apply wp_ret. unfold wp in Hw. cbn in Hw.
    eexists _, _. split_and!; [exact Hw| |intros _; reflexivity]. rewrite <- Hi. by destruct m.
Qed.

(** ** What has been written *)

(** A page: its part of each buffer, what the index was told of it and its versions. *)
Record wpage := mk_wpage { w_m : bytes; w_v : bytes; w_k : bytes; w_add : padd; w_svs : list sv }.
Definition w_bytes (w : wpage) : bytes := w_m w ++ w_v w ++ w_k w.
Record page_good (w : wpage) : Prop := {
  pg_of : page_of r (w_bytes w) (w_svs w);
  pg_h : page_h (w_bytes w) = Some (a_header (w_add w), w_bytes w);
  pg_summary : summary (a_header (w_add w)) (w_svs w);
  pg_crc : h_crc (a_header (w_add w)) = ss_crcs crcf (header_enc (a_header (w_add w))) 0;
  pg_size : a_size (w_add w) = blen (w_bytes w);
  pg_origin : a_sizeorigin (w_add w) = blen (w_bytes w);
  pg_keys : a_keys (w_add w) = range_of r (w_svs w);
  pg_m : blen (w_m w) = Z.of_nat sizeof_sdpageheader + Z.of_nat sizeof_sdv * Z.of_nat (length (w_svs w))
}.
Definition page_small (T : Z) (w : wpage) : Prop := header_ok (a_header (w_add w)) ∧ is_u32 (a_vmax (w_add w)) ∧
  Forall (key_ok r) (w_svs w) ∧ is_u64 (a_offset (w_add w)) ∧ blen (w_bytes w) <= 3 * T.
Definition cat (f : wpage → bytes) (ws : list wpage) : bytes := concat (f <$> ws).
Definition ref_of (b : sdbuild) (ws : list wpage) (i : nat) (w : wpage) : Prop := ∃ ref, bd_list b !! i = Some ref ∧
  f_m ref = blen (cat w_m (take i ws)) ∧ f_msize ref = blen (w_m w) ∧ f_v ref = blen (cat w_v (take i ws)) ∧ f_vsize ref = blen (w_v w) ∧
  f_k ref = blen (cat w_k (take i ws)) ∧ f_ksize ref = blen (w_k w).
Record merged (T : Z) (dup : bool) (offset : Z) (b : sdbuild) (x : sdindex) (ws : list wpage) : Prop := {
  me_ready : ready dup T b (cat w_m ws) (cat w_v ws) (cat w_k ws);
  me_indexing : indexing T x offset (w_add <$> ws);
  me_fits : index_fits offset (w_add <$> ws);
  me_pages : Forall page_good ws;
  me_small : Forall (page_small T) ws;
  me_offsets : ∀ i w, ws !! i = Some w → a_offset (w_add w) = blen (cat w_bytes (take i ws));
  me_n : bd_n b = length ws;
  me_c : b_p (bd_c b) = 0%nat;
  me_refs : ∀ i w, ws !! i = Some w → ref_of b ws i w
}.

Lemma cat_app f ws w : cat f (ws ++ [w]) = cat f ws ++ f w.
Proof. unfold cat. rewrite fmap_app, concat_app. cbn [fmap list_fmap concat]. by rewrite app_nil_r. Qed.
Lemma cat_bytes ws : blen (cat w_bytes ws) = blen (cat w_m ws) + blen (cat w_v ws) + blen (cat w_k ws).
Proof. unfold cat. induction ws as [|w ws IH]; [done|]. rewrite !fmap_cons. cbn [concat]. rewrite !blen_app, IH. unfold w_bytes. rewrite !blen_app. lia. Qed.
Lemma lookup_snoc_cases {A} (l : list A) a i b : (l ++ [a]) !! i = Some b → (l !! i = Some b ∧ (i < length l)%nat) ∨ (i = length l ∧ b = a).
Proof.
  intros E. destruct (decide (i < length l)%nat) as [Hlt|Hge]; [left; split; [by rewrite lookup_app_l in E|done]|].
  right. rewrite lookup_app_r in E by lia. destruct (i - length l)%nat as [|k] eqn:Ek; [|done]. cbn in E. injection E as <-. split; [lia|done].
Qed.
(** The room a page takes in each buffer. *)
Definition need_m (outs : list (sv * bool)) : Z := Z.of_nat sizeof_sdpageheader + Z.of_nat sizeof_sdv * Z.of_nat (length outs).
Definition need_i (outs : list (sv * bool)) : Z :=
  Z.of_nat sizeof_sdindexpage + blen (range_of r (page_svs outs)).1 + blen (range_of r (page_svs outs)).2.
Definition page_ok (outs : list (sv * bool)) : Prop := Forall (λ p, storable r p.1 ∧ key_ok r p.1) outs.

Lemma page_svs_length outs : length (page_svs outs) = length outs.
Proof. unfold page_svs, stored_svs, marks. by rewrite !length_fmap. Qed.
Lemma page_ok_storable outs : page_ok outs → Forall (λ p, storable r p.1) (marks outs) ∧ Forall (key_ok r) (page_svs outs).
Proof.
  unfold page_svs, stored_svs, marks. intros Hok. rewrite !Forall_fmap. split; (eapply Forall_impl; [exact Hok|]); by intros [v d] [? ?].
Qed.

(** ** The widths of the index *)

Lemma counts_bound ws : Forall page_good ws →
  5 * total (λ a, h_count (a_header a)) (w_add <$> ws) <= blen (cat w_m ws) ∧ 5 * total (λ a, h_countdup (a_header a)) (w_add <$> ws) <= blen (cat w_m ws).
Proof.
  unfold total, cat. induction 1 as [|w ws Hw _ IH]; [done|]. rewrite !fmap_cons. cbn [foldr concat]. rewrite blen_app, (pg_m w Hw).
  pose proof (sm_count _ _ (pg_summary w Hw)). pose proof (sm_countdup _ _ (pg_summary w Hw)). pose proof (length_filter is_dup (w_svs w)). unfold sizeof_sdpageheader, sizeof_sdv. lia.
Qed.
Lemma index_total l : total (λ a, Z.of_nat sizeof_sdindexpage + a_index a) l = Z.of_nat sizeof_sdindexpage * Z.of_nat (length l) + blen (keys_of l).
Proof.
  unfold total. induction l as [|a l IH]; [done|]. cbn [foldr length]. rewrite IH. unfold keys_of. rewrite fmap_cons. cbn [concat]. rewrite !blen_app.
  change (a_index a) with (blen (a_keys a).1 + blen (a_keys a).2). unfold sizeof_sdindexpage. lia.
Qed.
Lemma fits_all T offset ws : 4 * T <= INT_MAX → is_u64 offset → Forall page_good ws →
  Forall (page_small T) ws →
  blen (cat w_m ws) <= T → Z.of_nat sizeof_sdindexheader + Z.of_nat sizeof_sdindexpage * Z.of_nat (length ws) + blen (keys_of (w_add <$> ws)) <= T →
  index_fits offset (w_add <$> ws).
Proof.
  intros HT Ho Hg Hw HM HI. destruct (counts_bound ws Hg) as [C1 C2]. pose proof (blen_pos (keys_of (w_add <$> ws))). unfold INT_MAX in HT.
  unfold sizeof_sdindexheader, sizeof_sdindexpage in HI.
  split; rewrite ?index_total, ?length_fmap; unfold sizeof_sdindexpage; try lia; [done|]. apply Forall_fmap. clear -HT Hg Hw.
  induction Hg as [|w ws Hgw _ IH]; [constructor|]. apply Forall_cons in Hw as [(H1 & H2 & H3 & H4 & H5) Hw]. constructor; [|by apply IH].
  unfold compose. destruct (range_of_ok r _ H3) as (_ & L1 & L2). rewrite <- (pg_keys w Hgw) in L1, L2.
  rewrite <- (pg_size w Hgw) in H5 at 1. pose proof (pg_size w Hgw). pose proof (pg_origin w Hgw). split_and!; try done; lia.
Qed.

(** ** One page *)

(** The page that was built, and what the index is told of it. *)
Definition new_page (b : sdbuild) (ws : list wpage) (vs : list sv) (h : sdpageheader) (ds : list sdv) (body keys : bytes) : wpage :=
  mk_wpage (header_enc h ++ concat (sdv_enc <$> ds)) body keys
    (mk_padd (blen (cat w_m ws) + blen (cat w_v ws) + blen (cat w_k ws)) h (bd_vmax b) (range_of r vs)) vs.
Lemma new_page_good b n M0 V0 K0 ws vs h ds body keys : built r crcf b n M0 V0 K0 vs h ds body keys → page_good (new_page b ws vs h ds body keys).
Proof.
  intros Hbt. pose proof (bt_page _ _ _ _ _ _ _ _ _ _ _ _ Hbt) as Hp. pose proof (entries_length r _ _ _ _ (bt_entries _ _ _ _ _ _ _ _ _ _ _ _ Hbt)) as El.
  assert (h_sizeorigin h + Z.of_nat sizeof_sdpageheader = blen (w_bytes (new_page b ws vs h ds body keys))) as Es.
  { rewrite (pr_size _ _ _ _ Hp). unfold w_bytes, new_page. cbn [w_m w_v w_k]. rewrite !blen_app. unfold blen. rewrite header_length, sdvs_length, !length_app.
    unfold sizeof_sdpageheader, sizeof_sdv. lia. }
  split; cbn [w_add w_svs w_m new_page a_header a_size a_sizeorigin a_keys].
  - unfold w_bytes. cbn [w_m w_v w_k new_page]. exact (built_page r crcf _ _ _ _ _ _ _ _ _ _ Hbt).
  - unfold w_bytes. cbn [w_m w_v w_k new_page]. rewrite <- !app_assoc. exact (page_h_run _ _ _ _ Hp).
  - apply Hbt.
  - apply Hbt.
  - unfold a_size. cbn [a_header]. rewrite (bt_size _ _ _ _ _ _ _ _ _ _ _ _ Hbt). exact Es.
  - exact Es.
  - done.
  - rewrite blen_app. unfold blen. rewrite header_length, sdvs_length, El. unfold sizeof_sdpageheader, sizeof_sdv. lia.
Qed.
Lemma refs_next b b' ws w : (∀ i w, ws !! i = Some w → ref_of b ws i w) → bd_n b = length ws → take (bd_n b) (bd_list b') = take (bd_n b) (bd_list b) →
  ref_of b' ws (length ws) w → ∀ i w', (ws ++ [w]) !! i = Some w' → ref_of b' (ws ++ [w]) i w'.
Proof.
  intros Hr Hn Ht Hw i w' [[Hi Hlt]|[-> ->]]%lookup_snoc_cases; unfold ref_of; rewrite take_app_le by lia.
  - destruct (Hr i w' Hi) as (ref & E & Hf). exists ref. split; [|done]. rewrite <- (lookup_take_lt _ (bd_n b)) in E by lia. rewrite <- Ht, lookup_take_lt in E by lia. done.
  - exact Hw.
Qed.
Lemma merged_next T dup offset b x ws b' x' n w : merged T dup offset b x ws →
  ready dup T b' (cat w_m ws ++ w_m w) (cat w_v ws ++ w_v w) (cat w_k ws ++ w_k w) → indexing T x' offset ((w_add <$> ws) ++ [w_add w]) →
  index_fits offset ((w_add <$> ws) ++ [w_add w]) → page_good w → page_small T w → a_offset (w_add w) = blen (cat w_m ws) + blen (cat w_v ws) + blen (cat w_k ws) →
  n = bd_n b → bd_n b' = S n → bd_c b' = bd_c b → take n (bd_list b') = take n (bd_list b) → ref_of b' ws (length ws) w → merged T dup offset b' x' (ws ++ [w]).
Proof.
  intros [Hrd Hix Hf Hp Hs Ho Hn Hc Hr] Hrd' Hix' Hf' Hp' Hs' Ho' -> Hn' Hc' Ht Href. split.
  - by rewrite !cat_app.
  - by rewrite fmap_app.
  - by rewrite fmap_app.
  - apply Forall_app. by split; [|constructor].
  - apply Forall_app. by split; [|constructor].
  - intros i w' [[Hi Hlt]|[-> ->]]%lookup_snoc_cases; rewrite take_app_le by lia; [by apply Ho|]. by rewrite take_ge, cat_bytes by lia.
  - rewrite length_app. cbn [length]. lia.
  - by rewrite Hc'.
  - by apply (refs_next b).
Qed.

(** What the runtime provides to a merge. *)
Record merge_env (T : Z) (conf : sdmergeconf) : Prop := {
  en_T : 4 * T <= INT_MAX;
  en_crc : ∀ c p, is_u32 (crcf c p);
  en_node : c_compression_key conf = true → is_Some (ss_malloc 16);
  en_plain : c_compression conf = false;
  en_count : (r_fmt_storage r = SF_SKEYVALUE → s_count (r_scheme r) <= 8)%nat;
  en_offset : is_u64 (c_offset conf);
  en_size : is_u64 (c_size_node conf)
}.
(** The only reason for a failure: no memory. *)
Definition out_of_memory : Prop := refused ∨ ∃ n, g n = false.

Lemma merge_page_ok T conf m ws outs im1 : merge_env T conf →
  merged T (c_compression_key conf) (c_offset conf) (m_build m) (m_index m) ws →
  writeiter_drain upd fuel fuel (m_i m) = Some (outs, im1) → page_ok outs →
  blen (cat w_m ws) + need_m outs <= T → blen (cat w_v ws) + costs r (marks outs) <= T → blen (cat w_k ws) + costs r (marks outs) <= T →
  Z.of_nat sizeof_sdindexheader + Z.of_nat sizeof_sdindexpage * Z.of_nat (length ws) + blen (keys_of (w_add <$> ws)) + need_i outs <= T →
  wp (merge_page upd r crcf compression g fuel conf) m (λ rc m', (rc = -1 ∧ out_of_memory) ∨
    (rc = 0 ∧ ∃ w x' b', m' = mk_sdmerge x' im1 (m_processed m) b' ∧ w_svs w = page_svs outs ∧
      blen (w_v w) <= costs r (marks outs) ∧ blen (w_k w) <= costs r (marks outs) ∧
      merged T (c_compression_key conf) (c_offset conf) b' x' (ws ++ [w]))).
Proof.
  intros [HT Hcrc Hnode Hnc H8 Ho _] Hme Hd Hok HM HV HK HI. destruct (page_ok_storable outs Hok) as [Hst Hkeys]. set (dup := c_compression_key conf) in *.
  set (M0 := cat w_m ws) in *. set (V0 := cat w_v ws) in *. set (K0 := cat w_k ws) in *. set (l := marks outs) in *.
  assert (length l = length outs) as Ell by apply length_fmap. unfold need_m, sizeof_sdpageheader, sizeof_sdv in HM.
  pose proof (costs_pos r l) as Hcp. unfold merge_page. rewrite Hnc.
  apply wp_bind, wp_lift. eapply wp_mono; [apply (buildbegin_ok r T (m_build m) M0 V0 K0); [done|apply Hme|unfold sizeof_sdpageheader; lia]|].
  intros rc b1 [[-> Hno]|(-> & Ed & Ec & _ & En & El & Et1 & _ & Ecc & Hp)]; [apply wp_ret; left; split; [done|]; destruct Hno; [by left|right; by eexists]|]. cbn [Z.eqb].
  apply wp_bind. eapply wp_mono; [eapply (versions_run fuel); [exact Hd|done|]|].
  { apply (add_all_ok r T M0 V0 K0 l HT b1 [] 0 _ _ _ _ Hp); [by unfold node_memory; rewrite Ed|done|lia|lia|cbn [length]; unfold sizeof_sdpageheader, sizeof_sdv; lia]. }
  intros rc m2 (b2 & i2 & [[-> Hno]|(-> & Hcfg & h & ds & body & keys & Hp2)] & -> & Hi2); [apply wp_ret; left; split; [done|by left]|]. specialize (Hi2 eq_refl) as ->. cbn [Z.eqb].
  unfold config in Hcfg. injection Hcfg as El2 Ed2 Ec2 _ En2 Ecc2.
  destruct (buildend_ok r crcf compression T b2 M0 V0 K0 (page_svs outs) (costs r l) h ds body keys) as (b3 & h3 & E3 & Hbt & Hb3 & ls & mm & -> & Hls & Hts); try done.
  { congruence. } { rewrite page_svs_length. unfold sizeof_sdpageheader, sizeof_sdv. lia. }
  apply wp_bind, wp_lift. unfold wp at 1. cbn [m_build with_mbuild]. rewrite E3. cbn [Z.eqb]. apply wp_bind. unfold cget at 1, wp at 1. cbn [m_build with_mbuild].
  set (b3 := with_m mm (with_list ls b2)) in *. set (w := new_page b3 ws (page_svs outs) h3 ds body keys).
  pose proof (new_page_good b3 _ M0 V0 K0 ws _ _ _ _ _ Hbt) as Hgood. fold w in Hgood.
  pose proof (ps_body _ _ _ _ _ _ _ _ _ _ _ _ Hp2) as Hlb. pose proof (ps_keys _ _ _ _ _ _ _ _ _ _ _ _ Hp2) as Hlk. rewrite Z.add_0_l in Hlb, Hlk.
  pose proof (pg_m w Hgood) as Elm. cbn [w w_svs new_page] in Elm. rewrite page_svs_length in Elm. unfold sizeof_sdpageheader, sizeof_sdv in Elm.
  pose proof (blen_pos M0). pose proof (blen_pos V0). pose proof (blen_pos K0). pose proof HT as HT'. unfold INT_MAX in HT'.
  assert (page_small T w) as Hsmall.
  { split_and!; cbn [w new_page w_add a_header a_vmax a_offset w_svs]; [apply (bg_h _ _ _ _ _ _ _ _ _ Hb3)|apply Hp2|done|fold M0 V0 K0; unfold in_u; lia|]. unfold w_bytes.
    rewrite !blen_app. cbn [w new_page w_v w_k]. lia. }
  assert (blen (keys_of ((w_add <$> ws) ++ [w_add w])) = blen (keys_of (w_add <$> ws)) + blen (range_of r (page_svs outs)).1 + blen (range_of r (page_svs outs)).2) as Ekeys.
  { rewrite keys_of_app, !blen_app. cbn [w new_page w_add a_keys]. lia. }
  unfold need_i, sizeof_sdindexheader, sizeof_sdindexpage in HI.
  assert (index_fits (c_offset conf) ((w_add <$> ws) ++ [w_add w])) as Hfits.
  { change [w_add w] with (w_add <$> [w]). rewrite <- fmap_app. apply (fits_all T); [done|done| | | |].
    - apply Forall_app. split; [apply Hme|by constructor].
    - apply Forall_app. split; [apply Hme|by constructor].
    - rewrite cat_app, blen_app. fold M0. lia.
    - rewrite fmap_app. cbn [fmap list_fmap]. rewrite Ekeys, length_app. cbn [length]. unfold sizeof_sdindexheader, sizeof_sdindexpage. lia. }
  apply wp_bind, wp_lift. eapply wp_mono.
  { apply (indexadd_ok r crcf T (m_index m) (c_offset conf) (w_add <$> ws) b3 M0 V0 K0 (page_svs outs) h3 ds body keys (range_of r (page_svs outs))); try done.
    - apply Hme. - by cbn; congruence. - unfold in_u. lia. - by apply range_of_ok.
    - rewrite length_fmap. unfold sizeof_sdindexheader, sizeof_sdindexpage. pose proof (blen_pos (keys_of (w_add <$> ws))).
      pose proof (blen_pos (range_of r (page_svs outs)).1). pose proof (blen_pos (range_of r (page_svs outs)).2). lia.
    - change (mk_padd _ _ _ _) with (w_add w). rewrite Ekeys. lia. }
  intros rc x' [[-> Hno]|(-> & _ & Hix)]; [apply wp_ret; left; split; [done|by left]|]. cbn [Z.eqb].
  destruct (buildcommit_ok _ _ _ _ _ _ _ _ _ Hb3) as (b4 & E4 & En4 & El4 & Em & Ev & Ek & _ & Ecc4 & Hrd4); [cbn; congruence|cbn; rewrite Hls, El2, El, En2, En; lia|apply Hp2|apply Hp2|].
  apply wp_bind, wp_lift. unfold wp at 1. cbn [m_build with_mindex with_mbuild]. rewrite E4. apply wp_ret. right. split; [done|].
  exists w, x', b4. split_and!; [done|done|cbn [w new_page w_v]; lia|cbn [w new_page w_k]; lia|].
  cbn [bd_n bd_compress_dup b3 with_m with_list] in En4, Hrd4. rewrite Ed2, Ed in Hrd4. apply (merged_next T dup (c_offset conf) (m_build m) (m_index m) ws b4 x' (bd_n (m_build m)) w); try done.
  - congruence.
  - rewrite Ecc4. cbn [b3 bd_c with_m with_list]. congruence.
  - rewrite El4. cbn [b3 bd_list with_m with_list]. rewrite <- Et1, <- El2, <- En, <- En2. exact Hts.
  - destruct (bt_ref _ _ _ _ _ _ _ _ _ _ _ _ Hbt) as (ref & Eref & Hf). exists ref. rewrite El4. rewrite En2, En, (me_n _ _ _ _ _ _ Hme) in Eref.
    split; [exact Eref|]. rewrite take_ge by lia. fold M0 V0 K0. cbn [w new_page w_m w_v w_k]. tauto.
Qed.

(** ** All pages *)

Definition needs (f : list (sv * bool) → Z) (pages : list (list (sv * bool))) : Z := foldr (λ p n, f p + n) 0 pages.
(** Pages that fit behind those written. *)
Record room (T : Z) (ws : list wpage) (pages : list (list (sv * bool))) : Prop := {
  ro_ok : Forall page_ok pages;
  ro_m : blen (cat w_m ws) + needs need_m pages <= T;
  ro_v : blen (cat w_v ws) + needs (λ p, costs r (marks p)) pages <= T;
  ro_k : blen (cat w_k ws) + needs (λ p, costs r (marks p)) pages <= T;
  ro_i : Z.of_nat sizeof_sdindexheader + Z.of_nat sizeof_sdindexpage * Z.of_nat (length ws) + blen (keys_of (w_add <$> ws)) + needs need_i pages <= T
}.
Lemma needs_pos f pages : (∀ p, 0 <= f p) → 0 <= needs f pages.
Proof. intros Hf. unfold needs. induction pages as [|p pages IH]; cbn [foldr]; [done|]. specialize (Hf p). lia. Qed.
Lemma need_m_pos p : 0 <= need_m p.
Proof. unfold need_m. lia. Qed.
Lemma need_i_pos p : 0 <= need_i p.
Proof. unfold need_i. pose proof (blen_pos (range_of r (page_svs p)).1). pose proof (blen_pos (range_of r (page_svs p)).2). lia. Qed.
Lemma room_first T ws p pages : room T ws (p :: pages) → page_ok p ∧ blen (cat w_m ws) + need_m p <= T ∧ blen (cat w_v ws) + costs r (marks p) <= T ∧
  blen (cat w_k ws) + costs r (marks p) <= T ∧
  Z.of_nat sizeof_sdindexheader + Z.of_nat sizeof_sdindexpage * Z.of_nat (length ws) + blen (keys_of (w_add <$> ws)) + need_i p <= T.
Proof.
  intros [[Hok _]%Forall_cons Hm Hv Hk Hi]. unfold needs in *. cbn [foldr] in *. pose proof (needs_pos need_m pages need_m_pos). pose proof (needs_pos need_i pages need_i_pos).
  pose proof (needs_pos (λ p, costs r (marks p)) pages (λ p, costs_pos r (marks p))). unfold needs in *. split_and!; (done || lia).
Qed.
Lemma room_next T ws w p pages : room T ws (p :: pages) → page_good w → w_svs w = page_svs p → blen (w_v w) <= costs r (marks p) → blen (w_k w) <= costs r (marks p) →
  room T (ws ++ [w]) pages.
Proof.
  intros [[Hok Hoks]%Forall_cons Hm Hv Hk Hi] Hg Hs Hlv Hlk. unfold needs in *. cbn [foldr] in *. pose proof (pg_m w Hg) as Em. rewrite Hs, page_svs_length in Em. unfold need_m at 1 in Hm.
  split; [done|rewrite cat_app, blen_app; unfold needs; lia..|]. rewrite fmap_app, length_app. cbn [fmap list_fmap length]. rewrite keys_of_app, !blen_app, (pg_keys w Hg), Hs.
  unfold need_i at 1 in Hi. unfold needs. lia.
Qed.

Lemma sizes_total ws : Forall page_good ws → total a_size (w_add <$> ws) = blen (cat w_bytes ws).
Proof.
  unfold total, cat. induction 1 as [|w ws Hw _ IH]; [done|]. rewrite !fmap_cons. cbn [foldr concat]. by rewrite blen_app, IH, (pg_size w Hw).
Qed.
Lemma indextotal_run T dup offset b x ws : 4 * T <= INT_MAX → merged T dup offset b x ws → blen (cat w_m ws) <= T → blen (cat w_v ws) <= T → blen (cat w_k ws) <= T →
  sd_indextotal x = Some (blen (cat w_bytes ws), x).
Proof.
  intros HT Hme HM HV HK. destruct (me_indexing _ _ _ _ _ _ Hme) as [Hic Hi _ _]. unfold INT_MAX in HT.
  unfold sd_indextotal, cbind at 1, cget. assert (no_memory x = false) as ->.
  { unfold no_memory. destruct (b_at (xi x)) eqn:Ea; [|done|done]. pose proof (bo_null _ (proj1 Hic) Ea) as E. unfold content in Hi. rewrite E, take_nil in Hi.
    apply (f_equal length) in Hi. rewrite length_app, idxheader_length in Hi. done. }
  unfold cbind. rewrite (indexheader_run T x offset (w_add <$> ws) (sd_idinit 0 0 0) _ Hic Hi (me_fits _ _ _ _ _ _ Hme) id0_ok). unfold cret.
  cbn [header_of x_total]. rewrite sizes_total by apply Hme. rewrite wrap_id; [done|]. rewrite cat_bytes. pose proof (blen_pos (cat w_m ws)). pose proof (blen_pos (cat w_v ws)). pose proof (blen_pos (cat w_k ws)). unfold in_u. lia.
Qed.
(** The stream behind the pages: it is at its end, or the limit was passed and the iterator
    is at the first version of the next page. *)
Definition left_over (limit : Z) (im : svwriteiter M) (ws : list wpage) (rest : list (list (sv * bool))) : Prop :=
  (rest = [] ∧ sv_writeiter_has im = false) ∨
  (rest ≠ [] ∧ sv_writeiter_has im = true ∧ (∃ n, write_all upd n fuel im = Some rest) ∧ limit < blen (cat w_bytes ws)).
Lemma resume_has im b im' : sv_writeiter_resume im = Some (b, im') → sv_writeiter_has im' = b.
Proof.
  unfold sv_writeiter_resume, sv_writeiter_has. destruct (mg_of (wi_merge im)) as [v|]; [|by intros [= <- <-]].
  destruct (mg_dup (wi_merge im) v); [|done]. cbn [mbind option_bind]. by intros [= <- <-].
Qed.
Lemma merge_pages_ok T conf limit pages : merge_env T conf → ∀ k n m ws current, write_all upd n fuel (m_i m) = Some pages → sv_writeiter_has (m_i m) = true →
  (length pages < k)%nat → room T ws pages → merged T (c_compression_key conf) (c_offset conf) (m_build m) (m_index m) ws → current = blen (cat w_bytes ws) →
  wp (merge_pages upd r crcf compression g fuel k conf limit current) m (λ rc m', (rc = -1 ∧ out_of_memory) ∨ (rc = 0 ∧ ∃ done rest ws' b' x',
    pages = done ++ rest ∧ w_svs <$> ws' = page_svs <$> done ∧ m' = mk_sdmerge x' (m_i m') (m_processed m) b' ∧ room T (ws ++ ws') rest ∧
    merged T (c_compression_key conf) (c_offset conf) b' x' (ws ++ ws') ∧ left_over limit (m_i m') (ws ++ ws') rest ∧
    (current <= limit → ws' ≠ []) ∧ ∀ i, (i < length ws')%nat → blen (cat w_bytes (ws ++ take i ws')) <= limit)).
Proof.
  intros Henv. induction pages as [|p pages IH]; intros k n m ws current Hw Hh Hk Hroom Hme Hc; (destruct k as [|k]; [cbn [length] in Hk; lia|]).
  { destruct n as [|n]; [done|]. cbn [write_all] in Hw. destruct (writeiter_drain upd fuel fuel (m_i m)) as [[l im1]|]; [|done]. cbn [mbind option_bind] in Hw.
    destruct (sv_writeiter_resume im1) as [[[] im2]|]; [|done|done]. cbn [mbind option_bind fst snd] in Hw. by destruct (write_all upd n fuel im2). }
  cbn [merge_pages]. apply wp_bind. unfold cget at 1, wp at 1. rewrite Hh. cbn [andb]. destruct (Z.leb_spec current limit) as [Hcur|Hcur]; cbn [negb].
  2: { apply wp_ret. right. split; [done|]. exists [], (p :: pages), [], (m_build m), (m_index m). rewrite app_nil_r. split_and!; try done.
       - by destruct m. - right. split_and!; [done|done|by exists n|lia]. - lia. - cbn. lia. }
  destruct n as [|n]; [done|]. cbn [write_all] in Hw. destruct (writeiter_drain upd fuel fuel (m_i m)) as [[l im1]|] eqn:Ed; [|done]. cbn [mbind option_bind] in Hw.
  destruct (sv_writeiter_resume im1) as [[more im2]|] eqn:Er; [|done]. cbn [mbind option_bind fst snd] in Hw.
  assert (l = p) as -> by (destruct more; [destruct (write_all upd n fuel im2)|]; by inversion Hw). destruct (room_first _ _ _ _ Hroom) as (Hok & HM & HV & HK & HI).
  apply wp_bind. eapply wp_mono; [by apply (merge_page_ok T conf m ws p im1)|].
  intros rc m1 [[-> Hno]|(-> & w & x1 & b1 & -> & Hs & Hlv & Hlk & Hme1)]; [apply wp_ret; by left|]. cbn [Z.eqb].
  pose proof (me_pages _ _ _ _ _ _ Hme1) as Hgs. apply Forall_app in Hgs as [_ Hgw]. apply Forall_inv in Hgw.
  pose proof (room_next T ws w p pages Hroom Hgw Hs Hlv Hlk) as Hroom1. pose proof (needs_pos need_m pages need_m_pos).
  pose proof (needs_pos (λ p, costs r (marks p)) pages (λ p, costs_pos r (marks p))).
  apply wp_bind, wp_lift. unfold wp at 1. cbn [m_index]. rewrite (indextotal_run T _ _ _ _ _ (en_T _ _ Henv) Hme1) by (destruct Hroom1; lia).
  apply wp_bind. unfold cread at 1, wp at 1. cbn [m_i with_mindex]. rewrite Er. apply wp_bind. unfold mmodify at 1, wp at 1. cbn [fst snd with_mi with_mindex m_index m_processed m_build].
  pose proof (resume_has _ _ _ Er) as Hh2. destruct more; cbn [negb].
  - destruct (write_all upd n fuel im2) as [ls|] eqn:Ew; [|done]. injection Hw as ->. cbn [length] in Hk.
    eapply wp_mono; [apply (IH k n (mk_sdmerge x1 im2 (m_processed m) b1) (ws ++ [w])); try done; lia|].
    intros rc m' [Hl|(-> & dn & rest & ws' & b' & x' & -> & Hs' & Em & Hroom' & Hme' & Hlo & _ & Hmin)]; [by left|]. right. split; [done|].
    rewrite <- app_assoc in *. exists (p :: dn), rest, (w :: ws'), b', x'. split_and!; try done.
    + rewrite !fmap_cons. congruence.
    + intros [|i] Hi; cbn [take length] in *; [by rewrite app_nil_r, <- Hc|]. specialize (Hmin i ltac:(lia)). by rewrite <- app_assoc in Hmin.
  - injection Hw as <-. apply wp_ret. right. split; [done|]. exists [p], [], [w], b1, x1. split_and!; try done.
    + cbn. by rewrite Hs. + by left. + intros [|i] Hi; cbn [take length] in *; [by rewrite app_nil_r, <- Hc|lia].
Qed.

(** ** The branch *)

Lemma reset_cap T (c : ssbuf) : buf_cap T c → buf_cap T (ss_bufreset c) ∧ content (ss_bufreset c) = [].
Proof. intros [[Hp Hn Hr] Hs]. split; [split; [split; cbn; (done || lia)|done]|done]. Qed.
Lemma reset_ready dup T b M0 V0 K0 : ready dup T b M0 V0 K0 → ready dup T (sd_buildreset b) [] [] [] ∧ bd_n (sd_buildreset b) = 0%nat.
Proof.
  intros [Hmc Hm Hvc Hv Hkc Hk Hn Hvm Ht]. split; [|done]. destruct (reset_cap T _ Hmc), (reset_cap T _ Hvc), (reset_cap T _ Hkc). split; try done.
  intros Hd. destruct (Ht Hd) as [E|[E _]]; [left; by cbn|]. right. by cbn.
Qed.
Lemma merge_limit_pos T conf p : merge_env T conf → 0 <= merge_limit conf p.
Proof.
  intros Henv. pose proof (en_size _ _ Henv) as Hs. unfold merge_limit, UINT64_MAX, in_u in *. cbv zeta. repeat case_match; lia.
Qed.
(** The pages [done] of the stream have been written as [ws], [rest] are left. *)
Record cut (limit : Z) (pages : list (list (sv * bool))) (ws : list wpage) (im : svwriteiter M) (done rest : list (list (sv * bool))) : Prop := {
  cu_pages : pages = done ++ rest;
  cu_svs : w_svs <$> ws = page_svs <$> done;
  cu_some : done ≠ [];
  cu_left : left_over limit im ws rest;
  cu_min : ∀ i, (i < length ws)%nat → blen (cat w_bytes (take i ws)) <= limit
}.
Lemma merge_ok T conf m pages k n M0 V0 K0 : merge_env T conf → write_all upd n fuel (m_i m) = Some pages → sv_writeiter_has (m_i m) = true →
  (length pages < k)%nat → room T [] pages → ready (c_compression_key conf) T (m_build m) M0 V0 K0 →
  wp (sd_merge upd r crcf compression g fuel k conf) m (λ rc m', (rc = -1 ∧ out_of_memory) ∨ (rc = 1 ∧ ∃ done rest ws,
    cut (merge_limit conf (m_processed m)) pages ws (m_i m') done rest ∧ room T ws rest ∧
    merged T (c_compression_key conf) (c_offset conf) (m_build m') (m_index m') ws ∧ m_processed m' = u64 (m_processed m + blen (cat w_bytes ws)))).
Proof.
  intros Henv Hw Hh Hk Hroom Hrd. pose proof (en_T _ _ Henv) as HT. destruct (reset_ready _ _ _ _ _ _ Hrd) as [Hrd0 Hn0].
  unfold sd_merge. apply wp_bind. unfold cget at 1, wp at 1. rewrite Hh. cbn [negb]. apply wp_bind. unfold mmodify at 1, wp at 1.
  pose proof (needs_pos need_i pages need_i_pos). pose proof (ro_i _ _ _ Hroom) as Hi0. unfold sizeof_sdindexheader, sizeof_sdindexpage in Hi0. assert (132 <= T) as HT132 by (pose proof (blen_pos (keys_of (w_add <$> []))); cbn [length] in Hi0; lia). clear Hi0.
  apply wp_bind, wp_lift. cbn [m_index with_mindex with_mbuild].
  assert (buf_cap T ss_bufinit) as Hcap by (split; [by split|unfold ss_bufsize; cbn; lia]).
  eapply wp_mono; [apply (indexbegin_ok T sd_indexinit (c_offset conf)); (done || (unfold sizeof_sdindexheader; lia))|].
  intros rc x [[-> Hno]|(-> & _ & Hix)]; [apply wp_ret; left; split; [done|by left]|]. cbn [Z.eqb]. cbv zeta. set (m1 := with_mindex x _). set (limit := merge_limit _ _).
  assert (merged T (c_compression_key conf) (c_offset conf) (m_build m1) (m_index m1) []) as Hme.
  { split; try done; [|by intros i w ?..]. apply (fits_all T _ []); [done|apply Henv|constructor|constructor|change (0 <= T); lia|done]. }
  apply wp_bind. eapply wp_mono; [apply (merge_pages_ok T conf limit pages Henv k n m1 [] 0); done|].
  intros rc m2 [[-> Hno]|(-> & dn & rest & ws & b & x2 & Ep & Hs & Em & Hroom2 & Hme2 & Hlo & Hne & Hmin)]; [apply wp_ret; by left|]. cbn [Z.eqb app] in *.
  apply wp_bind, wp_lift. unfold wp at 1. rewrite Em. cbn [m_index]. pose proof (needs_pos need_m rest need_m_pos).
  pose proof (needs_pos (λ p, costs r (marks p)) rest (λ p, costs_pos r (marks p))).
  rewrite (indextotal_run T _ _ _ _ _ HT Hme2) by (destruct Hroom2; lia). apply wp_bind. unfold mmodify at 1, wp at 1. apply wp_ret. right. split; [done|].
  exists dn, rest, ws. split_and!; [|done|done|done]. split; try done. intros ->. apply Hne; [by apply (merge_limit_pos T)|]. apply (f_equal length) in Hs. rewrite !length_fmap in Hs. by destruct ws.
Qed.
End proofs.
