(* ===== verification/SsFile.v ===== *)
(** Files and vectors of blocks: ss_iov.h, ss_file.h and ss_file.c.  The system calls may be
    interrupted, fail or do a part of the work; what they do is a list of answers, and once the
    list is used up they do all of it. *)
From stdpp Require Import base list.
From S2P Require Import Prelude Sv SsBytes SsBuf.
Local Open Scope Z_scope.
Local Open Scope c_scope.

(** * Vectors *)

(** The blocks between [v] and [v + iovc]. *)
Record ssiov := mk_iov { io_v : list bytes; io_max : Z }.
Definition ss_iovinit (max : Z) : ssiov := mk_iov [] max.
Definition ss_iovensure (v : ssiov) (count : Z) : bool := Z.ltb (Z.of_nat (length (io_v v)) + count) (io_max v).
Definition ss_iovhas (v : ssiov) : bool := Z.gtb (Z.of_nat (length (io_v v))) 0.
Definition ss_iovreset (v : ssiov) : ssiov := mk_iov [] (io_max v).
Definition ss_iovadd (bs : bytes) : cmd ssiov () :=
  let! v := cget in
  cassert (Z.ltb (Z.of_nat (length (io_v v))) (io_max v));;;
  cput (mk_iov (io_v v ++ [bs]) (io_max v)).

(** * The system *)

Inductive answer := AInterrupt | AError | ACount (n : nat).
(** An open file: its bytes, the position of the descriptor, and the answers to come. *)
Record osfile := mk_os { o_data : bytes; o_pos : nat; o_answers : list answer }.
Definition os_answer (all : nat) : cmd osfile answer := λ o,
  match o_answers o with
  | [] => Some (ACount all, o)
  | a :: l => Some (a, mk_os (o_data o) (o_pos o) l)
  end.
(** Bytes put over a part of the file, with zeros before it if the file ends there. *)
Definition overwrite (pos : nat) (bs data : bytes) : bytes :=
  take pos data ++ replicate (pos - length data) 0 ++ bs ++ drop (pos + length bs) data.

(** The result of a call: -1 with [EINTR], -1 with another error, or a count. *)
Inductive sysret := RIntr | RFail | RCount (n : nat).
Definition sys_write (bs : bytes) : cmd osfile sysret :=
  let! a := os_answer (length bs) in
  match a with
  | AInterrupt => cret RIntr
  | AError => cret RFail
  | ACount n => λ o,
      let w := take n bs in
      Some (RCount (length w), mk_os (overwrite (o_pos o) w (o_data o)) (o_pos o + length w) (o_answers o))
  end.
Definition sys_writev (v : list bytes) : cmd osfile sysret := sys_write (concat v).
(** The bytes read are those of the file from [off], at most [size] and as many as answered. *)
Definition sys_pread (off size : nat) : cmd osfile (sysret * bytes) :=
  let! a := os_answer size in
  match a with
  | AInterrupt => cret (RIntr, [])
  | AError => cret (RFail, [])
  | ACount n => λ o, let bs := take (n `min` size) (drop off (o_data o)) in Some ((RCount (length bs), bs), o)
  end.
Definition sys_answer : cmd osfile bool :=
  let! a := os_answer 0 in cret (match a with ACount _ => true | _ => false end).

(** [do { r = call } while (r == -1 && errno == EINTR)] *)
Fixpoint again {A} (fuel : nat) (intr : A → bool) (call : cmd osfile A) : cmd osfile A :=
  match fuel with
  | O => cfail
  | S fuel => let! a := call in if intr a then again fuel intr call else cret a
  end.
Definition is_intr (r : sysret) : bool := match r with RIntr => true | _ => false end.

(** * Files *)

Record ssfile := mk_file { fl_size : Z; fl_os : osfile }.
Definition with_size (n : Z) (f : ssfile) := mk_file n (fl_os f).
Definition on_os {A} (m : cmd osfile A) : cmd ssfile A := λ f,
  match m (fl_os f) with Some (a, o) => Some (a, mk_file (fl_size f) o) | None => None end.
Definition fmodify (h : ssfile → ssfile) : cmd ssfile () := λ f, Some ((), h f).

Section calls.
Context (fuel : nat).

(** [n]: the bytes of [buf] written so far. *)
Definition filewrite_turn (buf : bytes) (n : nat) : cmd osfile (nat + bool) :=
  let! r := again fuel is_intr (sys_write (drop n buf)) in
  match r with
  | RCount (S k) => let n := (n + S k)%nat in cret (if Nat.eqb n (length buf) then inr true else inl n)
  | _ => cret (inr false)
  end.
Definition ss_filewrite (buf : bytes) : cmd ssfile Z :=
  let! ok := on_os (cloop fuel (filewrite_turn buf) 0%nat) in
  if ok : bool then fmodify (λ f, with_size (u64 (fl_size f + Z.of_nat (length buf))) f);;; cret 0 else cret (-1).

(** The blocks left after [r] bytes. *)
Fixpoint iov_left (r : nat) (v : list bytes) : list bytes :=
  match v with
  | [] => []
  | b :: v => if (r <? length b)%nat then drop r b :: v else iov_left (r - length b) v
  end.
Definition filewritev_turn (st : list bytes * Z) : cmd osfile (list bytes * Z + option Z) :=
  let '(v, size) := st in
  let! r := again fuel is_intr (sys_writev v) in
  match r with
  | RCount k =>
      let size := u64 (size + Z.of_nat k) in
      let v := iov_left k v in
      cret (match v with [] => inr (Some size) | _ => inl (v, size) end)
  | _ => cret (inr None)
  end.
Definition ss_filewritev (v : list bytes) : cmd ssfile Z :=
  let! res := on_os (cloop fuel filewritev_turn (v, 0)) in
  match res with
  | None => cret (-1)
  | Some size => fmodify (λ f, with_size (u64 (fl_size f + size)) f);;; cret 0
  end.

(** Reads into a buffer; [None]: -1. *)
Definition filepread_turn (off size : nat) (got : bytes) : cmd osfile (bytes + option bytes) :=
  let n := length got in
  let! r := again fuel (λ r, is_intr r.1) (sys_pread (off + n) (size - n)) in
  match r.1 with
  | RCount (S _) => let got := got ++ r.2 in cret (if Nat.eqb (length got) size then inr (Some got) else inl got)
  | _ => cret (inr None)
  end.
Definition ss_filepread (off size : nat) : cmd ssfile (option bytes) := on_os (cloop fuel (filepread_turn off size) []).
End calls.

(** [fdatasync] *)
Definition ss_filesync : cmd ssfile Z := let! ok := on_os sys_answer in cret (if ok : bool then 0 else -1).
(** [lseek] and [ftruncate]: whether the system did it.  The offset is answered as an [int]. *)
Definition ss_fileseek (off : Z) : cmd ssfile Z :=
  let! ok := on_os sys_answer in
  if ok : bool then fmodify (λ f, mk_file (fl_size f) (mk_os (o_data (fl_os f)) (Z.to_nat off) (o_answers (fl_os f))));;; cret (i32 off) else cret (-1).
Definition sys_truncate (size : nat) : cmd osfile bool :=
  let! ok := sys_answer in
  if ok : bool then λ o, Some (true, mk_os (take size (o_data o) ++ replicate (size - length (o_data o)) 0) (o_pos o) (o_answers o)) else cret false.
Definition ss_fileresize (size : Z) : cmd ssfile Z :=
  let! ok := on_os (sys_truncate (Z.to_nat size)) in
  if ok : bool then fmodify (with_size size);;; cret 0 else cret (-1).
Definition ss_filesvp (f : ssfile) : Z := fl_size f.
Definition ss_filerlb (svp : Z) : cmd ssfile Z :=
  let! f := cget in
  if Z.eqb (fl_size f) svp then cret 0 else
  let! ok := on_os (sys_truncate (Z.to_nat svp)) in
  if negb ok then cret (-1) else
  fmodify (with_size svp);;;
  let! rc := ss_fileseek svp in
  if Z.eqb rc (-1) then cret (-1) else cret 0.

(** * Correctness *)

Definition os_ok (o : osfile) : Prop := (o_pos o <= length (o_data o))%nat.
(** The bytes [bs] have been written at the position, which is behind them now. *)
Definition wrote (o o' : osfile) (bs : bytes) : Prop :=
  o_data o' = overwrite (o_pos o) bs (o_data o) ∧ o_pos o' = (o_pos o + length bs)%nat ∧ o_answers o' `suffix_of` o_answers o.

Lemma overwrite_nil pos data : (pos <= length data)%nat → overwrite pos [] data = data.
Proof. intros Hp. unfold overwrite. replace (pos - length data)%nat with 0%nat by lia. cbn. by rewrite Nat.add_0_r, take_drop. Qed.
Lemma overwrite_length pos bs data : (pos <= length data)%nat → length (overwrite pos bs data) = (length data `max` (pos + length bs))%nat.
Proof. intros Hp. unfold overwrite. rewrite !length_app, length_replicate, length_take, length_drop. lia. Qed.
Lemma overwrite_app pos a b data : (pos <= length data)%nat →
  overwrite (pos + length a) b (overwrite pos a data) = overwrite pos (a ++ b) data.
Proof.
  intros Hp. pose proof (overwrite_length pos a data Hp) as Hl. unfold overwrite at 1.
  replace (pos + length a - length (overwrite pos a data))%nat with 0%nat by lia. unfold overwrite.
  replace (pos - length data)%nat with 0%nat by lia. cbn [replicate app].
  rewrite (app_assoc (take pos data) a), take_app_length' by (rewrite length_app, length_take; lia).
  rewrite drop_app_ge by (rewrite length_app, length_take; lia). rewrite drop_drop, length_app, length_take, <- !app_assoc. do 4 f_equal. rewrite length_app. lia.
Qed.
Lemma wrote_ok o o' bs : os_ok o → wrote o o' bs → os_ok o'.
Proof. unfold os_ok. intros Ho (-> & -> & _). rewrite overwrite_length by done. lia. Qed.
Lemma wrote_nil o o' : os_ok o → o_data o' = o_data o → o_pos o' = o_pos o → o_answers o' `suffix_of` o_answers o → wrote o o' [].
Proof. intros Ho E1 E2 Hs. split_and!; [by rewrite overwrite_nil|cbn; lia|done]. Qed.
Lemma wrote_trans o1 o2 o3 a b : os_ok o1 → wrote o1 o2 a → wrote o2 o3 b → wrote o1 o3 (a ++ b).
Proof.
  intros Ho (E1 & P1 & S1) (E2 & P2 & S2). split_and!; [by rewrite E2, P1, E1, overwrite_app|rewrite P2, P1, length_app; lia|by trans (o_answers o2)].
Qed.

(** A call, however often it is interrupted, fails or writes a part; it writes all of it when
    the system has no more to say. *)
Lemma again_write bs fuel : ∀ o, os_ok o → (length (o_answers o) < fuel)%nat →
  ∃ r o', again fuel is_intr (sys_write bs) o = Some (r, o') ∧
    ((r = RFail ∧ wrote o o' [] ∧ AError ∈ o_answers o) ∨
     (∃ k, r = RCount (length (take k bs)) ∧ wrote o o' (take k bs) ∧ (length bs <= k ∨ length (o_answers o') < length (o_answers o))%nat)).
Proof.
  induction fuel as [|fuel IH]; intros [d p l] Ho Hf; [lia|]. cbn [again]. unfold cbind at 1, sys_write, cbind, os_answer, cret. cbn [o_answers o_data o_pos] in *.
  destruct l as [|[| |n] l].
  - eexists _, _. split; [done|]. right. exists (length bs). split; [done|]. split; [split_and!; done|lia].
  - cbn [is_intr length] in *. destruct (IH (mk_os d p l)) as (r & o' & E & HE); [done|cbn; lia|]. unfold sys_write, cbind, os_answer, cret in E. rewrite E. exists r, o'. split; [done|].
    cbn in HE. assert (∀ w, wrote (mk_os d p l) o' w → wrote (mk_os d p (AInterrupt :: l)) o' w) as Hw.
    { intros w (E1 & E2 & E3). split_and!; [done|done|]. by apply suffix_cons_r. }
    destruct HE as [(-> & Hwr & He)|(k & -> & Hwr & Hk)]; [left|right].
    + split_and!; [done|by apply Hw|by right].
    + exists k. split_and!; [done|by apply Hw|]. cbn [length]. lia.
  - eexists _, _. split; [done|]. left. split_and!; [done|apply wrote_nil; try done; by apply suffix_cons_r|left].
  - eexists _, _. split; [done|]. right. exists n. split; [done|]. split; [split_and!; [done|done|by apply suffix_cons_r]|cbn; lia].
Qed.
Lemma iov_left_concat r v : concat (iov_left r v) = drop r (concat v).
Proof.
  revert r. induction v as [|b v IH]; intros r; cbn [iov_left concat]; [by rewrite drop_nil|].
  destruct (Nat.ltb_spec r (length b)); cbn [concat]; [by rewrite drop_app_le by lia|]. by rewrite IH, drop_app_ge by lia.
Qed.
Lemma iov_left_nil v : iov_left (length (concat v)) v = [].
Proof.
  induction v as [|b v IH]; [done|]. cbn [iov_left concat]. rewrite length_app. destruct (Nat.ltb_spec (length b + length (concat v)) (length b)); [lia|].
  by replace (length b + length (concat v) - length b)%nat with (length (concat v)) by lia.
Qed.
(** What the loop leaves: all blocks written, or a part of them and an error. *)
Definition writev_post (o : osfile) (v : list bytes) (size : Z) (res : option Z) (o' : osfile) : Prop :=
  (res = Some (u64 (size + Z.of_nat (length (concat v)))) ∧ wrote o o' (concat v)) ∨
  (res = None ∧ AError ∈ o_answers o ∧ ∃ k, wrote o o' (take k (concat v))).
Lemma writev_loop fuel v : ∀ n o size, os_ok o → (length (o_answers o) < n)%nat → (length (o_answers o) < fuel)%nat →
  ∃ res o', cloop n (filewritev_turn fuel) (v, size) o = Some (res, o') ∧ writev_post o v size res o'.
Proof.
  intros n. revert v. induction n as [|n IH]; intros v o size Ho Hn Hf; [lia|]. rewrite cloop_S. cbn [filewritev_turn]. unfold cbind at 1.
  destruct (again_write (concat v) fuel o Ho Hf) as (r & o1 & E & HE). unfold sys_writev. rewrite E. destruct HE as [(-> & Hw & He)|(k & -> & Hw & Hk)].
  - eexists _, _. split; [done|]. right. split_and!; [done|done|]. exists 0%nat. by rewrite take_0.
  - cbv zeta. set (j := length (take k (concat v))). assert (take k (concat v) = take j (concat v)) as Ek. { unfold j. rewrite length_take. destruct (decide (k <= length (concat v))%nat).
      - by rewrite Nat.min_l by lia. - by rewrite Nat.min_r, !take_ge by lia. }
    rewrite Ek in Hw. assert (j <= length (concat v))%nat as Hj by (unfold j; rewrite length_take; lia). destruct (iov_left j v) as [|b v'] eqn:Ev.
    + unfold cret. eexists _, _. split; [done|]. left. pose proof (iov_left_concat j v) as Ec. rewrite Ev in Ec. cbn in Ec. symmetry in Ec.
      apply (f_equal length) in Ec. rewrite length_drop in Ec. cbn in Ec. assert (j = length (concat v)) as Ej by lia. rewrite Ej in *. split; [done|]. by rewrite take_ge in Hw by lia.
    + unfold cret. destruct Hk as [Hk|Hk].
      { exfalso. assert (j = length (concat v)) as Ej by (unfold j; rewrite take_ge by lia; done). rewrite Ej, iov_left_nil in Ev. done. }
      destruct (IH (b :: v') o1 (u64 (size + Z.of_nat j))) as (res & o2 & E2 & HE); [by eapply wrote_ok|lia|lia|]. rewrite E2. exists res, o2. split; [done|].
      pose proof (iov_left_concat j v) as Ec. rewrite Ev in Ec. unfold writev_post in *. rewrite Ec in HE. destruct HE as [[-> Hw2]|(-> & He & i & Hw2)]; [left|right].
      * split; [|rewrite <- (take_drop j (concat v)); by eapply wrote_trans]. f_equal. rewrite length_drop. unfold wrap. rewrite Zplus_mod_idemp_l. f_equal. lia.
      * split_and!; [done|destruct Hw as (_ & _ & [pre ->]); apply elem_of_app; by right|]. exists (j + i)%nat. rewrite <- take_take_drop. by eapply wrote_trans.
Qed.
Lemma filewritev_ok fuel v f : os_ok (fl_os f) → (length (o_answers (fl_os f)) < fuel)%nat →
  ∃ rc f', ss_filewritev fuel v f = Some (rc, f') ∧
    ((rc = 0 ∧ wrote (fl_os f) (fl_os f') (concat v) ∧ fl_size f' = u64 (fl_size f + Z.of_nat (length (concat v)))) ∨
     (rc = -1 ∧ AError ∈ o_answers (fl_os f) ∧ (∃ k, wrote (fl_os f) (fl_os f') (take k (concat v))) ∧ fl_size f' = fl_size f)).
Proof.
  intros Ho Hf. destruct (writev_loop fuel v fuel (fl_os f) 0 Ho Hf Hf) as (res & o' & E & HE). unfold ss_filewritev, cbind at 1, on_os. rewrite E.
  destruct HE as [[-> Hw]|(-> & He & Hw)]; eexists _, _; (split; [done|]); [left|right; by split_and!].
  split_and!; [done|done|]. cbn. rewrite Z.add_0_l. unfold wrap. by rewrite Zplus_mod_idemp_r.
Qed.

(** A write of one block; a count of zero is taken for an error. *)
Definition stalls (l : list answer) : Prop := AError ∈ l ∨ ACount 0 ∈ l.
Lemma stalls_suffix l l' : l' `suffix_of` l → stalls l' → stalls l.
Proof. intros [pre ->] [H|H]; [left|right]; apply elem_of_app; by right. Qed.
Lemma again_stalls bs fuel o r o' : again fuel is_intr (sys_write bs) o = Some (r, o') → bs ≠ [] → r = RCount 0 → ACount 0 ∈ o_answers o.
Proof.
  revert o. induction fuel as [|fuel IH]; intros [d p l] E Hb ->; [done|]. cbn [again] in E. unfold cbind at 1, sys_write, cbind, os_answer, cret in E. cbn [o_answers o_data o_pos] in E.
  destruct l as [|[| |n] l]; cbn [o_answers]; cbn in E.
  - injection E as E _. rewrite length_take in E. destruct bs; [done|]. cbn in E. lia.
  - right. apply (IH (mk_os d p l)); [exact E|done|done].
  - done.
  - injection E as E _. rewrite length_take in E. destruct n; [left|]. destruct bs; [done|]. cbn in E. lia.
Qed.
Lemma write_loop fuel buf : ∀ n done o, os_ok o → (length (o_answers o) < n)%nat → (length (o_answers o) < fuel)%nat → (done < length buf)%nat →
  ∃ ok o', cloop n (filewrite_turn fuel buf) done o = Some (ok, o') ∧
    ((ok = true ∧ wrote o o' (drop done buf)) ∨ (ok = false ∧ stalls (o_answers o) ∧ ∃ k, wrote o o' (take k (drop done buf)))).
Proof.
  induction n as [|n IH]; intros done o Ho Hn Hf Hd; [lia|]. rewrite cloop_S. unfold filewrite_turn at 1, cbind at 1.
  destruct (again_write (drop done buf) fuel o Ho Hf) as (r & o1 & E & HE). rewrite E. destruct HE as [(-> & Hw & He)|(k & Er & Hw & Hk)].
  { eexists _, _. split; [done|]. right. split_and!; [done|by left|]. exists 0%nat. by rewrite take_0. }
  assert (drop done buf ≠ []) as Hne by (intros E0; apply (f_equal length) in E0; rewrite length_drop in E0; cbn in E0; lia).
  rewrite Er in *. destruct (length (take k (drop done buf))) as [|j] eqn:Ej.
  { eexists _, _. split; [done|]. right. split_and!; [done|right; by eapply again_stalls|]. exists k. done. }
  cbv zeta. unfold cret at 1. rewrite length_take, length_drop in Ej. destruct (Nat.eqb_spec (done + S j) (length buf)) as [Ee|Ee].
  - eexists _, _. split; [done|]. left. split; [done|]. rewrite take_ge in Hw by (rewrite length_drop; lia). done.
  - assert (k = S j) as -> by lia. assert (S j < length (drop done buf))%nat by (rewrite length_drop; lia).
    destruct (IH (done + S j)%nat o1) as (ok & o2 & E2 & HE); [by eapply wrote_ok|lia|lia|lia|]. rewrite E2. exists ok, o2. split; [done|].
    rewrite <- drop_drop in HE. destruct HE as [[-> Hw2]|(-> & Hs & i & Hw2)]; [left|right].
    + split; [done|]. rewrite <- (take_drop (S j) (drop done buf)). by eapply wrote_trans.
    + split_and!; [done|eapply stalls_suffix; [apply Hw|done]|]. exists (S j + i)%nat. rewrite <- take_take_drop. by eapply wrote_trans.
Qed.
Lemma filewrite_ok fuel buf f : os_ok (fl_os f) → (length (o_answers (fl_os f)) < fuel)%nat → buf ≠ [] →
  ∃ rc f', ss_filewrite fuel buf f = Some (rc, f') ∧
    ((rc = 0 ∧ wrote (fl_os f) (fl_os f') buf ∧ fl_size f' = u64 (fl_size f + Z.of_nat (length buf))) ∨
     (rc = -1 ∧ stalls (o_answers (fl_os f)) ∧ (∃ k, wrote (fl_os f) (fl_os f') (take k buf)) ∧ fl_size f' = fl_size f)).
Proof.
  intros Ho Hf Hb. destruct (write_loop fuel buf fuel 0 (fl_os f) Ho Hf Hf) as (ok & o' & E & HE); [destruct buf; [done|cbn; lia]|].
  unfold ss_filewrite, cbind at 1, on_os. rewrite E. rewrite drop_0 in HE. destruct HE as [[-> Hw]|(-> & Hs & Hw)]; eexists _, _; (split; [done|]); [left|right]; by split_and!.
Qed.

(** Reading. *)
Lemma again_pread off size fuel : ∀ o, (length (o_answers o) < fuel)%nat →
  ∃ r bs o', again fuel (λ r, is_intr r.1) (sys_pread off size) o = Some ((r, bs), o') ∧ o_data o' = o_data o ∧ o_pos o' = o_pos o ∧ o_answers o' `suffix_of` o_answers o ∧
    ((r = RFail ∧ AError ∈ o_answers o) ∨
     (∃ k, r = RCount (length bs) ∧ bs = take (k `min` size) (drop off (o_data o)) ∧ ((k = size ∧ o_answers o' = []) ∨ (ACount k ∈ o_answers o ∧ length (o_answers o') < length (o_answers o))%nat))).
Proof.
  induction fuel as [|fuel IH]; intros [d p l] Hf; [lia|]. cbn [again]. unfold cbind at 1, sys_pread, cbind, os_answer, cret. cbn [o_answers o_data o_pos] in *.
  destruct l as [|[| |n] l].
  - eexists _, _, _. split; [done|]. split_and!; [done|done|done|]. right. exists size. split_and!; [done|done|]. by left.
  - cbn [is_intr length fst] in *. destruct (IH (mk_os d p l)) as (r & bs & o' & E & E1 & E2 & Hs & HE); [cbn; lia|]. unfold sys_pread, cbind, os_answer, cret in E. rewrite E.
    exists r, bs, o'. split; [done|]. split_and!; [done|done|by apply suffix_cons_r|]. cbn in HE. destruct HE as [[-> He]|(k & -> & Eb & Hk)]; [left|right].
    + split; [done|by right].
    + exists k. split_and!; [done|done|]. destruct Hk as [[-> ->]|[Hk Hl]]; [by left|right]. split; [by right|]. cbn [length]. lia.
  - eexists _, _, _. split; [done|]. split_and!; [done|done|by apply suffix_cons_r|]. left. split; [done|left].
  - eexists _, _, _. split; [done|]. split_and!; [done|done|by apply suffix_cons_r|]. right. exists n. split_and!; [done|done|]. right. split; [left|cbn; lia].
Qed.
Lemma pread_loop fuel off size : ∀ n got o, (length (o_answers o) < n)%nat → (length (o_answers o) < fuel)%nat → (off + size <= length (o_data o))%nat →
  (length got < size)%nat → got = take (length got) (drop off (o_data o)) →
  ∃ res o', cloop n (filepread_turn fuel off size) got o = Some (res, o') ∧ o_data o' = o_data o ∧ o_pos o' = o_pos o ∧ o_answers o' `suffix_of` o_answers o ∧
    (res = Some (take size (drop off (o_data o))) ∨ (res = None ∧ stalls (o_answers o))).
Proof.
  induction n as [|n IH]; intros got o Hn Hf Hsz Hg Eg; [lia|]. rewrite cloop_S. unfold filepread_turn at 1, cbind at 1.
  destruct (again_pread (off + length got) (size - length got) fuel o Hf) as (r & bs & o1 & E & Ed & Ep & Hs & HE). rewrite E. cbn [fst snd].
  destruct HE as [[-> He]|(k & -> & Eb & Hk)].
  { eexists _, _. split; [done|]. split_and!; [done|done|done|]. right. split; [done|by left]. }
  assert (length bs = k `min` (size - length got))%nat as Hl by (rewrite Eb, length_take, length_drop; lia).
  destruct (length bs) as [|j] eqn:Ej.
  { eexists _, _. split; [done|]. split_and!; [done|done|done|]. right. split; [done|]. destruct Hk as [[-> _]|[Hk _]]; [lia|]. right. by replace 0%nat with k by lia. }
  assert (got ++ bs = take (length got + length bs) (drop off (o_data o))) as Egb.
  { rewrite Eb at 1. rewrite Eg at 1. rewrite <- take_take_drop, drop_drop. f_equal. f_equal. lia. }
  unfold cret at 1. rewrite length_app, Ej. destruct (Nat.eqb_spec (length got + S j) size) as [Ee|Ee].
  - eexists _, _. split; [done|]. split_and!; [done|done|done|]. left. f_equal. rewrite Egb, Ej, Ee. done.
  - destruct Hk as [[-> _]|[_ Hlt]]; [lia|]. destruct (IH (got ++ bs) o1) as (res & o2 & E2 & Ed2 & Ep2 & Hs2 & HE); rewrite ?Ed, ?length_app, ?Ej; [lia|lia|done|lia|by rewrite Egb, Ej|].
    exists res, o2. split; [exact E2|]. rewrite Ed in *. split_and!; [done|congruence|by trans (o_answers o1)|]. destruct HE as [->|[-> Hst]]; [by left|right]. split; [done|by eapply stalls_suffix].
Qed.
Lemma filepread_ok fuel off size f : (length (o_answers (fl_os f)) < fuel)%nat → (off + size <= length (o_data (fl_os f)))%nat → (0 < size)%nat →
  ∃ res f', ss_filepread fuel off size f = Some (res, f') ∧ o_data (fl_os f') = o_data (fl_os f) ∧ fl_size f' = fl_size f ∧ o_answers (fl_os f') `suffix_of` o_answers (fl_os f) ∧
    (res = Some (take size (drop off (o_data (fl_os f)))) ∨ (res = None ∧ stalls (o_answers (fl_os f)))).
Proof.
  intros Hf Hsz Hp. destruct (pread_loop fuel off size fuel [] (fl_os f) Hf Hf Hsz) as (res & o' & E & Ed & _ & Hs & HE); [done|by rewrite take_0|].
  unfold ss_filepread, on_os. rewrite E. exists res, (mk_file (fl_size f) o'). by split_and!.
Qed.

(** ** Rolling back *)

Lemma failed_size fuel v f f' : ss_filewritev fuel v f = Some (-1, f') → fl_size f' = fl_size f.
Proof.
  unfold ss_filewritev, cbind, on_os. destruct (cloop fuel (filewritev_turn fuel) (v, 0) (fl_os f)) as [[[n|] o]|]; [done| |done]. by intros [= <-].
Qed.
(** A file that is written at its end. *)
Definition at_end_of (f : ssfile) : Prop := fl_size f = Z.of_nat (length (o_data (fl_os f))) ∧ o_pos (fl_os f) = length (o_data (fl_os f)).
Lemma append_data o o' bs : o_pos o = length (o_data o) → wrote o o' bs → o_data o' = o_data o ++ bs ∧ o_pos o' = length (o_data o').
Proof.
  intros Hp (E & E2 & _). assert (o_data o' = o_data o ++ bs) as ->.
  { rewrite E, Hp. unfold overwrite. rewrite take_ge, drop_ge, Nat.sub_diag, app_nil_r by lia. done. }
  rewrite length_app. split; [done|lia].
Qed.
Lemma rlb_restores f d svp : o_data (fl_os f) = d → o_answers (fl_os f) = [] → fl_size f ≠ svp → svp = Z.of_nat (length (take (Z.to_nat svp) d)) → i32 svp ≠ -1 →
  ∃ f', ss_filerlb svp f = Some (0, f') ∧ o_data (fl_os f') = take (Z.to_nat svp) d ∧ at_end_of f'.
Proof.
  intros Ed Ea Hne Hs Hint. destruct f as [sz [d' p' a']]. cbn in Ed, Ea, Hne. subst d' a'. unfold ss_filerlb, cbind at 1, cget. cbn [fl_size]. destruct (Z.eqb_spec sz svp); [done|].
  unfold cbind, on_os, sys_truncate, sys_answer, os_answer, fmodify, ss_fileseek, cret. generalize dependent (i32 svp). intros z Hz. cbn. destruct (Z.eqb_spec z (-1)); [done|].
  rewrite length_take in Hs. replace (Z.to_nat svp - length d)%nat with 0%nat by lia. cbn [replicate]. rewrite app_nil_r. eexists. split; [done|]. split; [done|].
  split; cbn; rewrite length_take; lia.
Qed.

(** * Properties *)

(** C25: [ss_filewritev] ends, however the system calls are interrupted or cut short, and either
    all blocks are in the file at the position, one behind the other and nothing else, the
    position is behind them and the size has grown by their length; or a call failed: then it
    answers -1, a part of the bytes has been written and the size is as before. *)
Theorem ss_filewritev_appends fuel v f : os_ok (fl_os f) → (length (o_answers (fl_os f)) < fuel)%nat →
  let o := fl_os f in
  ∃ rc f', ss_filewritev fuel v f = Some (rc, f') ∧
    ((rc = 0 ∧ o_data (fl_os f') = overwrite (o_pos o) (concat v) (o_data o) ∧ o_pos (fl_os f') = (o_pos o + length (concat v))%nat ∧
      fl_size f' = u64 (fl_size f + Z.of_nat (length (concat v)))) ∨
     (rc = -1 ∧ AError ∈ o_answers o ∧ fl_size f' = fl_size f ∧ ∃ k, o_data (fl_os f') = overwrite (o_pos o) (take k (concat v)) (o_data o) ∧
      o_pos (fl_os f') = (o_pos o + length (take k (concat v)))%nat)).
Proof.
  intros Ho Hf o. destruct (filewritev_ok fuel v f Ho Hf) as (rc & f' & E & [(-> & (E1 & E2 & _) & Es)|(-> & He & (k & E1 & E2 & _) & Es)]); eexists _, f'; (split; [exact E|]).
  - left. by split_and!.
  - right. split_and!; [done|done|done|]. by exists k.
Qed.
Definition demo_file (l : list answer) : ssfile := mk_file 3 (mk_os [1; 2; 3] 3 l).
Lemma ss_filewritev_appends_witness : ∃ f', ss_filewritev 5 [[4; 5]; []; [6; 7; 8]] (demo_file [ACount 1; AInterrupt; ACount 0; ACount 3]) = Some (0, f') ∧
  o_data (fl_os f') = [1; 2; 3; 4; 5; 6; 7; 8] ∧ fl_size f' = 8.
Proof.
  destruct (ss_filewritev_appends 5 [[4; 5]; []; [6; 7; 8]] (demo_file [ACount 1; AInterrupt; ACount 0; ACount 3])) as (rc & f' & E & [(-> & E1 & _ & E2)|(_ & He & _)]).
  - unfold os_ok. cbn. lia.
  - cbn. lia.
  - exists f'. split; [exact E|]. split; [exact E1|exact E2].
  - cbn in He. repeat (apply elem_of_cons in He as [He|He]; [done|]). by apply not_elem_of_nil in He.
Defined.

(** C39: rolling back to a savepoint works after complete writes (the offset answered by
    [lseek] is taken for -1 if its low 32 bits are all ones): the file has its old bytes and is
    written at its end again.  After a write that failed it does nothing and reports
    success, because the size was not changed: the bytes of the failed write stay in the file,
    and what is written next comes behind them. *)
Theorem ss_filerlb_keeps_failed :
  (∀ fuel v f, at_end_of f → o_answers (fl_os f) = [] → (0 < fuel)%nat → concat v ≠ [] → Z.of_nat (length (o_data (fl_os f) ++ concat v)) < 18446744073709551616 →
     i32 (fl_size f) ≠ -1 →
     ∃ f1 f2, ss_filewritev fuel v f = Some (0, f1) ∧ ss_filerlb (ss_filesvp f) f1 = Some (0, f2) ∧ o_data (fl_os f2) = o_data (fl_os f) ∧ at_end_of f2) ∧
  (∀ fuel v f f1, ss_filewritev fuel v f = Some (-1, f1) → ss_filerlb (ss_filesvp f) f1 = Some (0, f1)) ∧
  (let f := demo_file [ACount 2; AError] in ∃ f1 f2, ss_filewritev 3 [[4; 5; 6]] f = Some (-1, f1) ∧ ss_filerlb (ss_filesvp f) f1 = Some (0, f1) ∧
     ss_filewritev 3 [[9]] f1 = Some (0, f2) ∧ o_data (fl_os f2) = [1; 2; 3; 4; 5; 9] ∧ fl_size f2 = 4).
Proof.
  split_and!.
  - intros fuel v f [Hs Hp] Ha Hf Hne Hlen Hint. destruct (filewritev_ok fuel v f) as (rc & f1 & E & HE); [unfold os_ok; lia|by rewrite Ha|]. rewrite Ha in HE.
    destruct HE as [(-> & Hw & Es)|(_ & He & _)]; [|by apply not_elem_of_nil in He]. destruct (append_data _ _ _ Hp Hw) as [Ed _]. rewrite length_app in Hlen.
    assert (length (concat v) ≠ 0)%nat by (by destruct (concat v)). rewrite Hs, wrap_id in Es by (unfold in_u; lia).
    destruct (rlb_restores f1 (o_data (fl_os f) ++ concat v) (ss_filesvp f)) as (f2 & E2 & Ed2 & He2); unfold ss_filesvp in *; [done| |lia|rewrite Hs, Nat2Z.id, take_app_length; lia|done|].
    { destruct Hw as (_ & _ & Hsuf). rewrite Ha in Hsuf. by apply suffix_nil_inv in Hsuf. }
    exists f1, f2. split_and!; [done|done| |done]. by rewrite Ed2, Hs, Nat2Z.id, take_app_length.
  - intros fuel v f f1 E. unfold ss_filerlb, cbind at 1, cget, ss_filesvp. by rewrite (failed_size _ _ _ _ E), Z.eqb_refl.
  - eexists _, _. split; [vm_compute; reflexivity|]. split_and!; vm_compute; reflexivity.
Qed.
