(* ===== verification/SdCommit.v ===== *)
(** Writing a branch to its file, sd_commit.c: the index, the pages from the three buffers of
    the builder in batches of blocks, and the seal. *)
From stdpp Require Import base list sorting sets.
From S2P Require Import Prelude SsOrder Sv SsBytes SsBuf SsFilter Sf Sr SrScheme SsFile SdPage SdPageRep SdPageKv SdPageSpec SdBuild SdBuildProofs SdBuildKv SdBuildSpec SdIndex SdIndexIter SdIndexBuild SdMerge SdMergeProofs.
Local Open Scope Z_scope.
Local Open Scope c_scope.

(** * Model *)

Section model.
Context `{Alloc}.

(** The current page copied to a buffer. *)
Definition sd_commitpage (b : sdbuild) : cmd ssbuf Z :=
  let! ref := cread (λ _, fst <$> sd_buildref b) in
  let size := u32 (ss_bufused (bd_c b)) in
  if Z.gtb size 0 then
    let! rc := ss_bufensure (f_csize ref) in
    if Z.eqb rc (-1) then cret (-1) else
    let! c := cread (λ _, mem_read 0 (Z.to_nat (f_csize ref)) (b_mem (bd_c b))) in
    copy_advance c;;;
    cret 0
  else
    cassert (negb (Z.eqb (f_msize ref) 0));;;
    let total := i32 (f_msize ref + f_vsize ref + f_ksize ref) in
    let! rc := ss_bufensure total in
    if Z.eqb rc (-1) then cret (-1) else
    let! m := cread (λ _, mem_read (Z.to_nat (f_m ref)) (Z.to_nat (f_msize ref)) (b_mem (bd_m b))) in
    copy_advance m;;;
    let! v := cread (λ _, mem_read (Z.to_nat (f_v ref)) (Z.to_nat (f_vsize ref)) (b_mem (bd_v b))) in
    copy_advance v;;;
    let! k := cread (λ _, mem_read (Z.to_nat (f_k ref)) (Z.to_nat (f_ksize ref)) (b_mem (bd_k b))) in
    copy_advance k;;;
    cret 0.
End model.

(** The blocks of the pages from [i] on, at most [iovmax]; answers the page to go on with. *)
Fixpoint commitiov_loop (b : sdbuild) (iovmax : Z) (fuel i : nat) (n : Z) : cmd ssiov nat :=
  match fuel with
  | O => cfail
  | S fuel =>
      if negb ((i <? bd_n b)%nat && Z.ltb n (u32 (iovmax - 3))) then cret i else
      let! ref := cread (λ _, bd_list b !! i) in
      let! m := cread (λ _, mem_read (Z.to_nat (f_m ref)) (Z.to_nat (f_msize ref)) (b_mem (bd_m b))) in
      ss_iovadd m;;;
      let! v := cread (λ _, mem_read (Z.to_nat (f_v ref)) (Z.to_nat (f_vsize ref)) (b_mem (bd_v b))) in
      ss_iovadd v;;;
      let! k := cread (λ _, mem_read (Z.to_nat (f_k ref)) (Z.to_nat (f_ksize ref)) (b_mem (bd_k b))) in
      ss_iovadd k;;;
      commitiov_loop b iovmax fuel (S i) (u32 (n + 3))
  end.
Definition sd_commitiov (b : sdbuild) (iovmax : Z) (i : nat) : cmd ssiov (bool * nat) :=
  let! i := commitiov_loop b iovmax (S (bd_n b)) i 0 in
  cret ((i <? bd_n b)%nat, i).

(** A vector is filled beside the file. *)
Definition fill {A} (v : ssiov) (m : cmd ssiov A) : cmd ssfile (A * ssiov) := cread (λ _, m v).
(** [fuel]: for the system calls. *)
Definition commit_turn (fuel : nat) (b : sdbuild) (seal : bytes) (st : ssiov * nat) : cmd ssfile (ssiov * nat + Z) :=
  let '(iov, i) := st in
  let! res := fill iov (sd_commitiov b 1020 i) in
  let '((more, i), iov) := res in
  let! last := (if more : bool then cret ((), iov) else fill iov (ss_iovadd seal)) in
  let! rc := ss_filewritev fuel (io_v last.2) in
  if Z.eqb rc (-1) then cret (inr (-1)) else
  cret (if more : bool then inl (ss_iovreset last.2, i) else inr 0).
(** [old]: the uninitialised checksum of the seal. *)
Definition sd_commit (crcf : Z → bytes → Z) (fuel : nat) (old : Z) (b : sdbuild) (x : sdindex) : cmd ssfile Z :=
  let! h := cread (λ _, fst <$> index_h x) in
  let seal := seal_enc (sd_seal crcf old h) in
  let! res := fill (ss_iovinit 1024) (ss_iovadd (content (xi x))) in
  let iov := res.2 in
  let size := u32 (ss_bufused (bd_c b)) in
  if Z.gtb size 0 then
    let! res := fill iov (ss_iovadd (content (bd_c b));;; ss_iovadd seal) in
    ss_filewritev fuel (io_v res.2)
  else cloop (S (bd_n b)) (commit_turn fuel b seal) (iov, 0%nat).

(** * Correctness *)

(** A branch that was written to its end. *)
Definition sizeof_sdseal : nat := 16.
Definition seal_ok (s : sdseal) : Prop := is_u32 (l_crc s) ∧ is_u32 (l_index_crc s) ∧ is_u64 (l_index_offset s).
Record sealed (crcf : Z → bytes → Z) (bs : bytes) (h : sdindexheader) : Prop := {
  se_bytes : ∃ body seal, bs = idxheader_enc h ++ body ++ seal_enc seal ∧ length body = (Z.to_nat (x_size h) + Z.to_nat (x_total h) + Z.to_nat (x_extension h))%nat ∧
    seal_ok seal ∧ sd_sealvalidate crcf seal h = 0;
  se_header : idxheader_ok h;
  se_crc : x_crc h = ss_crcs crcf (idxheader_enc h) 0;
  se_version : sr_versioncheck (x_version h) = true;
  se_size : Z.of_nat sizeof_sdindexheader + x_size h <= INT_MAX
}.
Lemma seal_length s : length (seal_enc s) = sizeof_sdseal.
Proof. unfold seal_enc. by rewrite !length_app, !le_enc_length. Qed.

Section proofs.
Context `{Alloc} (r : sr) (crcf : Z → bytes → Z).
Context (T : Z) (dup : bool) (offset : Z) (b : sdbuild) (x : sdindex) (ws : list wpage).
Context (Hme : merged r crcf T dup offset b x ws).

(** The blocks of a page are read from the buffers. *)
Lemma cat_split f i (w : wpage) : ws !! i = Some w → cat f ws = cat f (take i ws) ++ f w ++ cat f (drop (S i) ws).
Proof. intros Hw. rewrite <- (take_drop_middle ws i w Hw) at 1. unfold cat. rewrite fmap_app, concat_app, fmap_cons. done. Qed.
Lemma block_read f i w c : ws !! i = Some w → content c = cat f ws →
  mem_read (Z.to_nat (blen (cat f (take i ws)))) (Z.to_nat (blen (f w))) (b_mem c) = Some (f w).
Proof.
  intros Hw Hc. unfold blen. rewrite !Nat2Z.id. apply mem_at_read. rewrite (cat_split f i w Hw) in Hc.
  rewrite <- (Nat.add_0_r (length (cat f (take i ws)))). eapply content_mem; [exact Hc|]. by exists [], (cat f (drop (S i) ws)).
Qed.
Lemma iovadd_run v bs : Z.of_nat (length (io_v v)) < io_max v → ss_iovadd bs v = Some ((), mk_iov (io_v v ++ [bs]) (io_max v)).
Proof. intros Hv. unfold ss_iovadd, cbind, cget, cassert. destruct (Z.ltb_spec (Z.of_nat (length (io_v v))) (io_max v)); [done|lia]. Qed.
Definition page_blocks (l : list wpage) : list bytes := l ≫= λ w, [w_m w; w_v w; w_k w].
Lemma page_blocks_concat l : concat (page_blocks l) = cat w_bytes l.
Proof. unfold page_blocks, cat. induction l as [|w l IH]; [done|]. rewrite bind_cons, concat_app, IH, fmap_cons. cbn [concat]. unfold w_bytes. by rewrite app_nil_r, <- !app_assoc. Qed.

Lemma page_blocks_length l : length (page_blocks l) = (3 * length l)%nat.
Proof. unfold page_blocks. induction l as [|w l IH]; [done|]. rewrite bind_cons, length_app, IH. cbn [length]. lia. Qed.
Lemma batch_run fuel : ∀ i n v, (length ws - i < fuel)%nat → (i <= length ws)%nat → 0 <= n <= 1019 → Z.of_nat (length (io_v v)) <= n + 1 → io_max v = 1024 →
  ∃ j, (i <= j <= length ws)%nat ∧ (n < 1017 → (i < length ws)%nat → (i < j)%nat) ∧
    commitiov_loop b 1020 fuel i n v = Some (j, mk_iov (io_v v ++ page_blocks (take (j - i) (drop i ws))) 1024) ∧
    Z.of_nat (length (io_v v ++ page_blocks (take (j - i) (drop i ws)))) <= 1020.
Proof.
  induction fuel as [|fuel IH]; intros i n v Hf Hi Hn Hv Hmax; [lia|]. cbn [commitiov_loop]. rewrite (me_n _ _ _ _ _ _ _ _ Hme). change (u32 (1020 - 3)) with 1017.
  destruct (Nat.ltb_spec i (length ws)) as [Hlt|Hge]; cbn [andb]; [destruct (Z.ltb_spec n 1017) as [Hn'|Hn']|]; cbn [negb].
  2, 3: exists i; rewrite Nat.sub_diag, take_0, app_nil_r; split_and!; [lia|lia|lia|destruct v; cbn in *; by subst|lia].
  destruct (lookup_lt_is_Some_2 ws i Hlt) as [w Hw]. destruct (me_refs _ _ _ _ _ _ _ _ Hme i w Hw) as (ref & Eref & E1 & E2 & E3 & E4 & E5 & E6).
  pose proof (me_ready _ _ _ _ _ _ _ _ Hme) as Hrd. unfold cbind, cread. rewrite Eref, E1, E2, E3, E4, E5, E6.
  rewrite (block_read w_m i w _ Hw (rd_m _ _ _ _ _ _ Hrd)), (block_read w_v i w _ Hw (rd_v _ _ _ _ _ _ Hrd)), (block_read w_k i w _ Hw (rd_k _ _ _ _ _ _ Hrd)).
  rewrite iovadd_run by lia. rewrite iovadd_run by (cbn; rewrite length_app; cbn [length]; lia). cbn [io_v io_max].
  rewrite iovadd_run by (cbn; rewrite !length_app; cbn [length]; lia). cbn [io_v io_max]. rewrite wrap_id by (unfold in_u; lia). rewrite <- !app_assoc. cbn [app].
  destruct (IH (S i) (n + 3) (mk_iov (io_v v ++ [w_m w; w_v w; w_k w]) (io_max v))) as (j & Hj & _ & E & Hl); [lia|lia|lia|cbn; rewrite length_app; cbn [length]; lia|done|].
  exists j. assert (take (j - i) (drop i ws) = w :: take (j - S i) (drop (S i) ws)) as ->.
  { rewrite (drop_S ws w i Hw). replace (j - i)%nat with (S (j - S i)) by lia. done. }
  unfold page_blocks at 1. rewrite bind_cons. fold (page_blocks (take (j - S i) (drop (S i) ws))). cbn [io_v] in E, Hl. rewrite <- app_assoc in E, Hl. split_and!; [lia|lia|lia|done|].
  unfold page_blocks at 1. rewrite bind_cons. exact Hl.
Qed.

(** The bytes are in the file, and its size says so. *)
Definition appended (f f' : ssfile) (bs : bytes) : Prop := wrote (fl_os f) (fl_os f') bs ∧ fl_size f' = u64 (fl_size f + blen bs).
Lemma appended_trans f1 f2 f3 a c : os_ok (fl_os f1) → appended f1 f2 a → appended f2 f3 c → appended f1 f3 (a ++ c).
Proof.
  intros Ho [W1 S1] [W2 S2]. split; [by eapply wrote_trans|]. rewrite S2, S1, blen_app. unfold wrap. rewrite Zplus_mod_idemp_l. f_equal. lia.
Qed.
(** All of [bs] has been written, or a system call failed after a part of it. *)
Definition commit_post (f : ssfile) (bs : bytes) (rc : Z) (f' : ssfile) : Prop :=
  (rc = 0 ∧ appended f f' bs) ∨ (rc = -1 ∧ AError ∈ o_answers (fl_os f) ∧ ∃ k, wrote (fl_os f) (fl_os f') (take k bs)).
Lemma commit_post_app f f1 a c rc f' : os_ok (fl_os f) → appended f f1 a → commit_post f1 c rc f' → commit_post f (a ++ c) rc f'.
Proof.
  intros Ho Ha [[-> Hc]|(-> & He & k & Hk)]; [left; split; [done|by eapply appended_trans]|]. right. split; [done|]. destruct Ha as [Hw _]. split.
  - destruct Hw as (_ & _ & [pre ->]). apply elem_of_app. by right.
  - exists (length a + k)%nat. rewrite take_app_add. by eapply wrote_trans.
Qed.
Lemma writev_commit fuel v f : os_ok (fl_os f) → (length (o_answers (fl_os f)) < fuel)%nat →
  ∃ rc f', ss_filewritev fuel v f = Some (rc, f') ∧ commit_post f (concat v) rc f'.
Proof.
  intros Ho Hf. destruct (filewritev_ok fuel v f Ho Hf) as (rc & f' & E & [(-> & Hw & Hs)|(-> & He & Hw & _)]); eexists _, f'; (split; [exact E|]); [left|right]; by split_and!.
Qed.
Lemma commit_loop fuel seal : ∀ k i iov f, (length ws - i < k)%nat → (i <= length ws)%nat → (length (io_v iov) <= 1)%nat → io_max iov = 1024 →
  os_ok (fl_os f) → (length (o_answers (fl_os f)) < fuel)%nat →
  ∃ rc f', cloop k (commit_turn fuel b seal) (iov, i) f = Some (rc, f') ∧ commit_post f (concat (io_v iov) ++ cat w_bytes (drop i ws) ++ seal) rc f'.
Proof.
  induction k as [|k IH]; intros i iov f Hk Hi Hv Hmax Ho Hf; [lia|]. rewrite cloop_S. cbn [commit_turn]. unfold fill, cbind at 1, cread at 1, sd_commitiov, cbind at 1.
  destruct (batch_run (S (bd_n b)) i 0 iov) as (j & Hj & Hprog & E & Hl); rewrite ?(me_n _ _ _ _ _ _ _ _ Hme); [lia|done|lia|lia|done|]. rewrite (me_n _ _ _ _ _ _ _ _ Hme) in E. rewrite E. unfold cret at 1.
  set (blocks := page_blocks (take (j - i) (drop i ws))) in *.
  assert (cat w_bytes (drop i ws) = concat blocks ++ cat w_bytes (drop j ws)) as Ecat.
  { unfold blocks. rewrite page_blocks_concat, <- (take_drop (j - i) (drop i ws)) at 1. rewrite drop_drop. replace (i + (j - i))%nat with j by lia. unfold cat. by rewrite fmap_app, concat_app. }
  destruct (Nat.ltb_spec j (length ws)) as [Hlt|Hge].
  - unfold cbind at 1, cret at 1. cbn [snd io_v]. unfold cbind at 1. destruct (writev_commit fuel (io_v iov ++ blocks) f Ho Hf) as (rc & f1 & E1 & HE). rewrite E1, concat_app in *.
    destruct HE as [[-> Ha]|(-> & He & kk & Hkk)]; cbn [Z.eqb Pos.eqb]; unfold cret.
    + pose proof Ha as [Hw _]. pose proof Hw as (_ & _ & Hsuf). apply suffix_length in Hsuf.
      destruct (IH j (ss_iovreset (mk_iov (io_v iov ++ blocks) 1024)) f1) as (rc & f2 & E2 & HE); [specialize (Hprog ltac:(lia)); lia|lia|cbn; lia|done|by eapply wrote_ok|lia|].
      rewrite E2. exists rc, f2. split; [done|]. rewrite Ecat, <- app_assoc, (app_assoc (concat (io_v iov))). by eapply commit_post_app.
    + eexists _, f1. split; [done|]. right. split_and!; [done|done|]. exists (kk `min` length (concat (io_v iov) ++ concat blocks))%nat. rewrite Ecat, <- app_assoc, (app_assoc (concat (io_v iov))).
      rewrite take_app_le by lia. by rewrite <- take_take, (take_ge (_ ++ _) (length _)) by lia.
  - assert (j = length ws) as -> by lia. unfold cbind at 1, cread at 1. rewrite iovadd_run by (cbn [io_v io_max]; lia). cbn [snd io_v]. unfold cbind at 1.
    destruct (writev_commit fuel ((io_v iov ++ blocks) ++ [seal]) f Ho Hf) as (rc & f1 & E1 & HE). rewrite E1. rewrite !concat_app in HE. cbn [concat] in HE. rewrite app_nil_r in HE.
    rewrite Ecat, drop_all. unfold cat at 1. cbn [fmap list_fmap concat]. rewrite app_nil_r, app_assoc.
    destruct HE as [[-> Ha]|(-> & He & Hk')]; cbn [Z.eqb Pos.eqb]; eexists _, f1; (split; [done|]); [left|right]; done.
Qed.

(** The branch in the file: the index, the pages, the seal. *)
Definition branch_image (id : sdid) (old : Z) : bytes :=
  image_of crcf offset id (w_add <$> ws) ++ cat w_bytes ws ++ seal_enc (sd_seal crcf old (final_header crcf offset id (w_add <$> ws))).
Lemma sdcommit_ok fuel old x' id f : (∀ c p, is_u32 (crcf c p)) → id_ok id → xh x' = true → content (xi x') = image_of crcf offset id (w_add <$> ws) →
  os_ok (fl_os f) → (length (o_answers (fl_os f)) < fuel)%nat →
  ∃ rc f', sd_commit crcf fuel old b x' f = Some (rc, f') ∧ commit_post f (branch_image id old) rc f'.
Proof.
  intros Hcrc Hid Hh Hx Ho Hf. unfold sd_commit, cbind at 1, cread at 1.
  assert (index_rep x' (final_header crcf offset id (w_add <$> ws)) (entries 0 (w_add <$> ws)) (a_keys <$> (w_add <$> ws))) as Hrep.
  { eapply image_rep; [done|apply Hme|done|done|]. rewrite <- (take_drop (b_p (xi x')) (b_mem (xi x'))) at 1. change (take (b_p (xi x')) (b_mem (xi x'))) with (content (xi x')). by rewrite Hx. }
  rewrite (index_h_run _ _ _ _ Hrep). cbn [fmap option_fmap option_map fst]. cbv zeta. unfold fill, cbind at 1, cread at 1. rewrite iovadd_run by (cbn; lia). cbn [snd io_v io_max app ss_iovinit].
  unfold ss_bufused. rewrite (me_c _ _ _ _ _ _ _ _ Hme). cbn [Z.gtb Z.of_nat]. change (Z.gtb (u32 0) 0) with false. cbv iota.
  destruct (commit_loop fuel (seal_enc (sd_seal crcf old (final_header crcf offset id (w_add <$> ws)))) (S (bd_n b)) 0 (mk_iov [content (xi x')] 1024) f) as (rc & f' & E & HE);
    [rewrite (me_n _ _ _ _ _ _ _ _ Hme); lia|lia|cbn; lia|done|done|done|].
  exists rc, f'. split; [exact E|]. cbn [io_v concat] in HE. rewrite app_nil_r, drop_0, Hx in HE. exact HE.
Qed.
(** The seal is of this index, and a seal of another index is refused. *)
Lemma seal_valid old h : sd_sealvalidate crcf (sd_seal crcf old h) h = 0.
Proof.
  unfold sd_sealvalidate, sd_seal. cbv zeta. cbn [l_crc l_index_crc l_index_offset]. unfold ss_crcs, seal_enc. cbn [l_crc l_index_crc l_index_offset].
  assert (∀ c l, drop 4 (le_enc 4 c ++ l) = l) as Hd by (intros c l; by rewrite drop_app_length' by (by rewrite le_enc_length)). rewrite !Hd, !Z.eqb_refl. done.
Qed.
Lemma image_sealed id old : (∀ c p, is_u32 (crcf c p)) → id_ok id → blen (image_of crcf offset id (w_add <$> ws)) <= INT_MAX →
  sealed crcf (branch_image id old) (final_header crcf offset id (w_add <$> ws)).
Proof.
  intros Hcrc Hid Hsz. set (h := final_header crcf offset id (w_add <$> ws)). pose proof (me_fits _ _ _ _ _ _ _ _ Hme) as Hf.
  assert (idxheader_ok h) as Hok by (by apply final_header_ok). pose proof (index_total (w_add <$> ws)) as Etot.
  assert (blen (image_of crcf offset id (w_add <$> ws)) = Z.of_nat sizeof_sdindexheader + x_size h) as Esz.
  { unfold image_of, blen. rewrite !length_app, idxheader_length, idxpages_length, idx_entries_length. unfold h. cbn [final_header x_size header_of]. rewrite Etot. unfold blen. lia. }
  split; [|done| |done|lia].
  - exists (concat (idxpage_enc <$> entries 0 (w_add <$> ws)) ++ keys_of (w_add <$> ws) ++ cat w_bytes ws), (sd_seal crcf old h). split_and!.
    + unfold branch_image, image_of. fold h. by rewrite <- !app_assoc.
    + unfold image_of in Esz. unfold blen in Esz. rewrite !length_app, idxheader_length in Esz. rewrite !length_app.
      assert (Z.to_nat (x_total h) = length (cat w_bytes ws)) as ->.
      { unfold h. cbn [final_header x_total header_of]. rewrite (sizes_total r crcf) by apply Hme. unfold blen. by rewrite Nat2Z.id. }
      assert (x_extension h = 0) as -> by done. lia.
    + unfold sd_seal, seal_ok. cbv zeta. cbn [l_crc l_index_crc l_index_offset]. split_and!; [apply Hcrc|apply Hok|apply Hok].
    + apply seal_valid.
  - unfold h, final_header. cbv zeta. cbn [x_crc]. unfold ss_crcs, idxheader_enc. cbn. done.
Qed.
End proofs.
