(* ===== verification/SdIter.v ===== *)
(** The iterator over all versions of a branch in the memory of its file, sd_iter.h, which
    compaction reads branches with. *)
From stdpp Require Import base list sorting sets.
From S2P Require Import Prelude SsOrder Sv SsBytes SsBuf SsFilter Sf Sr SrScheme SvMerge SvMergeProofs SvIndexProofs SdPage SdPageIter SdPageRep SdPageKv SdPageSpec SdBuild SdBuildProofs SdBuildKv SdBuildSpec SdIndex SdIndexIter SdIndexBuild SdMerge SdMergeProofs.
Local Open Scope Z_scope.
Local Open Scope c_scope.

(** * Model *)

(** The file in memory from [start] on, the buffer pages are decompressed in and the one
    versions are converted in. *)
Record itmem := mk_itmem { im_file : bytes; im_cbuf : ssbuf; im_xf : bytes }.
(** [t_page]: the memory of the current page, in the file or in the buffer; reading behind the
    page is a fault.  [t_src]: its place in the file. *)
Record sditer := mk_sditer { t_end : nat; t_page : option bytes; t_src : nat; t_pos : Z; t_dv : option nat; t_v : option sv }.
Definition on_cbuf {A} (m : cmd ssbuf A) : cmd itmem A := λ s,
  match m (im_cbuf s) with Some (a, b) => Some (a, mk_itmem (im_file s) b (im_xf s)) | None => None end.
(** An access to the page [P] and the conversion buffer. *)
Definition in_page {A} (P : bytes) (m : cmd pgst A) : cmd itmem A := λ s,
  match m (mk_pgst P (im_xf s)) with Some (a, p) => Some (a, mk_itmem (im_file s) (im_cbuf s) (pg_xf p)) | None => None end.
(** A page at a place in memory: its header and as many bytes behind it as it says. *)
Definition page_memory (at_ : nat) (m : bytes) : option bytes :=
  h ← header_at at_ m; mem_read at_ (sizeof_sdpageheader + Z.to_nat (h_sizeorigin h)) m.

Section model.
Context `{Alloc} (r : sr) (crcf : Z → bytes → Z) {F : Type} (compressionif : ssfilterif F).
(** The header of the index, and the flags the iterator was opened with. *)
Context (h : sdindexheader) (validate compression : bool).

Definition sd_iterresult (P : bytes) (pos : Z) (i : sditer) : cmd itmem sditer :=
  let! dv := in_page P (on_page (sd_pagev pos)) in
  let! v := (match r_fmt_storage r with
             | SF_SRAW => in_page P (on_page (sd_vif dv))
             | SF_SKEYVALUE => in_page P (sd_pagekv_convert (s_count (r_scheme r)) dv;;; on_xf (sd_vrawif 0))
             end) in
  cret (mk_sditer (t_end i) (Some P) (t_src i) pos (Some dv) (Some v)).

(** The page at [src] decompressed; [None]: no memory or not a compressed page. *)
Definition iter_decompress (src : nat) : cmd itmem (option bytes) :=
  let! ph := cread (λ s, header_at src (im_file s)) in
  on_cbuf (λ b, Some ((), ss_bufreset b));;;
  let! rc := on_cbuf (ss_bufensure (i32 (h_sizeorigin ph + Z.of_nat sizeof_sdpageheader))) in
  if Z.eqb rc (-1) then cret None else
  let! hb := cread (λ s, mem_read src sizeof_sdpageheader (im_file s)) in
  on_cbuf (buf_copy 0 hb);;;
  on_cbuf (ss_bufadvance sizeof_sdpageheader);;;
  let '(rc, f) := ss_filterinit compressionif SS_FOUTPUT in
  if Z.eqb rc (-1) then cret None else
  let! data := cread (λ s, mem_read (src + sizeof_sdpageheader) (Z.to_nat (h_size ph)) (im_file s)) in
  let! rc := on_cbuf (λ b, match ss_filternext data (f, b) with Some (rc, (_, b)) => Some (rc, b) | None => None end) in
  if Z.eqb rc (-1) then cret None else
  let! P := cread (λ s, page_memory 0 (b_mem (im_cbuf s))) in
  cret (Some P).
Definition ends (i : sditer) : sditer := mk_sditer (t_end i) None (t_src i) (t_pos i) (t_dv i) (t_v i).
Definition sd_iternextpage (i : sditer) : cmd itmem (Z * sditer) :=
  let! st := (match t_page i with
              | None => let page := (Z.to_nat (x_offset h) + Z.to_nat (sd_indexsize h))%nat in cret (page, (page + Z.to_nat (x_total h))%nat)
              | Some P => let! ph := in_page P (on_page page_h) in cret ((t_src i + sizeof_sdpageheader + Z.to_nat (h_size ph))%nat, t_end i)
              end) in
  let '(page, end_) := st in
  let i := mk_sditer end_ (t_page i) (t_src i) (t_pos i) (t_dv i) (t_v i) in
  if (end_ <=? page)%nat then cret (0, ends i) else
  let i := mk_sditer end_ (t_page i) page (t_pos i) (t_dv i) (t_v i) in
  let! P := (if compression then iter_decompress page else let! P := cread (λ s, page_memory page (im_file s)) in cret (Some P)) in
  match P with
  | None => cret (-1, ends i)
  | Some P =>
      let! ph := in_page P (on_page page_h) in
      let! bytes := in_page P (cread (λ s, mem_read 0 sizeof_sdpageheader (pg_page s))) in
      if validate && negb (Z.eqb (ss_crcs crcf bytes 0) (h_crc ph)) then cret (-1, ends i) else
      if Z.eqb (h_count ph) 0 then cret (0, mk_sditer (t_end i) None (t_src i) 0 None (t_v i)) else
      let! i := sd_iterresult P 0 i in
      cret (1, i)
  end.
Definition sd_iter_open : cmd itmem (Z * sditer) := sd_iternextpage (mk_sditer 0 None 0 0 None None).
Definition sd_iter_has (i : sditer) : bool := match t_page i with Some _ => true | None => false end.
(** [None]: the iterator is at its end; a page without a current version fails the assertion. *)
Definition sd_iter_of (i : sditer) : cmd itmem (option sv) :=
  match t_page i with
  | None => cret None
  | Some _ => cassert (match t_dv i with Some _ => true | None => false end);;; cret (t_v i)
  end.
Definition sd_iter_next (i : sditer) : cmd itmem sditer :=
  match t_page i with
  | None => cret i
  | Some P =>
      let pos := u32 (t_pos i + 1) in
      let! ph := in_page P (on_page page_h) in
      if Z.ltb pos (h_count ph) then sd_iterresult P pos i else
      let! res := sd_iternextpage (mk_sditer (t_end i) (Some P) (t_src i) pos None (t_v i)) in
      cret res.2
  end.
End model.

(** * Correctness *)

(** Draining the iterator. *)
Fixpoint iter_walk `{Alloc} r crcf {F} (cif : ssfilterif F) h validate compression (fuel : nat) (i : sditer) : cmd itmem (list sv) :=
  match fuel with
  | O => cfail
  | S fuel =>
      let! v := sd_iter_of i in
      match v with
      | None => cret []
      | Some v =>
          let! i := sd_iter_next r crcf cif h validate compression i in
          let! l := iter_walk r crcf cif h validate compression fuel i in
          cret (v :: l)
      end
  end.

Section proofs.
Context `{Alloc} (r : sr) (crcf : Z → bytes → Z) {F : Type} (cif : ssfilterif F).

Lemma page_good_rep w : page_good r crcf w → ∃ ds body, page_rep (w_bytes w) (a_header (w_add w)) ds body ∧ length ds = length (w_svs w).
Proof.
  intros Hg. assert (∃ h ds body, page_rep (w_bytes w) h ds body ∧ length ds = length (w_svs w)) as (h & ds & body & Hp & El).
  { pose proof (pg_of _ _ w Hg) as Ho. unfold page_of in Ho. destruct (r_fmt_storage r).
    - destruct Ho as (h & ds & versions & keys & Hp & _ & HF). exists h, ds, (versions ++ keys). split; [done|by eapply Forall2_length].
    - destruct Ho as (h & ds & body & Hp & HF). exists h, ds, body. split; [done|by eapply Forall2_length]. }
  exists ds, body. pose proof (page_h_run _ _ _ _ Hp) as E. rewrite (pg_h _ _ w Hg) in E. injection E as ->. done.
Qed.
(** The current version of a page, whatever the conversion buffer holds. *)
Lemma result_run xf P vs n v i : readable r xf vs → page_of r P vs → vs !! n = Some v → pi_v i = Some (sdv_at n) →
  ∃ xf', sd_pageiter_result r i (mk_pgst P xf) = Some (pi_set i v, mk_pgst P xf') ∧ length xf' = length xf.
Proof.
  intros Hr Hp Hv Hi. destruct Hr as (Hs & Hrow & Hcount & Hr'). unfold page_of in Hp. destruct (r_fmt_storage r) eqn:Hfmt.
  - destruct Hr' as (H8 & Hraw & Hxf). destruct (pv_result _ _ _ _ _ (kv_view r P (length xf) vs Hfmt Hcount H8 Hraw Hs Hp Hrow Hxf) (mk_pgst P xf) n v i) as ([P' xf'] & E & HP & Hl); [done|done|done|].
    cbn in HP, Hl. subst P'. by exists xf'.
  - destruct (pv_result _ _ _ _ _ (raw_view r P xf vs Hfmt ltac:(by split) Hs Hp Hrow) (mk_pgst P xf) n v i) as (s' & E & ->); [done|done|done|]. by exists xf.
Qed.
Lemma readable_length xf xf' vs : length xf' = length xf → readable r xf vs → readable r xf' vs.
Proof. unfold readable. by intros ->. Qed.
Lemma iterresult_run file cb xf P h ds body vs n v i : page_rep P h ds body → length ds = length vs → readable r xf vs → page_of r P vs → vs !! n = Some v →
  ∃ xf', sd_iterresult r P (Z.of_nat n) i (mk_itmem file cb xf) = Some (mk_sditer (t_end i) (Some P) (t_src i) (Z.of_nat n) (Some (sdv_at n)) (Some v), mk_itmem file cb xf') ∧
    length xf' = length xf.
Proof.
  intros Hp El Hr Ho Hv. destruct (result_run xf P vs n v (mk_pageiter 0 (Some (sdv_at n)) v SS_GTE None) Hr Ho Hv eq_refl) as (xf' & E & Hl). exists xf'. split; [|done].
  pose proof (lookup_lt_Some _ _ _ Hv) as Hlt. pose proof (proj1 Hr) as Hsm. unfold small in Hsm.
  assert (sd_pagev (Z.of_nat n) P = Some (sdv_at n, P)) as Ev.
  { unfold sd_pagev, cbind. rewrite (page_h_run _ _ _ _ Hp). unfold cassert, cret. rewrite (pr_count _ _ _ _ Hp), El. destruct (Z.ltb_spec (u32 (Z.of_nat n)) (Z.of_nat (length vs))) as [_|Hge].
    - rewrite wrap_id by (unfold in_u; lia). by rewrite Nat2Z.id.
    - rewrite wrap_id in Hge by (unfold in_u; lia). lia. }
  unfold sd_iterresult, cbind at 1, in_page at 1, on_page. cbn [pg_page pg_xf im_xf im_file im_cbuf]. rewrite Ev. unfold sd_pageiter_result in E. cbn [pi_v] in E.
  destruct (r_fmt_storage r); unfold cbind in *.
  - destruct (sd_pagekv_convert _ _ _) as [[[] s1]|] eqn:E1; [|done]. unfold in_page. cbn [im_xf im_file im_cbuf pg_xf]. rewrite E1. destruct (on_xf (sd_vrawif 0) s1) as [[c s2]|]; [|done].
    unfold cret in *. injection E as Ec Es. by subst.
  - unfold in_page. cbn [im_xf im_file im_cbuf pg_xf]. unfold on_page in *. cbn [pg_page pg_xf] in *. destruct (sd_vif (sdv_at n) P) as [[c P']|]; [|done]. unfold cret in *. injection E as Ec Es Ex. by subst.
Qed.

Context (file : bytes) (ws : list wpage) (h : sdindexheader) (N : nat) (validate : bool).
Definition first_page : nat := (Z.to_nat (x_offset h) + Z.to_nat (sd_indexsize h))%nat.
Definition place_of (k : nat) : nat := (first_page + length (cat w_bytes (take k ws)))%nat.
Context (Hfile : mem_at file first_page (cat w_bytes ws)) (Htotal : Z.to_nat (x_total h) = length (cat w_bytes ws)).
Context (Hgood : Forall (page_good r crcf) ws) (Hsome : Forall (λ w, w_svs w ≠ []) ws).
Context (Hread : ∀ xf w, length xf = N → w ∈ ws → readable r xf (w_svs w)).
Abbreviation nextpage := (sd_iternextpage r crcf cif h validate false).
Definition last_place : nat := (first_page + length (cat w_bytes ws))%nat.
Definition standing (k n : nat) (w : wpage) (v : sv) : sditer := mk_sditer last_place (Some (w_bytes w)) (place_of k) (Z.of_nat n) (Some (sdv_at n)) (Some v).

Lemma page_at k w : ws !! k = Some w → mem_at file (place_of k) (w_bytes w) ∧ place_of (S k) = (place_of k + length (w_bytes w))%nat.
Proof.
  intros Hw. split.
  - destruct Hfile as (l & r' & -> & Hl). exists (l ++ cat w_bytes (take k ws)), (cat w_bytes (drop (S k) ws) ++ r'). unfold place_of. rewrite length_app, Hl. split; [|done].
    rewrite <- (take_drop_middle ws k w Hw) at 1. unfold cat. rewrite fmap_app, concat_app, fmap_cons. cbn [concat]. by rewrite <- !app_assoc.
  - unfold place_of. rewrite (take_S_r ws k w Hw), cat_app, length_app. lia.
Qed.
Lemma place_lt k w : ws !! k = Some w → (place_of k < last_place)%nat.
Proof.
  intros Hw. destruct (page_good_rep w) as (ds & body & Hp & _); [by eapply Forall_lookup_1|]. unfold place_of, last_place.
  rewrite <- (take_drop_middle ws k w Hw) at 2. unfold cat. rewrite fmap_app, concat_app, fmap_cons. cbn [concat]. rewrite !length_app. rewrite (pr_bytes _ _ _ _ Hp) at 1. rewrite length_app, header_length. unfold sizeof_sdpageheader. lia.
Qed.
Lemma page_memory_run k w : ws !! k = Some w → page_memory (place_of k) file = Some (w_bytes w).
Proof.
  intros Hw. pose proof (Forall_lookup_1 _ _ _ _ Hgood Hw) as Hg. destruct (page_good_rep w Hg) as (ds & body & Hp & _). destruct (page_at k w Hw) as [Hat _].
  unfold page_memory. rewrite (header_read _ _ (a_header (w_add w))); [|..|exact (pr_header _ _ _ _ Hp)].
  - cbn [mbind option_bind]. pose proof (pg_origin _ _ w Hg) as Eo. unfold a_sizeorigin in Eo. pose proof (pr_size _ _ _ _ Hp).
    replace (sizeof_sdpageheader + Z.to_nat (h_sizeorigin (a_header (w_add w))))%nat with (length (w_bytes w)) by (unfold blen in Eo; lia). by apply mem_at_read.
  - rewrite (pr_bytes _ _ _ _ Hp) in Hat. by apply mem_at_app in Hat as [Hat _].
Qed.

(** Going to a page: its first version, or the end behind the last one. *)
Lemma nextpage_run k i cb xf : length xf = N → (k <= length ws)%nat →
  (match t_page i with
   | None => k = 0%nat
   | Some P => ∃ w, ws !! (k - 1)%nat = Some w ∧ (0 < k)%nat ∧ P = w_bytes w ∧ t_src i = place_of (k - 1) ∧ t_end i = last_place
   end) →
  ∃ rc i' xf', nextpage i (mk_itmem file cb xf) = Some ((rc, i'), mk_itmem file cb xf') ∧ length xf' = N ∧
    match ws !! k with
    | Some w => ∃ v, w_svs w !! 0%nat = Some v ∧ i' = standing k 0 w v
    | None => t_page i' = None
    end.
Proof.
  intros Hxf Hk Hi. unfold sd_iternextpage.
  set (st := match t_page i with None => _ | Some P => _ end). assert (st (mk_itmem file cb xf) = Some ((place_of k, last_place), mk_itmem file cb xf)) as Est.
  { subst st. destruct (t_page i) as [P|].
    - destruct Hi as (w & Hw & Hk0 & -> & Hsrc & Hend). pose proof (Forall_lookup_1 _ _ _ _ Hgood Hw) as Hg. unfold cbind, in_page, on_page. cbn [pg_page pg_xf im_xf im_file im_cbuf].
      rewrite (pg_h _ _ w Hg). unfold cret. cbn [pg_xf]. rewrite Hsrc, Hend. do 3 f_equal. destruct (page_at (k - 1) w Hw) as [_ Ep]. replace (S (k - 1)) with k in Ep by lia. rewrite Ep.
      pose proof (pg_size _ _ w Hg) as Es. unfold a_size, blen, sizeof_sdpageheader in *. destruct (page_good_rep w Hg) as (ds & body & Hp & _). pose proof (pr_header _ _ _ _ Hp) as (_ & _ & _ & _ & _ & _ & Hsz & _). unfold in_u in Hsz. lia.
    - subst k. unfold cret. do 3 f_equal; [unfold place_of; cbn; unfold cat; cbn; rewrite Nat.add_0_r; done|]. unfold last_place, first_page. lia. }
  unfold cbind at 1. rewrite Est. destruct (ws !! k) as [w|] eqn:Hw.
  - pose proof (place_lt k w Hw) as Hlt. destruct (Nat.leb_spec last_place (place_of k)); [lia|]. cbn [t_end t_page t_src t_pos t_dv t_v].
    unfold cbind at 1 2, cread at 1. cbn [im_file]. rewrite (page_memory_run k w Hw). unfold cret at 1.
    pose proof (Forall_lookup_1 _ _ _ _ Hgood Hw) as Hg. destruct (page_good_rep w Hg) as (ds & body & Hp & El).
    unfold cbind at 1, in_page at 1, on_page. cbn [pg_page pg_xf im_xf im_file im_cbuf]. rewrite (pg_h _ _ w Hg). cbn [pg_xf].
    unfold cbind at 1, in_page at 1, cread at 1. cbn [pg_page pg_xf im_xf im_file im_cbuf].
    assert (mem_read 0 sizeof_sdpageheader (w_bytes w) = Some (header_enc (a_header (w_add w)))) as ->.
    { rewrite <- (header_length (a_header (w_add w))). apply mem_at_read. rewrite (pr_bytes _ _ _ _ Hp). by eexists [], _. }
    cbn [pg_xf]. rewrite <- (pg_crc _ _ w Hg), Z.eqb_refl, andb_false_r. pose proof (Forall_lookup_1 _ _ _ _ Hsome Hw) as Hne. cbn beta in Hne. destruct (w_svs w) as [|v vs] eqn:Evs; [done|].
    assert (h_count (a_header (w_add w)) = Z.of_nat (length (w_svs w))) as Ec by (rewrite (pr_count _ _ _ _ Hp), El, Evs; done). rewrite Ec, Evs. destruct (Z.eqb_spec (Z.of_nat (length (v :: vs))) 0); [cbn [length] in *; lia|].
    destruct (iterresult_run file cb xf (w_bytes w) _ ds body (w_svs w) 0 v (mk_sditer last_place (t_page i) (place_of k) (t_pos i) (t_dv i) (t_v i)) Hp) as (xf' & E & Hl);
      [by rewrite Evs|apply Hread; [done|by eapply list_elem_of_lookup_2]|apply Hg|by rewrite Evs|].
    unfold cbind at 1. change (Z.of_nat 0) with 0 in E. rewrite E. eexists _, _, xf'. split; [done|]. split; [congruence|]. exists v. by split.
  - apply lookup_ge_None in Hw. assert (place_of k = last_place) as -> by (unfold place_of, last_place; by rewrite take_ge by lia).
    rewrite (proj2 (Nat.leb_le last_place last_place)) by lia. eexists _, _, xf. split; [done|]. by split.
Qed.
Lemma walk_run fuel : ∀ k n w v cb xf, length xf = N → ws !! k = Some w → w_svs w !! n = Some v →
  (length (drop n (w_svs w) ++ concat (w_svs <$> drop (S k) ws)) < fuel)%nat →
  ∃ xf', iter_walk r crcf cif h validate false fuel (standing k n w v) (mk_itmem file cb xf) =
    Some (drop n (w_svs w) ++ concat (w_svs <$> drop (S k) ws), mk_itmem file cb xf').
Proof.
  induction fuel as [|fuel IH]; intros k n w v cb xf Hxf Hw Hv Hf; [lia|]. cbn [iter_walk]. unfold cbind at 1. cbn [sd_iter_of standing t_page t_dv t_v]. unfold cbind at 1, cassert, cret at 1 2.
  rewrite (drop_S (w_svs w) v n Hv) in Hf |- *. cbn [app length] in Hf. pose proof (Forall_lookup_1 _ _ _ _ Hgood Hw) as Hg. destruct (page_good_rep w Hg) as (ds & body & Hp & El).
  pose proof (Hread xf w Hxf (list_elem_of_lookup_2 _ _ _ Hw)) as Hr. pose proof (proj1 Hr) as Hsm. unfold small in Hsm. pose proof (lookup_lt_Some _ _ _ Hv) as Hlt.
  unfold cbind at 1, sd_iter_next. cbn [t_page t_pos standing]. unfold cbind at 1, in_page, on_page. cbn [pg_page pg_xf im_xf im_file im_cbuf]. rewrite (pg_h _ _ w Hg). cbn [pg_xf].
  rewrite wrap_id by (unfold in_u; lia). rewrite (pr_count _ _ _ _ Hp), El. replace (Z.of_nat n + 1) with (Z.of_nat (S n)) by lia.
  destruct (Z.ltb_spec (Z.of_nat (S n)) (Z.of_nat (length (w_svs w)))) as [Hin|Hout].
  - destruct (lookup_lt_is_Some_2 (w_svs w) (S n)) as [v' Hv']; [lia|].
    destruct (iterresult_run file cb xf (w_bytes w) _ ds body (w_svs w) (S n) v' (standing k n w v) Hp El Hr (pg_of _ _ w Hg) Hv') as (xf1 & E & Hl). fold (standing k n w v). rewrite E.
    destruct (IH k (S n) w v' cb xf1) as (xf2 & E2); [congruence|done|done|lia|]. unfold cbind. unfold standing in E2. cbn [t_end t_src standing]. rewrite E2. unfold cret. by exists xf2.
  - destruct (nextpage_run (S k) (mk_sditer last_place (Some (w_bytes w)) (place_of k) (Z.of_nat (S n)) None (Some v)) cb xf Hxf) as (rc & i' & xf1 & E & Hl & Hi').
    { apply lookup_lt_Some in Hw. lia. } { cbn [t_page t_src t_end]. exists w. rewrite Nat.sub_succ, Nat.sub_0_r. split_and!; (done || lia). }
    unfold cbind at 1. cbn [t_end t_src t_v standing]. rewrite E. unfold cret at 1. cbn [snd]. rewrite (drop_ge (w_svs w) (S n)) in Hf |- * by lia. cbn [app] in *. destruct (ws !! S k) as [w'|] eqn:Hw'.
    + destruct Hi' as (v' & Hv' & ->). rewrite (drop_S ws w' (S k) Hw'), fmap_cons in Hf |- *. cbn [concat] in *.
      destruct (IH (S k) 0%nat w' v' cb xf1 Hl Hw' Hv') as (xf2 & E2); [rewrite drop_0; lia|]. unfold cbind. rewrite E2, drop_0. unfold cret. by exists xf2.
    + apply lookup_ge_None in Hw'. rewrite (drop_ge ws (S k)) by lia. destruct fuel as [|fuel]; [lia|]. cbn [iter_walk]. unfold cbind, sd_iter_of. rewrite Hi'.
      unfold cret. by exists xf1.
Qed.
Lemma iter_ok fuel cb xf : length xf = N → (length (concat (w_svs <$> ws)) < fuel)%nat →
  ∃ xf', (let! res := sd_iter_open r crcf cif h validate false in iter_walk r crcf cif h validate false fuel res.2) (mk_itmem file cb xf) =
    Some (concat (w_svs <$> ws), mk_itmem file cb xf').
Proof.
  intros Hxf Hf. destruct (nextpage_run 0 (mk_sditer 0 None 0 0 None None) cb xf Hxf) as (rc & i' & xf1 & E & Hl & Hi'); [lia|done|].
  unfold sd_iter_open, cbind at 1. rewrite E. cbn [snd]. destruct (ws !! 0%nat) as [w|] eqn:Hw.
  - destruct Hi' as (v & Hv & ->). assert (concat (w_svs <$> ws) = w_svs w ++ concat (w_svs <$> drop 1 ws)) as Ec by (rewrite <- (drop_0 ws) at 1; by rewrite (drop_S ws w 0 Hw)).
    rewrite Ec in *. destruct (walk_run fuel 0 0 w v cb xf1 Hl Hw Hv) as (xf2 & E2); [by rewrite drop_0|]. exists xf2. by rewrite E2, drop_0.
  - apply lookup_ge_None in Hw. assert (concat (w_svs <$> ws) = []) as -> by (rewrite <- (drop_0 ws); by rewrite drop_ge).
    destruct fuel as [|fuel]; [lia|]. cbn [iter_walk]. unfold cbind, sd_iter_of. rewrite Hi'. unfold cret. by exists xf1.
Qed.
End proofs.
