(* ===== verification/SiBranch.v ===== *)
(** Branches: si_branch.h, and the creation of a branch from an in-memory index by
    [si_branchcreate] of si_balance.c. *)
From stdpp Require Import base list sorting sets gmap.
From S2P Require Import Prelude SsOrder Sv SsBytes SsBuf SsFilter Sf Sr SrScheme SvMerge SvMergeProofs SvUpdate SvRead SvWrite SvIndexIter SdPage SdPageIter SdPageRep SdPageKv SdPageSpec SdBuild SdBuildProofs SdBuildKv SdBuildSpec SdIndex SdIndexIter SdIndexBuild SdMerge SdMergeProofs SsFile SdCommit SdIter.
Local Open Scope Z_scope.
Local Open Scope c_scope.

(** * Model *)

(** The list of the branches of a node is kept by the node. *)
Record sibranch := mk_branch { br_id : sdid; br_index : sdindex }.
Definition sizeof_sibranch : nat := 96.
Definition si_branchinit : sibranch := mk_branch (mk_sdid 0 0 0) sd_indexinit.
Definition si_branchnew `{Alloc} : option sibranch := match ss_malloc sizeof_sibranch with None => None | Some _ => Some si_branchinit end.
(** [b->id = i->h->id] reads through [h]. *)
Definition si_branchset (b : sibranch) (i : sdindex) : option sibranch := '(h, _) ← index_h i; Some (mk_branch (x_id h) i).
Definition si_branchfree (b : sibranch) : sibranch := mk_branch (br_id b) (sd_indexfree (br_index b)).

(** What [si_branchcreate] uses of the scheme and the node. *)
Record branchconf := mk_branchconf { bc_page_size : Z; bc_checksum : bool; bc_compression : bool; bc_compression_key : bool; bc_sync : bool; bc_mmap : bool }.
Definition branch_mergeconf (bc : branchconf) (size vlsn : Z) : sdmergeconf :=
  mk_mergeconf UINT32_MAX UINT64_MAX (bc_page_size bc) (bc_checksum bc) (bc_compression bc) (bc_compression_key bc) size vlsn true true.

Section model.
Context {M : Type} `{MergeIter M} (upd : sfupdatef) `{Alloc}.
Context (r : sr) (crcf : Z → bytes → Z) {F : Type} (compression : ssfilterif F).
(** [g]: the memory for the list of references; [fuel], [n]: for the versions and the pages;
    [io]: for the system calls; [old]: the uninitialised word of the seal; [mapped]: whether
    the file could be mapped. *)
Context (g : nat → bool) (fuel n io : nat) (old : Z) (mapped : bool).

(** From the opened merge iterator on; the answer is NULL or the branch, and the file and the
    builder are what the calls left of them. *)
Definition si_branchcreate (bc : branchconf) (id vlsn : Z) (parent : sdid) (i : M) (update : svupdate) (b : sdbuild) (f : ssfile) :
    option (option sibranch * sdbuild * ssfile) :=
  let conf := branch_mergeconf bc (fl_size f) vlsn in
  m ← sd_mergeinit upd fuel i b update conf;
  '(rc, m) ← sd_merge upd r crcf compression g fuel n conf m;
  if Z.eqb rc (-1) then Some (None, m_build m, f) else
  if negb (Z.eqb rc 1) then None else
  match si_branchnew with
  | None => Some (None, m_build m, f)
  | Some branch =>
      let id := mk_sdid (id_id parent) id SD_IDBRANCH in
      '(rc, m) ← sd_mergecommit crcf id m;
      if Z.eqb rc (-1) then Some (None, m_build m, f) else
      branch ← si_branchset branch (m_index m);
      '(rc, f) ← sd_commit crcf io old (m_build m) (br_index branch) f;
      if Z.eqb rc (-1) then Some (None, m_build m, f) else
      '(rc, f) ← (if bc_sync bc then ss_filesync f else Some (0, f));
      if Z.eqb rc (-1) then Some (None, m_build m, f) else
      if bc_mmap bc && negb mapped then Some (None, m_build m, f) else
      Some (Some branch, m_build m, f)
  end.
End model.

(** * Correctness *)

Section proofs.
Context {M : Type} `{MergeIter M} (upd : sfupdatef) `{Alloc}.
Context (r : sr) (crcf : Z → bytes → Z) {F : Type} (compression : ssfilterif F).
Context (g : nat → bool) (fuel n io : nat) (old : Z) (mapped : bool).

(** The branch [x] of the given pages lies in [file] at the offset its header says. *)
Record branch_in (file : bytes) (x : sdindex) (h : sdindexheader) (pages : list (list sv)) : Prop := {
  bi_index : ∃ ps, index_rep x h ps (range_of r <$> pages) ∧
    ∀ k p vs, ps !! k = Some p → pages !! k = Some vs → ∃ P, page_memory (first_page h + Z.to_nat (g_offset p)) file = Some P ∧ page_of r P vs ∧ g_sizeorigin p = blen P;
  bi_iter : ∀ {G} (cif : ssfilterif G) validate k cb xf, Forall (readable r xf) pages → Forall (λ vs, vs ≠ []) pages → (length (concat pages) < k)%nat →
    ∃ xf', (let! res := sd_iter_open r crcf cif h validate false in iter_walk r crcf cif h validate false k res.2) (mk_itmem file cb xf) =
      Some (concat pages, mk_itmem file cb xf');
  bi_seal : ∃ seal l m, file = l ++ m ++ seal_enc seal ∧ length l = Z.to_nat (x_offset h) ∧ sd_sealvalidate crcf seal h = 0
}.
Lemma image_length offset id l : index_fits offset l → Z.of_nat (length (image_of crcf offset id l)) = sd_indexsize (final_header crcf offset id l) ∨
  4294967296 <= Z.of_nat (length (image_of crcf offset id l)).
Proof.
  intros Hf. unfold image_of. rewrite !length_app, idxheader_length, idxpages_length, idx_entries_length. unfold sd_indexsize. cbn [final_header x_size header_of].
  rewrite index_total. unfold blen. destruct (decide (Z.of_nat sizeof_sdindexheader + (Z.of_nat sizeof_sdindexpage * Z.of_nat (length l) + Z.of_nat (length (keys_of l))) < 4294967296)) as [Hlt|Hge].
  - left. rewrite wrap_id by (unfold in_u, sizeof_sdindexheader, sizeof_sdindexpage in *; lia). lia.
  - right. lia.
Qed.
Lemma entries_offset l k p a : entries 0 l !! k = Some p → l !! k = Some a → g_offset p = a_offset a ∧ g_sizeorigin p = a_sizeorigin a.
Proof.
  generalize 0 as z. revert k. induction l as [|b l IH]; intros k z Hp Ha; [done|]. destruct k as [|k]; cbn in Hp, Ha; [by simplify_eq|]. by apply (IH k (z + a_index b)).
Qed.
Lemma readable_all (xf : bytes) pages : Forall (readable r xf) pages → ∀ xf' (w : wpage) ws, w_svs <$> ws = pages → length xf' = length xf → w ∈ ws → readable r xf' (w_svs w).
Proof.
  intros HF xf' w ws <- Hl Hw. apply (readable_length r xf); [done|]. rewrite Forall_fmap in HF. by apply (proj1 (Forall_forall _ _) HF).
Qed.
Lemma branch_in_file T dup offset b x0 ws id x pre : 4 * T <= INT_MAX → (∀ c p, is_u32 (crcf c p)) → merged r crcf T dup offset b x0 ws → id_ok id → xh x = true →
  content (xi x) = image_of crcf offset id (w_add <$> ws) → offset = Z.of_nat (length pre) → blen (image_of crcf offset id (w_add <$> ws)) <= T →
  branch_in (pre ++ branch_image crcf offset ws id old) x (final_header crcf offset id (w_add <$> ws)) (w_svs <$> ws).
Proof.
  intros HT Hcrc Hme Hid Hh Hx Ho Hsz. set (h := final_header crcf offset id (w_add <$> ws)). set (img := image_of crcf offset id (w_add <$> ws)) in *.
  assert (first_page h = length (pre ++ img)) as Efirst.
  { unfold first_page. rewrite length_app. replace (Z.to_nat (x_offset h)) with (length pre) by (unfold h; cbn; lia). f_equal.
    destruct (image_length offset id (w_add <$> ws) (me_fits _ _ _ _ _ _ _ _ Hme)) as [E|E]; fold img h in E; [lia|]. unfold blen, INT_MAX in *. lia. }
  assert (mem_at (pre ++ branch_image crcf offset ws id old) (first_page h) (cat w_bytes ws)) as Hat.
  { unfold branch_image. fold img h. rewrite Efirst. eexists (pre ++ img), _. split; [|done]. by rewrite <- !app_assoc. }
  assert (Z.to_nat (x_total h) = length (cat w_bytes ws)) as Etot.
  { unfold h. cbn [final_header x_total header_of]. rewrite (sizes_total r crcf) by apply Hme. unfold blen. by rewrite Nat2Z.id. }
  assert (Forall (page_good r crcf) ws) as Hgood by apply Hme.
  split.
  - exists (entries 0 (w_add <$> ws)). split.
    + assert (range_of r <$> (w_svs <$> ws) = a_keys <$> (w_add <$> ws)) as ->.
      { clear -Hgood. induction Hgood as [|w ws Hw _ IH]; [done|]. rewrite !fmap_cons, IH. by rewrite (pg_keys _ _ w Hw). }
      eapply image_rep; [done|apply Hme|done|done|]. rewrite <- (take_drop (b_p (xi x)) (b_mem (xi x))) at 1. change (take (b_p (xi x)) (b_mem (xi x))) with (content (xi x)). by rewrite Hx.
    + intros k p vs Hp Hv. rewrite list_lookup_fmap in Hv. destruct (ws !! k) as [w|] eqn:Hw; [|done]. cbn in Hv. injection Hv as <-.
      destruct (entries_offset _ _ _ (w_add w) Hp) as [-> ->]; [by rewrite list_lookup_fmap, Hw|]. rewrite (me_offsets _ _ _ _ _ _ _ _ Hme k w Hw). unfold blen. rewrite Nat2Z.id.
      exists (w_bytes w). pose proof (Forall_lookup_1 _ _ _ _ Hgood Hw) as Hg. split; [|split; [apply Hg|by rewrite (pg_origin _ _ _ Hg)]]. eapply page_memory_run; eassumption.
  - intros G cif validate k cb xf Hr Hne Hk. apply (iter_ok r crcf cif _ ws h (length xf) validate Hat Etot Hgood); [by rewrite Forall_fmap in Hne| |done|done].
    intros xf' w Hl Hw. by apply (readable_all xf (w_svs <$> ws) Hr xf' w ws).
  - eexists _, pre, (img ++ cat w_bytes ws). unfold branch_image. fold img h. split; [by rewrite <- !app_assoc|]. split; [unfold h; cbn; lia|]. apply seal_valid.
Qed.

(** The bytes of a branch behind [pre]: sealed, and any copy of its index finds its pages. *)
Record branch_at (pre bs : bytes) (h : sdindexheader) (pages : list (list sv)) : Prop := {
  ba_sealed : sealed crcf bs h;
  ba_index x : xh x = true → content (xi x) = take (Z.to_nat (sd_indexsize h)) bs → branch_in (pre ++ bs) x h pages
}.
Lemma branch_image_at T dup b x0 ws id pre : 4 * T <= INT_MAX → (∀ c p, is_u32 (crcf c p)) → let offset := Z.of_nat (length pre) in merged r crcf T dup offset b x0 ws → id_ok id →
  blen (image_of crcf offset id (w_add <$> ws)) <= T →
  branch_at pre (branch_image crcf offset ws id old) (final_header crcf offset id (w_add <$> ws)) (w_svs <$> ws).
Proof.
  intros HT Hcrc offset Hme Hid Hsz. split; [eapply image_sealed; try done; unfold INT_MAX in *; pose proof (blen_pos (image_of crcf offset id (w_add <$> ws))); lia|].
  intros x Hh Hx. eapply (branch_in_file T); try done. rewrite Hx. unfold branch_image.
  destruct (image_length offset id (w_add <$> ws) (me_fits _ _ _ _ _ _ _ _ Hme)) as [E|E].
  - rewrite take_app_length' by lia. done.
  - unfold blen, INT_MAX in *. lia.
Qed.

(** ** Creating a branch *)

(** The runtime and the stream a branch is written from. *)
Record branch_setting (T : Z) (bc : branchconf) (f : ssfile) (vlsn : Z) (i : M) (update : svupdate) (b : sdbuild) (pages : list (list (sv * bool))) : Prop := {
  bs_env : merge_env r crcf T (branch_mergeconf bc (fl_size f) vlsn);
  bs_stream : ∃ w k, sv_writeiter_open upd fuel i update (bc_page_size bc) (Z.of_nat sizeof_sdv) vlsn true true = Some w ∧
    write_all upd k fuel w = Some pages ∧ sv_writeiter_has w = true;
  bs_pages : (length pages < n)%nat;
  bs_room : room r T [] pages;
  bs_ready : ∃ M0 V0 K0, ready (bc_compression_key bc) T b M0 V0 K0;
  bs_file : at_end_of f;
  bs_filesize : fl_size f < 9223372036854775808;
  bs_io : (length (o_answers (fl_os f)) < io)%nat
}.
(** Why there may be no branch: no memory, or the system failed. *)
Definition branch_fails (f : ssfile) : Prop := out_of_memory g ∨ o_answers (fl_os f) ≠ [] ∨ mapped = false.

Lemma cut_all T conf pages ws im dn rest : merge_limit conf 0 = UINT64_MAX → 4 * T <= INT_MAX → room r T ws rest →
  cut upd fuel (merge_limit conf 0) pages ws im dn rest → rest = [] ∧ w_svs <$> ws = page_svs <$> pages.
Proof.
  intros El HT Hroom [-> Hs _ Hlo _]. rewrite El in Hlo. destruct Hlo as [[-> _]|(_ & _ & _ & Hlt)]; [by rewrite app_nil_r|]. exfalso.
  rewrite cat_bytes in Hlt. pose proof (needs_pos need_m rest need_m_pos). pose proof (needs_pos (λ p, costs r (marks p)) rest (λ p, costs_pos r (marks p))).
  destruct Hroom. unfold UINT64_MAX, INT_MAX in *. lia.
Qed.
Lemma appended_end f f' bs : at_end_of f → appended f f' bs → fl_size f + blen bs < 18446744073709551616 → o_data (fl_os f') = o_data (fl_os f) ++ bs ∧ at_end_of f'.
Proof.
  intros [Hs Hp] [Hw Hs'] Hlt. destruct (append_data _ _ _ Hp Hw) as [Ed Ep]. split; [done|]. split; [|done]. rewrite Hs', Hs, Ed, length_app. unfold blen in *. rewrite wrap_id by (unfold in_u; lia). lia.
Qed.
Lemma sync_run bc f : ∃ rc f', (if bc_sync bc then ss_filesync f else Some (0, f)) = Some (rc, f') ∧ o_data (fl_os f') = o_data (fl_os f) ∧ fl_size f' = fl_size f ∧ o_pos (fl_os f') = o_pos (fl_os f) ∧
  (rc = 0 ∨ (rc = -1 ∧ o_answers (fl_os f) ≠ [])).
Proof.
  destruct (bc_sync bc); [|eexists _, f; split_and!; auto]. destruct f as [s [d p l]]. unfold ss_filesync, cbind, on_os, sys_answer, cbind, os_answer, cret. cbn.
  destruct l as [|[| |k] l]; eexists _, _; (split; [done|]); cbn; split_and!; auto.
Qed.
Lemma image_small T offset id ws : room r T ws [] → blen (image_of crcf offset id (w_add <$> ws)) <= T.
Proof.
  intros Hroom. pose proof (ro_i _ _ _ _ Hroom) as Hi. unfold image_of. rewrite !blen_app. unfold blen at 1 2. rewrite idxheader_length, idxpages_length, idx_entries_length, length_fmap.
  unfold needs in Hi. cbn [foldr] in Hi. lia.
Qed.
Lemma branch_small T offset id ws : room r T ws [] → 4 * T <= INT_MAX → blen (branch_image crcf offset ws id old) <= INT_MAX + 16.
Proof.
  intros Hroom HT. pose proof (image_small T offset id ws Hroom). unfold branch_image. rewrite !blen_app, cat_bytes. destruct Hroom as [_ Hr1 Hr2 Hr3 _]. unfold needs in *. cbn [foldr] in *.
  assert (∀ s, blen (seal_enc s) = 16) as -> by (intros s; unfold blen, seal_enc; by rewrite !length_app, !le_enc_length). lia.
Qed.
Lemma branchcreate_ok T bc f vlsn i update b pages nsn parent : branch_setting T bc f vlsn i update b pages → is_u32 nsn → is_u32 (id_id parent) →
  let id := mk_sdid (id_id parent) nsn SD_IDBRANCH in
  ∃ res b' f', si_branchcreate upd r crcf compression g fuel n io old mapped bc nsn vlsn parent i update b f = Some (res, b', f') ∧
    match res with
    | None => branch_fails f
    | Some br => ∃ h bs, br_id br = id ∧ x_id h = id ∧ x_offset h = fl_size f ∧ o_data (fl_os f') = o_data (fl_os f) ++ bs ∧ at_end_of f' ∧
        branch_in (o_data (fl_os f')) (br_index br) h (page_svs <$> pages) ∧ branch_at (o_data (fl_os f)) bs h (page_svs <$> pages)
    end.
Proof.
  intros [Henv (w & k & Hopen & Hall & Hhas) Hn Hroom (M0 & V0 & K0 & Hrd) Hend Hfsz Hio] Hnsn Hpar id. unfold si_branchcreate. cbv zeta. set (conf := branch_mergeconf bc (fl_size f) vlsn) in *.
  unfold sd_mergeinit. cbn [c_size_page c_vlsn c_save_delete c_save_update conf branch_mergeconf]. fold conf. rewrite Hopen. cbn [mbind option_bind].
  set (m0 := mk_sdmerge sd_indexinit w 0 b). pose proof (en_T _ _ _ _ Henv) as HT. pose proof (en_crc _ _ _ _ Henv) as Hcrc.
  pose proof (proj1 (wp_run _ _ _) (merge_ok upd r crcf compression g fuel T conf m0 pages n k M0 V0 K0 Henv Hall Hhas Hn Hroom Hrd)) as (rc & m1 & E1 & HE1).
  rewrite E1. cbn [mbind option_bind]. destruct HE1 as [[-> Hno]|(-> & dn & rest & ws & Hcut & Hroom1 & Hme & _)].
  { eexists _, _, _. split; [done|]. by left. }
  cbn [Z.eqb Pos.eqb negb]. destruct (cut_all T conf pages ws _ dn rest eq_refl HT Hroom1 Hcut) as [-> Hsvs]. unfold si_branchnew. destruct (ss_malloc sizeof_sibranch) eqn:Em; [|eexists _, _, _; split; [done|]; left; left; by eexists].
  assert (id_ok id) as Hid by (by split_and!). fold id. pose proof (image_small T (c_offset conf) id ws Hroom1) as Hsmall.
  pose proof (indexcommit_ok crcf T (m_index m1) (c_offset conf) (w_add <$> ws) id HT (me_indexing _ _ _ _ _ _ _ _ Hme) (me_fits _ _ _ _ _ _ _ _ Hme) Hid) as Hc.
  rewrite length_fmap in Hc. specialize (Hc ltac:(pose proof (ro_i _ _ _ _ Hroom1) as Hi; unfold needs in Hi; cbn [foldr] in Hi; lia)). apply wp_run in Hc as (rc & x2 & E2 & HE2).
  unfold sd_mergecommit, on_index, lift. rewrite E2. cbn [mbind option_bind]. destruct HE2 as [[-> Hno]|(-> & Hxh & _ & Hxi)]; [eexists _, _, _; split; [done|]; left; by left|]. cbn [Z.eqb Pos.eqb m_index with_mindex m_build].
  set (h := final_header crcf (c_offset conf) id (w_add <$> ws)).
  destruct Hend as [Hfs Hfp]. assert (c_offset conf = Z.of_nat (length (o_data (fl_os f)))) as Eoff by done.
  pose proof (branch_in_file T _ _ _ _ ws id x2 (o_data (fl_os f)) HT Hcrc Hme Hid Hxh Hxi Eoff Hsmall) as Hbi. fold h in Hbi.
  destruct (bi_index _ _ _ _ Hbi) as (ps & Hrep & _). unfold si_branchset. rewrite (index_h_run _ _ _ _ Hrep). cbn [mbind option_bind br_index].
  destruct (sdcommit_ok r crcf T _ (c_offset conf) (m_build m1) (m_index m1) ws Hme io old x2 id f Hcrc Hid Hxh Hxi) as (rc & f1 & E3 & HE3); [unfold os_ok; lia|done|].
  rewrite E3. cbn [mbind option_bind]. destruct HE3 as [[-> Ha]|(-> & He & _)]; cbn [Z.eqb Pos.eqb].
  2: { eexists _, _, _. split; [done|]. right. left. intros E0. rewrite E0 in He. by apply not_elem_of_nil in He. }
  destruct (sync_run bc f1) as (rc & f2 & E4 & Ed & Es & Ep & HE4). rewrite E4. cbn [mbind option_bind]. destruct HE4 as [->|[-> Hne]]; cbn [Z.eqb Pos.eqb].
  2: { eexists _, _, _. split; [done|]. right. left. destruct Ha as [(_ & _ & [pre Hsuf]) _]. rewrite Hsuf. intros [_ ?]%app_eq_nil. done. }
  destruct (bc_mmap bc && negb mapped) eqn:Emap; [eexists _, _, _; split; [done|]; right; right; apply andb_true_iff in Emap as [_ Emap]; by apply negb_true_iff in Emap|].
  destruct (appended_end f f1 _ (conj Hfs Hfp) Ha) as [Ed1 [Es1 Ep1]].
  { pose proof (branch_small T (c_offset conf) id ws Hroom1 HT). unfold INT_MAX in *. lia. }
  eexists _, _, _. split; [done|]. cbv iota. exists h, (branch_image crcf (c_offset conf) ws id old). rewrite Ed, Ed1. split_and!; try done; [| |].
  - split; [by rewrite Es, Ed|by rewrite Ep, Ed].
  - by rewrite <- Hsvs.
  - rewrite <- Hsvs. unfold h. rewrite Eoff in *. by eapply (branch_image_at T).
Qed.
End proofs.


(** ** Witness: three versions of two keys on two pages *)
Definition demo_branchconf : branchconf := mk_branchconf 10 true false true true false.
Definition demo_stream : list sv := [demo_pagev 9 0 5 50; demo_pagev 3 4 5 51; demo_pagev 4 0 7 70].
Definition demo_pages : list (list (sv * bool)) := [[(demo_pagev 9 0 5 50, false); (demo_pagev 3 4 5 51, true)]; [(demo_pagev 4 0 7 70, false)]].
Abbreviation demo_mi := (svmergeiter_merge (I:=list sv) (scheme_cmp (r_scheme demo_pagesr))).
Definition demo_i : svmergeiter (list sv) := default (mk_mergeiter SS_GTE [] None) (sv_mergeiter_open (scheme_cmp (r_scheme demo_pagesr)) [mk_src demo_stream false] SS_GTE).
Lemma demo_setting fl : at_end_of fl → fl_size fl < 9223372036854775808 → o_answers (fl_os fl) = [] → branch_setting (H := demo_mi) (H0 := demo_alloc) demo_upd demo_pagesr demo_crcf 5 3 1 100000 demo_branchconf fl 2 demo_i sv_updateinit sd_buildinit demo_pages.
Proof.
  intros Hend Hsz Ha. split.
  - split; [by vm_compute|exact demo_crcf_u32|intros _; by eexists|done|cbn; lia| |by vm_compute]. destruct Hend as [Hs _]. unfold in_u. cbn [c_offset branch_mergeconf]. lia.
  - eexists _, 3%nat. split; [vm_compute; reflexivity|]. split; [vm_compute; reflexivity|reflexivity].
  - cbn. lia.
  - assert (∀ lsn f k v, is_u64 lsn → is_u32 k → storable demo_pagesr (demo_pagev lsn f k v) ∧ key_ok demo_pagesr (demo_pagev lsn f k v)) as Hs.
    { intros lsn f k v Hl Hk. assert (fits [le_enc 4 k]) as Hfit by (split; [constructor; [by rewrite le_enc_length|constructor]|done]). split.
      - split; [done|]. split; [done|]. exists [le_enc 4 k], [v]. split; [|done]. by split.
      - unfold key_ok. assert (parts_in demo_pagesr (sv_pointer (demo_pagev lsn f k v)) = [le_enc 4 k]) as -> by done. split_and!; [by apply row_has_keys|done|done|done]. }
    split; [|by vm_compute..]. constructor; [constructor; [by apply Hs|constructor; [by apply Hs|constructor]]|]. constructor; [|constructor]. constructor; [by apply Hs|constructor].
  - eexists _, _, _. exact demo_ready.
  - done.
  - done.
  - rewrite Ha. cbn. lia.
Qed.
