(* ===== verification/SlIter.v ===== *)
(** Records of the write-ahead log (sl_v.h, sl_v.c, the records sl.c makes) and reading a log
    file: the iterator of sl_iter.c and the loop of [se_recoverlog] over it.

    A transaction of one statement is its record; one of several is a record with [SVBEGIN]
    that counts them and then their records.  The iterator validates the first record of the
    next transaction when it leaves one, and gives the statements of one transaction at a
    time. *)
From stdpp Require Import base list.
From S2P Require Import Prelude Sv SsBytes Sr SdBuild SdIndex SdIndexIter.
Local Open Scope Z_scope.
Local Open Scope c_scope.

(** * Records *)

Record slv := mk_slv { lr_crc : Z; lr_lsn : Z; lr_dsn : Z; lr_size : Z; lr_flags : Z }.
Definition sizeof_slv : nat := 21.
Definition slv_enc (v : slv) : bytes :=
  le_enc 4 (lr_crc v) ++ le_enc 8 (lr_lsn v) ++ le_enc 4 (lr_dsn v) ++ le_enc 4 (lr_size v) ++ le_enc 1 (lr_flags v).
(** The fields of the record at a place of the mapped file; behind its end is a fault. *)
Definition slv_crc (p : nat) : cmd bytes Z := cread (load_le p 4).
Definition slv_lsn (p : nat) : cmd bytes Z := cread (load_le (p + 4) 8).
Definition sl_vdsn (p : nat) : cmd bytes Z := cread (load_le (p + 12) 4).
Definition slv_size (p : nat) : cmd bytes Z := cread (load_le (p + 16) 4).
Definition slv_flags (p : nat) : cmd bytes Z := cread (load_le (p + 20) 1).
(** [sl_vif]: the version at a record. *)
Definition sl_vifflags (p : nat) : cmd bytes Z := slv_flags p.
Definition sl_viflsn (p : nat) : cmd bytes Z := slv_lsn p.
Definition sl_vifpointer (p : nat) : nat := (p + sizeof_slv)%nat.
Definition sl_vifsize (p : nat) : cmd bytes Z := slv_size p.
Definition sl_vif (p : nat) : cmd bytes sv :=
  let! lsn := sl_viflsn p in
  let! flags := sl_vifflags p in
  let! size := sl_vifsize p in
  let! data := cread (mem_read (sl_vifpointer p) (Z.to_nat size)) in
  cret (mk_sv lsn flags data).

(** A statement: its database and the version. *)
Abbreviation stmt := (Z * sv)%type.

Section crc.
Context (crcf : Z → bytes → Z).

(** The record [sl_write_prepare] makes of a statement. *)
Definition sl_record (dsn : Z) (v : sv) : slv :=
  let crc := ss_crcp crcf (sv_pointer v) 0 in
  let lv := mk_slv crc (sv_lsn v) dsn (sv_size v) (sv_flags v) in
  mk_slv (ss_crcs crcf (slv_enc lv) crc) (sv_lsn v) dsn (sv_size v) (sv_flags v).
(** The header of a transaction of several statements; [old] is what was in the first word. *)
Definition sl_header (old lsn count : Z) : slv :=
  mk_slv (ss_crcs crcf (slv_enc (mk_slv old lsn 0 count SVBEGIN)) 0) lsn 0 count SVBEGIN.

(** * The iterator *)

Record sliter := mk_sliter { si_error : bool; si_v : option nat; si_next : option nat; si_count : Z; si_pos : Z }.
Definition sl_iterseterror (i : sliter) : sliter := mk_sliter true None None (si_count i) (si_pos i).

(** [check]: the iterator was opened to validate. *)
Context (check : bool).

(** Whether the checksum of the record at [start] is wrong. *)
Definition bad_crc (start : nat) (size : Z) : cmd bytes bool :=
  let! flags := slv_flags start in
  let! crc := (if Z.eqb (Z.land flags SVBEGIN) 0
               then let! d := cread (mem_read (start + sizeof_slv) (Z.to_nat size)) in cret (ss_crcp crcf d 0)
               else cret 0) in
  let! h := cread (mem_read start sizeof_slv) in
  let! stored := slv_crc start in
  cret (negb (Z.eqb (ss_crcs crcf h crc) stored)).
Definition sl_iternext_of (i : sliter) (next : option nat) (validate : bool) : cmd bytes (Z * sliter) :=
  match next with
  | None => cret (0, i)
  | Some start =>
      let! m := cget in
      let eof := length m in
      if Nat.eqb start eof then
        if negb (Z.eqb (si_count i) (si_pos i)) then cret (-1, sl_iterseterror i)
        else cret (0, mk_sliter (si_error i) None None (si_count i) (si_pos i))
      else
      let! size := slv_size start in
      let end_ := (start + Z.to_nat size)%nat in
      if (eof <? start)%nat || (eof <? end_)%nat then cret (-1, sl_iterseterror i) else
      let! bad := (if validate && check then bad_crc start size else cret false) in
      if bad then cret (-1, sl_iterseterror i) else
      let pos := u32 (si_pos i + 1) in
      if Z.gtb pos (si_count i) then cret (0, mk_sliter (si_error i) None (Some start) 0 0)
      else cret (1, mk_sliter (si_error i) (Some start) (si_next i) (si_count i) pos)
  end.
Definition sl_itercontinue_of (i : sliter) : cmd bytes (Z * sliter) :=
  if si_error i then cret (-1, i) else
  match si_v i with
  | Some _ => cret (1, i)
  | None =>
      match si_next i with
      | None => cret (0, i)
      | Some next =>
          let! flags := slv_flags next in
          if c_true (Z.land flags SVBEGIN) then
            let! count := slv_size next in
            sl_iternext_of (mk_sliter (si_error i) None (Some next) count 0) (Some (next + sizeof_slv)%nat) true
          else sl_iternext_of (mk_sliter (si_error i) None (Some next) 1 0) (Some next) false
      end
  end.
Definition sizeof_srversion : nat := 11.
Definition sl_iterprepare (i : sliter) : cmd bytes (Z * sliter) :=
  let! m := cget in
  let! ver := cread (version_at 0) in
  if negb (sr_versioncheck ver) then cret (-1, i) else
  if (length m <? sizeof_srversion)%nat then cret (-1, i) else
  let! res := sl_iternext_of i (Some sizeof_srversion) true in
  let '(rc, i) := res in
  if Z.eqb rc (-1) then cret (-1, i) else
  match si_next i with Some _ => sl_itercontinue_of i | None => cret (0, i) end.
(** [mapped]: whether the file could be mapped. *)
Definition sl_iter_open (mapped : bool) : cmd bytes (Z * sliter) :=
  let i := mk_sliter false None None 0 0 in
  let! m := cget in
  if (length m <? sizeof_srversion)%nat then cret (-1, i) else
  if Nat.eqb (length m) sizeof_srversion then cret (0, i) else
  if negb mapped then cret (-1, i) else
  let! res := sl_iterprepare i in
  cret (0, res.2).
Definition sl_iter_has (i : sliter) : bool := match si_v i with Some _ => true | None => false end.
Definition sl_iter_of (i : sliter) : option nat := si_v i.
Definition sl_iter_next (i : sliter) : cmd bytes sliter :=
  match si_v i with
  | None => cret i
  | Some v =>
      let! size := slv_size v in
      let! res := sl_iternext_of i (Some (v + sizeof_slv + Z.to_nat size)%nat) true in
      cret res.2
  end.
Definition sl_iter_error (i : sliter) : bool := si_error i.
Definition sl_iter_continue (i : sliter) : cmd bytes (Z * sliter) := sl_itercontinue_of i.

(** * Replaying a log *)

(** The databases that are declared. *)
Context (declared : Z → bool).

(** The statements of a transaction; [false]: it is given up. *)
Fixpoint recover_tx (fuel : nat) (lsn : Z) (i : sliter) : cmd bytes (bool * list stmt * sliter) :=
  match fuel with
  | O => cfail
  | S fuel =>
      match sl_iter_of i with
      | None => cret (true, [], i)
      | Some p =>
          let! v := sl_vif p in
          cassert (Z.eqb (sv_lsn v) lsn);;;
          let! dsn := sl_vdsn p in
          if negb (declared dsn) then cret (false, [], i) else
          cassert (Z.eqb (sv_flags v) SVDELETE || Z.eqb (sv_flags v) SVUPDATE || Z.eqb (sv_flags v) 0);;;
          let! i := sl_iter_next i in
          let! res := recover_tx fuel lsn i in
          let '(ok, l, i) := res in cret (ok, (dsn, v) :: l, i)
      end
  end.
(** The transactions that were committed, and the result. *)
Fixpoint recover_txs (fuel : nat) (i : sliter) : cmd bytes (Z * list (list stmt)) :=
  match fuel with
  | O => cfail
  | S fuel' =>
      match sl_iter_of i with
      | None => cret (0, [])
      | Some p =>
          let! lsn := sl_viflsn p in
          let! res := recover_tx fuel lsn i in
          let '(ok, l, i) := res in
          if negb ok || sl_iter_error i then cret (-1, []) else
          let! res := sl_iter_continue i in
          let '(rc, i) := res in
          if Z.eqb rc (-1) then cret (-1, [l]) else
          if Z.eqb rc 0 then cret (0, [l]) else
          let! res := recover_txs fuel' i in
          cret (res.1, l :: res.2)
      end
  end.
Definition se_recoverlog (fuel : nat) (mapped : bool) : cmd bytes (Z * list (list stmt)) :=
  let! res := sl_iter_open mapped in
  let '(rc, i) := res in
  if Z.eqb rc (-1) then cret (-1, []) else recover_txs fuel i.
End crc.

(** * What a log holds *)

Definition rec_bytes (crcf : Z → bytes → Z) (s : stmt) : bytes := slv_enc (sl_record crcf s.1 s.2) ++ sv_pointer s.2.
Definition tx_lsn (tx : list stmt) : Z := match tx with [] => 0 | s :: _ => sv_lsn s.2 end.
Definition tx_bytes (crcf : Z → bytes → Z) (tx : list stmt) : bytes :=
  match tx with
  | [s] => rec_bytes crcf s
  | _ => slv_enc (sl_header crcf 0 (tx_lsn tx) (Z.of_nat (length tx))) ++ concat (rec_bytes crcf <$> tx)
  end.
Definition log_bytes (crcf : Z → bytes → Z) (txs : list (list stmt)) : bytes := version_enc sr_version ++ concat (tx_bytes crcf <$> txs).

Definition stmt_ok (s : stmt) : Prop :=
  is_u32 s.1 ∧ is_u64 (sv_lsn s.2) ∧ is_u32 (sv_size s.2) ∧ (sv_flags s.2 = 0 ∨ sv_flags s.2 = SVDELETE ∨ sv_flags s.2 = SVUPDATE).
(** Statements of one commit have the same sequence number. *)
Definition tx_ok (tx : list stmt) : Prop :=
  tx ≠ [] ∧ Forall stmt_ok tx ∧ Forall (λ s, sv_lsn s.2 = tx_lsn tx) tx ∧ Z.of_nat (length tx) < UINT32_MAX.

(** The start of a transaction whose rest is missing: the header says [n] statements and there
    are fewer. *)
Record cut := mk_cut { ct_lsn : Z; ct_n : Z; ct_stmts : list stmt }.
Definition cut_bytes (crcf : Z → bytes → Z) (c : option cut) : bytes :=
  match c with
  | None => []
  | Some c => slv_enc (sl_header crcf 0 (ct_lsn c) (ct_n c)) ++ concat (rec_bytes crcf <$> ct_stmts c)
  end.
Definition cut_ok (c : cut) : Prop :=
  is_u64 (ct_lsn c) ∧ Z.of_nat (length (ct_stmts c)) < ct_n c < UINT32_MAX ∧
  Forall stmt_ok (ct_stmts c) ∧ Forall (λ s, sv_lsn s.2 = ct_lsn c) (ct_stmts c).

Section lemmas.
Context (crcf : Z → bytes → Z) (Hcrc : ∀ c p, is_u32 (crcf c p)).

Record slv_ok (v : slv) : Prop := {
  so_crc : is_u32 (lr_crc v); so_lsn : is_u64 (lr_lsn v); so_dsn : is_u32 (lr_dsn v); so_size : is_u32 (lr_size v); so_flags : is_byte (lr_flags v)
}.
Lemma slv_enc_length v : length (slv_enc v) = sizeof_slv.
Proof. unfold slv_enc. by rewrite !length_app, !le_enc_length. Qed.
Lemma slv_read m p v : mem_at m p (slv_enc v) → slv_ok v →
  slv_crc p m = Some (lr_crc v, m) ∧ slv_lsn p m = Some (lr_lsn v, m) ∧ sl_vdsn p m = Some (lr_dsn v, m) ∧
  slv_size p m = Some (lr_size v, m) ∧ slv_flags p m = Some (lr_flags v, m).
Proof.
  intros Hat [H1 H2 H3 H4 H5]. unfold slv_enc in Hat. rewrite !mem_at_app, !le_enc_length in Hat. destruct Hat as (A1 & A2 & A3 & A4 & A5).
  rewrite <- !Nat.add_assoc in *. cbn [Nat.add] in *.
  unfold slv_crc, slv_lsn, sl_vdsn, slv_size, slv_flags, cread.
  by rewrite (load_le_at _ _ _ _ A1 H1), (load_le_at _ _ _ _ A2 H2), (load_le_at _ _ _ _ A3 H3), (load_le_at _ _ _ _ A4 H4), (load_le_at _ _ _ _ A5 H5).
Qed.
Lemma flags_byte s : stmt_ok s → is_byte (sv_flags s.2) ∧ Z.land (sv_flags s.2) SVBEGIN = 0.
Proof. intros (_ & _ & _ & [->|[->| ->]]); done. Qed.
Lemma slrecord_ok s : stmt_ok s → slv_ok (sl_record crcf s.1 s.2).
Proof. intros Hs. pose proof (flags_byte s Hs) as [? _]. destruct Hs as (? & ? & ? & _). split; try done. apply Hcrc. Qed.
Lemma slheader_ok n lsn : is_u64 lsn → is_u32 n → slv_ok (sl_header crcf 0 lsn n).
Proof. intros ? ?. split; try done. apply Hcrc. Qed.
(** The first word is not part of the checksum. *)
Lemma header_old old lsn n : sl_header crcf old lsn n = sl_header crcf 0 lsn n.
Proof. done. Qed.

Lemma rec_bytes_length s : length (rec_bytes crcf s) = (sizeof_slv + Z.to_nat (sv_size s.2))%nat.
Proof. unfold rec_bytes. rewrite length_app, slv_enc_length. unfold sv_size. lia. Qed.

(** The checksums of a record and of a header are found right. *)
Lemma record_crc m p s : mem_at m p (rec_bytes crcf s) → stmt_ok s → bad_crc crcf p (sv_size s.2) m = Some (false, m).
Proof.
  intros Hat Hs. unfold rec_bytes in Hat. rewrite mem_at_app, slv_enc_length in Hat. destruct Hat as [Hh Hd].
  destruct (slv_read _ _ _ Hh (slrecord_ok s Hs)) as (E1 & _ & _ & _ & E5). unfold bad_crc, cbind at 1. rewrite E5.
  cbn [lr_flags sl_record]. rewrite (proj2 (flags_byte s Hs)). cbn [Z.eqb]. unfold cbind at 1, cbind at 1, cread at 1.
  assert (Z.to_nat (sv_size s.2) = length (sv_pointer s.2)) as -> by (unfold sv_size; lia). rewrite (mem_at_read _ _ _ Hd). unfold cret at 1.
  unfold cbind at 1, cread at 1. rewrite <- (slv_enc_length (sl_record crcf s.1 s.2)), (mem_at_read _ _ _ Hh).
  unfold cbind at 1. rewrite E1. unfold cret. do 2 f_equal. apply negb_false_iff, Z.eqb_eq.
  done.
Qed.
Lemma header_crc m p n lsn : mem_at m p (slv_enc (sl_header crcf 0 lsn n)) → is_u64 lsn → is_u32 n → bad_crc crcf p n m = Some (false, m).
Proof.
  intros Hh Hl Hn. destruct (slv_read _ _ _ Hh (slheader_ok n lsn Hl Hn)) as (E1 & _ & _ & _ & E5). unfold bad_crc, cbind at 1. rewrite E5.
  cbn [lr_flags sl_header]. change (Z.land SVBEGIN SVBEGIN =? 0) with false. cbv iota. unfold cbind at 1, cret at 1.
  unfold cbind at 1, cread at 1. rewrite <- (slv_enc_length (sl_header crcf 0 lsn n)), (mem_at_read _ _ _ Hh).
  unfold cbind at 1. rewrite E1. unfold cret. do 2 f_equal. apply negb_false_iff, Z.eqb_eq. done.
Qed.
(** ** Steps of the iterator *)

Context (check : bool) (declared : Z → bool) (c : option cut) (Hcut : from_option cut_ok True c) (m : bytes).

(** The rest of the file from [q] on. *)
Definition rest_at (q : nat) (rest : list (list stmt)) : Prop := ∃ l, m = l ++ concat (tx_bytes crcf <$> rest) ++ cut_bytes crcf c ∧ length l = q.
Lemma rest_at_cons q tx rest : rest_at q (tx :: rest) → mem_at m q (tx_bytes crcf tx) ∧ rest_at (q + length (tx_bytes crcf tx)) rest.
Proof.
  unfold rest_at. rewrite fmap_cons. cbn [concat]. intros (l & E & <-). split.
  - exists l, (concat (tx_bytes crcf <$> rest) ++ cut_bytes crcf c). by rewrite E, <- app_assoc.
  - exists (l ++ tx_bytes crcf tx). split; [by rewrite E, <- !app_assoc|by rewrite length_app].
Qed.
Lemma mem_at_bound p bs : mem_at m p bs → (p + length bs <= length m)%nat.
Proof. intros (l & r & -> & <-). rewrite !length_app. lia. Qed.

(** To a record whose checksum is right. *)
Lemma slnext_run i p v val : mem_at m p (slv_enc v) → slv_ok v → (p + Z.to_nat (lr_size v) <= length m)%nat → bad_crc crcf p (lr_size v) m = Some (false, m) →
  sl_iternext_of crcf check i (Some p) val m = Some (if Z.gtb (u32 (si_pos i + 1)) (si_count i) then (0, mk_sliter (si_error i) None (Some p) 0 0)
    else (1, mk_sliter (si_error i) (Some p) (si_next i) (si_count i) (u32 (si_pos i + 1))), m).
Proof.
  intros Hh Hv Hb Hcr. pose proof (mem_at_bound _ _ Hh) as Hp. rewrite slv_enc_length in Hp. unfold sizeof_slv in Hp.
  destruct (slv_read _ _ _ Hh Hv) as (_ & _ & _ & E4 & _).
  unfold sl_iternext_of, cbind at 1, cget. rewrite (proj2 (Nat.eqb_neq p (length m))) by lia. unfold cbind at 1. rewrite E4.
  rewrite (proj2 (Nat.ltb_ge _ _)), (proj2 (Nat.ltb_ge (length m) _)) by lia. cbn [orb].
  unfold cbind. assert ((if val && check then bad_crc crcf p (lr_size v) else cret false) m = Some (false, m)) as -> by (by destruct (val && check)).
  by destruct (Z.gtb _ _).
Qed.
(** To a statement of the transaction. *)
Lemma next_in i p s val : mem_at m p (rec_bytes crcf s) → stmt_ok s → 0 <= si_pos i < si_count i → si_count i < UINT32_MAX →
  sl_iternext_of crcf check i (Some p) val m = Some ((1, mk_sliter (si_error i) (Some p) (si_next i) (si_count i) (si_pos i + 1)), m).
Proof.
  intros Hat Hs Hp Hc. pose proof (mem_at_bound _ _ Hat) as Hb. rewrite rec_bytes_length in Hb.
  pose proof (record_crc m p s Hat Hs) as Hcr. unfold rec_bytes in Hat. rewrite mem_at_app in Hat. destruct Hat as [Hh _].
  rewrite (slnext_run i p _ val Hh (slrecord_ok s Hs)); cbn [lr_size sl_record]; [|lia|done].
  rewrite wrap_id by (unfold in_u, UINT32_MAX in *; lia). by rewrite Z.gtb_ltb, (proj2 (Z.ltb_ge _ _)) by lia.
Qed.
Lemma tx_bytes_single s : tx_bytes crcf [s] = rec_bytes crcf s.
Proof. done. Qed.
(** The statements of a transaction start at its first byte, or behind its header. *)
Definition first_of (p : nat) (tx : list stmt) : nat := match tx with [_] => p | _ => (p + sizeof_slv)%nat end.
Lemma tx_bytes_first p tx : mem_at m p (tx_bytes crcf tx) → mem_at m (first_of p tx) (concat (rec_bytes crcf <$> tx)) ∧
  (first_of p tx + length (concat (rec_bytes crcf <$> tx)) = p + length (tx_bytes crcf tx))%nat.
Proof.
  destruct tx as [|s [|s2 tx]]; cbn [first_of tx_bytes fmap list_fmap].
  2: { cbn [concat]. rewrite app_nil_r. done. }
  all: rewrite mem_at_app, length_app, slv_enc_length; intros [_ ?]; split; [done|lia].
Qed.
Lemma recs_length l : (length l <= length (concat (rec_bytes crcf <$> l)))%nat.
Proof. induction l as [|s l IH]; [done|]. rewrite fmap_cons. cbn [concat length]. rewrite length_app, rec_bytes_length. unfold sizeof_slv. lia. Qed.
Lemma tx_lsn_ok tx : tx_ok tx → is_u64 (tx_lsn tx).
Proof. intros (Hne & Hs & _). destruct tx as [|s tx]; [done|]. apply Forall_cons in Hs as [(_ & ? & _) _]. done. Qed.
(** To the header of the next transaction. *)
Lemma next_header i p lsn n : mem_at m p (slv_enc (sl_header crcf 0 lsn n)) → is_u64 lsn → is_u32 n → si_pos i = si_count i → 0 <= si_count i < UINT32_MAX →
  sl_iternext_of crcf check i (Some p) true m =
    Some (if (length m <? p + Z.to_nat n)%nat then (-1, sl_iterseterror i) else (0, mk_sliter (si_error i) None (Some p) 0 0), m).
Proof.
  intros Hh Hl Hn Hp Hc. destruct (Nat.ltb_spec (length m) (p + Z.to_nat n)) as [Hlt|Hge].
  - pose proof (mem_at_bound _ _ Hh) as Hb. rewrite slv_enc_length in Hb. unfold sizeof_slv in Hb. destruct (slv_read _ _ _ Hh (slheader_ok _ _ Hl Hn)) as (_ & _ & _ & E4 & _).
    unfold sl_iternext_of, cbind at 1, cget. rewrite (proj2 (Nat.eqb_neq p (length m))) by lia. unfold cbind at 1. rewrite E4. cbn [lr_size sl_header].
    rewrite (proj2 (Nat.ltb_lt (length m) (p + _))) by lia. by rewrite orb_true_r.
  - rewrite (slnext_run i p _ true Hh (slheader_ok _ _ Hl Hn)); cbn [lr_size sl_header]; [|lia|by eapply header_crc].
    rewrite wrap_id by (unfold in_u, UINT32_MAX in *; lia). by rewrite Z.gtb_ltb, (proj2 (Z.ltb_lt _ _)) by lia.
Qed.
(** To the first record of the next transaction. *)
Lemma next_out i p tx : mem_at m p (tx_bytes crcf tx) → tx_ok tx → si_pos i = si_count i → 0 <= si_count i < UINT32_MAX →
  sl_iternext_of crcf check i (Some p) true m = Some ((0, mk_sliter (si_error i) None (Some p) 0 0), m).
Proof.
  intros Hat Htx Hp Hc. pose proof (mem_at_bound _ _ Hat) as Hb.
  assert (Z.gtb (u32 (si_pos i + 1)) (si_count i) = true) as Hgt.
  { rewrite wrap_id by (unfold in_u, UINT32_MAX in *; lia). rewrite Z.gtb_ltb, Z.ltb_lt. lia. }
  pose proof (tx_lsn_ok tx Htx) as Hl. destruct Htx as (Hne & Hs & _ & Hn). destruct tx as [|s [|s2 tx]]; [done| |].
  - rewrite tx_bytes_single in *. apply Forall_cons in Hs as [Hs _]. rewrite rec_bytes_length in Hb. pose proof (record_crc m p s Hat Hs) as Hcr.
    unfold rec_bytes in Hat. rewrite mem_at_app in Hat. destruct Hat as [Hh _].
    rewrite (slnext_run i p _ true Hh (slrecord_ok s Hs)); cbn [lr_size sl_record]; [|lia|done]. by rewrite Hgt.
  - cbn [tx_bytes] in *. rewrite length_app, slv_enc_length in Hb. rewrite mem_at_app in Hat. destruct Hat as [Hh _].
    pose proof (recs_length (s :: s2 :: tx)). assert (is_u32 (Z.of_nat (length (s :: s2 :: tx)))) as Hu by (unfold in_u, UINT32_MAX in *; lia).
    rewrite (next_header i p _ _ Hh) by done. by rewrite (proj2 (Nat.ltb_ge _ _)) by lia.
Qed.
(** Starting the transaction that was found. *)
Lemma continue_run p tx : mem_at m p (tx_bytes crcf tx) → tx_ok tx →
  sl_itercontinue_of crcf check (mk_sliter false None (Some p) 0 0) m =
    Some ((1, mk_sliter false (Some (first_of p tx)) (Some p) (Z.of_nat (length tx)) 1), m).
Proof.
  intros Hat Htx. pose proof (tx_bytes_first p tx Hat) as [Hrec _]. pose proof (tx_lsn_ok tx Htx) as Hl. destruct Htx as (Hne & Hs & _ & Hn).
  destruct tx as [|s tx]; [done|]. apply Forall_cons in Hs as [Hs _]. rewrite fmap_cons in Hrec. cbn [concat] in Hrec. rewrite mem_at_app in Hrec. destruct Hrec as [Hr _].
  unfold sl_itercontinue_of. cbn [si_error si_v si_next]. destruct tx as [|s2 tx]; cbn [first_of] in *.
  - rewrite tx_bytes_single in Hat. unfold rec_bytes in Hat. rewrite mem_at_app in Hat. destruct Hat as [Hh _].
    destruct (slv_read _ _ _ Hh (slrecord_ok s Hs)) as (_ & _ & _ & _ & E5). unfold cbind at 1. rewrite E5. cbn [lr_flags sl_record].
    rewrite (proj2 (flags_byte s Hs)). cbn [c_true Z.eqb negb]. rewrite (next_in _ _ s) by (done || (cbn; unfold UINT32_MAX; lia)). done.
  - cbn [tx_bytes] in Hat. rewrite mem_at_app in Hat. destruct Hat as [Hh _]. assert (is_u32 (Z.of_nat (length (s :: s2 :: tx)))) as Hu by (unfold in_u, UINT32_MAX in *; lia).
    destruct (slv_read _ _ _ Hh (slheader_ok _ _ Hl Hu)) as (_ & _ & _ & E4 & E5). unfold cbind at 1. rewrite E5. cbn [lr_flags sl_header].
    change (c_true (Z.land SVBEGIN SVBEGIN)) with true. cbv iota. unfold cbind at 1. rewrite E4. cbn [lr_size sl_header].
    rewrite (next_in _ _ s); [done|done|done| |done]. cbn [si_pos si_count length]. lia.
Qed.
(** Behind the last statement of a transaction of [n] statements. *)
Definition ended (n : Z) (q : nat) (rest : list (list stmt)) : sliter :=
  match rest, c with
  | [], None => mk_sliter false None None n n
  | [], Some c => if (length m <? q + Z.to_nat (ct_n c))%nat then mk_sliter true None None n n else mk_sliter false None (Some q) 0 0
  | _, _ => mk_sliter false None (Some q) 0 0
  end.
Lemma cut_at q : rest_at q [] → match c with
  | None => q = length m
  | Some c => mem_at m q (slv_enc (sl_header crcf 0 (ct_lsn c) (ct_n c))) ∧ mem_at m (q + sizeof_slv) (concat (rec_bytes crcf <$> ct_stmts c)) ∧
      (q + sizeof_slv + length (concat (rec_bytes crcf <$> ct_stmts c)) = length m)%nat
  end.
Proof.
  intros (l & E & <-). cbn [fmap list_fmap concat app] in E. destruct c as [ct|]; cbn [cut_bytes] in E.
  - assert (mem_at m (length l) (cut_bytes crcf (Some ct))) as Hat by (exists l, []; by rewrite app_nil_r). cbn [cut_bytes] in Hat.
    rewrite mem_at_app, slv_enc_length in Hat. destruct Hat as [? ?]. split_and!; [done|done|]. rewrite E, !length_app, slv_enc_length. lia.
  - by rewrite E, app_nil_r.
Qed.
Lemma next_ended next v n q rest : rest_at q rest → Forall tx_ok rest → 0 <= n < UINT32_MAX →
  ∃ rc, sl_iternext_of crcf check (mk_sliter false v next n n) (Some q) true m = Some ((rc, ended n q rest), m).
Proof.
  intros Hr Hok Hn. destruct rest as [|tx rest].
  - apply cut_at in Hr. unfold ended. destruct c as [ct|].
    + destruct Hr as (Hh & _). destruct Hcut as (Hl & Hc & _). rewrite (next_header _ _ _ _ Hh); try done; [|unfold in_u, UINT32_MAX in *; lia].
      destruct (Nat.ltb _ _); by eexists.
    + subst q. exists 0. unfold sl_iternext_of, cbind at 1, cget. rewrite Nat.eqb_refl. cbn [si_count si_pos]. by rewrite Z.eqb_refl.
  - exists 0. apply rest_at_cons in Hr as [Hat _]. apply Forall_cons in Hok as [Htx _]. by rewrite (next_out _ _ tx).
Qed.
Lemma ended_v n q rest : si_v (ended n q rest) = None.
Proof. unfold ended. by repeat case_match. Qed.

(** Reading the statement the iterator is at. *)
Lemma vif_run q s : mem_at m q (rec_bytes crcf s) → stmt_ok s → sl_vif q m = Some (s.2, m) ∧ sl_vdsn q m = Some (s.1, m) ∧ slv_size q m = Some (sv_size s.2, m) ∧ sl_viflsn q m = Some (sv_lsn s.2, m).
Proof.
  intros Hat Hs. unfold rec_bytes in Hat. rewrite mem_at_app, slv_enc_length in Hat. destruct Hat as [Hh Hd].
  destruct (slv_read _ _ _ Hh (slrecord_ok s Hs)) as (_ & E2 & E3 & E4 & E5). cbn [lr_lsn lr_dsn lr_size lr_flags sl_record] in *. split_and!; [|done..].
  unfold sl_vif, cbind at 1, sl_viflsn. rewrite E2. unfold cbind at 1, sl_vifflags. rewrite E5. unfold cbind at 1, sl_vifsize. rewrite E4.
  unfold cbind, cread, sl_vifpointer. assert (Z.to_nat (sv_size s.2) = length (sv_pointer s.2)) as -> by (unfold sv_size; lia).
  rewrite (mem_at_read _ _ _ Hd). unfold cret. by destruct s as [d []].
Qed.
(** The statements from the current one on, where the iterator ends in [iend] behind them. *)
Lemma recover_tx_run lsn n pend q' next iend l : ∀ fuel q, (∀ v, ∃ rc, sl_iternext_of crcf check (mk_sliter false v next n pend) (Some q') true m = Some ((rc, iend), m)) →
  si_v iend = None → l ≠ [] → Forall stmt_ok l → Forall (λ s, sv_lsn s.2 = lsn) l →
  Forall (λ s, declared s.1 = true) l → mem_at m q (concat (rec_bytes crcf <$> l)) → (q + length (concat (rec_bytes crcf <$> l)) = q')%nat →
  Z.of_nat (length l) <= pend <= n → n < UINT32_MAX → (length l < fuel)%nat →
  recover_tx crcf check declared fuel lsn (mk_sliter false (Some q) next n (pend - Z.of_nat (length l) + 1)) m = Some ((true, l, iend), m).
Proof.
  induction l as [|s l IH]; [done|]. intros fuel q Hr Hv _ Hs Hlsn Hd Hat Hq Hn Hn2 Hf. rewrite fmap_cons in *. cbn [concat] in *.
  rewrite mem_at_app in Hat. destruct Hat as [Hat Hats]. apply Forall_cons in Hs as [Hs Hss]. apply Forall_cons in Hlsn as [Hl Hls]. apply Forall_cons in Hd as [Hd Hds].
  rewrite length_app in Hq. destruct (vif_run q s Hat Hs) as (E1 & E2 & E3 & _). destruct fuel as [|fuel]; [lia|]. cbn [recover_tx sl_iter_of si_v].
  unfold cbind at 1. rewrite E1. unfold cbind at 1, cassert at 1. rewrite Hl, Z.eqb_refl. unfold cbind at 1. rewrite E2, Hd. cbn [negb].
  unfold cbind at 1, cassert at 1. assert (Z.eqb (sv_flags s.2) SVDELETE || Z.eqb (sv_flags s.2) SVUPDATE || Z.eqb (sv_flags s.2) 0 = true) as ->.
  { destruct Hs as (_ & _ & _ & [->|[->| ->]]); done. }
  unfold cbind at 1, sl_iter_next. cbn [si_v]. unfold cbind at 1. rewrite E3. rewrite <- Nat.add_assoc, <- rec_bytes_length.
  destruct l as [|s2 l].
  - cbn [length concat fmap list_fmap] in *. replace (pend - Z.of_nat 1 + 1) with pend by lia. rewrite Nat.add_0_r in Hq. rewrite Hq.
    unfold cbind at 1. destruct (Hr (Some q)) as [rc ->]. unfold cret at 1. cbn [snd]. unfold cbind.
    destruct fuel as [|fuel]; [lia|]. cbn [recover_tx]. unfold sl_iter_of. rewrite Hv. unfold cret. by destruct s.
  - unfold cbind at 1. rewrite (next_in _ _ s2); cbn [si_pos si_count si_error si_next];
      [|by rewrite fmap_cons in Hats; cbn [concat] in Hats; rewrite mem_at_app in Hats; destruct Hats|by apply Forall_cons in Hss as []|cbn [length] in *; lia|lia].
    unfold cret at 1. cbn [snd]. unfold cbind. replace (pend - Z.of_nat (length (s :: s2 :: l)) + 1 + 1) with (pend - Z.of_nat (length (s2 :: l)) + 1) by (cbn [length]; lia).
    rewrite IH; [by destruct s|done|done|done|done|done|done|done|lia|cbn [length] in *; lia|lia|cbn [length] in *; lia].
Qed.

(** ** Whole transactions *)

Definition all_declared (tx : list stmt) : Prop := Forall (λ s, declared s.1 = true) tx.
(** The transaction the iterator has started, and those behind it. *)
Definition started (p : nat) (tx : list stmt) : sliter := mk_sliter false (Some (first_of p tx)) (Some p) (Z.of_nat (length tx)) 1.
Lemma recover_first fuel p tx rest : rest_at p (tx :: rest) → Forall tx_ok (tx :: rest) → all_declared tx → (length tx < fuel)%nat →
  sl_viflsn (first_of p tx) m = Some (tx_lsn tx, m) ∧
  recover_tx crcf check declared fuel (tx_lsn tx) (started p tx) m = Some ((true, tx, ended (Z.of_nat (length tx)) (p + length (tx_bytes crcf tx)) rest), m).
Proof.
  intros Hr Hok Hd Hf. apply rest_at_cons in Hr as [Hat Hr]. apply Forall_cons in Hok as [(Hne & Hs & Hl & Hn) Hok].
  destruct (tx_bytes_first p tx Hat) as [Hrec Hend]. split.
  - destruct tx as [|s tx]; [done|]. rewrite fmap_cons in Hrec. cbn [concat] in Hrec. rewrite mem_at_app in Hrec. apply Forall_cons in Hs as [Hs _].
    destruct Hrec as [Hrec _]. by destruct (vif_run _ s Hrec Hs) as (_ & _ & _ & E).
  - unfold started. replace 1 with (Z.of_nat (length tx) - Z.of_nat (length tx) + 1) at 1 by lia. apply (recover_tx_run _ _ _ (p + length (tx_bytes crcf tx)));
      [|apply ended_v|done|done|done|done|done|lia|lia|done|done]. intros v. apply next_ended; [done|done|lia].
Qed.
(** What is left of the cut transaction is not replayed. *)
Definition cut_declared : Prop := from_option (λ ct, Forall (λ s, declared s.1 = true) (ct_stmts ct)) True c.
Lemma recover_cut fuel q ct : c = Some ct → rest_at q [] → cut_declared → (length (ct_stmts ct) < fuel)%nat →
  ∃ rc i, sl_itercontinue_of crcf check (mk_sliter false None (Some q) 0 0) m = Some ((rc, i), m) ∧
    ((rc = -1 ∧ ct_stmts ct = [] ∧ si_v i = None) ∨ (rc = 1 ∧ ct_stmts ct ≠ [] ∧ recover_txs crcf check declared fuel i m = Some ((-1, []), m))).
Proof.
  intros Hc Hr%cut_at Hd Hf. unfold cut_declared in Hd. pose proof Hcut as Hk. rewrite Hc in Hr, Hd, Hk. destruct Hr as (Hh & Hrec & Hend). destruct Hk as (Hl & Hn & Hs & Hlsn). cbn [from_option] in Hd.
  assert (is_u32 (ct_n ct)) as Hu by (unfold in_u, UINT32_MAX in *; lia). destruct (slv_read _ _ _ Hh (slheader_ok _ _ Hl Hu)) as (_ & _ & _ & E4 & E5).
  unfold sl_itercontinue_of. cbn [si_error si_v si_next]. unfold cbind at 1. rewrite E5. cbn [lr_flags sl_header].
  change (c_true (Z.land SVBEGIN SVBEGIN)) with true. cbv iota. unfold cbind at 1. rewrite E4. cbn [lr_size sl_header].
  assert (∀ v pos, pos ≠ ct_n ct → sl_iternext_of crcf check (mk_sliter false v (Some q) (ct_n ct) pos) (Some (length m)) true m = Some ((-1, mk_sliter true None None (ct_n ct) pos), m)) as Heof.
  { intros v pos Hpos. unfold sl_iternext_of, cbind at 1, cget. rewrite Nat.eqb_refl. cbn [si_count si_pos]. by rewrite (proj2 (Z.eqb_neq _ _)) by lia. }
  destruct (ct_stmts ct) as [|s l] eqn:El.
  - cbn [fmap list_fmap concat length] in Hend. rewrite Nat.add_0_r in Hend. rewrite Hend, Heof by lia. eexists _, _. split; [done|]. by left.
  - rewrite fmap_cons in Hrec. pose proof Hrec as Hrec1. cbn [concat] in Hrec1. rewrite mem_at_app in Hrec1. destruct Hrec1 as [Hr1 _]. pose proof Hs as [Hs1 _]%Forall_cons.
    rewrite (next_in _ _ s _ Hr1 Hs1) by (cbn [si_pos si_count length] in *; lia). eexists _, _. split; [done|]. right. split_and!; [done|done|]. cbn [si_error si_next si_count si_pos].
    destruct fuel as [|fuel]; [lia|]. cbn [recover_txs sl_iter_of si_v]. unfold cbind at 1. destruct (vif_run _ s Hr1 Hs1) as (_ & _ & _ & ->).
    pose proof Hlsn as [-> _]%Forall_cons. unfold cbind at 1.
    replace (0 + 1) with (Z.of_nat (length (s :: l)) - Z.of_nat (length (s :: l)) + 1) by lia.
    rewrite (recover_tx_run _ _ _ (length m) _ (mk_sliter true None None (ct_n ct) (Z.of_nat (length (s :: l))))); try done; try lia.
    intros v. exists (-1). apply Heof. lia.
Qed.
(** Every whole transaction is replayed, in order; if the last one is cut, the result is an
    error, and the transaction before it may be given up too. *)
Lemma recover_txs_run rest : cut_declared → ∀ fuel p tx, rest_at p (tx :: rest) → Forall tx_ok (tx :: rest) → Forall all_declared (tx :: rest) →
  (length (concat (tx :: rest)) + length (from_option ct_stmts [] c) < fuel)%nat →
  ∃ ok more, recover_txs crcf check declared fuel (started p tx) m = Some ((if c then -1 else 0, ok), m) ∧ ok ++ more = tx :: rest ∧
    (length more <= if c then 1 else 0)%nat.
Proof.
  intros Hcd. induction rest as [|tx2 rest IH]; intros fuel p tx Hr Hok Hd Hf; (destruct fuel as [|fuel]; [lia|]); cbn [concat] in Hf; rewrite length_app in Hf.
  all: pose proof Hd as [Hd1 Hd2]%Forall_cons; destruct (recover_first (S fuel) p tx _ Hr Hok Hd1) as [E1 E2]; [lia|]; apply rest_at_cons in Hr as [Hat Hr].
  all: pose proof Hok as [Htx Hok2]%Forall_cons; cbn [recover_txs sl_iter_of si_v started]; unfold cbind at 1; rewrite E1; unfold cbind at 1; rewrite E2.
  all: assert (length tx ≠ 0)%nat by (destruct Htx as [? _]; by destruct tx).
  - unfold ended. assert (c = None ∨ ∃ ct, c = Some ct) as [Ec|[ct Ec]] by (destruct c; eauto); rewrite ?Ec in Hf |- *; [by exists [tx], []|].
    destruct (Nat.ltb _ _); [by exists [], [tx]|]. cbn [negb orb sl_iter_error si_error]. destruct (recover_cut fuel _ ct Ec Hr Hcd) as (rc & i & E & [(-> & _)|(-> & _ & E3)]); [cbn [from_option] in Hf; lia| |]; unfold cbind at 1, sl_iter_continue; rewrite E; cbn [Z.eqb].
    + exists [tx], []. split_and!; [done|done|cbn; lia].
    + unfold cbind. rewrite E3. exists [tx], []. split_and!; [done|done|cbn; lia].
  - cbn [ended negb orb sl_iter_error si_error]. pose proof (rest_at_cons _ _ _ Hr) as [Hat2 _]. pose proof Hok2 as [Htx2 _]%Forall_cons.
    unfold cbind at 1, sl_iter_continue. rewrite (continue_run _ tx2 Hat2 Htx2). cbn [Z.eqb]. fold (started (p + length (tx_bytes crcf tx)) tx2).
    destruct (IH fuel _ tx2 Hr Hok2 Hd2) as (ok & more & E3 & E4 & Hm); [cbn [concat]; lia|]. unfold cbind. rewrite E3. exists (tx :: ok), more. split_and!; [done| |done].
    by rewrite <- E4.
Qed.
End lemmas.

(** * Recovery of a log file *)

Lemma log_version l : version_at 0 (version_enc sr_version ++ l) = Some sr_version.
Proof. apply version_read; [by exists [], l|done]. Qed.

Section recovery.
Context (crcf : Z → bytes → Z) (Hcrc : ∀ c p, is_u32 (crcf c p)) (check : bool) (declared : Z → bool).

(** A log whose last transaction may be cut. *)
Definition cut_log (txs : list (list stmt)) (c : option cut) : bytes := log_bytes crcf txs ++ cut_bytes crcf c.
Lemma cut_log_rest txs c : rest_at crcf c (cut_log txs c) sizeof_srversion txs.
Proof. exists (version_enc sr_version). unfold cut_log, log_bytes. by rewrite <- app_assoc. Qed.
Lemma cut_log_open c tx txs : from_option cut_ok True c → Forall tx_ok (tx :: txs) →
  sl_iter_open crcf check true (cut_log (tx :: txs) c) = Some ((0, started sizeof_srversion tx), cut_log (tx :: txs) c).
Proof.
  intros Hc Hok. pose proof (cut_log_rest (tx :: txs) c) as Hr. set (m := cut_log (tx :: txs) c) in *.
  pose proof (rest_at_cons _ _ _ _ _ _ Hr) as [Hat _]. apply Forall_cons in Hok as [Htx _].
  assert (sizeof_srversion < length m)%nat as Hlen.
  { pose proof (mem_at_bound _ _ _ Hat). pose proof (tx_bytes_first crcf m _ tx Hat) as [_ E]. pose proof (recs_length crcf tx). destruct Htx as [Hne _].
    assert (length tx ≠ 0)%nat by (by destruct tx). assert (sizeof_srversion <= first_of sizeof_srversion tx)%nat by (destruct tx as [|? []]; cbn [first_of]; lia). lia. }
  unfold sl_iter_open, cbind at 1, cget. rewrite (proj2 (Nat.ltb_ge _ _)) by lia. rewrite (proj2 (Nat.eqb_neq _ _)) by lia. cbn [negb].
  unfold cbind at 1, sl_iterprepare, cbind at 1, cget. unfold cbind at 1, cread. assert (version_at 0 m = Some sr_version) as ->.
  { unfold m, cut_log, log_bytes. rewrite <- app_assoc. apply log_version. }
  change (sr_versioncheck sr_version) with true. cbn [negb]. rewrite (proj2 (Nat.ltb_ge _ _)) by lia. unfold cbind at 1.
  rewrite (next_out crcf Hcrc check m _ _ tx Hat Htx) by done. cbn [Z.eqb si_next si_error].
  rewrite (continue_run crcf Hcrc check m _ tx Hat Htx). done.
Qed.
Lemma recoverlog_ok fuel txs c : txs ≠ [] → from_option cut_ok True c → Forall tx_ok txs → Forall (all_declared declared) txs → cut_declared declared c →
  (length (concat txs) + length (from_option ct_stmts [] c) < fuel)%nat →
  ∃ ok more, se_recoverlog crcf check declared fuel true (cut_log txs c) = Some ((if c then -1 else 0, ok), cut_log txs c) ∧ ok ++ more = txs ∧
    (length more <= if c then 1 else 0)%nat.
Proof.
  intros Hne Hc Hok Hd Hcd Hf. destruct txs as [|tx txs]; [done|]. unfold se_recoverlog, cbind at 1. rewrite (cut_log_open c tx txs Hc Hok). cbn [Z.eqb].
  by apply (recover_txs_run crcf Hcrc check declared c Hc _ txs Hcd); [apply cut_log_rest|..].
Qed.
(** A whole log. *)
Lemma recoverlog_whole fuel txs : Forall tx_ok txs → Forall (all_declared declared) txs → (length (concat txs) < fuel)%nat →
  se_recoverlog crcf check declared fuel true (log_bytes crcf txs) = Some ((0, txs), log_bytes crcf txs).
Proof.
  intros Hok Hd Hf. destruct (decide (txs = [])) as [->|Hne].
  - destruct fuel as [|fuel]; [cbn in Hf; lia|]. done.
  - destruct (recoverlog_ok fuel txs None) as (ok & more & E & E2 & Hm); try done; [cbn; lia|]. destruct more; [|cbn in Hm; lia]. rewrite app_nil_r in E2. subst ok.
    unfold cut_log in E. cbn [cut_bytes] in E. by rewrite app_nil_r in E.
Qed.
End recovery.

(** * Properties *)

Definition demo_stmt (dsn lsn flags : Z) (data : bytes) : stmt := (dsn, mk_sv lsn flags data).
Definition demo_txs : list (list stmt) := [[demo_stmt 1 7 0 [1; 2; 3]]; [demo_stmt 1 8 0 [4]; demo_stmt 2 8 SVDELETE []]].
Definition demo_cut : cut := mk_cut 9 3 [demo_stmt 1 9 SVUPDATE [5; 6]].
Definition demo_sum (c : Z) (p : bytes) : Z := u32 (c + foldr Z.add 0 p + Z.of_nat (length p)).
Lemma demo_sum_u32 c p : is_u32 (demo_sum c p).
Proof. by apply wrap_in_u. Qed.
Lemma demo_stmt_ok dsn lsn flags data : is_u32 dsn → is_u64 lsn → is_u32 (Z.of_nat (length data)) → flags = 0 ∨ flags = SVDELETE ∨ flags = SVUPDATE →
  stmt_ok (demo_stmt dsn lsn flags data).
Proof. done. Qed.
Lemma demo_txs_ok : Forall tx_ok demo_txs ∧ cut_ok demo_cut.
Proof.
  split; [apply Forall_cons; split; [|apply Forall_singleton]|]; split_and!; try done;
    repeat (apply Forall_cons; split); try apply Forall_nil; try done; apply demo_stmt_ok; auto; done.
Qed.

Section misreads.
Context (crcf : Z → bytes → Z) (declared : Z → bool) (fuel : nat).

(** Opening a file up to the check of its first record. *)
Lemma open_first m size : (sizeof_srversion < length m)%nat → version_at 0 m = Some sr_version → slv_size sizeof_srversion m = Some (size, m) →
  (sizeof_srversion + Z.to_nat size <= length m)%nat →
  sl_iter_open crcf true true m = match bad_crc crcf sizeof_srversion size m with
    | None => None
    | Some (true, m') => Some ((0, mk_sliter true None None 0 0), m')
    | Some (false, m') => match sl_itercontinue_of crcf true (mk_sliter false None (Some sizeof_srversion) 0 0) m' with Some (res, m2) => Some ((0, res.2), m2) | None => None end
    end.
Proof.
  intros Hm Hv Hs Hb. unfold sl_iter_open, cbind at 1, cget. rewrite (proj2 (Nat.ltb_ge _ _)) by lia. rewrite (proj2 (Nat.eqb_neq _ _)) by lia. cbn [negb].
  unfold cbind at 1, sl_iterprepare, cbind at 1, cget. unfold cbind at 1, cread. rewrite Hv. change (sr_versioncheck sr_version) with true. cbn [negb].
  rewrite (proj2 (Nat.ltb_ge _ _)) by lia. unfold cbind at 1, sl_iternext_of, cbind at 1, cget. rewrite (proj2 (Nat.eqb_neq _ _)) by lia.
  unfold cbind at 1. rewrite Hs. rewrite (proj2 (Nat.ltb_ge _ _)), (proj2 (Nat.ltb_ge (length m) (_ + _))) by lia. cbn [orb andb]. unfold cbind at 1.
  destruct (bad_crc _ _ _ m) as [[[] m']|]; [done| |done]. unfold cret. cbn [si_pos si_count si_error]. change (u32 (0 + 1) >? 0) with true. cbn [Z.eqb si_next]. done.
Qed.
(** A single record with less than a header's length missing from its end. *)
Lemma cut_record s k : (∀ c p, is_u32 (crcf c p)) → stmt_ok s → (0 < k <= sizeof_slv)%nat → (k <= length (sv_pointer s.2))%nat → let m := log_bytes crcf [[s]] in
  se_recoverlog crcf true declared fuel true (take (length m - k) m) = None.
Proof.
  intros Hcrc Hs Hk Hk2 m. set (v := sl_record crcf s.1 s.2). set (d := take (length (sv_pointer s.2) - k) (sv_pointer s.2)).
  assert (take (length m - k) m = version_enc sr_version ++ slv_enc v ++ d) as ->.
  { unfold m, log_bytes. cbn [fmap list_fmap concat tx_bytes]. rewrite app_nil_r. unfold rec_bytes. fold v. rewrite app_assoc.
    rewrite take_app_ge by (rewrite !length_app, slv_enc_length; lia). rewrite <- app_assoc. do 2 f_equal. unfold d. f_equal. rewrite !length_app. lia. }
  assert (length d = length (sv_pointer s.2) - k)%nat as Hd by (unfold d; rewrite length_take; lia).
  assert (Z.to_nat (sv_size s.2) = length (sv_pointer s.2)) as Hsz by (unfold sv_size; lia).
  set (m2 := version_enc sr_version ++ slv_enc v ++ d). assert (length m2 = 32 + length d)%nat as Hlen by (unfold m2; rewrite !length_app, slv_enc_length; reflexivity).
  assert (mem_at m2 sizeof_srversion (slv_enc v)) as Hat by (by exists (version_enc sr_version), d).
  destruct (slv_read _ _ _ Hat (slrecord_ok crcf Hcrc s Hs)) as (_ & _ & _ & E4 & E5). cbn [lr_size lr_flags sl_record] in *.
  unfold se_recoverlog, cbind at 1. unfold sizeof_srversion, sizeof_slv in *. rewrite (open_first m2 (sv_size s.2)); unfold sizeof_srversion; [|lia| |done|lia].
  - unfold bad_crc, cbind at 1. rewrite E5. unfold v. cbn [lr_flags sl_record]. rewrite (proj2 (flags_byte s Hs)). cbn [Z.eqb]. unfold cbind at 1, cbind at 1, cread, mem_read, sizeof_slv. by rewrite decide_False by lia.
  - apply log_version.
Qed.
End misreads.

(** C36: two ways a damaged log is misread.  When the checksum of the first record is wrong the
    replay answers success without a single transaction, whatever follows, as if the log were
    empty: the iterator reports the error only through a function that is not asked in this
    case.  And when the file ends in the middle of a record, with no more bytes missing than
    the length of a record's header, the test of the size passes and the checksum is computed
    over bytes behind the end of the file. *)
Theorem sl_recoverlog_misreads :
  (∀ crcf declared fuel m size, (sizeof_srversion < length m)%nat → version_at 0 m = Some sr_version → slv_size sizeof_srversion m = Some (size, m) →
     (sizeof_srversion + Z.to_nat size <= length m)%nat → bad_crc crcf sizeof_srversion size m = Some (true, m) → (0 < fuel)%nat →
     se_recoverlog crcf true declared fuel true m = Some ((0, []), m)) ∧
  (let m := <[20%nat := 1]> (log_bytes demo_sum demo_txs) in se_recoverlog demo_sum true (λ _, true) 5 true m = Some ((0, []), m)) ∧
  (∀ crcf declared fuel s k, (∀ c p, is_u32 (crcf c p)) → stmt_ok s → (0 < k <= sizeof_slv)%nat → (k <= length (sv_pointer s.2))%nat →
     let m := log_bytes crcf [[s]] in se_recoverlog crcf true declared fuel true (take (length m - k) m) = None).
Proof.
  split_and!.
  - intros crcf declared fuel m size Hm Hv Hs Hb Hbad Hf. unfold se_recoverlog, cbind at 1. rewrite (open_first crcf m size Hm Hv Hs Hb), Hbad. cbn [Z.eqb].
    by destruct fuel; [lia|].
  - vm_compute. reflexivity.
  - intros. by apply cut_record.
Qed.
