(* ===== verification/Sl.v ===== *)
(** The write-ahead log: the counters of ss_gc.h, and sl.h and sl.c, the pool of log files with
    its rotation and garbage collection and the writing of transactions; with them the parts of
    their clients that belong to the log, [si_gcv] of si_gc.c and the log part of [se_reqwrite]
    of se_execute.c.

    The operations run under the lock of the pool. *)
From stdpp Require Import base list sets gmap.
From S2P Require Import Prelude SsRb Sv SvLog SsBytes SsBuf Sr SvIndex SsFile SdBuild SdIndex SlIter.
Local Open Scope Z_scope.
Local Open Scope c_scope.

(** * Counters of written and released statements *)

Record ssgc := mk_gc { gc_mark : Z; gc_sweep : Z; gc_complete : bool }.
Definition ss_gcinit : ssgc := mk_gc 0 0 false.
(** [int] addition; overflow is undefined. *)
Definition int_add (a b : Z) : option Z := if Z.leb (-2147483648) (a + b) && Z.leb (a + b) INT_MAX then Some (a + b) else None.
Definition ss_gcmark (n : Z) (g : ssgc) : option ssgc := k ← int_add (gc_mark g) n; Some (mk_gc k (gc_sweep g) (gc_complete g)).
Definition ss_gcsweep (n : Z) (g : ssgc) : option ssgc := k ← int_add (gc_sweep g) n; Some (mk_gc (gc_mark g) k (gc_complete g)).
Definition ss_gccomplete (g : ssgc) : ssgc := mk_gc (gc_mark g) (gc_sweep g) true.
Definition ss_gcinprogress (g : ssgc) : bool := negb (gc_complete g).
Definition ss_gcrotateready (wm : Z) (g : ssgc) : bool := Z.geb (gc_mark g) wm.
Definition ss_gcgarbage (g : ssgc) : bool := gc_complete g && Z.eqb (gc_mark g) (gc_sweep g).

(** * State *)

Record slconf := mk_slconf { cf_enable : bool; cf_sync_on_rotate : bool; cf_sync_on_write : bool }.
Record sl := mk_sl { sl_id : Z; sl_gcs : ssgc; sl_file : ssfile }.
(** The list of the logs, oldest first.  [p_dangling]: the vector still has blocks of a write
    that failed, which point into the frame of a function that has returned and to versions
    that may be freed. *)
Record slpool := mk_pool { p_conf : slconf; p_list : list loc; p_gc : bool; p_n : Z; p_iov : ssiov; p_dangling : bool }.
(** The pool, the sequence numbers, the logs and the versions in memory, the field [log] of
    every version that has it set, and the numbers of the files in the directory. *)
Record slst := mk_slst {
  st_pool : slpool; st_seq : srseq; st_logs : gmap loc sl; st_v : gmap loc svv; st_vlog : gmap loc loc; st_dir : gset Z
}.
Abbreviation L := (cmd slst).
Definition set_pool p (s : slst) := mk_slst p (st_seq s) (st_logs s) (st_v s) (st_vlog s) (st_dir s).
Definition set_lseq q (s : slst) := mk_slst (st_pool s) q (st_logs s) (st_v s) (st_vlog s) (st_dir s).
Definition set_logs h (s : slst) := mk_slst (st_pool s) (st_seq s) h (st_v s) (st_vlog s) (st_dir s).
Definition set_vs h (s : slst) := mk_slst (st_pool s) (st_seq s) (st_logs s) h (st_vlog s) (st_dir s).
Definition set_vlog h (s : slst) := mk_slst (st_pool s) (st_seq s) (st_logs s) (st_v s) h (st_dir s).
Definition set_dir d (s : slst) := mk_slst (st_pool s) (st_seq s) (st_logs s) (st_v s) (st_vlog s) d.
Definition lmodify (f : slst → slst) : L () := λ s, Some ((), f s).
Definition rd_pool : L slpool := cread (λ s, Some (st_pool s)).
Definition rd_log (l : loc) : L sl := cread (λ s, st_logs s !! l).
Definition wr_log (l : loc) (f : sl → sl) : L () := λ s,
  match st_logs s !! l with Some x => Some ((), set_logs (<[l := f x]> (st_logs s)) s) | None => None end.
Definition on_gc (l : loc) (f : ssgc → option ssgc) : L () := λ s,
  match st_logs s !! l with
  | Some x => match f (sl_gcs x) with Some g => Some ((), set_logs (<[l := mk_sl (sl_id x) g (sl_file x)]> (st_logs s)) s) | None => None end
  | None => None
  end.
Definition on_file {A} (l : loc) (m : cmd ssfile A) : L A := λ s,
  match st_logs s !! l with
  | Some x => match m (sl_file x) with Some (a, f) => Some (a, set_logs (<[l := mk_sl (sl_id x) (sl_gcs x) f]> (st_logs s)) s) | None => None end
  | None => None
  end.
Definition on_lseq (op : srseqop) : L Z := λ s,
  match sr_seq op (st_seq s) with Some (v, q) => Some (v, set_lseq q s) | None => None end.
Definition set_list l n (p : slpool) := mk_pool (p_conf p) l (p_gc p) n (p_iov p) (p_dangling p).
Definition set_iov v d (p : slpool) := mk_pool (p_conf p) (p_list p) (p_gc p) (p_n p) v d.
Definition on_pool (f : slpool → slpool) : L () := lmodify (λ s, set_pool (f (st_pool s)) s).

Section ops.
Context (crcf : Z → bytes → Z).
(** Turns for the system calls. *)
Context (io : nat).

(** * The pool *)

Definition sl_poolinit (conf : slconf) : slpool := mk_pool conf [] true 0 (ss_iovinit 1021) false.

(** [x]: the memory for the log, [created]: whether the file could be created, [ans]: what the
    system will answer to the calls on it.  When the header cannot be written the file stays in
    the directory. *)
Definition sl_new (x : ptr) (created : bool) (ans : list answer) (id : Z) : L ptr :=
  match x with
  | None => cret None
  | Some l =>
      if negb created then cret None else
      lmodify (λ s, set_dir ({[id]} ∪ st_dir s) s);;;
      let! res := cread (λ _, ss_filewrite io (version_enc sr_version) (mk_file 0 (mk_os [] 0 ans))) in
      if Z.eqb res.1 (-1) then cret None else
      lmodify (λ s, set_logs (<[l := mk_sl id ss_gcinit res.2]> (st_logs s)) s);;;
      cret (Some l)
  end.
Definition sl_poolrotate (x : ptr) (created : bool) (ans : list answer) : L Z :=
  let! p := rd_pool in
  if negb (cf_enable (p_conf p)) then cret 0 else
  let! lfsn := on_lseq SR_LFSNNEXT in
  let! l := sl_new x created ans lfsn in
  match l with
  | None => cret (-1)
  | Some l =>
      let! p := rd_pool in
      let! log := (if c_true (p_n p)
                   then let! log := cread (λ _, last (p_list p)) in on_gc log (λ g, Some (ss_gccomplete g));;; cret (Some log)
                   else cret None) in
      on_pool (λ p, set_list (p_list p ++ [l]) (p_n p + 1) p);;;
      match log with
      | Some log =>
          if cf_sync_on_rotate (p_conf p) then
            let! rc := on_file log ss_filesync in
            if Z.eqb rc (-1) then cret (-1) else cret 0
          else cret 0
      | None => cret 0
      end
  end.
Definition sl_poolrotate_ready (wm : Z) : L bool :=
  let! p := rd_pool in
  if negb (cf_enable (p_conf p)) then cret false else
  cassert (Z.gtb (p_n p) 0);;;
  let! l := cread (λ _, last (p_list p)) in
  let! x := rd_log l in
  cret (ss_gcrotateready wm (sl_gcs x)).
Definition sl_poolgc_enable (enable : bool) : L Z :=
  on_pool (λ p, mk_pool (p_conf p) (p_list p) enable (p_n p) (p_iov p) (p_dangling p));;; cret 0.
Definition sl_poolfiles : L Z := let! p := rd_pool in cret (p_n p).

(** [unlinked], [closed]: whether the system removes and closes the file of that number. *)
Context (unlinked closed : Z → bool).
Definition free_log (l : loc) : L () := λ s,
  match st_logs s !! l with Some _ => Some ((), set_logs (delete l (st_logs s)) s) | None => None end.
Definition sl_close (l : loc) : L Z :=
  let! x := rd_log l in
  free_log l;;;
  cret (if closed (sl_id x) then 0 else -1).
Definition sl_gc (l : loc) : L Z :=
  let! x := rd_log l in
  if negb (unlinked (sl_id x)) then cret (-1) else
  lmodify (λ s, set_dir (st_dir s ∖ {[sl_id x]}) s);;;
  let! rc := sl_close l in
  if Z.eqb rc (-1) then cret (-1) else cret 1.
(** The first log of the list that is garbage. *)
Fixpoint garbage_of (ls : list loc) : L (option loc) :=
  match ls with
  | [] => cret None
  | l :: ls => let! x := rd_log l in if ss_gcgarbage (sl_gcs x) then cret (Some l) else garbage_of ls
  end.
Fixpoint poolgc_loop (fuel : nat) : L Z :=
  match fuel with
  | O => cfail
  | S fuel =>
      let! p := rd_pool in
      if negb (p_gc p) then cret 0 else
      let! l := garbage_of (p_list p) in
      match l with
      | None => cret 0
      | Some l =>
          on_pool (λ p, set_list (filter (λ k, k ≠ l) (p_list p)) (p_n p - 1) p);;;
          let! rc := sl_gc l in
          if Z.eqb rc (-1) then cret (-1) else poolgc_loop fuel
      end
  end.
Definition sl_poolgc : L Z :=
  let! p := rd_pool in
  if negb (cf_enable (p_conf p)) then cret 0 else poolgc_loop (S (length (p_list p))).
Fixpoint close_all (ls : list loc) : L Z :=
  match ls with
  | [] => cret 0
  | l :: ls => let! rc := sl_close l in let! rcret := close_all ls in cret (if Z.eqb rc (-1) then -1 else rcret)
  end.
(** The memory of the vector is freed too. *)
Definition sl_poolshutdown : L Z :=
  let! p := rd_pool in
  if c_true (p_n p) then close_all (p_list p) else cret 0.

(** * Transactions *)

Record sltx := mk_sltx { lt_l : ptr; lt_svp : Z }.
Definition sl_begin : L sltx :=
  let! p := rd_pool in
  if negb (cf_enable (p_conf p)) then cret (mk_sltx None 0) else
  cassert (Z.gtb (p_n p) 0);;;
  let! l := cread (λ _, last (p_list p)) in
  let! x := rd_log l in
  cret (mk_sltx (Some l) (ss_filesvp (sl_file x))).
Definition sl_commit (t : sltx) : L Z := cret 0.
Definition sl_rollback (t : sltx) : L Z :=
  let! p := rd_pool in
  if negb (cf_enable (p_conf p)) then cret 0 else
  let! l := cread (λ _, lt_l t) in
  on_file l (ss_filerlb (lt_svp t)).

Definition sl_follow (lsn : Z) : L Z :=
  lmodify (λ s, let q := st_seq s in
    if Z.gtb lsn (q_lsn q) then set_lseq (mk_seq (q_dsn q) (q_nsn q) (q_bsn q) lsn (q_lfsn q) (q_tsn q) (q_rsn q)) s else s);;; cret 0.
(** [sv_lsnset] of [sv_vif]. *)
Definition sv_viflsnset (v : loc) (lsn : Z) : L () := λ s,
  match st_v s !! v with
  | Some w => Some ((), set_vs (<[v := mk_svv lsn (v_size w) (v_flags w) (v_next w) (v_data w)]> (st_v s)) s)
  | None => None
  end.
Fixpoint set_lsns (vs : list (svlogv loc)) (lsn : Z) : L () :=
  match vs with [] => cret () | v :: vs => sv_viflsnset (lv_v v) lsn;;; set_lsns vs lsn end.
Definition sl_prepare (vlog : svlog loc) (lsn : Z) : L Z :=
  let! lsn := (if Z.eqb lsn 0 then on_lseq SR_LSNNEXT else sl_follow lsn;;; cret lsn) in
  set_lsns (l_buf vlog) lsn;;;
  cret 0.

(** The bytes at the version. *)
Definition version_of (v : loc) : L sv :=
  cread (λ s, w ← st_v s !! v; d ← mem_read 0 (Z.to_nat (v_size w)) (v_data w); Some (mk_sv (v_lsn w) (v_flags w) d)).
Definition iov_add (bs : bytes) : L () := λ s,
  match ss_iovadd bs (p_iov (st_pool s)) with Some (_, v) => Some ((), set_pool (set_iov v (p_dangling (st_pool s)) (st_pool s)) s) | None => None end.
Definition sl_write_prepare (l : loc) (logv : svlogv loc) : L () :=
  let! v := version_of (lv_v logv) in
  iov_add (slv_enc (sl_record crcf (lv_id logv) v));;;
  iov_add (sv_pointer v);;;
  lmodify (λ s, set_vlog (<[lv_v logv := l]> (st_vlog s)) s).
(** [ss_filewritev] of the pool's vector; blocks that dangle cannot be read. *)
Definition pool_writev (l : loc) : L Z :=
  let! p := rd_pool in
  cassert (negb (p_dangling p));;;
  let! rc := on_file l (ss_filewritev io (io_v (p_iov p))) in
  if Z.eqb rc (-1) then on_pool (set_iov (p_iov p) true);;; cret (-1) else cret 0.
Definition iov_reset : L () := on_pool (λ p, set_iov (ss_iovreset (p_iov p)) false p).

Definition sl_write_stmt (l : loc) (vlog : svlog loc) : L Z :=
  let! logv := cread (λ _, l_buf vlog !! 0%nat) in
  sl_write_prepare l logv;;;
  let! rc := pool_writev l in
  if Z.eqb rc (-1) then cret (-1) else
  on_gc l (ss_gcmark 1);;;
  iov_reset;;;
  cret 0.
(** [lvp]: the slots of [lvbuf] in use. *)
Fixpoint multi_body (l : loc) (vs : list (svlogv loc)) (lvp : Z) : L Z :=
  match vs with
  | [] => cret 0
  | logv :: vs =>
      let! p := rd_pool in
      let! lvp := (if ss_iovensure (p_iov p) 2 then cret (Some lvp)
                   else let! rc := pool_writev l in if Z.eqb rc (-1) then cret None else iov_reset;;; cret (Some 0)) in
      match lvp with
      | None => cret (-1)
      | Some lvp =>
          cassert (Z.ltb lvp 510);;;
          sl_write_prepare l logv;;;
          multi_body l vs (lvp + 1)
      end
  end.
(** [old]: the uninitialised first word of the header. *)
Definition sl_write_multi_stmt (old : Z) (l : loc) (vlog : svlog loc) (lsn : Z) : L Z :=
  iov_add (slv_enc (sl_header crcf old lsn (u32 (sv_logcount vlog))));;;
  let! rc := multi_body l (l_buf vlog) 1 in
  if Z.eqb rc (-1) then cret (-1) else
  let! p := rd_pool in
  let! rc := (if ss_iovhas (p_iov p)
              then let! rc := pool_writev l in if Z.eqb rc (-1) then cret (-1) else iov_reset;;; cret 0
              else cret 0) in
  if Z.eqb rc (-1) then cret (-1) else
  on_gc l (ss_gcmark (sv_logcount vlog));;;
  cret 0.
Definition sl_write (old : Z) (t : sltx) (vlog : svlog loc) : L Z :=
  let! p := rd_pool in
  if negb (cf_enable (p_conf p)) then cret 0 else
  let! l := cread (λ _, lt_l t) in
  let! rc := (if Z.eqb (sv_logcount vlog) 1 then sl_write_stmt l vlog
              else let! lv := cread (λ _, l_buf vlog !! 0%nat) in
                   let! v := version_of (lv_v lv) in
                   sl_write_multi_stmt old l vlog (sv_lsn v)) in
  if Z.eqb rc (-1) then cret (-1) else
  if cf_enable (p_conf p) && cf_sync_on_write (p_conf p) then
    let! rc := on_file l ss_filesync in
    if Z.eqb rc (-1) then cret (-1) else cret 0
  else cret 0.

(** * Clients *)

(** The log part of [se_reqwrite]. *)
Definition log_commit (old : Z) (vlog : svlog loc) (lsn : Z) : L Z :=
  sl_prepare vlog lsn;;;
  let! t := sl_begin in
  let! rc := sl_write old t vlog in
  if Z.eqb rc (-1) then sl_rollback t;;; cret (-1) else
  sl_commit t.

(** Frees a chain of versions and takes them off their logs; answers the memory they used. *)
Fixpoint si_gcv (fuel : nat) (v : ptr) (used : Z) : L Z :=
  match v with
  | None => cret used
  | Some x =>
      match fuel with
      | O => cfail
      | S fuel =>
          let! w := cread (λ s, st_v s !! x) in
          let! s := cget in
          match st_vlog s !! x with Some log => on_gc log (ss_gcsweep 1) | None => cret () end;;;
          lmodify (λ s, set_vlog (delete x (st_vlog s)) (set_vs (delete x (st_v s)) s));;;
          si_gcv fuel (v_next w) (u32 (used + u32 (sizeof_svv + v_size w)))
      end
  end.
End ops.
