(* ===== verification/SlProofs.v ===== *)
(** The write-ahead log: writing a transaction, rotation and garbage collection keep every
    version that is only in memory in some log file. *)
From stdpp Require Import base list sets gmap.
From S2P Require Import Prelude SsRb Sv SvLog SsBytes SsBuf Sr SvIndex SdPageKv SsFile SdBuild SdIndex SdCommit SlIter Sl.
Local Open Scope Z_scope.
Local Open Scope c_scope.

(** The versions [vs] point to the log [l]. *)
Definition tag (l : loc) (vs : list loc) (h : gmap loc loc) : gmap loc loc := foldl (λ h v, <[v := l]> h) h vs.
Lemma tag_snoc l vs v h : tag l (vs ++ [v]) h = <[v := l]> (tag l vs h).
Proof. unfold tag. by rewrite foldl_app. Qed.
Lemma tag_lookup l vs h v : tag l vs h !! v = if decide (v ∈ vs) then Some l else h !! v.
Proof.
  induction vs as [|x vs IH] using rev_ind; [by rewrite decide_False by apply not_elem_of_nil|]. rewrite tag_snoc. destruct (decide (v = x)) as [->|Hne].
  - rewrite lookup_insert_eq, decide_True; [done|set_solver].
  - rewrite lookup_insert_ne, IH by done. destruct (decide (v ∈ vs)); [rewrite decide_True by set_solver|rewrite decide_False by set_solver]; done.
Qed.

(** The system neither fails nor stalls; it may interrupt a write, but not a sync. *)
Definition quiet (conf : slconf) (a : answer) : Prop :=
  match a with
  | ACount (S _) => True
  | AInterrupt => cf_sync_on_write conf = false ∧ cf_sync_on_rotate conf = false
  | _ => False
  end.
Lemma quiet_stalls conf l : Forall (quiet conf) l → ¬ stalls l.
Proof. intros Hl [H|H]; by apply (proj1 (Forall_forall _ _) Hl) in H. Qed.
Lemma quiet_error conf l : Forall (quiet conf) l → AError ∉ l.
Proof. intros Hl H. by apply (quiet_stalls conf l Hl); left. Qed.

Section proofs.
Context (crcf : Z → bytes → Z) (Hcrc : ∀ c p, is_u32 (crcf c p)) (io : nat) (conf : slconf).

(** ** Files *)

(** A file that is written at its end, by a system that lets it be. *)
Record calm (f : ssfile) : Prop := {
  ca_end : at_end_of f;
  ca_quiet : Forall (quiet conf) (o_answers (fl_os f));
  ca_io : (length (o_answers (fl_os f)) < io)%nat
}.
Lemma appended_calm f f' bs : calm f → appended f f' bs → Z.of_nat (length (o_data (fl_os f) ++ bs)) < 2 ^ 64 → calm f' ∧ o_data (fl_os f') = o_data (fl_os f) ++ bs.
Proof.
  intros [[Hs Hp] Hq Hio] [Hw Hsz] Hb. destruct (append_data _ _ _ Hp Hw) as [Ed Ep]. destruct Hw as (_ & _ & Hsuf). split; [|done]. split.
  - split; [|by rewrite Ep, Ed]. rewrite Hsz, Ed, Hs. unfold blen. rewrite length_app in *. rewrite Nat2Z.inj_add in *. apply wrap_id. unfold in_u. lia.
  - destruct Hsuf as [pre E]. rewrite E in Hq. by apply Forall_app in Hq as [_ ?].
  - apply suffix_length in Hsuf. lia.
Qed.
Lemma calm_ok f : calm f → os_ok (fl_os f).
Proof. intros [[_ Hp] _ _]. unfold os_ok. lia. Qed.
Lemma writev_calm f v : calm f → ∃ f', ss_filewritev io v f = Some (0, f') ∧ appended f f' (concat v).
Proof.
  intros Hf. destruct (writev_commit io v f (calm_ok f Hf) (ca_io f Hf)) as (rc & f' & E & [[-> Ha]|(_ & He & _)]); [by exists f'|].
  destruct (quiet_error _ _ (ca_quiet f Hf) He).
Qed.
(** Nothing is written, and fewer answers are left. *)
Lemma appended_answers f o : os_ok (fl_os f) → 0 <= fl_size f < 2 ^ 64 → o_data o = o_data (fl_os f) → o_pos o = o_pos (fl_os f) → o_answers o `suffix_of` o_answers (fl_os f) →
  appended f (mk_file (fl_size f) o) [].
Proof. intros Ho Hs E1 E2 E3. split; [by apply wrote_nil|]. cbn [fl_size]. unfold blen. cbn [length]. rewrite Z.add_0_r, wrap_id; done. Qed.
Lemma sync_calm f : calm f → fl_size f < 2 ^ 64 → cf_sync_on_write conf || cf_sync_on_rotate conf = true → ∃ f', ss_filesync f = Some (0, f') ∧ appended f f' [].
Proof.
  intros Hf Hsz Hsync. assert (0 <= fl_size f) by (destruct (ca_end f Hf) as [-> _]; lia). pose proof (calm_ok f Hf) as Ho. pose proof (ca_quiet f Hf) as Hq.
  unfold ss_filesync, cbind at 1, on_os, sys_answer, cbind, os_answer. destruct (o_answers (fl_os f)) as [|a l] eqn:Ea.
  - eexists. split; [done|]. by apply appended_answers.
  - apply Forall_cons in Hq as [Ha _]. destruct a as [| |[|k]]; [|done|done|].
    + destruct Ha as [E1 E2]. by rewrite E1, E2 in Hsync.
    + eexists. split; [done|]. apply appended_answers; try done. rewrite Ea. by apply suffix_cons_r.
Qed.

(** ** Writing a transaction *)

(** [x0]: the log as it was; [w] has gone to its file and the blocks [v] are waiting; the
    versions [vs] have been given the log. *)
Definition writing (s0 : slst) (l : loc) (x0 : sl) (w : bytes) (vs : list loc) (v : list bytes) (s : slst) : Prop :=
  ∃ f, appended (sl_file x0) f w ∧ s = mk_slst (set_iov (mk_iov v 1021) false (st_pool s0)) (st_seq s0)
    (<[l := mk_sl (sl_id x0) (sl_gcs x0) f]> (st_logs s0)) (st_v s0) (tag l vs (st_vlog s0)) (st_dir s0).

Section writes.
Context (s0 : slst) (l : loc) (x0 : sl) (Hx0 : calm (sl_file x0)).

Lemma writing_add w vs v b s : writing s0 l x0 w vs v s → Z.of_nat (length v) < 1021 → ∃ s', iov_add b s = Some ((), s') ∧ writing s0 l x0 w vs (v ++ [b]) s'.
Proof.
  intros (f & Hf & ->) Hv. unfold iov_add. cbn [st_pool p_iov set_iov]. rewrite iovadd_run by done. eexists. split; [done|]. by exists f.
Qed.
Lemma writing_reset w vs v s : writing s0 l x0 w vs v s → ∃ s', iov_reset s = Some ((), s') ∧ writing s0 l x0 w vs [] s'.
Proof. intros (f & Hf & ->). eexists. split; [done|]. by exists f. Qed.
Lemma writing_flush w vs v s : writing s0 l x0 w vs v s → Z.of_nat (length (o_data (fl_os (sl_file x0)) ++ w)) < 2 ^ 64 →
  ∃ s', pool_writev io l s = Some (0, s') ∧ writing s0 l x0 (w ++ concat v) vs v s'.
Proof.
  intros (f & Hf & ->) Hsz. destruct (appended_calm _ _ _ Hx0 Hf Hsz) as [Hcalm _]. destruct (writev_calm f v Hcalm) as (f' & E & Ha).
  unfold pool_writev, cbind at 1, rd_pool, cread. cbn [st_pool p_dangling set_iov p_iov]. unfold cbind at 1, cassert at 1. cbn [negb].
  unfold cbind at 1, on_file. cbn [st_logs]. rewrite lookup_insert_eq. cbn [sl_file io_v]. rewrite E. cbn [Z.eqb]. eexists. split; [done|].
  exists f'. split; [eapply appended_trans; [by apply calm_ok|done|done]|]. unfold set_logs. cbn. by rewrite insert_insert_eq.
Qed.
(** The statement a record of the transaction's log stands for. *)
Definition stmt_of (h : gmap loc svv) (x : svlogv loc) (s : stmt) : Prop :=
  ∃ w, h !! lv_v x = Some w ∧ v_size w = Z.of_nat (length (v_data w)) ∧ s = (lv_id x, svv_sv w).
Lemma version_run h v w s : h !! v = Some w → v_size w = Z.of_nat (length (v_data w)) → st_v s = h → version_of v s = Some (svv_sv w, s).
Proof.
  intros Hv Hs <-. unfold version_of, cread. rewrite Hv. cbn [mbind option_bind]. rewrite Hs, Nat2Z.id. unfold mem_read. rewrite decide_True by lia.
  cbn [mbind option_bind drop]. by rewrite firstn_all.
Qed.
Lemma writing_prepare w vs v s x st : writing s0 l x0 w vs v s → Z.of_nat (length v) + 1 < 1021 → stmt_of (st_v s0) x st →
  ∃ s' b, sl_write_prepare crcf l x s = Some ((), s') ∧ writing s0 l x0 w (vs ++ [lv_v x]) (v ++ b) s' ∧ concat b = rec_bytes crcf st ∧ length b = 2%nat.
Proof.
  intros Hw Hv (y & Hy & Hsz & ->). unfold sl_write_prepare, cbind at 1. rewrite (version_run (st_v s0) _ y) by (try done; by destruct Hw as (f & _ & ->)).
  set (b1 := slv_enc _). destruct (writing_add _ _ _ b1 _ Hw) as (s1 & E1 & W1); [lia|]. unfold cbind at 1. rewrite E1.
  destruct (writing_add _ _ _ (sv_pointer (svv_sv y)) _ W1) as (s2 & E2 & W2); [rewrite length_app; cbn [length]; lia|]. unfold cbind at 1. rewrite E2.
  eexists _, [b1; sv_pointer (svv_sv y)]. split; [done|]. rewrite <- app_assoc in W2. destruct W2 as (f & Hf & ->). split_and!.
  - exists f. split; [done|]. unfold set_vlog. cbn. by rewrite tag_snoc.
  - cbn [concat]. by rewrite app_nil_r.
  - done.
Qed.
Lemma multi_run buf : ∀ tx w vs v s lvp, writing s0 l x0 w vs v s → Forall2 (stmt_of (st_v s0)) buf tx →
  2 * lvp - 1 <= Z.of_nat (length v) <= 2 * lvp → Z.of_nat (length v) <= 1020 →
  Z.of_nat (length (o_data (fl_os (sl_file x0)) ++ w ++ concat v ++ concat (rec_bytes crcf <$> tx))) < 2 ^ 64 →
  ∃ s' w' v', multi_body crcf io l buf lvp s = Some (0, s') ∧ writing s0 l x0 w' (vs ++ (lv_v <$> buf)) v' s' ∧
    w' ++ concat v' = w ++ concat v ++ concat (rec_bytes crcf <$> tx) ∧ (buf ≠ [] ∨ v ≠ [] → v' ≠ []).
Proof.
  induction buf as [|x buf IH]; intros tx w vs v s lvp Hw Htx Hl Hv Hsz.
  { apply Forall2_nil_inv_l in Htx as ->. eexists _, w, v. split; [done|]. cbn [fmap list_fmap concat]. rewrite !app_nil_r. split_and!; [done|done|]. by intros [?|?]. }
  apply Forall2_cons_inv_l in Htx as (st & tx' & Hst & Htx & ->). rewrite fmap_cons in *. cbn [concat] in *. cbn [multi_body]. unfold cbind at 1, rd_pool, cread.
  assert (∃ w1 v1 lvp1 s1, (if ss_iovensure (p_iov (st_pool s)) 2 then cret (Some lvp) else let! rc := pool_writev io l in if Z.eqb rc (-1) then cret None else iov_reset;;; cret (Some 0)) s = Some (Some lvp1, s1) ∧
    writing s0 l x0 w1 vs v1 s1 ∧ w1 ++ concat v1 = w ++ concat v ∧ 2 * lvp1 - 1 <= Z.of_nat (length v1) <= 2 * lvp1 ∧ Z.of_nat (length v1) <= 1018) as (w1 & v1 & lvp1 & s1 & E1 & W1 & Ew & Hl1 & Hv1).
  { assert (p_iov (st_pool s) = mk_iov v 1021) as -> by (by destruct Hw as (f & _ & ->)). unfold ss_iovensure. cbn [io_v io_max]. destruct (Z.ltb_spec (Z.of_nat (length v) + 2) 1021).
    - exists w, v, lvp, s. split_and!; try done; lia.
    - destruct (writing_flush _ _ _ _ Hw) as (s1 & E1 & W1); [rewrite !length_app in *; lia|]. destruct (writing_reset _ _ _ _ W1) as (s2 & E2 & W2).
      exists (w ++ concat v), [], 0, s2. unfold cbind. rewrite E1. cbn [Z.eqb]. rewrite E2. split_and!; try done; [by rewrite app_nil_r|cbn; lia..]. }
  unfold cbind at 1. rewrite E1. unfold cbind at 1, cassert at 1. rewrite (proj2 (Z.ltb_lt _ _)) by lia.
  destruct (writing_prepare _ _ _ _ x st W1) as (s2 & b & E2 & W2 & Eb & Hb); [lia|done|]. unfold cbind at 1. rewrite E2.
  destruct (IH tx' w1 (vs ++ [lv_v x]) (v1 ++ b) s2 (lvp1 + 1)) as (s' & w' & v' & E & W' & E' & Hne); [done|done|rewrite length_app; lia|rewrite length_app; lia| |].
  { rewrite concat_app, Eb. rewrite (app_assoc w1), (app_assoc w1), Ew, <- !app_assoc. done. }
  exists s', w', v'. rewrite E. rewrite <- app_assoc in W'. split_and!; [done|done| |].
  - rewrite E', concat_app, Eb, !app_assoc, Ew. by rewrite <- !app_assoc.
  - intros _. apply Hne. right. intros [_ ->]%app_eq_nil. done.
Qed.
Definition marked (n : Z) (x : sl) : sl := mk_sl (sl_id x) (mk_gc (gc_mark (sl_gcs x) + n) (gc_sweep (sl_gcs x)) (gc_complete (sl_gcs x))) (sl_file x).
Lemma writing_mark w vs v s n : writing s0 l x0 w vs v s → 0 <= gc_mark (sl_gcs x0) + n <= INT_MAX →
  ∃ s', on_gc l (ss_gcmark n) s = Some ((), s') ∧ writing s0 l (marked n x0) w vs v s'.
Proof.
  intros (f & Hf & ->) Hn. unfold on_gc. cbn [st_logs]. rewrite lookup_insert_eq. cbn [sl_gcs]. unfold ss_gcmark, int_add.
  rewrite (proj2 (Z.leb_le (-2147483648) _)), (proj2 (Z.leb_le _ INT_MAX)) by lia. cbn [andb mbind option_bind]. eexists. split; [done|].
  exists f. split; [done|]. unfold set_logs. cbn. by rewrite insert_insert_eq.
Qed.
Lemma writing_sync w vs v s : writing s0 l x0 w vs v s → Z.of_nat (length (o_data (fl_os (sl_file x0)) ++ w)) < 2 ^ 64 → cf_sync_on_write conf || cf_sync_on_rotate conf = true →
  ∃ s', on_file l ss_filesync s = Some (0, s') ∧ writing s0 l x0 w vs v s'.
Proof.
  intros (f & Hf & ->) Hsz Hsync. destruct (appended_calm _ _ _ Hx0 Hf Hsz) as [Hcalm Hd]. assert (fl_size f < 2 ^ 64) by (destruct (ca_end f Hcalm) as [-> _]; by rewrite Hd).
  destruct (sync_calm f Hcalm) as (f' & E & Ha); [done|done|]. unfold on_file. cbn [st_logs]. rewrite lookup_insert_eq. cbn [sl_file]. rewrite E. eexists. split; [done|].
  exists f'. split; [|unfold set_logs; cbn; by rewrite insert_insert_eq]. rewrite <- (app_nil_r w). eapply appended_trans; [by apply calm_ok|done|done].
Qed.
End writes.
(** A pool between two writes. *)
Definition pool_idle (s : slst) : Prop := p_conf (st_pool s) = conf ∧ cf_enable conf = true ∧ p_iov (st_pool s) = mk_iov [] 1021 ∧ p_dangling (st_pool s) = false.
Lemma writing_start s l x0 : pool_idle s → st_logs s !! l = Some x0 → calm (sl_file x0) → Z.of_nat (length (o_data (fl_os (sl_file x0)))) < 2 ^ 64 → writing s l x0 [] [] [] s.
Proof.
  intros (_ & _ & Hi & Hd) Hx Hc Hsz. exists (sl_file x0). destruct (ca_end _ Hc) as [Hs _]. split.
  - destruct x0 as [id gc [sz o]]. cbn [sl_file fl_size fl_os] in *. apply (appended_answers (mk_file sz o)); cbn [fl_size fl_os]; try done; [apply (calm_ok (mk_file sz o) Hc)|lia].
  - destruct s as [[] ? ? ? ? ?], x0. cbn in *. subst. by rewrite insert_id.
Qed.
(** What a write leaves: the bytes in the file, the statements counted, the versions tagged. *)
Definition logged (s : slst) (l : loc) (x1 : sl) (vs : list loc) : slst :=
  mk_slst (st_pool s) (st_seq s) (<[l := x1]> (st_logs s)) (st_v s) (tag l vs (st_vlog s)) (st_dir s).
Lemma writing_done s l x w vs s' : pool_idle s → writing s l x w vs [] s' → ∃ f', appended (sl_file x) f' w ∧ s' = logged s l (mk_sl (sl_id x) (sl_gcs x) f') vs.
Proof. intros (_ & _ & Hi & Hd) (f & Hf & ->). exists f. split; [done|]. unfold logged. destruct s as [[] ? ? ? ? ?]. cbn in *. by subst. Qed.

Lemma write_stmt_run s l x0 vlog x st : pool_idle s → st_logs s !! l = Some x0 → calm (sl_file x0) → l_buf vlog = [x] → stmt_of (st_v s) x st →
  Z.of_nat (length (o_data (fl_os (sl_file x0)) ++ rec_bytes crcf st)) < 2 ^ 64 → 0 <= gc_mark (sl_gcs x0) + 1 <= INT_MAX →
  ∃ s', sl_write_stmt crcf io l vlog s = Some (0, s') ∧ writing s l (marked 1 x0) (rec_bytes crcf st) [lv_v x] [] s'.
Proof.
  intros Hp Hx Hc Hb Hst Hsz Hm. assert (writing s l x0 [] [] [] s) as W0 by (apply writing_start; try done; rewrite length_app in Hsz; lia).
  unfold sl_write_stmt, cbind at 1, cread. rewrite Hb. cbn [lookup list_lookup].
  destruct (writing_prepare s l x0 [] [] [] s x st W0) as (s1 & b & E1 & W1 & Eb & _); [cbn; lia|done|]. unfold cbind at 1. rewrite E1.
  destruct (writing_flush s l x0 Hc _ _ _ _ W1) as (s2 & E2 & W2); [rewrite app_nil_r; rewrite length_app in Hsz; lia|]. unfold cbind at 1. rewrite E2. cbn [Z.eqb].
  destruct (writing_mark _ _ _ _ _ _ _ 1 W2 Hm) as (s3 & E3 & W3). unfold cbind at 1. rewrite E3.
  destruct (writing_reset _ _ _ _ _ _ _ W3) as (s4 & E4 & W4). unfold cbind at 1. rewrite E4. exists s4. cbn [app] in W4. rewrite Eb in W4. done.
Qed.
Lemma write_multi_run old s l x0 vlog tx : pool_idle s → st_logs s !! l = Some x0 → calm (sl_file x0) → Forall2 (stmt_of (st_v s)) (l_buf vlog) tx →
  Z.of_nat (length tx) < UINT32_MAX → let bs := slv_enc (sl_header crcf 0 (tx_lsn tx) (Z.of_nat (length tx))) ++ concat (rec_bytes crcf <$> tx) in
  Z.of_nat (length (o_data (fl_os (sl_file x0)) ++ bs)) < 2 ^ 64 → 0 <= gc_mark (sl_gcs x0) + Z.of_nat (length tx) <= INT_MAX →
  ∃ s', sl_write_multi_stmt crcf io old l vlog (tx_lsn tx) s = Some (0, s') ∧ writing s l (marked (Z.of_nat (length tx)) x0) bs (lv_v <$> l_buf vlog) [] s'.
Proof.
  intros Hp Hx Hc Htx Hlen bs Hsz Hm. assert (writing s l x0 [] [] [] s) as W0 by (apply writing_start; try done; rewrite length_app in Hsz; lia).
  unfold sl_write_multi_stmt, sv_logcount. rewrite (Forall2_length _ _ _ Htx), header_old, wrap_id by (unfold in_u, UINT32_MAX in *; lia).
  set (hd := slv_enc _) in *. destruct (writing_add s l x0 [] [] [] hd s W0) as (s1 & E1 & W1); [cbn; lia|]. unfold cbind at 1. rewrite E1. cbn [app] in W1.
  destruct (multi_run s l x0 Hc (l_buf vlog) tx [] [] [hd] s1 1 W1 Htx) as (s2 & w & v & E2 & W2 & Ew & Hne); [cbn; lia|cbn; lia|cbn [concat app]; by rewrite app_nil_r|].
  cbn [concat app] in *. rewrite app_nil_r in Ew. fold bs in Ew. assert (v ≠ []) as Hv by (apply Hne; by right). unfold cbind at 1. rewrite E2. cbn [Z.eqb].
  unfold cbind at 1, rd_pool, cread. assert (ss_iovhas (p_iov (st_pool s2)) = true) as ->.
  { destruct W2 as (f & _ & ->). unfold ss_iovhas. cbn [st_pool p_iov set_iov io_v]. rewrite Z.gtb_ltb, Z.ltb_lt. destruct v; [done|cbn [length]; lia]. }
  destruct (writing_flush s l x0 Hc _ _ _ _ W2) as (s3 & E3 & W3).
  { rewrite <- Ew, !length_app in Hsz. rewrite length_app. lia. }
  destruct (writing_reset _ _ _ _ _ _ _ W3) as (s4 & E4 & W4). destruct (writing_mark _ _ _ _ _ _ _ (Z.of_nat (length tx)) W4 Hm) as (s5 & E5 & W5).
  unfold cbind at 1, cbind at 1. rewrite E3. cbn [Z.eqb]. unfold cbind at 1. rewrite E4. unfold cret at 1. cbn [Z.eqb]. unfold cbind at 1. rewrite E5. exists s5. by rewrite <- Ew.
Qed.
Lemma write_run old svp s l x0 vlog tx : pool_idle s → st_logs s !! l = Some x0 → calm (sl_file x0) → Forall2 (stmt_of (st_v s)) (l_buf vlog) tx → tx_ok tx →
  Z.of_nat (length (o_data (fl_os (sl_file x0)) ++ tx_bytes crcf tx)) < 2 ^ 64 → 0 <= gc_mark (sl_gcs x0) + Z.of_nat (length tx) <= INT_MAX →
  ∃ f', sl_write crcf io old (mk_sltx (Some l) svp) vlog s = Some (0, logged s l (mk_sl (sl_id x0) (sl_gcs (marked (Z.of_nat (length tx)) x0)) f') (lv_v <$> l_buf vlog)) ∧
    appended (sl_file x0) f' (tx_bytes crcf tx).
Proof.
  intros Hp Hx Hc Htx (Hne & _ & _ & Hlen) Hsz Hm. assert (∃ s1, (if Z.eqb (sv_logcount vlog) 1 then sl_write_stmt crcf io l vlog
      else let! lv := cread (λ _, l_buf vlog !! 0%nat) in let! v := version_of (lv_v lv) in sl_write_multi_stmt crcf io old l vlog (sv_lsn v)) s = Some (0, s1) ∧
      writing s l (marked (Z.of_nat (length tx)) x0) (tx_bytes crcf tx) (lv_v <$> l_buf vlog) [] s1) as (s1 & E1 & W1).
  { unfold sv_logcount. rewrite (Forall2_length _ _ _ Htx). destruct tx as [|st [|st2 tx]]; [done| |].
    - apply Forall2_cons_inv_r in Htx as (x & buf & Hst & Hnil & Eb). apply Forall2_nil_inv_r in Hnil as ->. rewrite Eb.
      destruct (write_stmt_run s l x0 vlog x st Hp Hx Hc Eb Hst Hsz Hm) as (s1 & E1 & W1). by exists s1.
    - cbn [tx_bytes] in Hsz. destruct (write_multi_run old s l x0 vlog _ Hp Hx Hc Htx Hlen Hsz Hm) as (s1 & E1 & W1). exists s1. split; [|done].
      rewrite (proj2 (Z.eqb_neq _ _)) by (cbn [length]; lia). apply Forall2_cons_inv_r in Htx as (x & buf & (w & Hw & Hs & ->) & _ & Eb). unfold cbind at 1, cread. rewrite Eb. cbn [lookup list_lookup].
      unfold cbind at 1. rewrite (version_run (st_v s) _ w) by done. exact E1. }
  pose proof Hp as (Hconf & Hen & _). unfold sl_write, cbind at 1, rd_pool, cread at 1. rewrite Hconf, Hen. cbn [negb lt_l]. unfold cbind at 1, cread at 1. unfold cbind at 1. rewrite E1. cbn [Z.eqb andb].
  destruct (cf_sync_on_write conf) eqn:Esw.
  - destruct (writing_sync s l (marked (Z.of_nat (length tx)) x0) Hc _ _ _ _ W1 Hsz) as (s2 & E2 & W2); [by rewrite Esw|]. unfold cbind. rewrite E2. cbn [Z.eqb].
    destruct (writing_done _ _ _ _ _ _ Hp W2) as (f' & Hf' & ->). by exists f'.
  - destruct (writing_done _ _ _ _ _ _ Hp W1) as (f' & Hf' & ->). by exists f'.
Qed.
End proofs.

(** * After a failed write *)

(** The vector has blocks that dangle. *)
Definition stuck (s : slst) : Prop := p_dangling (st_pool s) = true ∧ io_v (p_iov (st_pool s)) ≠ [].
Definition keeps_stuck {A} (m : cmd slst A) : Prop := ∀ s a s', stuck s → m s = Some (a, s') → stuck s'.
Lemma stuck_bind {A B} (m : cmd slst A) (k : A → cmd slst B) : keeps_stuck m → (∀ a, keeps_stuck (k a)) → keeps_stuck (cbind m k).
Proof. intros Hm Hk s b s' Hs. unfold cbind. destruct (m s) as [[a s1]|] eqn:E; [|done]. intros E2. by apply (Hk a s1 b s' (Hm s a s1 Hs E)). Qed.
Lemma stuck_add b : keeps_stuck (iov_add b).
Proof.
  intros s a s' [Hd Hv]. unfold iov_add, ss_iovadd, cbind, cget, cassert, cput. destruct (Z.ltb _ _); [|done]. intros [= _ <-]. split; [done|]. cbn. by intros []%app_nil.
Qed.
Lemma stuck_version v : keeps_stuck (version_of v).
Proof. intros s a s' Hs. unfold version_of, cread. destruct (_ ≫= _); [|done]. by intros [= _ <-]. Qed.
Lemma stuck_prepare crcf l x : keeps_stuck (sl_write_prepare crcf l x).
Proof.
  apply stuck_bind; [apply stuck_version|intros v]. apply stuck_bind; [apply stuck_add|intros _]. apply stuck_bind; [apply stuck_add|intros _].
  intros s a s' Hs [= _ <-]. done.
Qed.
Lemma stuck_writev io l s : stuck s → pool_writev io l s = None.
Proof. intros [Hs _]. unfold pool_writev, cbind at 1, rd_pool, cread. unfold cbind at 1, cassert at 1. by rewrite Hs. Qed.
Lemma stuck_multi crcf io l buf : ∀ lvp s a s', stuck s → multi_body crcf io l buf lvp s = Some (a, s') → a = 0 ∧ stuck s'.
Proof.
  induction buf as [|x buf IH]; intros lvp s a s' Hs; cbn [multi_body]; [by intros [= <- <-]|]. unfold cbind at 1, rd_pool, cread. unfold cbind at 1.
  destruct (ss_iovensure _ _); [|unfold cbind at 1; by rewrite (stuck_writev io l s Hs)]. unfold cret at 1. unfold cbind at 1, cassert at 1. destruct (Z.ltb lvp 510); [|done].
  unfold cbind. destruct (sl_write_prepare crcf l x s) as [[[] s1]|] eqn:E; [|done]. by apply IH, (stuck_prepare crcf l x s () s1).
Qed.
(** A write that failed leaves blocks in the vector that dangle, and every later write uses
    them: it can neither succeed nor report an error. *)
Theorem sl_write_dangling crcf io l :
  (∀ s s', io_v (p_iov (st_pool s)) ≠ [] → pool_writev io l s = Some (-1, s') → stuck s') ∧
  (∀ old svp vlog s, cf_enable (p_conf (st_pool s)) = true → stuck s → sl_write crcf io old (mk_sltx (Some l) svp) vlog s = None).
Proof.
  split.
  - intros s s' Hv. unfold pool_writev, cbind at 1, rd_pool, cread. unfold cbind at 1, cassert at 1. destruct (p_dangling (st_pool s)); [done|]. cbn [negb].
    unfold cbind, on_file. destruct (st_logs s !! l) as [x|]; [|done]. destruct (ss_filewritev _ _ _) as [[rc f]|]; [|done]. destruct (Z.eqb_spec rc (-1)); [|done]. by intros [= <-].
  - intros old svp vlog s Hen Hs. unfold sl_write, cbind at 1, rd_pool, cread at 1. rewrite Hen. cbn [negb lt_l]. unfold cbind at 1, cread at 1. unfold cbind at 1.
    match goal with |- context [match ?m s with _ => _ end] => assert (m s = None) as -> end; [|done]. destruct (Z.eqb (sv_logcount vlog) 1).
    + unfold sl_write_stmt, cbind at 1, cread. destruct (l_buf vlog !! 0%nat) as [x|]; [|done]. unfold cbind at 1. destruct (sl_write_prepare crcf l x s) as [[[] s1]|] eqn:E; [|done].
      unfold cbind at 1. by rewrite (stuck_writev io l s1 (stuck_prepare crcf l x s _ s1 Hs E)).
    + unfold cbind at 1, cread. destruct (l_buf vlog !! 0%nat) as [x|]; [|done]. unfold cbind at 1. destruct (version_of (lv_v x) s) as [[v s0]|] eqn:Ev; [|done].
      pose proof (stuck_version _ _ _ _ Hs Ev) as Hs0. unfold sl_write_multi_stmt, cbind at 1. destruct (iov_add _ s0) as [[[] s1]|] eqn:E1; [|done]. pose proof (stuck_add _ _ _ _ Hs0 E1) as Hs1.
      unfold cbind at 1. destruct (multi_body crcf io l (l_buf vlog) 1 s1) as [[rc s2]|] eqn:E2; [|done]. destruct (stuck_multi _ _ _ _ _ _ _ _ Hs1 E2) as [-> Hs2].
      cbn [Z.eqb]. unfold cbind at 1, rd_pool, cread. assert (ss_iovhas (p_iov (st_pool s2)) = true) as ->.
      { destruct Hs2 as [_ Hv]. unfold ss_iovhas. rewrite Z.gtb_ltb, Z.ltb_lt. destruct (io_v _); [done|cbn [length]; lia]. }
      unfold cbind at 1, cbind at 1. by rewrite (stuck_writev io l s2 Hs2).
Qed.
