(* ===== verification/SlDurable.v ===== *)
(** The write-ahead log over any sequence of its operations: every version that is in an
    in-memory index and not yet on disk is in a log file that is still in the directory, and
    can be read back from it. *)
From stdpp Require Import base list sets functions gmap.
From S2P Require Import Prelude SsRb Sv SvLog SsBytes SsBuf Sr SvIndex SdPageKv SsFile SdBuild SdIndex SdCommit SlIter Sl SlProofs.
Local Open Scope Z_scope.
Local Open Scope c_scope.

Definition with_lsn (lsn : Z) (w : svv) : svv := mk_svv lsn (v_size w) (v_flags w) (v_next w) (v_data w).
(** The versions [vs] with the sequence number [lsn]. *)
Definition relsn (lsn : Z) (vs : list loc) (h : gmap loc svv) : gmap loc svv := foldl (λ h v, alter (with_lsn lsn) v h) h vs.
Lemma relsn_lookup lsn vs h v : relsn lsn vs h !! v = if decide (v ∈ vs) then with_lsn lsn <$> h !! v else h !! v.
Proof.
  unfold relsn. induction vs as [|x vs IH] using rev_ind; [by rewrite decide_False by apply not_elem_of_nil|]. rewrite foldl_app. cbn [foldl].
  destruct (decide (v = x)) as [->|Hne].
  - rewrite lookup_alter_eq, IH, (decide_True (P := x ∈ vs ++ [x])) by set_solver. destruct (decide (x ∈ vs)); [|done]. by destruct (h !! x).
  - rewrite lookup_alter_ne, IH by done. destruct (decide (v ∈ vs)); [rewrite decide_True by set_solver|rewrite decide_False by set_solver]; done.
Qed.
Lemma set_lsns_run lsn buf : ∀ s, Forall (λ x, is_Some (st_v s !! lv_v x)) buf →
  set_lsns buf lsn s = Some ((), set_vs (relsn lsn (lv_v <$> buf) (st_v s)) s).
Proof.
  induction buf as [|x buf IH]; intros s Hb; [by destruct s|]. apply Forall_cons in Hb as [[w Hw] Hb]. cbn [set_lsns]. unfold cbind at 1, sv_viflsnset. rewrite Hw.
  fold (with_lsn lsn w). assert (<[lv_v x := with_lsn lsn w]> (st_v s) = alter (with_lsn lsn) (lv_v x) (st_v s)) as ->.
  { apply map_eq. intros i. destruct (decide (i = lv_v x)) as [->|]; [by rewrite lookup_insert_eq, lookup_alter_eq, Hw|by rewrite lookup_insert_ne, lookup_alter_ne]. }
  rewrite IH; [done|]. eapply Forall_impl; [exact Hb|]. intros y Hy. cbn [st_v set_vs]. by apply lookup_alter_is_Some.
Qed.

(** ** Runs *)

Inductive lop :=
  | LNew (v : loc) (w : svv)                              (* a version is allocated *)
  | LCommit (old : Z) (vlog : svlog loc) (lsn : Z)        (* a transaction is logged and applied *)
  | LIndex (v : loc) (next : ptr) (dup : bool)            (* the index links a version *)
  | LFree (v : loc)                                       (* a chain went to disk and is freed *)
  | LRotate (x : loc) (ans : list answer)
  | LGc
  | LGcEnable (enable : bool).

Ltac fields := cbn [st_pool st_seq st_logs st_v st_vlog st_dir set_pool set_lseq set_logs set_vs set_vlog set_dir].

Section runs.
Context (crcf : Z → bytes → Z) (Hcrc : ∀ c p, is_u32 (crcf c p)) (io : nat) (conf : slconf) (unlinked closed : Z → bool).

(** The log, and the versions that are in an index in memory. *)
Definition lstate : Type := slst * gset loc.
Definition run_op (op : lop) : cmd lstate Z := λ '(s, applied),
  match op with
  | LNew v w => Some (0, (set_vs (<[v := w]> (st_v s)) s, applied))
  | LCommit old vlog lsn =>
      match log_commit crcf io old vlog lsn s with
      | Some (rc, s') => Some (rc, (s', if Z.eqb rc 0 then applied ∪ list_to_set (lv_v <$> l_buf vlog) else applied))
      | None => None
      end
  | LIndex v next dup =>
      match st_v s !! v with
      | Some w => Some (0, (set_vs (<[v := mk_svv (v_lsn w) (v_size w) (if dup then Z.lor (v_flags w) SVDUP else v_flags w) next (v_data w)]> (st_v s)) s, applied))
      | None => None
      end
  | LFree v =>
      match si_gcv (S (size (st_v s))) (Some v) 0 s with
      | Some (used, s') => Some (used, (s', applied ∩ dom (st_v s')))
      | None => None
      end
  | LRotate x ans => match sl_poolrotate io (Some x) true ans s with Some (rc, s') => Some (rc, (s', applied)) | None => None end
  | LGc => match sl_poolgc unlinked closed s with Some (rc, s') => Some (rc, (s', applied)) | None => None end
  | LGcEnable b => match sl_poolgc_enable b s with Some (rc, s') => Some (rc, (s', applied)) | None => None end
  end.

(** The chain of versions from [v] on. *)
Fixpoint chain (h : gmap loc svv) (v : ptr) (vs : list loc) : Prop :=
  match vs with
  | [] => v = None
  | x :: vs => v = Some x ∧ ∃ w, h !! x = Some w ∧ chain h (v_next w) vs
  end.
(** The sequence number a transaction gets, and its statements. *)
Definition lsn_of (lsn : Z) (s : slst) : Z := if Z.eqb lsn 0 then q_lsn (st_seq s) + 1 else lsn.
Definition tx_of (lsn : Z) (s : slst) (buf : list (svlogv loc)) : list stmt :=
  omap (λ x, w ← st_v s !! lv_v x; Some (lv_id x, svv_sv (with_lsn lsn w))) buf.
(** When an operation is called. *)
Definition op_ok (op : lop) (st : lstate) : Prop := let '(s, applied) := st in
  match op with
  | LNew v w => st_v s !! v = None
  | LCommit old vlog lsn =>
      l_buf vlog ≠ [] ∧ NoDup (lv_v <$> l_buf vlog) ∧ is_u64 (lsn_of lsn s) ∧
      Forall (λ x, lv_v x ∉ applied ∧ ∃ w, st_v s !! lv_v x = Some w ∧ v_size w = Z.of_nat (length (v_data w)) ∧ stmt_ok (lv_id x, svv_sv (with_lsn (lsn_of lsn s) w))) (l_buf vlog) ∧
      Z.of_nat (length (l_buf vlog)) < UINT32_MAX ∧
      ∃ l x, last (p_list (st_pool s)) = Some l ∧ st_logs s !! l = Some x ∧ gc_mark (sl_gcs x) + Z.of_nat (length (l_buf vlog)) <= INT_MAX ∧
        Z.of_nat (length (o_data (fl_os (sl_file x)) ++ tx_bytes crcf (tx_of (lsn_of lsn s) s (l_buf vlog)))) < 2 ^ 64
  | LIndex v _ _ => v ∈ applied
  | LFree v => ∃ vs, chain (st_v s) (Some v) vs ∧ NoDup vs ∧ Forall (.∈ applied) vs
  | LRotate x ans => st_logs s !! x = None ∧ Forall (quiet conf) ans ∧ (length ans < io)%nat ∧ q_lfsn (st_seq s) < UINT32_MAX
  | LGc | LGcEnable _ => True
  end.
Inductive reachable : lstate → Prop :=
  | reach_init q h : 0 <= q_lfsn q <= UINT32_MAX → cf_enable conf = true → reachable (mk_slst (sl_poolinit conf) q ∅ h ∅ ∅, ∅)
  | reach_step st op rc st' : reachable st → op_ok op st → run_op op st = Some (rc, st') → reachable st'.

(** ** The invariant *)

(** How many applied versions are in the log [l]. *)
Definition users (s : slst) (applied : gset loc) (l : loc) : Z := Z.of_nat (size (filter (λ v, st_vlog s !! v = Some l) applied)).
(** A log with the transactions [txs]. *)
Record log_holds (s : slst) (applied : gset loc) (l : loc) (x : sl) (txs : list (list stmt)) : Prop := {
  lh_calm : calm io conf (sl_file x);
  lh_data : o_data (fl_os (sl_file x)) = log_bytes crcf txs;
  lh_txs : Forall tx_ok txs;
  lh_size : Z.of_nat (length (o_data (fl_os (sl_file x)))) < 2 ^ 64;
  lh_users : gc_mark (sl_gcs x) = gc_sweep (sl_gcs x) + users s applied l;
  lh_sweep : 0 <= gc_sweep (sl_gcs x);
  lh_mark : gc_mark (sl_gcs x) <= INT_MAX;
  lh_complete : gc_complete (sl_gcs x) = false ↔ last (p_list (st_pool s)) = Some l;
  lh_id : sl_id x <= q_lfsn (st_seq s);
  lh_dir : sl_id x ∈ st_dir s
}.
Record log_inv (s : slst) (applied : gset loc) (txs : loc → list (list stmt)) : Prop := {
  iv_pool : pool_idle conf s;
  iv_nodup : NoDup (p_list (st_pool s));
  iv_n : p_n (st_pool s) = Z.of_nat (length (p_list (st_pool s)));
  iv_lfsn : 0 <= q_lfsn (st_seq s) <= UINT32_MAX;
  iv_log : ∀ l, l ∈ p_list (st_pool s) → ∃ x, st_logs s !! l = Some x ∧ log_holds s applied l x (txs l);
  iv_inj : ∀ l1 l2 x1 x2, l1 ∈ p_list (st_pool s) → l2 ∈ p_list (st_pool s) → st_logs s !! l1 = Some x1 → st_logs s !! l2 = Some x2 → sl_id x1 = sl_id x2 → l1 = l2;
  iv_v : ∀ v, v ∈ applied → ∃ w l tx st, st_v s !! v = Some w ∧ st_vlog s !! v = Some l ∧ l ∈ p_list (st_pool s) ∧ tx ∈ txs l ∧ st ∈ tx ∧
    sv_lsn st.2 = v_lsn w ∧ sv_pointer st.2 = v_data w;
  iv_free : ∀ v, st_v s !! v = None → st_vlog s !! v = None
}.
Lemma inv_init q h : 0 <= q_lfsn q <= UINT32_MAX → cf_enable conf = true → log_inv (mk_slst (sl_poolinit conf) q ∅ h ∅ ∅) ∅ (λ _, []).
Proof.
  intros Hq Hen. split; cbn [st_pool sl_poolinit p_list p_n st_seq st_logs st_v st_vlog st_dir].
  - done.
  - apply NoDup_nil_2.
  - done.
  - done.
  - intros l Hl. by apply not_elem_of_nil in Hl.
  - intros ? ? ? ? Hl. by apply not_elem_of_nil in Hl.
  - set_solver.
  - done.
Qed.

Lemma users_ext s s' applied l : (∀ v, v ∈ applied → (st_vlog s' !! v = Some l ↔ st_vlog s !! v = Some l)) → users s' applied l = users s applied l.
Proof.
  intros Hv. unfold users. do 2 f_equal. apply leibniz_equiv. intros v. rewrite !elem_of_filter. split; intros [E Hin]; (split; [|done]); by apply (Hv v Hin).
Qed.
(** Versions and their logs may change where no applied version is concerned. *)
Lemma log_holds_ext s s' applied l x txs : log_holds s applied l x txs → st_pool s' = st_pool s → q_lfsn (st_seq s) <= q_lfsn (st_seq s') → st_dir s ⊆ st_dir s' →
  (∀ v, v ∈ applied → st_vlog s' !! v = st_vlog s !! v) → log_holds s' applied l x txs.
Proof.
  intros [] Hp Hq Hd Hv. split; try done; [|by rewrite Hp|lia|set_solver]. rewrite (users_ext s s'); [done|]. intros v Hin. by rewrite Hv.
Qed.
Lemma inv_new s applied txs v w : log_inv s applied txs → st_v s !! v = None → log_inv (set_vs (<[v := w]> (st_v s)) s) applied txs.
Proof.
  intros [] Hv. split; try done.
  - intros l Hl. destruct (iv_log0 l Hl) as (x & Hx & Hh). exists x. split; [done|]. by eapply log_holds_ext.
  - intros u Hu. destruct (iv_v0 u Hu) as (wu & l & tx & st & Hwu & Hr). exists wu, l, tx, st. split; [|done]. cbn [st_v set_vs]. rewrite lookup_insert_ne; [done|]. by intros ->; rewrite Hv in Hwu.
  - intros u Hu. cbn [st_v set_vs] in Hu. apply iv_free0. apply lookup_insert_None in Hu. by destruct Hu.
Qed.
Lemma inv_index s applied txs v w f n : log_inv s applied txs → st_v s !! v = Some w → log_inv (set_vs (<[v := mk_svv (v_lsn w) (v_size w) f n (v_data w)]> (st_v s)) s) applied txs.
Proof.
  intros [] Hv. split; try done.
  - intros l Hl. destruct (iv_log0 l Hl) as (x & Hx & Hh). exists x. split; [done|]. by eapply log_holds_ext.
  - intros u Hu. destruct (iv_v0 u Hu) as (wu & l & tx & st & Hwu & Hr & Hl & Htx & Hst & E1 & E2). cbn [st_v set_vs]. destruct (decide (u = v)) as [->|Hne].
    + rewrite lookup_insert_eq. simplify_eq. eexists _, l, tx, st. split; [done|]. by split_and!.
    + rewrite lookup_insert_ne by done. exists wu, l, tx, st. by split_and!.
  - intros u Hu. cbn [st_v set_vs] in Hu. apply iv_free0. apply lookup_insert_None in Hu. by destruct Hu.
Qed.
Lemma inv_enable s applied txs b : log_inv s applied txs → ∃ s', sl_poolgc_enable b s = Some (0, s') ∧ log_inv s' applied txs.
Proof.
  intros []. eexists. split; [done|]. split; try done. intros l Hl. destruct (iv_log0 l Hl) as (x & Hx & []). exists x. split; [done|]. by split.
Qed.

(** ** Commit *)

Definition buf_ok (s : slst) (lsn : Z) (x : svlogv loc) : Prop :=
  ∃ w, st_v s !! lv_v x = Some w ∧ v_size w = Z.of_nat (length (v_data w)) ∧ stmt_ok (lv_id x, svv_sv (with_lsn lsn w)).
Lemma tx_of_stmts s lsn buf : Forall (buf_ok s lsn) buf →
  Forall2 (λ x st, ∃ w, st_v s !! lv_v x = Some w ∧ v_size w = Z.of_nat (length (v_data w)) ∧ st = (lv_id x, svv_sv (with_lsn lsn w)) ∧ stmt_ok st) buf (tx_of lsn s buf).
Proof.
  induction 1 as [|x buf (w & Hw & Hs & Hst) Hb IH]; [constructor|]. unfold tx_of. cbn [omap list_omap]. rewrite Hw. cbn [mbind option_bind].
  constructor; [by exists w|exact IH].
Qed.
Lemma tx_of_ok s lsn buf : Forall (buf_ok s lsn) buf → buf ≠ [] → Z.of_nat (length buf) < UINT32_MAX → tx_ok (tx_of lsn s buf) ∧ length (tx_of lsn s buf) = length buf.
Proof.
  intros Hb Hne Hlen. pose proof (tx_of_stmts s lsn buf Hb) as H2. pose proof (Forall2_length _ _ _ H2) as Hl. split; [|done].
  assert (Forall (λ st, stmt_ok st ∧ sv_lsn st.2 = lsn) (tx_of lsn s buf)) as Hall.
  { eapply Forall2_Forall_r; [exact H2|]. apply Forall_true. intros x st (w & _ & _ & -> & Hst). by split. }
  assert (tx_of lsn s buf ≠ []) as Hnil by (intros E; rewrite E in Hl; by destruct buf). split_and!; [done|by eapply Forall_impl; [exact Hall|]; intros ? []| |by rewrite <- Hl].
  destruct (tx_of lsn s buf) as [|st tx]; [done|]. pose proof Hall as [[_ E] _]%Forall_cons. cbn [tx_lsn]. rewrite E. by eapply Forall_impl; [exact Hall|]; intros ? [].
Qed.
Lemma prepare_run s vlog lsn : is_u64 (lsn_of lsn s) → Forall (buf_ok s (lsn_of lsn s)) (l_buf vlog) →
  ∃ q, q_lfsn q = q_lfsn (st_seq s) ∧ sl_prepare vlog lsn s = Some (0, set_vs (relsn (lsn_of lsn s) (lv_v <$> l_buf vlog) (st_v s)) (set_lseq q s)).
Proof.
  intros Hu Hb. assert (∀ q, set_lsns (l_buf vlog) (lsn_of lsn s) (set_lseq q s) = Some ((), set_vs (relsn (lsn_of lsn s) (lv_v <$> l_buf vlog) (st_v s)) (set_lseq q s))) as Hrun.
  { intros q. rewrite set_lsns_run; [done|]. eapply Forall_impl; [exact Hb|]. intros x (w & Hw & _). by exists w. }
  unfold sl_prepare. unfold lsn_of in Hu, Hrun |- *. clear Hb. destruct (Z.eqb_spec lsn 0) as [_|_].
  - unfold cbind at 1, on_lseq. destruct s as [p [dsn nsn bsn ls lfsn tsn rsn] lg h vl d]. cbn [st_seq q_lsn] in *. cbn [sr_seq sr_seqdo]. rewrite (wrap_id 64 (ls + 1)) by done.
    exists (mk_seq dsn nsn bsn (ls + 1) lfsn tsn rsn). split; [done|]. unfold cbind. by rewrite Hrun.
  - exists (st_seq (if Z.gtb lsn (q_lsn (st_seq s)) then set_lseq (mk_seq (q_dsn (st_seq s)) (q_nsn (st_seq s)) (q_bsn (st_seq s)) lsn (q_lfsn (st_seq s)) (q_tsn (st_seq s)) (q_rsn (st_seq s))) s else s)).
    assert (∀ c q, (if c : bool then set_lseq q s else s) = set_lseq (st_seq (if c then set_lseq q s else s)) s) as Eq by (intros [] q; by destruct s).
    split; [by destruct (Z.gtb _ _)|]. unfold cbind at 1, cbind at 1, sl_follow, cbind at 1, lmodify. unfold cret at 1, cret at 1. cbv zeta. rewrite Eq. unfold cbind. by rewrite Hrun.
Qed.
Lemma users_commit s s' applied l vs l' : st_vlog s' = tag l vs (st_vlog s) → NoDup vs → (∀ v, v ∈ vs → v ∉ applied) →
  users s' (applied ∪ list_to_set vs) l' = users s applied l' + (if decide (l' = l) then Z.of_nat (length vs) else 0).
Proof.
  intros E Hnd Hdis. unfold users. rewrite E. destruct (decide (l' = l)) as [->|Hne].
  - assert (filter (λ v, tag l vs (st_vlog s) !! v = Some l) (applied ∪ list_to_set vs) = filter (λ v, st_vlog s !! v = Some l) applied ∪ list_to_set vs) as ->.
    { apply leibniz_equiv. intros v. rewrite elem_of_filter, !elem_of_union, elem_of_filter, elem_of_list_to_set, tag_lookup. destruct (decide (v ∈ vs)); naive_solver. }
    rewrite size_union by (intros v; rewrite elem_of_filter, elem_of_list_to_set; naive_solver). rewrite size_list_to_set by done. lia.
  - rewrite Z.add_0_r. do 2 f_equal. apply leibniz_equiv. intros v. rewrite !elem_of_filter, elem_of_union, elem_of_list_to_set, tag_lookup.
    destruct (decide (v ∈ vs)); [split; [naive_solver|intros [? ?]; by destruct (Hdis v)]|naive_solver].
Qed.
(** What a commit leaves: the versions numbered and tagged, the transaction in the last log. *)
Lemma commit_run s applied txs old vlog lsn l x : log_inv s applied txs → l_buf vlog ≠ [] → is_u64 (lsn_of lsn s) → Forall (buf_ok s (lsn_of lsn s)) (l_buf vlog) →
  Z.of_nat (length (l_buf vlog)) < UINT32_MAX → last (p_list (st_pool s)) = Some l → st_logs s !! l = Some x → gc_mark (sl_gcs x) + Z.of_nat (length (l_buf vlog)) <= INT_MAX →
  let tx := tx_of (lsn_of lsn s) s (l_buf vlog) in Z.of_nat (length (o_data (fl_os (sl_file x)) ++ tx_bytes crcf tx)) < 2 ^ 64 →
  ∃ q f', q_lfsn q = q_lfsn (st_seq s) ∧ appended (sl_file x) f' (tx_bytes crcf tx) ∧
    log_commit crcf io old vlog lsn s = Some (0, mk_slst (st_pool s) q (<[l := mk_sl (sl_id x) (sl_gcs (marked (Z.of_nat (length tx)) x)) f']> (st_logs s))
      (relsn (lsn_of lsn s) (lv_v <$> l_buf vlog) (st_v s)) (tag l (lv_v <$> l_buf vlog) (st_vlog s)) (st_dir s)).
Proof.
  intros Hinv Hne Hu Hb Hlen Hl Hx Hm tx Hsz. destruct (prepare_run s vlog lsn Hu Hb) as (q & Hq & Eprep). destruct (tx_of_ok s _ _ Hb Hne Hlen) as [Htx Htl]. fold tx in Htx, Htl.
  set (s1 := set_vs _ _) in Eprep. assert (l ∈ p_list (st_pool s)) as Hin by (by apply last_Some_elem_of). destruct (iv_log _ _ _ Hinv l Hin) as (x' & Hx' & Hh). simplify_eq.
  assert (Forall2 (stmt_of (st_v s1)) (l_buf vlog) tx) as H2.
  { assert (∀ v, v ∈ lv_v <$> l_buf vlog → st_v s1 !! v = with_lsn (lsn_of lsn s) <$> st_v s !! v) as Hs1 by (intros v Hv; cbn [s1 st_v set_vs]; by rewrite relsn_lookup, decide_True).
    pose proof (tx_of_stmts s _ _ Hb) as H2. fold tx in H2. revert Hs1 H2. clear. generalize (l_buf vlog) as buf. intros buf Hs1 H2. induction H2 as [|y st buf tx (w & Hw & Hsz & -> & _) H2 IH]; [constructor|]. constructor.
    - exists (with_lsn (lsn_of lsn s) w). rewrite Hs1 by (rewrite fmap_cons; left). by rewrite Hw.
    - apply IH. intros v Hv. apply Hs1. rewrite fmap_cons. by right. }
  pose proof (iv_pool _ _ _ Hinv) as Hp. pose proof Hp as (Hconf & Hen & _).
  assert (0 <= gc_mark (sl_gcs x)) as Hpos by (rewrite (lh_users _ _ _ _ _ Hh); pose proof (lh_sweep _ _ _ _ _ Hh); unfold users; lia).
  destruct (write_run crcf io conf old (ss_filesvp (sl_file x)) s1 l x vlog tx) as (f' & Ew & Ha); try done; [apply (lh_calm _ _ _ _ _ Hh)|rewrite Htl; lia|].
  exists q, f'. split_and!; [done|done|]. unfold log_commit, cbind at 1. rewrite Eprep. unfold cbind at 1, sl_begin, cbind at 1, rd_pool, cread at 1.
  change (st_pool s1) with (st_pool s). rewrite Hconf, Hen. cbn [negb]. unfold cbind at 1, cassert at 1.
  assert (Z.gtb (p_n (st_pool s)) 0 = true) as ->. { rewrite (iv_n _ _ _ Hinv). rewrite Z.gtb_ltb, Z.ltb_lt. destruct (p_list (st_pool s)); [done|cbn [length]; lia]. }
  unfold cbind at 1, cread at 1. rewrite Hl. unfold cbind at 1, rd_log, cread at 1. change (st_logs s1) with (st_logs s). rewrite Hx. unfold cret at 1.
  unfold cbind. rewrite Ew. done.
Qed.
Lemma inv_commit s applied txs old vlog lsn : log_inv s applied txs → op_ok (LCommit old vlog lsn) (s, applied) →
  ∃ s' txs', run_op (LCommit old vlog lsn) (s, applied) = Some (0, (s', applied ∪ list_to_set (lv_v <$> l_buf vlog))) ∧
    log_inv s' (applied ∪ list_to_set (lv_v <$> l_buf vlog)) txs'.
Proof.
  intros Hinv (Hne & Hnd & Hu & Hb & Hlen & l & x & Hl & Hx & Hm & Hsz). set (L := lsn_of lsn s) in *. set (vs := lv_v <$> l_buf vlog) in *.
  assert (∀ v, v ∈ vs → v ∉ applied) as Hdis. { intros v (y & -> & Hy)%list_elem_of_fmap. by apply (proj1 (Forall_forall _ _) Hb). }
  assert (Forall (buf_ok s L) (l_buf vlog)) as Hb' by (eapply Forall_impl; [exact Hb|]; by intros y [_ ?]).
  destruct (commit_run s applied txs old vlog lsn l x Hinv Hne Hu Hb' Hlen Hl Hx Hm Hsz) as (q & f' & Hq & Ha & E). fold L vs in E, Ha. set (tx := tx_of L s (l_buf vlog)) in *.
  destruct (tx_of_ok s L _ Hb' Hne Hlen) as [Htx Htl]. fold tx in Htx, Htl. set (s' := mk_slst _ _ _ _ _ _) in E.
  exists s', (<[l := txs l ++ [tx]]> txs). cbn [run_op]. rewrite E. split; [done|]. assert (l ∈ p_list (st_pool s)) as Hin by (by apply last_Some_elem_of).
  assert (length vs = length tx) as Hvl by (unfold vs; by rewrite length_fmap). destruct Hinv. assert (q_lfsn (st_seq s') = q_lfsn (st_seq s)) as Hq' by done. split; try done; [by rewrite Hq'| | | |].
  - intros l' Hl'. destruct (iv_log0 l' Hl') as (x' & Hx' & []). pose proof (users_commit s s' applied l vs l' eq_refl Hnd Hdis) as Hus. cbn [st_logs s'].
    destruct (decide (l' = l)) as [->|Hne'].
    + simplify_eq. rewrite lookup_insert_eq, fn_lookup_insert. eexists. split; [done|]. destruct (appended_calm io conf _ _ _ lh_calm0 Ha) as [Hc Hd]; [done|].
      split; cbn [sl_file sl_gcs marked gc_mark gc_sweep gc_complete sl_id st_pool st_seq st_dir s']; try done.
      * rewrite Hd, lh_data0. unfold log_bytes. rewrite <- app_assoc, fmap_app, concat_app. cbn [fmap list_fmap concat]. by rewrite app_nil_r.
      * apply Forall_app. by split; [|apply Forall_singleton].
      * by rewrite Hd.
      * rewrite Hus, lh_users0, Hvl. lia.
      * rewrite Htl. lia.
      * by rewrite <- Hq in lh_id0.
    + rewrite lookup_insert_ne, fn_lookup_insert_ne by done. exists x'. split; [done|]. split; try done; [by rewrite Hus, Z.add_0_r|by rewrite Hq'].
  - intros l1 l2 x1 x2 H1 H2. cbn [st_logs s']. intros E1 E2 Eid. assert (∀ l' x', <[l := mk_sl (sl_id x) (sl_gcs (marked (Z.of_nat (length tx)) x)) f']> (st_logs s) !! l' = Some x' → ∃ x0, st_logs s !! l' = Some x0 ∧ sl_id x0 = sl_id x') as Hid.
    { intros l' x' [[<- <-]|[_ ?]]%lookup_insert_Some; [by exists x|by exists x']. }
    destruct (Hid _ _ E1) as (y1 & Hy1 & I1), (Hid _ _ E2) as (y2 & Hy2 & I2). apply (iv_inj0 l1 l2 y1 y2); try done. by rewrite I1, I2.
  - intros v [Hv|Hv]%elem_of_union.
    + destruct (iv_v0 v Hv) as (w & l' & tx' & st & Hw & Hvl' & Hl' & Htx' & Hst & E1 & E2). assert (v ∉ vs) as Hnv by (intros ?; by apply (Hdis v)).
      exists w, l', tx', st. cbn [st_v st_vlog s']. rewrite relsn_lookup, tag_lookup, !decide_False by done. split_and!; try done.
      destruct (decide (l' = l)) as [->|]; [rewrite fn_lookup_insert; apply elem_of_app; by left|by rewrite fn_lookup_insert_ne].
    + apply elem_of_list_to_set in Hv. cbn [st_v st_vlog s']. pose proof (tx_of_stmts s L _ Hb') as H2. apply list_elem_of_fmap in Hv as Hv'. destruct Hv' as (y & -> & Hy).
      apply list_elem_of_lookup in Hy as [k Hk]. destruct (Forall2_lookup_l _ _ _ _ _ H2 Hk) as (st & Hst & w & Hw & _ & -> & _).
      exists (with_lsn L w), l, tx, (lv_id y, svv_sv (with_lsn L w)). rewrite relsn_lookup, tag_lookup, !decide_True, Hw by done. split_and!; try done.
      * rewrite fn_lookup_insert. apply elem_of_app. right. by apply list_elem_of_singleton.
      * apply list_elem_of_lookup. by exists k.
  - intros v Hv. cbn [st_v st_vlog s'] in *. rewrite relsn_lookup in Hv. rewrite tag_lookup. destruct (decide (v ∈ vs)) as [Hin'|]; [|by apply iv_free0].
    exfalso. apply list_elem_of_fmap in Hin' as (y & -> & Hy). apply (proj1 (Forall_forall _ _) Hb') in Hy as (w & Hw & _). by rewrite Hw in Hv.
Qed.

(** ** Rotation *)

(** A new file has its header only. *)
Lemma new_file ans : Forall (quiet conf) ans → (length ans < io)%nat →
  ∃ f, ss_filewrite io (version_enc sr_version) (mk_file 0 (mk_os [] 0 ans)) = Some (0, f) ∧ calm io conf f ∧ o_data (fl_os f) = log_bytes crcf [].
Proof.
  intros Hq Hio. assert (calm io conf (mk_file 0 (mk_os [] 0 ans))) as Hc by done. assert (log_bytes crcf [] = version_enc sr_version) as -> by (unfold log_bytes; cbn [fmap list_fmap concat]; by rewrite app_nil_r).
  destruct (filewrite_ok io (version_enc sr_version) (mk_file 0 (mk_os [] 0 ans))) as (rc & f & E & HE); [apply (calm_ok _ _ _ Hc)|done|done|].
  destruct HE as [(-> & Hw & Hs)|(_ & Hst & _)]; [|by destruct (quiet_stalls conf ans Hq)]. exists f. split; [done|].
  assert (appended (mk_file 0 (mk_os [] 0 ans)) f (version_enc sr_version)) as Ha by (by split). by destruct (appended_calm io conf _ _ _ Hc Ha).
Qed.
(** The log that was the last is complete; it may have been synced. *)
Definition completed (x : sl) (f : ssfile) : sl := mk_sl (sl_id x) (ss_gccomplete (sl_gcs x)) f.
Definition rotated (s : slst) (x : loc) (q : srseq) (id : Z) (f : ssfile) (logs : gmap loc sl) : slst :=
  mk_slst (set_list (p_list (st_pool s) ++ [x]) (p_n (st_pool s) + 1) (st_pool s)) q (<[x := mk_sl id ss_gcinit f]> logs) (st_v s) (st_vlog s) ({[id]} ∪ st_dir s).
Lemma rotate_run s applied txs x ans : log_inv s applied txs → op_ok (LRotate x ans) (s, applied) →
  ∃ q f logs, q_lfsn q = q_lfsn (st_seq s) + 1 ∧ calm io conf f ∧ o_data (fl_os f) = log_bytes crcf [] ∧
    sl_poolrotate io (Some x) true ans s = Some (0, rotated s x q (q_lfsn q) f logs) ∧
    match last (p_list (st_pool s)) with
    | None => logs = st_logs s
    | Some l => ∃ y f', st_logs s !! l = Some y ∧ appended (sl_file y) f' [] ∧ logs = <[l := completed y f']> (st_logs s)
    end.
Proof.
  intros Hinv (Hx & Hq & Hio & Hlf). pose proof (iv_pool _ _ _ Hinv) as (Hconf & Hen & _). destruct (new_file ans Hq Hio) as (f & Ef & Hc & Hd).
  pose proof (iv_lfsn _ _ _ Hinv) as Hlfsn. assert (∃ q, sr_seq SR_LFSNNEXT (st_seq s) = Some (q_lfsn q, q) ∧ q_lfsn q = q_lfsn (st_seq s) + 1) as (q & Eq & Hq').
  { destruct (st_seq s) as [dsn nsn bsn ls lfsn tsn rsn]. cbn [q_lfsn] in *. cbn [sr_seq sr_seqdo]. rewrite wrap_id by (unfold in_u, UINT32_MAX in *; lia). by eexists (mk_seq _ _ _ _ _ _ _). }
  exists q, f. unfold sl_poolrotate, cbind at 1, rd_pool at 1, cread at 1. rewrite Hconf, Hen. cbn [negb]. unfold cbind at 1, on_lseq. rewrite Eq.
  unfold cbind at 1, sl_new. cbn [negb]. unfold cbind at 1, lmodify at 1. unfold cbind at 1, cread at 1. rewrite Ef. cbn [fst snd Z.eqb]. unfold cbind at 1, lmodify at 1, cret at 1.
  unfold cbind at 1, rd_pool at 1, cread at 1. fields. rewrite (iv_n _ _ _ Hinv).
  destruct (last (p_list (st_pool s))) as [l|] eqn:El.
  - assert (l ∈ p_list (st_pool s)) as Hin by (by apply last_Some_elem_of). destruct (iv_log _ _ _ Hinv l Hin) as (y & Hy & Hh). assert (l ≠ x) as Hlx by (intros ->; by rewrite Hx in Hy).
    assert (c_true (Z.of_nat (length (p_list (st_pool s)))) = true) as -> by (by destruct (p_list (st_pool s))).
    unfold cbind at 1, cbind at 1, cread at 1. unfold cbind at 1, on_gc. fields. rewrite lookup_insert_ne, Hy by done. unfold cret at 1.
    unfold cbind at 1, on_pool, lmodify. fields. rewrite Hconf.
    assert (fl_size (sl_file y) < 2 ^ 64) as Hsz. { destruct (ca_end _ _ _ (lh_calm _ _ _ _ _ Hh)) as [-> _]. apply (lh_size _ _ _ _ _ Hh). }
    destruct (cf_sync_on_rotate conf) eqn:Esync.
    + destruct (sync_calm io conf (sl_file y) (lh_calm _ _ _ _ _ Hh) Hsz) as (f' & Es & Ha); [by rewrite Esync, orb_true_r|].
      unfold cbind at 1, on_file. fields. rewrite lookup_insert_eq. cbn [sl_file]. rewrite Es. cbn [Z.eqb]. exists (<[l := completed y f']> (st_logs s)). split_and!; try done; [|by exists y, f'].
      unfold cret, rotated, set_pool, set_logs. fields. rewrite insert_insert_eq. by rewrite insert_insert_ne by done.
    + exists (<[l := completed y (sl_file y)]> (st_logs s)). split_and!; try done.
      * unfold cret, rotated, set_pool, set_logs. fields. by rewrite insert_insert_ne by done.
      * exists y, (sl_file y). split_and!; try done. pose proof (lh_calm _ _ _ _ _ Hh) as Hcy. destruct (ca_end _ _ _ Hcy) as [Hs1 _].
        destruct (sl_file y) as [sz o] eqn:Ey. apply (appended_answers (mk_file sz o)); cbn [fl_size fl_os] in *; try done; [apply (calm_ok io conf (mk_file sz o) Hcy)|lia].
  - exists (st_logs s). apply last_None in El. rewrite El. split_and!; try done.
Qed.
(** Every log of the list is there after the rotation, the last one complete. *)
Lemma rotated_logs s applied txs logs l y : log_inv s applied txs → match last (p_list (st_pool s)) with
    | None => logs = st_logs s
    | Some l => ∃ y f', st_logs s !! l = Some y ∧ appended (sl_file y) f' [] ∧ logs = <[l := completed y f']> (st_logs s)
    end → l ∈ p_list (st_pool s) → logs !! l = Some y →
  ∃ y0, st_logs s !! l = Some y0 ∧ sl_id y = sl_id y0 ∧ gc_mark (sl_gcs y) = gc_mark (sl_gcs y0) ∧ gc_sweep (sl_gcs y) = gc_sweep (sl_gcs y0) ∧ gc_complete (sl_gcs y) = true ∧
    calm io conf (sl_file y) ∧ o_data (fl_os (sl_file y)) = o_data (fl_os (sl_file y0)).
Proof.
  intros Hinv Hl Hin Hy. destruct (iv_log _ _ _ Hinv l Hin) as (y0 & Hy0 & Hh). destruct (last (p_list (st_pool s))) as [l'|] eqn:El.
  - destruct Hl as (z & f' & Hz & Ha & ->). destruct (decide (l = l')) as [->|Hne].
    + rewrite lookup_insert_eq in Hy. simplify_eq. exists z. destruct (appended_calm io conf _ _ _ (lh_calm _ _ _ _ _ Hh) Ha) as [Hc Hd]; [rewrite app_nil_r; apply (lh_size _ _ _ _ _ Hh)|].
      rewrite app_nil_r in Hd. by split_and!.
    + rewrite lookup_insert_ne in Hy by done. rewrite Hy0 in Hy. injection Hy as <-. exists y0. split_and!; try done; [|apply (lh_calm _ _ _ _ _ Hh)].
      destruct (gc_complete (sl_gcs y0)) eqn:Ec; [done|]. apply (lh_complete _ _ _ _ _ Hh) in Ec. congruence.
  - apply last_None in El. rewrite El in Hin. by apply not_elem_of_nil in Hin.
Qed.
Lemma inv_rotate s applied txs x ans : log_inv s applied txs → op_ok (LRotate x ans) (s, applied) →
  ∃ s' txs', run_op (LRotate x ans) (s, applied) = Some (0, (s', applied)) ∧ log_inv s' applied txs'.
Proof.
  intros Hinv Hop. destruct (rotate_run s applied txs x ans Hinv Hop) as (q & f & logs & Hq & Hc & Hd & E & Hlogs). destruct Hop as (Hx & _ & _ & Hlf).
  exists (rotated s x q (q_lfsn q) f logs), (<[x := []]> txs). cbn [run_op]. rewrite E. split; [done|].
  assert (x ∉ p_list (st_pool s)) as Hxl. { intros Hin. destruct (iv_log _ _ _ Hinv x Hin) as (y & Hy & _). by rewrite Hx in Hy. }
  assert (∀ l y, l ∈ p_list (st_pool s) → <[x := mk_sl (q_lfsn q) ss_gcinit f]> logs !! l = Some y → logs !! l = Some y) as Hlook.
  { intros l y Hin Hy. rewrite lookup_insert_ne in Hy; [done|]. by intros ->. }
  assert (∀ l, l ∈ p_list (st_pool s) → is_Some (logs !! l)) as Hsome.
  { intros l Hin. destruct (iv_log _ _ _ Hinv l Hin) as (y & Hy & _). destruct (last (p_list (st_pool s))) as [l'|]; [|by subst; exists y].
    destruct Hlogs as (z & f' & _ & _ & ->). destruct (decide (l = l')) as [->|]; [by rewrite lookup_insert_eq|rewrite lookup_insert_ne by done; by exists y]. }
  pose proof (iv_pool _ _ _ Hinv) as Hp. pose proof (iv_lfsn _ _ _ Hinv) as Hlfsn.
  assert (∀ l y, l ∈ p_list (st_pool s) → logs !! l = Some y → sl_id y <= q_lfsn (st_seq s)) as Hid.
  { intros l y Hin Hy. destruct (rotated_logs s applied txs logs l y Hinv Hlogs Hin Hy) as (y0 & Hy0 & -> & _). destruct (iv_log _ _ _ Hinv l Hin) as (y1 & Hy1 & Hh). simplify_eq. apply (lh_id _ _ _ _ _ Hh). }
  split; cbn [rotated st_pool st_seq st_logs st_v st_vlog st_dir set_list p_list p_n].
  - done.
  - apply NoDup_app. split_and!; [apply (iv_nodup _ _ _ Hinv)|set_solver|apply NoDup_singleton].
  - rewrite (iv_n _ _ _ Hinv), length_app. cbn [length]. lia.
  - lia.
  - intros l [Hin|Hin]%elem_of_app.
    + destruct (Hsome l Hin) as [y Hy]. destruct (rotated_logs s applied txs logs l y Hinv Hlogs Hin Hy) as (y0 & Hy0 & I1 & I2 & I3 & I4 & I5 & I6).
      destruct (iv_log _ _ _ Hinv l Hin) as (y1 & Hy1 & []). simplify_eq. assert (l ≠ x) as Hne by (by intros ->).
      exists y. rewrite lookup_insert_ne, fn_lookup_insert_ne by done. split; [done|]. split; try done; [by rewrite I6|by rewrite I6|by rewrite I2, I3|by rewrite I3|by rewrite I2| | |].
      * rewrite I4. split; [done|]. cbn [rotated st_pool set_list p_list]. rewrite last_snoc. congruence.
      * cbn [rotated st_seq]. rewrite I1. lia.
      * cbn [rotated st_dir]. rewrite I1. set_solver.
    + apply list_elem_of_singleton in Hin as ->. rewrite lookup_insert_eq, fn_lookup_insert. eexists. split; [done|]. split; cbn [sl_file sl_gcs sl_id ss_gcinit gc_mark gc_sweep gc_complete]; try done.
      * rewrite Hd. apply Z.lt_trans with 100; [|done]. unfold log_bytes. rewrite length_app. cbn. lia.
      * unfold users. assert (filter (λ v, st_vlog (rotated s x q (q_lfsn q) f logs) !! v = Some x) applied = ∅) as ->; [|done].
        apply leibniz_equiv. intros v. rewrite elem_of_filter. cbn [rotated st_vlog]. split; [|set_solver]. intros [Hv Hin]. destruct (iv_v _ _ _ Hinv v Hin) as (w & l & _ & _ & _ & Hvl & Hl & _). exfalso. congruence.
      * cbn [rotated st_pool set_list p_list]. by rewrite last_snoc.
      * cbn [rotated st_dir]. set_solver.
  - intros l1 l2 x1 x2 [H1|H1]%elem_of_app [H2|H2]%elem_of_app E1 E2 Eid.
    + apply Hlook in E1; [|done]. apply Hlook in E2; [|done]. destruct (rotated_logs s applied txs logs l1 x1 Hinv Hlogs H1 E1) as (y1 & Hy1 & I1 & _), (rotated_logs s applied txs logs l2 x2 Hinv Hlogs H2 E2) as (y2 & Hy2 & I2 & _).
      apply (iv_inj _ _ _ Hinv l1 l2 y1 y2); try done. congruence.
    + apply list_elem_of_singleton in H2 as ->. rewrite lookup_insert_eq in E2. simplify_eq. apply Hlook in E1; [|done]. pose proof (Hid l1 x1 H1 E1). cbn [sl_id] in Eid. lia.
    + apply list_elem_of_singleton in H1 as ->. rewrite lookup_insert_eq in E1. simplify_eq. apply Hlook in E2; [|done]. pose proof (Hid l2 x2 H2 E2). cbn [sl_id] in Eid. lia.
    + apply list_elem_of_singleton in H1 as ->. by apply list_elem_of_singleton in H2 as ->.
  - intros v Hv. destruct (iv_v _ _ _ Hinv v Hv) as (w & l & tx & st & Hw & Hvl & Hl & Htx & Hr). exists w, l, tx, st. assert (l ≠ x) by (by intros ->).
    rewrite fn_lookup_insert_ne by done. split_and!; try done; [set_solver|apply Hr..].
  - apply (iv_free _ _ _ Hinv).
Qed.

(** ** Garbage collection *)

Lemma last_filter_ne (l : loc) ls : last ls ≠ Some l → last (filter (λ k, k ≠ l) ls) = last ls.
Proof.
  induction ls as [|z ls _] using rev_ind; [done|]. rewrite last_snoc. intros Hz. rewrite filter_app. assert (z ≠ l) by congruence.
  rewrite filter_cons_True, filter_nil by done. by rewrite last_snoc.
Qed.
Lemma length_filter_ne (l : loc) ls : NoDup ls → l ∈ ls → S (length (filter (λ k, k ≠ l) ls)) = length ls.
Proof.
  intros Hnd Hin. apply list_elem_of_split in Hin as (l1 & l2 & ->). apply NoDup_app in Hnd as (_ & H1 & H2). apply NoDup_cons in H2 as [H2 _].
  rewrite filter_app, filter_cons_False by (intros ?; done). rewrite !filter_all; [rewrite !length_app; cbn [length]; lia|..]; intros k Hk ->; [done|]. by apply (H1 l Hk); left.
Qed.
(** No applied version is in a log that is garbage. *)
Lemma garbage_unused s applied l x txs : log_holds s applied l x txs → ss_gcgarbage (sl_gcs x) = true → last (p_list (st_pool s)) ≠ Some l ∧ ∀ v, v ∈ applied → st_vlog s !! v ≠ Some l.
Proof.
  intros Hh [Hc Hm%Z.eqb_eq]%andb_true_iff. split.
  - intros Hl%(lh_complete _ _ _ _ _ Hh). congruence.
  - intros v Hv Hvl. pose proof (lh_users _ _ _ _ _ Hh) as Hu. assert (users s applied l = 0) as Hz by lia. unfold users in Hz.
    assert (v ∈ filter (λ v, st_vlog s !! v = Some l) applied) as Hin by (by apply elem_of_filter). assert (size (filter (λ v, st_vlog s !! v = Some l) applied) = 0%nat) as Hs by lia.
    apply size_empty_inv in Hs. set_solver.
Qed.
Lemma inv_drop s applied txs l x logs dir : log_inv s applied txs → l ∈ p_list (st_pool s) → st_logs s !! l = Some x → ss_gcgarbage (sl_gcs x) = true →
  (∀ k, k ≠ l → logs !! k = st_logs s !! k) → st_dir s ∖ {[sl_id x]} ⊆ dir →
  log_inv (mk_slst (set_list (filter (λ k, k ≠ l) (p_list (st_pool s))) (p_n (st_pool s) - 1) (st_pool s)) (st_seq s) logs (st_v s) (st_vlog s) dir) applied txs.
Proof.
  intros Hinv Hl Hx Hg Hlogs Hdir. pose proof (iv_inj _ _ _ Hinv) as Hinj. destruct (iv_log _ _ _ Hinv l Hl) as (x' & Hx' & Hh). rewrite Hx in Hx'. injection Hx' as <-.
  destruct (garbage_unused _ _ _ _ _ Hh Hg) as [Hlast Hunused].
  split; cbn [st_pool st_seq st_logs st_v st_vlog st_dir set_list p_list p_n].
  - apply (iv_pool _ _ _ Hinv).
  - apply NoDup_filter, (iv_nodup _ _ _ Hinv).
  - rewrite (iv_n _ _ _ Hinv), <- (length_filter_ne l _ (iv_nodup _ _ _ Hinv) Hl). lia.
  - apply (iv_lfsn _ _ _ Hinv).
  - intros k [Hne Hk]%list_elem_of_filter. destruct (iv_log _ _ _ Hinv k Hk) as (y & Hy & Hh'). exists y. rewrite Hlogs by done. split; [done|]. destruct Hh'. split; try done.
    + cbn [st_pool set_list p_list]. by rewrite last_filter_ne.
    + cbn [st_dir]. apply Hdir. apply elem_of_difference. split; [done|]. rewrite elem_of_singleton. intros Eid. apply Hne. by apply (Hinj k l y x).
  - intros l1 l2 x1 x2 [N1 H1]%list_elem_of_filter [N2 H2]%list_elem_of_filter E1 E2. rewrite Hlogs in E1, E2 by done. by apply Hinj.
  - intros v Hv. destruct (iv_v _ _ _ Hinv v Hv) as (w & k & tx & st & Hw & Hvl & Hk & Hr). exists w, k, tx, st. split_and!; try done; [|apply Hr..].
    apply list_elem_of_filter. split; [|done]. intros ->. by apply (Hunused v).
  - apply (iv_free _ _ _ Hinv).
Qed.
Lemma garbage_run s ls : (∀ l, l ∈ ls → is_Some (st_logs s !! l)) → ∃ r, garbage_of ls s = Some (r, s) ∧
  match r with
  | Some l => l ∈ ls ∧ ∃ x, st_logs s !! l = Some x ∧ ss_gcgarbage (sl_gcs x) = true
  | None => ∀ l x, l ∈ ls → st_logs s !! l = Some x → ss_gcgarbage (sl_gcs x) = false
  end.
Proof.
  induction ls as [|l ls IH]; intros Hs; [exists None; split; [done|]; intros ? ? Hl; by apply not_elem_of_nil in Hl|].
  destruct (Hs l) as [x Hx]; [by left|]. cbn [garbage_of]. unfold cbind, rd_log, cread. rewrite Hx. destruct (ss_gcgarbage (sl_gcs x)) eqn:Eg.
  - exists (Some l). split; [done|]. split; [by left|by exists x].
  - destruct IH as (r & E & Hr); [intros k Hk; apply Hs; by right|]. exists r. split; [done|]. destruct r as [k|].
    + destruct Hr as [Hk Hr]. split; [by right|done].
    + intros k y [->|Hk]%elem_of_cons Hy; [congruence|by apply (Hr k)].
Qed.
(** Nothing more to collect: every log but the last holds an applied version. *)
Definition collected (s : slst) (applied : gset loc) : Prop :=
  ∀ l, l ∈ p_list (st_pool s) → last (p_list (st_pool s)) = Some l ∨ ∃ v, v ∈ applied ∧ st_vlog s !! v = Some l.
Lemma not_garbage s applied l x txs : log_holds s applied l x txs → ss_gcgarbage (sl_gcs x) = false → last (p_list (st_pool s)) = Some l ∨ ∃ v, v ∈ applied ∧ st_vlog s !! v = Some l.
Proof.
  intros Hh Hg. destruct (gc_complete (sl_gcs x)) eqn:Ec; [right|left; by apply (lh_complete _ _ _ _ _ Hh)]. unfold ss_gcgarbage in Hg. rewrite Ec in Hg. cbn [andb] in Hg.
  apply Z.eqb_neq in Hg. rewrite (lh_users _ _ _ _ _ Hh) in Hg. unfold users in Hg. assert (0 < size (filter (λ v, st_vlog s !! v = Some l) applied))%nat as Hs by lia.
  apply size_pos_elem_of in Hs as [v Hv]. apply elem_of_filter in Hv as [? ?]. by exists v.
Qed.
Lemma poolgc_run fuel applied txs : ∀ s, log_inv s applied txs → (length (p_list (st_pool s)) < fuel)%nat →
  ∃ rc s', poolgc_loop unlinked closed fuel s = Some (rc, s') ∧ log_inv s' applied txs ∧ (rc = 0 → p_gc (st_pool s) = true → collected s' applied).
Proof.
  induction fuel as [|fuel IH]; intros s Hinv Hf; [lia|]. cbn [poolgc_loop]. unfold cbind at 1, rd_pool at 1, cread at 1.
  destruct (p_gc (st_pool s)) eqn:Egc; cbn [negb]; [|eexists _, s; by split_and!].
  destruct (garbage_run s (p_list (st_pool s))) as (r & E & Hr). { intros l Hl. destruct (iv_log _ _ _ Hinv l Hl) as (x & Hx & _). by exists x. }
  unfold cbind at 1. rewrite E. destruct r as [l|].
  - destruct Hr as (Hl & x & Hx & Hg). unfold cbind at 1, on_pool, lmodify. pose proof (length_filter_ne l _ (iv_nodup _ _ _ Hinv) Hl) as Hlen.
    unfold cbind at 1, sl_gc, cbind at 1, rd_log, cread at 1. fields. rewrite Hx. destruct (unlinked (sl_id x)); cbn [negb].
    + unfold cbind at 1, lmodify. unfold cbind at 1, sl_close, cbind at 1, rd_log, cread at 1. fields. rewrite Hx. unfold cbind at 1, free_log. fields. rewrite Hx. unfold cret at 1.
      set (s1 := set_logs _ _). assert (log_inv s1 applied txs) as Hinv1. { apply (inv_drop s applied txs l x); try done. intros k Hk. by rewrite lookup_delete_ne. }
      destruct (closed (sl_id x)); cbn [Z.eqb]; [|eexists _, s1; by split_and!]. unfold cret. cbn [Z.eqb]. destruct (IH s1 Hinv1) as (rc & s' & E' & Hinv' & Hc'); [cbn; lia|]. exists rc, s'. split_and!; try done.
      intros -> _. by apply Hc'.
    + unfold cret. cbn [Z.eqb]. eexists _, _. split; [done|]. split; [|done]. apply (inv_drop s applied txs l x); try done. set_solver.
  - eexists _, s. split; [done|]. split; [done|]. intros _ _ l Hl. destruct (iv_log _ _ _ Hinv l Hl) as (x & Hx & Hh). apply (not_garbage _ _ _ _ _ Hh). by apply (Hr l x).
Qed.

(** ** Freeing versions *)

Definition swept (x : sl) : sl := mk_sl (sl_id x) (mk_gc (gc_mark (sl_gcs x)) (gc_sweep (sl_gcs x) + 1) (gc_complete (sl_gcs x))) (sl_file x).
Lemma users_free s s' applied v l : st_vlog s' = delete v (st_vlog s) → v ∈ applied →
  users s' (applied ∖ {[v]}) l = users s applied l - (if decide (st_vlog s !! v = Some l) then 1 else 0).
Proof.
  intros E Hv. unfold users. rewrite E. assert (filter (λ u, delete v (st_vlog s) !! u = Some l) (applied ∖ {[v]}) = filter (λ u, st_vlog s !! u = Some l) applied ∖ {[v]}) as ->.
  { apply leibniz_equiv. intros u. rewrite elem_of_difference, !elem_of_filter, elem_of_difference, elem_of_singleton. destruct (decide (u = v)) as [->|Hne]; [naive_solver|]. rewrite lookup_delete_ne by done. naive_solver. }
  destruct (decide (st_vlog s !! v = Some l)) as [Hl|Hl].
  - assert (v ∈ filter (λ u, st_vlog s !! u = Some l) applied) as Hin by (by apply elem_of_filter). rewrite size_difference by set_solver. rewrite size_singleton.
    assert (size (filter (λ u, st_vlog s !! u = Some l) applied) ≠ 0%nat); [|lia]. intros H0%size_empty_inv. set_solver.
  - rewrite Z.sub_0_r. do 2 f_equal. apply leibniz_equiv. intros u. rewrite elem_of_difference, elem_of_filter, elem_of_singleton. naive_solver.
Qed.
Definition freed (s : slst) (v l : loc) (x : sl) : slst :=
  set_vlog (delete v (st_vlog s)) (set_vs (delete v (st_v s)) (set_logs (<[l := swept x]> (st_logs s)) s)).
Lemma inv_freed s applied txs v l x : log_inv s applied txs → v ∈ applied → st_vlog s !! v = Some l → st_logs s !! l = Some x → log_inv (freed s v l x) (applied ∖ {[v]}) txs.
Proof.
  intros Hinv Hv Hvl Hx. pose proof (users_free s (freed s v l x) applied v) as Hus. destruct Hinv. split; try done.
  - intros k Hk. destruct (iv_log0 k Hk) as (y & Hy & []). specialize (Hus k eq_refl Hv). change (st_logs (freed s v l x)) with (<[l := swept x]> (st_logs s)). destruct (decide (k = l)) as [->|Hne].
    + rewrite Hx in Hy. injection Hy as <-. rewrite lookup_insert_eq. exists (swept x). split; [done|]. rewrite decide_True in Hus by done. split; try done; cbn [swept sl_gcs gc_mark gc_sweep]; [|lia]. rewrite Hus. lia.
    + rewrite lookup_insert_ne by done. exists y. split; [done|]. rewrite decide_False in Hus by congruence. split; try done. rewrite Hus. lia.
  - intros l1 l2 x1 x2 H1 H2 E1 E2 Eid. unfold freed in E1, E2. cbn [st_logs set_vlog set_vs set_logs] in E1, E2.
    assert (∀ k y, <[l := swept x]> (st_logs s) !! k = Some y → ∃ y0, st_logs s !! k = Some y0 ∧ sl_id y0 = sl_id y) as Hid by (intros k y [[<- <-]|[_ ?]]%lookup_insert_Some; [by exists x|by exists y]).
    destruct (Hid _ _ E1) as (y1 & Hy1 & I1), (Hid _ _ E2) as (y2 & Hy2 & I2). apply (iv_inj0 l1 l2 y1 y2); try done. by rewrite I1, I2.
  - intros u [Hu Hne]%elem_of_difference. rewrite elem_of_singleton in Hne. destruct (iv_v0 u Hu) as (w & k & tx & st & Hr). exists w, k, tx, st. unfold freed. fields. rewrite !lookup_delete_ne by congruence. exact Hr.
  - intros u Hu. change (delete v (st_v s) !! u = None) in Hu. change (delete v (st_vlog s) !! u = None). destruct (decide (u = v)) as [->|Hne]; [by rewrite lookup_delete_eq|]. rewrite lookup_delete_ne in Hu by congruence. rewrite lookup_delete_ne by congruence. by apply iv_free0.
Qed.
Lemma chain_delete h v x vs : chain h v vs → x ∉ vs → chain (delete x h) v vs.
Proof.
  revert v. induction vs as [|y vs IH]; intros v; cbn [chain]; [done|]. intros (-> & w & Hw & Hc) Hx. split; [done|]. exists w. apply not_elem_of_cons in Hx as [Hxy Hx].
  rewrite lookup_delete_ne by done. split; [done|]. by apply IH.
Qed.
Lemma gcv_run vs txs : ∀ fuel v used s applied, log_inv s applied txs → chain (st_v s) v vs → NoDup vs → Forall (.∈ applied) vs → (length vs < fuel)%nat →
  ∃ u s', si_gcv fuel v used s = Some (u, s') ∧ log_inv s' (applied ∖ list_to_set vs) txs ∧ ∀ y, st_v s' !! y = if decide (y ∈ vs) then None else st_v s !! y.
Proof.
  induction vs as [|x vs IH]; intros fuel v used s applied Hinv Hc Hnd Hall Hf; (destruct fuel as [|fuel]; [lia|]); cbn [chain] in Hc.
  - subst v. eexists _, s. split; [done|]. split; [by rewrite list_to_set_nil, difference_empty_L|]. intros y. by rewrite decide_False by apply not_elem_of_nil.
  - destruct Hc as (-> & w & Hw & Hc). apply NoDup_cons in Hnd as [Hx Hnd]. apply Forall_cons in Hall as [Hxa Hall]. cbn [si_gcv].
    destruct (iv_v _ _ _ Hinv x Hxa) as (w' & l & _ & _ & _ & Hvl & Hl & _). destruct (iv_log _ _ _ Hinv l Hl) as (z & Hz & Hh).
    pose proof (users_free s (freed s x l z) applied x l eq_refl Hxa) as Hus. rewrite decide_True in Hus by done. assert (0 <= users (freed s x l z) (applied ∖ {[x]}) l) by (unfold users; lia).
    pose proof (lh_users _ _ _ _ _ Hh) as Hu. pose proof (lh_mark _ _ _ _ _ Hh) as Hm. pose proof (lh_sweep _ _ _ _ _ Hh) as Hsw.
    unfold cbind at 1, cread. rewrite Hw. unfold cbind at 1, cget. rewrite Hvl. unfold cbind at 1, on_gc. rewrite Hz. unfold ss_gcsweep, int_add.
    rewrite (proj2 (Z.leb_le (-2147483648) _)), (proj2 (Z.leb_le _ INT_MAX)) by lia. cbn [andb mbind option_bind]. unfold cbind at 1, lmodify. fold (swept z). fields.
    change (set_vlog _ _) with (freed s x l z). destruct (IH fuel (v_next w) (u32 (used + u32 (sizeof_svv + v_size w))) (freed s x l z) (applied ∖ {[x]})) as (u & s' & E & Hinv' & Hs').
    + by apply inv_freed.
    + unfold freed. fields. by apply chain_delete.
    + done.
    + apply Forall_forall. intros y Hy. apply (proj1 (Forall_forall _ _) Hall) in Hy as Hya. apply elem_of_difference. split; [done|]. rewrite elem_of_singleton. by intros ->.
    + cbn [length] in Hf. lia.
    + exists u, s'. split; [done|]. split; [by rewrite list_to_set_cons, <- difference_difference_l_L|]. intros y. rewrite Hs'. unfold freed. fields. destruct (decide (y = x)) as [->|Hne].
      * rewrite lookup_delete_eq, (decide_True (P := x ∈ x :: vs)) by (by left). by destruct (decide (x ∈ vs)).
      * rewrite lookup_delete_ne by done. destruct (decide (y ∈ vs)); [rewrite decide_True by (by right)|rewrite decide_False by (by intros [?|?]%elem_of_cons)]; done.
Qed.

(** ** Any run *)

Lemma chain_fits h v vs : chain h v vs → NoDup vs → (length vs <= size h)%nat.
Proof.
  intros Hc Hnd. rewrite <- (size_list_to_set (C := gset loc) vs Hnd), <- (size_dom h). apply subseteq_size. intros x Hx%elem_of_list_to_set. apply elem_of_dom.
  clear Hnd. revert v Hc. induction vs as [|y vs IH]; intros v; [by apply not_elem_of_nil in Hx|]. cbn [chain]. intros (_ & w & Hw & Hc). apply elem_of_cons in Hx as [->|Hx]; [by exists w|by eapply IH].
Qed.
Lemma op_run s applied txs op : log_inv s applied txs → op_ok op (s, applied) →
  ∃ rc s' applied' txs', run_op op (s, applied) = Some (rc, (s', applied')) ∧ log_inv s' applied' txs' ∧ (op = LGc → rc = 0 → p_gc (st_pool s) = true → collected s' applied').
Proof.
  intros Hinv Hop. destruct op as [v w|old vlog lsn|v next dup|v|x ans| |b].
  - eexists _, _, _, txs. split; [done|]. split; [by apply inv_new|done].
  - destruct (inv_commit s applied txs old vlog lsn Hinv Hop) as (s' & txs' & E & H'). eexists _, _, _, txs'. by split.
  - cbn [op_ok] in Hop. destruct (iv_v _ _ _ Hinv v Hop) as (w & _ & _ & _ & Hw & _). cbn [run_op]. rewrite Hw. eexists _, _, _, txs. split; [done|]. split; [by apply inv_index|done].
  - destruct Hop as (vs & Hc & Hnd & Hall). pose proof (chain_fits _ _ _ Hc Hnd) as Hsz.
    destruct (gcv_run vs txs (S (size (st_v s))) (Some v) 0 s applied Hinv Hc Hnd Hall) as (u & s' & E & Hinv' & Hs'); [lia|]. cbn [run_op]. rewrite E. eexists _, _, _, txs. split; [done|]. split; [|done].
    assert (applied ∩ dom (st_v s') = applied ∖ list_to_set vs) as ->; [|done]. apply leibniz_equiv. intros y. rewrite elem_of_intersection, elem_of_difference, elem_of_dom, elem_of_list_to_set, Hs'.
    destruct (decide (y ∈ vs)) as [Hy|Hy]; [split; [intros [_ []]; done|naive_solver]|]. split; [naive_solver|]. intros [Ha _]. split; [done|]. destruct (iv_v _ _ _ Hinv y Ha) as (w & _ & _ & _ & Hw & _). by exists w.
  - destruct (inv_rotate s applied txs x ans Hinv Hop) as (s' & txs' & E & H'). eexists _, _, _, txs'. by split.
  - pose proof (iv_pool _ _ _ Hinv) as (Hconf & Hen & _). destruct (poolgc_run (S (length (p_list (st_pool s)))) applied txs s Hinv) as (rc & s' & E & Hinv' & Hc); [lia|].
    cbn [run_op]. unfold sl_poolgc, cbind at 1, rd_pool, cread. rewrite Hconf, Hen. cbn [negb]. rewrite E. eexists _, _, _, txs. split; [done|]. split; [done|]. intros _. exact Hc.
  - destruct (inv_enable s applied txs b Hinv) as (s' & E & H'). cbn [run_op]. rewrite E. eexists _, _, _, txs. by split.
Qed.
Lemma reachable_inv st : reachable st → ∃ txs, log_inv st.1 st.2 txs.
Proof.
  induction 1 as [q h Hq Hen|[s applied] op rc [s' applied'] _ [txs Hinv] Hop E]; [eexists; by apply inv_init|].
  destruct (op_run s applied txs op Hinv Hop) as (rc' & s'' & applied'' & txs' & E' & Hinv' & _). rewrite E in E'. simplify_eq. by exists txs'.
Qed.
End runs.

(** * Properties *)

(** A version can be read back from the log [x]. *)
Definition recoverable (crcf : Z → bytes → Z) (x : sl) (w : svv) : Prop :=
  ∃ txs tx dsn flags, tx ∈ txs ∧ (dsn, mk_sv (v_lsn w) flags (v_data w)) ∈ tx ∧
    ∀ check declared fuel, Forall (all_declared declared) txs → (length (concat txs) < fuel)%nat →
      se_recoverlog crcf check declared fuel true (o_data (fl_os (sl_file x))) = Some ((0, txs), o_data (fl_os (sl_file x))).


(** ** Witness: a transaction of two versions in a log, the second of which went to disk *)
Definition demo_slconf : slconf := mk_slconf true true true.
Definition demo_svv (data : bytes) : svv := mk_svv 0 (Z.of_nat (length data)) 0 None data.
Definition demo_vlog : svlog loc := mk_log [] [mk_logv 1%positive None 1 1; mk_logv 2%positive None 1 UINT32_MAX].
Definition demo_lstate : lstate := (mk_slst (sl_poolinit demo_slconf) sr_seqinit ∅ (<[1%positive := demo_svv [7]]> (<[2%positive := demo_svv [8; 9]]> ∅)) ∅ ∅, ∅).
Definition demo_ops : list lop := [LRotate 1%positive []; LCommit 0 demo_vlog 0; LRotate 2%positive []; LFree 2%positive; LGc].
Fixpoint run_ops (ops : list lop) (st : lstate) : option lstate :=
  match ops with
  | [] => Some st
  | op :: ops => match run_op demo_sum 1 (λ _, true) (λ _, true) op st with Some (_, st) => run_ops ops st | None => None end
  end.
Definition demo_end (n : nat) : lstate := default demo_lstate (run_ops (take n demo_ops) demo_lstate).
Lemma demo_reachable : reachable demo_sum 1 demo_slconf (λ _, true) (λ _, true) (demo_end 5).
Proof.
  assert (reachable demo_sum 1 demo_slconf (λ _, true) (λ _, true) (demo_end 0)) as R0 by (by apply reach_init).
  assert (reachable demo_sum 1 demo_slconf (λ _, true) (λ _, true) (demo_end 1)) as R1.
  { eapply (reach_step _ _ _ _ _ _ (LRotate 1%positive [])); [exact R0| |vm_compute; reflexivity]. split_and!; [by vm_compute|constructor|cbn; lia|by vm_compute]. }
  assert (reachable demo_sum 1 demo_slconf (λ _, true) (λ _, true) (demo_end 2)) as R2.
  { eapply (reach_step _ _ _ _ _ _ (LCommit 0 demo_vlog 0)); [exact R1| |vm_compute; reflexivity]. rewrite (surjective_pairing (demo_end 1)). cbn [op_ok]. split_and!; [done|by repeat (constructor; [set_solver|]); constructor|by vm_compute| |by vm_compute|].
    - constructor; [|constructor; [|constructor]]; (split; [apply not_elem_of_empty|]); eexists; (split; [by vm_compute|]); (split; [done|]); split_and!; try done; by left.
    - eexists _, _. split_and!; [by vm_compute|by vm_compute|by vm_compute|by vm_compute]. }
  assert (reachable demo_sum 1 demo_slconf (λ _, true) (λ _, true) (demo_end 3)) as R3.
  { eapply (reach_step _ _ _ _ _ _ (LRotate 2%positive [])); [exact R2| |vm_compute; reflexivity]. rewrite (surjective_pairing (demo_end 2)). cbn [op_ok]. split_and!; [by vm_compute|constructor|cbn; lia|by vm_compute]. }
  assert (reachable demo_sum 1 demo_slconf (λ _, true) (λ _, true) (demo_end 4)) as R4.
  { eapply (reach_step _ _ _ _ _ _ (LFree 2%positive)); [exact R3| |vm_compute; reflexivity]. rewrite (surjective_pairing (demo_end 3)). cbn [op_ok]. exists [2%positive]. split_and!; [|by repeat (constructor; [set_solver|]); constructor|].
    - split; [done|]. eexists. split; by vm_compute.
    - constructor; [|constructor]. by vm_compute. }
  eapply (reach_step _ _ _ _ _ _ LGc); [exact R4| |vm_compute; reflexivity]. by rewrite (surjective_pairing (demo_end 4)).
Qed.
