(* ===== verification/SdRecover.v ===== *)
(** Finding the branches of a file when a node is opened: ss_mmap.c, sd_recover.c, and
    [si_noderecover] and [si_nodeopen] of si_node.c.  A branch that was not written to its end
    is cut off. *)
From stdpp Require Import base list sorting sets.
From S2P Require Import Prelude SsOrder Sv SsBytes SsBuf SsFilter Sf Sr SrScheme SvMerge SvUpdate SvRead SdPage SdPageRep SdPageKv SdPageSpec SdBuild SdBuildProofs SdBuildKv SdBuildSpec SdIndex SdIndexIter SdIndexBuild SdMerge SdMergeProofs SsFile SdCommit SdIter SiBranch SsCrc.
Local Open Scope Z_scope.
Local Open Scope c_scope.

(** * Maps of files *)

(** The size of a page of the system's memory. *)
Definition PAGE : nat := Z.to_nat 4096.
Definition page_up (n : nat) : nat := ((n + (PAGE - 1)) / PAGE * PAGE)%nat.
(** The memory of a map of [size] bytes: the bytes of the file and zeros to the end of their last
    page; an access behind it is a fault. *)
Definition map_memory (size : nat) (data : bytes) : bytes := take (page_up size) (data ++ replicate (page_up (length data) - length data) 0).
Record ssmmap := mk_mmap { mm_p : option bytes; mm_size : nat }.
Definition ss_mmapinit : ssmmap := mk_mmap None 0.
Definition ss_mmap (size : Z) (m : ssmmap) : cmd ssfile (Z * ssmmap) :=
  let! ok := on_os sys_answer in
  let! f := cget in
  cret (if ok : bool then (0, mk_mmap (Some (map_memory (Z.to_nat size) (o_data (fl_os f)))) (Z.to_nat size)) else (-1, mk_mmap None (mm_size m))).
Definition ss_munmap (m : ssmmap) : cmd ssfile (Z * ssmmap) :=
  match mm_p m with
  | None => cret (0, m)
  | Some _ => let! ok := on_os sys_answer in cret (if ok : bool then 0 else -1, mk_mmap None (mm_size m))
  end.

(** * The iterator over branches *)

(** The file, and of the error state its type. *)
Record recst := mk_recst { rs_file : ssfile; rs_e : srerrortype }.
Definition on_rfile {A} (m : cmd ssfile A) : cmd recst A := λ s,
  match m (rs_file s) with Some (a, f) => Some (a, mk_recst f (rs_e s)) | None => None end.
(** [sr_malfunction] and [sr_errorreset] *)
Definition malfunction : cmd recst () := λ s, Some ((), mk_recst (rs_file s) SR_ERROR_MALFUNCTION).
Definition errorreset : cmd recst () := λ s, Some ((), mk_recst (rs_file s) SR_ERROR_NONE).

(** Pointers into the map are offsets. *)
Record sdrecover := mk_recover { rv_corrupt : bool; rv_actual : option nat; rv_v : option nat; rv_map : ssmmap }.
Definition rv_end (i : sdrecover) : sdrecover := mk_recover (rv_corrupt i) (rv_actual i) None (rv_map i).
Definition rv_broken (i : sdrecover) : sdrecover := mk_recover true (rv_actual i) None (rv_map i).
Definition rv_found (at_ : nat) (i : sdrecover) : sdrecover := mk_recover (rv_corrupt i) (Some at_) (Some at_) (rv_map i).
Definition with_map (m : ssmmap) (i : sdrecover) : sdrecover := mk_recover (rv_corrupt i) (rv_actual i) (rv_v i) m.

Definition seal_at (o : nat) (m : bytes) : option sdseal :=
  crc ← load_le o 4 m; icrc ← load_le (o + 4) 4 m; off ← load_le (o + 8) 8 m; Some (mk_sdseal crc icrc off).
(** Where the branch with this header at [start] ends. *)
Definition branch_end (start : nat) (h : sdindexheader) : nat :=
  (start + sizeof_sdindexheader + Z.to_nat (x_size h) + Z.to_nat (x_total h) + Z.to_nat (x_extension h) + sizeof_sdseal)%nat.
(** The header at a place of the map; without a map it is a fault. *)
Definition recover_h (i : sdrecover) (o : nat) : cmd recst sdindexheader := cread (λ _, m ← mm_p (rv_map i); idxheader_at o m).

Section model.
Context (crcf : Z → bytes → Z).

Definition sd_recovernext_of (next : option nat) (i : sdrecover) : cmd recst (Z * sdrecover) :=
  match next with
  | None => cret (0, i)
  | Some start =>
      let eof := mm_size (rv_map i) in
      if Nat.eqb start eof then cret (0, rv_end i) else
      let! bytes := cread (λ _, m ← mm_p (rv_map i); mem_read start sizeof_sdindexheader m) in
      let! h := recover_h i start in
      if negb (Z.eqb (x_crc h) (ss_crcs crcf bytes 0)) then malfunction;;; cret (-1, rv_broken i) else
      if negb (sr_versioncheck (x_version h)) then malfunction;;; cret (-1, i) else
      let end_ := branch_end start h in
      if (eof <? start)%nat || (eof <? end_)%nat then malfunction;;; cret (-1, rv_broken i) else
      let! s := cread (λ _, m ← mm_p (rv_map i); seal_at (end_ - sizeof_sdseal) m) in
      if Z.eqb (sd_sealvalidate crcf s h) (-1) then malfunction;;; cret (-1, rv_broken i) else
      cret (1, rv_found start i)
  end.
Definition sd_recover_open : cmd recst (Z * sdrecover) :=
  let ri := mk_recover false None None ss_mmapinit in
  let! s := cget in
  let size := fl_size (rs_file s) in
  if Z.ltb size (Z.of_nat (sizeof_sdindexheader + sizeof_sdseal)) then malfunction;;; cret (-1, rv_broken ri) else
  let! res := on_rfile (ss_mmap size (rv_map ri)) in
  let ri := with_map res.2 ri in
  if Z.eqb res.1 (-1) then malfunction;;; cret (-1, ri) else
  let! res := sd_recovernext_of (Some 0%nat) ri in
  if Z.eqb res.1 (-1) then
    let! m := on_rfile (ss_munmap (rv_map res.2)) in
    cret (res.1, with_map m.2 res.2)
  else cret res.
Definition sd_recoverclose (i : sdrecover) : cmd recst () := let! _ := on_rfile (ss_munmap (rv_map i)) in cret ().
Definition sd_recoverhas (i : sdrecover) : bool := match rv_v i with Some _ => true | None => false end.
Definition sd_recoverof (i : sdrecover) : option nat := rv_v i.
Definition sd_recovernext (i : sdrecover) : cmd recst sdrecover :=
  match rv_v i with
  | None => cret i
  | Some v =>
      let! h := recover_h i v in
      let! res := sd_recovernext_of (Some (branch_end v h)) i in
      cret res.2
  end.
Definition sd_recover_complete (i : sdrecover) : cmd recst Z :=
  match rv_actual i with
  | None => cret (-1)
  | Some a =>
      if negb (rv_corrupt i) then cret 0 else
      let! h := recover_h i a in
      let! rc := on_rfile (ss_fileresize (Z.of_nat (branch_end a h))) in
      if Z.eqb rc (-1) then cret (-1) else
      errorreset;;;
      cret 0
  end.

(** * Opening a node *)

Context `{Alloc}.

(** Of a node: its branches from [n->branch] on (the last one is [n->self]), whether its file is
    open, and its map. *)
Record siopen := mk_siopen { so_branches : list sibranch; so_count : Z; so_fd : bool; so_map : ssmmap }.
Definition so_push (b : sibranch) (n : siopen) : siopen := mk_siopen (b :: so_branches n) (u32 (so_count n + 1)) (so_fd n) (so_map n).
(** A new node whose file has just been opened. *)
Definition so_new : siopen := mk_siopen [] 0 true ss_mmapinit.
(** One turn of the loop of [si_noderecover]; the answer is whether it went to the end. *)
Definition noderecover_turn (st : bool * sdrecover * siopen) : cmd recst (bool * sdrecover * siopen + bool * sdrecover * siopen) :=
  let '(first, i, n) := st in
  match sd_recoverof i with
  | None => cret (inr (true, i, n))
  | Some v =>
      match (if first : bool then Some si_branchinit else si_branchnew) with
      | None => cret (inr (false, i, n))
      | Some b =>
          let! res := cread (λ _, m ← mm_p (rv_map i); sd_indexcopy (drop v m) sd_indexinit) in
          if Z.eqb res.1 (-1) then cret (inr (false, i, n)) else
          let! b := cread (λ _, si_branchset b res.2) in
          let! i := sd_recovernext i in
          cret (inl (false, i, so_push b n))
      end
  end.
Definition si_noderecover (fuel : nat) (n : siopen) : cmd recst (Z * siopen) :=
  let! res := sd_recover_open in
  let! res := cloop fuel noderecover_turn (true, res.2, n) in
  let '(ok, i, n) := res in
  let! rc := (if ok : bool then sd_recover_complete i else cret (-1)) in
  sd_recoverclose i;;;
  cret (if Z.eqb rc (-1) then -1 else 0, n).
Definition ss_fileclose (fd : bool) : cmd recst (Z * bool) :=
  if fd : bool then let! ok := on_rfile (on_os sys_answer) in cret (if ok : bool then (0, false) else (-1, true)) else cret (0, false).
Definition si_nodeclose (n : siopen) : cmd recst (Z * siopen) :=
  let! res := on_rfile (ss_munmap (so_map n)) in
  (if Z.eqb res.1 (-1) then malfunction else cret ());;;
  let! fres := ss_fileclose (so_fd n) in
  (if Z.eqb fres.1 (-1) then malfunction else cret ());;;
  cret (if Z.eqb res.1 (-1) || Z.eqb fres.1 (-1) then -1 else 0, mk_siopen (so_branches n) (so_count n) fres.2 res.2).
(** A file that is not open cannot be mapped. *)
Definition si_nodemap (n : siopen) : cmd recst (Z * siopen) :=
  let! s := cget in
  let! res := (if so_fd n then on_rfile (ss_mmap (fl_size (rs_file s)) (so_map n)) else cret (-1, mk_mmap None (mm_size (so_map n)))) in
  (if Z.eqb res.1 (-1) then malfunction else cret ());;;
  cret (res.1, mk_siopen (so_branches n) (so_count n) (so_fd n) res.2).
(** [if (rc == -1) si_nodeclose(n, r)] *)
Definition close_failed (res : Z * siopen) : cmd recst (Z * siopen) :=
  if Z.eqb res.1 (-1) then let! c := si_nodeclose res.2 in cret (res.1, c.2) else cret res.
(** [si_nodeopen], the file just opened; [mmap]: of the scheme. *)
Definition si_nodeopen (fuel : nat) (mmap : bool) (n : siopen) : cmd recst (Z * siopen) :=
  let! s := cget in
  let! rc := on_rfile (ss_fileseek (fl_size (rs_file s))) in
  if Z.eqb rc (-1) then
    let! c := si_nodeclose n in
    malfunction;;; cret (-1, c.2)
  else
  let! res := si_noderecover fuel n in
  let! res := close_failed res in
  if mmap : bool then
    let! res := si_nodemap res.2 in
    close_failed res
  else cret res.
End model.

(** * Correctness *)

Lemma page_up_ge n : (n <= page_up n)%nat.
Proof.
  unfold page_up. assert (PAGE ≠ 0%nat) as HP by (unfold PAGE; lia). generalize dependent PAGE. intros P HP.
  pose proof (Nat.div_mod (n + (P - 1)) P HP). pose proof (Nat.mod_upper_bound (n + (P - 1)) P HP). lia.
Qed.
Lemma map_whole data : map_memory (length data) data = data ++ replicate (page_up (length data) - length data) 0.
Proof. unfold map_memory. apply take_ge. rewrite length_app, length_replicate. pose proof (page_up_ge (length data)). lia. Qed.

Section proofs.
Context (crcf : Z → bytes → Z).

(** Bytes behind the last branch that are no branch; [rest]: what the map shows behind them. *)
Definition unsealed (tail rest : bytes) : Prop := ∃ bytes h, tail ≠ [] ∧
  mem_read 0 sizeof_sdindexheader (tail ++ rest) = Some bytes ∧ idxheader_at 0 (tail ++ rest) = Some h ∧
  (x_crc h ≠ ss_crcs crcf bytes 0 ∨ sr_versioncheck (x_version h) = true ∧
   ((length tail < branch_end 0 h)%nat ∨ ∃ s, seal_at (branch_end 0 h - sizeof_sdseal) (tail ++ rest) = Some s ∧ sd_sealvalidate crcf s h = -1)).

Lemma seal_read m o s : mem_at m o (seal_enc s) → seal_ok s → seal_at o m = Some s.
Proof.
  intros Hm (H1 & H2 & H3). unfold seal_enc in Hm. unfold in_u in *. split_fields Hm. rewrite !le_enc_length in *.
  rewrite <- !Nat.add_assoc in *. cbn [plus] in *. unfold seal_at.
  repeat (erewrite load_le_at by (eassumption || done); cbn [mbind option_bind]). by destruct s.
Qed.
Lemma sealed_length bs h start : sealed crcf bs h → branch_end start h = (start + length bs)%nat.
Proof.
  intros Hs. destruct (se_bytes _ _ _ Hs) as (body & seal & -> & Hl & _). unfold branch_end. rewrite !length_app, idxheader_length, seal_length. lia.
Qed.
Lemma sealed_pos bs h : sealed crcf bs h → (sizeof_sdindexheader < length bs)%nat.
Proof. intros Hs. destruct (se_bytes _ _ _ Hs) as (body & seal & -> & _). rewrite !length_app, idxheader_length, seal_length. unfold sizeof_sdseal. lia. Qed.
(** A branch cut behind its header is no branch, whatever the checksum. *)
Lemma prefix_unsealed bs h k rest : sealed crcf bs h → (sizeof_sdindexheader <= k < length bs)%nat → unsealed (take k bs) rest.
Proof.
  intros Hs [Hk Hlt]. destruct (se_bytes _ _ _ Hs) as (body & seal & E & Hl & _).
  assert (mem_at (take k bs ++ rest) 0 (idxheader_enc h)) as Hat.
  { exists [], (drop sizeof_sdindexheader (take k bs) ++ rest). split; [|done]. cbn [app]. rewrite app_assoc. f_equal. rewrite <- (take_drop sizeof_sdindexheader (take k bs)) at 1. f_equal.
    rewrite take_take, Nat.min_l by done. rewrite E, take_app_length' by (by rewrite idxheader_length). done. }
  exists (idxheader_enc h), h. split_and!.
  - intros E0. apply (f_equal length) in E0. rewrite length_take in E0. cbn in E0. unfold sizeof_sdindexheader in Hk. lia.
  - rewrite <- (idxheader_length h). by apply mem_at_read.
  - by apply idxheader_read; [|apply Hs].
  - right. split; [apply Hs|]. left. rewrite length_take, (sealed_length bs h) by done. lia.
Qed.

(** ** Steps of the iterator *)

(** The iterator over a file: the branches [pre], those to come, and a tail. *)
Context (data rest : bytes).
Definition over (i : sdrecover) : Prop := rv_map i = mk_mmap (Some (data ++ rest)) (length data).
Lemma over_head (pre bs post : bytes) h i : over i → data = pre ++ bs ++ post → sealed crcf bs h → recover_h i (length pre) = λ s, Some (h, s).
Proof.
  intros Hi E Hs. destruct (se_bytes _ _ _ Hs) as (body & seal & Eb & _). unfold recover_h, cread. rewrite Hi. cbn [mm_p mbind option_bind].
  rewrite (idxheader_read _ _ h); [done| |apply Hs]. eexists pre, _. split; [|done]. rewrite E, Eb, <- !app_assoc. done.
Qed.
Lemma next_sealed (pre bs post : bytes) h i s : over i → data = pre ++ bs ++ post → sealed crcf bs h →
  sd_recovernext_of crcf (Some (length pre)) i s = Some ((1, rv_found (length pre) i), s).
Proof.
  intros Hi E Hs. pose proof (sealed_pos _ _ Hs) as Hpos. destruct (se_bytes _ _ _ Hs) as (body & seal & Eb & Hl & Hok & Hv).
  assert (length data = length pre + length bs + length post)%nat as Hlen by (rewrite E, !length_app; lia).
  unfold sd_recovernext_of. rewrite Hi. cbn [mm_size mm_p mbind option_bind]. destruct (Nat.eqb_spec (length pre) (length data)); [lia|].
  unfold cbind at 1, cread at 1. assert (mem_at (data ++ rest) (length pre) (idxheader_enc h)) as Hat.
  { eexists pre, _. split; [|done]. rewrite E, Eb, <- !app_assoc. done. }
  rewrite <- (idxheader_length h), (mem_at_read _ _ _ Hat). unfold cbind at 1. rewrite (over_head pre bs post h i Hi E Hs).
  rewrite <- (se_crc _ _ _ Hs), Z.eqb_refl. cbn [negb]. rewrite (se_version _ _ _ Hs). cbn [negb]. rewrite (sealed_length _ _ (length pre) Hs).
  rewrite (proj2 (Nat.ltb_ge _ _)) by lia. rewrite (proj2 (Nat.ltb_ge _ _)) by lia. cbn [orb]. unfold cbind, cread.
  rewrite (seal_read _ _ seal); [by rewrite Hv| |done]. exists (pre ++ idxheader_enc h ++ body), (post ++ rest). split; [rewrite E, Eb, <- !app_assoc; done|].
  rewrite Eb, !length_app, seal_length. lia.
Qed.
Lemma next_eof i s : over i → sd_recovernext_of crcf (Some (length data)) i s = Some ((0, rv_end i), s).
Proof. intros Hi. unfold sd_recovernext_of. rewrite Hi. cbn [mm_size]. by rewrite Nat.eqb_refl. Qed.

Lemma mem_read_shift (pre m : bytes) o n : mem_read (length pre + o) n (pre ++ m) = mem_read o n m.
Proof.
  unfold mem_read. rewrite length_app, drop_app_add. destruct (decide (o + n <= length m)%nat); [by rewrite decide_True by lia|by rewrite decide_False by lia].
Qed.
Lemma load_le_shift (pre m : bytes) o n : load_le (length pre + o) n (pre ++ m) = load_le o n m.
Proof. unfold load_le. by rewrite mem_read_shift. Qed.
Lemma idxheader_shift (pre m : bytes) : idxheader_at (length pre) (pre ++ m) = idxheader_at 0 m.
Proof.
  unfold idxheader_at, version_at, id_at. rewrite <- (Nat.add_0_r (length pre)), <- !Nat.add_assoc, !load_le_shift. cbn [plus]. done.
Qed.
Lemma seal_shift (pre m : bytes) o : seal_at (length pre + o) (pre ++ m) = seal_at o m.
Proof. unfold seal_at. by rewrite <- !Nat.add_assoc, !load_le_shift. Qed.
Lemma next_torn (pre tail : bytes) i s : over i → data = pre ++ tail → unsealed tail rest →
  sd_recovernext_of crcf (Some (length pre)) i s = Some ((-1, rv_broken i), mk_recst (rs_file s) SR_ERROR_MALFUNCTION).
Proof.
  intros Hi E (bs & h & Hne & Eb & Eh & Hbad). assert (length tail ≠ 0)%nat by (by destruct tail). assert (length data = length pre + length tail)%nat as Hlen by (by rewrite E, length_app).
  unfold sd_recovernext_of, recover_h. rewrite Hi. cbn [mm_size mm_p mbind option_bind]. destruct (Nat.eqb_spec (length pre) (length data)); [lia|].
  unfold cbind at 1, cread at 1. rewrite E, <- app_assoc. rewrite <- (Nat.add_0_r (length pre)) at 1. rewrite mem_read_shift, Eb. unfold cbind at 1, cread at 1. rewrite idxheader_shift, Eh.
  destruct (Z.eqb_spec (x_crc h) (ss_crcs crcf bs 0)) as [Ec|Ec]; cbn [negb]; [|done]. destruct Hbad as [?|[-> Hbad]]; [done|]. cbn [negb].
  assert (branch_end (length pre) h = length pre + branch_end 0 h)%nat as Ee by (unfold branch_end; lia). rewrite Ee, length_app.
  destruct (Nat.ltb_spec (length pre + length tail) (length pre)); [done|]. destruct (Nat.ltb_spec (length pre + length tail) (length pre + branch_end 0 h)) as [Hlt|Hge]; [done|]. cbn [orb].
  destruct Hbad as [?|(sl & Es & Hv)]; [lia|]. replace (length pre + branch_end 0 h - sizeof_sdseal)%nat with (length pre + (branch_end 0 h - sizeof_sdseal))%nat by (unfold branch_end; lia).
  unfold cbind at 1, cread at 1. rewrite seal_shift, Es, Hv. done.
Qed.

(** ** The branches of a node *)
Context `{Alloc}.

(** The branch that is made of the index in the file. *)
Definition loaded (bs : bytes) (h : sdindexheader) (b : sibranch) : Prop :=
  br_id b = x_id h ∧ xh (br_index b) = true ∧ b_at (xi (br_index b)) = SHeap ∧ content (xi (br_index b)) = take (Z.to_nat (sd_indexsize h)) bs.
Lemma copy_run m bs h : sealed crcf bs h → (∃ post, m = bs ++ post) →
  ∃ rc x, sd_indexcopy m sd_indexinit = Some (rc, x) ∧
    ((rc = -1 ∧ refused) ∨ (rc = 0 ∧ idxheader_at 0 (b_mem (xi x)) = Some h ∧ xh x = true ∧ b_at (xi x) = SHeap ∧ content (xi x) = take (Z.to_nat (sd_indexsize h)) bs)).
Proof.
  intros Hs [post ->]. destruct (se_bytes _ _ _ Hs) as (body & seal & Eb & Hl & _). pose proof (se_size _ _ _ Hs) as Hsz.
  pose proof (se_header _ _ _ Hs) as (_ & _ & _ & _ & Hu & _). unfold in_u in Hu.
  assert (sd_indexsize h = Z.of_nat sizeof_sdindexheader + x_size h) as Es by (unfold sd_indexsize; rewrite wrap_id by (unfold in_u, sizeof_sdindexheader, INT_MAX in *; lia); done).
  assert (mem_at (bs ++ post) 0 (idxheader_enc h)) as Hat by (eexists [], _; split; [rewrite Eb, <- !app_assoc; done|done]).
  apply wp_run. unfold sd_indexcopy. apply wp_bind. unfold cread at 1, wp at 1. rewrite (idxheader_read _ _ h Hat (se_header _ _ _ Hs)).
  set (n := Z.to_nat (sd_indexsize h)) in *. assert (sizeof_sdindexheader <= n <= length bs)%nat as Hn.
  { rewrite Eb, !length_app, idxheader_length. unfold n. rewrite Es. lia. }
  apply wp_bind, wp_lift. cbn [xi sd_indexinit].
  eapply wp_mono; [apply bufensure_ok; [split; done|unfold sizeof_sdindexheader in *; lia|done|unfold ss_bufused; change (b_p ss_bufinit) with 0%nat; lia]|].
  intros rc b [(-> & -> & Hno)|(-> & Hok & _ & Hp & _ & Hun & Hb)]; [by left|]. cbn [Z.eqb]. apply wp_bind. unfold cread at 1, wp at 1. fold n.
  assert (mem_read 0 n (bs ++ post) = Some (take n bs)) as ->.
  { unfold mem_read. rewrite decide_True by (rewrite length_app; lia). rewrite drop_0, take_app_le by lia. done. }
  change (b_p ss_bufinit) with 0%nat in Hp. unfold ss_bufunused in Hun. rewrite Hp in Hun.
  apply wp_bind, wp_lift. cbn [xi with_i]. eapply wp_mono; [apply (buf_copy_ok b 0 (take n (b_mem b))); [done|exists [], (drop n (b_mem b)); split; [by rewrite take_drop|done]|rewrite !length_take; lia]|].
  intros [] b2 (Hok2 & Hp2 & Ha2 & Hl2 & _ & Hat2 & _ & _). apply wp_bind, wp_lift. unfold ss_bufadvance, wp at 1. apply wp_bind. unfold xmodify, wp at 1. apply wp_ret. right. cbn [xi with_i with_h xh b_at b_mem b_p content].
  destruct Hat2 as (l & r' & E2 & El). destruct l; [|done]. cbn [app] in E2. split_and!; [done| |done| |].
  - apply idxheader_read; [|apply Hs]. rewrite E2. exists [], (drop sizeof_sdindexheader (take n bs) ++ r'). split; [|done]. cbn [app]. rewrite app_assoc. f_equal.
    rewrite <- (take_drop sizeof_sdindexheader (take n bs)) at 1. f_equal. rewrite take_take, Nat.min_l by lia. rewrite Eb, take_app_length' by (by rewrite idxheader_length). done.
  - rewrite Ha2. destruct Hb as [->|[Hb _]]; [|done]. cbn in Hun. unfold sizeof_sdindexheader in *. lia.
  - unfold content. cbn [b_mem b_p]. rewrite Hp2, Hp, E2, Nat.add_0_l, take_app_length' by (rewrite length_take; lia). done.
Qed.

(** The branches of the file, and what is behind them. *)
Context (imgs : list (bytes * sdindexheader)) (tail : bytes).
Definition images (l : list (bytes * sdindexheader)) : bytes := concat (fst <$> l).
Context (Hdata : data = images imgs ++ tail) (Himgs : Forall (λ p, sealed crcf p.1 p.2) imgs).
Definition torn : bool := match tail with [] => false | _ => true end.
Definition reported (s : recst) : recst := if torn then mk_recst (rs_file s) SR_ERROR_MALFUNCTION else s.
Definition built (l : list (bytes * sdindexheader)) (n : siopen) : Prop :=
  Forall2 (λ p b, loaded p.1 p.2 b) (reverse l) (so_branches n) ∧ so_count n = Z.of_nat (length l) ∧ so_fd n = true.
(** Where the iterator stands when the loop is over. *)
Definition past (i : sdrecover) : Prop := over i ∧ rv_v i = None ∧ rv_corrupt i = torn ∧
  ∃ pre p, imgs = pre ++ [p] ∧ rv_actual i = Some (length (images pre)).
Lemma images_app l l' : images (l ++ l') = images l ++ images l'.
Proof. unfold images. by rewrite fmap_app, concat_app. Qed.
Lemma built_push l p n b : built l n → loaded p.1 p.2 b → Z.of_nat (length l) < 4294967295 → built (l ++ [p]) (so_push b n).
Proof.
  intros (HF & Hc & Hfd) Hb Hl. split; [rewrite reverse_app; cbn; by constructor|]. cbn [so_count so_fd so_push]. split; [|done]. rewrite Hc, length_app. cbn [length]. rewrite wrap_id by (unfold in_u; lia). lia.
Qed.
Lemma unsealed_ne : unsealed tail rest → torn = true.
Proof. intros (bytes & h & Hne & _). unfold torn. by destruct tail. Qed.
(** One turn of the loop at a branch: it is loaded, and the iterator goes on. *)
Lemma turn_run pre p more first i n s : (more = [] → tail = [] ∨ unsealed tail rest) → imgs = pre ++ p :: more → over i → rv_corrupt i = false → rv_v i = Some (length (images pre)) → rv_actual i = rv_v i → built pre n →
  Z.of_nat (length imgs) < 4294967296 →
  ∃ res s', noderecover_turn crcf (first, i, n) s = Some (res, s') ∧
    ((∃ i' n', res = inr (false, i', n') ∧ refused) ∨
     (∃ i' n', res = inl (false, i', n') ∧ built (pre ++ [p]) n' ∧ over i' ∧
        match more with
        | [] => past i' ∧ s' = reported s
        | _ => s' = s ∧ rv_corrupt i' = false ∧ rv_v i' = Some (length (images (pre ++ [p]))) ∧ rv_actual i' = rv_v i'
        end)).
Proof.
  intros Htail Ei Hi Hco Hv Ha Hb Hlen. assert (sealed crcf p.1 p.2) as Hs by (rewrite Ei in Himgs; apply Forall_app in Himgs as [_ HF]; by inversion HF).
  assert (data = images pre ++ p.1 ++ images more ++ tail) as Ed by (rewrite Hdata, Ei, images_app, <- app_assoc; unfold images at 2; cbn [fmap list_fmap concat]; by rewrite <- app_assoc).
  unfold noderecover_turn, sd_recoverof. rewrite Hv. set (br := if first then _ else _). assert (br = Some si_branchinit ∨ br = None ∧ refused) as [->|[-> Hno]].
  { unfold br. destruct first; [by left|]. unfold si_branchnew. destruct (ss_malloc sizeof_sibranch) eqn:Em; [by left|right]. split; [done|by eexists]. }
  2: { eexists _, _. split; [done|]. left. by eexists _, _. }
  destruct (copy_run (drop (length (images pre)) (data ++ rest)) p.1 p.2 Hs) as (rc & x & E & HE).
  { eexists. rewrite Ed, <- !app_assoc, drop_app_length. done. }
  unfold cbind at 1, cread at 1. rewrite Hi. cbn [mm_p mbind option_bind]. rewrite E. cbn [fst snd]. destruct HE as [[-> Hno]|(-> & Eh & Hh & Hheap & Hc)]; cbn [Z.eqb Pos.eqb].
  { eexists _, _. split; [done|]. left. by eexists _, _. }
  assert (si_branchset si_branchinit x = Some (mk_branch (x_id p.2) x)) as -> by (unfold si_branchset, index_h, cbind, cget, cassert, sd_indexheader, cread; by rewrite Hh, Eh).
  unfold cbind at 1, cread at 1. unfold sd_recovernext. rewrite Hv. unfold cbind at 1 2. rewrite (over_head (images pre) p.1 (images more ++ tail) p.2 i Hi Ed Hs).
  rewrite (sealed_length _ _ (length (images pre)) Hs). unfold cbind at 1.
  assert (length (images pre) + length p.1 = length (images (pre ++ [p])))%nat as El by (rewrite images_app, length_app; unfold images at 3; cbn; by rewrite app_nil_r). rewrite El.
  assert (built (pre ++ [p]) (so_push (mk_branch (x_id p.2) x) n)) as Hb' by (apply built_push; [done|done|rewrite Ei, length_app in Hlen; cbn [length] in Hlen; lia]).
  destruct more as [|q more].
  - assert (data = images (pre ++ [p]) ++ tail) as Ed' by (rewrite Ed, images_app; unfold images at 2 4; cbn; by rewrite app_nil_r, <- app_assoc). unfold reported. destruct (Htail eq_refl) as [Et|Ht].
    + rewrite Et, app_nil_r in Ed'. rewrite <- Ed', (next_eof i s Hi). unfold cret. eexists _, _. split; [done|]. right. eexists _, _. split; [done|]. split; [done|]. split; [exact Hi|].
      split; [|by unfold torn; rewrite Et]. split_and!; [exact Hi|done|by unfold torn; rewrite Et|]. exists pre, p. split; [done|]. change (rv_actual i = Some (length (images pre))). by rewrite Ha.
    + rewrite (next_torn (images (pre ++ [p])) tail i s Hi Ed' Ht). unfold cret. eexists _, _. split; [done|]. right. eexists _, _. split; [done|]. split; [done|]. split; [exact Hi|]. rewrite (unsealed_ne Ht).
      split; [|done]. split_and!; [exact Hi|done|by rewrite (unsealed_ne Ht)|]. exists pre, p. split; [done|]. change (rv_actual i = Some (length (images pre))). by rewrite Ha.
  - assert (sealed crcf q.1 q.2) as Hq by (rewrite Ei in Himgs; apply Forall_app in Himgs as [_ HF]; inversion HF as [|? ? _ HF']; by inversion HF').
    rewrite (next_sealed (images (pre ++ [p])) q.1 (images more ++ tail) q.2 i s Hi); [|rewrite Ed, images_app; unfold images at 2 4; cbn; by rewrite app_nil_r, <- !app_assoc|done].
    unfold cret. eexists _, _. split; [done|]. right. eexists _, _. split; [done|]. split; [done|]. split; [exact Hi|]. by split_and!.
Qed.
Context (Htail : tail = [] ∨ unsealed tail rest).
Lemma recover_loop : ∀ more pre p first i n s fuel, imgs = pre ++ p :: more → over i → rv_corrupt i = false → rv_v i = Some (length (images pre)) → rv_actual i = rv_v i →
  built pre n → Z.of_nat (length imgs) < 4294967296 → (S (length more) < fuel)%nat →
  ∃ ok i' n' s', cloop fuel (noderecover_turn crcf) (first, i, n) s = Some ((ok, i', n'), s') ∧
    ((ok = false ∧ refused) ∨ (ok = true ∧ built imgs n' ∧ past i' ∧ s' = reported s)).
Proof.
  induction more as [|q more IH]; intros pre p first i n s fuel Ei Hi Hco Hv Ha Hb Hlen Hf; (destruct fuel as [|fuel]; [lia|]); rewrite cloop_S;
    destruct (turn_run _ _ _ first i n s (λ _, Htail) Ei Hi Hco Hv Ha Hb Hlen) as (res & s1 & E & [(i' & n' & -> & Hno)|(i' & n' & -> & Hb' & Hi' & Hx)]); rewrite E.
  1, 3: eexists _, _, _, _; split; [done|]; by left.
  - destruct Hx as [Hp ->]. destruct fuel as [|fuel]; [lia|]. rewrite cloop_S. cbn [noderecover_turn]. pose proof Hp as (_ & Hend & _). unfold sd_recoverof. rewrite Hend. eexists _, _, _, _. split; [done|].
    right. rewrite Ei in *. by split_and!.
  - destruct Hx as (-> & Hco' & Hv' & Ha'). apply (IH (pre ++ [p]) q); [by rewrite <- app_assoc|done..|cbn [length] in Hf; lia].
Qed.

(** ** Cutting off the tail *)

(** The file of the given bytes; the position is not touched. *)
Definition file_is (bs : bytes) (pos : nat) (f : ssfile) : Prop := o_data (fl_os f) = bs ∧ fl_size f = Z.of_nat (length bs) ∧ o_pos (fl_os f) = pos.
(** The system does all it is asked for. *)
Definition system_fails (s : recst) : Prop := o_answers (fl_os (rs_file s)) ≠ [].
Lemma answer_run {A} (m : bool → cmd recst A) s : ∃ ok s', (let! ok := on_rfile (on_os sys_answer) in m ok) s = m ok s' ∧
  o_data (fl_os (rs_file s')) = o_data (fl_os (rs_file s)) ∧ fl_size (rs_file s') = fl_size (rs_file s) ∧ o_pos (fl_os (rs_file s')) = o_pos (fl_os (rs_file s)) ∧ rs_e s' = rs_e s ∧
  (system_fails s' → system_fails s) ∧ (ok = false → system_fails s).
Proof.
  destruct s as [[sz [d p l]] e]. unfold system_fails. unfold cbind, on_rfile, on_os, sys_answer, cbind, os_answer, cret. cbn [rs_file fl_os fl_size o_answers o_data o_pos rs_e].
  destruct l as [|[| |k] l]; eexists _, _; (split; [done|]); cbn; split_and!; (done || by intros).
Qed.
Lemma resize_run f n : (n <= length (o_data (fl_os f)))%nat → ∃ rc f', ss_fileresize (Z.of_nat n) f = Some (rc, f') ∧ ((rc = -1 ∧ o_answers (fl_os f) ≠ []) ∨
  (rc = 0 ∧ o_data (fl_os f') = take n (o_data (fl_os f)) ∧ fl_size f' = Z.of_nat n ∧ o_pos (fl_os f') = o_pos (fl_os f) ∧ (o_answers (fl_os f') ≠ [] → o_answers (fl_os f) ≠ []))).
Proof.
  destruct f as [sz [d p l]]. intros Hn. cbn [fl_os o_data] in Hn. unfold ss_fileresize, cbind, on_os, sys_truncate, cbind, sys_answer, cbind, os_answer, cret, fmodify. cbn [fl_os o_data o_pos o_answers]. rewrite Nat2Z.id.
  destruct l as [|[| |k] l]; eexists _, _; (split; [reflexivity|]); cbn; [right|left|left|right]; try done; replace (n - length d)%nat with 0%nat by lia; cbn; rewrite app_nil_r; split_and!; (done || by intros).
Qed.
Lemma complete_run i s pos : past i → file_is data pos (rs_file s) →
  ∃ rc s', sd_recover_complete i s = Some (rc, s') ∧ ((rc = -1 ∧ system_fails s) ∨
    (rc = 0 ∧ file_is (images imgs) pos (rs_file s') ∧ rs_e s' = (if torn then SR_ERROR_NONE else rs_e s) ∧ (system_fails s' → system_fails s))).
Proof.
  intros (Hi & _ & Hco & pre & p & Ei & Ha) (Ef & Es & Ep). unfold sd_recover_complete. rewrite Ha, Hco. destruct torn eqn:Et; cbn [negb].
  - assert (sealed crcf p.1 p.2) as Hs by (rewrite Ei in Himgs; apply Forall_app in Himgs as [_ HF]; by inversion HF).
    assert (data = images pre ++ p.1 ++ tail) as Ed by (rewrite Hdata, Ei, images_app; unfold images at 2; cbn; by rewrite app_nil_r, <- app_assoc).
    unfold cbind at 1. rewrite (over_head (images pre) p.1 tail p.2 i Hi Ed Hs), (sealed_length _ _ _ Hs).
    assert (length (images pre) + length p.1 = length (images imgs))%nat as -> by (rewrite Ei, images_app, length_app; unfold images at 3; cbn; by rewrite app_nil_r).
    destruct (resize_run (rs_file s) (length (images imgs))) as (rc & f' & E & HE); [rewrite Ef, Hdata, length_app; lia|]. unfold cbind at 1, on_rfile. rewrite E.
    destruct HE as [[-> Hf]|(-> & Ed' & Es' & Ep' & Hf)]; cbn [Z.eqb Pos.eqb]; eexists _, _; (split; [done|]); [by left|right]. split; [done|]. split; [|by split].
    rewrite Ef in Ed'. rewrite Hdata, take_app_length in Ed'. split_and!; [exact Ed'|exact Es'|]. by rewrite <- Ep.
  - eexists _, _. split; [done|]. right. split; [done|]. split; [|done]. assert (tail = []) as Etl by (unfold torn in Et; by destruct tail). rewrite Etl, app_nil_r in Hdata. rewrite <- Hdata. by split_and!.
Qed.
End proofs.

Section recovery.
Context (crcf : Z → bytes → Z) `{Alloc}.

(** What the map of a file shows behind its bytes. *)
Definition map_rest (data : bytes) : bytes := replicate (page_up (length data) - length data) 0.
(** The bytes, the size and the position of the file are as before, and no failure is new. *)
Definition same_file (s s' : recst) : Prop := o_data (fl_os (rs_file s')) = o_data (fl_os (rs_file s)) ∧ fl_size (rs_file s') = fl_size (rs_file s) ∧
  o_pos (fl_os (rs_file s')) = o_pos (fl_os (rs_file s)) ∧ (system_fails s' → system_fails s).
Lemma same_file_is bs pos s s' : same_file s s' → file_is bs pos (rs_file s) → file_is bs pos (rs_file s').
Proof. intros (E1 & E2 & E3 & _) (H1 & H2 & H3). split_and!; congruence. Qed.
Lemma same_file_trans s1 s2 s3 : same_file s1 s2 → same_file s2 s3 → same_file s1 s3.
Proof. intros (E1 & E2 & E3 & E4) (F1 & F2 & F3 & F4). split_and!; [congruence..|auto]. Qed.
Lemma mmap_run size m s : ∃ res s', on_rfile (ss_mmap size m) s = Some (res, s') ∧ same_file s s' ∧ rs_e s' = rs_e s ∧
  (res = (0, mk_mmap (Some (map_memory (Z.to_nat size) (o_data (fl_os (rs_file s))))) (Z.to_nat size)) ∨ (res = (-1, mk_mmap None (mm_size m)) ∧ system_fails s)).
Proof.
  destruct s as [[sz [d p l]] e]. unfold same_file, system_fails, on_rfile, ss_mmap, cbind, on_os, sys_answer, cbind, os_answer, cget, cret. cbn [rs_file fl_os fl_size o_answers o_data o_pos rs_e].
  destruct l as [|[| |k] l]; eexists _, _; (split; [reflexivity|]); cbn; intuition congruence.
Qed.
Lemma munmap_run m s : ∃ res s', on_rfile (ss_munmap m) s = Some (res, s') ∧ same_file s s' ∧ rs_e s' = rs_e s.
Proof.
  destruct m as [[mem|] n]; cbn [ss_munmap mm_p]; [|eexists _, s; split; [by destruct s|]; by split_and!].
  destruct s as [[sz [d p l]] e]. unfold same_file, system_fails, on_rfile, ss_munmap, mm_p, cbind, on_os, sys_answer, cbind, os_answer, cget, cret. cbn [rs_file fl_os fl_size o_answers o_data o_pos rs_e].
  destruct l as [|[| |k] l]; eexists _, _; (split; [reflexivity|]); cbn; intuition congruence.
Qed.
Lemma open_run (p : bytes * sdindexheader) more tail s : let imgs := p :: more in let data := images imgs ++ tail in
  sealed crcf p.1 p.2 → (∃ pos, file_is data pos (rs_file s)) →
  ∃ rc i s', sd_recover_open crcf s = Some ((rc, i), s') ∧ same_file s s' ∧
    ((rc = 1 ∧ rs_e s' = rs_e s ∧ over data (map_rest data) i ∧ rv_corrupt i = false ∧ rv_v i = Some 0%nat ∧ rv_actual i = rv_v i) ∨ (rv_v i = None ∧ rv_actual i = None ∧ system_fails s)).
Proof.
  intros imgs data Hs (pos & Ef & Esz & Ep). unfold sd_recover_open. unfold cbind at 1, cget. rewrite Esz. pose proof (sealed_pos crcf _ _ Hs) as Hpos. pose proof (se_bytes _ _ _ Hs) as (body & seal & Eb & _).
  assert (length data = length p.1 + length (images more ++ tail))%nat as Hlen by (unfold data, imgs, images; cbn; by rewrite !length_app, Nat.add_assoc).
  assert (sizeof_sdindexheader + sizeof_sdseal <= length p.1)%nat as Hmin by (rewrite Eb, !length_app, idxheader_length, seal_length; lia).
  destruct (Z.ltb_spec (Z.of_nat (length data)) (Z.of_nat (sizeof_sdindexheader + sizeof_sdseal))); [lia|]. cbn [rv_map]. unfold cbind at 1.
  destruct (mmap_run (Z.of_nat (length data)) ss_mmapinit s) as (res & s1 & -> & Hsame & He & [->|[-> Hf]]); cbn [fst snd Z.eqb Pos.eqb].
  2: { unfold cbind, malfunction, cret. eexists _, _, _. split; [done|]. split; [exact Hsame|]. by right. }
  rewrite Nat2Z.id, Ef, map_whole. set (i0 := with_map _ _). assert (over data (map_rest data) i0) as Hi by done.
  pose proof (next_sealed crcf data (map_rest data) [] p.1 (images more ++ tail) p.2 i0 s1 Hi) as E. cbn [length app] in E. unfold cbind at 1.
  rewrite E; [|unfold data, imgs, images; cbn; by rewrite <- app_assoc|done]. eexists _, _, _. split; [done|]. split; [done|]. left. by split_and!.
Qed.
Lemma noderecover_ok imgs tail s fuel pos : let data := images imgs ++ tail in imgs ≠ [] → Forall (λ p, sealed crcf p.1 p.2) imgs → (tail = [] ∨ unsealed crcf tail (map_rest data)) →
  Z.of_nat (length imgs) < 4294967296 → file_is data pos (rs_file s) → (length imgs < fuel)%nat →
  ∃ rc n s', si_noderecover crcf fuel so_new s = Some ((rc, n), s') ∧
    ((rc = -1 ∧ (refused ∨ system_fails s)) ∨
     (rc = 0 ∧ built imgs n ∧ file_is (images imgs) pos (rs_file s') ∧ rs_e s' = (if torn tail then SR_ERROR_NONE else rs_e s) ∧ (system_fails s' → system_fails s))).
Proof.
  intros data Hne HF Ht Hlen Hf Hfuel. destruct imgs as [|p more]; [done|]. pose proof (Forall_inv HF) as Hp.
  destruct (open_run p more tail s Hp) as (rc & i & s1 & E & Hsame & HE); [by exists pos|]. unfold si_noderecover, cbind at 1. rewrite E. cbn [snd].
  assert (∀ i s2 (a : Z * siopen), ∃ s3, (sd_recoverclose i;;; cret a) s2 = Some (a, s3) ∧ same_file s2 s3 ∧ rs_e s3 = rs_e s2) as Hclose.
  { intros j s2 a. unfold sd_recoverclose, cbind. destruct (munmap_run (rv_map j) s2) as (r & s3 & -> & Hs3 & He3). unfold cret. by exists s3. }
  destruct HE as [(_ & He & Hi & Hco & Hv & Ha)|(Hv & Ha & Hfail)].
  - destruct (recover_loop crcf data (map_rest data) (p :: more) tail eq_refl HF Ht more [] p true i so_new s1 fuel) as (ok & i' & n' & s2 & E2 & HE2); [done|done|done|done|done|by split|done|cbn [length] in Hfuel; lia|].
    unfold cbind at 1. rewrite E2. destruct HE2 as [[-> Hno]|(-> & Hb & Hp' & ->)].
    { unfold cbind at 1, cret at 1. destruct (Hclose i' s2 (if Z.eqb (-1) (-1) then -1 else 0, n')) as (s3 & -> & _). eexists _, _, _. split; [done|]. left. by split; [|left]. }
    unfold cbind at 1. assert (same_file s1 (reported tail s1)) as Hrep by (unfold reported; destruct (torn tail); by split_and!).
    destruct (complete_run crcf data (map_rest data) (p :: more) tail eq_refl HF Ht i' (reported tail s1) pos Hp') as (rc' & s3 & -> & HE3); [by eapply same_file_is, same_file_is|].
    destruct (Hclose i' s3 (if Z.eqb rc' (-1) then -1 else 0, n')) as (s4 & -> & Hs4 & He4). eexists _, _, _. split; [done|]. destruct HE3 as [[-> Hf3]|(-> & Hf3 & He3 & Hsf)]; [left|right].
    + split; [done|]. right. by apply Hsame, Hrep.
    + split; [done|]. split; [done|]. split; [by eapply same_file_is|]. split; [|intros Hx; by apply Hsame, Hrep, Hsf, Hs4]. rewrite He4, He3. unfold reported. destruct (torn tail); [done|]. by rewrite He.
  - destruct fuel as [|fuel]; [lia|]. unfold cbind at 1. rewrite cloop_S. cbn [noderecover_turn]. unfold sd_recoverof. rewrite Hv. unfold cbind at 1, cret at 1, sd_recover_complete. rewrite Ha. unfold cret at 1.
    destruct (Hclose i s1 (if Z.eqb (-1) (-1) then -1 else 0, so_new)) as (s3 & -> & _). eexists _, _, _. split; [done|]. left. by split; [|right].
Qed.
Lemma nodeseek_run off s : ∃ rc s', on_rfile (ss_fileseek off) s = Some (rc, s') ∧ rs_e s' = rs_e s ∧ (system_fails s' → system_fails s) ∧
  ((rc = -1 ∧ system_fails s) ∨ (rc = i32 off ∧ ∀ bs pos, file_is bs pos (rs_file s) → file_is bs (Z.to_nat off) (rs_file s'))).
Proof.
  destruct s as [[sz [d p l]] e]. unfold system_fails, file_is, on_rfile, ss_fileseek, cbind, on_os, sys_answer, cbind, os_answer, fmodify, cret. generalize (i32 off). intros z.
  destruct l as [|[| |k] l]; eexists _, _; (split; [reflexivity|]); cbn; (split; [done|]); (split; [intuition congruence|]); [right|left|left|right]; (split; [done|]); try done; intros bs pos (-> & -> & _); done.
Qed.
Lemma nodeclose_run n s : ∃ res s', si_nodeclose n s = Some (res, s') ∧ so_branches res.2 = so_branches n ∧ so_count res.2 = so_count n.
Proof.
  unfold si_nodeclose, cbind at 1. destruct (munmap_run (so_map n) s) as (res & s1 & -> & _). assert (∀ (b : bool) s, ∃ s', (if b then malfunction else cret ()) s = Some ((), s')) as Hif by (intros []; by eexists).
  unfold cbind at 1. destruct (Hif (Z.eqb res.1 (-1)) s1) as (s2 & ->). assert (∀ s, ∃ r s', ss_fileclose (so_fd n) s = Some (r, s')) as Hcl.
  { intros s0. unfold ss_fileclose. destruct (so_fd n); [|by eexists _, _]. destruct (answer_run (λ ok : bool, cret (if ok then (0, false) else (-1, true))) s0) as (ok & s' & -> & _). by eexists _, _. }
  unfold cbind at 1. destruct (Hcl s2) as (r & s3 & ->). unfold cbind at 1. destruct (Hif (Z.eqb r.1 (-1)) s3) as (s4 & ->). by eexists _, _.
Qed.
(** [mmap] asked for a map. *)
Lemma nodemap_run n s : so_fd n = true → ∃ rc n' s', (let! res := si_nodemap n in close_failed res) s = Some ((rc, n'), s') ∧ so_branches n' = so_branches n ∧ so_count n' = so_count n ∧
  ((rc = -1 ∧ system_fails s) ∨ (rc = 0 ∧ same_file s s' ∧ rs_e s' = rs_e s ∧ so_fd n' = true)).
Proof.
  intros Hfd. unfold si_nodemap, cbind at 1 2, cget. rewrite Hfd. unfold cbind at 1. destruct (mmap_run (fl_size (rs_file s)) (so_map n) s) as (res & s1 & -> & Hsame & He & [->|[-> Hf]]); cbn [fst snd Z.eqb Pos.eqb].
  - unfold cbind, cret, close_failed. cbn. eexists _, _, _. split; [done|]. split_and!; [done|done|]. right. by split_and!.
  - unfold cbind at 1, malfunction, cret at 1. unfold close_failed. cbn [fst snd Z.eqb Pos.eqb]. unfold cbind at 1.
    match goal with |- context [si_nodeclose ?n0 ?s0] => destruct (nodeclose_run n0 s0) as (c & s2 & -> & E1 & E2) end. unfold cret. eexists _, _, _. split; [done|]. cbn [snd]. rewrite E1, E2. split_and!; [done|done|]. by left.
Qed.
Lemma nodeopen_ok imgs tail s fuel mmap pos : let data := images imgs ++ tail in imgs ≠ [] → Forall (λ p, sealed crcf p.1 p.2) imgs → (tail = [] ∨ unsealed crcf tail (map_rest data)) →
  Z.of_nat (length imgs) < 4294967296 → i32 (Z.of_nat (length data)) ≠ -1 → file_is data pos (rs_file s) → (length imgs < fuel)%nat →
  ∃ rc n s', si_nodeopen crcf fuel mmap so_new s = Some ((rc, n), s') ∧
    ((refused ∨ system_fails s) ∧ (mmap = false → rc = -1) ∨
     (rc = 0 ∧ built imgs n ∧ file_is (images imgs) (length data) (rs_file s') ∧ rs_e s' = (if torn tail then SR_ERROR_NONE else rs_e s) ∧ (system_fails s' → system_fails s))).
Proof.
  intros data Hne HF Ht Hlen Hint Hf Hfuel. unfold si_nodeopen, cbind at 1, cget. pose proof Hf as (_ & Es & _). rewrite Es. unfold cbind at 1.
  destruct (nodeseek_run (Z.of_nat (length data)) s) as (rc & s1 & -> & He & Hs & [[-> Hfail]|[-> Hf1]]).
  - cbn [Z.eqb Pos.eqb]. unfold cbind at 1. destruct (nodeclose_run so_new s1) as (c & s2 & -> & _). unfold cbind, malfunction, cret. eexists _, _, _. split; [done|]. left. by split; [right|].
  - destruct (Z.eqb_spec (i32 (Z.of_nat (length data))) (-1)) as [|_]; [done|]. specialize (Hf1 _ _ Hf). rewrite Nat2Z.id in Hf1.
    destruct (noderecover_ok imgs tail s1 fuel (length data) Hne HF Ht Hlen Hf1 Hfuel) as (rc & n & s2 & E & HE). unfold cbind at 1. rewrite E.
    destruct HE as [[-> Hbad]|(-> & Hb & Hf2 & He2 & Hs2)]; unfold cbind at 1, close_failed at 1; cbn [fst snd Z.eqb Pos.eqb].
    + assert (refused ∨ system_fails s) as Hbad' by (destruct Hbad; auto). unfold cbind at 1. destruct (nodeclose_run n s2) as (c & s3 & -> & _). unfold cret at 1. destruct mmap; [|eexists _, _, _; split; [done|]; by left].
      cbn [snd]. assert (∃ r s4, (let! res := si_nodemap c.2 in close_failed res) s3 = Some (r, s4)) as ([rc n'] & s4 & ->); [|eexists _, _, _; split; [done|]; by left].
      destruct (so_fd c.2) eqn:Efd; [destruct (nodemap_run c.2 s3 Efd) as (? & ? & ? & -> & _); by eexists _, _|]. unfold si_nodemap, cbind at 1 2, cget. rewrite Efd. unfold cbind, cret, malfunction, close_failed. cbn [fst snd Z.eqb Pos.eqb].
      unfold cbind at 1. match goal with |- context [si_nodeclose ?n0 ?s0] => destruct (nodeclose_run n0 s0) as (c' & s5 & -> & _) end. by eexists _, _.
    + unfold cret at 1. destruct mmap; [|eexists _, _, _; split; [done|]; right; rewrite He2, He; split_and!; auto].
      cbn [snd]. destruct (nodemap_run n s2) as (rc & n' & s3 & -> & E1 & E2 & HE3); [by apply Hb|]. eexists _, _, _. split; [done|]. destruct HE3 as [[-> Hbad]|(-> & Hsame & He3 & Hfd)]; [left; auto|right].
      destruct Hb as (HF' & Hc & _). split; [done|]. split; [unfold built; rewrite E1, E2; by split_and!|]. split_and!; [by eapply same_file_is|by rewrite He3, He2, He|intros Hx; by apply Hs, Hs2, Hsame].
Qed.
End recovery.

(** * A tail of another version *)

(** The turns of the loop of [si_noderecover]. *)
Fixpoint turns (crcf : Z → bytes → Z) `{Alloc} (k : nat) (st : bool * sdrecover * siopen) : cmd recst (bool * sdrecover * siopen) :=
  match k with
  | O => cret st
  | S k => let! r := noderecover_turn crcf st in match r with inl st => turns crcf k st | inr _ => cfail end
  end.

Section versions.
Context (crcf : Z → bytes → Z) `{Alloc}.

(** Bytes with the checksum of a header, and the stamp of another version. *)
Definition foreign (tail rest : bytes) : Prop := ∃ bytes h, tail ≠ [] ∧ mem_read 0 sizeof_sdindexheader (tail ++ rest) = Some bytes ∧ idxheader_at 0 (tail ++ rest) = Some h ∧
  x_crc h = ss_crcs crcf bytes 0 ∧ sr_versioncheck (x_version h) = false.
Context (data rest pre : bytes) (p : bytes * sdindexheader) (tail : bytes).
Context (Hdata : data = pre ++ p.1 ++ tail) (Hp : sealed crcf p.1 p.2) (Htail : foreign tail rest) (Hmem : ∀ n, ss_malloc n ≠ None).
Lemma next_foreign i s : over data rest i → sd_recovernext_of crcf (Some (length (pre ++ p.1))) i s = Some ((-1, i), mk_recst (rs_file s) SR_ERROR_MALFUNCTION).
Proof.
  intros Hi. destruct Htail as (bs & h & Hne & Eb & Eh & Ec & Ev). assert (length tail ≠ 0)%nat by (by destruct tail). assert (data = (pre ++ p.1) ++ tail) as E by (by rewrite Hdata, app_assoc).
  assert (length data = length (pre ++ p.1) + length tail)%nat as Hlen by (by rewrite E, length_app).
  unfold sd_recovernext_of, recover_h. rewrite Hi. cbn [mm_size mm_p mbind option_bind]. destruct (Nat.eqb_spec (length (pre ++ p.1)) (length data)); [lia|].
  unfold cbind at 1, cread at 1. rewrite E, <- (app_assoc (pre ++ p.1)). rewrite <- (Nat.add_0_r (length (pre ++ p.1))) at 1. rewrite mem_read_shift, Eb. unfold cbind at 1, cread at 1. rewrite idxheader_shift, Eh.
  rewrite Ec, Z.eqb_refl. cbn [negb]. by rewrite Ev.
Qed.
(** The turn loads the last branch and stays. *)
Lemma turn_stays i n s first : over data rest i → rv_v i = Some (length pre) →
  ∃ b s', noderecover_turn crcf (first, i, n) s = Some (inl (false, i, so_push b n), s').
Proof.
  intros Hi Hv. unfold noderecover_turn, sd_recoverof. rewrite Hv. assert ((if first then Some si_branchinit else si_branchnew) = Some si_branchinit) as ->.
  { destruct first; [done|]. unfold si_branchnew. pose proof (Hmem sizeof_sibranch). by destruct (ss_malloc sizeof_sibranch). }
  destruct (copy_run crcf (drop (length pre) (data ++ rest)) p.1 p.2 Hp) as (rc & x & E & [[_ [k Hk]]|(-> & Eh & Hh & _)]).
  { eexists. rewrite Hdata, <- !app_assoc, drop_app_length. done. }
  { by destruct (Hmem k). }
  unfold cbind at 1, cread at 1. rewrite Hi. cbn [mm_p mbind option_bind]. rewrite E. cbn [fst snd Z.eqb].
  assert (si_branchset si_branchinit x = Some (mk_branch (x_id p.2) x)) as -> by (unfold si_branchset, index_h, cbind, cget, cassert, sd_indexheader, cread; by rewrite Hh, Eh).
  unfold cbind at 1, cread at 1. unfold sd_recovernext. rewrite Hv. unfold cbind at 1 2. rewrite (over_head crcf data rest pre p.1 tail p.2 i Hi Hdata Hp).
  rewrite (sealed_length crcf _ _ (length pre) Hp), <- length_app. unfold cbind at 1. rewrite (next_foreign i s Hi). unfold cret. by eexists _, _.
Qed.
Lemma turns_stay k : ∀ first i n s, over data rest i → rv_v i = Some (length pre) → ∃ n' s' b, turns crcf k (first, i, n) s = Some ((b, i, n'), s') ∧ length (so_branches n') = (length (so_branches n) + k)%nat.
Proof.
  induction k as [|k IH]; intros first i n s Hi Hv; [eexists _, _, _; split; [done|lia]|]. destruct (turn_stays i n s first Hi Hv) as (b & s' & E). cbn [turns]. unfold cbind. rewrite E.
  destruct (IH false i (so_push b n) s' Hi Hv) as (n' & s2 & b' & E2 & Hl). exists n', s2, b'. split; [exact E2|]. cbn [so_branches so_push length] in Hl. lia.
Qed.
End versions.

Section walk_all.
Context (crcf : Z → bytes → Z) `{Alloc} (data rest : bytes) (imgs : list (bytes * sdindexheader)) (tail : bytes).
Context (Hdata : data = images imgs ++ tail) (Himgs : Forall (λ p, sealed crcf p.1 p.2) imgs) (Hmem : ∀ n, ss_malloc n ≠ None) (Hlen : Z.of_nat (length imgs) < 4294967296).
(** The turns to the last branch. *)
Lemma turns_to : ∀ l pre p i n s first, imgs = pre ++ l ++ [p] → over data rest i → rv_corrupt i = false → rv_v i = Some (length (images pre)) → rv_actual i = rv_v i → built pre n →
  ∃ b i' n', turns crcf (length l) (first, i, n) s = Some ((b, i', n'), s) ∧ over data rest i' ∧ rv_v i' = Some (length (images (pre ++ l))) ∧ built (pre ++ l) n'.
Proof.
  induction l as [|q l IH]; intros pre p i n s first Ei Hi Hco Hv Ha Hb; [eexists _, _, _; rewrite app_nil_r; by split_and!|]. cbn [length turns]. unfold cbind.
  destruct (turn_run crcf data rest imgs tail Hdata Himgs pre q (l ++ [p]) first i n s) as (res & s1 & E & HE); try done; [by destruct l|].
  rewrite E. destruct HE as [(_ & _ & _ & [k Hk])|(i' & n' & -> & Hb' & Hi' & HE)]; [by destruct (Hmem k)|].
  assert (s1 = s ∧ rv_corrupt i' = false ∧ rv_v i' = Some (length (images (pre ++ [q]))) ∧ rv_actual i' = rv_v i') as (-> & Hco' & Hv' & Ha') by (by destruct l).
  destruct (IH (pre ++ [q]) p i' n' s false) as (b & i2 & n2 & E2 & H1 & H2 & H3); try done; [by rewrite Ei, <- !app_assoc|]. exists b, i2, n2. rewrite <- app_assoc in H2, H3. by split_and!.
Qed.
Lemma turns_add j k st st' s s' : turns crcf j st s = Some (st', s') → turns crcf (j + k) st s = turns crcf k st' s'.
Proof.
  revert st s. induction j as [|j IH]; intros st s E; [by injection E as -> ->|]. cbn [turns plus] in *. unfold cbind in *. destruct (noderecover_turn crcf st s) as [[[st1|] s1]|]; [|done|done]. by apply IH.
Qed.
End walk_all.

(** The checksum of zeros is zero, so a block of zeros passes for the header of another version. *)
Lemma crc32c_zeros n : crc32c 0 (replicate n 0) = 0.
Proof. unfold crc32c. induction n as [|n IH]; [done|]. cbn [replicate foldl]. by assert (crc_byte 0 0 = 0) as -> by done. Qed.
Lemma zeros_foreign crcf n v rest : crcf 0 (replicate 128 0) = 0 → (sizeof_sdindexheader <= n)%nat → foreign crcf (replicate n 0 ++ v) rest.
Proof.
  intros Hz Hn. set (h0 := mk_idxheader 0 (mk_version 0 0 0 0) (mk_sdid 0 0 0) 0 0 0 0 0 0 0 0 0 0 0 0 0). assert (replicate n 0 = idxheader_enc h0 ++ replicate (n - sizeof_sdindexheader) 0) as E.
  { assert (idxheader_enc h0 = replicate sizeof_sdindexheader 0) as -> by (by vm_compute). rewrite <- replicate_add. f_equal. lia. }
  assert (mem_at ((replicate n 0 ++ v) ++ rest) 0 (idxheader_enc h0)) as Hat by (eexists [], _; split; [rewrite E, <- !app_assoc; done|done]).
  exists (idxheader_enc h0), h0. split_and!.
  - intros E0. apply (f_equal length) in E0. rewrite length_app, length_replicate in E0. unfold sizeof_sdindexheader in Hn. cbn in E0. lia.
  - rewrite <- (idxheader_length h0). by apply mem_at_read.
  - apply idxheader_read; [done|]. unfold idxheader_ok, version_ok, id_ok, in_u. cbn. lia.
  - symmetry. exact Hz.
  - done.
Qed.
(** A header that is not whole may lie behind the last page of the map. *)
Lemma next_faults crcf data rest i s start : over data rest i → (start < length data)%nat → (length (data ++ rest) < start + sizeof_sdindexheader)%nat →
  sd_recovernext_of crcf (Some start) i s = None.
Proof.
  intros Hi Hlt Hend. unfold sd_recovernext_of. rewrite Hi. cbn [mm_size mm_p mbind option_bind]. destruct (Nat.eqb_spec start (length data)); [lia|].
  unfold cbind at 1, cread. unfold mem_read. by rewrite decide_False by lia.
Qed.

(** * Properties *)

(** The branches of a file, each with its header and the versions of its pages. *)
Definition node_file (l : list (bytes * sdindexheader * list (list sv))) : bytes := images (fst <$> l).
Fixpoint laid `{Alloc} (r : sr) (crcf : Z → bytes → Z) (pre : bytes) (l : list (bytes * sdindexheader * list (list sv))) : Prop :=
  match l with
  | [] => True
  | (bs, h, pages) :: l => branch_at r crcf pre bs h pages ∧ laid r crcf (pre ++ bs) l
  end.
Lemma laid_sealed `{Alloc} r crcf l : ∀ pre, laid r crcf pre l → Forall (λ p, sealed crcf p.1 p.2) (fst <$> l).
Proof. induction l as [|[[bs h] pages] l IH]; intros pre Hl; [constructor|]. destruct Hl as [Hb Hl]. constructor; [apply Hb|by eapply IH]. Qed.
Lemma laid_lookup `{Alloc} r crcf l : ∀ pre k bs h pages, laid r crcf pre l → l !! k = Some (bs, h, pages) → branch_at r crcf (pre ++ node_file (take k l)) bs h pages.
Proof.
  induction l as [|[[bs0 h0] pages0] l IH]; intros pre k bs h pages Hl Hk; [done|]. destruct Hl as [Hb Hl]. destruct k as [|k]; cbn in Hk.
  - injection Hk as <- <- <-. unfold node_file, images. cbn. by rewrite app_nil_r.
  - specialize (IH _ _ _ _ _ Hl Hk). unfold node_file, images in *. cbn. by rewrite app_assoc.
Qed.
Lemma built_lookup `{Alloc} l n k p : built l n → l !! k = Some p → ∃ b, reverse (so_branches n) !! k = Some b ∧ loaded p.1 p.2 b.
Proof.
  intros [HF _] Hk. apply Forall2_reverse in HF. rewrite reverse_involutive in HF. destruct (Forall2_lookup_l _ _ _ _ _ HF Hk) as (b & E & Hb). by exists b.
Qed.


Lemma write_plain v f : o_answers (fl_os f) = [] →
  ss_filewritev 1 v f = Some (0, mk_file (u64 (fl_size f + Z.of_nat (length (concat v)))) (mk_os (overwrite (o_pos (fl_os f)) (concat v) (o_data (fl_os f))) (o_pos (fl_os f) + length (concat v)) [])).
Proof.
  destruct f as [sz [d p l]]. cbn [fl_os o_answers]. intros ->. unfold ss_filewritev, cbind at 1, on_os. rewrite cloop_S. unfold filewritev_turn at 1, cbind at 1. cbn [again]. unfold cbind at 1, sys_writev, sys_write, cbind at 1, os_answer, cret.
  cbn [fl_os o_answers o_data o_pos is_intr]. rewrite take_ge by lia. rewrite iov_left_nil. cbn. unfold wrap. by rewrite Zplus_mod_idemp_r.
Qed.

(** C35: the position of the file is set before the tail is cut off.  After a recovery that cut
    off a part of a branch, what is written next comes behind a hole of as many zeros, although
    the size the file is said to have (the offset the next branch is written for) is that of the
    branches.  And a file with branches and such a hole behind them cannot be opened again: the
    CRC-32C of zeros is zero ([crc32c_zeros]), the zeros are taken for a branch of another version, and for that
    the iterator stays where it is; the loop of [si_noderecover] loads the last branch again and
    again, as often as there is memory for it. *)
Theorem si_nodeopen_misplaces `{Alloc} crcf imgs : crcf 0 (replicate 128 0) = 0 → imgs ≠ [] → Forall (λ p, sealed crcf p.1 p.2) imgs → (∀ n, ss_malloc n ≠ None) → Z.of_nat (length imgs) < 4294967296 →
  (∀ tail s fuel pos v, let data := images imgs ++ tail in unsealed crcf tail (map_rest data) → i32 (Z.of_nat (length data)) ≠ -1 → file_is data pos (rs_file s) → ¬ system_fails s → (length imgs < fuel)%nat →
     Z.of_nat (length data + length (concat v)) < 18446744073709551616 →
     ∃ n s' f, si_nodeopen crcf fuel false so_new s = Some ((0, n), s') ∧ ss_filewritev 1 v (rs_file s') = Some (0, f) ∧
       o_data (fl_os f) = images imgs ++ replicate (length tail) 0 ++ concat v ∧ fl_size f = Z.of_nat (length (images imgs) + length (concat v))) ∧
  (∀ hole v s pos, let data := images imgs ++ replicate hole 0 ++ v in (sizeof_sdindexheader <= hole)%nat → file_is data pos (rs_file s) → ¬ system_fails s →
     ∃ i s1, sd_recover_open crcf s = Some ((1, i), s1) ∧
       ∀ k, ∃ b i' n s2, turns crcf (length imgs - 1 + k) (true, i, so_new) s1 = Some ((b, i', n), s2) ∧ sd_recoverhas i' = true ∧ length (so_branches n) = (length imgs - 1 + k)%nat).
Proof.
  intros Hz Hne HF Hmem Hlen. split.
  - intros tail s fuel pos v data Ht Hint Hf Hok Hfuel Hbig. destruct (nodeopen_ok crcf imgs tail s fuel false pos Hne HF (or_intror Ht) Hlen Hint Hf Hfuel) as (rc & n & s' & E & HE).
    destruct HE as [[[[k Hk]|Hbad] _]|(-> & _ & (Ed & Es & Ep) & _ & Hs')]; [by destruct (Hmem k)|done|]. exists n, s'.
    assert (o_answers (fl_os (rs_file s')) = []) as Ha by (destruct (decide (o_answers (fl_os (rs_file s')) = [])) as [|Hx]; [done|]; by destruct (Hok (Hs' Hx))).
    eexists. split; [exact E|]. split; [by apply write_plain|]. unfold data in *. rewrite length_app in *. cbn [fl_os fl_size o_data]. rewrite Ed, Es, Ep. split; [|rewrite wrap_id by (unfold in_u; lia); lia].
    unfold overwrite. rewrite take_ge, drop_ge, app_nil_r by lia. do 2 f_equal. f_equal. lia.
  - intros hole v s pos data Hhole Hf Hok. destruct imgs as [|p0 more]; [done|].
    destruct (open_run crcf p0 more (replicate hole 0 ++ v) s (Forall_inv HF)) as (rc & i & s1 & E & _ & [(-> & _ & Hi & Hco & Hv & Ha)|(_ & _ & Hbad)]); [by exists pos| |done].
    exists i, s1. split; [exact E|]. destruct (exists_last Hne) as (pre & p & Ei). unfold data in *. clear data. rewrite Ei in *. intros k. set (data := images (pre ++ [p]) ++ replicate hole 0 ++ v) in *.
    destruct (turns_to crcf data (map_rest data) (pre ++ [p]) (replicate hole 0 ++ v) eq_refl HF Hmem Hlen pre [] p i so_new s1 true) as (b & i' & n' & E1 & Hi' & Hv' & Hb'); [done|exact Hi|done|done|done|by split|].
    cbn [app] in *. assert (data = images pre ++ p.1 ++ replicate hole 0 ++ v) as Ed by (unfold data; rewrite images_app; unfold images at 2; cbn; by rewrite app_nil_r, <- !app_assoc).
    destruct (turns_stay crcf data (map_rest data) (images pre) p (replicate hole 0 ++ v) Ed) with (k := k) (first := b) (i := i') (n := n') (s := s1) as (n2 & s2 & b2 & E2 & Hl); try done.
    { apply Forall_app in HF as [_ HF]. by apply Forall_inv in HF. } { by apply zeros_foreign. }
    exists b2, i', n2, s2. rewrite length_app. cbn [length]. rewrite Nat.add_sub. rewrite (turns_add crcf _ _ _ _ _ _ E1). split_and!; [done|unfold sd_recoverhas; by rewrite Hv'|].
    destruct Hb' as [HF' _]. apply Forall2_length in HF'. rewrite length_reverse in HF'. lia.
Qed.

(** ** Witnesses *)

(** A file with the branch of [si_branchcreate_writes_witness] and the beginning of another one. *)
Lemma demo_branch_at : ∃ bs h, branch_at (H0 := demo_alloc) demo_pagesr demo_crcf [] bs h (page_svs <$> demo_pages).
Proof.
  destruct (branchcreate_ok (H := demo_mi) (H0 := demo_alloc) demo_upd demo_pagesr demo_crcf ss_nonefilter (λ _, true) 5 3 1 0 true 100000 demo_branchconf (mk_file 0 (mk_os [] 0 [])) 2 demo_i sv_updateinit sd_buildinit demo_pages 7 (sd_idinit 1 0 0))
    as ([br|] & b' & f' & _ & HE); [by apply demo_setting|done|done| |].
  - destruct HE as (h & bs & _ & _ & _ & _ & _ & _ & Hb). by exists bs, h.
  - destruct HE as [[[k Hk]|[k Hk]]|[Hk|Hk]]; [discriminate Hk|discriminate Hk|by destruct Hk|discriminate Hk].
Qed.
Definition opened (data : bytes) : recst := mk_recst (mk_file (Z.of_nat (length data)) (mk_os data 0 [])) SR_ERROR_NONE.
Lemma some_length (n : nat) : ∃ k, (k = 132 ∨ k = 133)%nat ∧ i32 (Z.of_nat (n + k)) ≠ -1.
Proof.
  destruct (decide (i32 (Z.of_nat (n + 132)) = -1)) as [E|E]; [|exists 132%nat; auto]. exists 133%nat. split; [auto|]. unfold swrap in *.
  change (2 ^ (32 - 1)) with 2147483648 in *. change (2 ^ 32) with 4294967296 in *. replace (Z.of_nat (n + 133) + 2147483648) with (Z.of_nat (n + 132) + 2147483648 + 1) by lia.
  rewrite <- Zplus_mod_idemp_l. replace ((Z.of_nat (n + 132) + 2147483648) mod 4294967296) with 2147483647 by lia. done.
Qed.
(** An empty branch, the beginning of another one, and a hole. *)
Definition demo_final : sdindexheader := final_header demo_crcf 0 (sd_idinit 1 0 0) [].
Definition demo_empty : bytes := idxheader_enc demo_final ++ seal_enc (sd_seal demo_crcf 0 demo_final).
Lemma demo_empty_sealed : sealed demo_crcf demo_empty demo_final.
Proof.
  split.
  - exists [], (sd_seal demo_crcf 0 demo_final). split_and!; [done|done| |apply seal_valid]. unfold seal_ok, sd_seal. cbv zeta. cbn [l_crc l_index_crc l_index_offset]. split_and!; [apply demo_crcf_u32|apply demo_crcf_u32|done].
  - unfold idxheader_ok. split; [apply demo_crcf_u32|]. unfold version_ok, id_ok, in_u. split_and!; by vm_compute.
  - by vm_compute.
  - done.
  - done.
Qed.
Lemma si_nodeopen_misplaces_witness :
  (∃ n s' f, si_nodeopen (H := demo_alloc) demo_crcf 2 false so_new (opened (demo_empty ++ take 132 demo_empty)) = Some ((0, n), s') ∧ ss_filewritev 1 [[1; 2]; [3]] (rs_file s') = Some (0, f) ∧
     o_data (fl_os f) = demo_empty ++ replicate 132 0 ++ [1; 2; 3] ∧ fl_size f = 151) ∧
  ∃ i s1, sd_recover_open demo_crcf (opened (demo_empty ++ replicate 132 0 ++ [1; 2; 3])) = Some ((1, i), s1) ∧
    ∃ b i' n s2, turns (H := demo_alloc) demo_crcf 9 (true, i, so_new) s1 = Some ((b, i', n), s2) ∧ sd_recoverhas i' = true ∧ length (so_branches n) = 9%nat.
Proof.
  assert (images [(demo_empty, demo_final)] = demo_empty) as Ei by (apply app_nil_r).
  destruct (si_nodeopen_misplaces (H := demo_alloc) demo_crcf [(demo_empty, demo_final)]) as [H1 H2].
  - by vm_compute.
  - done.
  - constructor; [exact demo_empty_sealed|constructor].
  - done.
  - done.
  - rewrite Ei in *. split.
    + destruct (H1 (take 132 demo_empty) (opened (demo_empty ++ take 132 demo_empty)) 2%nat 0%nat [[1; 2]; [3]]) as (n & s' & f & E1 & E2 & E3 & E4).
      * apply (prefix_unsealed _ demo_empty demo_final); [exact demo_empty_sealed|]. vm_compute. lia.
      * by vm_compute.
      * by split_and!.
      * intros Hs. by destruct Hs.
      * cbn. lia.
      * by vm_compute.
      * exists n, s', f. exact (conj E1 (conj E2 (conj E3 E4))).
    + destruct (H2 132%nat [1; 2; 3] (opened (demo_empty ++ replicate 132 0 ++ [1; 2; 3])) 0%nat) as (i & s1 & E1 & E2).
      * unfold sizeof_sdindexheader. lia.
      * by split_and!.
      * intros Hs. by destruct Hs.
      * exists i, s1. split; [exact E1|]. exact (E2 9%nat).
Defined.
