(* ===== verification/SiSeek.v ===== *)
(** Keys over the pages of a branch: what a walk over the pages from a key gives is what a walk
    over all keys gives. *)
From stdpp Require Import base list sorting sets.
From S2P Require Import Prelude SsOrder Sv SvMerge SvMergeProofs SvIndex SvIndexProofs SvIndexIter.
Local Open Scope Z_scope.

Section seek.
Context (cmp : bytes → bytes → Z) `{!KeyOrder cmp}.
Abbreviation scmp := (sv_compare cmp).
Implicit Types (vss : list (list sv)) (vsss : list (list (list sv))).

(** The chains on one side of the key, in the order of the keys. *)
Definition side (o : ssorder) (key : option bytes) vss : list (list sv) :=
  match key with
  | None => vss
  | Some k => filter (λ c, visits o (scmp (default (mk_sv 0 0 []) (head c)) (mk_sv 0 0 k)) = true) vss
  end.
Lemma seek_side o key vss : seek cmp o key vss = if downward o then reverse (side o key vss) else side o key vss.
Proof. done. Qed.
Lemma side_app o key a b : side o key (a ++ b) = side o key a ++ side o key b.
Proof. destruct key; [apply filter_app|done]. Qed.
Lemma side_concat o key vsss : side o key (concat vsss) = concat (side o key <$> vsss).
Proof. induction vsss as [|v l IH]; [by destruct key|]. cbn [concat fmap list_fmap]. by rewrite side_app, IH. Qed.
Lemma sides_none o key vsss : (∀ vss, vss ∈ vsss → side o key vss = []) → side o key (concat vsss) = [].
Proof. intros H. rewrite side_concat. induction vsss as [|v l IH]; [done|]. cbn [fmap list_fmap concat]. rewrite (H v), IH by set_solver. done. Qed.
Lemma sides_all o key vsss : (∀ vss, vss ∈ vsss → side o key vss = vss) → side o key (concat vsss) = concat vsss.
Proof. intros H. rewrite side_concat. induction vsss as [|v l IH]; [done|]. cbn [fmap list_fmap concat]. rewrite (H v), IH by set_solver. done. Qed.

(** The pages in the order they are visited. *)
Definition page_streams (o : ssorder) (key : option bytes) (pages : list (list (list sv))) : list sv :=
  match pages with
  | [] => []
  | p :: rest => concat (seek cmp o key p) ++ concat ((λ q, concat (seek cmp o None q)) <$> rest)
  end.
Lemma up_streams o key vsss n : downward o = false → (∀ i vss, vsss !! i = Some vss → (i < n)%nat → side o key vss = []) → (∀ i vss, vsss !! i = Some vss → (n < i)%nat → side o key vss = vss) →
  concat (seek cmp o key (concat vsss)) = page_streams o key (drop n vsss).
Proof.
  intros Ho H1 H2. rewrite seek_side, Ho. rewrite <- (take_drop n vsss) at 1. rewrite concat_app, side_app. rewrite (sides_none o key (take n vsss)).
  2: { intros vss (i & Hi)%list_elem_of_lookup. rewrite lookup_take_Some in Hi. destruct Hi as [Hi Hlt]. by apply (H1 i). }
  cbn [app]. destruct (drop n vsss) as [|p rest] eqn:E; [by destruct key|]. cbn [concat page_streams]. rewrite side_app, concat_app, seek_side, Ho. f_equal. rewrite sides_all.
  2: { intros vss (i & Hi)%list_elem_of_lookup. apply (H2 (n + S i)%nat); [|lia]. rewrite <- lookup_drop, E. done. }
  clear E. induction rest as [|q rest IH]; [done|]. cbn [concat fmap list_fmap]. rewrite concat_app, IH, seek_side, Ho. done.
Qed.
Lemma down_streams o key vsss n : downward o = true → (n <= length vsss)%nat → (∀ i vss, vsss !! i = Some vss → (n <= i)%nat → side o key vss = []) →
  (∀ i vss, vsss !! i = Some vss → (S i < n)%nat → side o key vss = vss) → concat (seek cmp o key (concat vsss)) = page_streams o key (reverse (take n vsss)).
Proof.
  intros Ho Hn H1 H2. rewrite seek_side, Ho. rewrite <- (take_drop n vsss) at 1. rewrite concat_app, side_app. rewrite (sides_none o key (drop n vsss)).
  2: { intros vss (i & Hi)%list_elem_of_lookup. rewrite lookup_drop in Hi. apply (H1 _ _ Hi). lia. }
  rewrite app_nil_r. destruct n as [|n]; [by destruct key|]. destruct (lookup_lt_is_Some_2 vsss n) as [p Hp]; [lia|]. rewrite (take_S_r _ _ _ Hp), reverse_app. cbn [reverse rev_append app].
  change (reverse [p]) with [p]. cbn [app page_streams]. rewrite concat_app, side_app. cbn [concat]. rewrite app_nil_r. rewrite (sides_all o key (take n vsss)).
  2: { intros vss (i & Hi)%list_elem_of_lookup. rewrite lookup_take_Some in Hi. destruct Hi as [Hi Hlt]. apply (H2 i); [done|lia]. }
  rewrite reverse_app, concat_app, seek_side, Ho. f_equal. clear -Ho. induction (take n vsss) as [|q l IH] using rev_ind; [done|].
  rewrite reverse_snoc, concat_app. cbn [concat fmap list_fmap]. rewrite app_nil_r, reverse_app, concat_app, IH, seek_side, Ho. done.
Qed.

(** ** Which pages are on the side of the key *)
Context (vsss : list (list (list sv))) (Hc : content_ok cmp (concat vsss)).
Lemma chain_in i vss c : vsss !! i = Some vss → c ∈ vss → c ∈ concat vsss.
Proof. intros Hi Hin. apply elem_of_concat. exists i, vss. done. Qed.
Lemma chain_head_in i vss c : vsss !! i = Some vss → c ∈ vss → ∃ a, head c = Some a ∧ a ∈ c.
Proof.
  intros Hi Hin. pose proof (ct_chains _ _ Hc) as HF. rewrite Forall_forall in HF. specialize (HF c (chain_in i vss c Hi Hin)).
  destruct c as [|a c]; [by destruct (co_ne _ _ HF)|]. exists a. split; [done|constructor].
Qed.
Lemma sorted_across i j v w c d a b : vsss !! i = Some v → vsss !! j = Some w → (i < j)%nat → c ∈ v → d ∈ w → a ∈ c → b ∈ d → scmp a b = -1.
Proof.
  pose proof (ct_sorted _ _ Hc) as Hs. clear Hc. revert i j. induction vsss as [|u l IH]; intros i j Hi Hj Hlt Hcv Hdw Ha Hb; [done|]. destruct j as [|j]; [lia|]. cbn [concat] in Hs. destruct i as [|i]; cbn in Hi, Hj.
  - injection Hi as ->. assert (d ∈ concat l) as Hd by (apply elem_of_concat; by exists j, w). exact (StronglySorted_app_1_elem_of _ _ _ c d Hs Hcv Hd a b Ha Hb).
  - eapply (IH ltac:(by eapply StronglySorted_app_1_r) i j); (done || lia).
Qed.
Lemma sorted_within i v c d a b : vsss !! i = Some v → c ∈ v → last v = Some d → a ∈ c → b ∈ d → scmp a b <= 0.
Proof.
  intros Hi Hcv Hd Ha Hb. pose proof (ct_sorted _ _ Hc) as Hs. pose proof (ct_chains _ _ Hc) as HF. rewrite Forall_forall in HF.
  assert (StronglySorted (λ c d, ∀ a b, a ∈ c → b ∈ d → scmp a b = -1) v) as Hsv.
  { rewrite <- (take_drop_middle vsss i v Hi), concat_app in Hs. apply StronglySorted_app_1_r in Hs. cbn [concat] in Hs. by apply StronglySorted_app_1_l in Hs. }
  apply last_Some in Hd as [v' ->]. apply elem_of_app in Hcv as [Hcv| ->%list_elem_of_singleton].
  - rewrite (StronglySorted_app_1_elem_of _ _ _ c d Hsv Hcv (list_elem_of_here _ _) a b Ha Hb). lia.
  - assert (d ∈ concat vsss) as Hin by (eapply chain_in; [done|set_solver]). rewrite (co_key _ _ (HF d Hin) a b Ha Hb). lia.
Qed.
Lemma sorted_within_first i v c d a b : vsss !! i = Some v → c ∈ v → head v = Some d → a ∈ c → b ∈ d → scmp b a <= 0.
Proof.
  intros Hi Hcv Hd Ha Hb. pose proof (ct_sorted _ _ Hc) as Hs. pose proof (ct_chains _ _ Hc) as HF. rewrite Forall_forall in HF.
  destruct v as [|d' v]; [done|]. injection Hd as ->. rewrite <- (take_drop_middle vsss i _ Hi), concat_app in Hs. apply StronglySorted_app_1_r in Hs. cbn [concat app] in Hs. apply StronglySorted_inv in Hs as [_ Hs].
  apply elem_of_cons in Hcv as [->|Hcv].
  - assert (d ∈ concat vsss) as Hin by (eapply chain_in; [done|set_solver]). rewrite (co_key _ _ (HF d Hin) b a Hb Ha). lia.
  - rewrite Forall_forall in Hs. rewrite (Hs c ltac:(set_solver) b a Hb Ha). lia.
Qed.
Lemma side_all o k i v : vsss !! i = Some v → (∀ c a, c ∈ v → a ∈ c → visits o (scmp a (mk_sv 0 0 k)) = true) → side o (Some k) v = v.
Proof. intros Hi Hv. apply filter_all. intros c Hin. destruct (chain_head_in i v c Hi Hin) as (a & -> & Ha). cbn. by apply (Hv c). Qed.
Lemma side_none o k i v : vsss !! i = Some v → (∀ c a, c ∈ v → a ∈ c → visits o (scmp a (mk_sv 0 0 k)) = false) → side o (Some k) v = [].
Proof.
  intros Hi Hv. unfold side. destruct (filter _ v) as [|c l] eqn:E; [done|]. exfalso. assert (c ∈ filter (λ c, visits o (scmp (default (mk_sv 0 0 []) (head c)) (mk_sv 0 0 k)) = true) v) as Hin by (rewrite E; constructor).
  apply list_elem_of_filter in Hin as [Hvis Hin]. destruct (chain_head_in i v c Hi Hin) as (a & Ea & Ha). rewrite Ea in Hvis. cbn in Hvis. by rewrite (Hv c a Hin Ha) in Hvis.
Qed.
(** Going up, what is visited stays visited behind it. *)
Lemma visits_up o a b k : downward o = false → scmp a b <= 0 → visits o (scmp a (mk_sv 0 0 k)) = true → visits o (scmp b (mk_sv 0 0 k)) = true.
Proof.
  intros Ho Hab. pose proof (cmp_opp (cmp:=scmp) a (mk_sv 0 0 k)) as E1. pose proof (cmp_opp (cmp:=scmp) b (mk_sv 0 0 k)) as E2. pose proof (cmp_opp (cmp:=scmp) a b) as E3.
  pose proof (cmp_le_trans (cmp:=scmp) (mk_sv 0 0 k) a b). pose proof (cmp_le_trans (cmp:=scmp) a b (mk_sv 0 0 k)). pose proof (cmp_range (cmp:=scmp) a (mk_sv 0 0 k)). pose proof (cmp_range (cmp:=scmp) b (mk_sv 0 0 k)).
  destruct o; try done; cbn [visits]; rewrite ?Z.gtb_lt, ?Z.geb_le; lia.
Qed.
Lemma visits_down o a b k : downward o = true → scmp a b <= 0 → visits o (scmp b (mk_sv 0 0 k)) = true → visits o (scmp a (mk_sv 0 0 k)) = true.
Proof.
  intros Ho Hab. pose proof (cmp_opp (cmp:=scmp) a (mk_sv 0 0 k)) as E1. pose proof (cmp_opp (cmp:=scmp) b (mk_sv 0 0 k)) as E2. pose proof (cmp_opp (cmp:=scmp) a b) as E3.
  pose proof (cmp_le_trans (cmp:=scmp) a b (mk_sv 0 0 k)). pose proof (cmp_le_trans (cmp:=scmp) (mk_sv 0 0 k) a b). pose proof (cmp_range (cmp:=scmp) a (mk_sv 0 0 k)). pose proof (cmp_range (cmp:=scmp) b (mk_sv 0 0 k)).
  destruct o; try done; cbn [visits]; rewrite ?Z.ltb_lt, ?Z.leb_le; lia.
Qed.
End seek.
