(* ===== verification/SiRead.v ===== *)
(** Reading a branch from its file, si_read.h: the pages the index names are read one after the
    other (from the file, from its map or compressed) and iterated. *)
From stdpp Require Import base list sorting sets.
From S2P Require Import Prelude SsOrder Sv SsBytes SsBuf SsFilter Sf Sr SrScheme SvMerge SvMergeProofs SvIndex SvIndexProofs SvIndexIter SdPage SdPageIter SdPageRep SdPageKv SdPageSpec SdBuild SdBuildProofs SdBuildKv SdBuildSpec SdIndex SdIndexIter SdIndexBuild SdMerge SdMergeProofs SsFile SdCommit SdIter SiBranch SdRecover.
Local Open Scope Z_scope.
Local Open Scope c_scope.

(** * Model *)

(** The node's file and map, the buffers of a read, and the counter of page reads. *)
Record rdst := mk_rdst { rd_file : ssfile; rd_map : ssmmap; rd_buf : ssbuf; rd_xf : ssbuf; rd_read : ssbuf; rd_disk : Z }.
Definition with_rfile (f : ssfile) (s : rdst) := mk_rdst f (rd_map s) (rd_buf s) (rd_xf s) (rd_read s) (rd_disk s).
Definition with_rbuf (b : ssbuf) (s : rdst) := mk_rdst (rd_file s) (rd_map s) b (rd_xf s) (rd_read s) (rd_disk s).
Definition with_rxf (b : ssbuf) (s : rdst) := mk_rdst (rd_file s) (rd_map s) (rd_buf s) b (rd_read s) (rd_disk s).
Definition with_rread (b : ssbuf) (s : rdst) := mk_rdst (rd_file s) (rd_map s) (rd_buf s) (rd_xf s) b (rd_disk s).
Definition with_rdisk (n : Z) (s : rdst) := mk_rdst (rd_file s) (rd_map s) (rd_buf s) (rd_xf s) (rd_read s) n.
Definition on_nfile {A} : cmd ssfile A → cmd rdst A := lift rd_file with_rfile.
Definition on_rbuf {A} : cmd ssbuf A → cmd rdst A := lift rd_buf with_rbuf.
Definition on_rxf {A} : cmd ssbuf A → cmd rdst A := lift rd_xf with_rxf.
Definition on_rread {A} : cmd ssbuf A → cmd rdst A := lift rd_read with_rread.
Definition breset : cmd ssbuf () := λ b, Some ((), ss_bufreset b).
Definition rmodify (f : rdst → rdst) : cmd rdst () := λ s, Some ((), f s).

(** What a read is given: the fields of [sireadarg] that are not memory; [ra_mmap],
    [ra_compression]: of the scheme. *)
Record sireadarg := mk_readarg { ra_compression : bool; ra_mmap : bool; ra_b : sdindex; ra_vlsn : Z; ra_has : bool; ra_mmap_copy : bool; ra_o : ssorder }.
(** [sd_page]: the bytes of the current page; the iterators are those of the cache. *)
Record siread := mk_siread { sd_ref : option nat; sd_page : bytes; sd_ii : sdindexiter; sd_pi : sdpageiter }.
Definition with_ref (ref : option nat) (i : siread) := mk_siread ref (sd_page i) (sd_ii i) (sd_pi i).

Section model.
Context `{Alloc} (r : sr) {F : Type} (compressionif : ssfilterif F) (io : nat) (arg : sireadarg).

(** Reads from the index of the branch, and an access to a page and the conversion buffer. *)
Definition at_index {A} (m : cmd sdindex A) : cmd rdst A := cread (λ _, fst <$> m (ra_b arg)).
Definition at_page {A} (P : bytes) (m : cmd pgst A) : cmd rdst A := λ s,
  match m (mk_pgst P (b_mem (rd_xf s))) with
  | Some (a, p) => Some (a, with_rxf (mk_buf (b_reserve (rd_xf s)) (b_at (rd_xf s)) (pg_xf p) (b_p (rd_xf s))) s)
  | None => None
  end.
(** Where the map of the node shows [off]. *)
Definition map_at (off n : nat) : cmd rdst bytes := cread (λ s, m ← mm_p (rd_map s); mem_read off n m).

(** The page of an entry; [None]: -1. *)
Definition read_compressed (ref : sdindexpage) (offset : nat) : cmd rdst (option bytes) :=
  let! data := (if ra_mmap arg then let! m := map_at offset (Z.to_nat (g_size ref)) in cret (Some m) else
                on_rread breset;;;
                let! rc := on_rread (ss_bufensure (i32 (g_size ref))) in
                if Z.eqb rc (-1) then cret None else
                let! data := on_nfile (ss_filepread io offset (Z.to_nat (g_size ref))) in
                match data with
                | None => cret None
                | Some data => on_rread (buf_copy 0 data);;; on_rread (ss_bufadvance (Z.to_nat (g_size ref)));;; cret (Some data)
                end) in
  match data with
  | None => cret None
  | Some data =>
      let! hb := cread (λ _, mem_read 0 sizeof_sdpageheader data) in
      let! s := cget in
      on_rbuf (buf_copy (b_p (rd_buf s)) hb);;;
      on_rbuf (ss_bufadvance sizeof_sdpageheader);;;
      let '(rc, f) := ss_filterinit compressionif SS_FOUTPUT in
      if Z.eqb rc (-1) then cret None else
      let size := i32 (g_size ref - Z.of_nat sizeof_sdpageheader) in
      let! body := cread (λ _, mem_read sizeof_sdpageheader (Z.to_nat size) data) in
      let! rc := on_rbuf (λ b, match ss_filternext body (f, b) with Some (rc, (_, b)) => Some (rc, b) | None => None end) in
      if Z.eqb rc (-1) then cret None else
      let! P := cread (λ s, page_memory 0 (b_mem (rd_buf s))) in
      cret (Some P)
  end.
Definition si_read_page (ref : sdindexpage) : cmd rdst (option bytes) :=
  rmodify (λ s, with_rdisk (u64 (rd_disk s + 1)) s);;;
  let! h := at_index index_h in
  on_rxf breset;;;
  let! rc := on_rxf (ss_bufensure (i32 (x_sizevmax h))) in
  if Z.eqb rc (-1) then cret None else
  on_rbuf breset;;;
  let! rc := on_rbuf (ss_bufensure (i32 (g_sizeorigin ref))) in
  if Z.eqb rc (-1) then cret None else
  let offset := Z.to_nat (u64 (x_offset h + sd_indexsize h + g_offset ref)) in
  let size := Z.to_nat (g_sizeorigin ref) in
  if ra_compression arg then read_compressed ref offset else
  if ra_mmap arg then
    if ra_mmap_copy arg then
      let! data := map_at offset size in
      on_rbuf (buf_copy 0 data);;;
      let! P := cread (λ s, page_memory 0 (b_mem (rd_buf s))) in
      cret (Some P)
    else
      let! P := cread (λ s, m ← mm_p (rd_map s); page_memory offset m) in
      cret (Some P)
  else
  let! data := on_nfile (ss_filepread io offset size) in
  match data with
  | None => cret None
  | Some data =>
      on_rbuf (buf_copy 0 data);;;
      on_rbuf (ss_bufadvance size);;;
      let! P := cread (λ s, page_memory 0 (b_mem (rd_buf s))) in
      cret (Some P)
  end.

(** The answer is -1, or what [sd_pageiter_open] answers. *)
Definition si_read_openpage (key : option bytes) (i : siread) : cmd rdst (Z * siread) :=
  let! v := cread (λ _, sd_ref i) in
  let! ref := at_index (rd_indexpage v) in
  let! P := si_read_page ref in
  match P with
  | None => cret (-1, i)
  | Some P =>
      let! res := at_page P (sd_pageiter_open r (ra_o arg) key) in
      cret (if res.1 : bool then 1 else 0, mk_siread (sd_ref i) P (sd_ii i) res.2)
  end.
Definition next_turn (i : siread) : cmd rdst (siread + siread) :=
  if sd_pageiter_has (sd_pi i) then cret (inr i) else
  let! ii := at_index (sd_indexiter_next (sd_ii i)) in
  let i := mk_siread (sd_indexiter_of ii) (sd_page i) ii (sd_pi i) in
  match sd_ref i with
  | None => cret (inr i)
  | Some _ =>
      let! res := si_read_openpage None i in
      cret (if Z.eqb res.1 (-1) then inr (with_ref None res.2) else inl res.2)
  end.
(** [n]: a turn for each page. *)
Definition si_read_next (n : nat) (i : siread) : cmd rdst siread :=
  match sd_ref i with
  | None => cret i
  | Some _ =>
      let! pi := at_page (sd_page i) (sd_pageiter_next r (sd_pi i)) in
      cloop n next_turn (mk_siread (sd_ref i) (sd_page i) (sd_ii i) pi)
  end.
Definition si_read_open (n : nat) (key : option bytes) : cmd rdst (Z * siread) :=
  let! ii := at_index (sd_indexiter_open (r_scheme r) (ra_o arg) key) in
  let i := mk_siread (sd_indexiter_of ii) [] ii (mk_pageiter 0 None (mk_sv 0 0 []) (ra_o arg) key) in
  match sd_ref i with
  | None => cret (0, i)
  | Some v =>
      let! ref := at_index (rd_indexpage v) in
      (if ra_has arg then cassert (bool_decide (ra_o arg = SS_GTE)) else cret ());;;
      if ra_has arg && Z.leb (g_lsnmax ref) (ra_vlsn arg) then cret (0, with_ref None i) else
      let! res := si_read_openpage key i in
      let '(rc, i) := res in
      if Z.eqb rc (-1) then cret (-1, with_ref None i) else
      if sd_pageiter_has (sd_pi i) then cret (rc, i) else
      let! i := si_read_next n i in
      cret (0, i)
  end.
Definition si_read_close (i : siread) : siread := with_ref None i.
Definition si_read_has (i : siread) : bool := match sd_ref i with None => false | Some _ => sd_pageiter_has (sd_pi i) end.
Definition si_read_of (i : siread) : option sv := match sd_ref i with None => None | Some _ => sd_pageiter_of (sd_pi i) end.
End model.

(** The iterator as a source of the merge. *)
Definition read_iter `{Alloc} (r : sr) {F} (cif : ssfilterif F) (io : nat) (arg : sireadarg) (n : nat) : SsIter (rdst * siread) := {|
  it_of p := si_read_of p.2;
  it_next p := match si_read_next r cif io arg n p.2 p.1 with Some (i, s) => (s, i) | None => p end
|}.
