(* ===== verification/SiReadProofs.v ===== *)
(** Reading a branch from its file gives the versions of the branch from a key on: the pages an
    iterator visits, and what a failing system leaves of the stream. *)
From stdpp Require Import base list sorting sets.
From S2P Require Import Prelude SsOrder Sv SsBytes SsBuf SsFilter Sf Sr SrScheme SvMerge SvMergeProofs SvIndex SvIndexProofs SvIndexIter SdPage SdPageIter SdPageRep SdPageKv SdPageSpec SdBuild SdBuildProofs SdBuildKv SdBuildSpec SdIndex SdIndexIter SdIndexBuild SdMerge SdMergeProofs SsFile SdCommit SdIter SiBranch SdRecover SiSeek SiRead.
Local Open Scope Z_scope.
Local Open Scope c_scope.

(** * Keys of the index *)

(** The comparisons look at parts the rows have. *)
Definition parts_placed (s : srscheme) : Prop := Forall (λ p, (k_pos p < s_count s)%nat) (parts_of s).
Section keys.
Context (r : sr) (Hplaced : parts_placed (r_scheme r)).
Lemma key_part v i : key_ok r v → (i < s_count (r_scheme r))%nat → sf_keydata i (index_key r v) = Some (at_part i (sv_pointer v)) ∧ sf_keydata i (sv_pointer v) = Some (at_part i (sv_pointer v)).
Proof.
  intros (Hk & _ & Hf & _) Hi. assert (parts_in r (sv_pointer v) !! i = Some (at_part i (sv_pointer v))) as E by (unfold parts_in; by rewrite list_lookup_fmap, lookup_seq_lt).
  split; [|by apply Hk]. by apply (row_has_keys _ [] Hf).
Qed.
Lemma index_key_cmp v k : key_ok r v → scheme_cmp (r_scheme r) (index_key r v) k = scheme_cmp (r_scheme r) (sv_pointer v) k.
Proof.
  intros Hv. unfold scheme_cmp. unfold parts_placed in Hplaced. revert Hplaced. generalize (parts_of (r_scheme r)). induction 1 as [|p l Hp _ IH]; [done|]. cbn [parts_cmp].
  assert (at_part (k_pos p) (index_key r v) = at_part (k_pos p) (sv_pointer v)) as -> by (unfold at_part at 1; by rewrite (proj1 (key_part v _ Hv Hp))). by rewrite IH.
Qed.
Lemma index_key_ready v : key_ok r v → row_ready (r_scheme r) (sv_pointer v) → row_ready (r_scheme r) (index_key r v).
Proof.
  intros Hv. unfold row_ready. unfold parts_placed in Hplaced. rewrite !Forall_forall in *. intros Hr p Hp. destruct (Hr p Hp) as (f & k & E1 & E2 & E3 & E4). exists f, k. split_and!; try done.
  destruct (key_part v _ Hv (Hplaced p Hp)) as [Ea Eb]. rewrite Ea. congruence.
Qed.
Lemma index_key_cmp2 v w : key_ok r v → key_ok r w → scheme_cmp (r_scheme r) (index_key r v) (index_key r w) = sv_compare (scheme_cmp (r_scheme r)) v w.
Proof.
  intros Hv Hw. rewrite index_key_cmp by done. pose proof (cmp_opp (cmp:=scheme_cmp (r_scheme r)) (sv_pointer v) (index_key r w)) as E1. rewrite index_key_cmp in E1 by done.
  pose proof (cmp_opp (cmp:=scheme_cmp (r_scheme r)) (sv_pointer v) (sv_pointer w)) as E2. unfold sv_compare. lia.
Qed.
End keys.

(** * The pages of a branch *)

Lemma pages_at {A} (l : list A) n : (n <= length l)%nat → Forall2 (λ i v, l !! i = Some v) (seq 0 n) (take n l).
Proof. intros Hn. apply Forall2_same_length_lookup_2; [rewrite length_seq, length_take; lia|]. intros i j v [-> _]%lookup_seq Hv. rewrite lookup_take_Some in Hv. by destruct Hv. Qed.
Lemma pages_from {A} (l : list A) n : Forall2 (λ i v, l !! i = Some v) (seq n (length l - n)) (drop n l).
Proof. apply Forall2_same_length_lookup_2; [by rewrite length_seq, length_drop|]. intros i j v [-> _]%lookup_seq Hv. by rewrite lookup_drop in Hv. Qed.
Lemma StronglySorted_lookup_2 {A} (R : A → A → Prop) l : (∀ i j a b, l !! i = Some a → l !! j = Some b → (i < j)%nat → R a b) → StronglySorted R l.
Proof.
  induction l as [|a l IH]; intros Hl; constructor.
  - apply IH. intros i j b c Hb Hc' Hlt. apply (Hl (S i) (S j) b c Hb Hc'). lia.
  - apply Forall_lookup. intros j b Hb. apply (Hl 0%nat (S j) a b eq_refl Hb). lia.
Qed.

Section branch.
Context (r : sr) (Hplaced : parts_placed (r_scheme r)).
Abbreviation cmp := (scheme_cmp (r_scheme r)).
Context (vsss : list (list (list sv))) (Hc : content_ok cmp (concat vsss)) (Hne : Forall (λ vss, vss ≠ []) vsss).
Context (Hkeys : Forall (key_ok r) (concat (concat vsss))) (Hrows : Forall (λ v, row_ready (r_scheme r) (sv_pointer v)) (concat (concat vsss))).
(** The versions of each page. *)
Definition pages_of (vsss : list (list (list sv))) : list (list sv) := (λ vss, concat vss) <$> vsss.

Lemma version_in i vss c a : vsss !! i = Some vss → c ∈ vss → a ∈ c → key_ok r a ∧ row_ready (r_scheme r) (sv_pointer a).
Proof.
  intros Hi Hin Ha. assert (a ∈ concat (concat vsss)) as H. { apply list_elem_of_lookup in Ha as [n Ha]. apply elem_of_concat. pose proof (chain_in vsss i vss c Hi Hin) as Hcc. apply list_elem_of_lookup in Hcc as [m Hm]. exists m, c. split; [done|]. by eapply list_elem_of_lookup_2. }
  rewrite Forall_forall in Hkeys, Hrows. auto.
Qed.
(** The first and the last version of a page. *)
Lemma page_ends i vss : vsss !! i = Some vss → ∃ c d a b, head vss = Some c ∧ last vss = Some d ∧ c ∈ vss ∧ d ∈ vss ∧ a ∈ c ∧ b ∈ d ∧ range_of r (concat vss) = (index_key r a, index_key r b) ∧
  (key_ok r a ∧ row_ready (r_scheme r) (sv_pointer a)) ∧ key_ok r b ∧ row_ready (r_scheme r) (sv_pointer b).
Proof.
  intros Hi. pose proof (Forall_lookup_1 _ _ _ _ Hne Hi) as Hv. cbn beta in Hv. destruct vss as [|c vss]; [done|]. destruct (chain_head_in cmp vsss Hc i _ c Hi ltac:(constructor)) as (a & Ea & Ha).
  destruct (last (c :: vss)) as [d|] eqn:El; [|by apply last_None in El]. pose proof El as El2. apply last_Some in El as [l El]. assert (d ∈ c :: vss) as Hd by (rewrite El; set_solver).
  destruct (chain_head_in cmp vsss Hc i _ d Hi Hd) as (b0 & Eb & _). destruct (last d) as [b|] eqn:Elb; [|apply last_None in Elb; by subst]. assert (b ∈ d) as Hb by (apply last_Some in Elb as [l' ->]; set_solver).
  exists c, d, a, b. split; [done|]. split; [done|]. split; [constructor|]. do 3 (split; [done|]). split; [|split; [by apply (version_in i _ c _ Hi); [constructor|]|by apply (version_in i _ d _ Hi)]].
  unfold range_of. assert (last (concat (c :: vss)) = Some b) as -> by (rewrite El, concat_app; cbn [concat]; rewrite app_nil_r, last_app, Elb; done). destruct c as [|a' c]; [done|]. injection Ea as ->. done.
Qed.
Lemma content_page i vss : vsss !! i = Some vss → content_ok cmp vss.
Proof.
  intros Hi. destruct Hc as [Hch Hs]. rewrite <- (take_drop_middle vsss i vss Hi), concat_app in Hch, Hs. cbn [concat] in Hch, Hs. split.
  - apply Forall_app in Hch as [_ Hch]. by apply Forall_app in Hch as [Hch _].
  - apply StronglySorted_app_1_r in Hs. by apply StronglySorted_app_1_l in Hs.
Qed.
(** ** The index of the branch *)
Abbreviation mms := (range_of r <$> pages_of vsss).
Lemma page_mm i mm : mms !! i = Some mm → ∃ vss, vsss !! i = Some vss ∧ mm = range_of r (concat vss).
Proof. unfold pages_of. rewrite !list_lookup_fmap. destruct (vsss !! i) as [vss|]; [|done]. cbn. intros [= <-]. by eexists. Qed.
Lemma branch_sorted : pages_sorted cmp mms.
Proof.
  split.
  - apply Forall_lookup. intros i mm (vss & Hi & ->)%page_mm. destruct (page_ends i vss Hi) as (c & d & a & b & Hh & Hl & Hcv & Hdv & Ha & Hb & -> & (Ka & Ra) & Kb & Rb). cbn [fst snd].
    rewrite index_key_cmp2 by done. by eapply (sorted_within cmp vsss Hc i vss c d).
  - apply StronglySorted_lookup_2. intros i j m1 m2 (v & Hi & ->)%page_mm (w & Hj & ->)%page_mm Hlt.
    destruct (page_ends i v Hi) as (c & d & a & b & Hh & Hl & Hcv & Hdv & Ha & Hb & -> & (Ka & Ra) & Kb & Rb), (page_ends j w Hj) as (c' & d' & a' & b' & Hh' & Hl' & Hcv' & Hdv' & Ha' & Hb' & -> & (Ka' & Ra') & Kb' & Rb'). cbn [fst snd].
    rewrite index_key_cmp2 by done. by eapply (sorted_across cmp vsss Hc i j v w d c').
Qed.
Lemma branch_ready : Forall (λ mm, row_ready (r_scheme r) mm.1 ∧ row_ready (r_scheme r) mm.2) mms.
Proof.
  apply Forall_lookup. intros i mm (vss & Hi & ->)%page_mm. destruct (page_ends i vss Hi) as (c & d & a & b & Hh & Hl & Hcv & Hdv & Ha & Hb & -> & (Ka & Ra) & Kb & Rb). cbn [fst snd].
  split; by apply index_key_ready.
Qed.
(** ** The pages a walk goes to *)
Abbreviation scmp := (sv_compare cmp).
Abbreviation at_key k := (mk_sv 0 0 k).
Lemma edge_last i vss k o : vsss !! i = Some vss → ∃ d b, last vss = Some d ∧ d ∈ vss ∧ b ∈ d ∧ visits o (cmp (range_of r (concat vss)).2 k) = visits o (scmp b (at_key k)).
Proof. intros Hi. destruct (page_ends i vss Hi) as (c & d & a & b & _ & Hl & _ & Hd & _ & Hb & -> & _ & Kb & _). exists d, b. split_and!; try done. cbn [snd]. by rewrite index_key_cmp. Qed.
Lemma edge_first i vss k o : vsss !! i = Some vss → ∃ c a, head vss = Some c ∧ c ∈ vss ∧ a ∈ c ∧ visits o (cmp (range_of r (concat vss)).1 k) = visits o (scmp a (at_key k)).
Proof. intros Hi. destruct (page_ends i vss Hi) as (c & d & a & b & Hh & _ & Hcv & _ & Ha & _ & -> & (Ka & _) & _). exists c, a. split_and!; try done. cbn [fst]. by rewrite index_key_cmp. Qed.
Lemma mm_at i vss : vsss !! i = Some vss → mms !! i = Some (range_of r (concat vss)).
Proof. intros Hi. unfold pages_of. by rewrite !list_lookup_fmap, Hi. Qed.

Section key.
Context (o : ssorder) (k : bytes) (n : nat).
Section up.
Context (Ho : downward o = false) (Hup : ∀ i mm, mms !! i = Some mm → visits o (cmp mm.2 k) = true ↔ (n <= i)%nat).
Lemma before_up i v c a : vsss !! i = Some v → (i < n)%nat → c ∈ v → a ∈ c → visits o (scmp a (at_key k)) = false.
Proof.
  intros Hi Hlt Hcv Ha. destruct (edge_last i v k o Hi) as (d & b & Hl & Hd & Hb & E). pose proof (proj1 (Hup i _ (mm_at i v Hi))) as Hi'. rewrite E in Hi'.
  apply not_true_is_false. intros Hv. enough (n <= i)%nat by lia. apply Hi'. apply (visits_up cmp o a b k Ho); [|done]. by apply (sorted_within cmp vsss Hc i v c d).
Qed.
Lemma behind_up i v c a : vsss !! i = Some v → (n < i)%nat → c ∈ v → a ∈ c → ∃ b, visits o (scmp b (at_key k)) = true ∧ scmp b a = -1.
Proof.
  intros Hi Hlt Hcv Ha. destruct (lookup_lt_is_Some_2 vsss n) as [w Hn]; [apply lookup_lt_Some in Hi; lia|]. destruct (edge_last n w k o Hn) as (d & b & Hl & Hd & Hb & E).
  pose proof (proj2 (Hup n _ (mm_at n w Hn))) as Hn'. rewrite E in Hn'. exists b. split; [by apply Hn'|]. by apply (sorted_across cmp vsss Hc n i w v d c).
Qed.
Lemma stream_up : concat (seek cmp o (Some k) (concat vsss)) = page_streams cmp o (Some k) (drop n vsss).
Proof.
  apply up_streams; [exact _|done|..].
  - intros i v Hi Hlt. apply (side_none cmp vsss Hc o k i v Hi). intros c a. by apply (before_up i).
  - intros i v Hi Hlt. apply (side_all cmp vsss Hc o k i v Hi). intros c a Hcv Ha. destruct (behind_up i v c a Hi Hlt Hcv Ha) as (b & Hv & E). apply (visits_up cmp o b a k Ho); [lia|done].
Qed.
Lemma first_up v : vsss !! n = Some v → ∃ c a, c ∈ v ∧ a ∈ c ∧ visits o (scmp a (at_key k)) = true.
Proof. intros Hn. destruct (edge_last n v k o Hn) as (d & b & _ & Hd & Hb & E). exists d, b. split_and!; [done|done|]. rewrite <- E. by apply (Hup n _ (mm_at n v Hn)). Qed.
End up.
Section down.
Context (Ho : downward o = true) (Hdown : ∀ i mm, mms !! i = Some mm → visits o (cmp mm.1 k) = true ↔ (i < n)%nat).
Lemma stream_down : (n <= length vsss)%nat → concat (seek cmp o (Some k) (concat vsss)) = page_streams cmp o (Some k) (reverse (take n vsss)).
Proof.
  intros Hn. apply down_streams; [exact _|done|done|..].
  - intros i v Hi Hle. apply (side_none cmp vsss Hc o k i v Hi). intros c b Hcv Hb. destruct (edge_first i v k o Hi) as (c' & a & Hh & Hc' & Ha & E).
    pose proof (proj1 (Hdown i _ (mm_at i v Hi))) as Hi'. rewrite E in Hi'. apply not_true_is_false. intros Hv. enough (i < n)%nat by lia. apply Hi'. apply (visits_down cmp o a b k Ho); [|done].
    by apply (sorted_within_first cmp vsss Hc i v c c').
  - intros i v Hi Hlt. apply (side_all cmp vsss Hc o k i v Hi). intros c b Hcv Hb. destruct (lookup_lt_is_Some_2 vsss (pred n)) as [w Hw]; [lia|]. destruct (edge_first (pred n) w k o Hw) as (c' & a & Hh & Hc' & Ha & E).
    apply (visits_down cmp o b a k Ho); [|rewrite <- E; apply (Hdown _ _ (mm_at _ w Hw)); lia]. rewrite (sorted_across cmp vsss Hc i (pred n) v w c c' b a); (done || lia).
Qed.
Lemma first_down v : vsss !! pred n = Some v → (0 < n)%nat → ∃ c a, c ∈ v ∧ a ∈ c ∧ visits o (scmp a (at_key k)) = true.
Proof. intros Hn H0. destruct (edge_first _ v k o Hn) as (c & a & _ & Hcv & Ha & E). exists c, a. split_and!; [done|done|]. rewrite <- E. apply (Hdown _ _ (mm_at _ v Hn)). lia. Qed.
End down.
End key.

(** A version on the side of the key makes the page give something. *)
Lemma seek_nonempty o key i v c a : vsss !! i = Some v → c ∈ v → a ∈ c → (∀ k, key = Some k → visits o (scmp a (at_key k)) = true) → concat (seek cmp o key v) ≠ [].
Proof.
  intros Hi Hcv Ha Hk. assert (c ∈ side cmp o key v) as Hs.
  { destruct key as [k|]; [|done]. cbn [side]. apply list_elem_of_filter. split; [|done]. destruct (chain_head_in cmp vsss Hc i v c Hi Hcv) as (b & -> & Hb). cbn [default].
    pose proof (ct_chains _ _ Hc) as HF. rewrite Forall_forall in HF. pose proof (co_key _ _ (HF c (chain_in vsss i v c Hi Hcv))) as Hco.
    destruct (downward o) eqn:E; [apply (visits_down cmp o b a k E)|apply (visits_up cmp o a b k E)]; try (by apply Hk); rewrite Hco by done; lia. }
  assert (a ∈ concat (seek cmp o key v)) as Hin.
  { assert (c ∈ seek cmp o key v) as [j Hj]%list_elem_of_lookup by (rewrite seek_side; destruct (downward o); set_solver). apply elem_of_concat. by exists j, c. }
  intros E. rewrite E in Hin. by apply not_elem_of_nil in Hin.
Qed.
Lemma found_spec k vss : found cmp k vss = true ↔ ∃ c, c ∈ vss ∧ scmp (default (mk_sv 0 0 []) (head c)) (at_key k) = 0.
Proof.
  unfold found. rewrite existsb_exists. split; intros (c & H1 & H2); exists c; (split; [by apply list_elem_of_In|lia]).
Qed.
(** A key of the branch is on the first page of the walk up from it. *)
Lemma found_first k n : (∀ i mm, mms !! i = Some mm → visits SS_GTE (cmp mm.2 k) = true ↔ (n <= i)%nat) →
  found cmp k (concat vsss) = match vsss !! n with Some v => found cmp k v | None => false end.
Proof.
  intros Hup. assert (found cmp k (concat vsss) = true ↔ ∃ v, vsss !! n = Some v ∧ found cmp k v = true) as Hiff.
  2: { apply eq_true_iff_eq. rewrite Hiff. destruct (vsss !! n); [|by split; [intros (v & ? & _)|]]. split; [by intros (v & [= ->] & ?)|intros ?; by eexists]. }
  split.
  - intros (c & (i & v & Hi & Hin)%elem_of_concat & E)%found_spec. destruct (chain_head_in cmp vsss Hc i v c Hi Hin) as (a & Ea & Ha). rewrite Ea in E. assert (scmp a (at_key k) = 0) as E0 by exact E. clear E.
    destruct (Nat.lt_total i n) as [Hlt|[->|Hlt]].
    + pose proof (before_up SS_GTE k n eq_refl Hup i v c a Hi Hlt Hin Ha) as Hv. cbn [visits] in Hv. by rewrite E0 in Hv.
    + exists v. split; [done|]. apply found_spec. exists c. by rewrite Ea.
    + destruct (behind_up SS_GTE k n Hup i v c a Hi Hlt Hin Ha) as (b & Hv & Eb). cbn [visits] in Hv. apply Z.geb_le in Hv. exfalso.
      pose proof (cmp_le_lt_trans scmp (at_key k) b a). pose proof (cmp_opp (cmp:=scmp) b (at_key k)). pose proof (cmp_opp (cmp:=scmp) a (at_key k)). lia.
  - intros (v & Hn & (c & Hin & E)%found_spec). apply found_spec. exists c. split; [|done]. by eapply chain_in.
Qed.

Lemma page_nonempty o i v : vsss !! i = Some v → concat (seek cmp o None v) ≠ [].
Proof.
  intros Hi. pose proof (Forall_lookup_1 _ _ _ _ Hne Hi) as Hv. destruct v as [|c v]; [done|]. destruct (chain_head_in cmp vsss Hc i _ c Hi ltac:(constructor)) as (a & _ & Ha).
  by apply (seek_nonempty o None i _ c a Hi ltac:(constructor) Ha).
Qed.
(** The pages at the positions the iterator over the index goes to, and what they give. *)
Lemma positions_pages ps o key todo : length ps = length vsss → positions ps mms (r_scheme r) o key todo → walk_order o = true →
  ∃ L, Forall2 (λ i v, vsss !! i = Some v) todo L ∧ concat (seek cmp o key (concat vsss)) = page_streams cmp o key L ∧
    (∀ v, head L = Some v → concat (seek cmp o key v) ≠ []) ∧
    ∀ k, key = Some k → o = SS_GTE → found cmp k (concat vsss) = match L with [] => false | v :: _ => found cmp k v end.
Proof.
  intros Hps (n & Hn & Hpos) Ho. rewrite Hps in *. destruct (downward o) eqn:Ed; destruct Hpos as (-> & Hnone & Hsome).
  - exists (reverse (take n vsss)). split; [apply Forall2_reverse, pages_at; lia|]. split_and!.
    + destruct key as [k|]; [by apply (stream_down o k n Ed (Hsome k eq_refl))|]. apply (down_streams cmp); try done. intros i v Hi Hle. rewrite (Hnone eq_refl) in Hle. apply lookup_lt_Some in Hi. lia.
    + intros v Hv. destruct n as [|n]; [done|]. destruct (lookup_lt_is_Some_2 vsss n) as [w Hw]; [lia|]. rewrite (take_S_r _ _ _ Hw), reverse_snoc in Hv. injection Hv as <-.
      destruct key as [k|]; [|by apply (page_nonempty o n)]. destruct (first_down o k (S n) (Hsome k eq_refl) w Hw) as (c & a & Hcw & Ha & Hv); [lia|].
      apply (seek_nonempty o (Some k) n w c a Hw Hcw Ha). by intros ? [= <-].
    + intros k -> ->. done.
  - exists (drop n vsss). split; [apply pages_from|]. split_and!.
    + destruct key as [k|]; [by apply (stream_up o k n Ed (Hsome k eq_refl))|]. apply (up_streams cmp); try done. intros i v Hi Hlt. rewrite (Hnone eq_refl) in Hlt. lia.
    + intros v Hv. rewrite head_lookup, lookup_drop, Nat.add_0_r in Hv. destruct key as [k|]; [|by apply (page_nonempty o n)].
      destruct (first_up o k n (Hsome k eq_refl) v Hv) as (c & a & Hcw & Ha & Hvis). apply (seek_nonempty o (Some k) n v c a Hv Hcw Ha). by intros ? [= <-].
    + intros k -> ->. rewrite (found_first k n (Hsome k eq_refl)). destruct (vsss !! n) as [v|] eqn:E; [by rewrite (drop_S _ _ _ E)|]. rewrite drop_ge by (by apply lookup_ge_None). done.
Qed.
End branch.

(** * Reading a page *)

Lemma page_rep_of r P vs : page_of r P vs → ∃ h ds body, page_rep P h ds body.
Proof. unfold page_of. destruct (r_fmt_storage r); [intros (h & ds & v & k & Hp & _)|intros (h & ds & b & Hp & _)]; eexists h, ds, _; exact Hp. Qed.
(** The bytes of a page are the same page wherever they lie. *)
Lemma page_memory_of r P vs o m : page_of r P vs → mem_at m o P → page_memory o m = Some P.
Proof.
  intros (h & ds & body & Hp)%page_rep_of Hat. unfold page_memory. pose proof (pr_bytes _ _ _ _ Hp) as E. rewrite (header_read _ _ h); [|rewrite E in Hat; by apply mem_at_app in Hat as [Hat _]|apply Hp].
  cbn [mbind option_bind]. rewrite (pr_size _ _ _ _ Hp), Nat2Z.id. apply mem_at_read in Hat. rewrite <- Hat. f_equal. rewrite E, !length_app, header_length, sdvs_length. lia.
Qed.
Lemma page_memory_at o m P : page_memory o m = Some P → mem_at m o P ∧ (sizeof_sdpageheader <= length P)%nat.
Proof.
  unfold page_memory. destruct (header_at o m) as [h|]; [|done]. cbn [mbind option_bind]. intros [Hat Hl]%mem_read_at. split; [done|lia].
Qed.
Lemma mem_at_prefix (a b : bytes) o bs : a `prefix_of` b → mem_at a o bs → mem_at b o bs.
Proof. intros [x ->] (l & r & -> & Hl). exists l, (r ++ x). split; [by rewrite <- !app_assoc|done]. Qed.

Lemma cleared_cap T b : buf_cap T b → buf_cap T (ss_bufreset b) ∧ content (ss_bufreset b) = [].
Proof. intros [[H1 H2 H3] Hs]. split; [|done]. split; [|done]. split; cbn [ss_bufreset b_p b_mem b_at b_reserve]; [lia|done|done]. Qed.

Section read.
Context `{Alloc} (r : sr) {F : Type} (cif : ssfilterif F) (io : nat) (arg : sireadarg) (T : Z) (file : bytes) (A : list answer).
Context (HT : 4 * T <= INT_MAX) (Hio : (length A < io)%nat) (Hplain : ra_compression arg = false).

(** Why a page may not be read. *)
Definition read_fails : Prop := (∃ n, ss_malloc n = None) ∨ stalls A.
(** The file still has the branch, and its map shows the file. *)
Record rok (s : rdst) : Prop := {
  rk_file : file `prefix_of` o_data (fl_os (rd_file s));
  rk_map : ra_mmap arg = true → ∃ m, mm_p (rd_map s) = Some m ∧ file `prefix_of` m;
  rk_buf : buf_cap T (rd_buf s);
  rk_xf : buf_cap T (rd_xf s);
  rk_answers : o_answers (fl_os (rd_file s)) `suffix_of` A
}.
(** A buffer made ready for [size] bytes, which are then at its start. *)
Lemma fresh_buf b size : buf_cap T b → 0 <= size <= T →
  wp (ss_bufensure (i32 size)) (ss_bufreset b) (λ rc b', (rc = -1 ∧ buf_cap T b' ∧ ∃ n, ss_malloc n = None) ∨ (rc = 0 ∧ buf_cap T b' ∧ b_p b' = 0%nat ∧ size <= blen (b_mem b'))).
Proof.
  intros Hb Hs. destruct (cleared_cap T b Hb) as [Hr Hc]. rewrite swrap_id by (unfold INT_MAX in *; lia). eapply wp_mono; [apply (ensure_cap T); [done|done|lia|unfold ss_bufused; cbn [ss_bufreset b_p]; lia]|].
  intros rc b' [(-> & -> & Hn)|(-> & Hcap & Hc' & Hroom)]; [by left|right]. split; [done|]. split; [done|]. assert (b_p b' = 0%nat) as E.
  { rewrite <- (content_length b' (proj1 Hcap)), Hc', Hc. done. }
  split; [done|]. unfold fresh_room, ss_bufunused in Hroom. rewrite E in Hroom. unfold blen. lia.
Qed.
(** Bytes copied to its start. *)
Lemma copy_start b bs : buf_cap T b → (length bs <= length (b_mem b))%nat → wp (buf_copy 0 bs) b (λ _ b', buf_cap T b' ∧ mem_at (b_mem b') 0 bs ∧ b_p b' = b_p b ∧ length (b_mem b') = length (b_mem b)).
Proof.
  intros [Hok Hs] Hl. eapply wp_mono; [apply (buf_copy_ok b 0 (take (length bs) (b_mem b)) bs Hok)|].
  - exists [], (drop (length bs) (b_mem b)). split; [by rewrite take_drop|done].
  - rewrite length_take. lia.
  - intros [] b' (Hok' & Hp & _ & Hlen & _ & Hat & _). unfold buf_cap, ss_bufsize. rewrite Hlen. by split_and!.
Qed.

(** ** One page *)
Context (h : sdindexheader) (ps : list sdindexpage) (mms : list (bytes * bytes)) (Hx : index_rep (ra_b arg) h ps mms) (Hvmax : x_sizevmax h <= T) (Hfile : blen file < 18446744073709551616).
Definition page_read (P : bytes) (res : option bytes) (s' : rdst) : Prop :=
  rok s' ∧ match res with None => read_fails | Some P' => P' = P ∧ x_sizevmax h <= blen (b_mem (rd_xf s')) end.
Lemma page_offset k p P : ps !! k = Some p → page_memory (first_page h + Z.to_nat (g_offset p)) file = Some P →
  Z.to_nat (u64 (x_offset h + sd_indexsize h + g_offset p)) = (first_page h + Z.to_nat (g_offset p))%nat.
Proof.
  intros Hp [Hat%mem_at_length Hl]%page_memory_at. destruct (ir_header _ _ _ _ Hx) as (_ & _ & _ & Ho & Hs & _). destruct (ir_mem _ _ _ _ Hx) as (keys & rest & _ & HF).
  destruct (Forall2_lookup_l _ _ _ _ _ HF Hp) as (mm & _ & (Hg & _) & _). assert (0 <= sd_indexsize h) by (unfold sd_indexsize, wrap; by apply Z.mod_pos_bound).
  unfold in_u in *. unfold first_page, blen in *. rewrite wrap_id by (unfold in_u; lia). lia.
Qed.
Section page.
Context (k : nat) (p : sdindexpage) (P : bytes) (vs : list sv).
Context (Hp : ps !! k = Some p) (HP : page_memory (first_page h + Z.to_nat (g_offset p)) file = Some P) (Hof : page_of r P vs) (Hsize : g_sizeorigin p = blen P) (HPT : blen P <= T).
Lemma si_read_page_ok s : rok s → wp (si_read_page cif io arg p) s (page_read P).
Proof.
  intros [R1 R2 R3 R4 R5]. pose proof (page_memory_at _ _ _ HP) as [Hat Hmin]. unfold si_read_page. apply wp_bind. unfold rmodify, wp at 1. apply wp_bind. unfold wp at 1, at_index, cread. rewrite (index_h_run _ _ _ _ Hx). cbn [fmap option_fmap option_map fst].
  destruct (ir_header _ _ _ _ Hx) as (_ & _ & _ & _ & _ & Hvm & _). unfold in_u in Hvm. apply wp_bind, wp_lift. unfold breset, wp at 1. apply wp_bind, wp_lift. cbn [rd_xf with_rxf with_rdisk].
  eapply wp_mono; [apply (fresh_buf (rd_xf s) (x_sizevmax h) R4); lia|]. intros rc xf1 [(-> & X1 & Hno)|(-> & X1 & X2 & X3)]; cbn [Z.eqb Pos.eqb].
  { apply wp_ret. split; [by split|by left]. }
  apply wp_bind, wp_lift. unfold breset, wp at 1. apply wp_bind, wp_lift. cbn [rd_buf with_rbuf with_rxf with_rdisk]. pose proof (blen_pos P).
  eapply wp_mono; [apply (fresh_buf (rd_buf s) (g_sizeorigin p) R3); lia|]. intros rc b1 [(-> & B1 & Hno)|(-> & B1 & B2 & B3)]; cbn [Z.eqb Pos.eqb].
  { apply wp_ret. split; [by split|by left]. }
  rewrite (page_offset k p P Hp HP), Hplain, Hsize. assert (Z.to_nat (blen P) = length P) as EnP by (unfold blen; lia). rewrite !EnP. assert (length P <= length (b_mem b1))%nat as HPb by (unfold blen in *; lia). case_eq (ra_mmap arg); intros Emm.
  - destruct (R2 Emm) as (m & Em & Hpre). pose proof (mem_at_prefix _ _ _ _ Hpre Hat) as Hatm. destruct (ra_mmap_copy arg).
    + apply wp_bind. unfold wp at 1, map_at, cread. cbn [rd_map with_rbuf with_rxf with_rdisk]. rewrite Em. cbn [mbind option_bind]. rewrite (mem_at_read _ _ _ Hatm).
      apply wp_bind, wp_lift. cbn [rd_buf with_rbuf]. eapply wp_mono; [by apply copy_start|]. intros [] b2 (C1 & C2 & C3 & C4). apply wp_bind. unfold wp at 1, cread. cbn [rd_buf with_rbuf].
      rewrite (page_memory_of r P vs 0 _ Hof C2). apply wp_ret. split; [by split|done].
    + apply wp_bind. unfold wp at 1, cread. cbn [rd_map with_rbuf with_rxf with_rdisk]. rewrite Em. cbn [mbind option_bind]. rewrite (page_memory_of r P vs _ _ Hof Hatm). apply wp_ret. split; [by split|done].
  - pose proof (suffix_length _ _ R5) as Hans. pose proof (mem_at_prefix _ _ _ _ R1 Hat) as Hatd. pose proof (mem_at_length _ _ _ Hatd) as Hlen.
    destruct (filepread_ok io (first_page h + Z.to_nat (g_offset p)) (length P) (rd_file s)) as (res & f' & E & Ed & _ & Hsuf & HE); [lia|lia|unfold sizeof_sdpageheader in Hmin; lia|].
    apply wp_bind, wp_lift. unfold wp at 1. cbn [rd_file with_rbuf with_rxf with_rdisk]. rewrite E. assert (o_answers (fl_os f') `suffix_of` A) as Hsuf' by (by etrans).
    rewrite <- Ed in R1. destruct HE as [->|[-> Hst]]; [|apply wp_ret; split; [by split|right; exact (stalls_suffix _ _ R5 Hst)]].
    apply mem_at_read in Hatd. unfold mem_read in Hatd. rewrite decide_True in Hatd by done. injection Hatd as ->.
    apply wp_bind, wp_lift. cbn [rd_buf with_rbuf with_rfile]. eapply wp_mono; [by apply copy_start|]. intros [] b2 (C1 & C2 & C3 & C4). apply wp_bind, wp_lift. unfold ss_bufadvance, wp at 1.
    apply wp_bind. unfold wp at 1, cread. cbn [rd_buf with_rbuf b_mem]. rewrite (page_memory_of r P vs 0 _ Hof C2). apply wp_ret. split; [|done]. split; try done.
    destruct C1 as [[O1 O2 O3] O4]. split; [|done]. split; cbn [rd_buf with_rbuf b_p b_mem b_at b_reserve with_rfile]; [lia|done|done].
Qed.
End page.

(** ** The iterator on a page *)
Abbreviation cmp := (scheme_cmp (r_scheme r)).
Context (vsss : list (list (list sv))) (Hlen : length ps = length vsss) (Ho : walk_order (ra_o arg) = true).
Context (Hpages : ∀ k p vss, ps !! k = Some p → vsss !! k = Some vss → ∃ P, page_memory (first_page h + Z.to_nat (g_offset p)) file = Some P ∧ page_of r P (concat vss) ∧ g_sizeorigin p = blen P ∧ blen P <= T).
Context (Hreadable : ∀ k vss xf, vsss !! k = Some vss → x_sizevmax h <= blen xf → readable r xf (concat vss)).
Context (Hcontent : ∀ k vss, vsss !! k = Some vss → content_ok cmp vss) (Hsome : ∀ k vss, vsss !! k = Some vss → concat (seek cmp (ra_o arg) None vss) ≠ []).

(** The iterator is on a page and will give [l] of it. *)
Definition on_page_gives (s : rdst) (i : siread) (l : list sv) : Prop :=
  is_Some (sd_ref i) ∧ page_gives r (page_kept (sd_page i) (b_mem (rd_xf s))) (mk_pgst (sd_page i) (b_mem (rd_xf s))) (sd_pi i) l.
Definition put_xf (xf : bytes) (s : rdst) : rdst := with_rxf (mk_buf (b_reserve (rd_xf s)) (b_at (rd_xf s)) xf (b_p (rd_xf s))) s.
Lemma put_rok xf s : rok s → length xf = length (b_mem (rd_xf s)) → rok (put_xf xf s).
Proof.
  intros [R1 R2 R3 [[O1 O2 O3] O4] R5] Hl. split; try done. unfold buf_cap, ss_bufsize in *. cbn [rd_xf put_xf with_rxf b_mem]. rewrite Hl. split; [|done].
  split; cbn [b_p b_mem b_at b_reserve]; [lia| |done]. intros E. rewrite (O2 E) in Hl. by apply length_zero_iff_nil in Hl.
Qed.
Lemma at_page_run {B} P (m : cmd pgst B) s a xf : m (mk_pgst P (b_mem (rd_xf s))) = Some (a, mk_pgst P xf) → at_page P m s = Some (a, put_xf xf s).
Proof. intros E. unfold at_page. by rewrite E. Qed.
Lemma kept_xf P xf xf' : length xf' = length xf → page_kept P xf = page_kept P xf'.
Proof. intros E. unfold page_kept. by rewrite E. Qed.
Lemma gives_kept P xf st i l : page_gives r (page_kept P xf) st i l → st = mk_pgst P (pg_xf st) ∧ length (pg_xf st) = length xf.
Proof. destruct l; intros [[H1 H2] _]; (split; [destruct st; cbn in *; by subst|done]). Qed.

Lemma openpage_ok key i s k p vss : sd_ref i = Some (entry_at k) → ps !! k = Some p → vsss !! k = Some vss → rok s → (∀ k, key = Some k → row_ready (r_scheme r) k) →
  wp (si_read_openpage r cif io arg key i) s (λ res s', rok s' ∧
    ((res = (-1, i) ∧ read_fails) ∨
     (∃ eq i', res = (if eq : bool then 1 else 0, i') ∧ sd_ref i' = sd_ref i ∧ sd_ii i' = sd_ii i ∧ on_page_gives s' i' (concat (seek cmp (ra_o arg) key vss)) ∧
       ∀ k, ra_o arg = SS_GTE → key = Some k → eq = found cmp k vss))).
Proof.
  intros Er Hp Hv Hs Hkey. destruct (Hpages k p vss Hp Hv) as (P & HP & Hof & Hsz & HPT). unfold si_read_openpage. apply wp_bind. unfold wp at 1, cread. rewrite Er. apply wp_bind. unfold wp at 1, at_index, cread. rewrite (rd_indexpage_run _ _ _ _ Hx _ _ Hp).
  cbn [fmap option_fmap option_map fst]. apply wp_bind. eapply wp_mono; [by apply (si_read_page_ok k p P (concat vss))|]. intros [P'|] s1 [Hs1 Hr]; [|apply wp_ret; split; [done|by left]]. destruct Hr as [-> Hxf].
  destruct (page_open r P (b_mem (rd_xf s1)) vss (ra_o arg) key (Hreadable k vss _ Hv Hxf) Hof (Hcontent k vss Hv) Ho Hkey) as (eq & pi & st & E & G & Hf). destruct (gives_kept _ _ _ _ _ G) as [Est Hst].
  apply wp_bind. unfold wp at 1. rewrite Est in E. rewrite (at_page_run _ _ _ _ _ E). apply wp_ret. cbn [fst snd]. split; [by apply put_rok|]. right. exists eq, (mk_siread (Some (entry_at k)) P (sd_ii i) pi). split_and!; try done.
  split; [by eexists|]. cbn [sd_page sd_pi rd_xf put_xf with_rxf b_mem]. rewrite <- Est. by rewrite <- (kept_xf P _ _ Hst).
Qed.

(** ** From page to page *)
Context (n : nat) (Hn : (2 <= n)%nat).
(** The iterator gives these versions one after the other without a fault; a page that cannot
    be read ends it early. *)
Fixpoint read_gives (s : rdst) (i : siread) (l : list sv) : Prop :=
  match l with
  | [] => si_read_of i = None
  | v :: l => si_read_of i = Some v ∧ ∃ i' s', si_read_next r cif io arg n i s = Some (i', s') ∧ (read_gives s' i' l ∨ (sd_ref i' = None ∧ read_fails))
  end.
(** What follows the current page. *)
Definition rest_of (L : list (list (list sv))) : list sv := concat ((λ v, concat (seek cmp (ra_o arg) None v)) <$> L).
Definition to_come (i : siread) (L : list (list (list sv))) : Prop := ∃ todo, walks (ra_b arg) (sd_ii i) todo ∧ Forall2 (λ k v, vsss !! k = Some v) todo L.
Lemma on_page_of s i v l : on_page_gives s i (v :: l) → si_read_of i = Some v ∧ sd_pageiter_has (sd_pi i) = true.
Proof.
  intros [[e He] [_ [Ev _]]]. unfold si_read_of. rewrite He. split; [done|]. unfold sd_pageiter_of in Ev. by destruct (sd_pageiter_has (sd_pi i)).
Qed.
Lemma turn_here s i v l m : on_page_gives s i (v :: l) → cloop (S m) (next_turn r cif io arg) i s = Some (i, s).
Proof. intros Hg. rewrite cloop_S. unfold next_turn. by rewrite (proj2 (on_page_of _ _ _ _ Hg)). Qed.
(** The page is used up: the next one is opened, or there is none. *)
Lemma turn_page s i L : rok s → on_page_gives s i [] → to_come i L →
  ∃ i' s', cloop n (next_turn r cif io arg) i s = Some (i', s') ∧ rok s' ∧
    ((sd_ref i' = None ∧ read_fails) ∨ match L with [] => sd_ref i' = None | v :: L => on_page_gives s' i' (concat (seek cmp (ra_o arg) None v)) ∧ to_come i' L end).
Proof.
  intros Hs [_ [_ Ev]] (todo & Hw & HF). destruct n as [|[|m]]; [lia|lia|]. assert (sd_pageiter_has (sd_pi i) = false) as Eh by (unfold sd_pageiter_of in Ev; by destruct (sd_pageiter_has (sd_pi i))).
  rewrite cloop_S. unfold next_turn at 1. rewrite Eh. unfold cbind at 1, at_index at 1, cread at 1. assert (∃ ii, sd_indexiter_next (sd_ii i) (ra_b arg) = Some (ii, ra_b arg) ∧ match todo with [] => sd_indexiter_of ii = None | k :: todo => sd_indexiter_of ii = Some (entry_at k) ∧ walks (ra_b arg) ii todo end) as (ii & -> & Hii) by (by destruct todo).
  cbn [fmap option_fmap option_map fst sd_ref]. destruct HF as [|k v todo L Hkv HF]; [rewrite Hii; eexists _, s; split; [done|]; split; [done|]; by right|]. destruct Hii as [-> Hw'].
  destruct (lookup_lt_is_Some_2 ps k) as [p Hp]; [rewrite Hlen; by eapply lookup_lt_Some|].
  set (i1 := mk_siread (Some (entry_at k)) (sd_page i) ii (sd_pi i)). destruct (proj1 (wp_run _ _ _) (openpage_ok None i1 s k p v eq_refl Hp Hkv Hs ltac:(done))) as (res & s1 & E & Hs1 & HE).
  unfold cbind at 1. rewrite E. unfold cret at 1. destruct HE as [[-> Hf]|(eq & i2 & -> & Er & Eii & Hg & _)]; cbn [fst snd].
  { eexists _, s1. split; [done|]. split; [done|]. by left. }
  replace (Z.eqb (if eq then 1 else 0) (-1)) with false by (by destruct eq). destruct (concat (seek cmp (ra_o arg) None v)) as [|w l] eqn:El; [by destruct (Hsome k v Hkv)|].
  exists i2, s1. split; [by apply (turn_here _ _ _ _ _ Hg)|]. split; [done|]. right. split; [done|]. exists todo. by rewrite Eii.
Qed.
Lemma page_step s i v l : rok s → on_page_gives s i (v :: l) → ∃ i1 s1, si_read_next r cif io arg n i s = cloop n (next_turn r cif io arg) i1 s1 ∧ rok s1 ∧ on_page_gives s1 i1 l ∧ sd_ii i1 = sd_ii i.
Proof.
  intros Hs [[e He] [_ (_ & pi & st & E & Hg)]]. destruct (gives_kept _ _ _ _ _ Hg) as [Est Hst]. rewrite Est in E. exists (mk_siread (Some e) (sd_page i) (sd_ii i) pi), (put_xf (pg_xf st) s). split_and!.
  - unfold si_read_next. rewrite He. unfold cbind. by rewrite (at_page_run _ _ _ _ _ E).
  - by apply put_rok.
  - split; [by eexists|]. cbn [sd_page sd_pi rd_xf put_xf with_rxf b_mem]. rewrite <- Est. by rewrite <- (kept_xf _ _ _ Hst).
  - done.
Qed.
(** A state of the iterator between calls. *)
Definition reading (p : rdst * siread) : Prop := rok p.1 ∧ (sd_ref p.2 = None ∨ ∃ l L, l ≠ [] ∧ on_page_gives p.1 p.2 l ∧ to_come p.2 L).
Lemma to_come_some i q L : to_come i (q :: L) → concat (seek cmp (ra_o arg) None q) ≠ [].
Proof. intros (todo & _ & HF). apply Forall2_cons_inv_r in HF as (k & todo' & Hk & _ & ->). by apply (Hsome k). Qed.
(** A step: to the next version of the page, to the next page or to the end. *)
Lemma read_step s i v l L : rok s → on_page_gives s i (v :: l) → to_come i L → ∃ i' s', si_read_next r cif io arg n i s = Some (i', s') ∧ rok s' ∧
  ((sd_ref i' = None ∧ read_fails) ∨
   match l, L with
   | [], [] => sd_ref i' = None
   | [], q :: L => on_page_gives s' i' (concat (seek cmp (ra_o arg) None q)) ∧ to_come i' L
   | _, _ => on_page_gives s' i' l ∧ to_come i' L
   end).
Proof.
  intros Hs Hg Hc. destruct (page_step s i v l Hs Hg) as (i1 & s1 & E & Hs1 & Hg1 & Eii). rewrite E. assert (to_come i1 L) as Hc1 by (destruct Hc as (todo & Hw & HF); exists todo; by rewrite Eii).
  destruct l as [|w l]; [by apply turn_page|]. exists i1, s1. split; [|by split; [|right]]. assert (n = S (pred n)) as -> by lia. by apply (turn_here s1 i1 w l).
Qed.
Lemma reading_next p : reading p → reading (it_next (SsIter := read_iter r cif io arg n) p).
Proof.
  intros [Hs Hp]. destruct p as [s i]. cbn [it_next read_iter fst snd] in *. destruct Hp as [Hr|(l & L & Hl & Hg & Hc)]; [unfold si_read_next; rewrite Hr; cbn; by split; [|left]|]. destruct l as [|v l]; [done|].
  destruct (read_step s i v l L Hs Hg Hc) as (i' & s' & -> & Hs' & HE). split; [done|]. destruct HE as [[Hr _]|HE]; [by left|]. destruct l as [|w l]; [destruct L as [|q L]; [by left|]|]; right; destruct HE as [Hg' Hc'].
  - exists (concat (seek cmp (ra_o arg) None q)), L. split; [by apply (to_come_some i q L)|done].
  - by exists (w :: l), L.
Qed.
Lemma reads L : ∀ l s i, rok s → on_page_gives s i l → l ≠ [] → to_come i L → read_gives s i (l ++ rest_of L).
Proof.
  induction L as [|q L IHL]; intros l; (induction l as [|v l IH]; intros s i Hs Hg Hne Hc; [done|]); clear Hne; destruct (read_step s i v l _ Hs Hg Hc) as (i1 & s1 & E & Hs1 & HE); cbn [app read_gives];
    (split; [by apply (on_page_of s i v l)|]); exists i1, s1; (split; [exact E|]); (destruct HE as [Hf|HE]; [by right|left]); (destruct l as [|w l]; [|destruct HE; by apply IH]).
  - cbn. unfold si_read_of. by rewrite HE.
  - destruct HE as [Hg1 Hc1]. unfold rest_of. cbn [app fmap list_fmap concat]. apply IHL; [done|done|by apply (to_come_some i q L)|done].
Qed.

(** ** Opening *)
Context (Hready : Forall (λ mm, row_ready (r_scheme r) mm.1 ∧ row_ready (r_scheme r) mm.2) mms) (Hown : own_scheme (r_scheme r)) (Hsorted : pages_sorted cmp mms).
Context (Hfirst : (0 < length ps)%nat) (Hboot : bootstrap h = false) (Hhas : ra_has arg = false).
Lemma open_reads key s : rok s → (∀ k, key = Some k → row_ready (r_scheme r) k) →
  (∀ todo, positions ps mms (r_scheme r) (ra_o arg) key todo → ∃ L, Forall2 (λ i v, vsss !! i = Some v) todo L ∧ concat (seek cmp (ra_o arg) key (concat vsss)) = page_streams cmp (ra_o arg) key L ∧
    (∀ v, head L = Some v → concat (seek cmp (ra_o arg) key v) ≠ []) ∧ ∀ k, key = Some k → ra_o arg = SS_GTE → found cmp k (concat vsss) = match L with [] => false | v :: _ => found cmp k v end) →
  ∃ rc i s', si_read_open r cif io arg n key s = Some ((rc, i), s') ∧ reading (s', i) ∧
    ((rc = -1 ∧ sd_ref i = None ∧ read_fails) ∨
     (read_gives s' i (concat (seek cmp (ra_o arg) key (concat vsss))) ∧ ∀ k, ra_o arg = SS_GTE → key = Some k → rc = if found cmp k (concat vsss) then 1 else 0)).
Proof.
  intros Hs Hkey Hpos. destruct (open_positions _ h ps mms Hx (r_scheme r) Hown Hready Hsorted (ra_o arg) key Ho Hkey Hfirst Hboot) as (ii & todo & E & Hp & Hst).
  destruct (Hpos todo Hp) as (L & HF & -> & Hhd & Hf). unfold si_read_open, cbind at 1, at_index at 1, cread at 1. rewrite E. cbn [fmap option_fmap option_map fst sd_ref]. destruct HF as [|k v todo L Hkv HF].
  { cbn in Hst. rewrite Hst. eexists _, _, s. split; [done|]. split; [by split; [|left]|]. right. split; [done|]. intros k Ho' Hk. by rewrite (Hf k Hk Ho'). }
  destruct Hst as [-> Hw]. destruct (lookup_lt_is_Some_2 ps k) as [p Hpk]; [rewrite Hlen; by eapply lookup_lt_Some|]. unfold cbind at 1, at_index, cread. rewrite (rd_indexpage_run _ _ _ _ Hx _ _ Hpk). cbn [fmap option_fmap option_map fst].
  rewrite Hhas. unfold cbind at 1, cret at 1. cbn [andb]. set (i1 := mk_siread _ _ _ _). destruct (proj1 (wp_run _ _ _) (openpage_ok key i1 s k p v eq_refl Hpk Hkv Hs Hkey)) as (res & s1 & E1 & Hs1 & HE).
  unfold cbind at 1. rewrite E1. destruct HE as [[-> Hfl]|(eq & i2 & -> & Er & Eii & Hg & Heq)]; [eexists _, _, s1; split; [done|]; split; [by split; [|left]|]; by left|].
  replace (Z.eqb (if eq then 1 else 0) (-1)) with false by (by destruct eq). specialize (Hhd v eq_refl). cbn [page_streams]. destruct (concat (seek cmp (ra_o arg) key v)) as [|w l] eqn:El; [done|].
  rewrite (proj2 (on_page_of _ _ _ _ Hg)). exists (if eq then 1 else 0), i2, s1. split; [done|]. assert (to_come i2 L) as Hc by (exists todo; by rewrite Eii).
  split; [split; [done|]; right; by exists (w :: l), L|]. right. split.
  - by apply (reads L (w :: l)).
  - intros k' Ho' Hk'. by rewrite (Hf k' Hk' Ho'), (Heq k' Ho' Hk').
Qed.
End read.

(** * What reading a branch promises *)

Lemma readable_page r xf vsss k vss : readable r xf (concat (concat vsss)) → vsss !! k = Some vss → readable r xf (concat vss).
Proof.
  intros (H1 & H2 & H3 & H4) Hk. rewrite <- (take_drop_middle vsss k vss Hk), concat_app, concat_app in H1, H2, H4. cbn [concat] in H1, H2, H4. rewrite concat_app in H1, H2, H4. unfold readable, small in *. rewrite !length_app in H1.
  split; [lia|]. apply Forall_app in H2 as [_ H2]. apply Forall_app in H2 as [H2 _]. split; [done|]. split; [done|]. destruct (r_fmt_storage r); [|done]. destruct H4 as (H5 & H6 & H7). split_and!; [done|done|].
  apply Forall_app in H7 as [_ H7]. by apply Forall_app in H7 as [H7 _].
Qed.
(** The branch of the index [x] in a file: its pages are where the index says, each has all
    versions of its keys, and a page and a converted version fit into the buffers. *)
Record branch_pages (r : sr) (T : Z) (file : bytes) (x : sdindex) (h : sdindexheader) (vsss : list (list (list sv))) : Prop := {
  bp_index : ∃ ps, index_rep x h ps (range_of r <$> pages_of vsss) ∧
    ∀ k p vss, ps !! k = Some p → vsss !! k = Some vss → ∃ P, page_memory (first_page h + Z.to_nat (g_offset p)) file = Some P ∧ page_of r P (concat vss) ∧ g_sizeorigin p = blen P ∧ blen P <= T;
  bp_file : blen file < 18446744073709551616;
  bp_content : content_ok (scheme_cmp (r_scheme r)) (concat vsss);
  bp_pages : vsss ≠ [] ∧ Forall (λ vss, vss ≠ []) vsss;
  bp_scheme : own_scheme (r_scheme r) ∧ parts_placed (r_scheme r);
  bp_keys : Forall (key_ok r) (concat (concat vsss));
  bp_boot : bootstrap h = false;
  bp_vmax : x_sizevmax h <= T ∧ ∀ xf, x_sizevmax h <= blen xf → readable r xf (concat (concat vsss))
}.
(** A branch as [si_branchcreate] leaves it, or recovery finds it, is one. *)
Lemma branch_in_pages `{Alloc} r crcf T file x h vsss : branch_in r crcf file x h (pages_of vsss) → blen file < 18446744073709551616 → content_ok (scheme_cmp (r_scheme r)) (concat vsss) →
  vsss ≠ [] ∧ Forall (λ vss, vss ≠ []) vsss → own_scheme (r_scheme r) ∧ parts_placed (r_scheme r) → Forall (key_ok r) (concat (concat vsss)) → bootstrap h = false →
  (x_sizevmax h <= T ∧ ∀ xf, x_sizevmax h <= blen xf → readable r xf (concat (concat vsss))) → (∀ k p, (k < length vsss)%nat → rd_indexpage (entry_at k) x = Some (p, x) → g_sizeorigin p <= T) →
  branch_pages r T file x h vsss.
Proof.
  intros [(ps & Hx & Hp) _ _] Hf Hc Hne Hs Hk Hb Hv HT. split; try done. exists ps. split; [done|]. intros k p vss Hkp Hkv. destruct (Hp k p (concat vss) Hkp) as (P & H1 & H2 & H3); [unfold pages_of; by rewrite list_lookup_fmap, Hkv|].
  exists P. split_and!; try done. rewrite <- H3. apply (HT k p); [by eapply lookup_lt_Some|]. by apply (rd_indexpage_run _ _ _ _ Hx).
Qed.

Section spec.
Context `{Alloc} (r : sr) {F : Type} (cif : ssfilterif F) (io : nat) (arg : sireadarg) (T : Z) (file : bytes) (A : list answer) (n : nat).
Lemma gives_enumerates l : ¬ read_fails A → ∀ s i, read_gives r cif io arg A n s i l → @enumerates _ (read_iter r cif io arg n) (s, i) l.
Proof.
  intros Hno. induction l as [|v l IH]; intros s i Hg; [exact Hg|]. destruct Hg as (E & i' & s' & En & [Hg|[_ Hf]]); [|done]. split; [exact E|]. cbn [it_next read_iter fst snd]. rewrite En. by apply IH.
Qed.
Lemma si_read_ok h vsss key s : branch_pages r T file (ra_b arg) h vsss → rok arg T file A s → 4 * T <= INT_MAX → (length A < io)%nat → (2 <= n)%nat → ra_compression arg = false → ra_has arg = false →
  walk_order (ra_o arg) = true → (∀ k, key = Some k → row_ready (r_scheme r) k) → let cmp := scheme_cmp (r_scheme r) in let l := concat (seek cmp (ra_o arg) key (concat vsss)) in
  (∀ p, reading r arg T file A vsss p → reading r arg T file A vsss (it_next (SsIter := read_iter r cif io arg n) p)) ∧
  ∃ rc i s', si_read_open r cif io arg n key s = Some ((rc, i), s') ∧ reading r arg T file A vsss (s', i) ∧
    ((rc = -1 ∧ sd_ref i = None ∧ read_fails A) ∨ (read_gives r cif io arg A n s' i l ∧ ∀ k, ra_o arg = SS_GTE → key = Some k → rc = if found cmp k (concat vsss) then 1 else 0)).
Proof.
  intros [(ps & Hx & Hp) Hf Hc [Hv0 Hne] [Hown Hpl] Hk Hb [Hv1 Hv2]] Hs HT Hio Hn Hcm Hhas Ho Hkey cmp l. pose proof (mms_length _ _ _ _ Hx) as Hlen. unfold pages_of in Hlen. rewrite !length_fmap in Hlen.
  assert (Forall (λ v, row_ready (r_scheme r) (sv_pointer v)) (concat (concat vsss))) as Hrows.
  { destruct (Hv2 (replicate (Z.to_nat (x_sizevmax h)) 0)) as (_ & Hr & _); [unfold blen; rewrite length_replicate; lia|done]. }
  assert (∀ k vss xf, vsss !! k = Some vss → x_sizevmax h <= blen xf → readable r xf (concat vss)) as Hrd by (intros k vss xf Hkv Hxf; by apply (readable_page r xf vsss k); [apply Hv2|]).
  assert (∀ k vss, vsss !! k = Some vss → content_ok cmp vss) as Hct by (intros k vss Hkv; by apply (content_page r vsss Hc k)).
  assert (∀ k vss, vsss !! k = Some vss → concat (seek cmp (ra_o arg) None vss) ≠ []) as Hnz by (intros k vss; by eapply page_nonempty).
  split; [intros p; by apply (reading_next r cif io arg T file A HT Hio Hcm h ps _ Hx Hv1 Hf vsss (eq_sym Hlen) Ho Hp)|].
  apply (open_reads r cif io arg T file A HT Hio Hcm h ps _ Hx Hv1 Hf vsss (eq_sym Hlen) Ho Hp); try done.
  - by apply branch_ready.
  - by apply branch_sorted.
  - destruct vsss; [done|]. cbn in Hlen. lia.
  - intros todo Hpos. by apply (positions_pages r Hpl vsss Hc Hne Hk Hrows ps).
Qed.
(** However a read fails, a part of the stream is given. *)
Lemma gives_prefix l : ∀ s i, read_gives r cif io arg A n s i l → ∃ l', l' `prefix_of` l ∧ @enumerates _ (read_iter r cif io arg n) (s, i) l' ∧ (l' = l ∨ read_fails A).
Proof.
  induction l as [|v l IH]; intros s i Hg; [exists []; split_and!; [done|exact Hg|by left]|]. destruct Hg as (E & i' & s' & En & Hg).
  assert (∃ l', l' `prefix_of` l ∧ @enumerates _ (read_iter r cif io arg n) (s', i') l' ∧ (l' = l ∨ read_fails A)) as (l' & Hp & He & Hl).
  { destruct Hg as [Hg|[Hr Hf]]; [by apply IH|]. exists []. split_and!; [apply prefix_nil|cbn; unfold si_read_of; by rewrite Hr|by right]. }
  exists (v :: l'). split; [by apply prefix_cons|]. split; [split; [exact E|]; cbn [it_next read_iter fst snd]; by rewrite En|]. destruct Hl as [->|Hl]; [by left|by right].
Qed.
End spec.

(** C5: a branch in the file of a node (read with [pread], from the map of the file or from a
    copy of it) is iterated from any key or from an end in any direction: opening and every
    step come back without a fault, each page is read where the index says, and together they
    give exactly the versions of the branch on that side of the key, newest first within a key
    and in the order the merge iterator requires; opening at a key for [SS_GTE] answers 1
    exactly if the branch has the key.  The system may interrupt or shorten every read.  If
    memory or a read fails, opening answers -1 or the iterator ends early at that page. *)
Theorem si_read_streams `{Alloc} r {F} (cif : ssfilterif F) io arg T file A n h vsss key s :
  branch_pages r T file (ra_b arg) h vsss → rok arg T file A s → 4 * T <= INT_MAX → (length A < io)%nat → (2 <= n)%nat → ra_compression arg = false → ra_has arg = false →
  walk_order (ra_o arg) = true → (∀ k, key = Some k → row_ready (r_scheme r) k) →
  let cmp := scheme_cmp (r_scheme r) in let l := concat (seek cmp (ra_o arg) key (concat vsss)) in
  ∃ rc i s', si_read_open r cif io arg n key s = Some ((rc, i), s') ∧ stream_ok (order_cmp (ra_o arg) cmp) l ∧
    ((rc = -1 ∧ si_read_has i = false ∧ read_fails A) ∨
     (read_gives r cif io arg A n s' i l ∧ (¬ read_fails A → @enumerates _ (read_iter r cif io arg n) (s', i) l) ∧
      ∀ k, ra_o arg = SS_GTE → key = Some k → rc = if found cmp k (concat vsss) then 1 else 0)).
Proof.
  intros Hb Hs HT Hio Hn Hcm Hhas Ho Hkey cmp l. destruct (si_read_ok r cif io arg T file A n h vsss key s Hb Hs HT Hio Hn Hcm Hhas Ho Hkey) as (_ & rc & i & s' & E & _ & HE). exists rc, i, s'. split; [done|].
  split; [apply run_stream; [apply _|]; apply seek_run; [apply _|]; exact (bp_content _ _ _ _ _ _ Hb)|]. destruct HE as [(H1 & H2 & H3)|[Hg Hf]]; [left|right].
  - unfold si_read_has. by rewrite H2.
  - split_and!; [done|intros Hno; by eapply gives_enumerates|done].
Qed.

(** ** Witness: a branch of one page, read at key 6 while the system interrupts and shortens the reads *)
Definition demo_rmm : bytes * bytes := (index_key demo_pagesr (demo_pagev 9 0 5 50), index_key demo_pagesr (demo_pagev 4 0 7 70)).
Definition demo_rentry : sdindexpage := mk_idxpage 0 0 (blen demo_pagebytes) (blen demo_pagebytes) (blen demo_rmm.1) (blen demo_rmm.2) 3 9.
Definition demo_rheader : sdindexheader :=
  mk_idxheader 0 sr_version (sd_idinit 1 0 0) 0 (Z.of_nat sizeof_sdindexpage + blen demo_rmm.1 + blen demo_rmm.2) 64 1 3 (blen demo_pagebytes) (blen demo_pagebytes) 0 3 9 1 3 0.
Definition demo_rimage : bytes := idxheader_enc demo_rheader ++ idxpage_enc demo_rentry ++ demo_rmm.1 ++ demo_rmm.2.
Definition demo_rindex : sdindex := mk_sdindex (mk_buf None SHeap demo_rimage (length demo_rimage)) ss_bufinit true.
Definition demo_rfile : bytes := demo_rimage ++ demo_pagebytes.
Definition demo_ranswers : list answer := [AInterrupt; ACount 7; AInterrupt; ACount 20].
Definition demo_rdst : rdst := mk_rdst (mk_file (blen demo_rfile) (mk_os demo_rfile 0 demo_ranswers)) (mk_mmap None 0) ss_bufinit ss_bufinit ss_bufinit 0.
Definition demo_rarg : sireadarg := mk_readarg false false demo_rindex 0 false false SS_GTE.
Lemma demo_branch_pages : branch_pages demo_pagesr 1000 demo_rfile demo_rindex demo_rheader [demo_pagevs].
Proof.
  split.
  - exists [demo_rentry]. split.
    + split; [done| |by vm_compute|done|done]. exists (demo_rmm.1 ++ demo_rmm.2), []. split; [by vm_compute|]. constructor; [|constructor]. split_and!; [by vm_compute| |done|done]. exists [], []. by vm_compute.
    + intros [|k] p vss Hp Hv; [|done]. injection Hp as <-. injection Hv as <-. exists demo_pagebytes. split_and!; [by vm_compute|exact demo_page_of|done|by vm_compute].
  - by vm_compute.
  - exact demo_content_ok.
  - split; [done|]. constructor; [done|constructor].
  - split; [done|]. constructor; [cbn; lia|constructor].
  - assert (∀ lsn f k v, is_u32 k → key_ok demo_pagesr (demo_pagev lsn f k v)) as Hk.
    { intros lsn f k v Hk. assert (fits [le_enc 4 k]) as Hfit by (split; [constructor; [by rewrite le_enc_length|constructor]|done]). unfold key_ok.
      assert (parts_in demo_pagesr (sv_pointer (demo_pagev lsn f k v)) = [le_enc 4 k]) as -> by done. split_and!; [by apply row_has_keys|done|done|done]. }
    repeat constructor; by apply Hk.
  - done.
  - split; [done|]. intros xf Hxf. destruct demo_readable as (H1 & H2 & H3 & H4 & H5 & H6). repeat (split; [done|]). eapply Forall_impl; [exact H6|]. intros v Hv. cbn beta in *. rewrite length_replicate in Hv. cbn [demo_rheader x_sizevmax] in Hxf. unfold blen in Hxf. lia.
Qed.
Lemma demo_reads_well : ¬ read_fails (H := demo_alloc) demo_ranswers.
Proof.
  assert (∀ a, a ∈ demo_ranswers → a = AInterrupt ∨ a = ACount 7 ∨ a = ACount 20) as Ha by (unfold demo_ranswers; set_solver).
  intros [[m Hm]|[Hst|Hst]]; [discriminate Hm|destruct (Ha _ Hst) as [E|[E|E]]; discriminate E..].
Qed.
Lemma si_read_streams_witness : ∃ rc i s', si_read_open (H := demo_alloc) demo_pagesr ss_nonefilter 5 demo_rarg 2 (Some (row [le_enc 4 5] [])) demo_rdst = Some ((rc, i), s') ∧
  read_gives (H := demo_alloc) demo_pagesr ss_nonefilter 5 demo_rarg demo_ranswers 2 s' i [demo_pagev 9 0 5 50; demo_pagev 3 4 5 51; demo_pagev 4 0 7 70] ∧ rc = 1.
Proof.
  destruct (si_read_streams (H := demo_alloc) demo_pagesr ss_nonefilter 5 demo_rarg 1000 demo_rfile demo_ranswers 2 demo_rheader [demo_pagevs] (Some (row [le_enc 4 5] [])) demo_rdst) as (rc & i & s' & E & _ & HE).
  - exact demo_branch_pages.
  - split; [done|done|split; [by split|done]|split; [by split|done]|done].
  - done.
  - cbn. lia.
  - lia.
  - reflexivity.
  - reflexivity.
  - reflexivity.
  - intros k [= <-]. repeat constructor. eexists _, _. split; [reflexivity|]. split; [reflexivity|]. split; [vm_compute; reflexivity|cbn; lia].
  - destruct HE as [(_ & _ & Hf)|(Hg & _ & Hrc)]; [by destruct demo_reads_well|].
    replace (concat (seek _ _ _ _)) with [demo_pagev 9 0 5 50; demo_pagev 3 4 5 51; demo_pagev 4 0 7 70] in Hg by (vm_compute; reflexivity).
    exists rc, i, s'. split; [exact E|]. split; [exact Hg|]. rewrite (Hrc _ eq_refl eq_refl). vm_compute. reflexivity.
Defined.
