(* ===== verification/SiNode.v ===== *)
(** The nodes of an index, si_node.h: a range of keys with the versions in one or two indexes in
    memory and in the branches of a file. *)
From stdpp Require Import base list sorting sets gmap.
From S2P Require Import Prelude SsOrder SsRb SsRbSpec Sv SsBytes SsBuf Sf Sr SrScheme SvMerge SvMergeProofs SvIndex SvIndexProofs SdPage SdIndex SdIndexIter SsFile SdIter SiBranch SdRecover.
Local Open Scope Z_scope.
Local Open Scope c_scope.

(** * Model *)

Definition SI_LOCK : Z := 1.
Definition SI_ROTATE : Z := 2.
Section node.
Context {St : Type}.
(** Branches are named by their pointers, which the caches compare.  [n_commit]: the node is in
    the list of a transaction that writes to it.  The places of a node in the tree and in the
    queues of the planner belong to the index ([SiIndex]); [recover] is of the recovery and
    [map_swap] of compaction. *)
Record sinode := mk_node {
  n_flags : Z; n_update_time : Z; n_used : Z; n_backup : Z;
  n_self : sibranch; n_branch : list (nat * sibranch); n_branch_count : Z;
  n_i0 : svindex St; n_i1 : svindex St;
  n_file : ssfile; n_map : ssmmap; n_commit : bool
}.
Definition node_with_flags (f : Z) (n : sinode) : sinode :=
  mk_node f (n_update_time n) (n_used n) (n_backup n) (n_self n) (n_branch n) (n_branch_count n) (n_i0 n) (n_i1 n) (n_file n) (n_map n) (n_commit n).
Definition node_with_indexes (i0 i1 : svindex St) (n : sinode) : sinode :=
  mk_node (n_flags n) (n_update_time n) (n_used n) (n_backup n) (n_self n) (n_branch n) (n_branch_count n) i0 i1 (n_file n) (n_map n) (n_commit n).
Definition node_with_write (time used : Z) (commit : bool) (n : sinode) : sinode :=
  mk_node (n_flags n) time used (n_backup n) (n_self n) (n_branch n) (n_branch_count n) (n_i0 n) (n_i1 n) (n_file n) (n_map n) commit.
Definition node_with_file (f : ssfile) (m : ssmmap) (n : sinode) : sinode :=
  mk_node (n_flags n) (n_update_time n) (n_used n) (n_backup n) (n_self n) (n_branch n) (n_branch_count n) (n_i0 n) (n_i1 n) f m (n_commit n).

Definition n_has (n : sinode) (f : Z) : bool := negb (Z.eqb (Z.land (n_flags n) f) 0).
Definition si_nodelock (n : sinode) : option sinode := if n_has n SI_LOCK then None else Some (node_with_flags (Z.lor (n_flags n) SI_LOCK) n).
Definition si_nodeunlock (n : sinode) : option sinode := if n_has n SI_LOCK then Some (node_with_flags (Z.land (n_flags n) (255 - SI_LOCK)) n) else None.
(** The index that is branched is answered. *)
Definition si_noderotate (n : sinode) : svindex St * sinode := (n_i0 n, node_with_flags (Z.lor (n_flags n) SI_ROTATE) n).
(** [t]: the empty tree. *)
Definition si_nodeunrotate (t : St) (n : sinode) : option sinode :=
  if n_has n SI_ROTATE then Some (node_with_indexes (n_i1 n) (sv_indexinit t) (node_with_flags (Z.land (n_flags n) (255 - SI_ROTATE)) n)) else None.
Definition si_nodeindex (n : sinode) : svindex St := if n_has n SI_ROTATE then n_i1 n else n_i0 n.
(** Writing back the index [si_nodeindex] answers a pointer to. *)
Definition set_nodeindex (i : svindex St) (n : sinode) : sinode := if n_has n SI_ROTATE then node_with_indexes (n_i0 n) i n else node_with_indexes i (n_i1 n) n.
Definition si_nodeindex_priority (n : sinode) : svindex St * option (svindex St) := if n_has n SI_ROTATE then (n_i1 n, Some (n_i0 n)) else (n_i0 n, None).

(** The range of the node against a key. *)
Definition si_nodecmp (s : srscheme) (n : sinode) (key : bytes) : option Z :=
  let x := br_index (n_self n) in
  '(min, _) ← sd_indexmin x; '(max, _) ← sd_indexmax x;
  '(pmin, _) ← rd_indexpage min x; '(pmax, _) ← rd_indexpage max x;
  '(l, _) ← cmp_min s pmin key x;
  '(r, _) ← cmp_max s pmax key x;
  if Z.leb l 0 && Z.geb r 0 then Some 0 else
  if Z.eqb l (-1) then Some (-1) else
  if Z.eqb r 1 then Some 1 else None.
End node.
Arguments sinode : clear implicits.
