(* ===== verification/SiCache.v ===== *)
(** The cache of a cursor or query, si_cache.h: an entry for each branch of a node with the
    iterator and the buffers the branch is read with. *)
From stdpp Require Import base list sorting sets.
From S2P Require Import Prelude SsOrder SsRb Sv SsBytes SsBuf SsFilter Sf Sr SrScheme SdPage SdIndex SsFile SdRecover SiRead.
Local Open Scope Z_scope.

(** * Model *)

(** Branches and nodes are compared as pointers, which are numbers here; [path] is a list with
    the links of the entries, and [branch] is a place in it.  [ref] and [page] of an entry are
    written only. *)
Record sicachebranch := mk_cb { cb_branch : option nat; cb_i : siread; cb_buf_a : ssbuf; cb_buf_b : ssbuf; cb_open : bool }.
Record sicache := mk_cache { ca_path : list sicachebranch; ca_branch : option nat; ca_count : Z; ca_nodeid : Z; ca_node : option loc }.
Record sicachepool := mk_cachepool { po_head : list sicache; po_n : Z }.
Definition sizeof_sicachebranch : nat := 484.
Definition sizeof_sicache : nat := 48.

Definition si_cacheinit : sicache := mk_cache [] None 0 0 None.
Definition first_of (path : list sicachebranch) : option nat := match path with [] => None | _ => Some 0%nat end.
(** [memset] of an iterator. *)
Definition siread_zero : siread := mk_siread None [] (mk_indexiter None 0 SS_LT None) (mk_pageiter 0 None (mk_sv 0 0 []) SS_LT None).
Definition cb_clear (b : option nat) (cb : sicachebranch) : sicachebranch :=
  mk_cb b (si_read_close (cb_i cb)) (ss_bufreset (cb_buf_a cb)) (ss_bufreset (cb_buf_b cb)) false.
Definition si_cachefree (c : sicache) : list ssbuf := concat ((λ cb, [ss_buffree (cb_buf_a cb); ss_buffree (cb_buf_b cb)]) <$> ca_path c).
Definition si_cachereset (c : sicache) : sicache := mk_cache (cb_clear None <$> ca_path c) None 0 0 None.

Section model.
Context `{Alloc}.
Definition si_cacheadd (b : nat) : option sicachebranch :=
  match ss_malloc sizeof_sicachebranch with None => None | Some _ => Some (mk_cb (Some b) siread_zero ss_bufinit ss_bufinit false) end.

(** The new branches of a node the cache knows, before the first of [path]; [None]: a fault,
    [Some None]: no memory. *)
Fixpoint cache_prepend (path : list sicachebranch) (bs : list nat) (new : list sicachebranch) : option (option (list sicachebranch)) :=
  match bs with
  | [] => Some (Some new)
  | b :: bs =>
      match path with
      | [] => None
      | cb :: _ =>
          if bool_decide (cb_branch cb = Some b) then match new with [] => None | _ => Some (Some (new ++ path)) end
          else match si_cacheadd b with None => Some None | Some nb => cache_prepend path bs (new ++ [nb]) end
      end
  end.
(** The entries given to the branches of another node; the answer tells whether there was
    memory for those missing. *)
Fixpoint cache_renew (path : list sicachebranch) (bs : list nat) : list sicachebranch * bool :=
  match bs with
  | [] => (path, true)
  | b :: bs =>
      match path with
      | cb :: path => let '(l, ok) := cache_renew path bs in (cb_clear (Some b) cb :: l, ok)
      | [] => match si_cacheadd b with None => ([], false) | Some nb => let '(l, ok) := cache_renew [] bs in (nb :: l, ok) end
      end
  end.
(** [n], [id], [bs], [count]: the node, its id, its branches and their counter. *)
Definition si_cachevalidate (n : loc) (id : Z) (bs : list nat) (count : Z) (c : sicache) : option (Z * sicache) :=
  if bool_decide (ca_node c = Some n) && Z.eqb (ca_nodeid c) id then
    if Z.eqb count (ca_count c) then Some (0, mk_cache (ca_path c) (first_of (ca_path c)) (ca_count c) (ca_nodeid c) (ca_node c)) else
    if negb (Z.gtb count (ca_count c)) then None else
    path ← cache_prepend (ca_path c) bs [];
    Some (match path with
          | None => (-1, c)
          | Some path => (0, mk_cache path (first_of path) count (ca_nodeid c) (ca_node c))
          end)
  else
    let '(path, ok) := cache_renew (ca_path c) bs in
    Some (if ok then (0, mk_cache path (first_of path) count id (Some n)) else (-1, mk_cache path (ca_branch c) (ca_count c) (ca_nodeid c) (ca_node c))).
(** The place of the entry. *)
Definition si_cachefollow (c : sicache) : option (nat * sicache) :=
  k ← ca_branch c;
  Some (k, mk_cache (ca_path c) (if (S k <? length (ca_path c))%nat then Some (S k) else None) (ca_count c) (ca_nodeid c) (ca_node c)).

Definition si_cachepool_init : sicachepool := mk_cachepool [] 0.
Definition si_cachepool_pop (p : sicachepool) : option (option sicache * sicachepool) :=
  if Z.gtb (po_n p) 0 then
    match po_head p with
    | [] => None
    | c :: head => Some (Some (si_cachereset c), mk_cachepool head (po_n p - 1))
    end
  else Some (match ss_malloc sizeof_sicache with None => None | Some _ => Some si_cacheinit end, p).
Definition si_cachepool_push (c : sicache) (p : sicachepool) : sicachepool := mk_cachepool (c :: po_head p) (po_n p + 1).
Definition si_cachepool_free (p : sicachepool) : list ssbuf := concat (si_cachefree <$> po_head p).

(** * Correctness *)

(** The first entries are those of the branches [bs], in order. *)
Definition caches (path : list sicachebranch) (bs : list nat) : Prop := take (length bs) (cb_branch <$> path) = Some <$> bs.
(** A cache of the node as it was some branches ago; or of another node. *)
Definition cache_ok (n : loc) (id : Z) (bs : list nat) (c : sicache) : Prop :=
  ca_node c = Some n → ca_nodeid c = id → ∃ new old, bs = new ++ old ∧ old ≠ [] ∧ ca_count c = Z.of_nat (length old) ∧ caches (ca_path c) old.

Lemma caches_length path bs : caches path bs → (length bs <= length path)%nat.
Proof. intros E. apply (f_equal length) in E. rewrite length_take, !length_fmap in E. lia. Qed.
Lemma caches_lookup path bs k b : caches path bs → bs !! k = Some b → ∃ cb, path !! k = Some cb ∧ cb_branch cb = Some b.
Proof.
  intros E Hb. pose proof (lookup_lt_Some _ _ _ Hb) as Hk. assert (take (length bs) (cb_branch <$> path) !! k = Some (Some b)) as E1 by (by rewrite E, list_lookup_fmap, Hb).
  rewrite lookup_take_lt in E1 by done. rewrite list_lookup_fmap in E1. destruct (path !! k) as [cb|]; [|done]. injection E1 as E1. by exists cb.
Qed.
Lemma cache_prepend_ok old path : old ≠ [] → caches path old → ∀ new bs acc, (∀ b, head old = Some b → b ∉ new) → (new = [] → acc ≠ []) →
  cb_branch <$> acc = Some <$> bs → ∃ res, cache_prepend path (new ++ old) acc = Some res ∧
  match res with None => ∃ m, ss_malloc m = None | Some path' => ∃ l, path' = l ++ path ∧ cb_branch <$> l = Some <$> (bs ++ new) end.
Proof.
  intros Hold Hc. destruct old as [|b0 old]; [done|]. destruct (caches_lookup path (b0 :: old) 0 b0 Hc eq_refl) as (cb & Hcb & Eb). destruct path as [|cb' path]; [done|]. injection Hcb as ->.
  induction new as [|b new IH]; intros bs acc Hnew Hacc Ea; cbn [app cache_prepend].
  - rewrite bool_decide_true by done. destruct acc as [|a acc]; [by destruct Hacc|]. eexists. split; [done|]. exists (a :: acc). by rewrite app_nil_r.
  - rewrite bool_decide_false. 2: { rewrite Eb. intros [= <-]. apply (Hnew b0 eq_refl). constructor. }
    unfold si_cacheadd. destruct (ss_malloc sizeof_sicachebranch) eqn:Em; [|eexists; split; [done|]; by eexists].
    destruct (IH (bs ++ [b]) (acc ++ [mk_cb (Some b) siread_zero ss_bufinit ss_bufinit false])) as (res & E & HE).
    + intros b1 Hb1 Hin. apply (Hnew b1 Hb1). by constructor.
    + intros _. by destruct acc.
    + by rewrite !fmap_app, Ea.
    + exists res. split; [done|]. destruct res; [|done]. by rewrite <- app_assoc in HE.
Qed.
Lemma cache_renew_ok bs : ∀ path, let '(l, ok) := cache_renew path bs in if ok : bool then caches l bs ∧ (length l = length path `max` length bs)%nat else ∃ m, ss_malloc m = None.
Proof.
  induction bs as [|b bs IH]; intros path; cbn [cache_renew]; [split; [done|cbn; lia]|]. destruct path as [|cb path].
  - unfold si_cacheadd. destruct (ss_malloc sizeof_sicachebranch) eqn:Em; [|by eexists]. specialize (IH []). destruct (cache_renew [] bs) as [l0 ok]. destruct ok; [|done]. destruct IH as [IH Hl]. split; [|cbn in *; lia]. unfold caches in *. cbn. by rewrite IH.
  - specialize (IH path). destruct (cache_renew path bs) as [l0 ok]. destruct ok; [|done]. destruct IH as [IH Hl]. split; [|cbn in *; lia]. unfold caches in *. cbn. by rewrite IH.
Qed.
(** A validated cache has an entry for every branch and starts with the newest. *)
Lemma cachevalidate_ok n id bs c : NoDup bs → bs ≠ [] → cache_ok n id bs c → ∃ rc c', si_cachevalidate n id bs (Z.of_nat (length bs)) c = Some (rc, c') ∧
  ((rc = -1 ∧ ∃ m, ss_malloc m = None) ∨
   (rc = 0 ∧ caches (ca_path c') bs ∧ ca_branch c' = Some 0%nat ∧ ca_count c' = Z.of_nat (length bs) ∧ ca_nodeid c' = id ∧ ca_node c' = Some n)).
Proof.
  intros Hnd Hne Hok. assert (∀ path, caches path bs → first_of path = Some 0%nat) as Hfirst by (intros path Hp%caches_length; destruct path; [|done]; destruct bs; [done|cbn in Hp; lia]).
  assert (∃ rc c', (let '(path, ok) := cache_renew (ca_path c) bs in Some (if ok then (0, mk_cache path (first_of path) (Z.of_nat (length bs)) id (Some n)) else (-1, mk_cache path (ca_branch c) (ca_count c) (ca_nodeid c) (ca_node c)))) = Some (rc, c') ∧
    ((rc = -1 ∧ ∃ m, ss_malloc m = None) ∨ (rc = 0 ∧ caches (ca_path c') bs ∧ ca_branch c' = Some 0%nat ∧ ca_count c' = Z.of_nat (length bs) ∧ ca_nodeid c' = id ∧ ca_node c' = Some n))) as Hrenew.
  { pose proof (cache_renew_ok bs (ca_path c)) as Hr. destruct (cache_renew (ca_path c) bs) as [l0 []]; eexists _, _; (split; [done|]); [right|by left]. destruct Hr as [Hr _]. cbn [ca_path ca_branch ca_count ca_nodeid ca_node]. by rewrite (Hfirst _ Hr). }
  unfold si_cachevalidate. case_bool_decide as En; cbn [andb]; [destruct (Z.eqb_spec (ca_nodeid c) id) as [Ei|Ei]|].
  - destruct (Hok En Ei) as (new & old & -> & Hold & Ecount & Hc). destruct (Z.eqb_spec (Z.of_nat (length (new ++ old))) (ca_count c)) as [El|El]; rewrite length_app in *.
    + assert (new = []) as -> by (apply length_zero_iff_nil; lia). eexists _, _. split; [done|]. right. cbn [app ca_path ca_branch ca_count ca_nodeid ca_node]. rewrite (Hfirst _ Hc). by split_and!.
    + rewrite Z.gtb_ltb. destruct (Z.ltb_spec (ca_count c) (Z.of_nat (length new + length old))); [|lia]. cbn [negb].
      destruct (cache_prepend_ok old (ca_path c) Hold Hc new [] []) as (res & -> & HE); [|intros ->; cbn in *; lia|done|].
      { intros b Hb Hin. apply NoDup_app in Hnd as (_ & Hd & _). apply (Hd b Hin). destruct old; [done|]. injection Hb as ->. constructor. }
      cbn [mbind option_bind]. destruct res as [path|]; [|eexists _, _; split; [done|]; by left]. destruct HE as (l & -> & El'). cbn [app] in El'.
      assert (caches (l ++ ca_path c) (new ++ old)) as Hcc.
      { unfold caches in *. rewrite fmap_app, El', length_app, take_app, length_fmap, Nat.add_comm, Nat.add_sub, fmap_app, Hc. f_equal. apply take_ge. rewrite length_fmap. lia. }
      eexists _, _. split; [done|]. right. cbn [ca_path ca_branch ca_count ca_nodeid ca_node]. rewrite (Hfirst _ Hcc). split_and!; try done.
  - exact Hrenew.
  - exact Hrenew.
Qed.
End model.
