(* ===== verification/SiIndex.v ===== *)
(** An index: si.h, si.c and si_iter.h.  The nodes are in a tree by their ranges and in the two
    queues of the planner. *)
From stdpp Require Import base list sorting sets gmap.
From S2P Require Import Prelude SsOrder SsRq SsRb SsRbInsert SsRbSpec Sv SsBytes SsBuf Sf Sr SrScheme SvMerge SvMergeProofs SvUpdate SvIndex SdPage SdPageIter SdPageRep SdIndex SdIndexIter SsFile SdIter SiBranch SdRecover SiNode.
Local Open Scope Z_scope.
Local Open Scope c_scope.

(** * Model *)

(** What comparing with the first key of an index gives, and that key. *)
Definition min_cmp (s : srscheme) (x : sdindex) (key : bytes) : option Z := '(o, _) ← sd_indexmin x; '(p, _) ← rd_indexpage o x; fst <$> cmp_min s p key x.
Definition min_key (x : sdindex) : option bytes :=
  '(o, _) ← sd_indexmin x; '(p, _) ← rd_indexpage o x; '(k, _) ← sd_indexpage_min p x; mem_read k (Z.to_nat (g_sizemin p)) (b_mem (xi x)).

Section model.
Context {St : Type} `{TreeOps St} (sch : srscheme).
(** [s_nodes]: the nodes by their places, which are those of their entries in the tree and in
    the queues [s_branch] and [s_compact] of the planner. *)
Record si := mk_si {
  s_branch : ssrq; s_compact : ssrq;
  s_i : St; s_n : Z; s_destroyed : bool; s_backup : Z; s_update_time : Z;
  s_read_disk : Z; s_read_cache : Z; s_readbuf : ssbuf; s_u : svupdate;
  s_nodes : gmap loc (sinode St)
}.
Definition si_with_queues (b c : ssrq) (s : si) : si :=
  mk_si b c (s_i s) (s_n s) (s_destroyed s) (s_backup s) (s_update_time s) (s_read_disk s) (s_read_cache s) (s_readbuf s) (s_u s) (s_nodes s).
Definition si_with_tree (t : St) (n : Z) (s : si) : si :=
  mk_si (s_branch s) (s_compact s) t n (s_destroyed s) (s_backup s) (s_update_time s) (s_read_disk s) (s_read_cache s) (s_readbuf s) (s_u s) (s_nodes s).
Definition si_with_nodes (ns : gmap loc (sinode St)) (s : si) : si :=
  mk_si (s_branch s) (s_compact s) (s_i s) (s_n s) (s_destroyed s) (s_backup s) (s_update_time s) (s_read_disk s) (s_read_cache s) (s_readbuf s) (s_u s) ns.
Definition si_with_time (t : Z) (s : si) : si :=
  mk_si (s_branch s) (s_compact s) (s_i s) (s_n s) (s_destroyed s) (s_backup s) t (s_read_disk s) (s_read_cache s) (s_readbuf s) (s_u s) (s_nodes s).
Definition si_with_reads (disk cache : Z) (b : ssbuf) (s : si) : si :=
  mk_si (s_branch s) (s_compact s) (s_i s) (s_n s) (s_destroyed s) (s_backup s) (s_update_time s) disk cache b (s_u s) (s_nodes s).
Definition on_nodetree {A} (m : cmd St A) : cmd si A := λ s, match m (s_i s) with Some (a, t) => Some (a, si_with_tree t (s_n s) s) | None => None end.
Definition on_branchq {A} (m : cmd ssrq A) : cmd si A := λ s, match m (s_branch s) with Some (a, q) => Some (a, si_with_queues q (s_compact s) s) | None => None end.
Definition on_compactq {A} (m : cmd ssrq A) : cmd si A := λ s, match m (s_compact s) with Some (a, q) => Some (a, si_with_queues (s_branch s) q s) | None => None end.
Definition rd_node (x : loc) : cmd si (sinode St) := cread (λ s, s_nodes s !! x).
Definition wr_node (x : loc) (f : sinode St → sinode St) : cmd si () := λ s, match s_nodes s !! x with Some n => Some ((), si_with_nodes (<[x := f n]> (s_nodes s)) s) | None => None end.

(** Comparing a node of the tree; the order of the keys of an index is known to be readable
    ([nodecmp_ok]). *)
Definition cmp_node (f : sinode St → option Z) (s : si) (x : loc) : Z := match s_nodes s !! x with Some n => default 0 (f n) | None => 0 end.
(** [t]: an empty tree; [queues]: what [si_plannerinit] leaves, if there was memory. *)
Definition si_init (t : St) (queues : option (ssrq * ssrq)) : option si :=
  '(b, c) ← queues; Some (mk_si b c t 0 false 0 0 0 0 ss_bufinit sv_updateinit ∅).
Definition si_match (key : bytes) : cmd si (Z * ptr) := λ s, on_nodetree (t_get (cmp_node (λ n, min_cmp sch (br_index (n_self n)) key) s)) s.
Definition si_insert (x : loc) : cmd si Z :=
  let! n := rd_node x in
  let! key := cread (λ _, min_key (br_index (n_self n))) in
  let! r := si_match key in
  cassert (negb (Z.eqb r.1 0 && negb (is_null r.2)));;;
  on_nodetree (t_set r.2 r.1 x);;;
  let! s := cget in
  cassert (Z.ltb (s_n s) INT_MAX);;;
  cput (si_with_tree (s_i s) (s_n s + 1) s);;;
  cret 0.
Definition si_remove (x : loc) : cmd si Z :=
  on_nodetree (t_remove x);;;
  let! s := cget in
  cput (si_with_tree (s_i s) (s_n s - 1) s);;;
  cret 0.
Definition si_replace (o x : loc) : cmd si Z := on_nodetree (t_replace o x);;; cret 0.

(** ** The iterator over the nodes *)
Record siiter := mk_siiter { it_v : ptr; it_order : ssorder }.
Definition si_itermatch (key : bytes) : cmd si (Z * ptr) := λ s, on_nodetree (t_get (cmp_node (λ n, si_nodecmp sch n key) s)) s.
Definition iter_route (key : bytes) : cmd si (Z * ptr) :=
  let! r := si_itermatch key in
  match r.2 with
  | None =>
      cassert (negb (Z.eqb r.1 0));;;
      let! v := on_nodetree (if Z.eqb r.1 1 then t_min else t_max) in
      cret (0, v)
  | Some x =>
      let eq := if Z.eqb r.1 0 then 1 else 0 in
      if Z.eqb r.1 1 then
        let! v := on_nodetree (t_prev x) in
        match v with
        | None => let! v := on_nodetree t_min in cret (eq, v)
        | Some _ => cret (eq, v)
        end
      else cret (eq, r.2)
  end.
Definition si_iter_open (o : ssorder) (key : option bytes) : cmd si (Z * siiter) :=
  let! s := cget in
  if Z.eqb (s_n s) 1 then let! v := on_nodetree t_min in cret (1, mk_siiter v o) else
  match key with
  | None =>
      let! v := (match o with SS_LT | SS_LTE => on_nodetree t_max | SS_GT | SS_GTE => on_nodetree t_min | _ => cfail end) in
      cret (0, mk_siiter v o)
  | Some key =>
      let! r := iter_route key in
      cassert (negb (is_null r.2));;;
      cret (r.1, mk_siiter r.2 o)
  end.
Definition si_iter_has (i : siiter) : bool := negb (is_null (it_v i)).
Definition si_iter_of (i : siiter) : ptr := it_v i.
(** At the end [ss_rbprev] and [ss_rbnext] start again. *)
Definition si_iter_next (i : siiter) : cmd si siiter :=
  let! v := (match it_order i with
             | SS_LT | SS_LTE => on_nodetree (match it_v i with None => t_max | Some x => t_prev x end)
             | SS_GT | SS_GTE => on_nodetree (match it_v i with None => t_min | Some x => t_next x end)
             | _ => cfail
             end) in
  cret (mk_siiter v (it_order i)).
End model.
Arguments si : clear implicits.

(** * The node of a key *)

Section place.
Context (cmp : bytes → bytes → Z) `{!KeyOrder cmp}.
(** The ranges around a key. *)
Lemma range_split (key : bytes) mms : pages_sorted cmp mms → ∃ A M B, mms = A ++ M ++ B ∧ (∀ a, a ∈ A → cmp a.2 key = -1) ∧
  (∀ m, m ∈ M → cmp m.1 key <= 0 ∧ 0 <= cmp m.2 key) ∧ (∀ b, b ∈ B → cmp b.1 key = 1) ∧ (M = [] ∨ ∃ m, M = [m]).
Proof.
  intros [Hle Hs]. induction mms as [|mm mms IH]; [by exists [], [], []; split_and!; (set_solver || left)|].
  apply Forall_cons in Hle as [Hmm Hle]. apply StronglySorted_inv in Hs as [Hs Hmms]. rewrite Forall_forall in Hmms, Hle.
  assert (∀ b, b ∈ mms → 0 <= cmp mm.2 key → cmp b.1 key = 1) as Hafter.
  { intros b Hb Hk. pose proof (Hmms b Hb). pose proof (cmp_range mm.2 key). pose proof (cmp_range b.1 key). pose proof (cmp_opp b.1 key). pose proof (cmp_opp mm.2 key). pose proof (cmp_opp mm.2 b.1). pose proof (cmp_le_trans b.1 key mm.2). lia. }
  destruct (cmp_range mm.2 key) as [E2|E2].
  - destruct IH as (A & M & B & -> & HA & HM & HB & Hone); [by apply Forall_forall|done|]. exists (mm :: A), M, B. split_and!; [done| |done|done|done]. by intros a [->|Ha]%elem_of_cons; [|apply HA].
  - destruct (Z.leb_spec (cmp mm.1 key) 0) as [E1|E1].
    + exists [], [mm], mms. split_and!; [done|set_solver|intros m ->%list_elem_of_singleton; lia|intros b Hb; apply Hafter; [done|lia]|right; by exists mm].
    + exists [], [], (mm :: mms). split_and!; [done|set_solver|set_solver| |by left]. intros b [->|Hb]%elem_of_cons; [pose proof (cmp_range mm.1 key); lia|apply Hafter; [done|lia]].
Qed.
(** The last node that starts at the key or before it; the first if none does.  A node has
    also the keys between its range and the next one. *)
Definition place (key : bytes) (mins : list bytes) : nat := length (filter (λ m, cmp m key <= 0) (tail mins)).
Lemma place_split key A M B : (∀ a, a ∈ A → cmp a.2 key = -1) → (∀ m, m ∈ M → cmp m.1 key <= 0 ∧ 0 <= cmp m.2 key) → (∀ b, b ∈ B → cmp b.1 key = 1) → Forall (λ mm, cmp mm.1 mm.2 <= 0) (A ++ M ++ B) →
  place key (fst <$> A ++ M ++ B) = pred (length (A ++ M)).
Proof.
  intros HA HM HB Hle. rewrite Forall_forall in Hle. rewrite app_assoc in *. assert (∀ a, a ∈ A ++ M → cmp a.1 key <= 0) as Hlow.
  { intros a Ha. pose proof (Hle a ltac:(set_solver)). apply elem_of_app in Ha as [Ha|Ha]; [|by apply HM]. pose proof (HA a Ha). pose proof (cmp_le_trans a.1 a.2 key). lia. }
  assert (filter (λ m, cmp m key <= 0) (fst <$> B) = []) as HBn.
  { clear -HB. induction B as [|b B IH]; [done|]. rewrite fmap_cons, filter_cons_False by (rewrite (HB b (list_elem_of_here _ _)); lia). apply IH. set_solver. }
  assert (∀ L : list (bytes * bytes), (∀ a, a ∈ L → a ∈ A ++ M) → filter (λ m, cmp m key <= 0) (fst <$> L) = fst <$> L) as Hall.
  { intros L HL. apply Prelude.filter_all. intros m (a & -> & Ha)%list_elem_of_fmap. by apply Hlow, HL. }
  unfold place. destruct (A ++ M) as [|a L] eqn:E; cbn [app fmap list_fmap tail length pred].
  - destruct B as [|b B]; [done|]. rewrite fmap_cons in *. cbn [tail]. rewrite filter_cons in HBn. destruct (decide _); [done|]. change (list_fmap ?A ?B ?f ?l) with (f <$> l). by rewrite HBn.
  - change (list_fmap ?A ?B ?f ?l) with (f <$> l). rewrite fmap_app, filter_app, HBn, app_nil_r, Hall by set_solver. by rewrite length_fmap.
Qed.
End place.

Section nodes.
Context {St : Type} `{!TreeOps St, !TreeLaws St} (sch : srscheme) (Hown : own_scheme sch).
Abbreviation cmp := (scheme_cmp sch).

(** The index of a node's own branch has a first and a last page, with these keys. *)
Definition in_range (n : sinode St) (mm : bytes * bytes) : Prop :=
  ∃ h ps mms a b, index_rep (br_index (n_self n)) h ps mms ∧ Forall (λ mm, row_ready sch mm.1 ∧ row_ready sch mm.2) mms ∧ head mms = Some a ∧ last mms = Some b ∧ mm = (a.1, b.2).
(** A single node may have no range. *)
Record nodes_ok (s : si St) (xs : list loc) (mms : list (bytes * bytes)) : Prop := {
  nd_tree : t_seq (s_i s) xs;
  nd_n : s_n s = Z.of_nat (length xs);
  nd_length : length xs = length mms;
  nd_some : xs ≠ [];
  nd_in : Forall (λ x, is_Some (s_nodes s !! x)) xs;
  nd_ranges : length xs = 1%nat ∨ (Forall2 (λ x mm, ∃ n, s_nodes s !! x = Some n ∧ in_range n mm) xs mms ∧ pages_sorted cmp mms)
}.

Lemma nodecmp_ok n mm key : in_range n mm → row_ready sch key → cmp mm.1 mm.2 <= 0 →
  si_nodecmp sch n key = Some (if Z.leb (cmp mm.1 key) 0 && Z.geb (cmp mm.2 key) 0 then 0 else if Z.eqb (cmp mm.1 key) (-1) then -1 else 1).
Proof.
  intros (h & ps & mms & a & b & Hx & Hr & Ha & Hb & ->) Hk Hle. cbn [fst snd] in *. set (x := br_index (n_self n)) in *. pose proof (ir_count _ _ _ _ Hx) as Hc. pose proof (ir_small _ _ _ _ Hx) as Hsm.
  assert (length ps = length mms) as Hl by (destruct (ir_mem _ _ _ _ Hx) as (? & ? & _ & HF); by apply Forall2_length in HF).
  rewrite head_lookup in Ha. rewrite last_lookup in Hb. pose proof (lookup_lt_Some _ _ _ Ha) as Hpos.
  destruct (lookup_lt_is_Some_2 ps 0) as [p0 Hp0]; [lia|]. destruct (lookup_lt_is_Some_2 ps (pred (length mms))) as [p1 Hp1]; [lia|].
  unfold si_nodecmp, sd_indexmin, sd_indexmax. fold x. pose proof (indexpage_run x h ps mms Hx 0) as E0. change (Z.of_nat 0) with 0 in E0. rewrite E0 by lia. cbn [mbind option_bind].
  unfold cbind at 1. rewrite (index_h_run x h ps mms Hx), Hc. replace (Z.of_nat (length ps) - 1) with (Z.of_nat (pred (length mms))) by lia. rewrite (indexpage_run x h ps mms Hx) by lia. cbn [mbind option_bind].
  rewrite (rd_indexpage_run x h ps mms Hx _ p0 Hp0), (rd_indexpage_run x h ps mms Hx _ p1 Hp1). cbn [mbind option_bind].
  rewrite (proj1 (cmp_run x h ps mms Hx sch Hown Hr 0 p0 a key Hp0 Ha Hk)), (proj2 (cmp_run x h ps mms Hx sch Hown Hr _ p1 b key Hp1 Hb Hk)). cbn [mbind option_bind].
  destruct (Z.leb_spec (cmp a.1 key) 0); cbn [andb].
  - rewrite Z.geb_leb. destruct (Z.leb_spec 0 (cmp b.2 key)); [done|]. pose proof (cmp_range (cmp := cmp) b.2 key). pose proof (cmp_range (cmp := cmp) a.1 key). pose proof (cmp_le_trans (cmp := cmp) a.1 b.2 key). pose proof (cmp_opp (cmp := cmp) b.2 key). pose proof (cmp_opp (cmp := cmp) a.1 b.2). pose proof (cmp_le_trans (cmp := cmp) key a.1 b.2). pose proof (cmp_opp (cmp := cmp) a.1 key).
    assert (cmp a.1 key = -1) as -> by lia. done.
  - pose proof (cmp_range (cmp := cmp) a.1 key). pose proof (cmp_range (cmp := cmp) b.2 key). pose proof (cmp_opp (cmp := cmp) b.2 key). pose proof (cmp_le_trans (cmp := cmp) a.1 b.2 key). assert (cmp a.1 key = 1) as -> by lia. assert (cmp b.2 key = 1) as -> by lia. done.
Qed.

(** The tree of the nodes is cut by their ranges. *)
Lemma nodes_cut s xs mms key : Forall2 (λ x mm, ∃ n, s_nodes s !! x = Some n ∧ in_range n mm) xs mms → pages_sorted cmp mms → row_ready sch key →
  ∃ l1 m l2, cut (cmp_node (λ n, si_nodecmp sch n key) s) xs l1 m l2 ∧ (m = [] ∨ ∃ x, m = [x]) ∧ place cmp key (fst <$> mms) = pred (length (l1 ++ m)).
Proof.
  intros HF Hs Hk. destruct (range_split cmp key mms Hs) as (A & M & B & -> & HA & HM & HB & Hone). destruct Hs as [Hle _]. pose proof (place_split cmp key A M B HA HM HB Hle) as Hpl.
  apply Forall2_app_inv_r in HF as (l1 & lmb & F1 & F & ->). apply Forall2_app_inv_r in F as (m & l2 & F2 & F3 & ->). rewrite !Forall_app in Hle. destruct Hle as (Le1 & Le2 & Le3). exists l1, m, l2.
  assert (∀ L K R, Forall2 (λ x mm, ∃ n, s_nodes s !! x = Some n ∧ in_range n mm) L K → Forall (λ mm, cmp mm.1 mm.2 <= 0) K →
    (∀ mm, mm ∈ K → cmp mm.1 mm.2 <= 0 → (if Z.leb (cmp mm.1 key) 0 && Z.geb (cmp mm.2 key) 0 then 0 else if Z.eqb (cmp mm.1 key) (-1) then -1 else 1) = R) → ∀ x, x ∈ L → cmp_node (λ n, si_nodecmp sch n key) s x = R) as Hat.
  { intros L K R HF HL HR x [j Hj]%list_elem_of_lookup. destruct (Forall2_lookup_l _ _ _ _ _ HF Hj) as (mm & Hmm & n & Hn & Hr). pose proof (Forall_lookup_1 _ _ _ _ HL Hmm) as Hl. unfold cmp_node. rewrite Hn, (nodecmp_ok n mm key Hr Hk Hl).
    apply HR; [by eapply list_elem_of_lookup_2|done]. }
  split_and!.
  - split; [done|apply (Hat _ _ _ F1 Le1)|apply (Hat _ _ _ F2 Le2)|apply (Hat _ _ _ F3 Le3)].
    + intros mm Hmm Hl. rewrite (HA mm Hmm), andb_comm. cbn [Z.geb Z.compare andb]. pose proof (HA mm Hmm). pose proof (cmp_range (cmp := cmp) mm.1 key). pose proof (cmp_le_trans (cmp := cmp) mm.1 mm.2 key). pose proof (cmp_opp (cmp := cmp) mm.1 key). pose proof (cmp_opp (cmp := cmp) mm.2 key). pose proof (cmp_le_trans (cmp := cmp) key mm.1 mm.2).
      assert (cmp mm.1 key = -1) as -> by lia. done.
    + intros mm Hmm _. destruct (HM mm Hmm). destruct (Z.leb_spec (cmp mm.1 key) 0); [|lia]. rewrite Z.geb_leb. by destruct (Z.leb_spec 0 (cmp mm.2 key)); [|lia].
    + intros mm Hmm _. by rewrite (HB mm Hmm).
  - destruct Hone as [->|[mm ->]]; [left; by apply Forall2_nil_inv_r in F2|right]. apply Forall2_cons_inv_r in F2 as (x & l & _ & E%Forall2_nil_inv_r & ->). subst l. by exists x.
  - rewrite Hpl, !length_app. apply Forall2_length in F1, F2. lia.
Qed.

(** Opening the iterator at a key finds the node of the key. *)
Lemma iter_open_ok s xs mms o key : nodes_ok s xs mms → row_ready sch key →
  ∃ eq x, si_iter_open sch o (Some key) s = Some ((eq, mk_siiter (Some x) o), s) ∧ xs !! place cmp key (fst <$> mms) = Some x.
Proof.
  intros [Hseq Hn Hl Hne _ Hr] Hk. unfold si_iter_open. unfold cbind at 1, cget at 1. rewrite Hn. assert (∀ B (m : cmd St B) v, m (s_i s) = Some (v, s_i s) → on_nodetree m s = Some (v, s)) as Hon by (intros B m v E; unfold on_nodetree; rewrite E; by destruct s).
  destruct (Z.eqb_spec (Z.of_nat (length xs)) 1) as [E1|E1].
  - destruct xs as [|x [|]]; try done; cbn in E1; [|lia]. destruct mms as [|mm [|]]; try done. unfold cbind at 1. rewrite (Hon _ t_min (Some x)) by (by rewrite (t_min_ok _ _ Hseq)). by exists 1, x.
  - destruct Hr as [?|[HF Hs]]; [lia|]. destruct (nodes_cut s xs mms key HF Hs Hk) as (l1 & m & l2 & Hcut & Hone & ->). pose proof (cut_app _ _ _ _ _ Hcut) as Exs. unfold cbind at 1, iter_route, cbind at 1, si_itermatch.
    destruct Hone as [->|[x ->]].
    + cbn [app] in Exs. rewrite Exs in Hseq, Hcut. destruct (t_get_miss _ _ _ _ Hseq Hcut) as (r & Eg & Hb & _). rewrite (Hon _ _ _ Eg).
      destruct Hb as [(_ & -> & ->)|[(Er & x & Ex & Hx)|(Er & x & Ex & Hx)]]; [done|..]; rewrite Ex, Er; cbn [Z.eqb Pos.eqb].
      * exists 0, x. split; [done|]. rewrite Exs, app_nil_r, lookup_app_l by (rewrite last_lookup in Hx; by apply lookup_lt_Some in Hx). by rewrite <- last_lookup.
      * destruct l2 as [|y l2]; [done|]. injection Hx as ->. unfold cbind at 1. rewrite (Hon _ _ _ (t_prev_ok _ _ _ _ Hseq)). rewrite app_nil_r. destruct (last l1) as [z|] eqn:El.
        -- exists 0, z. split; [done|]. rewrite Exs, lookup_app_l by (rewrite last_lookup in El; by apply lookup_lt_Some in El). by rewrite <- last_lookup.
        -- apply last_None in El as ->. cbn [app] in *. unfold cbind at 1. rewrite (Hon _ t_min (Some x)) by (by rewrite (t_min_ok _ _ Hseq)). exists 0, x. by rewrite Exs.
    + rewrite Exs in Hseq, Hcut. rewrite (Hon _ _ _ (t_get_hit _ _ _ _ _ Hseq Hcut)). cbn [fst snd Z.eqb]. exists 1, x. split; [done|]. rewrite Exs, length_app. cbn [length]. rewrite Nat.add_1_r. cbn [pred]. by apply list_lookup_middle.
Qed.
End nodes.
