(* ===== verification/SiPlanner.v ===== *)
(** The planner of an index, si_planner.h and si_planner.c: which node background work takes next.
    The nodes are queued by the size of their indexes in memory ([s_branch]) and by the number
    of their branches ([s_compact]). *)
From stdpp Require Import base list sorting sets gmap.
From S2P Require Import Prelude SsOrder SsList SsRq SsRb SsRbSpec Sv SsBytes SsBuf Sf Sr SrScheme SvUpdate SvIndex SdPage SdIndex SsFile SdIter SiBranch SdRecover SiNode SiIndex.
Local Open Scope Z_scope.
Local Open Scope c_scope.

(** * Model *)

Definition SI_NONE : Z := 0.
Definition SI_BRANCH : Z := 1.
Definition SI_AGE : Z := 2.
Definition SI_COMPACT : Z := 4.
Definition SI_CHECKPOINT : Z := 8.
Definition SI_GC : Z := 16.
Definition SI_BACKUP : Z := 32.
Definition SI_BACKUPEND : Z := 64.
Definition SI_ENONE : Z := 0.
Definition SI_ERETRY : Z := 1.
Definition SI_EINDEX_SIZE : Z := 2.
Definition SI_EBRANCH_COUNT : Z := 3.
Definition SI_EINDEX_AGE : Z := 4.
Record siplan := mk_plan { pl_explain : Z; pl_plan : Z; pl_a : Z; pl_b : Z; pl_c : Z; pl_node : ptr }.
Definition si_planinit : siplan := mk_plan SI_ENONE SI_NONE 0 0 0 None.
Definition pl_retry (p : siplan) : siplan := mk_plan SI_ERETRY (pl_plan p) (pl_a p) (pl_b p) (pl_c p) (pl_node p).
Definition pl_match (explain : Z) (x : loc) (p : siplan) : siplan := mk_plan explain (pl_plan p) (pl_a p) (pl_b p) (pl_c p) (Some x).

(** [g1], [g2]: whether the queues get their memory; [b], [c]: the links of their nodes. *)
Definition si_plannerinit (g1 g2 : bool) (nodes : gmap positive ssrqnode) (links : gmap rqloc (sslist rqloc)) : option (option (ssrq * ssrq)) :=
  '(rc, c) ← ss_rqinit g1 1 20 nodes links;
  if Z.eqb rc (-1) then Some None else
  '(rc, b) ← ss_rqinit g2 (1024 * 1024) 4000 nodes links;
  if Z.eqb rc (-1) then Some None else Some (Some (b, c)).

Section model.
Context {St : Type} `{TreeOps St}.
Definition si_plannerupdate (mask : Z) (x : loc) : cmd (si St) () :=
  let! n := rd_node x in
  cwhen (c_true (Z.land mask SI_BRANCH)) (on_branchq (ss_rqupdate x (n_used n)));;;
  cwhen (c_true (Z.land mask SI_COMPACT)) (on_compactq (ss_rqupdate x (n_branch_count n))).
Definition si_plannerremove (mask : Z) (x : loc) : cmd (si St) () :=
  cwhen (c_true (Z.land mask SI_BRANCH)) (on_branchq (ss_rqdelete x));;;
  cwhen (c_true (Z.land mask SI_COMPACT)) (on_compactq (ss_rqdelete x)).

(** What the loops make of a node they see: go on, go on and remember that it was busy, take it,
    give up. *)
Inductive seen := Pass | Busy | Take | Stop.
(** [while ((pn = ss_rqprev(q, pn)))] *)
Fixpoint peek (fuel : nat) (prev : ptr → cmd (si St) ptr) (f : sinode St → option seen) (pn : ptr) (busy : bool) : cmd (si St) (ptr * bool) :=
  match fuel with
  | O => cfail
  | S fuel =>
      let! pn := prev pn in
      match pn with
      | None => cret (None, busy)
      | Some x =>
          let! n := rd_node x in
          let! v := cread (λ _, f n) in
          match v with
          | Pass => peek fuel prev f pn busy
          | Busy => peek fuel prev f pn true
          | Take => cret (Some x, busy)
          | Stop => cret (None, busy)
          end
      end
  end.
Definition branch_prev (pn : ptr) : cmd (si St) ptr := on_branchq (ss_rqprev pn).
Definition compact_prev (pn : ptr) : cmd (si St) ptr := on_compactq (ss_rqprev pn).
(** [match:] *)
Definition take_node (explain : Z) (x : loc) (plan : siplan) : cmd (si St) (Z * siplan) :=
  let! n := rd_node x in
  let! n := cread (λ _, si_nodelock n) in
  wr_node x (λ _, n);;;
  cret (1, pl_match explain x plan).

(** [fuel]: a turn for every node and one more.  [now]: the clock. *)
Context (fuel : nat) (now : Z).
Definition unless_locked (n : sinode St) (v w : seen) : option seen := Some (if n_has n SI_LOCK then v else w).
Definition si_plannerpeek_backup (plan : siplan) : cmd (si St) (Z * siplan) :=
  let! r := peek fuel branch_prev (λ n, if Z.ltb (n_backup n) (pl_a plan) then unless_locked n Busy Take else Some Pass) None false in
  match r.1 with
  | Some x => take_node SI_ENONE x plan
  | None =>
      if r.2 : bool then cret (2, pl_retry plan) else
      let! s := cget in
      if Z.ltb (s_backup s) (pl_a plan) then cret (1, mk_plan (pl_explain plan) SI_BACKUPEND (pl_a plan) (pl_b plan) (pl_c plan) None) else cret (0, plan)
  end.
Definition retry_or_none (busy : bool) (plan : siplan) : Z * siplan := if busy then (2, pl_retry plan) else (0, plan).
Definition si_plannerpeek_checkpoint (plan : siplan) : cmd (si St) (Z * siplan) :=
  let! r := peek fuel branch_prev (λ n, if Z.leb (i_lsnmin (n_i0 n)) (pl_a plan) then unless_locked n Busy Take else Some Pass) None false in
  match r.1 with Some x => take_node SI_ENONE x plan | None => cret (retry_or_none r.2 plan) end.
Definition si_plannerpeek_branch (plan : siplan) : cmd (si St) (Z * siplan) :=
  let! r := peek fuel branch_prev (λ n, unless_locked n Pass (if Z.geb (n_used n) (pl_a plan) then Take else Stop)) None false in
  match r.1 with Some x => take_node SI_EINDEX_SIZE x plan | None => cret (0, plan) end.
Definition si_plannerpeek_age (plan : siplan) : cmd (si St) (Z * siplan) :=
  let! r := peek fuel branch_prev (λ n, unless_locked n Pass (if Z.geb (n_used n) (pl_b plan) && Z.geb (u64 (now - n_update_time n)) (pl_a plan) then Take else Pass)) None false in
  match r.1 with Some x => take_node SI_EINDEX_AGE x plan | None => cret (0, plan) end.
Definition si_plannerpeek_compact (plan : siplan) : cmd (si St) (Z * siplan) :=
  let! r := peek fuel compact_prev (λ n, unless_locked n Pass (if Z.geb (n_branch_count n) (pl_a plan) then Take else Stop)) None false in
  match r.1 with Some x => take_node SI_EBRANCH_COUNT x plan | None => cret (0, plan) end.
(** How much of a branch are duplicates; without keys it divides by zero. *)
Definition dup_percent (h : sdindexheader) : option Z := if Z.eqb (x_keys h) 0 then None else Some (u32 (x_dupkeys h * 100) / x_keys h).
Definition gc_seen (plan : siplan) (n : sinode St) : option seen :=
  h ← fst <$> index_h (br_index (n_self n));
  if Z.eqb (x_dupkeys h) 0 || Z.geb (x_dupmin h) (pl_a plan) then Some Pass else
  used ← dup_percent h;
  if Z.geb used (pl_b plan) then unless_locked n Busy Take else Some Pass.
Definition si_plannerpeek_gc (plan : siplan) : cmd (si St) (Z * siplan) :=
  let! r := peek fuel compact_prev (gc_seen plan) None false in
  match r.1 with Some x => take_node SI_ENONE x plan | None => cret (retry_or_none r.2 plan) end.

Definition si_planner (plan : siplan) : cmd (si St) (Z * siplan) :=
  let p := pl_plan plan in
  if Z.eqb p SI_BRANCH then si_plannerpeek_branch plan else
  if Z.eqb p SI_AGE then si_plannerpeek_age plan else
  if Z.eqb p SI_CHECKPOINT then si_plannerpeek_checkpoint plan else
  if Z.eqb p SI_COMPACT then si_plannerpeek_compact plan else
  if Z.eqb p SI_GC then si_plannerpeek_gc plan else
  if Z.eqb p SI_BACKUP then si_plannerpeek_backup plan else cret (-1, plan).
End model.

(** * What is picked *)

Section picks.
Context {St : Type} `{TreeOps St}.
Fixpoint scan_seen (v : loc → seen) (L : list loc) (busy : bool) : ptr * bool :=
  match L with
  | [] => (None, busy)
  | x :: L => match v x with Pass => scan_seen v L busy | Busy => scan_seen v L true | Take => (Some x, busy) | Stop => (None, busy) end
  end.
Lemma peek_ok (prev : ptr → cmd (si St) ptr) f v s L : (∀ l1 l2, L = l1 ++ l2 → prev (last l1) s = Some (head l2, s)) →
  (∀ x, x ∈ L → ∃ n, s_nodes s !! x = Some n ∧ f n = Some (v x)) →
  ∀ l2 l1 fuel busy, L = l1 ++ l2 → (length l2 < fuel)%nat → peek fuel prev f (last l1) busy s = Some (scan_seen v l2 busy, s).
Proof.
  intros Hprev Hf l2. induction l2 as [|x l2 IH]; intros l1 fuel busy E Hl; (destruct fuel as [|fuel]; [cbn in Hl; lia|]); cbn [peek]; unfold cbind at 1; rewrite (Hprev _ _ E); cbn [head]; [done|].
  destruct (Hf x) as (n & Hn & Hv); [rewrite E; set_solver|]. unfold cbind at 1, rd_node, cread at 1. rewrite Hn. unfold cbind at 1, cread at 1. rewrite Hv. cbn [scan_seen].
  destruct (v x); [..|done|done]; rewrite <- (last_snoc x l1); (apply IH; [by rewrite <- app_assoc|cbn in Hl; lia]).
Qed.
Lemma queue_prev (on : ∀ A, cmd ssrq A → cmd (si St) A) (q : si St → ssrq) s bs : (∀ A (m : cmd ssrq A) a, m (q s) = Some (a, q s) → on A m s = Some (a, s)) → rq_rep (q s) bs →
  ∀ l1 l2, rq_order bs = l1 ++ l2 → on _ (ss_rqprev (last l1)) s = Some (head l2, s).
Proof.
  intros Hon R l1 l2 E. apply Hon. destruct (last l1) as [m|] eqn:El.
  - apply last_Some in El as [l ->]. rewrite <- app_assoc in E. by rewrite (rqprev_next_ok _ bs l m l2).
  - apply last_None in El as ->. by rewrite (rqprev_first_ok _ bs), E.
Qed.

(** What a plan looks for. *)
Definition wanted (now : Z) (plan : siplan) (n : sinode St) : bool :=
  let p := pl_plan plan in
  if Z.eqb p SI_BRANCH then Z.geb (n_used n) (pl_a plan) else
  if Z.eqb p SI_AGE then Z.geb (n_used n) (pl_b plan) && Z.geb (u64 (now - n_update_time n)) (pl_a plan) else
  if Z.eqb p SI_CHECKPOINT then Z.leb (i_lsnmin (n_i0 n)) (pl_a plan) else
  if Z.eqb p SI_COMPACT then Z.geb (n_branch_count n) (pl_a plan) else
  if Z.eqb p SI_GC then
    match index_h (br_index (n_self n)) with
    | Some (h, _) => negb (Z.eqb (x_dupkeys h) 0) && Z.ltb (x_dupmin h) (pl_a plan) && Z.geb (default 0 (dup_percent h)) (pl_b plan)
    | None => false
    end else
  Z.ltb (n_backup n) (pl_a plan).
Definition free (n : sinode St) : bool := negb (n_has n SI_LOCK).
Definition at_node (s : si St) (f : sinode St → bool) (x : loc) : bool := match s_nodes s !! x with Some n => f n | None => false end.
(** The reference: out of the queued nodes [L], in order.  The plans for size and for the number
    of branches look at the first free node only. *)
Definition greedy (plan : siplan) : bool := Z.eqb (pl_plan plan) SI_BRANCH || Z.eqb (pl_plan plan) SI_COMPACT.
Definition pick (now : Z) (plan : siplan) (s : si St) (L : list loc) : Z * ptr :=
  let want := wanted now plan in
  let first := if greedy plan then head (filter (λ x, at_node s free x = true) L) else head (filter (λ x, at_node s (λ n, free n && want n) x = true) L) in
  match first with
  | Some x => if at_node s want x then (1, Some x) else (0, None)
  | None => if negb (greedy plan) && negb (Z.eqb (pl_plan plan) SI_AGE) && existsb (at_node s want) L then (2, None) else (0, None)
  end.
Definition by_size (plan : siplan) : bool := negb (Z.eqb (pl_plan plan) SI_COMPACT || Z.eqb (pl_plan plan) SI_GC).

Lemma scan_greedy s now plan v L : greedy plan = true → (∀ x, x ∈ L → ∃ n, s_nodes s !! x = Some n ∧ v x = if n_has n SI_LOCK then Pass else if wanted now plan n then Take else Stop) →
  scan_seen v L false = ((pick now plan s L).2, false) ∧ (pick now plan s L).1 = if (pick now plan s L).2 then 1 else 0.
Proof.
  intros Hg. unfold pick. rewrite Hg. cbn [negb andb]. induction L as [|x L IH]; intros Hv; [done|]. destruct (Hv x (list_elem_of_here _ _)) as (n & Hn & Ev). cbn [scan_seen]. rewrite Ev.
  assert (at_node s free x = free n) as Ef by (unfold at_node; by rewrite Hn). rewrite filter_cons, Ef. unfold free. destruct (n_has n SI_LOCK); cbn [negb].
  - rewrite decide_False by done. apply IH. intros y Hy. apply Hv. by right.
  - rewrite decide_True by done. cbn [head]. unfold at_node. rewrite Hn. by destruct (wanted now plan n).
Qed.
Lemma scan_all s now plan (b : bool) v L : greedy plan = false → (∀ x, x ∈ L → ∃ n, s_nodes s !! x = Some n ∧ v x = if wanted now plan n then (if n_has n SI_LOCK then (if b then Busy else Pass) else Take) else Pass) → b = negb (Z.eqb (pl_plan plan) SI_AGE) →
  ∀ busy, (scan_seen v L busy).1 = (pick now plan s L).2 ∧ (if (pick now plan s L).2 then (pick now plan s L).1 = 1 else (pick now plan s L).1 = if b && existsb (at_node s (wanted now plan)) L then 2 else 0) ∧
    ((pick now plan s L).2 = None → (scan_seen v L busy).2 = busy || (b && existsb (at_node s (wanted now plan)) L)).
Proof.
  intros Hg Hv Hb. unfold pick. rewrite Hg, <- Hb. cbn [negb andb]. induction L as [|x L IH]; intros busy.
  { cbn. by destruct b, busy. }
  destruct (Hv x (list_elem_of_here _ _)) as (n & Hn & Ev). cbn [scan_seen existsb]. rewrite Ev.
  assert (∀ f, at_node s f x = f n) as Ef by (intros f; unfold at_node; by rewrite Hn). rewrite filter_cons, !Ef. unfold free.
  assert (∀ y, y ∈ L → ∃ n, s_nodes s !! y = Some n ∧ v y = if wanted now plan n then (if n_has n SI_LOCK then (if b then Busy else Pass) else Take) else Pass) as Hv' by (intros y Hy; apply Hv; by right).
  destruct (wanted now plan n) eqn:Ew; cbn [orb andb]; [destruct (n_has n SI_LOCK); cbn [negb andb]|rewrite andb_false_r].
  - rewrite decide_False by done. destruct b; cbn [andb]; [|by apply IH]. specialize (IH Hv' true). rewrite orb_true_r. cbn [andb orb] in IH. destruct (head _) as [y|] eqn:Eh.
    + assert (at_node s (wanted now plan) y = true) as Ey.
      { apply head_Some_elem_of, list_elem_of_filter in Eh as [Hy _]. unfold at_node in *. destruct (s_nodes s !! y); [|done]. by apply andb_prop in Hy as [_ Hy]. }
      rewrite Ey in *. destruct IH as (IH1 & _ & _). by split_and!.
    + destruct IH as (IH1 & _ & IH3). destruct (existsb _ L); cbn in *; split_and!; try done; auto.
  - rewrite decide_True by done. cbn [head]. by rewrite Ef, Ew.
  - rewrite decide_False by done. by apply IH.
Qed.

(** The queue of a plan, its nodes, and the index of those a plan for garbage collection sees. *)
Record queued (plan : siplan) (s : si St) (bs : list (list positive)) : Prop := {
  qd_rep : rq_rep (if by_size plan then s_branch s else s_compact s) bs;
  qd_nodes : ∀ x, x ∈ rq_order bs → is_Some (s_nodes s !! x);
  qd_gc : pl_plan plan = SI_GC → ∀ x n, x ∈ rq_order bs → s_nodes s !! x = Some n → ∃ h, index_h (br_index (n_self n)) = Some (h, br_index (n_self n)) ∧ x_keys h ≠ 0
}.
Definition queue_walk (plan : siplan) : ptr → cmd (si St) ptr := if by_size plan then branch_prev else compact_prev.
Lemma queue_walk_ok plan s bs : queued plan s bs → ∀ l1 l2, rq_order bs = l1 ++ l2 → queue_walk plan (last l1) s = Some (head l2, s).
Proof.
  intros [R _ _]. unfold queue_walk. destruct (by_size plan).
  - apply (queue_prev (@on_branchq St) s_branch s bs); [|done]. intros A m a E. unfold on_branchq. rewrite E. by destruct s.
  - apply (queue_prev (@on_compactq St) s_compact s bs); [|done]. intros A m a E. unfold on_compactq. rewrite E. by destruct s.
Qed.
Lemma peek_queue plan s bs f v fuel : queued plan s bs → (length (rq_order bs) < fuel)%nat → (∀ x n, x ∈ rq_order bs → s_nodes s !! x = Some n → f n = Some (v n)) →
  peek fuel (queue_walk plan) f None false s = Some (scan_seen (λ x, match s_nodes s !! x with Some n => v n | None => Pass end) (rq_order bs) false, s).
Proof.
  intros Hq Hl Hf. apply (peek_ok _ _ (λ x, match s_nodes s !! x with Some n => v n | None => Pass end) s (rq_order bs) (queue_walk_ok plan s bs Hq)) with (l1 := []); [|done|done].
  intros x Hx. destruct (qd_nodes _ _ _ Hq x Hx) as [n Hn]. exists n. rewrite Hn. split; [done|]. by eapply Hf.
Qed.

(** What a plan comes to. *)
Definition picked (s : si St) (plan : siplan) (p : Z * ptr) (rc : Z) (plan' : siplan) (s' : si St) : Prop :=
  match p.2 with
  | Some x => rc = 1 ∧ pl_node plan' = Some x ∧ pl_plan plan' = pl_plan plan ∧
      ∃ n, s_nodes s !! x = Some n ∧ n_has n SI_LOCK = false ∧ s' = si_with_nodes (<[x := node_with_flags (Z.lor (n_flags n) SI_LOCK) n]> (s_nodes s)) s
  | None => s' = s ∧
      if Z.eqb p.1 2 then rc = 2 ∧ plan' = pl_retry plan
      else if Z.eqb (pl_plan plan) SI_BACKUP && Z.ltb (s_backup s) (pl_a plan) then rc = 1 ∧ pl_plan plan' = SI_BACKUPEND ∧ pl_node plan' = None
      else rc = 0 ∧ plan' = plan
  end.
Lemma take_ok explain (s : si St) x n plan : s_nodes s !! x = Some n → n_has n SI_LOCK = false →
  take_node explain x plan s = Some ((1, pl_match explain x plan), si_with_nodes (<[x := node_with_flags (Z.lor (n_flags n) SI_LOCK) n]> (s_nodes s)) s).
Proof. intros Hn Hl. unfold take_node, rd_node, wr_node, si_nodelock, cbind, cread. by rewrite Hn, Hl, Hn. Qed.
(** The node that is picked is free. *)
Lemma pick_free now plan s L x : (pick now plan s L).2 = Some x → x ∈ L ∧ ∃ n, s_nodes s !! x = Some n ∧ n_has n SI_LOCK = false ∧ wanted now plan n = true.
Proof.
  unfold pick. intros E. set (first := if greedy plan then _ else _) in *. destruct first as [y|] eqn:Ef; [|by destruct (negb (greedy plan) && negb (pl_plan plan =? SI_AGE) && existsb (at_node s (wanted now plan)) L)].
  destruct (at_node s (wanted now plan) y) eqn:Ew; [|done]. cbn in E. injection E as ->.
  assert (∀ P : loc → bool, head (filter (λ x, P x = true) L) = Some x → P x = true ∧ x ∈ L) as Hin.
  { intros P Hx%head_Some_elem_of. by apply list_elem_of_filter in Hx. }
  assert (at_node s free x = true ∧ x ∈ L) as [Hf Hx].
  { subst first. destruct (greedy plan); [by apply Hin|]. apply Hin in Ef as [Ef Hx]. split; [|done]. unfold at_node in *. destruct (s_nodes s !! x); [|done]. by apply andb_prop in Ef as [Ef _]. }
  split; [done|]. unfold at_node in *. destruct (s_nodes s !! x) as [n|]; [|done]. exists n. unfold free in Hf. by destruct (n_has n SI_LOCK).
Qed.
Lemma picked_some (s : si St) plan now L x e : (pick now plan s L).2 = Some x → ∃ s', take_node e x plan s = Some ((1, pl_match e x plan), s') ∧ picked s plan (pick now plan s L) 1 (pl_match e x plan) s'.
Proof.
  intros Ex. destruct (pick_free _ _ _ _ _ Ex) as (_ & n & Hn & Hl & _). eexists. split; [by apply take_ok|]. unfold picked. rewrite Ex. split_and!; [done|done|done|]. by exists n.
Qed.
End picks.

Definition plans : list Z := [SI_BRANCH; SI_AGE; SI_COMPACT; SI_CHECKPOINT; SI_GC; SI_BACKUP].
Section correct.
Context {St : Type} `{TreeOps St}.
Lemma greedy_ok (s : si St) bs fuel now plan e : queued plan s bs → (length (rq_order bs) < fuel)%nat → greedy plan = true →
  ∃ rc plan' s', (let! r := peek fuel (queue_walk plan) (λ n, unless_locked n Pass (if wanted now plan n then Take else Stop)) None false in
    match r.1 with Some x => take_node e x plan | None => cret (0, plan) end) s = Some ((rc, plan'), s') ∧ picked s plan (pick now plan s (rq_order bs)) rc plan' s'.
Proof.
  intros Hq Hl Hg. unfold cbind at 1. rewrite (peek_queue plan s bs _ (λ n, if n_has n SI_LOCK then Pass else if wanted now plan n then Take else Stop) fuel Hq Hl) by done.
  destruct (scan_greedy s now plan (λ x, match s_nodes s !! x with Some n => if n_has n SI_LOCK then Pass else if wanted now plan n then Take else Stop | None => Pass end) (rq_order bs) Hg) as [-> Erc].
  { intros x Hx. destruct (qd_nodes _ _ _ Hq x Hx) as [n Hn]. exists n. by rewrite Hn. }
  cbn [fst]. destruct (pick now plan s (rq_order bs)).2 as [x|] eqn:Ex.
  - destruct (picked_some s plan now _ x e Ex) as (s' & E & Hp). by eexists _, _, s'.
  - eexists _, _, s. split; [done|]. unfold picked. rewrite Ex, Erc. split; [done|]. unfold greedy in Hg. cbn [Z.eqb]. destruct (Z.eqb_spec (pl_plan plan) SI_BACKUP) as [E|_]; [by rewrite E in Hg|done].
Qed.
(** The loops that go through the whole queue; [b]: busy nodes are remembered. *)
Lemma full_scan_ok (s : si St) bs fuel now plan (b : bool) f (rest : bool → cmd (si St) (Z * siplan)) : queued plan s bs → (length (rq_order bs) < fuel)%nat → greedy plan = false → b = negb (Z.eqb (pl_plan plan) SI_AGE) →
  (∀ x n, x ∈ rq_order bs → s_nodes s !! x = Some n → f n = Some (if wanted now plan n then (if n_has n SI_LOCK then (if b then Busy else Pass) else Take) else Pass)) →
  (∀ busy : bool, (busy = true → b = true) → ∃ rc plan', rest busy s = Some ((rc, plan'), s) ∧ picked s plan (if busy then 2 else 0, None) rc plan' s) → ∀ e,
  ∃ rc plan' s', (let! r := peek fuel (queue_walk plan) f None false in match r.1 with Some x => take_node e x plan | None => rest r.2 end) s = Some ((rc, plan'), s') ∧ picked s plan (pick now plan s (rq_order bs)) rc plan' s'.
Proof.
  intros Hq Hl Hg Hb Hf Hrest e. unfold cbind at 1. rewrite (peek_queue plan s bs _ (λ n, if wanted now plan n then (if n_has n SI_LOCK then (if b then Busy else Pass) else Take) else Pass) fuel Hq Hl) by done.
  destruct (scan_all s now plan b (λ x, match s_nodes s !! x with Some n => if wanted now plan n then (if n_has n SI_LOCK then (if b then Busy else Pass) else Take) else Pass | None => Pass end) (rq_order bs) Hg) with (busy := false) as (E1 & Erc & E2); [|done|].
  { intros x Hx. destruct (qd_nodes _ _ _ Hq x Hx) as [n Hn]. exists n. by rewrite Hn. }
  destruct (scan_seen _ _ _) as [r busy]. cbn [fst snd] in *. subst r. destruct (pick now plan s (rq_order bs)) as [rc [x|]] eqn:Ep; cbn [fst snd] in *.
  - destruct (picked_some s plan now (rq_order bs) x e) as (s' & E & Hp); [by rewrite Ep|]. rewrite Ep in Hp. by eexists _, _, s'.
  - rewrite (E2 eq_refl). cbn [orb]. destruct (Hrest (b && existsb (at_node s (wanted now plan)) (rq_order bs))) as (rc' & plan' & E & Hp); [by destruct b|]. eexists _, _, s. split; [done|]. by rewrite Erc.
Qed.

End correct.

(** ** Witness: three queued nodes, the one with the biggest index locked *)
Definition demo_plannode (flags used : Z) : sinode ssrb := mk_node flags 0 used 0 si_branchinit [] 0 (sv_indexinit (mk_rb None ∅)) (sv_indexinit (mk_rb None ∅)) (mk_file 0 (mk_os [] 0 [])) ss_mmapinit false.
Definition demo_planned : si ssrb :=
  mk_si rq_demo_state rq_demo_state (mk_rb None ∅) 3 false 0 0 0 0 ss_bufinit sv_updateinit
    (list_to_map [(1%positive, demo_plannode 0 5); (2%positive, demo_plannode SI_LOCK 25); (3%positive, demo_plannode 0 7)]).
Definition demo_plan (plan a : Z) : siplan := mk_plan 0 plan a 0 0 None.
Lemma demo_plan_queued plan a : plan ≠ SI_GC → queued (demo_plan plan a) demo_planned [[]; [1%positive; 3%positive]; []; [2%positive]].
Proof.
  intros Hp. split; [destruct (by_size _); exact rq_demo_rep| |by intros ?]. intros x Hx. change (rq_order _) with [2%positive; 1%positive; 3%positive] in Hx.
  rewrite !elem_of_cons in Hx. destruct Hx as [->|[->|[->|Hx]]]; [by eexists..|by apply not_elem_of_nil in Hx].
Qed.
(** A plan for branching misses a node: the queue knows sizes up to its step only, and the first
    free node is too small while another of its bucket is not. *)
Example planner_misses : pick 0 (demo_plan SI_BRANCH 6) demo_planned (rq_order [[]; [1%positive; 3%positive]; []; [2%positive]]) = (0, None) ∧
  (n_used <$> s_nodes demo_planned !! 3%positive) = Some 7 ∧ (n_flags <$> s_nodes demo_planned !! 3%positive) = Some 0.
Proof. split_and!; vm_compute; reflexivity. Qed.
(** The share of duplicates of a branch wraps: of 45 million keys all duplicates, it is 4 percent. *)
Example dup_percent_wraps h : x_keys h = 45000000 → x_dupkeys h = 45000000 → dup_percent h = Some 4.
Proof. intros E1 E2. unfold dup_percent. by rewrite E1, E2. Qed.
