(* ===== verification/SiWrite.v ===== *)
(** Writing to an index, si_write.h and si_write.c, and [si_querycommited] of si_query.c. *)
From stdpp Require Import base list sorting sets gmap.
From S2P Require Import Prelude SsOrder SsRq SsRb SsRbInsert SsRbSpec Sv SvLog SsBytes SsBuf Sf Sr SrScheme SvMerge SvMergeProofs SvUpdate SvIndex SvIndexProofs SdPage SdIndex SdIndexIter SsFile SdIter SiBranch SdRecover SiNode SiIndex SiPlanner.
Local Open Scope Z_scope.
Local Open Scope c_scope.

Section model.
Context {St : Type} `{TreeOps St} (sch : srscheme).
Abbreviation cmp := (scheme_cmp sch).

(** [struct sitx]; [tx_index] is the index it points to, the log and its chain are arguments.
    [tx_gc]: the versions that are given to [si_gcv] and taken off the quota. *)
Record sitx := mk_sitx { tx_index : si St; tx_nodelist : list loc; tx_time : Z; tx_vlsn : Z; tx_gc : list (loc * svv) }.
Definition on_index {A} (m : cmd (si St) A) : cmd sitx A := λ t,
  match m (tx_index t) with Some (a, i) => Some (a, mk_sitx i (tx_nodelist t) (tx_time t) (tx_vlsn t) (tx_gc t)) | None => None end.
Definition si_begin (index : si St) (vlsn time : Z) : sitx := mk_sitx index [] time vlsn [].
Fixpoint commit_nodes (l : list loc) : cmd (si St) () :=
  match l with
  | [] => cret ()
  | x :: l =>
      wr_node x (λ n, node_with_write (n_update_time n) (n_used n) false n);;;
      si_plannerupdate SI_BRANCH x;;;
      commit_nodes l
  end.
Definition si_commit : cmd sitx () := let! t := cget in on_index (commit_nodes (tx_nodelist t)).

Definition sv_vsize (v : svv) : Z := u32 (sizeof_svv + v_size v).
(** The version, at [x], comes into the store of the index. *)
Definition with_version (x : loc) (v : svv) (i : svindex St) : svindex St := mk_svindex (i_i i) (i_count i) (i_used i) (i_lsnmin i) (<[x := v]> (i_v i)).
(** [sv_indexget] and [sv_indexupdate] on the index a node writes to. *)
Definition node_set (x : loc) (v : svv) (n : sinode St) : option (sinode St) :=
  '(_, i) ← (let! r := sv_indexget cmp x in sv_indexupdate r.1 x) (with_version x v (si_nodeindex n));
  Some (set_nodeindex i n).
Definition si_set (x : loc) (v : svv) : cmd sitx Z :=
  let! t := cget in
  on_index (λ s, Some ((), si_with_time (tx_time t) s));;;
  let! i := on_index (si_iter_open sch SS_GTE (Some (v_data v))) in
  let! node := cread (λ _, si_iter_of i.2) in
  let! n := on_index (rd_node node) in
  let! n := cread (λ _, node_set x v n) in
  let! s := on_index cget in
  let listed := n_commit n in
  on_index (wr_node node (λ _, node_with_write (s_update_time s) (u32 (n_used n + sv_vsize v)) true n));;;
  cwhen (negb listed) (λ t, Some ((), mk_sitx (tx_index t) (tx_nodelist t ++ [node]) (tx_time t) (tx_vlsn t) (tx_gc t)));;;
  cret 0.

(** ** What is on disk already *)
Definition si_querycommited_branch (b : sibranch) (v : svv) : option Z :=
  '(i, _) ← sd_indexiter_open sch SS_GTE (Some (v_data v)) (br_index b);
  match sd_indexiter_of i with
  | None => Some 0
  | Some o => '(p, _) ← rd_indexpage o (br_index b); Some (if Z.geb (g_lsnmax p) (v_lsn v) then 1 else 0)
  end.
Fixpoint commited_in (bs : list sibranch) (self : sibranch) (v : svv) : option Z :=
  match bs with
  | [] => si_querycommited_branch self v
  | b :: bs => rc ← si_querycommited_branch b v; if Z.eqb rc 0 then commited_in bs self v else Some 1
  end.
Definition si_querycommited (v : svv) : cmd (si St) Z :=
  let! i := si_iter_open sch SS_GTE (Some (v_data v)) in
  let! node := cread (λ _, si_iter_of i.2) in
  let! n := rd_node node in
  cread (λ _, commited_in (snd <$> n_branch n) (n_self n) v).

(** [c]: the versions left of the chain, [cv]: the next one, which is not read behind the last. *)
Fixpoint write_loop (check : bool) (l : svlog (loc * svv)) (c : nat) (cv : option (svlogv (loc * svv))) : cmd sitx () :=
  match c with
  | O => cret ()
  | S c =>
      let! lv := cread (λ _, cv) in
      let '(x, v) := lv_v lv in
      let! dropped := (if check then on_index (si_querycommited v) else cret 0) in
      (if c_true dropped then (λ t, Some ((), mk_sitx (tx_index t) (tx_nodelist t) (tx_time t) (tx_vlsn t) (tx_gc t ++ [(x, v)]))) else si_set x v;;; cret ());;;
      write_loop check l c (sv_logat (lv_next lv) l)
  end.
Definition si_write (check : bool) (l : svlog (loc * svv)) (li : svlogindex) : cmd sitx () := write_loop check l (Z.to_nat (li_count li)) (sv_logat (li_head li) l).
End model.
Arguments sitx : clear implicits.
