(* ===== verification/SiQuery.v ===== *)
(** Looking up a key in its node: the part of si_query.c that serves [SS_EQ]. *)
From stdpp Require Import base list sorting sets gmap.
From S2P Require Import Prelude SsOrder SsRb SsRbInsert SsRbSpec Sv SsBytes SsBuf SsFilter Sf Sr SrScheme SvMerge SvMergeProofs SvUpdate SvRead SvIndex SvIndexProofs SvIndexIter SdPage SdPageIter SdPageRep SdPageKv SdPageSpec SdBuild SdBuildProofs SdIndex SdIndexIter SdMergeProofs SsFile SdIter SiBranch SdRecover SiSeek SiRead SiReadProofs SiNode SiCache SiIndex.
Local Open Scope Z_scope.
Local Open Scope c_scope.

(** * Queries *)

(** What a query is asked, and what it changes: the cache, the file and the map of the node,
    the buffer and the counter of the index, and the result. *)
Record siquery := mk_query { q_key : bytes; q_prefix : option bytes; q_vlsn : Z; q_has : bool }.
Record qst := mk_qst { q_cache : sicache; q_file : ssfile; q_map : ssmmap; q_readbuf : ssbuf; q_disk : Z; q_result : option sv }.
Definition with_cache (c : sicache) (s : qst) := mk_qst c (q_file s) (q_map s) (q_readbuf s) (q_disk s) (q_result s).
Definition with_result (v : sv) (s : qst) := mk_qst (q_cache s) (q_file s) (q_map s) (q_readbuf s) (q_disk s) (Some v).
(** What si_read uses of the scheme. *)
Record qconf := mk_qconf { qc_compression : bool; qc_mmap : bool }.

Section model.
Context {St : Type} `{TreeOps St} `{Alloc} (r : sr) (upd : sfupdatef) {F : Type} (cif : ssfilterif F) (conf : qconf) (q : siquery).
(** [io]: for the system calls, [n]: for the pages, [fuel]: for the versions. *)
Context (io n fuel : nat).
Abbreviation cmp := (scheme_cmp (r_scheme r)).

(** [sv_vdup]: the version with its flags and number in memory of its own. *)
Definition sv_vdup (v : sv) : option sv :=
  match ss_malloc (Z.to_nat sizeof_svv + length (sv_pointer v)) with None => None | Some _ => Some v end.
Definition si_querydup (v : sv) : cmd qst Z :=
  match sv_vdup v with
  | None => cret (-1)
  | Some v => (λ s, Some ((), with_result v s));;; cret 1
  end.
Definition si_qgetresult (v : sv) (compare : bool) : cmd qst Z :=
  let! other := (if compare then let! rc := cread (λ _, sr_compare (r_scheme r) (sv_pointer v) (q_key q)) in cret (c_true rc) else cret false) in
  if other : bool then cret 0 else
  let! outside := (match q_prefix q with
                   | Some prefix => let! rc := cread (λ _, sr_compareprefix (r_scheme r) prefix (sv_pointer v)) in cret (negb (c_true rc))
                   | None => cret false
                   end) in
  if outside : bool then cret 0 else
  if q_has q then cret (if Z.gtb (sv_lsn v) (q_vlsn q) then 1 else 0) else
  if sv_is v SVDELETE then cret 2 else
  si_querydup v.

(** The place of the key in an index that is not empty. *)
Definition index_at (i : svindex St) : option (option svindexiter) :=
  if Z.gtb (i_count i) 0 then
    '(eq, ii) ← fst <$> sv_indexiter_open cmp SS_GTE (Some (q_key q)) i;
    Some (if eq : bool then Some ii else None)
  else Some None.
Definition getindex_result (i : svindex St) (ii : svindexiter) : cmd qst Z :=
  let! v := cread (λ _, fst <$> sv_indexiter_of ii i) in
  cassert (bool_decide (is_Some v));;;
  let! visible := (if q_has q then cret (ii_vcur ii) else cread (λ _, sv_visible fuel (i_v i) (ii_vcur ii) (q_vlsn q))) in
  match visible with
  | None => cret 0
  | Some x => let! u := cread (λ _, i_v i !! x) in si_qgetresult (svv_sv u) false
  end.
Definition si_qgetindex (node : sinode St) : cmd qst Z :=
  let '(first, second) := si_nodeindex_priority node in
  let! ii := cread (λ _, index_at first) in
  match ii with
  | Some ii => getindex_result first ii
  | None =>
      match second with
      | None => cret 0
      | Some second =>
          let! ii := cread (λ _, index_at second) in
          match ii with Some ii => getindex_result second ii | None => cret 0 end
      end
  end.

(** [u]: the room for updates of the index, which a format that is looked up with [SS_EQ] has
    none of. *)
Section branches.
Context (u : svupdate).
Definition read_arg (b : sibranch) : sireadarg := mk_readarg (qc_compression conf) (qc_mmap conf) (br_index b) (q_vlsn q) (q_has q) false SS_GTE.
(** The memory an entry of the cache reads with, and what is left in it. *)
Definition entry_mem (cb : sicachebranch) (s : qst) : rdst := mk_rdst (q_file s) (q_map s) (cb_buf_a cb) (cb_buf_b cb) (q_readbuf s) (q_disk s).
Definition set_entry (k : nat) (cb : sicachebranch) (rd : rdst) (i : siread) (s : qst) : qst :=
  let c := q_cache s in
  mk_qst (mk_cache (<[k := mk_cb (cb_branch cb) i (rd_buf rd) (rd_xf rd) (cb_open cb)]> (ca_path c)) (ca_branch c) (ca_count c) (ca_nodeid c) (ca_node c))
    (rd_file rd) (rd_map rd) (rd_read rd) (rd_disk rd) (q_result s).
Definition si_qgetbranch (b : nat * sibranch) : cmd qst Z :=
  let! s := cget in
  let! follow := cread (λ _, si_cachefollow (q_cache s)) in
  let '(k, c) := follow in
  cput (with_cache c s);;;
  let! cb := cread (λ _, ca_path c !! k) in
  cassert (bool_decide (cb_branch cb = Some b.1));;;
  let arg := read_arg b.2 in
  let! s := cget in
  let! res := cread (λ _, si_read_open r cif io arg n (Some (q_key q)) (entry_mem cb s)) in
  let '(rc, i, rd) := res in
  cput (set_entry k cb rd i s);;;
  if Z.leb rc 0 then cret rc else
  let vlsn := if q_has q then UINT64_MAX else q_vlsn q in
  let RI := read_iter r cif io arg n in
  let MI := svmergeiter_merge (I := rdst * siread) cmp in
  let! m := cread (λ _, sv_mergeiter_open cmp (sv_mergeadd [] (rd, i)) SS_GTE) in
  let! j := cread (λ _, sv_readiter_open upd fuel m u vlsn true) in
  (* the sources of the merge are the iterators of the cache *)
  let! src := cread (λ _, mi_src (ri_merge j) !! 0%nat) in
  let! s := cget in
  cput (set_entry k cb (src_i src).1 (src_i src).2 s);;;
  match sv_readiter_of j with
  | None => cret 0
  | Some v => si_qgetresult v true
  end.
Fixpoint qget_branches (bs : list (nat * sibranch)) : cmd qst Z :=
  match bs with
  | [] => cret 0
  | b :: bs => let! rc := si_qgetbranch b in if Z.eqb rc 0 then qget_branches bs else cret rc
  end.
(** [si_qget] from the node of the key on, which is at [x].  [sv_mergeprepare] for one source does not allocate: the query
    starts with room for sixteen.  The error state of the runtime, which a failure sets, is left out. *)
Definition qget_node (x : loc) (node : sinode St) : cmd qst Z :=
  let! rc := si_qgetindex node in
  if negb (Z.eqb rc 0) then cret rc else
  let! s := cget in
  let! res := cread (λ _, si_cachevalidate x (id_id (br_id (n_self node))) (fst <$> n_branch node) (n_branch_count node) (q_cache s)) in
  cput (with_cache res.2 s);;;
  if Z.eqb res.1 (-1) then cret (-1) else
  qget_branches (n_branch node).

End branches.
(** What a query works on: the index, its cache and its result. *)
Record gst := mk_gst { g_index : si St; g_cache : sicache; g_result : option sv }.
(** The node in the index, with its file and map, after the query. *)
Definition put_back (x : loc) (n : sinode St) (qs : qst) (s : si St) : si St :=
  si_with_reads (q_disk qs) (s_read_cache s) (q_readbuf qs) (si_with_nodes (<[x := node_with_file (q_file qs) (q_map qs) n]> (s_nodes s)) s).
Definition si_qget : cmd gst Z := λ g,
  '((_, i), s) ← si_iter_open (r_scheme r) SS_GTE (Some (q_key q)) (g_index g);
  x ← si_iter_of i;
  n ← s_nodes s !! x;
  '(rc, qs) ← qget_node (s_u s) x n (mk_qst (g_cache g) (n_file n) (n_map n) (s_readbuf s) (s_read_disk s) (g_result g));
  Some (rc, mk_gst (put_back x n qs s) (q_cache qs) (q_result qs)).
End model.
Arguments gst : clear implicits.
