(* ===== verification/SiQueryProofs.v ===== *)
(** A lookup finds the newest version of a key that the reader may see: first in the indexes in
    memory, then in the branches. *)
From stdpp Require Import base list sorting sets gmap.
From S2P Require Import Prelude SsOrder SsRb SsRbInsert SsRbSpec Sv SsBytes SsBuf SsFilter Sf Sr SrScheme SvMerge SvMergeProofs SvUpdate SvRead SvIndex SvIndexProofs SvIndexIter SdPage SdPageIter SdPageRep SdPageKv SdPageSpec SdBuild SdBuildProofs SdIndex SdIndexIter SdMergeProofs SsFile SdIter SiBranch SdRecover SiSeek SiRead SiReadProofs SiNode SiCache SiQuery.
Local Open Scope Z_scope.
Local Open Scope c_scope.

(** * The versions of a key *)

Section key.
Context (cmp : bytes → bytes → Z) `{!KeyOrder cmp} (k : bytes).
Abbreviation scmp := (sv_compare cmp).
Abbreviation at_key := (mk_sv 0 0 k).
(** All versions of the key among those of a sorted content. *)
Definition key_versions (vss : list (list sv)) : list sv := filter (λ a, scmp a at_key = 0) (concat vss).
(** The first version that is not newer than [vlsn]. *)
Definition visible (vlsn : Z) (l : list sv) : option sv := head (drop_newer vlsn l).

Lemma visible_app vlsn l l' : visible vlsn (l ++ l') = match visible vlsn l with Some v => Some v | None => visible vlsn l' end.
Proof. unfold visible. induction l as [|v l IH]; [done|]. cbn [app drop_newer]. by destruct (Z.gtb (sv_lsn v) vlsn). Qed.
Lemma visible_in vlsn l v : visible vlsn l = Some v → v ∈ l ∧ sv_lsn v <= vlsn.
Proof.
  unfold visible. induction l as [|w l IH]; [done|]. cbn [drop_newer]. destruct (Z.gtb_spec (sv_lsn w) vlsn); [intros E; destruct (IH E); split; [by right|done]|]. cbn. intros [= ->]. split; [left|lia].
Qed.
Lemma in_concat (L : list (list sv)) (R : Z) : (∀ c a, c ∈ L → a ∈ c → scmp a at_key = R) → ∀ a, a ∈ concat L → scmp a at_key = R.
Proof. intros HL a (i & c & Hc & Ha)%elem_of_concat. apply (HL c); [by eapply list_elem_of_lookup_2|done]. Qed.
(** A content around the key. *)
Lemma key_versions_split A M B vss : vss = A ++ M ++ B → (∀ c a, c ∈ A → a ∈ c → scmp a at_key = -1) → (∀ c a, c ∈ M → a ∈ c → scmp a at_key = 0) → (∀ c a, c ∈ B → a ∈ c → scmp a at_key = 1) →
  key_versions vss = concat M.
Proof.
  intros -> HA HM HB. unfold key_versions. rewrite !concat_app, !filter_app. assert (∀ L R, R ≠ 0 → (∀ c a, c ∈ L → a ∈ c → scmp a at_key = R) → filter (λ a, scmp a at_key = 0) (concat L) = []) as Hno.
  { intros L R HR HL. apply (SvIndexIter.filter_none cmp). intros a Ha E. by rewrite (in_concat L R HL a Ha) in E. }
  rewrite (Hno A (-1)), (Hno B 1), app_nil_r by done. apply Prelude.filter_all. by apply (in_concat M 0).
Qed.
Lemma content_places vss : content_ok cmp vss → ∃ A M B, vss = A ++ M ++ B ∧ (∀ c a, c ∈ A → a ∈ c → scmp a at_key = -1) ∧ (∀ c a, c ∈ M → a ∈ c → scmp a at_key = 0) ∧
  (∀ c a, c ∈ B → a ∈ c → scmp a at_key = 1) ∧ (M = [] ∨ ∃ c, M = [c]).
Proof.
  intros Hc. destruct (key_split cmp at_key vss Hc) as (A & M & B & E & HA & HB & HM). exists A, M, B. split; [done|]. split; [done|]. destruct HM as [[-> _]|(c & -> & Hk & _)].
  - split; [set_solver|]. split; [done|by left].
  - split; [intros d a ->%list_elem_of_singleton; apply Hk|]. split; [done|right; by exists c].
Qed.

(** ** The index in memory *)

Lemma sv_visible_ok h vlsn c : ∀ vs p fuel, chain h p c vs None → (length c < fuel)%nat →
  ∃ x, sv_visible fuel h p vlsn = Some x ∧ match x with None => visible vlsn vs = None | Some x => ∃ u, h !! x = Some u ∧ visible vlsn vs = Some (svv_sv u) end.
Proof.
  induction c as [|x c IH]; intros vs p fuel Hc Hf; (destruct fuel as [|fuel]; [lia|]); destruct vs as [|v vs]; try done; cbn [sv_visible].
  - cbn in Hc. subst p. by exists None.
  - destruct Hc as (-> & u & Hu & <- & Hc). rewrite Hu. cbn [mbind option_bind]. unfold visible. cbn [drop_newer]. change (v_lsn u) with (sv_lsn (svv_sv u)). destruct (Z.gtb (sv_lsn (svv_sv u)) vlsn); [|by exists (Some x); split; [|exists u]].
    apply (IH vs (v_next u) fuel Hc). cbn in Hf. lia.
Qed.
Section index.
Context {St : Type} `{!TreeOps St, !TreeLaws St}.
Context (i : svindex St) (cs : list (list loc)) (vss : list (list sv)) (Hi : idx_rep cmp i cs vss).
Lemma indexiter_at : ∃ eq ii, sv_indexiter_open cmp SS_GTE (Some k) i = Some ((eq, ii), i) ∧
  if eq : bool then ∃ x c, ii = SvIndex.mk_indexiter (Some x) (Some x) SS_GTE ∧ chain (i_v i) (Some x) c (key_versions vss) None ∧ NoDup c else key_versions vss = [].
Proof.
  destruct (idx_split cmp i cs vss at_key Hi) as (csA & csM & csB & A & M & B & Ecs & Evss & HA & HM & HB & Hcut & HkA & HkB & HM').
  pose proof (ir_seq _ _ _ _ Hi) as Hseq. rewrite Ecs, !omap_app in Hseq, Hcut. unfold sv_indexiter_open, cbind. destruct HM' as [[-> _]|(vs & -> & Hkey & _)].
  - apply Forall2_nil_inv_r in HM as ->. simpl in Hseq, Hcut. destruct (t_get_miss _ _ _ _ Hseq Hcut) as (rr & Er & Hb & _).
    rewrite (seek_miss cmp i cs vss Hi SS_GTE k csA csB rr eq_refl Ecs Er Hb). eexists _, _. split; [done|]. cbn. apply (key_versions_split A [] B); [done|done|set_solver|done].
  - apply Forall2_cons_inv_r in HM as (c & csM' & Hc & HM & ->). apply Forall2_nil_inv_r in HM as ->. destruct (chain_some cmp i cs vss Hi c) as [x Hx]; [rewrite Ecs; clear; set_solver|]. csimpl in Hseq. csimpl in Hcut. rewrite Hx in Hseq, Hcut.
    rewrite (seek_hit cmp i cs vss Hi SS_GTE k csA c csB x eq_refl Ecs Hx); [|by apply (t_get_hit _ _ _ _ _ Hseq)]. eexists _, _. split; [done|]. cbn. rewrite Hx. exists x, c. split; [done|].
    rewrite (key_versions_split A [vs] B vss Evss HkA) by (done || (intros d a ->%list_elem_of_singleton; apply Hkey)). cbn [concat]. rewrite app_nil_r. rewrite Hx in Hc. split; [done|].
    pose proof (ir_nodup _ _ _ _ Hi) as Hnd. rewrite Ecs, !concat_app in Hnd. apply NoDup_app in Hnd as (_ & _ & Hnd). apply NoDup_app in Hnd as (Hnd & _ & _). cbn [concat] in Hnd. by rewrite app_nil_r in Hnd.
Qed.
End index.
End key.

(** * What the iterators over a source keep of it *)

Section kept.
Context {I : Type} `{SsIter I} (cmp : bytes → bytes → Z) (P : I → Prop) (HP : ∀ i, P i → P (it_next i)).
Lemma scan_sources pick todo : ∀ pos m min, src_i <$> (mergeiter_scan cmp pick todo pos m min).1 = src_i <$> m.
Proof.
  induction todo as [|todo IH]; intros pos m min; cbn [mergeiter_scan]; [done|]. destruct (m !! pos ≫= _) as [v|]; [|apply IH]. destruct min as [[q w]|]; [|apply IH].
  destruct (Z.eqb _ 0); [by rewrite IH, src_i_set_dup|]. destruct (Z.eqb _ pick); [by rewrite IH, src_i_dupreset|apply IH].
Qed.
Definition sources_ok (i : svmergeiter I) : Prop := Forall P (src_i <$> mi_src i) ∧ mi_src i ≠ [].
Lemma advance_sources m v : Forall P (src_i <$> m) → Forall P (src_i <$> mergeiter_advance m v).
Proof.
  destruct v as [p|]; [|done]. rewrite !Forall_lookup. intros Hm q x. cbn [mergeiter_advance]. rewrite list_lookup_fmap. destruct (decide (p = q)) as [->|Hne].
  - rewrite list_lookup_alter_eq. destruct (m !! q) as [s|] eqn:E; [|done]. cbn. intros [= <-]. apply HP, (Hm q). by rewrite list_lookup_fmap, E.
  - rewrite list_lookup_alter_ne by done. intros E. apply (Hm q). by rewrite list_lookup_fmap.
Qed.
Lemma next_sources i i' : sv_mergeiter_next cmp i = Some i' → sources_ok i → sources_ok i'.
Proof.
  intros E [Hs Hne]. assert (mergeiter_advance (mi_src i) (mi_v i) ≠ []) as Hne'.
  { intros E0. apply Hne. apply (f_equal length) in E0. destruct (mi_v i); cbn [mergeiter_advance] in E0; rewrite ?length_alter in E0; by apply length_zero_iff_nil. }
  assert (∀ pick, let r := mergeiter_scan cmp pick (length (mergeiter_advance (mi_src i) (mi_v i))) 0 (mergeiter_advance (mi_src i) (mi_v i)) None in Forall P (src_i <$> r.1) ∧ r.1 ≠ []) as Hr.
  { intros pick r. unfold r. rewrite scan_sources. split; [by apply advance_sources|]. intros E0. apply Hne'. apply (f_equal (fmap src_i)) in E0. rewrite scan_sources in E0. by apply fmap_nil_inv in E0. }
  unfold sv_mergeiter_next, sv_mergeiter_gt, sv_mergeiter_lt in E. destruct (mi_order i); simplify_eq; apply Hr.
Qed.
End kept.
Section reader_kept.
Context {M : Type} `{MergeIter M} (upd : sfupdatef) (Q : M → Prop) (HQ : ∀ i i', Q i → mg_next i = Some i' → Q i').
Lemma update_loop_kept fuel : ∀ skip u i u' i', readiter_update_loop fuel skip u i = Some (u', i') → Q i → Q i'.
Proof.
  induction fuel as [|fuel IH]; intros skip u i u' i' E Hi; [done|]. cbn [readiter_update_loop] in E. destruct (negb (mg_has i)); [by simplify_eq|]. destruct (mg_of i) as [v|]; [|done]. cbn [mbind option_bind] in E.
  destruct (mg_dup i v) as [d|]; [|done]. cbn [mbind option_bind] in E. destruct (negb d); [by simplify_eq|]. destruct (mg_next i) as [i1|] eqn:En; [|done]. cbn [mbind option_bind] in E. destruct skip; eapply IH; eauto.
Qed.
Lemma readiter_loop_kept fuel : ∀ im im', readiter_loop upd fuel im = Some im' → Q (ri_merge im) → Q (ri_merge im').
Proof.
  induction fuel as [|fuel IH]; intros im im' E Hi; [done|]. cbn [readiter_loop] in E. destruct (negb (mg_has (ri_merge im))); [by simplify_eq|]. destruct (mg_of (ri_merge im)) as [v|]; [|done]. cbn [mbind option_bind] in E.
  destruct (mg_dup (ri_merge im) v) as [d|]; [|done]. cbn [mbind option_bind] in E. destruct (mg_next (ri_merge im)) as [i1|] eqn:En; cbn [mbind option_bind] in E.
  - assert (Q i1) as Hi1 by eauto. destruct (ri_nextdup im && d); [by apply IH in E|]. destruct (Z.gtb _ _); [by apply IH in E|]. destruct (negb _ && _); [by apply IH in E|].
    destruct (sv_is v SVUPDATE); [|by simplify_eq]. unfold sv_readiter_update in E. destruct (mg_of (ri_merge im)) as [v'|]; [|done]. cbn [mbind option_bind] in E. destruct (Z.eqb _ 0); [done|]. rewrite En in E. cbn [mbind option_bind] in E.
    destruct (readiter_update_loop _ _ _ _) as [[u i2]|] eqn:Eu; [|done]. cbn [mbind option_bind] in E. assert (Q i2) by (eapply update_loop_kept; eauto). destruct (sv_update upd u); by simplify_eq.
  - destruct (ri_nextdup im && d); [done|]. destruct (Z.gtb _ _); [done|]. destruct (negb _ && _); [done|]. destruct (sv_is v SVUPDATE); [|by simplify_eq].
    unfold sv_readiter_update in E. destruct (mg_of (ri_merge im)) as [v'|]; [|done]. cbn [mbind option_bind] in E. destruct (Z.eqb _ 0); [done|]. by rewrite En in E.
Qed.
Lemma readiter_open_kept fuel i u vlsn sd im : sv_readiter_open upd fuel i u vlsn sd = Some im → Q i → Q (ri_merge im).
Proof. intros E Hi. unfold sv_readiter_open, sv_readiter_next in E. cbn [ri_next ri_merge mbind option_bind] in E. by apply readiter_loop_kept in E. Qed.
End reader_kept.

(** * The reader at a key *)

Section reader.
Context (cmp : bytes → bytes → Z) `{!KeyOrder cmp} (k : bytes) (upd : sfupdatef) (vlsn : Z).
Abbreviation scmp := (sv_compare cmp).
Abbreviation at_key := (mk_sv 0 0 k).
Definition plain (vs : list sv) : Prop := Forall (λ v, sv_is v SVUPDATE = false) vs.
Lemma read_key_plain g : plain g → read_key upd vlsn true g = visible vlsn g.
Proof.
  intros Hg. unfold read_key, visible. induction Hg as [|v g Hv Hg IH]; [done|]. cbn [drop_newer]. destruct (Z.gtb (sv_lsn v) vlsn); [done|]. cbn [negb andb head]. by rewrite Hv.
Qed.
(** The first group of a stream that begins with the versions of the key. *)
Lemma first_group c rest gs : c ≠ [] → (∀ a, a ∈ c → scmp a at_key = 0) → (∀ a, a ∈ rest → scmp a at_key = 1) → keyed cmp (c ++ rest) gs →
  ∃ gs', gs = c :: gs' ∧ ∀ g a, g ∈ gs' → a ∈ g → scmp a at_key = 1.
Proof.
  intros Hne Hc Hr [E Hs Hso]. destruct gs as [|g gs]; [by destruct c|]. exists gs. destruct (Hs g ltac:(constructor)) as [Hg Hsame]. destruct g as [|b g]; [done|]. destruct c as [|a c]; [done|]. cbn [concat app] in E. injection E as -> E.
  assert (∀ x, x ∈ a :: g → scmp x at_key = 0) as Hg0.
  { intros x Hx. rewrite (cmp_eq_l scmp x a at_key); [apply Hc; constructor|by apply Hsame; [|constructor]]. }
  assert (∀ h x, h ∈ gs → x ∈ h → scmp x at_key = 1) as Hgs.
  { intros h x Hh Hx. apply StronglySorted_inv in Hso as [_ Hso]. rewrite Forall_forall in Hso. pose proof (Hso h Hh a x ltac:(constructor) Hx) as Hax. rewrite (cmp_eq_l scmp _ _ _ (Hc a ltac:(constructor))) in Hax. pose proof (cmp_opp (cmp:=scmp) at_key x). lia. }
  split; [|done]. f_equal. assert (filter (λ x, scmp x at_key = 0) (g ++ concat gs) = filter (λ x, scmp x at_key = 0) (c ++ rest)) as Ef by (by rewrite E). rewrite !filter_app in Ef.
  rewrite (SvIndexIter.filter_none cmp _ rest), (SvIndexIter.filter_none cmp _ (concat gs)), !app_nil_r in Ef.
  2: { intros x Hx E0. by rewrite (in_concat cmp k gs 1 Hgs x Hx) in E0. }
  2: { intros x Hx E0. by rewrite (Hr x Hx) in E0. }
  rewrite !Prelude.filter_all in Ef; [congruence|intros x Hx; apply Hc; by right|intros x Hx; apply Hg0; by right].
Qed.
Lemma reader_first vss gs : content_ok cmp vss → plain (concat vss) → key_versions cmp k vss ≠ [] → keyed cmp (concat (seek cmp SS_GTE (Some k) vss)) gs →
  match visible vlsn (key_versions cmp k vss) with
  | Some v => head (omap (read_key upd vlsn true) gs) = Some v
  | None => ∀ a, head (omap (read_key upd vlsn true) gs) = Some a → a ∈ concat vss ∧ scmp a at_key = 1
  end.
Proof.
  intros Hc Hp Hne Hk. destruct (content_places cmp k vss Hc) as (A & M & B & E & HA & HM & HB & H1). rewrite (key_versions_split cmp k A M B vss E HA HM HB) in *. rewrite (seek_split cmp SS_GTE k vss A M B Hc E HA HM HB) in Hk.
  destruct H1 as [->|[c ->]]; [done|]. cbn [concat app] in *. rewrite app_nil_r in *. destruct (first_group c (concat B) gs) as (gs' & -> & Hgs); [done|intros a Ha; by apply (HM c); [constructor|]|by apply in_concat|done|].
  rewrite E, concat_app in Hp. apply Forall_app in Hp as [_ Hp]. cbn [concat] in Hp. apply Forall_app in Hp as [Hpc HpB]. cbn [omap list_omap]. rewrite (read_key_plain c Hpc).
  destruct (visible vlsn c) as [v|]; [done|]. intros a Ha. apply head_Some_elem_of in Ha. apply list_elem_of_omap in Ha as (g & Hg & Er). assert (concat gs' = concat B) as EB by (apply (app_inv_head c); exact (ky_concat _ _ _ Hk)).
  assert (∀ x, x ∈ g → x ∈ concat B) as Hsub. { intros x Hx. rewrite <- EB. apply list_elem_of_lookup in Hg as [j Hj]. apply elem_of_concat. by exists j, g. }
  rewrite read_key_plain in Er. 2: { apply Forall_forall. intros x Hx. rewrite Forall_forall in HpB. by apply HpB, Hsub. }
  destruct (visible_in vlsn g a Er) as [Ha _]. split; [|by apply (Hgs g)]. rewrite E, concat_app. apply elem_of_app. right. cbn [concat]. apply elem_of_app. right. by apply Hsub.
Qed.
End reader.

Lemma stream_prefix cmp l l' : stream_ok cmp l → l' `prefix_of` l → stream_ok cmp l'.
Proof.
  intros [Hs Hf] [x ->]. split; [by apply StronglySorted_app_1_l in Hs|]. clear Hs. revert Hf. generalize (@None sv). induction l' as [|v l' IH]; intros prev; [done|]. cbn [app flagged]. intros [H1 H2]. split; [done|by apply IH].
Qed.
Lemma found_versions cmp `{!KeyOrder cmp} k vss : content_ok cmp vss → found cmp k vss = bool_decide (key_versions cmp k vss ≠ []).
Proof.
  intros Hc. destruct (content_places cmp k vss Hc) as (A & M & B & E & HA & HM & HB & H1). rewrite (key_versions_split cmp k A M B vss E HA HM HB).
  assert (∀ c, c ∈ vss → ∃ a, head c = Some a ∧ a ∈ c) as Hh.
  { intros c Hin. pose proof (ct_chains _ _ Hc) as HF. rewrite Forall_forall in HF. destruct c as [|a c]; [by destruct (co_ne _ _ (HF [] Hin))|]. exists a. split; [done|constructor]. }
  destruct H1 as [->|[c ->]].
  - apply not_true_iff_false. unfold found. rewrite existsb_exists. intros (c & Hin%list_elem_of_In & Ez%Z.eqb_eq). destruct (Hh c Hin) as (a & Ea & Ha). rewrite Ea in Ez. assert (sv_compare cmp a (mk_sv 0 0 k) = 0) as Ez' by exact Ez. clear Ez.
    rewrite E in Hin. apply elem_of_app in Hin as [Hin|Hin]; [rewrite (HA c a Hin Ha) in Ez'|rewrite (HB c a Hin Ha) in Ez']; done.
  - destruct (Hh c ltac:(rewrite E; set_solver)) as (a & Ea & Ha). cbn [concat]. rewrite app_nil_r, bool_decide_eq_true_2 by (intros ->; by apply not_elem_of_nil in Ha).
    unfold found. apply existsb_exists. exists c. split; [apply list_elem_of_In; rewrite E; set_solver|]. rewrite Ea. apply Z.eqb_eq. exact (HM c a (list_elem_of_here _ _) Ha).
Qed.

(** * The lookup *)

Section get.
Context `{Alloc} (r : sr) (upd : sfupdatef) {F : Type} (cif : ssfilterif F) (conf : qconf) (q : siquery) (io n fuel : nat) (u : svupdate) (T : Z) (file : bytes) (A : list answer).
Context (HT : 4 * T <= INT_MAX) (Hio : (length A < io)%nat) (Hn : (2 <= n)%nat) (Hupd : ∀ fa a fb b, is_Some (upd fa a fb b)).
Context (Hcomp : qc_compression conf = false) (Hhas : q_has q = false) (Hpre : q_prefix q = None) (Hown : own_scheme (r_scheme r)) (Hkey : row_ready (r_scheme r) (q_key q)).
Abbreviation cmp := (scheme_cmp (r_scheme r)).
Abbreviation k := (q_key q).

(** The file, its map and the buffers of the cache. *)
Definition bufs_ok (cb : sicachebranch) : Prop := buf_cap T (cb_buf_a cb) ∧ buf_cap T (cb_buf_b cb).
Record qok (s : qst) : Prop := {
  qk_file : file `prefix_of` o_data (fl_os (q_file s));
  qk_map : qc_mmap conf = true → ∃ m, mm_p (q_map s) = Some m ∧ file `prefix_of` m;
  qk_answers : o_answers (fl_os (q_file s)) `suffix_of` A;
  qk_cache : Forall bufs_ok (ca_path (q_cache s))
}.
(** The answer for the version that is visible. *)
Definition answered (w : option sv) (rc : Z) (s : qst) : Prop :=
  match w with None => rc = 0 | Some v => if sv_is v SVDELETE then rc = 2 else rc = 1 ∧ q_result s = Some v end.
Definition get_post (w : option sv) (rc : Z) (s : qst) : Prop := answered w rc s ∨ read_fails A.
Lemma with_result_ok v s : qok s → qok (with_result v s).
Proof. intros [H1 H2 H3 H4]. by split. Qed.
(** [s'] has the cache of [s]. *)
Lemma querydup_ok v s : qok s → sv_is v SVDELETE = false → wp (si_querydup v) s (λ rc s', qok s' ∧ q_cache s' = q_cache s ∧ get_post (Some v) rc s').
Proof.
  intros Hs Hd. unfold si_querydup, sv_vdup. destruct (ss_malloc _) eqn:Em.
  - apply wp_bind. unfold wp at 1. apply wp_ret. split; [by apply with_result_ok|]. split; [done|]. left. cbn. by rewrite Hd.
  - apply wp_ret. split; [done|]. split; [done|]. right. left. by eexists.
Qed.
Lemma getresult_ok v compare s : qok s → (compare = true → row_ready (r_scheme r) (sv_pointer v)) →
  wp (si_qgetresult r q v compare) s (λ rc s', qok s' ∧ q_cache s' = q_cache s ∧ get_post (if compare && negb (Z.eqb (cmp (sv_pointer v) k) 0) then None else Some v) rc s').
Proof.
  intros Hs Hr. unfold si_qgetresult. apply wp_bind. assert (∀ b : bool, b = compare && negb (Z.eqb (cmp (sv_pointer v) k) 0) → wp (if b then cret 0 else let! outside := (match q_prefix q with
    | Some prefix => let! rc := cread (λ _, sr_compareprefix (r_scheme r) prefix (sv_pointer v)) in cret (negb (c_true rc)) | None => cret false end) in
    if outside : bool then cret 0 else if q_has q then cret (if Z.gtb (sv_lsn v) (q_vlsn q) then 1 else 0) else if sv_is v SVDELETE then cret 2 else si_querydup v) s
    (λ rc s', qok s' ∧ q_cache s' = q_cache s ∧ get_post (if compare && negb (Z.eqb (cmp (sv_pointer v) k) 0) then None else Some v) rc s')) as Hrest.
  { intros b <-. destruct b; [apply wp_ret; split_and!; [done|done|by left]|]. rewrite Hpre, Hhas. apply wp_bind, wp_ret. cbv iota. destruct (sv_is v SVDELETE) eqn:Ed; [|by apply querydup_ok].
    apply wp_ret. split_and!; [done|done|left]. cbn. by rewrite Ed. }
  destruct compare; cbn [andb] in *; [|apply wp_ret; exact (Hrest false eq_refl)]. apply wp_bind. unfold wp at 1, cread. rewrite (compare_ok _ _ _ Hown (Hr eq_refl) Hkey). apply wp_ret. by apply (Hrest (c_true _)).
Qed.

(** ** In memory *)
Section memory.
Context {St : Type} `{!TreeOps St, !TreeLaws St}.
(** An index with its versions, which its counter counts. *)
Definition index_holds (i : svindex St) (vss : list (list sv)) : Prop := ∃ cs, idx_rep cmp i cs vss ∧ (vss ≠ [] → 0 < i_count i) ∧ (length (concat vss) < fuel)%nat.
Lemma index_at_ok (i : svindex St) vss : index_holds i vss → ∃ res, index_at r q i = Some res ∧
  match res with None => key_versions cmp k vss = [] | Some ii => ∃ x c, ii = SvIndex.mk_indexiter (Some x) (Some x) SS_GTE ∧ chain (i_v i) (Some x) c (key_versions cmp k vss) None ∧ (length c < fuel)%nat end.
Proof.
  intros (cs & Hi & Hcount & Hsize). unfold index_at. rewrite Z.gtb_ltb. destruct (Z.ltb_spec 0 (i_count i)) as [Hc|Hc].
  - destruct (indexiter_at cmp k i cs vss Hi) as (eq & ii & E & HE). rewrite E. cbn [fmap option_fmap option_map fst mbind option_bind]. eexists. split; [done|]. destruct eq; [|done].
    destruct HE as (x & c & -> & Hch & Hnd). exists x, c. split_and!; [done|done|]. rewrite (chain_length _ _ _ _ _ Hch). eapply Nat.le_lt_trans; [apply length_filter|done].
  - eexists. split; [done|]. cbv iota. destruct vss as [|vs vss]; [done|]. specialize (Hcount ltac:(done)). lia.
Qed.
Lemma getindex_result_ok (i : svindex St) c vs x s : qok s → chain (i_v i) (Some x) c vs None → (length c < fuel)%nat →
  wp (getindex_result r q fuel i (SvIndex.mk_indexiter (Some x) (Some x) SS_GTE)) s (λ rc s', qok s' ∧ q_cache s' = q_cache s ∧ get_post (visible (q_vlsn q) vs) rc s').
Proof.
  intros Hs Hc Hf. destruct (sv_visible_ok (i_v i) (q_vlsn q) c vs (Some x) fuel Hc Hf) as (y & Ey & Hy). unfold getindex_result. apply wp_bind. destruct c as [|x' c]; destruct vs as [|v vs]; try done. destruct Hc as ([= <-] & u0 & Hu0 & _).
  assert (fst <$> sv_indexiter_of (SvIndex.mk_indexiter (Some x) (Some x) SS_GTE) i = Some (Some (svv_sv u0))) as Eof by (unfold sv_indexiter_of, rd_v, cbind, cread; cbn; by rewrite Hu0).
  unfold wp at 1, cread at 1. rewrite Eof. apply wp_bind, wp_assert; [by apply bool_decide_eq_true_2|].
  apply wp_bind. rewrite Hhas. unfold wp at 1, cread at 1. cbn [SvIndex.ii_vcur]. rewrite Ey. destruct y as [y|]; [|apply wp_ret; split_and!; [done|done|left]; by rewrite Hy]. destruct Hy as (u1 & Hu1 & ->). apply wp_bind. unfold wp at 1, cread. rewrite Hu1.
  by apply (getresult_ok (svv_sv u1) false).
Qed.
(** What the lookup in memory sees: the second index only if the first has no version of the
    key. *)
Definition memory_versions (vss0 vss1 : list (list sv)) (rotated : bool) : list sv :=
  if rotated then match key_versions cmp k vss1 with [] => key_versions cmp k vss0 | l => l end else key_versions cmp k vss0.
Lemma getindex_ok (node : sinode St) vss0 vss1 s : qok s → index_holds (n_i0 node) vss0 → index_holds (n_i1 node) vss1 →
  wp (si_qgetindex r q fuel node) s (λ rc s', qok s' ∧ q_cache s' = q_cache s ∧ get_post (visible (q_vlsn q) (memory_versions vss0 vss1 (n_has node SI_ROTATE))) rc s').
Proof.
  intros Hs H0 H1. unfold si_qgetindex, si_nodeindex_priority, memory_versions. destruct (index_at_ok _ _ H0) as (r0 & E0 & HE0), (index_at_ok _ _ H1) as (r1 & E1 & HE1).
  assert (∀ (i : svindex St) (res : option svindexiter) vs, match res with None => vs = [] | Some ii => ∃ x c, ii = SvIndex.mk_indexiter (Some x) (Some x) SS_GTE ∧ chain (i_v i) (Some x) c vs None ∧ (length c < fuel)%nat end →
    wp (match res with Some ii => getindex_result r q fuel i ii | None => cret 0 end) s (λ rc s', qok s' ∧ q_cache s' = q_cache s ∧ get_post (visible (q_vlsn q) vs) rc s')) as Hres.
  { intros i [ii|] vs HE; [|subst; apply wp_ret; split_and!; [done|done|by left]]. destruct HE as (x & c & -> & Hch & Hl). by apply (getindex_result_ok i c). }
  destruct (n_has node SI_ROTATE); cbv iota beta; apply wp_bind; unfold wp at 1, cread.
  - rewrite E1. destruct r1 as [ii|].
    + pose proof HE1 as (x & c & _ & Hch & _). assert (key_versions cmp k vss1 ≠ []) as Hne by (destruct c; destruct (key_versions cmp k vss1); done).
      destruct (key_versions cmp k vss1) eqn:Ev; [done|]. rewrite <- Ev. by apply (Hres _ (Some ii)); rewrite Ev.
    + rewrite HE1. apply wp_bind. unfold wp at 1, cread. rewrite E0. by apply Hres.
  - rewrite E0. by apply (Hres _ r0).
Qed.
End memory.

(** ** In a branch *)
Definition branch_holds (b : sibranch) (vss : list (list sv)) : Prop := ∃ h vsss, vss = concat vsss ∧ branch_pages r T file (br_index b) h vsss ∧ plain (concat vss) ∧ (length (concat vss) < fuel)%nat.
Abbreviation branches_of s := (cb_branch <$> ca_path (q_cache s)).
Lemma entry_rok b cb s : qok s → cb ∈ ca_path (q_cache s) → rok (read_arg conf q b) T file A (entry_mem cb s).
Proof. intros [H1 H2 H3 H4] Hcb. rewrite Forall_forall in H4. destruct (H4 cb Hcb). by split. Qed.
Lemma set_entry_ok b j cb cb' rd i s : qok s → ca_path (q_cache s) !! j = Some cb' → cb_branch cb = cb_branch cb' → rok (read_arg conf q b) T file A rd →
  qok (set_entry j cb rd i s) ∧ branches_of (set_entry j cb rd i s) = branches_of s ∧ ca_branch (q_cache (set_entry j cb rd i s)) = ca_branch (q_cache s).
Proof.
  intros [H1 H2 H3 H4] Hj Eb [R1 R2 R3 R4 R5]. split_and!; [|cbn [q_cache set_entry ca_path]; rewrite list_fmap_insert; cbn [cb_branch]; rewrite Eb; apply list_insert_id; by rewrite list_lookup_fmap, Hj|done].
  split; [done|done|done|]. cbn [q_cache set_entry ca_path]. by apply Forall_insert.
Qed.
Lemma follow_ok s j : ca_branch (q_cache s) = Some j → ∃ c, si_cachefollow (q_cache s) = Some (j, c) ∧ ca_path c = ca_path (q_cache s) ∧ ca_branch c = if (S j <? length (ca_path (q_cache s)))%nat then Some (S j) else None.
Proof. intros E. unfold si_cachefollow. rewrite E. cbn [mbind option_bind]. eexists. by split. Qed.
Definition after_branch (j : nat) (s s' : qst) : Prop := qok s' ∧ branches_of s' = branches_of s ∧ ca_branch (q_cache s') = if (S j <? length (ca_path (q_cache s)))%nat then Some (S j) else None.

(** The reader over the stream of an opened branch. *)
Lemma branch_reader b vsss rd i l' vss : reading r (read_arg conf q b) T file A vsss (rd, i) →
  (∀ p, reading r (read_arg conf q b) T file A vsss p → reading r (read_arg conf q b) T file A vsss (it_next (SsIter := read_iter r cif io (read_arg conf q b) n) p)) →
  stream_ok cmp l' → @enumerates _ (read_iter r cif io (read_arg conf q b) n) (rd, i) l' → (length l' < fuel)%nat → plain l' → (∀ a, a ∈ l' → a ∈ concat vss) → 
  let RI := read_iter r cif io (read_arg conf q b) n in let MI := svmergeiter_merge (I := rdst * siread) cmp in
  ∃ m im src gs, sv_mergeiter_open cmp (sv_mergeadd [] (rd, i)) SS_GTE = Some m ∧ sv_readiter_open upd fuel m u (q_vlsn q) true = Some im ∧ mi_src (ri_merge im) !! 0%nat = Some src ∧
    rok (read_arg conf q b) T file A (src_i src).1 ∧ keyed cmp l' gs ∧ sv_readiter_of im = head (omap (read_key upd (q_vlsn q) true) gs) ∧ ∀ a, sv_readiter_of im = Some a → a ∈ concat vss.
Proof.
  intros Hr Hnext Hst He Hl Hp Hin RI MI. destruct (readiter_opens (I := rdst * siread) cmp upd SS_GTE (sv_mergeadd [] (rd, i)) [l'] u (q_vlsn q) true fuel Hupd eq_refl) as (m & im & gs & Em & Eim & Hk & _ & Hat).
  { constructor; [by split|constructor]. } { by constructor; [|constructor]. } { cbn [concat]. by rewrite app_nil_r. }
  assert (sources_ok (reading r (read_arg conf q b) T file A vsss) (ri_merge im)) as [Hsrc Hne].
  { eapply (readiter_open_kept (M := svmergeiter (rdst * siread)) upd (sources_ok _)); [|exact Eim|].
    - intros i1 i2 H1 E. exact (next_sources cmp _ Hnext _ _ E H1).
    - eapply (next_sources cmp (reading r (read_arg conf q b) T file A vsss) Hnext); [exact Em|]. split; [|done]. by constructor; [|constructor]. }
  destruct (mi_src (ri_merge im)) as [|src rest] eqn:Es; [done|]. apply Forall_cons in Hsrc as [[Hrok _] _].
  assert (sv_readiter_of im = head (omap (read_key upd (q_vlsn q) true) gs)) as Eof.
  { pose proof (ra_out _ _ _ _ _ _ Hat) as Ho. unfold sv_readiter_of. destruct (omap _ gs); [done|by destruct Ho]. }
  exists m, im, src, gs. assert (kmerge (sle (order_cmp SS_GTE cmp)) [l'] = l') as Ekm by (cbn [kmerge foldr]; apply merge2_nil_r). rewrite Ekm in Hk. split_and!; try done; [by rewrite Es|].
  intros a Ha. rewrite Eof in Ha. apply head_Some_elem_of in Ha. apply list_elem_of_omap in Ha as (g & Hg & Er). assert (∀ y, y ∈ g → y ∈ l') as Hsub.
  { intros y Hy. rewrite <- (ky_concat _ _ _ Hk). apply list_elem_of_lookup in Hg as [jj Hj]. apply elem_of_concat. by exists jj, g. }
  rewrite read_key_plain in Er; [|apply Forall_forall; intros y Hy; unfold plain in Hp; rewrite Forall_forall in Hp; by apply Hp, Hsub]. apply Hin, Hsub. by apply (visible_in _ _ _ Er).
Qed.
Lemma seek_length o key vss : (length (concat (seek cmp o key vss)) <= length (concat vss))%nat.
Proof.
  assert (∀ l l' : list (list sv), l `sublist_of` l' → length (concat l) <= length (concat l'))%nat as Hsub.
  { induction 1 as [|x l l' Hl IH|x l l' Hl IH]; cbn [concat]; rewrite ?length_app; lia. }
  assert (length (concat (side cmp o key vss)) <= length (concat vss))%nat as Hs by (apply Hsub; destruct key; [apply filter_sub|done]).
  rewrite seek_side. destruct (downward o); [|done]. assert (∀ l : list (list sv), length (concat (reverse l)) = length (concat l)) as ->; [|done].
  induction l as [|x l IH]; [done|]. rewrite reverse_cons, concat_app, length_app, IH. cbn [concat]. rewrite app_nil_r, length_app. lia.
Qed.
Lemma getbranch_ok b vss j s cb : qok s → branch_holds b.2 vss → ca_branch (q_cache s) = Some j → ca_path (q_cache s) !! j = Some cb → cb_branch cb = Some b.1 →
  wp (si_qgetbranch r upd cif conf q io n fuel u b) s (λ rc s', after_branch j s s' ∧ get_post (visible (q_vlsn q) (key_versions cmp k vss)) rc s').
Proof.
  intros Hs (h & vsss & -> & Hb & Hplain & Hfuel) Hj Hcb Eb. destruct (follow_ok s j Hj) as (c & Ef & Ep & Ebr). unfold si_qgetbranch. apply wp_bind. unfold wp at 1, cget at 1. apply wp_bind. unfold wp at 1, cread at 1. rewrite Ef.
  apply wp_bind. unfold wp at 1, cput at 1. apply wp_bind. unfold wp at 1, cread at 1. rewrite Ep, Hcb. apply wp_bind, wp_assert; [by apply bool_decide_eq_true_2|]. apply wp_bind. unfold wp at 1, cget at 1. set (s1 := with_cache c s).
  assert (qok s1) as Hs1 by (destruct Hs; split; try done; unfold s1; cbn [with_cache q_cache]; by rewrite Ep). assert (ca_path (q_cache s1) !! j = Some cb) as Hcb1 by (unfold s1; cbn [with_cache q_cache]; by rewrite Ep).
  assert (branches_of s1 = branches_of s) as Ebs by (unfold s1; cbn [with_cache q_cache]; by rewrite Ep).
  destruct (si_read_ok r cif io (read_arg conf q b.2) T file A n h vsss (Some k) (entry_mem cb s1) Hb) as (Hnext & rc & i & rd & Eo & Hrd & HE); try done.
  { apply entry_rok; [done|by eapply list_elem_of_lookup_2]. } { by intros ? [= <-]. }
  apply wp_bind. unfold wp at 1, cread at 1. rewrite Eo. apply wp_bind. unfold wp at 1, cput at 1. destruct (set_entry_ok b.2 j cb cb rd i s1 Hs1 Hcb1 eq_refl (proj1 Hrd)) as (Hq2 & Eb2 & Ebr2). set (s2 := set_entry j cb rd i s1) in *.
  assert (after_branch j s s2) as Haft by (split_and!; [done|by rewrite Eb2|rewrite Ebr2; exact Ebr]).
  destruct HE as [(-> & _ & Hf)|[Hg Hrc]]; [apply wp_ret; split; [done|by right]|]. specialize (Hrc k eq_refl eq_refl). rewrite (found_versions cmp k (concat vsss)) in Hrc by apply Hb. cbn [read_arg ra_o] in *.
  case_bool_decide as Ev; subst rc; cbn [Z.leb Z.compare]; [|apply wp_ret; split; [done|]; left; by rewrite Ev].
  destruct (gives_prefix r cif io _ A n _ _ _ Hg) as (l' & Hpre' & He & Hl'). assert (stream_ok cmp l') as Hst.
  { eapply stream_prefix; [|exact Hpre']. apply (run_stream cmp SS_GTE). apply seek_run; [apply _|apply Hb]. }
  assert (∀ a, a ∈ l' → a ∈ concat (concat vsss)) as Hin.
  { intros a Ha. destruct Hpre' as [x Ex]. assert (a ∈ concat (seek cmp SS_GTE (Some k) (concat vsss))) as (jj & c' & Hc' & Hac)%elem_of_concat by (rewrite Ex; set_solver). apply list_elem_of_lookup_2 in Hc'. unfold seek in Hc'. cbn [downward] in Hc'.
    apply list_elem_of_filter in Hc' as [_ Hc']. apply list_elem_of_lookup in Hc' as [jj' Hc']. apply elem_of_concat. by exists jj', c'. }
  rewrite Hhas. assert (length l' < fuel)%nat as Hlen by (apply prefix_length in Hpre'; pose proof (seek_length SS_GTE (Some k) (concat vsss)); lia).
  assert (plain l') as Hpl by (apply Forall_forall; intros a Ha; unfold plain in Hplain; rewrite Forall_forall in Hplain; by apply Hplain, Hin).
  destruct (branch_reader b.2 vsss rd i l' (concat vsss) Hrd Hnext Hst He Hlen Hpl Hin) as (m & im & src & gs & Em & Eim & Es & Hrk & Hk & Eof & Hof). cbv zeta in Em, Eim, Es.
  apply wp_bind. unfold wp at 1, cread at 1. rewrite Em. apply wp_bind. unfold wp at 1, cread at 1. rewrite Eim. apply wp_bind. unfold wp at 1, cread at 1. rewrite Es. apply wp_bind. unfold wp at 1, cget at 1. apply wp_bind. unfold wp at 1, cput at 1.
  assert (ca_path (q_cache s2) !! j = Some (mk_cb (cb_branch cb) i (rd_buf rd) (rd_xf rd) (cb_open cb))) as Hcb2 by (unfold s2; cbn [set_entry q_cache ca_path]; apply list_lookup_insert_eq; by eapply lookup_lt_Some).
  destruct (set_entry_ok b.2 j cb _ (src_i src).1 (src_i src).2 s2 Hq2 Hcb2 eq_refl Hrk) as (Hq3 & Eb3 & Ebr3). set (s3 := set_entry j cb (src_i src).1 (src_i src).2 s2) in *.
  assert (after_branch j s s3) as Haft3 by (destruct Haft as (_ & Hb1 & Hb2); split_and!; [done|by rewrite Eb3|by rewrite Ebr3]).
  assert (read_fails A ∨ match visible (q_vlsn q) (key_versions cmp k (concat vsss)) with Some v => sv_readiter_of im = Some v | None => ∀ a, sv_readiter_of im = Some a → cmp (sv_pointer a) k = 1 end) as Hread.
  { destruct Hl' as [->|Hf]; [right|by left]. pose proof (reader_first cmp k upd (q_vlsn q) (concat vsss) gs (bp_content _ _ _ _ _ _ Hb) Hplain Ev Hk) as Hfirst. rewrite <- Eof in Hfirst. destruct (visible _ _); [done|]. intros a Ha. by destruct (Hfirst a Ha). }
  assert (∀ w, visible (q_vlsn q) (key_versions cmp k (concat vsss)) = Some w → cmp (sv_pointer w) k = 0) as Hvis.
  { intros w Hw. apply visible_in in Hw as [Hw _]. unfold key_versions in Hw. by apply list_elem_of_filter in Hw as [Hw _]. }
  destruct (sv_readiter_of im) as [v|] eqn:Erv.
  - eapply wp_mono; [apply (getresult_ok v true s3 Hq3)|].
    + intros _. destruct (proj2 (bp_vmax _ _ _ _ _ _ Hb) (replicate (Z.to_nat (x_sizevmax h)) 0)) as (_ & Hrows & _); [unfold blen; rewrite length_replicate; lia|]. rewrite Forall_forall in Hrows. by apply Hrows, Hof.
    + intros rc s' (Hq' & Ec' & Hpost). split; [destruct Haft3 as (_ & Hb1 & Hb2); split_and!; [done|by rewrite Ec'|by rewrite Ec']|]. destruct Hread as [Hf|Hread]; [by right|]. destruct (visible _ _) as [w|] eqn:Ew.
      * injection Hread as ->. by rewrite (Hvis w eq_refl) in Hpost.
      * by rewrite (Hread v eq_refl) in Hpost.
  - apply wp_ret. split; [done|]. destruct Hread as [Hf|Hread]; [by right|left]. by destruct (visible _ _).
Qed.

(** ** In all branches *)
Lemma post_zero w s : get_post w 0 s → w = None ∨ read_fails A.
Proof. intros [Ha|Hf]; [|by right]. left. destruct w as [v|]; [|done]. cbn in Ha. destruct (sv_is v SVDELETE); [done|by destruct Ha]. Qed.
Lemma post_more w rc s l : get_post w rc s → rc ≠ 0 → get_post (match w with Some v => Some v | None => l end) rc s.
Proof. intros [Ha|Hf] Hrc; [|by right]. destruct w as [v|]; [by left|]. by cbn in Ha. Qed.
Lemma post_rest w rc s l : get_post l rc s → w = None ∨ read_fails A → get_post (match w with Some v => Some v | None => l end) rc s.
Proof. intros Hp [->|Hf]; [done|by right]. Qed.
Lemma getbranches_ok bs bvs : Forall2 (λ b vss, branch_holds b.2 vss) bs bvs → ∀ j s, qok s → (bs ≠ [] → ca_branch (q_cache s) = Some j) → (∀ m b, bs !! m = Some b → branches_of s !! (j + m)%nat = Some (Some b.1)) →
  wp (qget_branches r upd cif conf q io n fuel u bs) s (λ rc s', qok s' ∧ get_post (visible (q_vlsn q) (concat (key_versions cmp k <$> bvs))) rc s').
Proof.
  induction 1 as [|b vss bs bvs Hb _ IH]; intros j s Hs Hj Hm; cbn [qget_branches]; [apply wp_ret; split; [done|by left]|]. cbn [fmap list_fmap concat]. rewrite visible_app. apply wp_bind.
  pose proof (Hm 0%nat b eq_refl) as H0. rewrite Nat.add_0_r, list_lookup_fmap in H0. destruct (ca_path (q_cache s) !! j) as [cb|] eqn:Ecb; [|done]. injection H0 as H0.
  eapply wp_mono; [apply (getbranch_ok b vss j s cb Hs Hb); [by apply Hj|done|done]|]. intros rc s1 ((Hq1 & Eb1 & Ebr1) & Hp1). destruct (Z.eqb_spec rc 0) as [->|Hne]; [|apply wp_ret; split; [done|by apply post_more]].
  eapply wp_mono; [apply (IH (S j) s1 Hq1)|intros rc s2 [Hq2 Hp2]; split; [done|apply post_rest; [done|by eapply post_zero]]].
  - intros Hbs. rewrite Ebr1. destruct bs as [|b' bs]; [done|]. pose proof (Hm 1%nat b' eq_refl) as H1. apply lookup_lt_Some in H1. rewrite length_fmap in H1. destruct (Nat.ltb_spec (S j) (length (ca_path (q_cache s)))); [done|lia].
  - intros m b' Hb'. rewrite Eb1. replace (S j + m)%nat with (j + S m)%nat by lia. by apply Hm.
Qed.
(** ** The node *)
Lemma validate_bufs m id bs count c rc c' : si_cachevalidate m id bs count c = Some (rc, c') → Forall bufs_ok (ca_path c) → 0 <= T →
  Forall bufs_ok (ca_path c').
Proof.
  intros E Hc HT0. assert (buf_cap T ss_bufinit) as Hinit by (split; [by split|unfold ss_bufsize; cbn; lia]).
  assert (∀ b nb, si_cacheadd b = Some nb → bufs_ok nb) as Hadd by (intros b nb; unfold si_cacheadd; destruct (ss_malloc _); intros [= <-]; done).
  assert (∀ bs path, Forall bufs_ok path → Forall bufs_ok (cache_renew path bs).1) as Hrenew.
  { clear -Hadd. induction bs as [|b bs IH]; intros path Hp; cbn [cache_renew]; [done|]. destruct path as [|cb path].
    - destruct (si_cacheadd b) as [nb|] eqn:Ea; [|constructor]. specialize (IH [] Hp). destruct (cache_renew [] bs). constructor; [by eapply Hadd|done].
    - apply Forall_cons in Hp as [[H1 H2] Hp]. specialize (IH path Hp). destruct (cache_renew path bs). constructor; [|done]. exact (conj (proj1 (cleared_cap T _ H1)) (proj1 (cleared_cap T _ H2))). }
  assert (∀ bs path new, Forall bufs_ok path → Forall bufs_ok new → ∀ l, cache_prepend path bs new = Some (Some l) → Forall bufs_ok l) as Hprep.
  { clear -Hadd. induction bs as [|b bs IH]; intros path new Hp Hn' l El; cbn [cache_prepend] in El; [by simplify_eq|]. destruct path as [|cb path]; [done|]. case_bool_decide.
    - destruct new; simplify_eq. by apply Forall_app.
    - destruct (si_cacheadd b) as [nb|] eqn:Ea; [|done]. apply (IH (cb :: path) (new ++ [nb])); [done| |done]. apply Forall_app. split; [done|]. constructor; [by eapply Hadd|constructor]. }
  unfold si_cachevalidate in E. destruct (bool_decide _ && _).
  - destruct (Z.eqb _ _); [by simplify_eq|]. destruct (negb _); [done|]. destruct (cache_prepend _ _ _) as [[l|]|] eqn:El; cbn [mbind option_bind] in E; simplify_eq; [|done]. by eapply (Hprep bs (ca_path c) []).
  - pose proof (Hrenew bs (ca_path c) Hc) as Hr. destruct (cache_renew _ _) as [l []]; by simplify_eq.
Qed.
Section node.
Context {St : Type} `{!TreeOps St, !TreeLaws St}.
Record node_ok (x : loc) (node : sinode St) (vss0 vss1 : list (list sv)) (bvs : list (list (list sv))) (s : qst) : Prop := {
  no_i0 : index_holds (n_i0 node) vss0;
  no_i1 : index_holds (n_i1 node) vss1;
  no_branches : Forall2 (λ b vss, branch_holds b.2 vss) (n_branch node) bvs;
  no_pointers : NoDup (fst <$> n_branch node) ∧ n_branch node ≠ [] ∧ n_branch_count node = Z.of_nat (length (n_branch node));
  no_cache : cache_ok x (id_id (br_id (n_self node))) (fst <$> n_branch node) (q_cache s)
}.
Lemma qget_ok x (node : sinode St) vss0 vss1 bvs s : 0 <= T → qok s → node_ok x node vss0 vss1 bvs s →
  ∃ rc s', qget_node r upd cif conf q io n fuel u x node s = Some (rc, s') ∧ qok s' ∧
    get_post (visible (q_vlsn q) (memory_versions vss0 vss1 (n_has node SI_ROTATE) ++ concat (key_versions cmp k <$> bvs))) rc s'.
Proof.
  intros HT0 Hs [H0 H1 Hbs (Hnd & Hne & Hcount) Hc]. apply wp_run. unfold qget_node. apply wp_bind. eapply wp_mono; [by apply getindex_ok|]. intros rc s1 (Hs1 & Ec & Hp). rewrite visible_app. destruct (Z.eqb_spec rc 0) as [->|Hrc]; cbn [negb].
  2: { apply wp_ret. split; [done|by apply post_more]. }
  apply wp_bind. unfold wp at 1, cget at 1. rewrite <- Ec in Hc. assert (fst <$> n_branch node ≠ []) as Hne' by (by intros ?%fmap_nil_inv). destruct (cachevalidate_ok _ _ _ _ Hnd Hne' Hc) as (rc & c' & Ev & HE). rewrite length_fmap, <- Hcount in Ev.
  apply wp_bind. unfold wp at 1, cread at 1. rewrite Ev. cbn [fst snd]. apply wp_bind. unfold wp at 1, cput at 1. assert (qok (with_cache c' s1)) as Hs2 by (destruct Hs1 as [Q1 Q2 Q3 Q4]; split; try done; cbn [with_cache q_cache]; by eapply validate_bufs).
  destruct HE as [[-> Hno]|(-> & Hca & Hbr & _)]; cbn [Z.eqb Pos.eqb]; [apply wp_ret; split; [done|right; by left]|].
  eapply wp_mono; [apply (getbranches_ok (n_branch node) bvs Hbs 0); [done|done|]|intros rc s3 [Hq3 Hp3]; split; [done|apply post_rest; [done|by eapply post_zero]]].
  intros m b Hb. destruct (caches_lookup _ _ m b.1 Hca) as (cb & Hcb & Eb); [by rewrite list_lookup_fmap, Hb|]. cbn [with_cache q_cache Nat.add]. by rewrite list_lookup_fmap, Hcb, <- Eb.
Qed.
End node.
End get.

(** * What a lookup answers *)

(** The newest version that is not newer than [vlsn]. *)
Definition newest (vlsn : Z) (l : list sv) (w : option sv) : Prop :=
  match w with
  | None => ∀ x, x ∈ l → vlsn < sv_lsn x
  | Some v => v ∈ l ∧ sv_lsn v <= vlsn ∧ ∀ x, x ∈ l → sv_lsn x <= vlsn → sv_lsn x <= sv_lsn v
  end.
Abbreviation descending := (StronglySorted (λ a b : sv, sv_lsn b <= sv_lsn a)).
Lemma visible_newest vlsn l : descending l → newest vlsn l (visible vlsn l).
Proof.
  unfold visible. induction 1 as [|v l _ IH Hv]; [by intros x ?%not_elem_of_nil|]. cbn [drop_newer]. destruct (Z.gtb_spec (sv_lsn v) vlsn) as [Hlt|Hle].
  - destruct (head _) as [w|]; cbn [newest] in *; [destruct IH as (Hw & Hl & Hm); split_and!; [by right|done|]|]; intros x [->|Hx]%elem_of_cons; [lia|by apply Hm|done|by apply IH].
  - cbn [head newest]. split_and!; [left|lia|]. rewrite Forall_forall in Hv. intros x [->|Hx]%elem_of_cons _; [lia|by apply Hv].
Qed.

(** What a lookup with [SS_EQ] needs of its setting. *)
Record get_setting (r : sr) (upd : sfupdatef) (conf : qconf) (q : siquery) (io n : nat) (T : Z) (A : list answer) : Prop := {
  gs_room : 0 <= T ∧ 4 * T <= INT_MAX;
  gs_calls : (length A < io)%nat ∧ (2 <= n)%nat;
  gs_update : ∀ fa a fb b, is_Some (upd fa a fb b);
  gs_plain : qc_compression conf = false;
  gs_get : q_has q = false ∧ q_prefix q = None;
  gs_scheme : own_scheme (r_scheme r);
  gs_key : row_ready (r_scheme r) (q_key q)
}.
Section answers.
Context `{Alloc} (r : sr) (upd : sfupdatef) {F : Type} (cif : ssfilterif F) (conf : qconf) (q : siquery) (io n fuel : nat) (u : svupdate) (T : Z) (file : bytes) (A : list answer).
Context {St : Type} `{!TreeOps St, !TreeLaws St}.
Abbreviation cmp := (scheme_cmp (r_scheme r)).
Abbreviation k := (q_key q).
Abbreviation versions := (key_versions cmp k).
(** All versions of the key in the node, in the order they are written: the second index
    in memory while the first is branched, the first, and the branches. *)
Definition node_versions (node : sinode St) (vss0 vss1 : list (list sv)) (bvs : list (list (list sv))) : list sv :=
  (if n_has node SI_ROTATE then versions vss1 else []) ++ versions vss0 ++ concat (versions <$> bvs).
(** The second index has the key, but too new, and the first has it as it is asked for. *)
Definition rotation_hides (node : sinode St) (vss0 vss1 : list (list sv)) : Prop :=
  n_has node SI_ROTATE = true ∧ versions vss1 ≠ [] ∧ visible (q_vlsn q) (versions vss1) = None ∧ is_Some (visible (q_vlsn q) (versions vss0)).
Lemma memory_seen node vss0 vss1 bvs : ¬ rotation_hides node vss0 vss1 →
  visible (q_vlsn q) (memory_versions r q vss0 vss1 (n_has node SI_ROTATE) ++ concat (versions <$> bvs)) = visible (q_vlsn q) (node_versions node vss0 vss1 bvs).
Proof.
  unfold rotation_hides, node_versions, memory_versions. intros Hh. rewrite !visible_app. destruct (n_has node SI_ROTATE); [|done]. destruct (versions vss1) as [|v l] eqn:E; [done|].
  destruct (visible (q_vlsn q) (v :: l)) eqn:Ev; [done|]. destruct (visible (q_vlsn q) (versions vss0)); [|done]. by destruct Hh.
Qed.
Lemma memory_hidden node vss0 vss1 bvs : rotation_hides node vss0 vss1 →
  visible (q_vlsn q) (memory_versions r q vss0 vss1 (n_has node SI_ROTATE) ++ concat (versions <$> bvs)) = visible (q_vlsn q) (concat (versions <$> bvs)) ∧
  ∃ v, visible (q_vlsn q) (node_versions node vss0 vss1 bvs) = Some v ∧ v ∈ versions vss0.
Proof.
  unfold node_versions, memory_versions. intros (-> & H1 & Hv & v & H0). rewrite !visible_app, Hv, H0. destruct (versions vss1); [done|]. rewrite Hv. split; [done|]. exists v. split; [done|]. by apply visible_in in H0 as [].
Qed.


(** C34: while a branch of the node is written, a lookup can miss the version it is asked for: if
    the second index has only versions of the key that are too new, the first index is not
    looked at; the answer is what the branches have, although the first index has the newest
    version the reader may see. *)
Theorem si_qget_misses_rotated x node vss0 vss1 bvs s : get_setting r upd conf q io n T A → qok conf T file A s → node_ok r fuel T file x node vss0 vss1 bvs s →
  descending (node_versions node vss0 vss1 bvs) → rotation_hides node vss0 vss1 →
  ∃ v rc s', newest (q_vlsn q) (node_versions node vss0 vss1 bvs) (Some v) ∧ v ∈ versions vss0 ∧
    qget_node r upd cif conf q io n fuel u x node s = Some (rc, s') ∧ (answered (visible (q_vlsn q) (concat (versions <$> bvs))) rc s' ∨ read_fails A).
Proof.
  intros [[HT0 HT] [Hio Hn] Hupd Hcomp [Hhas Hpre] Hown Hkey] Hs Hnode Hd Hh.
  destruct (qget_ok r upd cif conf q io n fuel u T file A HT Hio Hn Hupd Hcomp Hhas Hpre Hown Hkey x node vss0 vss1 bvs s HT0 Hs Hnode) as (rc & s' & E & Hs' & Hp).
  destruct (memory_hidden node vss0 vss1 bvs Hh) as [Eb (v & Ev & Hv)]. rewrite Eb in Hp. exists v, rc, s'. split_and!; [|done|done|exact Hp]. rewrite <- Ev. by apply visible_newest.
Qed.
End answers.

(** ** Witnesses: a node with one branch, and an index in memory with one version of key 5 *)
Definition demo_qkey : bytes := row [le_enc 4 5] [].
Definition demo_qindex (lsn val : Z) : svindex ssrb :=
  mk_svindex (mk_rb (Some 1%positive) {[1%positive := mk_rbnode None None None 0]}) 1 1 lsn {[1%positive := mk_svv lsn (blen (row [le_enc 4 5] [val])) 0 None (row [le_enc 4 5] [val])]}.
Definition demo_qbranch : sibranch := mk_branch (sd_idinit 1 0 0) demo_rindex.
Definition demo_qnode (flags lsn0 lsn1 : Z) : sinode ssrb := mk_node flags 0 0 0 demo_qbranch [(7%nat, demo_qbranch)] 1 (demo_qindex lsn0 52) (demo_qindex lsn1 53) (mk_file (blen demo_rfile) (mk_os demo_rfile 0 demo_ranswers)) (mk_mmap None 0) false.
Definition demo_qst : qst := mk_qst si_cacheinit (mk_file (blen demo_rfile) (mk_os demo_rfile 0 demo_ranswers)) (mk_mmap None 0) ss_bufinit 0 None.
Lemma demo_qindex_holds lsn val : index_holds demo_pagesr 9 (demo_qindex lsn val) [[demo_pagev lsn 0 5 val]].
Proof.
  exists [[1%positive]]. split; [|split; [done|cbn; lia]]. split.
  - exists (SsRbProofs.T SsRbProofs.Black SsRbProofs.E 1%positive SsRbProofs.E), 1%nat. split_and!; [|repeat econstructor|done].
    split; [done|done|done| |done]. intros x. simpl. unfold SsRbProofs.one. repeat case_decide; subst; (lia || done).
  - repeat constructor. eexists. by split.
  - apply NoDup_singleton.
  - split; [constructor; [by apply (chain_ok_single (scheme_cmp (r_scheme demo_pagesr)))|constructor]|repeat constructor].
Qed.
Lemma demo_qbranch_holds : branch_holds demo_pagesr 9 1000 demo_rfile demo_qbranch demo_pagevs.
Proof.
  exists demo_rheader, [demo_pagevs]. split_and!; [done|exact demo_branch_pages| |cbn; lia]. repeat constructor.
Qed.
Lemma demo_qnode_ok flags lsn0 lsn1 : node_ok demo_pagesr 9 1000 demo_rfile 1%positive (demo_qnode flags lsn0 lsn1) [[demo_pagev lsn0 0 5 52]] [[demo_pagev lsn1 0 5 53]] [demo_pagevs] demo_qst.
Proof.
  split; [apply demo_qindex_holds|apply demo_qindex_holds|constructor; [exact demo_qbranch_holds|constructor]|split; [apply NoDup_singleton|by split]|by intros ?].
Qed.
Lemma demo_qsetting vlsn : get_setting demo_pagesr demo_upd (mk_qconf false false) (mk_query demo_qkey None vlsn false) 5 2 1000 demo_ranswers.
Proof.
  split; [done|split; cbn; lia|by intros; eexists|done|done|done|]. repeat constructor. eexists _, _. split; [reflexivity|]. split; [reflexivity|]. split; [vm_compute; reflexivity|cbn; lia].
Qed.
Lemma demo_qok : qok (mk_qconf false false) 1000 demo_rfile demo_ranswers demo_qst.
Proof. split; [done|done|done|constructor]. Qed.
Definition demo_qversions : list sv := [demo_pagev 20 0 5 53; demo_pagev 12 0 5 52; demo_pagev 9 0 5 50; demo_pagev 3 4 5 51].
Lemma demo_node_versions vlsn : node_versions demo_pagesr (mk_query demo_qkey None vlsn false) (demo_qnode SI_ROTATE 12 20) [[demo_pagev 12 0 5 52]] [[demo_pagev 20 0 5 53]] [demo_pagevs] = demo_qversions.
Proof. vm_compute. reflexivity. Qed.
Lemma demo_descending : descending demo_qversions.
Proof. repeat constructor; done. Qed.
Lemma demo_newest w : newest 5 demo_qversions w → w = Some (demo_pagev 3 4 5 51).
Proof.
  assert (demo_pagev 3 4 5 51 ∈ demo_qversions) as H3 by (unfold demo_qversions; set_solver). destruct w as [v|]; cbn [newest].
  - intros (Hv & Hle & Hm). specialize (Hm _ H3). unfold demo_qversions in Hv. rewrite !elem_of_cons in Hv. destruct Hv as [->|[->|[->|[->|Hv]]]]; cbn in *; try lia; [done|by apply not_elem_of_nil in Hv].
  - intros Hm. specialize (Hm _ H3). cbn in Hm. lia.
Qed.
(** A reader at 15 is answered the version of 9 in the branch, not that of 12 in memory. *)
Lemma si_qget_misses_rotated_witness : ∃ s', qget_node (H0 := demo_alloc) demo_pagesr demo_upd ss_nonefilter (mk_qconf false false) (mk_query demo_qkey None 15 false) 5 2 9 sv_updateinit 1%positive (demo_qnode SI_ROTATE 12 20) demo_qst = Some (1, s') ∧
  q_result s' = Some (demo_pagev 9 0 5 50).
Proof.
  destruct (si_qget_misses_rotated (H := demo_alloc) demo_pagesr demo_upd ss_nonefilter (mk_qconf false false) (mk_query demo_qkey None 15 false) 5 2 9 sv_updateinit 1000 demo_rfile demo_ranswers 1%positive
    (demo_qnode SI_ROTATE 12 20) [[demo_pagev 12 0 5 52]] [[demo_pagev 20 0 5 53]] [demo_pagevs] demo_qst) as (v & rc & s' & _ & _ & E & HE).
  - apply demo_qsetting.
  - exact demo_qok.
  - apply demo_qnode_ok.
  - rewrite demo_node_versions. exact demo_descending.
  - split; [reflexivity|]. split; [vm_compute; discriminate|]. split; [vm_compute; reflexivity|]. vm_compute. eexists. reflexivity.
  - destruct HE as [Ha|Hf]; [|by destruct demo_reads_well]. exists s'. destruct Ha as [-> Ha]. by split.
Defined.
