(* ===== verification/SiStore.v ===== *)
(** An index as a store: writes put versions into it and lookups answer from all that was
    written, whichever node and layer has it. *)
From stdpp Require Import base list sorting sets gmap.
From S2P Require Import Prelude SsOrder SsList SsRq SsRb SsRbInsert SsRbSpec Sv SvLog SsBytes SsBuf SsFilter Sf Sr SrScheme SvMerge SvMergeProofs SvUpdate SvRead SvIndex SvIndexProofs SvIndexIter SdPage SdPageIter SdPageRep SdPageKv SdPageSpec SdBuild SdBuildProofs SdIndex SdIndexIter SdMergeProofs SsFile SdIter SiBranch SdRecover SiSeek SiRead SiReadProofs SiNode SiCache SiIndex SiPlanner SiWrite SiQuery SiQueryProofs.
Local Open Scope Z_scope.
Local Open Scope c_scope.

(** * The abstract store: the versions that were written *)

Record entry := mk_entry { e_lsn : Z; e_deleted : bool; e_row : bytes }.
Definition entry_of (v : sv) : entry := mk_entry (sv_lsn v) (sv_is v SVDELETE) (sv_pointer v).

Section spec.
Context (cmp : bytes → bytes → Z).
(** The newest version of [key] that a reader at [vlsn] may see. *)
Definition current (V : list entry) (key : bytes) (vlsn : Z) (w : option entry) : Prop :=
  match w with
  | None => ∀ e, e ∈ V → cmp (e_row e) key = 0 → vlsn < e_lsn e
  | Some v => v ∈ V ∧ cmp (e_row v) key = 0 ∧ e_lsn v <= vlsn ∧ ∀ e, e ∈ V → cmp (e_row e) key = 0 → e_lsn e <= vlsn → e_lsn e <= e_lsn v
  end.
(** The answer of a lookup: 0 for no version, 2 for a deletion, 1 with the version. *)
Definition replies (V : list entry) (key : bytes) (vlsn : Z) (rc : Z) (result : option sv) : Prop :=
  ∃ w, current V key vlsn w ∧ match w with None => rc = 0 | Some e => if e_deleted e then rc = 2 else rc = 1 ∧ ∃ v, result = Some v ∧ entry_of v = e end.
(** A version of the next transaction is newer than all of its key. *)
Definition newer (V : list entry) (v : sv) : Prop := ∀ e, e ∈ V → cmp (e_row e) (sv_pointer v) = 0 → e_lsn e < sv_lsn v.
End spec.

(** * What an insertion adds *)

Lemma sorted_weaken {A} (R R' : A → A → Prop) l : (∀ a b, R a b → R' a b) → StronglySorted R l → StronglySorted R' l.
Proof. intros HR. induction 1 as [|a l _ IH Ha]; constructor; [done|]. eapply Forall_impl; [exact Ha|]. apply HR. Qed.
(** The elements that are kept may be known to be related among themselves. *)
Lemma sorted_filter {A} (P : A → Prop) `{∀ x, Decision (P x)} (R R' : A → A → Prop) l : (∀ a b, P a → P b → R a b → R' a b) → StronglySorted R l → StronglySorted R' (filter P l).
Proof.
  intros HR. induction 1 as [|a l _ IH Ha]; [constructor|]. rewrite filter_cons. destruct (decide (P a)) as [HP|]; [|done]. constructor; [done|].
  rewrite Forall_forall in *. intros b [Hb Hin]%list_elem_of_filter. by apply HR, Ha.
Qed.

Section insert.
Context (cmp : bytes → bytes → Z).
Lemma entry_with_dup v : entry_of (with_dup v) = entry_of v.
Proof.
  unfold entry_of, with_dup, sv_is. cbn [sv_lsn sv_flags sv_pointer]. f_equal. rewrite Z.land_lor_distr_l. change (Z.land SVDUP SVDELETE) with 0. by rewrite Z.lor_0_r.
Qed.
Lemma insert_older_entries v vs : entry_of <$> insert_older v vs ≡ₚ entry_of v :: (entry_of <$> vs).
Proof.
  induction vs as [|w vs IH]; cbn [insert_older]; [by rewrite fmap_cons, entry_with_dup|]. destruct (Z.ltb _ _); rewrite !fmap_cons; [by rewrite entry_with_dup|].
  rewrite IH. apply Permutation_swap.
Qed.
Lemma insert_version_entries v vs : entry_of <$> insert_version v vs ≡ₚ entry_of v :: (entry_of <$> vs).
Proof.
  destruct vs as [|h t]; [done|]. cbn [insert_version]. destruct (Z.ltb _ _); rewrite !fmap_cons; [by rewrite entry_with_dup|]. rewrite insert_older_entries. apply Permutation_swap.
Qed.
Lemma insert_key_entries v vss : entry_of <$> concat (insert_key cmp v vss) ≡ₚ entry_of v :: (entry_of <$> concat vss).
Proof.
  induction vss as [|c vss IH]; [done|]. assert (∀ c' : list sv, entry_of <$> concat (c' :: insert_key cmp v vss) ≡ₚ entry_of v :: (entry_of <$> concat (c' :: vss))) as Hpass.
  { intros c'. cbn [concat]. rewrite !fmap_app, IH. by rewrite <- Permutation_middle. }
  cbn [insert_key]. destruct c as [|a c]; [apply Hpass|]. destruct (Z.eqb _ 0).
  - cbn [concat]. rewrite !fmap_app, insert_version_entries. done.
  - destruct (Z.eqb _ _); [apply Hpass|done].
Qed.
(** A version after an insertion is the new one or an old one, but for [SVDUP]. *)
Lemma insert_key_from v vss a : a ∈ concat (insert_key cmp v vss) → ∃ b, (b = v ∨ b ∈ concat vss) ∧ sv_pointer a = sv_pointer b ∧ sv_lsn a = sv_lsn b.
Proof.
  intros Ha. assert (entry_of a ∈ entry_of v :: (entry_of <$> concat vss)) as Hin by (rewrite <- insert_key_entries; by apply list_elem_of_fmap_2).
  apply elem_of_cons in Hin as [E|(b & E & Hb)%list_elem_of_fmap]; injection E as E1 _ E2; eexists; (split; [|by split]); [by left|by right].
Qed.
Lemma insert_key_length v vss : length (concat (insert_key cmp v vss)) = S (length (concat vss)).
Proof. pose proof (Permutation_length (insert_key_entries v vss)) as E. cbn [length] in E. by rewrite !length_fmap in E. Qed.

(** Within a key, newest first. *)
Abbreviation scmp := (sv_compare cmp).
Definition ordered (l : list sv) : Prop := StronglySorted (λ a b, scmp a b = 0 → sv_lsn b <= sv_lsn a) l.
Lemma content_ordered vss : content_ok cmp vss → ordered (concat vss).
Proof.
  intros [Hc Hs]. revert Hs. induction Hc as [|c vss Hco _ IH]; intros Hs; [constructor|]. apply StronglySorted_inv in Hs as [Hs Hlt]. cbn [concat]. apply StronglySorted_app. split_and!.
  - intros a b Ha (i & d & Hd%list_elem_of_lookup_2 & Hb)%elem_of_concat E. rewrite Forall_forall in Hlt. pose proof (Hlt d Hd a b Ha Hb). lia.
  - apply (sorted_weaken (λ a b, sv_lsn b < sv_lsn a)); [intros; lia|apply Hco].
  - by apply IH.
Qed.
Lemma ordered_key `{!KeyOrder cmp} l k : ordered l → StronglySorted (λ a b, sv_lsn b <= sv_lsn a) (filter (λ a, scmp a (mk_sv 0 0 k) = 0) l).
Proof. apply sorted_filter. intros a b Ea Eb HR. apply HR. by rewrite (cmp_eq_l scmp a (mk_sv 0 0 k) b Ea), (cmp_opp (cmp := scmp) b (mk_sv 0 0 k)), Eb. Qed.
End insert.

(** * The index and its content *)

(** What a node has: its range, the versions of its two indexes and of its branches, its file and
    the answers of the system to come for it. *)
Record ncontent := mk_nc { nc_mm : bytes * bytes; nc_0 : list (list sv); nc_1 : list (list sv); nc_b : list (list (list sv)); nc_file : bytes; nc_A : list answer }.
Definition nc_versions (c : ncontent) : list sv := concat (nc_1 c) ++ concat (nc_0 c) ++ concat ((λ vss, concat vss) <$> nc_b c).

Section store.
Context `{Alloc} (r : sr) (upd : sfupdatef) {F : Type} (cif : ssfilterif F) (conf : qconf) (io n fuel : nat) (T : Z).
Context {St : Type} `{!TreeOps St, !TreeLaws St}.
Abbreviation cmp := (scheme_cmp (r_scheme r)).
Abbreviation sch := (r_scheme r).

(** An index in memory with its versions and room for [k] more, at the places [X]. *)
Record memory_ok (k : nat) (X : list loc) (i : svindex St) (vss : list (list sv)) : Prop := {
  mo_rep : ∃ cs, idx_rep cmp i cs vss ∧ Forall (λ x, x ∉ concat cs ∧ t_node (i_i i) x) X;
  mo_count : 0 <= i_count i ∧ (vss ≠ [] → 0 < i_count i) ∧ i_count i + Z.of_nat k < 2 ^ 32;
  mo_room : (length (concat vss) + k < fuel)%nat
}.
Record node_holds (k : nat) (X : list loc) (node : sinode St) (c : ncontent) : Prop := {
  nh_i0 : memory_ok k X (n_i0 node) (nc_0 c);
  nh_i1 : memory_ok k X (n_i1 node) (nc_1 c);
  nh_rotated : n_has node SI_ROTATE = false → nc_1 c = [];
  nh_branches : Forall2 (λ b vss, branch_holds r fuel T (nc_file c) b.2 vss) (n_branch node) (nc_b c);
  nh_pointers : NoDup (fst <$> n_branch node) ∧ n_branch node ≠ [] ∧ n_branch_count node = Z.of_nat (length (n_branch node));
  nh_file : nc_file c `prefix_of` o_data (fl_os (n_file node));
  nh_map : qc_mmap conf = true → ∃ m, mm_p (n_map node) = Some m ∧ nc_file c `prefix_of` m;
  nh_answers : o_answers (fl_os (n_file node)) `suffix_of` nc_A c;
  nh_used : is_u32 (n_used node);
  nh_ordered : ordered cmp (nc_versions c)
}.
Record store_holds (k : nat) (X : list loc) (s : si St) (xs : list loc) (C : list ncontent) (V : list entry) : Prop := {
  st_nodes : nodes_ok sch s xs (nc_mm <$> C);
  st_content : Forall2 (λ x c, ∃ node, s_nodes s !! x = Some node ∧ node_holds k X node c) xs C;
  st_placed : ∀ j c a, C !! j = Some c → a ∈ nc_versions c → place cmp (sv_pointer a) (fst <$> (nc_mm <$> C)) = j;
  st_versions : V ≡ₚ entry_of <$> concat (nc_versions <$> C);
  st_lsn : Forall (λ e, e_lsn e <= UINT64_MAX) V
}.

(** ** Lookups *)

Lemma place_key a key mins : cmp a key = 0 → place cmp a mins = place cmp key mins.
Proof.
  intros E. unfold place. f_equal. induction (tail mins) as [|m l IH]; [done|]. rewrite !filter_cons, (cmp_eq_r cmp a key m E). by destruct (decide _); rewrite IH.
Qed.
(** The versions of a key are those of its node. *)
Lemma store_key k X s xs C V key j c : store_holds k X s xs C V → C !! j = Some c → place cmp key (fst <$> (nc_mm <$> C)) = j →
  ∀ e, e ∈ V → cmp (e_row e) key = 0 → ∃ a, a ∈ nc_versions c ∧ entry_of a = e.
Proof.
  intros [_ _ Hp HV _] Hj Ej e He Ek. rewrite HV in He. apply list_elem_of_fmap in He as (a & -> & (i & l & Hi & Ha)%elem_of_concat). rewrite list_lookup_fmap in Hi. destruct (C !! i) as [c'|] eqn:Ec; [|done]. injection Hi as <-.
  pose proof (Hp i c' a Ec Ha) as Ei. rewrite (place_key _ key _ Ek), Ej in Ei. subst i. rewrite Hj in Ec. injection Ec as <-. by exists a.
Qed.
Lemma node_versions_key c (node : sinode St) q : (n_has node SI_ROTATE = false → nc_1 c = []) →
  node_versions r q node (nc_0 c) (nc_1 c) (nc_b c) = filter (λ a, sv_compare cmp a (mk_sv 0 0 (q_key q)) = 0) (nc_versions c).
Proof.
  intros Hr. unfold node_versions, nc_versions, key_versions. rewrite !filter_app. f_equal; [destruct (n_has _ _); [done|by rewrite Hr]|]. f_equal.
  induction (nc_b c) as [|b bs IH]; [done|]. rewrite !fmap_cons. cbn [concat]. by rewrite filter_app, IH.
Qed.
(** The newest version of a node answers for the store. *)
Lemma newest_current k X s xs C V q j c (node : sinode St) w : store_holds k X s xs C V → C !! j = Some c → place cmp (q_key q) (fst <$> (nc_mm <$> C)) = j → (n_has node SI_ROTATE = false → nc_1 c = []) →
  newest (q_vlsn q) (node_versions r q node (nc_0 c) (nc_1 c) (nc_b c)) w → current cmp V (q_key q) (q_vlsn q) (entry_of <$> w).
Proof.
  intros Hs Hj Ej Hr. rewrite (node_versions_key c node q Hr). assert (∀ a, a ∈ nc_versions c → entry_of a ∈ V) as Hin.
  { intros a Ha. rewrite (st_versions _ _ _ _ _ _ Hs). apply list_elem_of_fmap_2. apply elem_of_concat. exists j, (nc_versions c). by rewrite list_lookup_fmap, Hj. }
  destruct w as [v|]; cbn [newest current fmap option_fmap option_map].
  - intros (Hv & Hl & Hm). apply list_elem_of_filter in Hv as [Ek Hv]. split_and!; [by apply Hin|done|done|]. intros e He Ee Hle. destruct (store_key k X s xs C V (q_key q) j c Hs Hj Ej e He Ee) as (a & Ha & <-).
    apply (Hm a); [by apply list_elem_of_filter|done].
  - intros Hm e He Ee. destruct (store_key k X s xs C V (q_key q) j c Hs Hj Ej e He Ee) as (a & Ha & <-). by apply (Hm a), list_elem_of_filter.
Qed.

(** ** Changing one node *)

Lemma index_replace s s' xs mms x node node' : nodes_ok sch s xs mms → s_nodes s !! x = Some node → n_self node' = n_self node → s_i s' = s_i s → s_n s' = s_n s → s_nodes s' = <[x := node']> (s_nodes s) →
  nodes_ok sch s' xs mms.
Proof.
  intros [H1 H2 H3 H4 H5 H6] Hx Hself Ei En Es. split; rewrite ?Ei, ?En; try done; rewrite Es.
  - eapply Forall_impl; [exact H5|]. intros y Hy. rewrite lookup_insert_is_Some'. by right.
  - destruct H6 as [H6|[HF Hs]]; [by left|right]. split; [|done]. eapply Forall2_impl; [exact HF|]. intros y mm (m & Hm & Hr). destruct (decide (x = y)) as [<-|Hne].
    + exists node'. rewrite lookup_insert_eq. split; [done|]. rewrite Hx in Hm. injection Hm as <-. unfold in_range in *. by rewrite Hself.
    + exists m. by rewrite lookup_insert_ne.
Qed.
Lemma store_replace k k' X X' s s' xs C V V' j x node node' c c' : store_holds k X s xs C V → xs !! j = Some x → C !! j = Some c → s_nodes s !! x = Some node →
  n_self node' = n_self node → s_i s' = s_i s → s_n s' = s_n s → s_nodes s' = <[x := node']> (s_nodes s) → nc_mm c' = nc_mm c → node_holds k' X' node' c' →
  (∀ m d, node_holds k X m d → node_holds k' X' m d) → (∀ a, a ∈ nc_versions c' → place cmp (sv_pointer a) (fst <$> (nc_mm <$> C)) = j) →
  (∀ l l', V ≡ₚ l ++ (entry_of <$> nc_versions c) ++ l' → V' ≡ₚ l ++ (entry_of <$> nc_versions c') ++ l') → Forall (λ e, e_lsn e <= UINT64_MAX) V' →
  store_holds k' X' s' xs (<[j := c']> C) V'.
Proof.
  intros [H1 H2 H3 H4 H5] Hx Hj Hnode Hself Ei En Es Emm Hh Hmono Hpl HV Hl'. assert (nc_mm <$> <[j := c']> C = nc_mm <$> C) as EC.
  { rewrite list_fmap_insert, Emm. apply list_insert_id. by rewrite list_lookup_fmap, Hj. }
  pose proof (t_seq_NoDup _ _ (nd_tree _ _ _ _ H1)) as Hnd. split.
  - rewrite EC. by eapply index_replace.
  - rewrite Es. apply Forall2_same_length_lookup. split; [rewrite length_insert; by eapply Forall2_length|]. intros i y d Hy Hd. destruct (decide (i = j)) as [->|Hne].
    + rewrite list_lookup_insert_eq in Hd by (by apply lookup_lt_Some in Hj). injection Hd as <-. rewrite Hx in Hy. injection Hy as <-. exists node'. by rewrite lookup_insert_eq.
    + rewrite list_lookup_insert_ne in Hd by done. destruct (Forall2_lookup_lr _ _ _ _ _ _ H2 Hy Hd) as (m & Hm & Hmh). exists m. split; [|by apply Hmono]. rewrite lookup_insert_ne; [done|]. intros ->. apply Hne. by eapply NoDup_lookup.
  - rewrite EC. intros i d a Hd Ha. destruct (decide (i = j)) as [->|Hne].
    + rewrite list_lookup_insert_eq in Hd by (by apply lookup_lt_Some in Hj). injection Hd as <-. by apply Hpl.
    + rewrite list_lookup_insert_ne in Hd by done. by apply (H3 i d).
  - pose proof (lookup_lt_Some _ _ _ Hj). rewrite insert_take_drop, fmap_app, fmap_cons, concat_app by done. cbn [concat]. rewrite !fmap_app. apply HV. rewrite H4, <- (take_drop_middle C j c Hj) at 1. rewrite fmap_app, fmap_cons, concat_app. cbn [concat]. by rewrite !fmap_app.
  - done.
Qed.

(** ** A lookup *)

Abbreviation settings q C := (∀ c, c ∈ C → get_setting r upd conf q io n T (nc_A c)).
(** No node is rotated, or the reader sees all versions. *)
Definition in_sight (q : siquery) (s : si St) : Prop := (∀ x node, s_nodes s !! x = Some node → n_has node SI_ROTATE = false) ∨ q_vlsn q = UINT64_MAX.
(** The flags of the nodes are as they were. *)
Definition same_flags (s s' : si St) : Prop := ∀ x node', s_nodes s' !! x = Some node' → ∃ node, s_nodes s !! x = Some node ∧ n_flags node' = n_flags node.
Lemma rotation_seen k X s xs C V q j c x node : store_holds k X s xs C V → C !! j = Some c → s_nodes s !! x = Some node → in_sight q s → (∀ a, a ∈ nc_versions c → entry_of a ∈ V) →
  ¬ rotation_hides r q node (nc_0 c) (nc_1 c).
Proof.
  intros Hs Hj Hn [Hr|Hv] Hin (Hrot & Hne & Hnone & _); [rewrite (Hr x node Hn) in Hrot; done|]. rewrite Hv in Hnone. destruct (key_versions cmp (q_key q) (nc_1 c)) as [|a l] eqn:E; [done|].
  assert (a ∈ nc_versions c) as Ha. { assert (a ∈ key_versions cmp (q_key q) (nc_1 c)) as [_ Ha]%list_elem_of_filter by (rewrite E; left). unfold nc_versions. apply elem_of_app. by left. }
  pose proof (st_lsn _ _ _ _ _ _ Hs) as Hl. rewrite Forall_forall in Hl. specialize (Hl _ (Hin a Ha)). cbn [entry_of e_lsn] in Hl. unfold visible in Hnone. cbn [drop_newer] in Hnone. rewrite Z.gtb_ltb in Hnone. destruct (Z.ltb_spec UINT64_MAX (sv_lsn a)); [lia|done].
Qed.
Lemma memory_holds k X i vss : memory_ok k X i vss → index_holds r fuel i vss.
Proof. intros [(cs & H1 & _) (_ & H2 & _) H3]. exists cs. split_and!; [done|done|lia]. Qed.
Lemma store_node k X s xs C V key : own_scheme sch → store_holds k X s xs C V → row_ready sch key → ∃ eq j x node c, si_iter_open sch SS_GTE (Some key) s = Some ((eq, mk_siiter (Some x) SS_GTE), s) ∧
  j = place cmp key (fst <$> (nc_mm <$> C)) ∧ xs !! j = Some x ∧ C !! j = Some c ∧ s_nodes s !! x = Some node ∧ node_holds k X node c.
Proof.
  intros Hown [H1 H2 _ _ _] Hk.
  destruct (iter_open_ok sch Hown s xs (nc_mm <$> C) SS_GTE key H1 Hk) as (eq & x & E & Hx). destruct (Forall2_lookup_l _ _ _ _ _ H2 Hx) as (c & Hc & node & Hn & Hh). by eexists eq, _, x, node, c.
Qed.

Lemma store_get k X g xs C V q : store_holds k X (g_index g) xs C V → settings q C → in_sight q (g_index g) → ca_node (g_cache g) = None → Forall (bufs_ok T) (ca_path (g_cache g)) →
  ∃ rc g', si_qget r upd cif conf q io n fuel g = Some (rc, g') ∧ store_holds k X (g_index g') xs C V ∧ Forall (bufs_ok T) (ca_path (g_cache g')) ∧ same_flags (g_index g) (g_index g') ∧ s_branch (g_index g') = s_branch (g_index g) ∧
    (replies cmp V (q_key q) (q_vlsn q) rc (g_result g') ∨ ∃ c, c ∈ C ∧ read_fails (nc_A c)).
Proof.
  intros Hs Hset Hsee Hnc Hbufs. assert (∃ c, c ∈ C) as [c0 Hc0].
  { destruct C as [|c0 C]; [|by exists c0; left]. pose proof (nd_length _ _ _ _ (st_nodes _ _ _ _ _ _ Hs)) as E. pose proof (nd_some _ _ _ _ (st_nodes _ _ _ _ _ _ Hs)). by destruct xs. }
  destruct (store_node k X (g_index g) xs C V (q_key q) (gs_scheme _ _ _ _ _ _ _ _ (Hset c0 Hc0)) Hs (gs_key _ _ _ _ _ _ _ _ (Hset c0 Hc0))) as (eq & j & x & node & c & Eo & Ej & Hx & Hc & Hn & Hh).
  pose proof (Hset c (list_elem_of_lookup_2 _ _ _ Hc)) as [[HT0 HT] [Hio Hnn] Hupd Hcomp [Hhas Hpre] Hown Hkey].
  set (s := mk_qst (g_cache g) (n_file node) (n_map node) (s_readbuf (g_index g)) (s_read_disk (g_index g)) (g_result g)).
  assert (qok conf T (nc_file c) (nc_A c) s) as Hq by (split; [apply Hh|apply Hh|apply Hh|done]).
  assert (node_ok r fuel T (nc_file c) x node (nc_0 c) (nc_1 c) (nc_b c) s) as Hno.
  { split; [by eapply memory_holds, Hh|by eapply memory_holds, Hh|apply Hh|apply Hh|]. intros E. cbn in E. by rewrite Hnc in E. }
  destruct (qget_ok r upd cif conf q io n fuel (s_u (g_index g)) T (nc_file c) (nc_A c) HT Hio Hnn Hupd Hcomp Hhas Hpre Hown Hkey x node _ _ _ s HT0 Hq Hno) as (rc & qs & Eq & [Q1 Q2 Q3 Q4] & Hp).
  assert (∀ a, a ∈ nc_versions c → entry_of a ∈ V) as Hin.
  { intros a Ha. rewrite (st_versions _ _ _ _ _ _ Hs). apply list_elem_of_fmap_2, elem_of_concat. exists j, (nc_versions c). by rewrite list_lookup_fmap, Hc. }
  exists rc, (mk_gst (put_back x node qs (g_index g)) (q_cache qs) (q_result qs)). split_and!.
  - unfold si_qget. rewrite Eo. cbn [mbind option_bind si_iter_of it_v]. rewrite Hn. cbn [mbind option_bind]. fold s. by rewrite Eq.
  - rewrite <- (list_insert_id C j c Hc). apply (store_replace k k X X (g_index g) _ xs C V V j x node (node_with_file (q_file qs) (q_map qs) node) c c Hs); try done.
    + destruct Hh. by split.
    + intros a Ha. by apply (st_placed _ _ _ _ _ _ Hs j c).
    + apply (st_lsn _ _ _ _ _ _ Hs).
  - exact Q4.
  - intros y m. cbn [put_back g_index si_with_reads si_with_nodes s_nodes]. rewrite lookup_insert_Some. intros [[<- <-]|[_ Hm]]; [by exists node|by exists m].
  - done.
  - destruct Hp as [Ha|Hf]; [left|right; exists c; split; [by eapply list_elem_of_lookup_2|done]]. rewrite memory_seen in Ha by (by eapply rotation_seen).
    pose proof (visible_newest (q_vlsn q) (node_versions r q node (nc_0 c) (nc_1 c) (nc_b c))) as Hnew. eexists. split; [eapply newest_current; [exact Hs|exact Hc|done|apply Hh|apply Hnew; rewrite node_versions_key by apply Hh; apply ordered_key; apply _ || apply Hh]|].
    cbn [g_result]. unfold answered in Ha. destruct (visible _ _) as [v|]; [|done]. cbn [fmap option_fmap option_map entry_of e_deleted]. destruct (sv_is v SVDELETE); [done|]. destruct Ha as [-> Ha]. split; [done|]. by exists v.
Qed.

(** ** A write *)

(** A version as a transaction hands it over, at [x]. *)
Record writable (V : list entry) (x : loc) (v : svv) : Prop := {
  wr_next : v_next v = None;
  wr_dup : sv_is (svv_sv v) SVDUP = false;
  wr_lsn : v_lsn v <= UINT64_MAX;
  wr_ready : row_ready sch (v_data v);
  wr_newer : newer cmp V (svv_sv v)
}.
Lemma memory_set k X i vss x v : memory_ok (S k) (x :: X) i vss → x ∉ X → v_next v = None → sv_is (svv_sv v) SVDUP = false → (∀ a, a ∈ concat vss → cmp (sv_pointer a) (v_data v) = 0 → sv_lsn a ≠ v_lsn v) →
  ∃ i', sv_indexset cmp x (with_version x v i) = Some ((), i') ∧ memory_ok k X i' (insert_key cmp (svv_sv v) vss).
Proof.
  intros [(cs & [Hseq HF Hnd Hok] & HX) (Hc0 & Hcp & Hck) Hroom] Hx Hnext Hdup Hlsn. apply Forall_cons in HX as [[Hxc Hxt] HX].
  assert (idx_rep cmp (with_version x v i) cs vss) as Hi.
  { split; try done. eapply (chains_agree cmp); [exact HF|]. intros y Hy. cbn [with_version i_v]. rewrite lookup_insert_ne; [done|]. by intros ->. }
  destruct (indexset_ok cmp _ cs vss x v Hi) as (i' & E & (cs' & Hr' & Hp) & Ec & _ & _ & Ht).
  { split; try done; [cbn; by rewrite lookup_insert_eq|]. intros c w Hc Hw. apply Hlsn. apply list_elem_of_lookup in Hc as [j Hj]. apply elem_of_concat. eauto. }
  exists i'. split; [done|]. cbn [with_version i_count] in Ec. rewrite wrap_id in Ec by (unfold in_u; lia). split.
  - exists cs'. split; [done|]. apply Forall_forall. intros y Hy. rewrite Forall_forall in HX. destruct (HX y Hy) as [Hyc Hyt]. rewrite Hp. split; [|by apply Ht]. intros [->|?]%elem_of_cons; done.
  - rewrite Ec. split_and!; [lia|intros _; lia|lia].
  - rewrite insert_key_length. lia.
Qed.
Lemma memory_mono k X x i vss : memory_ok (S k) (x :: X) i vss → memory_ok k X i vss.
Proof. intros [(cs & H1 & [_ H2]%Forall_cons) (H3 & H4 & H5) H6]. split; [by exists cs|split_and!; [done|done|lia]|lia]. Qed.
Lemma node_mono k X x node c : node_holds (S k) (x :: X) node c → node_holds k X node c.
Proof. intros []. split; try done; by eapply memory_mono. Qed.

(** The content of the node after a write: [rot]: the second index is written to. *)
Definition nc_set (rot : bool) (v : sv) (c : ncontent) : ncontent :=
  if rot then mk_nc (nc_mm c) (nc_0 c) (insert_key cmp v (nc_1 c)) (nc_b c) (nc_file c) (nc_A c) else mk_nc (nc_mm c) (insert_key cmp v (nc_0 c)) (nc_1 c) (nc_b c) (nc_file c) (nc_A c).
Lemma nc_set_entries rot v c : entry_of <$> nc_versions (nc_set rot v c) ≡ₚ entry_of v :: (entry_of <$> nc_versions c).
Proof.
  unfold nc_versions, nc_set. destruct rot; cbn [nc_0 nc_1 nc_b]; rewrite !fmap_app, insert_key_entries; cbn [app]; [done|]. by rewrite <- Permutation_middle.
Qed.
Lemma nc_set_from rot v c a : a ∈ nc_versions (nc_set rot v c) → ∃ b, (b = v ∨ b ∈ nc_versions c) ∧ sv_pointer a = sv_pointer b ∧ sv_lsn a = sv_lsn b.
Proof.
  intros Ha. assert (entry_of a ∈ entry_of v :: (entry_of <$> nc_versions c)) as Hin by (rewrite <- nc_set_entries; by apply list_elem_of_fmap_2).
  apply elem_of_cons in Hin as [E|(b & E & Hb)%list_elem_of_fmap]; injection E as E1 _ E2; eexists; (split; [|by split]); [by left|by right].
Qed.
Lemma nc_set_ordered rot v c : ordered cmp (nc_versions c) → (rot = false → nc_1 c = []) → content_ok cmp (insert_key cmp v (if rot : bool then nc_1 c else nc_0 c)) →
  (∀ a, a ∈ nc_versions c → cmp (sv_pointer a) (sv_pointer v) = 0 → sv_lsn a < sv_lsn v) → ordered cmp (nc_versions (nc_set rot v c)).
Proof.
  intros Ho Hrot Hc%content_ordered Hnew. assert (∀ vss l, ordered cmp (concat vss ++ l) → (∀ a, a ∈ concat vss ++ l → cmp (sv_pointer a) (sv_pointer v) = 0 → sv_lsn a < sv_lsn v) → ordered cmp (concat (insert_key cmp v vss)) → ordered cmp (concat (insert_key cmp v vss) ++ l)) as Hins.
  { intros vss l (H1 & _ & H3)%StronglySorted_app Hn Hi. apply StronglySorted_app. split_and!; [|done|done]. intros a b (d & [->|Hd] & Ep & El)%insert_key_from Hb E; unfold sv_compare in E; rewrite Ep in E; rewrite El.
    - assert (sv_lsn b < sv_lsn v); [|lia]. apply Hn; [set_solver|]. by rewrite (cmp_opp (cmp := cmp) (sv_pointer v)), E.
    - by apply H1. }
  unfold nc_set, nc_versions in *. destruct rot; cbn [nc_0 nc_1 nc_b]; [by apply Hins|]. rewrite Hrot in * by done. cbn [concat app] in *. by apply Hins.
Qed.

Lemma node_set_ok k X x node c v : node_holds (S k) (x :: X) node c → x ∉ X → v_next v = None → sv_is (svv_sv v) SVDUP = false →
  (∀ a, a ∈ nc_versions c → cmp (sv_pointer a) (v_data v) = 0 → sv_lsn a < v_lsn v) → ∀ time used commit, is_u32 used →
  ∃ node', node_set sch x v node = Some node' ∧ n_flags node' = n_flags node ∧ n_self node' = n_self node ∧ n_used node' = n_used node ∧
    node_holds k X (node_with_write time used commit node') (nc_set (n_has node SI_ROTATE) (svv_sv v) c).
Proof.
  intros Hh Hx Hnext Hdup Hnew time used commit Hu. pose proof (node_mono _ _ _ _ _ Hh) as [M0 M1 Hrot Hb Hp Hf Hm Ha _ Ho]. pose proof (nh_i0 _ _ _ _ Hh) as I0. pose proof (nh_i1 _ _ _ _ Hh) as I1.
  assert (∀ vss, (∀ a, a ∈ concat vss → a ∈ nc_versions c) → ∀ a, a ∈ concat vss → cmp (sv_pointer a) (v_data v) = 0 → sv_lsn a ≠ v_lsn v) as Hlsn by (intros vss Hin a Hva E; specialize (Hnew a (Hin a Hva) E); lia).
  unfold node_set, si_nodeindex, set_nodeindex. destruct (n_has node SI_ROTATE) eqn:Erot.
  - destruct (memory_set k X (n_i1 node) (nc_1 c) x v I1 Hx Hnext Hdup) as (i' & E & Hi); [apply Hlsn; unfold nc_versions; set_solver|]. unfold sv_indexset in E. rewrite E. cbn [mbind option_bind]. eexists. split; [done|]. split_and!; [done..|].
    split; cbn [node_with_write node_with_indexes n_i0 n_i1 n_flags n_branch n_branch_count n_file n_map n_used nc_set nc_0 nc_1 nc_b nc_file nc_A]; try done; [change (n_has _ _) with (n_has node SI_ROTATE); by rewrite Erot|].
    apply (nc_set_ordered true); [done|done| |done]. destruct (mo_rep _ _ _ _ Hi) as (cs & Hr & _). apply Hr.
  - destruct (memory_set k X (n_i0 node) (nc_0 c) x v I0 Hx Hnext Hdup) as (i' & E & Hi); [apply Hlsn; unfold nc_versions; set_solver|]. unfold sv_indexset in E. rewrite E. cbn [mbind option_bind]. eexists. split; [done|]. split_and!; [done..|].
    split; cbn [node_with_write node_with_indexes n_i0 n_i1 n_flags n_branch n_branch_count n_file n_map n_used nc_set nc_0 nc_1 nc_b nc_file nc_A]; try done; [intros _; by apply Hrot|].
    apply (nc_set_ordered false); [done|done| |done]. destruct (mo_rep _ _ _ _ Hi) as (cs & Hr & _). apply Hr.
Qed.
Lemma on_index_run {B} (m : cmd (si St) B) t a i : m (tx_index t) = Some (a, i) → on_index m t = Some (a, mk_sitx i (tx_nodelist t) (tx_time t) (tx_vlsn t) (tx_gc t)).
Proof. intros E. unfold on_index. by rewrite E. Qed.
(** What a transaction keeps besides the content: the flags, the queues and its list of nodes. *)
Definition same_queues (s s' : si St) : Prop := s_branch s' = s_branch s ∧ s_compact s' = s_compact s.
Lemma store_set k X t xs C V x v : own_scheme sch → store_holds (S k) (x :: X) (tx_index t) xs C V → x ∉ X → writable V x v → (∀ y, y ∈ tx_nodelist t → y ∈ xs) →
  ∃ t' C', si_set sch x v t = Some (0, t') ∧ store_holds k X (tx_index t') xs C' (entry_of (svv_sv v) :: V) ∧ nc_A <$> C' = nc_A <$> C ∧
    same_flags (tx_index t) (tx_index t') ∧ same_queues (tx_index t) (tx_index t') ∧ (∀ y, y ∈ tx_nodelist t' → y ∈ xs) ∧ tx_gc t' = tx_gc t.
Proof.
  intros Hown Hs Hx [Hnext Hdup Hmax Hready Hnewer] Hlist. set (s := si_with_time (tx_time t) (tx_index t)).
  assert (store_holds (S k) (x :: X) s xs C V) as Hs' by (destruct Hs as [[] ? ? ? ?]; split; try done; by split).
  destruct (store_node (S k) (x :: X) s xs C V (v_data v) Hown Hs' Hready) as (eq & j & y & node & c & Eo & Ej & Hy & Hc & Hn & Hh).
  assert (∀ a, a ∈ nc_versions c → entry_of a ∈ V) as Hin.
  { intros a Ha. rewrite (st_versions _ _ _ _ _ _ Hs). apply list_elem_of_fmap_2, elem_of_concat. exists j, (nc_versions c). by rewrite list_lookup_fmap, Hc. }
  assert (∀ a, a ∈ nc_versions c → cmp (sv_pointer a) (v_data v) = 0 → sv_lsn a < v_lsn v) as Hnew by (intros a Ha E; exact (Hnewer _ (Hin a Ha) E)).
  destruct (node_set_ok k X x node c v Hh Hx Hnext Hdup Hnew (tx_time t) (u32 (n_used node + sv_vsize v)) true) as (node' & Es & Ef & Eself & Eu & Hh'); [by apply wrap_in_u|].
  set (node2 := node_with_write (tx_time t) (u32 (n_used node + sv_vsize v)) true node') in *.
  exists (mk_sitx (si_with_nodes (<[y := node2]> (s_nodes s)) s) (if n_commit node' then tx_nodelist t else tx_nodelist t ++ [y]) (tx_time t) (tx_vlsn t) (tx_gc t)), (<[j := nc_set (n_has node SI_ROTATE) (svv_sv v) c]> C). split_and!.
  - unfold si_set. erewrite bind_ok by reflexivity. erewrite bind_ok by reflexivity. fold s. rewrite (bind_ok _ _ _ _ _ (on_index_run _ (mk_sitx s _ _ _ _) _ _ Eo)). cbn [snd si_iter_of it_v]. erewrite bind_ok by reflexivity.
    erewrite bind_ok by (apply on_index_run; unfold rd_node, cread; cbn [tx_index]; rewrite Hn; reflexivity). erewrite bind_ok by (unfold cread; rewrite Es; reflexivity). erewrite bind_ok by reflexivity. cbv zeta.
    erewrite bind_ok by (apply on_index_run; unfold wr_node; cbn [tx_index]; rewrite Hn; reflexivity). rewrite Eu. unfold cwhen, cbind, cret. by destruct (n_commit node').
  - apply (store_replace (S k) k (x :: X) X s _ xs C V _ j y node node2 c _ Hs'); try done.
    + by destruct (n_has node SI_ROTATE).
    + by apply node_mono.
    + intros a (b & [->|Hb] & Ep & _)%nc_set_from; rewrite Ep; [done|by apply (st_placed _ _ _ _ _ _ Hs j c)].
    + intros l l' ->. rewrite nc_set_entries. cbn [app]. by rewrite <- Permutation_middle.
    + constructor; [done|apply (st_lsn _ _ _ _ _ _ Hs)].
  - rewrite list_fmap_insert. apply list_insert_id. rewrite list_lookup_fmap, Hc. cbn. by destruct (n_has node SI_ROTATE).
  - intros z m. cbn [tx_index si_with_nodes s_nodes]. rewrite lookup_insert_Some. intros [[<- <-]|[_ Hm]]; [by exists node|by exists m].
  - done.
  - intros z. cbn [tx_nodelist]. destruct (n_commit node'); [by apply Hlist|]. intros [Hz|Hz%list_elem_of_singleton]%elem_of_app; [by apply Hlist|subst z; by eapply list_elem_of_lookup_2].
  - done.
Qed.

(** ** A transaction *)

(** The chain of a database in the log, with its versions. *)
Definition chain_of (l : svlog (loc * svv)) (li : svlogindex) (vs : list (loc * svv)) : Prop :=
  ∃ ps, SvLog.linked (l_buf l) ps ∧ (∀ p, head ps = Some p → p = li_head li) ∧ li_count li = Z.of_nat (length ps) ∧ Forall2 (λ p xv, ∃ lv, l_buf l !! Z.to_nat p = Some lv ∧ lv_v lv = xv) ps vs.
Fixpoint writables (V : list entry) (vs : list (loc * svv)) : Prop :=
  match vs with [] => True | xv :: vs => writable V xv.1 xv.2 ∧ writables (entry_of (svv_sv xv.2) :: V) vs end.
Definition after (vs : list (loc * svv)) (V : list entry) : list entry := foldl (λ V xv, entry_of (svv_sv xv.2) :: V) V vs.
Lemma same_flags_trans s s' s'' : same_flags s s' → same_flags s' s'' → same_flags s s''.
Proof. intros H1 H2 x n' Hn. destruct (H2 x n' Hn) as (n1 & Hn1 & E1). destruct (H1 x n1 Hn1) as (n0 & Hn0 & E0). exists n0. split; [done|congruence]. Qed.
Lemma write_loop_ok l k X xs vs : own_scheme sch → ∀ ps cv t C V, SvLog.linked (l_buf l) ps → Forall2 (λ p xv, ∃ lv, l_buf l !! Z.to_nat p = Some lv ∧ lv_v lv = xv) ps vs → (∀ p, head ps = Some p → cv = sv_logat p l) →
  store_holds (length vs + k) (vs.*1 ++ X) (tx_index t) xs C V → NoDup (vs.*1 ++ X) → writables V vs → (∀ y, y ∈ tx_nodelist t → y ∈ xs) →
  ∃ t' C', write_loop sch false l (length vs) cv t = Some ((), t') ∧ store_holds k X (tx_index t') xs C' (after vs V) ∧ nc_A <$> C' = nc_A <$> C ∧
    same_flags (tx_index t) (tx_index t') ∧ same_queues (tx_index t) (tx_index t') ∧ ∀ y, y ∈ tx_nodelist t' → y ∈ xs.
Proof.
  intros Hown. induction vs as [|[x v] vs IH]; intros ps cv t C V Hl HF Hcv Hs Hnd Hw Hlist.
  - exists t, C. split_and!; try done. intros y m Hm. by exists m.
  - apply Forall2_cons_inv_r in HF as (p & ps' & (lv & Hlv & Ev) & HF & ->). destruct Hl as [(lv' & Hlv' & Hp & Hnext) Hl]. rewrite Hlv in Hlv'. injection Hlv' as <-. destruct Hw as [Hw Hws]. cbn [fmap list_fmap fst snd app length Nat.add] in *. apply NoDup_cons in Hnd as [Hx Hnd].
    destruct (store_set (length vs + k) (vs.*1 ++ X) t xs C V x v Hown Hs Hx Hw Hlist) as (t1 & C1 & E1 & Hs1 & EA1 & Hf1 & [Hq1 Hq1'] & Hl1 & _).
    destruct (IH ps' (sv_logat (lv_next lv) l) t1 C1 (entry_of (svv_sv v) :: V) Hl HF) as (t2 & C2 & E2 & Hs2 & EA2 & Hf2 & [Hq2 Hq2'] & Hl2); [|done..|].
    { intros q Hq. rewrite Hnext. destruct ps'; [done|]. by injection Hq as ->. }
    exists t2, C2. split_and!; [|done|congruence|by eapply same_flags_trans|split; congruence|done].
    cbn [write_loop]. rewrite (Hcv p eq_refl). erewrite bind_ok by (unfold cread, sv_logat; destruct (Z.ltb_spec p 0); [lia|]; rewrite Hlv; reflexivity). rewrite Ev. erewrite bind_ok by reflexivity. change (c_true 0) with false. cbv iota.
    erewrite bind_ok by (rewrite (bind_ok _ _ _ _ _ E1); reflexivity). exact E2.
Qed.

(** The queue for branching has all nodes. *)
Definition queue_ok (s : si St) (xs : list loc) : Prop := ∃ bs, rq_rep (s_branch s) bs ∧ (∀ x, x ∈ xs → x ∈ concat bs) ∧ Z.of_nat (length (concat bs)) < 2 ^ 32 - 1.
Lemma update_buckets (bs : list (list positive)) i x : NoDup (concat bs) → (i < length bs)%nat → x ∈ concat bs → NoDup (concat (alter (.++ [x]) i (filter (.≠ x) <$> bs))) →
  (∀ y, y ∈ concat bs → y ∈ concat (alter (.++ [x]) i (filter (.≠ x) <$> bs))) ∧ (length (concat (alter (.++ [x]) i (filter (.≠ x) <$> bs))) <= length (concat bs))%nat.
Proof.
  intros Hnd Hi Hx Hnd'. assert (∀ y, y ∈ concat (alter (.++ [x]) i (filter (.≠ x) <$> bs)) ↔ y ∈ concat bs) as Hiff; [|split; [by intros y ?%Hiff|]].
  - intros y. rewrite !elem_of_concat. split.
    + intros (j & b & Hj & Hy). destruct (decide (i = j)) as [<-|Hne]; [rewrite list_lookup_alter_eq in Hj|rewrite list_lookup_alter_ne in Hj by done]; rewrite list_lookup_fmap in Hj; destruct (bs !! _) as [b0|] eqn:Eb; cbn in Hj; simplify_eq.
      * apply elem_of_app in Hy as [[_ Hy]%list_elem_of_filter|Hy%list_elem_of_singleton]; [eauto|subst y; by apply elem_of_concat].
      * apply list_elem_of_filter in Hy as [_ Hy]. eauto.
    + intros (j & b & Hj & Hy). destruct (decide (y = x)) as [->|Hne].
      * destruct (lookup_lt_is_Some_2 bs i Hi) as [b0 Hb0]. exists i, (filter (.≠ x) b0 ++ [x]). rewrite list_lookup_alter_eq, list_lookup_fmap, Hb0. split; [done|set_solver].
      * destruct (decide (i = j)) as [<-|Hij]; [exists i, (filter (.≠ x) b ++ [x])|exists j, (filter (.≠ x) b)]; (rewrite list_lookup_alter_eq || rewrite list_lookup_alter_ne by done); rewrite list_lookup_fmap, Hj; (split; [done|]); [apply elem_of_app; left|]; by apply list_elem_of_filter.
  - apply submseteq_length, NoDup_submseteq; [done|]. by intros y ?%Hiff.
Qed.
Lemma plannerupdate_ok (s : si St) xs x node : queue_ok s xs → x ∈ xs → s_nodes s !! x = Some node → is_u32 (n_used node) →
  ∃ q, si_plannerupdate SI_BRANCH x s = Some ((), si_with_queues q (s_compact s) s) ∧ queue_ok (si_with_queues q (s_compact s) s) xs.
Proof.
  intros (bs & R & Hin & Hlen) Hx Hn Hu. pose proof (Hin x Hx) as Hxb. pose proof Hxb as (i & b & Hi & Hb)%elem_of_concat. destruct (rr_node _ _ R i b x Hi Hb) as (v & Hv & _).
  destruct (rqupdate_ok _ bs x (n_used node) _ R Hv (or_introl Hxb) Hu Hlen) as (j & q & _ & Hj & E & R' & _). exists q. split.
  - unfold si_plannerupdate. erewrite bind_ok by (unfold rd_node, cread; rewrite Hn; reflexivity). change (c_true (Z.land SI_BRANCH SI_BRANCH)) with true. change (c_true (Z.land SI_BRANCH SI_COMPACT)) with false. unfold cwhen, cbind, on_branchq, cret. by rewrite E.
  - destruct (update_buckets bs j x (rr_nodup _ _ R) Hj Hxb (rr_nodup _ _ R')) as [Hk Hl]. eexists. split; [exact R'|]. split; [auto|lia].
Qed.
Lemma commit_nodes_ok k X xs C V l : ∀ s, store_holds k X s xs C V → queue_ok s xs → (∀ y, y ∈ l → y ∈ xs) →
  ∃ s', commit_nodes l s = Some ((), s') ∧ store_holds k X s' xs C V ∧ queue_ok s' xs ∧ same_flags s s'.
Proof.
  induction l as [|y l IH]; intros s Hs Hq Hl; [exists s; split_and!; try done; intros z m Hm; by exists m|]. pose proof (Hl y (list_elem_of_here _ _)) as Hy. pose proof Hy as [j Hj]%list_elem_of_lookup.
  destruct (Forall2_lookup_l _ _ _ _ _ (st_content _ _ _ _ _ _ Hs) Hj) as (c & Hc & node & Hn & Hh). set (node' := node_with_write (n_update_time node) (n_used node) false node). set (s1 := si_with_nodes (<[y := node']> (s_nodes s)) s).
  assert (store_holds k X s1 xs C V) as Hs1.
  { rewrite <- (list_insert_id C j c Hc). apply (store_replace k k X X s s1 xs C V V j y node node' c c Hs); try done; [by destruct Hh| |apply (st_lsn _ _ _ _ _ _ Hs)]. intros a Ha. by apply (st_placed _ _ _ _ _ _ Hs j c). }
  destruct (plannerupdate_ok s1 xs y node' Hq Hy) as (q & E & Hq'); [cbn; by rewrite lookup_insert_eq|apply Hh|].
  destruct (IH (si_with_queues q (s_compact s1) s1)) as (s' & E' & Hs' & Hq'' & Hf); [by destruct Hs1 as [[] ? ? ? ?]; split; try done; split|done|intros z Hz; apply Hl; by right|].
  exists s'. split_and!; [|done|done|].
  - cbn [commit_nodes]. erewrite bind_ok by (unfold wr_node; rewrite Hn; reflexivity). by rewrite (bind_ok _ _ _ _ _ E).
  - intros z m Hm. destruct (Hf z m Hm) as (m1 & Hm1 & E1). cbn [si_with_queues s1 si_with_nodes s_nodes] in Hm1. rewrite lookup_insert_Some in Hm1. destruct Hm1 as [[<- <-]|[_ Hm1]]; [by exists node|by exists m1].
Qed.

(** ** Runs *)

(** A transaction that is written, whose versions are the chain [li] of the log, or a lookup with
    a cache from the pool. *)
Inductive op := OWrite (vlsn time : Z) (l : svlog (loc * svv)) (li : svlogindex) | OGet (q : siquery).
Definition logged (l : svlog (loc * svv)) (li : svlogindex) : list (loc * svv) := lv_v <$> filter (λ w, lv_id w = li_id li) (l_buf l).
Definition run_op (o : op) : cmd (gst St) (list (Z * option sv)) := λ g,
  match o with
  | OWrite vlsn time l li =>
      '(_, t) ← (si_write sch false l li;;; si_commit) (si_begin (g_index g) vlsn time);
      Some ([], mk_gst (tx_index t) (g_cache g) (g_result g))
  | OGet q =>
      '(rc, g) ← si_qget r upd cif conf q io n fuel (mk_gst (g_index g) (si_cachereset (g_cache g)) None);
      Some ([(rc, g_result g)], g)
  end.
Fixpoint run (ops : list op) : cmd (gst St) (list (Z * option sv)) :=
  match ops with
  | [] => cret []
  | o :: ops => let! a := run_op o in let! l := run ops in cret (a ++ l)
  end.
(** The answers of the abstract store, unless a read fails. *)
Fixpoint follows (fails : Prop) (V : list entry) (ops : list op) (outs : list (Z * option sv)) : Prop :=
  match ops with
  | [] => outs = []
  | OWrite _ _ l li :: ops => follows fails (after (logged l li) V) ops outs
  | OGet q :: ops =>
      match outs with
      | [] => False
      | (rc, res) :: outs => (replies cmp V (q_key q) (q_vlsn q) rc res ∨ fails) ∧ follows fails V ops outs
      end
  end.
Fixpoint stored (V : list entry) (ops : list op) : list entry :=
  match ops with
  | [] => V
  | OWrite _ _ l li :: ops => stored (after (logged l li) V) ops
  | OGet _ :: ops => stored V ops
  end.
Fixpoint allowed (V : list entry) (ops : list op) : Prop :=
  match ops with
  | [] => True
  | OWrite _ _ l li :: ops => log_ok l ∧ li ∈ l_index l ∧ writables V (logged l li) ∧ allowed (after (logged l li) V) ops
  | OGet _ :: ops => allowed V ops
  end.
Definition places_of (o : op) : list loc := match o with OWrite _ _ l li => (logged l li).*1 | OGet _ => [] end.
Abbreviation places ops := (concat (places_of <$> ops)).

Lemma chain_logged l li : log_ok l → li ∈ l_index l → chain_of l li (logged l li).
Proof.
  intros [_ _ Hch _] Hi. destruct (Hch li Hi) as (Hl & Hh & _ & Hc). exists (SvLog.positions (li_id li) 0 (l_buf l)). split; [done|]. split; [intros p Hp; rewrite Hh in Hp; by injection Hp as <-|]. split; [done|].
  pose proof (positions_versions (li_id li) 0 [] (l_buf l) eq_refl) as Hv. cbn [app] in Hv. unfold logged. rewrite <- Hv. clear -Hl. induction (SvLog.positions _ _ _) as [|p ps IH]; [constructor|]. destruct Hl as [(v & Hv & _) Hl].
  cbn [omap list_omap]. rewrite Hv. cbn [fmap option_fmap option_map]. constructor; [by exists v|by apply IH].
Qed.
Lemma write_ok vlsn time l li k X xs s C V : own_scheme sch → store_holds (length (logged l li) + k) ((logged l li).*1 ++ X) s xs C V → queue_ok s xs → NoDup ((logged l li).*1 ++ X) → log_ok l → li ∈ l_index l → writables V (logged l li) →
  ∃ t C', (si_write sch false l li;;; si_commit) (si_begin s vlsn time) = Some ((), t) ∧ store_holds k X (tx_index t) xs C' (after (logged l li) V) ∧ nc_A <$> C' = nc_A <$> C ∧ queue_ok (tx_index t) xs ∧ same_flags s (tx_index t).
Proof.
  intros Hown Hs Hq Hnd Hl Hi Hw. destruct (chain_logged l li Hl Hi) as (ps & Hlk & Hh & Hc & HF). pose proof (Forall2_length _ _ _ HF) as Hlen.
  destruct (write_loop_ok l k X xs (logged l li) Hown ps (sv_logat (li_head li) l) (si_begin s vlsn time) C V Hlk HF) as (t1 & C1 & E1 & Hs1 & EA & Hf1 & [Hq1 _] & Hl1); try done; [intros p Hp; by rewrite (Hh p Hp)|by intros y ?%not_elem_of_nil|].
  assert (queue_ok (tx_index t1) xs) as Hqt by (unfold queue_ok; by rewrite Hq1).
  destruct (commit_nodes_ok k X xs C1 _ (tx_nodelist t1) (tx_index t1) Hs1 Hqt Hl1) as (s2 & E2 & Hs2 & Hq2 & Hf2).
  eexists (mk_sitx s2 _ _ _ _), C1. split_and!; [|exact Hs2|done|exact Hq2|by eapply same_flags_trans].
  unfold si_write. rewrite Hc, Nat2Z.id, Hlen. rewrite (bind_ok _ _ _ _ _ E1). unfold si_commit. erewrite bind_ok by reflexivity. by apply on_index_run.
Qed.

Lemma cachereset_ok c : Forall (bufs_ok T) (ca_path c) → ca_node (si_cachereset c) = None ∧ Forall (bufs_ok T) (ca_path (si_cachereset c)).
Proof.
  intros Hc. split; [done|]. cbn [si_cachereset ca_path]. rewrite Forall_fmap. eapply Forall_impl; [exact Hc|]. intros cb [H1 H2]. exact (conj (proj1 (cleared_cap T _ H1)) (proj1 (cleared_cap T _ H2))).
Qed.
Lemma in_sight_flags q s s' : same_flags s s' → in_sight q s → in_sight q s'.
Proof. intros Hf [Hr|Hv]; [left|by right]. intros x m Hm. destruct (Hf x m Hm) as (m0 & Hm0 & E). unfold n_has. rewrite E. by apply (Hr x). Qed.
Lemma in_contents (C C' : list ncontent) (P : list answer → Prop) : nc_A <$> C' = nc_A <$> C → (∀ c, c ∈ C → P (nc_A c)) → ∀ c, c ∈ C' → P (nc_A c).
Proof.
  intros E HP c Hc. assert (nc_A c ∈ nc_A <$> C) as (c0 & -> & Hc0)%list_elem_of_fmap by (rewrite <- E; by apply list_elem_of_fmap_2). by apply HP.
Qed.
Lemma follows_mono (P Q : Prop) ops : (P → Q) → ∀ V outs, follows P V ops outs → follows Q V ops outs.
Proof. intros HPQ. induction ops as [|[vlsn time l li|q] ops IH]; intros V outs; cbn [follows]; [done|apply IH|]. destruct outs as [|[rc res] outs]; [done|]. intros [[Hr|Hp] Hf]; (split; [|by apply IH]); [by left|right; by apply HPQ]. Qed.
Lemma run_ok ops : ∀ g xs C V, own_scheme sch → store_holds (length (places ops)) (places ops) (g_index g) xs C V → queue_ok (g_index g) xs → NoDup (places ops) → Forall (bufs_ok T) (ca_path (g_cache g)) → allowed V ops →
  (∀ q, OGet q ∈ ops → settings q C ∧ in_sight q (g_index g)) →
  ∃ outs g' C', run ops g = Some (outs, g') ∧ follows (∃ c, c ∈ C ∧ read_fails (nc_A c)) V ops outs ∧ store_holds 0 [] (g_index g') xs C' (stored V ops).
Proof.
  induction ops as [|o ops IH]; intros g xs C V Hown Hs Hq Hnd Hb Ha Hget; [by eexists _, _, C|]. destruct o as [vlsn time l li|q]; cbn [run].
  - destruct Ha as (Hl & Hi & Hw & Ha). cbn [fmap list_fmap places_of concat] in *. rewrite length_app, length_fmap in Hs.
    destruct (write_ok vlsn time l li _ _ xs (g_index g) C V Hown Hs Hq Hnd Hl Hi Hw) as (t & C' & E & Hs' & EA & Hq' & Hf).
    destruct (IH (mk_gst (tx_index t) (g_cache g) (g_result g)) xs C' _ Hown Hs' Hq' (proj2 (proj2 (proj1 (NoDup_app _ _) Hnd))) Hb Ha) as (outs & g' & C2 & E' & Hfo & Hs2).
    { intros q Hq0. destruct (Hget q) as [Hset Hsee]; [by right|]. split; [|by apply (in_sight_flags q (g_index g))]. by apply (in_contents C C' (λ A, get_setting r upd conf q io n T A)). }
    exists outs, g', C2. split; [|split; [eapply follows_mono; [|exact Hfo]|exact Hs2]].
    + erewrite bind_ok by (unfold run_op; rewrite E; reflexivity). by rewrite (bind_ok _ _ _ _ _ E').
    + intros (c & Hc & Hfl). assert (nc_A c ∈ nc_A <$> C) as (c0 & E0 & Hc0)%list_elem_of_fmap by (rewrite <- EA; by apply list_elem_of_fmap_2). exists c0. by rewrite <- E0.
  - cbn [fmap list_fmap places_of concat app] in *. destruct (Hget q (list_elem_of_here _ _)) as [Hset Hsee]. destruct (cachereset_ok (g_cache g) Hb) as [Hcn Hcb].
    destruct (store_get _ _ (mk_gst (g_index g) (si_cachereset (g_cache g)) None) xs C V q Hs Hset Hsee Hcn Hcb) as (rc & g1 & E & Hs1 & Hb1 & Hf1 & Hq1 & Hr).
    destruct (IH g1 xs C V Hown Hs1) as (outs & g' & C2 & E' & Hfo & Hs2); try done; [unfold queue_ok; by rewrite Hq1|intros q' Hq'; destruct (Hget q') as [Hset' Hsee']; [by right|]; split; [done|by apply (in_sight_flags q' (g_index g))]|].
    exists ((rc, g_result g1) :: outs), g', C2. split; [|split; [by split|exact Hs2]]. erewrite bind_ok by (unfold run_op; rewrite E; reflexivity). by rewrite (bind_ok _ _ _ _ _ E').
Qed.
End store.

(** C1: an index is a store.  Over any sequence of transactions, each the chain of its versions in
    a log, and lookups, from any index whose nodes hold a list of versions: nothing faults, every
    transaction adds its versions, in the node and the index in memory they belong to, and every
    lookup answers with the newest version of its key that its snapshot may see out of all that
    were there or were written, in whichever node, index or branch it is: 0 if there is none, 2
    for a deletion, 1 with the version; unless memory or a read fails.  While a node is rotated
    this is so for readers of the newest versions ([in_sight], [C34]). *)
Theorem si_store_answers `{Alloc} {St} `{!TreeOps St, !TreeLaws St} r upd {F} (cif : ssfilterif F) conf io n fuel T ops (g : gst St) xs C V :
  own_scheme (r_scheme r) → store_holds r conf fuel T (length (concat (places_of <$> ops))) (concat (places_of <$> ops)) (g_index g) xs C V → queue_ok (g_index g) xs → NoDup (concat (places_of <$> ops)) →
  Forall (bufs_ok T) (ca_path (g_cache g)) → allowed r V ops →
  (∀ q, OGet q ∈ ops → (∀ c, c ∈ C → get_setting r upd conf q io n T (nc_A c)) ∧ in_sight q (g_index g)) →
  ∃ outs g' C', run r upd cif conf io n fuel ops g = Some (outs, g') ∧ follows r (∃ c, c ∈ C ∧ read_fails (nc_A c)) V ops outs ∧
    store_holds r conf fuel T 0 [] (g_index g') xs C' (stored V ops).
Proof. intros. by eapply run_ok. Qed.

(** ** Witness: one node with a version of key 5 in memory and a branch; another version is
    written, and the key is read at two snapshots *)
Definition demo_treenodes : gmap loc ssrbnode := list_to_map [(1%positive, mk_rbnode None None None 0); (2%positive, mk_rbnode None None None 0)].
Definition demo_row (val : Z) : bytes := row [le_enc 4 5] [val].
Definition demo_svv (lsn val : Z) : svv := mk_svv lsn (blen (demo_row val)) 0 None (demo_row val).
Definition demo_memory : svindex ssrb := mk_svindex (mk_rb (Some 1%positive) demo_treenodes) 1 (blen (demo_row 52)) 12 {[1%positive := demo_svv 12 52]}.
Definition demo_empty : svindex ssrb := mk_svindex (mk_rb None demo_treenodes) 0 0 UINT64_MAX ∅.
Definition demo_storenode : sinode ssrb := mk_node 0 0 66 0 demo_qbranch [(7%nat, demo_qbranch)] 1 demo_memory demo_empty (mk_file (blen demo_rfile) (mk_os demo_rfile 0 demo_ranswers)) (mk_mmap None 0) false.
Definition demo_si : si ssrb := mk_si rq_demo_state rq_demo_state (mk_rb (Some 1%positive) demo_treenodes) 1 false 0 0 0 0 ss_bufinit sv_updateinit {[1%positive := demo_storenode]}.
Definition demo_gst : gst ssrb := mk_gst demo_si si_cacheinit None.
Definition demo_nc : ncontent := mk_nc ([], []) [[mk_sv 12 0 (demo_row 52)]] [] [demo_pagevs] demo_rfile demo_ranswers.
Definition demo_txlog : svlog (loc * svv) := mk_log [mk_logindex 0 0 0 1 0] [mk_logv (2%positive, demo_svv 30 60) None 0 UINT32_MAX].
Definition demo_ops : list op :=
  [OWrite 0 0 demo_txlog (mk_logindex 0 0 0 1 0); OGet (mk_query demo_qkey None 30 false); OGet (mk_query demo_qkey None 10 false)].
Definition demo_V : list entry := [mk_entry 12 false (demo_row 52); mk_entry 9 false (demo_row 50); mk_entry 3 false (demo_row 51); mk_entry 4 false (row [le_enc 4 7] [70])].
Definition demo_qc : qconf := mk_qconf false false.

Lemma single_tree s : rb_root s = Some 1%positive → rb_heap s = demo_treenodes → SsRbProofs.rb_ok s [1%positive].
Proof.
  intros Er Eh. exists (SsRbProofs.T SsRbProofs.Black SsRbProofs.E 1%positive SsRbProofs.E), 1%nat. split_and!; [|repeat econstructor|done].
  split; [cbn; congruence|rewrite Eh; by vm_compute|done| |done]. intros x. simpl. unfold SsRbProofs.one. repeat case_decide; subst; (lia || done).
Qed.
Lemma empty_tree s : rb_root s = None → SsRbProofs.rb_ok s [].
Proof.
  intros Er. exists SsRbProofs.E, 0%nat. split_and!; [|repeat econstructor|done]. split; [cbn; congruence|done|done| |done]. intros x. simpl. lia.
Qed.
Lemma demo_memory_ok : memory_ok demo_pagesr 20 1 [2%positive] demo_memory [[mk_sv 12 0 (demo_row 52)]].
Proof.
  split; [|cbn; split_and!; lia|cbn; lia]. exists [[1%positive]]. split.
  - split; [by apply single_tree| |apply NoDup_singleton|].
    + repeat constructor. eexists. by split.
    + split; [constructor; [by apply (chain_ok_single (scheme_cmp (r_scheme demo_pagesr)))|constructor]|repeat constructor].
  - constructor; [|constructor]. split; [cbn; set_solver|vm_compute; eexists; reflexivity].
Qed.
Lemma demo_empty_ok : memory_ok demo_pagesr 20 1 [2%positive] demo_empty [].
Proof.
  split; [|cbn; split_and!; (lia || done)|cbn; lia]. exists []. split.
  - split; [by apply empty_tree|constructor|constructor|split; constructor].
  - constructor; [|constructor]. split; [cbn; set_solver|vm_compute; eexists; reflexivity].
Qed.
(** The versions of key 5 are in descending order of lsn; key 7 has one. *)
Lemma demo_ordered : ordered (scheme_cmp (r_scheme demo_pagesr)) (nc_versions demo_nc).
Proof.
  change (nc_versions demo_nc) with [mk_sv 12 0 (demo_row 52); demo_pagev 9 0 5 50; demo_pagev 3 4 5 51; demo_pagev 4 0 7 70].
  repeat (apply SSorted_cons || constructor); try (intros _; cbn; lia); intros E; by vm_compute in E.
Qed.
Lemma demo_storenode_holds : node_holds demo_pagesr demo_qc 20 1000 1 [2%positive] demo_storenode demo_nc.
Proof.
  split; [exact demo_memory_ok|exact demo_empty_ok|done| |split; [apply NoDup_singleton|by split]|done|done|done|done|].
  - constructor; [|constructor]. exists demo_rheader, [demo_pagevs]. split_and!; [done|exact demo_branch_pages|repeat constructor|cbn; lia].
  - apply demo_ordered.
Qed.
Lemma demo_store_holds : store_holds demo_pagesr demo_qc 20 1000 1 [2%positive] demo_si [1%positive] [demo_nc] demo_V.
Proof.
  split.
  - split; [by apply single_tree|done|done|done|repeat constructor; by eexists|by left].
  - constructor; [|constructor]. exists demo_storenode. split; [done|exact demo_storenode_holds].
  - intros [|j] c a Hj _; [done|done].
  - by vm_compute.
  - repeat constructor; cbn; unfold UINT64_MAX; lia.
Qed.
Lemma demo_txlog_ok : log_ok demo_txlog.
Proof.
  split; [apply NoDup_singleton|intros v ->%list_elem_of_singleton; left| |done]. intros i ->%list_elem_of_singleton. split_and!; [|done..]. split; [|done]. eexists. by split.
Qed.
(** A version that is newer than all others of its key that a reader may see is the answer. *)
Lemma replies_with cmp V key vlsn rc res e : e ∈ V → cmp (e_row e) key = 0 → e_lsn e <= vlsn → e_deleted e = false → (∀ e', e' ∈ V → cmp (e_row e') key = 0 → e_lsn e' <= vlsn → e' = e ∨ e_lsn e' < e_lsn e) → replies cmp V key vlsn rc res →
  rc = 1 ∧ ∃ v, res = Some v ∧ entry_of v = e.
Proof.
  intros He Ek El Ed Hmax ([w|] & Hw & Hr); [|specialize (Hw e He Ek); lia]. destruct Hw as (Hw & Ewk & Ewl & Hm). destruct (Hmax w Hw Ewk Ewl) as [->|Hlt]; [by rewrite Ed in Hr|]. specialize (Hm e He Ek El). lia.
Qed.
Lemma demo_replies vlsn rc res e : (vlsn = 30 ∧ e = mk_entry 30 false (demo_row 60)) ∨ (vlsn = 10 ∧ e = mk_entry 9 false (demo_row 50)) →
  replies (scheme_cmp (r_scheme demo_pagesr)) (mk_entry 30 false (demo_row 60) :: demo_V) demo_qkey vlsn rc res → rc = 1 ∧ ∃ v, res = Some v ∧ entry_of v = e.
Proof.
  intros He. apply replies_with.
  - unfold demo_V. destruct He as [[_ ->]|[_ ->]]; set_solver.
  - destruct He as [[_ ->]|[_ ->]]; by vm_compute.
  - destruct He as [[-> ->]|[-> ->]]; cbn; lia.
  - by destruct He as [[_ ->]|[_ ->]].
  - intros e' He' Ek El. unfold demo_V in He'. rewrite !elem_of_cons in He'. destruct He as [[-> ->]|[-> ->]], He' as [->|[->|[->|[->|[->|He']]]]]; try (by apply not_elem_of_nil in He'); cbn in El |- *; try lia; (by left) || (right; lia) || by vm_compute in Ek.
Qed.
Lemma demo_allowed : allowed demo_pagesr demo_V demo_ops.
Proof.
  split; [exact demo_txlog_ok|]. split; [left|]. split; [|done]. split; [|done]. split; [done|done|cbn; unfold UINT64_MAX; lia| |].
  - repeat constructor. eexists _, _. split; [reflexivity|]. split; [reflexivity|]. split; [vm_compute; reflexivity|cbn; lia].
  - intros e He _. unfold demo_V in He. rewrite !elem_of_cons in He. destruct He as [->|[->|[->|[->|He]]]]; [cbn; lia..|by apply not_elem_of_nil in He].
Qed.
Lemma demo_gets q : OGet q ∈ demo_ops → (∀ c, c ∈ [demo_nc] → get_setting demo_pagesr demo_upd demo_qc q 5 2 1000 (nc_A c)) ∧ in_sight q demo_si.
Proof.
  intros Hq. unfold demo_ops in Hq. rewrite !elem_of_cons in Hq. split.
  - intros c ->%list_elem_of_singleton. destruct Hq as [[=]|[[= ->]|[[= ->]|Hq]]]; [apply demo_qsetting|apply demo_qsetting|by apply not_elem_of_nil in Hq].
  - left. intros x node. cbn [demo_si s_nodes]. by intros [<- <-]%lookup_singleton_Some.
Qed.
Lemma follows_two r fails V vlsn time l li q1 q2 outs : follows r fails V [OWrite vlsn time l li; OGet q1; OGet q2] outs → ∃ rc1 r1 rc2 r2, outs = [(rc1, r1); (rc2, r2)] ∧
  (replies (scheme_cmp (r_scheme r)) (after (logged l li) V) (q_key q1) (q_vlsn q1) rc1 r1 ∨ fails) ∧ (replies (scheme_cmp (r_scheme r)) (after (logged l li) V) (q_key q2) (q_vlsn q2) rc2 r2 ∨ fails).
Proof.
  cbn [follows]. destruct outs as [|[rc1 r1] outs]; [by intros []|]. intros [H1 Hf]. destruct outs as [|[rc2 r2] outs]; [by destruct Hf|]. destruct Hf as [H2 ->]. by exists rc1, r1, rc2, r2.
Qed.
Lemma demo_after : after (logged demo_txlog (mk_logindex 0 0 0 1 0)) demo_V = mk_entry 30 false (demo_row 60) :: demo_V.
Proof. reflexivity. Qed.
Lemma demo_nofail P : P ∨ (∃ c, c ∈ [demo_nc] ∧ read_fails (H := demo_alloc) (nc_A c)) → P.
Proof. intros [HP|(c & ->%list_elem_of_singleton & Hc)]; [done|by destruct demo_reads_well]. Qed.
Lemma si_store_answers_witness : ∃ g' v1 v2, run (H := demo_alloc) demo_pagesr demo_upd ss_nonefilter demo_qc 5 2 20 demo_ops demo_gst = Some ([(1, Some v1); (1, Some v2)], g') ∧
  entry_of v1 = mk_entry 30 false (demo_row 60) ∧ entry_of v2 = mk_entry 9 false (demo_row 50).
Proof.
  destruct (si_store_answers (H := demo_alloc) demo_pagesr demo_upd ss_nonefilter demo_qc 5 2 20 1000 demo_ops demo_gst [1%positive] [demo_nc] demo_V) as (outs & g' & C' & E & Hf & _).
  - split; reflexivity.
  - exact demo_store_holds.
  - exists [[]; [1%positive; 3%positive]; []; [2%positive]]. split; [exact rq_demo_rep|]. split; [intros x ->%list_elem_of_singleton; cbn; set_solver|cbn; lia].
  - apply NoDup_singleton.
  - constructor.
  - exact demo_allowed.
  - exact demo_gets.
  - destruct (follows_two _ _ _ _ _ _ _ _ _ _ Hf) as (rc1 & r1 & rc2 & r2 & -> & H1%demo_nofail & H2%demo_nofail). rewrite demo_after in H1, H2.
    destruct (demo_replies 30 rc1 r1 _ (or_introl (conj eq_refl eq_refl)) H1) as (-> & v1 & -> & E1). destruct (demo_replies 10 rc2 r2 _ (or_intror (conj eq_refl eq_refl)) H2) as (-> & v2 & -> & E2).
    exists g', v1, v2. split; [exact E|]. split; [exact E1|exact E2].
Defined.
