(* ===== verification/SdScheme.v ===== *)
(** Files of settings, sd_scheme.h, sd_scheme.c and sd_schemeiter.h: a header with a checksum
    and a list of settings, written to a file of its own and read back. *)
From stdpp Require Import base list.
From S2P Require Import Prelude Sv SsOrder SsBytes SsCrc SsBuf SrScheme SdBuild SsFile.
Local Open Scope Z_scope.
Local Open Scope c_scope.

(** * A file by its name

    ss_file.h and ss_file.c: opening, closing and asking for the size.  One name is looked at:
    whether a file has it, whether the program has it open, and the file, which is empty when
    none has the name. *)
Record namedfile := mk_named { nf_exists : bool; nf_open : bool; nf_file : ssfile }.
Definition on_named {A} : cmd ssfile A → cmd namedfile A := lift nf_file (λ f s, mk_named (nf_exists s) (nf_open s) f).
Definition named_answer : cmd namedfile bool := on_named (on_os sys_answer).
(** [ss_fileinit] for a file to be opened, and [open] itself: the position is the start, and what
    the file has stays, for there is no [O_TRUNC]. *)
Definition named_opened (s : namedfile) : namedfile :=
  mk_named true true (mk_file 0 (mk_os (o_data (fl_os (nf_file s))) 0 (o_answers (fl_os (nf_file s))))).
Definition named_closed (s : namedfile) : namedfile := mk_named (nf_exists s) false (nf_file s).
Definition nmodify (h : namedfile → namedfile) : cmd namedfile () := λ s, Some ((), h s).
(** [lstat]: the size, or -1. *)
Definition ss_filesize : cmd namedfile Z :=
  let! ok := named_answer in
  let! s := cget in
  cret (if ok && nf_exists s then Z.of_nat (length (o_data (fl_os (nf_file s)))) else -1).
Section open.
Context `{Alloc}.
Definition ss_fileopenas (path : bytes) (creat : bool) : cmd namedfile Z :=
  let! ok := named_answer in
  let! s := cget in
  if negb (ok && (nf_exists s || creat)) then cret (-1) else
  nmodify named_opened;;;
  let err := let! _ := named_answer in nmodify named_closed;;; cret (-1) in
  match ss_strdup path with
  | None => err
  | Some _ =>
      if creat then cret 0 else
      let! size := ss_filesize in
      if Z.eqb size (-1) then err else
      on_named (fmodify (with_size size));;; cret 0
  end.
Definition ss_fileopen (path : bytes) : cmd namedfile Z := ss_fileopenas path false.
Definition ss_filenew (path : bytes) : cmd namedfile Z := ss_fileopenas path true.
Definition named_close : cmd namedfile Z :=
  let! s := cget in
  if nf_open s then
    let! ok := named_answer in
    if ok : bool then nmodify named_closed;;; cret 0 else cret (-1)
  else cret 0.

(** * Building *)

Definition sizeof_sdschemeheader : nat := 12.
Definition sizeof_sdschemeopt : nat := 6.
Definition sstype_code (t : sstype) : Z :=
  match t with
  | SS_UNDEF => 0 | SS_STRING => 1 | SS_STRINGPTR => 2 | SS_U32 => 3 | SS_U64 => 4 | SS_I64 => 5 | SS_OBJECT => 6 | SS_FUNCTION => 7
  end.
(** [uint8_t type, id; uint32_t size] *)
Definition opt_head (type : sstype) (id size : Z) : bytes := [u8 (sstype_code type); u8 id] ++ le_enc 4 (u32 size).

Definition sd_schemebegin : cmd ssbuf Z :=
  let! rc := ss_bufensure (Z.of_nat sizeof_sdschemeheader) in
  if Z.eqb rc (-1) then cret (-1) else
  buf_copy 0 (replicate sizeof_sdschemeheader 0);;;
  ss_bufadvance sizeof_sdschemeheader;;;
  cret 0.
(** A field of the header, [off] bytes into it. *)
Definition header_get (off : nat) : cmd ssbuf Z := cread (λ b, load_le off 4 (b_mem b)).
Definition header_set (off : nat) (v : Z) : cmd ssbuf () := buf_copy off (le_enc 4 (u32 v)).
Definition sd_schemeadd (id : Z) (type : sstype) (value : bytes) : cmd ssbuf Z :=
  let! rc := ss_bufadd (opt_head type id (Z.of_nat (length value))) in
  if Z.eqb rc (-1) then cret (-1) else
  let! rc := ss_bufadd value in
  if Z.eqb rc (-1) then cret (-1) else
  let! count := header_get 8 in
  header_set 8 (count + 1);;;
  cret 0.

(** * The checksum, the file and the iterator *)

(** [r->crc], and the turns of the loops around the system calls. *)
Context (crcf : Z → bytes → Z) (io : nat).
Definition sd_schemecommit : cmd ssbuf Z :=
  let! b := cget in
  if Z.eqb (ss_bufused b) 0 then cret 0 else
  header_set 4 (ss_bufused b - Z.of_nat sizeof_sdschemeheader);;;
  let! b := cget in
  let! h := cread (λ b, mem_read 0 (b_p b) (b_mem b)) in
  header_set 0 (ss_crcs crcf h 0);;;
  cret 0.
(** [bs]: the bytes of the buffer. *)
Definition sd_schemewrite (bs : bytes) (path : bytes) (sync : bool) : cmd namedfile Z :=
  let error := let! _ := named_close in cret (-1) in
  let! rc := ss_filenew path in
  if Z.eqb rc (-1) then error else
  let! rc := on_named (ss_filewrite io bs) in
  if Z.eqb rc (-1) then error else
  let! rc := (if sync then on_named ss_filesync else cret 0) in
  if Z.eqb rc (-1) then error else
  let! rc := named_close in
  if Z.eqb rc (-1) then error else
  cret 0.
(** The buffer and the file together.  What a read that failed leaves in the unused room of the
    buffer, which is freed, is left out. *)
Definition on_schemebuf {A} : cmd ssbuf A → cmd (ssbuf * namedfile) A := lift fst (λ b s, (b, s.2)).
Definition on_schemefile {A} : cmd namedfile A → cmd (ssbuf * namedfile) A := lift snd (λ f s, (s.1, f)).
Definition sd_schemerecover (path : bytes) : cmd (ssbuf * namedfile) Z :=
  let! size := on_schemefile ss_filesize in
  if Z.eqb size (-1) then cret (-1) else
  if Z.ltb (u32 size) (Z.of_nat sizeof_sdschemeheader) then cret (-1) else
  let! rc := on_schemebuf (ss_bufensure (i32 size)) in
  if Z.eqb rc (-1) then cret (-1) else
  let! rc := on_schemefile (ss_fileopen path) in
  if Z.eqb rc (-1) then cret (-1) else
  let! got := on_schemefile (on_named (ss_filepread io 0 (Z.to_nat size))) in
  match got with
  | None => cret (-1)
  | Some bs =>
      on_schemebuf (buf_copy 0 bs);;;
      let! rc := on_schemefile named_close in
      if Z.eqb rc (-1) then cret (-1) else
      on_schemebuf (ss_bufadvance (Z.to_nat (i32 size)));;;
      cret 0
  end.

(** The place of the iterator in the buffer; [None] is NULL. *)
Definition sd_schemeiter_open (validate : bool) (b : ssbuf) : option (Z * option nat) :=
  bad ← (if validate then
           h ← mem_read 0 (b_p b) (b_mem b);
           crc ← load_le 0 4 h;
           Some (negb (Z.eqb crc (ss_crcs crcf h 0)))
         else Some false);
  Some (if bad : bool then (-1, None) else (0, Some sizeof_sdschemeheader)).
Definition sd_schemeiter_has (i : option nat) (b : ssbuf) : bool := match i with Some p => (p <? b_p b)%nat | None => true end.
Definition sd_schemeiter_of (i : option nat) (b : ssbuf) : option nat := if sd_schemeiter_has i b then i else None.
Definition sd_schemeiter_next (i : option nat) (b : ssbuf) : option (option nat) :=
  if sd_schemeiter_has i b then
    p ← i;
    size ← load_le (p + 2) 4 (b_mem b);
    Some (Some (p + sizeof_sdschemeopt + Z.to_nat size)%nat)
  else Some i.
(** The parts of a setting: it must be of the type asked for. *)
Definition opt_id (p : nat) (b : ssbuf) : option Z := b_mem b !! (p + 1)%nat.
Definition opt_size (p : nat) (b : ssbuf) : option Z := load_le (p + 2) 4 (b_mem b).
Definition opt_is (t : sstype) (p : nat) (b : ssbuf) : option () := c ← b_mem b !! p; if Z.eqb c (sstype_code t) then Some () else None.
(** Where the string is. *)
Definition sd_schemesz (p : nat) (b : ssbuf) : option nat := _ ← opt_is SS_STRING p b; Some (p + sizeof_sdschemeopt)%nat.
Definition sd_schemeu32 (p : nat) (b : ssbuf) : option Z := _ ← opt_is SS_U32 p b; load_le (p + sizeof_sdschemeopt) 4 (b_mem b).
Definition sd_schemeu64 (p : nat) (b : ssbuf) : option Z := _ ← opt_is SS_U64 p b; load_le (p + sizeof_sdschemeopt) 8 (b_mem b).
End open.

(** * The bytes of a file of settings *)

Record setting := mk_setting { st_id : Z; st_type : sstype; st_value : bytes }.
Definition setting_enc (s : setting) : bytes := opt_head (st_type s) (st_id s) (Z.of_nat (length (st_value s))) ++ st_value s.
Definition settings_enc (l : list setting) : bytes := concat (setting_enc <$> l).
Definition scheme_head (crc size count : Z) : bytes := le_enc 4 crc ++ le_enc 4 size ++ le_enc 4 count.
(** All but the checksum, and the file. *)
Definition scheme_rest (l : list setting) : bytes := le_enc 4 (Z.of_nat (length (settings_enc l))) ++ le_enc 4 (Z.of_nat (length l)) ++ settings_enc l.
Definition scheme_file (l : list setting) : bytes := le_enc 4 (crc32c 0 (scheme_rest l)) ++ scheme_rest l.
Definition setting_ok (s : setting) : Prop := in_u 8 (st_id s) ∧ Forall is_byte (st_value s) ∧ Z.of_nat (length (st_value s)) < 2 ^ 32.

Lemma setting_enc_length s : length (setting_enc s) = (6 + length (st_value s))%nat.
Proof. unfold setting_enc, opt_head. rewrite !length_app, le_enc_length. done. Qed.
Lemma settings_enc_snoc l s : settings_enc (l ++ [s]) = settings_enc l ++ setting_enc s.
Proof. unfold settings_enc. rewrite fmap_app, concat_app. cbn. by rewrite app_nil_r. Qed.
Lemma settings_count l : (6 * length l <= length (settings_enc l))%nat.
Proof. induction l as [|s l IH]; [done|]. unfold settings_enc in *. cbn [fmap list_fmap concat length]. rewrite length_app, setting_enc_length. lia. Qed.
Lemma scheme_head_length a b c : length (scheme_head a b c) = 12%nat.
Proof. reflexivity. Qed.
Lemma scheme_rest_length l : length (scheme_rest l) = (8 + length (settings_enc l))%nat.
Proof. unfold scheme_rest. by rewrite !length_app, !le_enc_length. Qed.
Lemma scheme_file_length l : length (scheme_file l) = (12 + length (settings_enc l))%nat.
Proof. unfold scheme_file. by rewrite length_app, scheme_rest_length, le_enc_length. Qed.
Lemma scheme_file_head l : scheme_file l = scheme_head (crc32c 0 (scheme_rest l)) (Z.of_nat (length (settings_enc l))) (Z.of_nat (length l)) ++ settings_enc l.
Proof. unfold scheme_file, scheme_rest, scheme_head. by rewrite <- !app_assoc. Qed.
Lemma type_byte t : is_byte (sstype_code t).
Proof. unfold in_u. destruct t; cbn; lia. Qed.
Lemma settings_bytes l : Forall setting_ok l → Forall is_byte (settings_enc l).
Proof.
  intros Hl. unfold settings_enc. rewrite Forall_concat, Forall_fmap. eapply Forall_impl; [exact Hl|]. intros s (Hi & Hv & _).
  unfold compose, setting_enc, opt_head. rewrite !Forall_app. split_and!; [|apply le_enc_bytes|done]. repeat constructor; apply wrap_in_u; lia.
Qed.
Lemma rest_bytes l : Forall setting_ok l → Forall is_byte (scheme_rest l).
Proof. intros Hl. unfold scheme_rest. rewrite !Forall_app. split_and!; [apply le_enc_bytes|apply le_enc_bytes|by apply settings_bytes]. Qed.
Lemma rest_crc l : Forall setting_ok l → is_u32 (crc32c 0 (scheme_rest l)).
Proof. intros Hl. apply crc32c_u32; [by apply rest_bytes|done]. Qed.

(** * Building a file *)

Lemma buf_used b : buf_ok b → ss_bufused b = Z.of_nat (length (content b)).
Proof. intros Hok. by rewrite content_length. Qed.
Lemma scheme_content_at b u o w : content b = u ++ o ++ w → mem_at (b_mem b) (length u) o.
Proof. intros E. exists u, (w ++ drop (b_p b) (b_mem b)). split; [|done]. rewrite <- (take_drop (b_p b) (b_mem b)) at 1. fold (content b). by rewrite E, <- !app_assoc. Qed.
Lemma content_read b : buf_ok b → mem_read 0 (b_p b) (b_mem b) = Some (content b).
Proof. intros Hok. rewrite <- (content_length b Hok). apply mem_at_read. apply (scheme_content_at b [] (content b) []). by rewrite app_nil_r. Qed.
Lemma header_set_ok T b off u o w v : buf_cap T b → content b = u ++ o ++ w → length u = off → length o = 4%nat →
  wp (header_set off v) b (λ _ b', buf_cap T b' ∧ content b' = u ++ le_enc 4 (u32 v) ++ w).
Proof.
  intros [Hok Hsz] Hc <- Ho. unfold header_set. eapply wp_mono; [apply (buf_copy_ok b _ o); [done|by eapply scheme_content_at|by rewrite le_enc_length]|].
  intros [] b' (Hok' & Hp & _ & Hl & _ & Hat & Ht & Hd). split; [split; [done|by unfold ss_bufsize in *; rewrite Hl]|].
  apply (bufset_content b b' (length u) u o); (done || by rewrite le_enc_length).
Qed.

Section build.
Context `{Alloc} (T : Z).
Abbreviation refused := (∃ n, ss_malloc n = None).
(** A file in the making: without its checksum and size. *)
Definition making (b : ssbuf) (l : list setting) : Prop := buf_cap T b ∧ content b = scheme_head 0 0 (Z.of_nat (length l)) ++ settings_enc l.
Hypothesis HT : 4 * T <= INT_MAX.

Lemma schemebegin_ok : 12 <= T → wp sd_schemebegin ss_bufinit (λ rc b, (rc = -1 ∧ refused) ∨ (rc = 0 ∧ making b [])).
Proof.
  intros H12. unfold sd_schemebegin. apply wp_bind. eapply wp_mono; [apply (ensure_cap T); [done|split; [by split|change (0 <= 2 * T); lia]|done|change (0 + 12 <= T); lia]|].
  intros rc b [(-> & _ & Hr)|(-> & Hcap & Hc & Hroom)]; [by left|]. cbn [Z.eqb]. assert (b_p b = 0%nat) as Hp by (rewrite <- (content_length b) by apply Hcap; by rewrite Hc).
  pose proof (copy_advance_ok T b (replicate sizeof_sdschemeheader 0) Hcap Hroom) as Hw. unfold copy_advance in Hw. unfold wp, cbind, cget in *. rewrite Hp in Hw.
  destruct (buf_copy 0 (replicate sizeof_sdschemeheader 0) b) as [[[] b1]|]; [|done].
  change (length (replicate sizeof_sdschemeheader 0)) with sizeof_sdschemeheader in Hw. destruct (ss_bufadvance sizeof_sdschemeheader b1) as [[[] b2]|]; [|done]. cbv [cret]. right. split; [done|]. destruct Hw as (H1 & H2 & _). split; [done|].
  rewrite H2, Hc. reflexivity.
Qed.
Lemma schemeadd_ok b l s : making b l → setting_ok s → 12 + Z.of_nat (length (settings_enc (l ++ [s]))) <= T →
  wp (sd_schemeadd (st_id s) (st_type s) (st_value s)) b (λ rc b', (rc = -1 ∧ refused) ∨ (rc = 0 ∧ making b' (l ++ [s]))).
Proof.
  intros [Hcap Hc] (Hi & Hv & Hl) Hs. rewrite settings_enc_snoc, length_app, setting_enc_length in Hs. pose proof (settings_count l) as Hcount.
  unfold sd_schemeadd. set (h := opt_head _ _ _). assert (length h = 6%nat) as Hh by (unfold h, opt_head; by rewrite length_app, le_enc_length).
  apply wp_bind. eapply wp_mono; [apply (bufadd_cap T); [done|done|]|].
  { rewrite buf_used, Hc, length_app, scheme_head_length, Hh by apply Hcap. lia. }
  intros rc b1 [(-> & _ & Hr)|(-> & Hcap1 & Hc1)]; [by left|]. cbn [Z.eqb]. apply wp_bind. eapply wp_mono; [apply (bufadd_cap T); [done|done|]|].
  { rewrite buf_used, Hc1, Hc, !length_app, scheme_head_length, Hh by apply Hcap1. lia. }
  intros rc b2 [(-> & _ & Hr)|(-> & Hcap2 & Hc2)]; [by left|]. cbn [Z.eqb].
  assert (content b2 = (le_enc 4 0 ++ le_enc 4 0) ++ le_enc 4 (Z.of_nat (length l)) ++ settings_enc l ++ setting_enc s) as E2.
  { rewrite Hc2, Hc1, Hc. unfold scheme_head, setting_enc. fold h. by rewrite <- !app_assoc. }
  apply wp_bind. unfold header_get, cread, wp at 1. rewrite (load_le_at _ 8 4 (Z.of_nat (length l)) (scheme_content_at b2 _ _ _ E2)) by (change (256 ^ Z.of_nat 4) with 4294967296; unfold INT_MAX in *; lia).
  apply wp_bind. eapply wp_mono; [by eapply (header_set_ok T)|]. intros [] b3 [Hcap3 Hc3]. apply wp_ret. right. split; [done|]. split; [done|].
  rewrite Hc3, settings_enc_snoc, length_app, Nat2Z.inj_add, wrap_id by (unfold in_u, INT_MAX in *; cbn; lia). unfold scheme_head. by rewrite <- !app_assoc.
Qed.
Lemma schemecommit_ok b l : making b l → Forall setting_ok l → wp (sd_schemecommit crc32c) b (λ rc b', rc = 0 ∧ buf_cap T b' ∧ content b' = scheme_file l).
Proof.
  intros [Hcap Hc] Hl. pose proof (buf_used b (proj1 Hcap)) as Hu. rewrite Hc, length_app, scheme_head_length in Hu. destruct Hcap as [Hok Hsz].
  assert (ss_bufused b <= ss_bufsize b) as Hle by (destruct Hok; unfold ss_bufused, ss_bufsize; lia).
  unfold sd_schemecommit. apply wp_bind. unfold cget, wp at 1; cbv beta iota. destruct (Z.eqb_spec (ss_bufused b) 0); [lia|]. apply wp_bind.
  eapply wp_mono; [apply (header_set_ok T b 4 (le_enc 4 0) (le_enc 4 0) (le_enc 4 (Z.of_nat (length l)) ++ settings_enc l)); [done| |done|done]|].
  { rewrite Hc. unfold scheme_head. by rewrite <- !app_assoc. }
  intros [] b1 [Hcap1 Hc1]. assert (u32 (ss_bufused b - Z.of_nat sizeof_sdschemeheader) = Z.of_nat (length (settings_enc l))) as Es.
  { rewrite Hu, wrap_id by (unfold in_u, INT_MAX, sizeof_sdschemeheader in *; lia). unfold sizeof_sdschemeheader. lia. }
  rewrite Es in Hc1. change (content b1 = le_enc 4 0 ++ scheme_rest l) in Hc1. apply wp_bind. unfold cget, wp at 1; cbv beta iota.
  apply wp_bind. unfold cread, wp at 1. rewrite content_read by apply Hcap1. apply wp_bind.
  eapply wp_mono; [apply (header_set_ok T b1 0 [] (le_enc 4 0) (scheme_rest l)); done|]. intros [] b2 [Hcap2 Hc2]. apply wp_ret. split_and!; [done|done|].
  rewrite Hc2, Hc1. unfold scheme_file, ss_crcs. rewrite drop_app_length' by done. by rewrite wrap_id by (by apply rest_crc).
Qed.
End build.

(** * The file *)

(** No system call fails, is interrupted or does nothing. *)
Definition smooth (l : list answer) : Prop := Forall (λ a, ∃ n, a = ACount (S n)) l.
Definition nf_data (f : namedfile) : bytes := o_data (fl_os (nf_file f)).
Definition nf_answers (f : namedfile) : list answer := o_answers (fl_os (nf_file f)).
Lemma smooth_suffix l l' : l' `suffix_of` l → ¬ smooth l' → ¬ smooth l.
Proof. intros [k ->] Hn [_ H]%Forall_app. done. Qed.
Lemma stalls_smooth l : stalls l → ¬ smooth l.
Proof. unfold stalls, smooth. rewrite Forall_forall. intros [Hs|Hs] Hl; destruct (Hl _ Hs) as [n E]; done. Qed.
(** What the calls leave of a file: it has its bytes, and answers may be used up. *)
Definition kept (f f' : namedfile) : Prop := nf_data f' = nf_data f ∧ nf_answers f' `suffix_of` nf_answers f.
#[export] Instance kept_preorder : PreOrder kept.
Proof. split; [by intros f|]. intros f g h [E1 S1] [E2 S2]. split; [congruence|by trans (nf_answers g)]. Qed.
Lemma kept_smooth f g : kept f g → ¬ smooth (nf_answers g) → ¬ smooth (nf_answers f).
Proof. intros [_ Hs]. by apply smooth_suffix. Qed.
(** A call answers that it worked, or there was no smooth run of the calls. *)
Lemma named_answer_ok f (Q : bool → namedfile → Prop) :
  (∀ ok f', kept f f' → nf_exists f' = nf_exists f → nf_open f' = nf_open f → ok = true ∨ ¬ smooth (nf_answers f) → Q ok f') → wp named_answer f Q.
Proof.
  destruct f as [e op [sz [d p l]]]. unfold wp, named_answer, on_named, lift, on_os, sys_answer, cbind, os_answer, kept, nf_answers, nf_data. cbn [nf_file fl_os o_answers o_data o_pos nf_exists nf_open].
  intros HQ. destruct l as [|[| |n] l]; cbn; apply HQ; try done; cbn; try (split; (done || by apply suffix_cons_r)); try (by left); right; intros [[n E] _]%Forall_cons; done.
Qed.
Lemma filesize_ok f (Q : Z → namedfile → Prop) : nf_exists f = true →
  (∀ size f', kept f f' → nf_exists f' = true → size = Z.of_nat (length (nf_data f)) ∨ size = -1 ∧ ¬ smooth (nf_answers f) → Q size f') → wp ss_filesize f Q.
Proof.
  intros He HQ. apply wp_bind, named_answer_ok. intros ok f' Hk Ee _ Hok. apply wp_bind. unfold cget, wp at 1; cbv beta iota. apply wp_ret. rewrite Ee, He.
  pose proof (proj1 Hk) as Ed. unfold nf_data in Ed at 1. rewrite Ed. apply HQ; [done|congruence|]. destruct ok; [by left|right]. by destruct Hok.
Qed.
Section file.
Context `{Alloc} (io : nat).
Abbreviation refused := (∃ n, ss_malloc n = None).
Abbreviation fails f := (refused ∨ ¬ smooth (nf_answers f)).
Lemma close_ok f (Q : Z → namedfile → Prop) : (∀ rc f', kept f f' → nf_exists f' = nf_exists f → rc = 0 ∨ rc = -1 ∧ ¬ smooth (nf_answers f) → Q rc f') → wp named_close f Q.
Proof.
  intros HQ. unfold named_close. apply wp_bind. unfold cget, wp at 1; cbv beta iota. destruct (nf_open f); [|apply wp_ret, HQ; by auto].
  apply wp_bind, named_answer_ok. intros ok f' Hk Ee _ Hok. destruct ok; [by apply HQ; auto|]. apply wp_ret, HQ; [done|done|right]. by destruct Hok.
Qed.
Lemma open_error_ok f (Q : Z → namedfile → Prop) : (∀ f', kept f f' → Q (-1) f') → wp (let! _ := named_answer in nmodify named_closed;;; cret (-1)) f Q.
Proof. intros HQ. apply wp_bind, named_answer_ok. intros ok f' Hk _ _ _. apply (HQ (named_closed f')). exact Hk. Qed.
(** Whichever way the file is opened: it is there with what it had, at its start. *)
Lemma openas_ok path creat f : nf_exists f = true ∨ creat = true → wp (ss_fileopenas path creat) f (λ rc f', kept f f' ∧
  (rc = -1 ∧ fails f ∨ rc = 0 ∧ nf_exists f' = true ∧ (creat = true → o_pos (fl_os (nf_file f')) = 0%nat))).
Proof.
  intros He. unfold ss_fileopenas. apply wp_bind, named_answer_ok. intros ok f1 Hk Ee _ Hok. apply wp_bind. unfold cget, wp at 1; cbv beta iota. rewrite Ee.
  destruct ok; [|apply wp_ret; split; [done|left]; split; [done|right]; by destruct Hok]. assert (nf_exists f || creat = true) as -> by (by destruct He as [->| ->]; rewrite ?orb_true_r).
  cbn [negb andb]. apply wp_bind. unfold nmodify, wp at 1; cbv beta iota. assert (kept f (named_opened f1)) as Hk1 by exact Hk.
  destruct (ss_strdup path) eqn:Ep; cycle 1.
  { apply open_error_ok. intros f2 Hk2. split; [by trans (named_opened f1)|]. left. split; [done|left]. unfold ss_strdup in Ep. exists (length path + 1)%nat. by destruct (ss_malloc _). }
  destruct creat; [apply wp_ret; split; [done|by right]|]. apply wp_bind, filesize_ok; [done|]. intros size f2 Hk2 Ee2 Hsz. assert (kept f f2) as Hk3 by (by trans (named_opened f1)).
  destruct (Z.eqb_spec size (-1)) as [->|Hne].
  { apply open_error_ok. intros f3 Hk4. split; [by trans f2|]. left. split; [done|right]. eapply kept_smooth; [exact Hk1|]. destruct Hsz; [lia|tauto]. }
  apply wp_bind. unfold wp at 1, on_named, lift, fmodify; cbv beta iota. apply wp_ret. split; [exact Hk3|right]. by split_and!.
Qed.
Lemma on_named_wp {A} (m : cmd ssfile A) f (Q : A → namedfile → Prop) : wp m (nf_file f) (λ a x, Q a (mk_named (nf_exists f) (nf_open f) x)) → wp (on_named m) f Q.
Proof. unfold wp, on_named, lift. by destruct (m (nf_file f)) as [[a x]|]. Qed.
Lemma sync_ok (sync : bool) f (Q : Z → namedfile → Prop) : (∀ rc f', kept f f' → nf_exists f' = nf_exists f → rc = 0 ∨ rc = -1 ∧ ¬ smooth (nf_answers f) → Q rc f') →
  wp (if sync then on_named ss_filesync else cret 0) f Q.
Proof.
  intros HQ. destruct sync; [|apply wp_ret, HQ; by auto]. assert (wp named_answer f (λ ok, Q (if ok : bool then 0 else -1))) as Hw.
  { apply named_answer_ok. intros ok f' Hk Ee _ Hok. destruct ok; [by apply HQ; auto|]. apply HQ; [done|done|right]. by destruct Hok. }
  unfold wp, named_answer, on_named, lift, ss_filesync, cbind, cret in *. by destruct (on_os sys_answer (nf_file f)) as [[ok x]|].
Qed.
(** The bytes are written over the start of what the file had; on an error the file has been
    written in part at most. *)
Lemma schemewrite_ok bs path sync f : bs ≠ [] → (length (nf_answers f) < io)%nat →
  wp (sd_schemewrite io bs path sync) f (λ rc f', nf_answers f' `suffix_of` nf_answers f ∧
    (rc = -1 ∧ fails f ∨ rc = 0 ∧ nf_exists f' = true ∧ nf_data f' = overwrite 0 bs (nf_data f))).
Proof.
  intros Hb Hio. assert (∀ g, nf_answers g `suffix_of` nf_answers f → fails f → wp (let! _ := named_close in cret (-1)) g (λ rc f', nf_answers f' `suffix_of` nf_answers f ∧
    (rc = -1 ∧ fails f ∨ rc = 0 ∧ nf_exists f' = true ∧ nf_data f' = overwrite 0 bs (nf_data f)))) as Herr.
  { intros g Hg Hf. apply wp_bind, close_ok. intros rc g' [_ Hs] _ _. apply wp_ret. split; [by trans (nf_answers g)|by left]. }
  unfold sd_schemewrite. apply wp_bind. eapply wp_mono; [apply openas_ok; by right|]. intros rc f1 [Hk1 [[-> Hf]|(-> & Ee1 & Hp1)]]; [apply Herr; [apply Hk1|done]|]. cbn [Z.eqb].
  specialize (Hp1 eq_refl). destruct (Hk1) as [Ed1 Hs1]. pose proof (suffix_length _ _ Hs1) as Hl1. apply wp_bind, on_named_wp, wp_run.
  destruct (filewrite_ok io bs (nf_file f1)) as (rc & x & E & HE); [unfold os_ok; lia|unfold nf_answers in *; lia|done|]. exists rc, x. split; [exact E|].
  destruct HE as [(-> & (Ed & _ & Hs) & _)|(-> & Hst & (k & Ed & _ & Hs) & _)].
  2: { apply Herr; [by trans (nf_answers f1)|]. right. eapply kept_smooth; [exact Hk1|]. by apply stalls_smooth. }
  cbn [Z.eqb]. apply wp_bind, sync_ok. intros rc f2 [Ed2 Hs2] Ee2 Hrc. assert (nf_answers f2 `suffix_of` nf_answers f) as Hs3 by (etrans; [exact Hs2|]; by trans (nf_answers f1)).
  assert (∀ g : namedfile, ¬ smooth (nf_answers g) → nf_answers g `suffix_of` nf_answers f → fails f) as Hfail by (intros g Hn Hg; right; by eapply smooth_suffix).
  destruct Hrc as [->|[-> Hn]]; [|apply Herr; [done|]; eapply Hfail; [exact Hn|by trans (nf_answers f1)]]. cbn [Z.eqb]. apply wp_bind, close_ok. intros rc f3 [Ed3 Hs4] Ee3 Hrc.
  destruct Hrc as [->|[-> Hn]]; [|apply Herr; [by trans (nf_answers f2)|by eapply Hfail]]. apply wp_ret. split; [by trans (nf_answers f2)|right]. split_and!; [done|by rewrite Ee3, Ee2|].
  rewrite Ed3, Ed2. unfold nf_data in *. cbn [nf_file]. by rewrite Ed, Hp1, Ed1.
Qed.

(** Reading: the buffer has all bytes of the file. *)
Lemma on_schemefile_wp {A} (m : cmd namedfile A) b f (Q : A → ssbuf * namedfile → Prop) : wp m f (λ a x, Q a (b, x)) → wp (on_schemefile m) (b, f) Q.
Proof. unfold wp, on_schemefile, lift. cbn. by destruct (m f) as [[a x]|]. Qed.
Lemma on_schemebuf_wp {A} (m : cmd ssbuf A) b f (Q : A → ssbuf * namedfile → Prop) : wp m b (λ a x, Q a (x, f)) → wp (on_schemebuf m) (b, f) Q.
Proof. unfold wp, on_schemebuf, lift. cbn. by destruct (m b) as [[a x]|]. Qed.
Lemma schemerecover_ok path f : nf_exists f = true → (length (nf_answers f) < io)%nat → (12 <= length (nf_data f))%nat → 4 * Z.of_nat (length (nf_data f)) <= INT_MAX →
  wp (sd_schemerecover io path) (ss_bufinit, f) (λ rc s, kept f s.2 ∧ (rc = -1 ∧ fails f ∨ rc = 0 ∧ buf_ok s.1 ∧ content s.1 = nf_data f)).
Proof.
  intros He Hio H12 Hmax. set (T := Z.of_nat (length (nf_data f))) in *. assert (∀ b g, kept f g → fails f → wp (cret (-1)) (b, g) (λ rc s, kept f s.2 ∧ (rc = -1 ∧ fails f ∨ rc = 0 ∧ buf_ok s.1 ∧ content s.1 = nf_data f))) as Herr.
  { intros b g Hk Hf. apply wp_ret. split; [done|by left]. }
  unfold sd_schemerecover. apply wp_bind, on_schemefile_wp, filesize_ok; [done|]. intros size f1 Hk1 Ee1 Hsz. destruct (Z.eqb_spec size (-1)) as [Es|Es].
  { apply Herr; [done|right]. destruct Hsz; [lia|tauto]. }
  destruct Hsz as [->|[? _]]; [|done]. fold T. unfold INT_MAX in *. rewrite (wrap_id 32 T), (swrap_id 32 T) by (unfold in_u; cbn; lia).
  destruct (Z.ltb_spec T (Z.of_nat sizeof_sdschemeheader)) as [Hlt|_]; [unfold sizeof_sdschemeheader in Hlt; lia|].
  apply wp_bind, on_schemebuf_wp. eapply wp_mono; [apply (ensure_cap T); [done|split; [by split|change (0 <= 2 * T); lia]|lia|change (0 + T <= T); lia]|].
  intros rc b [(-> & _ & Hr)|(-> & Hcap & Hc & Hroom)]; [apply Herr; [done|by left]|]. cbn [Z.eqb]. assert (b_p b = 0%nat) as Hp by (rewrite <- (content_length b) by apply Hcap; by rewrite Hc).
  apply wp_bind, on_schemefile_wp. eapply wp_mono; [apply openas_ok; by left|]. intros rc f2 [Hk2 Hrc]. assert (kept f f2) as Hk3 by (by trans f1).
  destruct Hrc as [[-> Hf]|(-> & Ee2 & _)]; [apply Herr; [done|]; destruct Hf as [Hf|Hf]; [by left|right; by apply (kept_smooth f f1)]|]. cbn [Z.eqb]. destruct (Hk3) as [Ed3 Hs3]. pose proof (suffix_length _ _ Hs3) as Hl3.
  apply wp_bind, on_schemefile_wp, on_named_wp, wp_run. assert (Z.to_nat T = length (nf_data f)) as ET by lia. rewrite ET.
  destruct (filepread_ok io 0 (length (nf_data f)) (nf_file f2)) as (res & x & E & Edx & _ & Hsx & HE); [unfold nf_answers in *; lia|unfold nf_data in *; rewrite Ed3; lia|lia|].
  exists res, x. split; [exact E|]. assert (kept f (mk_named (nf_exists f2) (nf_open f2) x)) as Hk4 by (split; [by etrans; [exact Edx|]|by etrans; [exact Hsx|]]).
  destruct HE as [->|[-> Hst]]; [|apply Herr; [done|right]; eapply kept_smooth; [exact Hk3|by apply stalls_smooth]]. change (o_data (fl_os (nf_file f2))) with (nf_data f2). rewrite Ed3, drop_0, take_ge by lia.
  assert (fresh_room b (length (nf_data f))) as Hroom' by (by rewrite <- ET). pose proof (copy_advance_ok T b (nf_data f) Hcap Hroom') as Hw.
  apply wp_bind, on_schemebuf_wp. unfold copy_advance, wp, cbind, cget in Hw. rewrite Hp in Hw. unfold wp at 1.
  destruct (buf_copy 0 (nf_data f) b) as [[[] b1]|]; [|done]. apply wp_bind, on_schemefile_wp, close_ok. intros rc f3 Hk5 _ Hrc. assert (kept f f3) as Hk6 by (by etrans; [exact Hk4|]).
  destruct Hrc as [->|[-> Hn]]; [|apply Herr; [done|right]; by apply (kept_smooth _ _ Hk4)]. cbn [Z.eqb]. apply wp_bind, on_schemebuf_wp.
  destruct (ss_bufadvance (length (nf_data f)) b1) as [[[] b2]|] eqn:E2; [|done]. unfold wp at 1. rewrite E2. apply wp_ret. destruct Hw as (Hcap2 & Hc2 & _).
  split; [done|right]. split_and!; [done|apply Hcap2|]. cbn [fst]. by rewrite Hc2, Hc.
Qed.
End file.

(** * Reading the settings *)

Lemma opt_parts b u s w : content b = u ++ setting_enc s ++ w → setting_ok s →
  b_mem b !! length u = Some (sstype_code (st_type s)) ∧ opt_id (length u) b = Some (st_id s) ∧ opt_size (length u) b = Some (Z.of_nat (length (st_value s))) ∧
  mem_at (b_mem b) (length u + sizeof_sdschemeopt) (st_value s).
Proof.
  intros Hc (Hi & _ & Hl). apply scheme_content_at in Hc. unfold setting_enc, opt_head in Hc. apply mem_at_app in Hc as [Hh Hv]. apply mem_at_app in Hh as [Ht Hz].
  rewrite length_app, le_enc_length in Hv. cbn [length] in Hz, Hv. pose proof (mem_at_load8 _ _ _ _ Ht) as E1. apply mem_at_cons in Ht. pose proof (mem_at_load8 _ _ _ _ Ht) as E2.
  rewrite wrap_id in E1 by apply type_byte. rewrite wrap_id in E2 by exact Hi. rewrite wrap_id in Hz by (unfold in_u; lia). split_and!; [done| | |done].
  - unfold opt_id. by rewrite Nat.add_1_r.
  - unfold opt_size. apply load_le_at; [done|]. change (256 ^ Z.of_nat 4) with (2 ^ 32). lia.
Qed.
Lemma opt_is_ok t p b : opt_is t p b = Some () ↔ b_mem b !! p = Some (sstype_code t).
Proof.
  unfold opt_is. destruct (b_mem b !! p) as [c|]; [|by split]. cbn. destruct (Z.eqb_spec c (sstype_code t)) as [->|Hne]; [done|]. split; [done|congruence].
Qed.
Lemma schemeu32_ok b u s w v : content b = u ++ setting_enc s ++ w → setting_ok s → st_type s = SS_U32 → st_value s = le_enc 4 v → is_u32 v → sd_schemeu32 (length u) b = Some v.
Proof.
  intros Hc Hs Ht Ev Hv. destruct (opt_parts b u s w Hc Hs) as (Et & _ & _ & Hat). unfold sd_schemeu32. rewrite Ht in Et. rewrite (proj2 (opt_is_ok _ _ _) Et). cbn [mbind option_bind].
  rewrite Ev in Hat. by apply load_le_at.
Qed.
Lemma schemeu64_ok b u s w v : content b = u ++ setting_enc s ++ w → setting_ok s → st_type s = SS_U64 → st_value s = le_enc 8 v → is_u64 v → sd_schemeu64 (length u) b = Some v.
Proof.
  intros Hc Hs Ht Ev Hv. destruct (opt_parts b u s w Hc Hs) as (Et & _ & _ & Hat). unfold sd_schemeu64. rewrite Ht in Et. rewrite (proj2 (opt_is_ok _ _ _) Et). cbn [mbind option_bind].
  rewrite Ev in Hat. by apply load_le_at.
Qed.
Lemma schemesz_ok b u s w : content b = u ++ setting_enc s ++ w → setting_ok s → st_type s = SS_STRING →
  ∃ q rest, sd_schemesz (length u) b = Some q ∧ drop q (b_mem b) = st_value s ++ rest.
Proof.
  intros Hc Hs Ht. destruct (opt_parts b u s w Hc Hs) as (Et & _ & _ & (l & k & E & Hl)). unfold sd_schemesz. rewrite Ht in Et. rewrite (proj2 (opt_is_ok _ _ _) Et). cbn [mbind option_bind].
  eexists _, k. split; [done|]. by rewrite E, drop_app_length'.
Qed.
Lemma schemeiter_next_ok b u s w : buf_ok b → content b = u ++ setting_enc s ++ w → setting_ok s →
  sd_schemeiter_has (Some (length u)) b = true ∧ sd_schemeiter_next (Some (length u)) b = Some (Some (length (u ++ setting_enc s))).
Proof.
  intros Hok Hc Hs. destruct (opt_parts b u s w Hc Hs) as (_ & _ & Es & _). pose proof (content_length b Hok) as Hl. rewrite Hc, !length_app, setting_enc_length in Hl.
  assert (sd_schemeiter_has (Some (length u)) b = true) as Hh by (apply Nat.ltb_lt; lia). split; [done|]. unfold sd_schemeiter_next. rewrite Hh. cbn [mbind option_bind].
  unfold opt_size in Es. rewrite Es. cbn [mbind option_bind]. rewrite length_app, setting_enc_length. unfold sizeof_sdschemeopt. do 2 f_equal. lia.
Qed.
(** The iterator opens behind the header, if the checksum is that of the rest. *)
Lemma schemeiter_open_ok b : buf_ok b → (12 <= length (content b))%nat →
  sd_schemeiter_open crc32c true b = Some (if Z.eqb (le_dec (take 4 (content b))) (crc32c 0 (drop 4 (content b))) then (0, Some sizeof_sdschemeheader) else (-1, None)).
Proof.
  intros Hok Hl. unfold sd_schemeiter_open. rewrite content_read by done. cbn [mbind option_bind]. unfold load_le, mem_read. rewrite decide_True by lia. cbn. unfold ss_crcs. by destruct (Z.eqb _ _).
Qed.
Lemma file_crc l : Forall setting_ok l → le_dec (take 4 (scheme_file l)) = crc32c 0 (drop 4 (scheme_file l)).
Proof.
  intros Hl. unfold scheme_file. rewrite take_app_length', drop_app_length' by done. apply le_dec_enc. apply (rest_crc l Hl).
Qed.

(** * What the checksum detects *)

Lemma crc_bit_0 x : is_u32 x → crc_bit x = 0 → x = 0.
Proof.
  unfold in_u, crc_bit. intros Hx E%Z.lxor_eq. pose proof (Z.div2_odd x) as Ho. rewrite Z.bit0_odd in E. rewrite <- Z.div2_spec in E. destruct (Z.odd x); cbn [Z.b2z] in Ho; [|lia].
  unfold CRC32C_POLY in E. lia.
Qed.
Lemma crc_bit_u32 x : is_u32 x → is_u32 (crc_bit x).
Proof.
  intros Hx. unfold crc_bit. apply lxor_u32; [|by destruct (Z.testbit x 0)]. unfold in_u in *. rewrite Z.shiftr_div_pow2 by done. split; [apply Z.div_pos; lia|].
  apply Z.div_lt_upper_bound; lia.
Qed.
Lemma zero_bytes_0 n x : is_u32 x → Nat.iter n zero_byte x = 0 → x = 0.
Proof.
  intros Hx. assert (∀ k, is_u32 (Nat.iter k crc_bit x) ∧ (Nat.iter k crc_bit x = 0 → x = 0)) as Hk.
  { induction k as [|k [IH1 IH2]]; [done|]. cbn. split; [by apply crc_bit_u32|]. intros E. by apply IH2, crc_bit_0. }
  assert (∀ m, Nat.iter m zero_byte x = Nat.iter (8 * m) crc_bit x) as ->; [|apply Hk]. clear. intros m. induction m as [|m IH]; [done|].
  replace (8 * S m)%nat with (8 + 8 * m)%nat by lia. rewrite Nat.iter_add. cbn [Nat.iter nat_rect]. unfold Nat.iter in *. cbn. rewrite IH. done.
Qed.
Lemma iter_same n x y : is_u32 x → is_u32 y → Nat.iter n zero_byte x = Nat.iter n zero_byte y → x = y.
Proof.
  intros Hx Hy E. apply Z.lxor_eq, (zero_bytes_0 n); [by apply lxor_u32|]. by rewrite zero_bytes_linear, E, Z.lxor_nilpotent.
Qed.
Lemma lxor_cancel c x y : Z.lxor c x = Z.lxor c y → x = y.
Proof. intros E. apply Z.lxor_eq. assert (Z.lxor c (Z.lxor c x) = Z.lxor c (Z.lxor c y)) as E' by (by f_equal). rewrite <- !Z.lxor_assoc, Z.lxor_nilpotent, !Z.lxor_0_l in E'. by rewrite E', Z.lxor_nilpotent. Qed.
(** Different blocks of at most four bytes between the same bytes have different checksums. *)
Lemma crc_burst c u x y v : is_u32 c → Forall is_byte (u ++ x ++ v) → Forall is_byte y → length x = length y → (length x <= 4)%nat →
  crc32c c (u ++ x ++ v) = crc32c c (u ++ y ++ v) → x = y.
Proof.
  intros Hc [Hu [Hx Hv]%Forall_app]%Forall_app Hy Hl H4 E. unfold crc32c in E. rewrite !foldl_app in E. fold (crc32c c u) in E. pose proof (crc32c_u32 u Hu c Hc) as Hcu.
  set (c1 := crc32c c u) in *. fold (crc32c c1 x) (crc32c c1 y) in E. pose proof (crc32c_u32 x Hx c1 Hcu) as Hcx. pose proof (crc32c_u32 y Hy c1 Hcu) as Hcy.
  assert (crc32c c1 x = crc32c c1 y) as Exy.
  { revert E. clear -Hv Hcx Hcy. generalize dependent (crc32c c1 x). generalize dependent (crc32c c1 y). induction Hv as [|b v Hb _ IH]; intros cy Hy cx Hx E; [done|]. cbn [foldl] in E.
    assert (is_u32 b) by (unfold in_u in *; lia). apply IH in E; [|by apply crc_byte_u32..]. apply (iter_same 1) in E; [|by apply lxor_u32..]. by rewrite !(Z.lxor_comm _ b) in E; apply lxor_cancel in E. }
  rewrite !crc32c_le in Exy by done. rewrite Hl in Exy. assert (∀ z : bytes, Forall is_byte z → (length z <= 4)%nat → is_u32 (le_dec z)) as Hz.
  { intros z Hb Hz. pose proof (le_dec_bound z Hb). assert (256 ^ Z.of_nat (length z) <= 256 ^ 4) by (apply Z.pow_le_mono_r; lia). unfold in_u. change (256 ^ 4) with (2 ^ 32) in *. lia. }
  apply iter_same, lxor_cancel in Exy; [|apply lxor_u32; [done|apply Hz; (done || lia)]..]. rewrite <- (le_enc_dec x), <- (le_enc_dec y) by done. by rewrite Hl, Exy.
Qed.
(** Bytes of a file that are not those that were written, but for at most four next to each other,
    in its checksum or behind it. *)
Inductive damaged (d d' : bytes) : Prop :=
  Damaged u x y v : d = u ++ x ++ v → d' = u ++ y ++ v → length x = length y → (length x <= 4)%nat → x ≠ y → Forall is_byte y →
    (4 <= length u ∨ length u + length x <= 4)%nat → damaged d d'.
Lemma damaged_length d d' : damaged d d' → length d' = length d.
Proof. intros [u x y v -> -> Hl _ _ _ _]. rewrite !length_app. lia. Qed.
Lemma damage_seen d d' : Forall is_byte d → (4 <= length d)%nat → le_dec (take 4 d) = crc32c 0 (drop 4 d) → damaged d d' → le_dec (take 4 d') ≠ crc32c 0 (drop 4 d').
Proof.
  intros Hd H4 E Hdam E'. destruct Hdam as [u x y v -> -> Hl Hx Hne Hy [Hu|Hu]].
  - rewrite !take_app_le, !drop_app_le in * by done. rewrite E in E'. apply Hne. apply (crc_burst 0 (drop 4 u) x y v); try done.
    apply Forall_app in Hd as [Hd1 Hd2]. apply Forall_app. split; [by apply Forall_drop|done].
  - rewrite app_assoc in *. rewrite length_app in H4. apply Forall_app in Hd as [Hd Hv].
    assert (∀ z : bytes, length z = length x → drop 4 ((u ++ z) ++ v) = drop (4 - (length u + length x)) v) as Hdr.
    { intros z Hz. rewrite drop_app_ge; rewrite length_app; [|lia]. f_equal. lia. }
    rewrite Hdr in E' by done. rewrite Hdr in E by done. rewrite <- E in E'. apply Hne.
    assert (∀ z : bytes, length z = length x → Forall is_byte (u ++ z) → take 4 ((u ++ z) ++ v) = le_enc 4 (le_dec (take 4 ((u ++ z) ++ v)))) as Henc.
    { intros z Hz Hb. assert (length (take 4 ((u ++ z) ++ v)) = 4%nat) as H44 by (rewrite length_take, !length_app in *; lia). rewrite <- H44 at 2. rewrite le_enc_dec; [done|].
      apply Forall_take. apply Forall_app. by split. }
    assert (take 4 ((u ++ y) ++ v) = take 4 ((u ++ x) ++ v)) as Et. { pose proof Hd as [Hu' _]%Forall_app. rewrite (Henc y), (Henc x); [by rewrite E'|done|done|done|apply Forall_app; by split]. }
    rewrite !take_app_ge in Et by (rewrite length_app; lia). rewrite <- !app_assoc in Et. apply app_inv_head in Et. rewrite !length_app, <- Hl in Et. by apply app_inv_tail in Et.
Qed.
