(* ===== verification/SiScheme.v ===== *)
(** The settings of an index and their file, si_scheme.h and si_scheme.c. *)
From Stdlib Require Import String.
From stdpp Require Import base list.
From S2P Require Import Prelude Sv SsOrder SsBytes SsCrc SsBuf Sf SrScheme SdBuild SsFile SdScheme.
Local Open Scope Z_scope.
Local Open Scope c_scope.

(** * The settings *)

(** [compression_if]: one of the filters of the library, by its name. *)
Inductive sscompression := COMP_NONE | COMP_LZ4 | COMP_ZSTD.
Definition comp_name (c : sscompression) : bytes :=
  match c with COMP_NONE => c_str "none" | COMP_LZ4 => c_str "lz4" | COMP_ZSTD => c_str "zstd" end.
(** The values of the enumerations [sf] and [sfstorage]. *)
Definition fmt_code (f : sf) : Z := match f with SF_KV => 0 | SF_DOCUMENT => 1 end.
Definition storage_code (f : sfstorage) : Z := match f with SF_SKEYVALUE => 0 | SF_SRAW => 1 end.

(** [struct sischeme] but for [fmt_update]; a string is NULL or has its bytes. *)
Record sischeme := mk_sischeme {
  sc_id : Z; sc_name : option bytes; sc_path : option bytes; sc_path_fail_on_exists : Z; sc_path_fail_on_drop : Z;
  sc_path_backup : option bytes; sc_mmap : Z; sc_sync : Z; sc_node_size : Z; sc_node_page_size : Z; sc_node_page_checksum : Z;
  sc_compression : Z; sc_compression_sz : option bytes; sc_compression_if : sscompression; sc_compression_key : Z;
  sc_fmt_sz : option bytes; sc_fmt : Z; sc_fmt_storage : Z; sc_scheme : srscheme
}.
Definition set_fmt (f : Z) (sz : option bytes) (s : sischeme) : sischeme :=
  mk_sischeme (sc_id s) (sc_name s) (sc_path s) (sc_path_fail_on_exists s) (sc_path_fail_on_drop s) (sc_path_backup s) (sc_mmap s) (sc_sync s)
    (sc_node_size s) (sc_node_page_size s) (sc_node_page_checksum s) (sc_compression s) (sc_compression_sz s) (sc_compression_if s) (sc_compression_key s)
    sz f (sc_fmt_storage s) (sc_scheme s).
Definition set_storage (f : Z) (s : sischeme) : sischeme :=
  mk_sischeme (sc_id s) (sc_name s) (sc_path s) (sc_path_fail_on_exists s) (sc_path_fail_on_drop s) (sc_path_backup s) (sc_mmap s) (sc_sync s)
    (sc_node_size s) (sc_node_page_size s) (sc_node_page_checksum s) (sc_compression s) (sc_compression_sz s) (sc_compression_if s) (sc_compression_key s)
    (sc_fmt_sz s) (sc_fmt s) f (sc_scheme s).
Definition set_scheme (x : srscheme) (s : sischeme) : sischeme :=
  mk_sischeme (sc_id s) (sc_name s) (sc_path s) (sc_path_fail_on_exists s) (sc_path_fail_on_drop s) (sc_path_backup s) (sc_mmap s) (sc_sync s)
    (sc_node_size s) (sc_node_page_size s) (sc_node_page_checksum s) (sc_compression s) (sc_compression_sz s) (sc_compression_if s) (sc_compression_key s)
    (sc_fmt_sz s) (sc_fmt s) (sc_fmt_storage s) x.
Definition set_node (size page : Z) (s : sischeme) : sischeme :=
  mk_sischeme (sc_id s) (sc_name s) (sc_path s) (sc_path_fail_on_exists s) (sc_path_fail_on_drop s) (sc_path_backup s) (sc_mmap s) (sc_sync s)
    size page (sc_node_page_checksum s) (sc_compression s) (sc_compression_sz s) (sc_compression_if s) (sc_compression_key s)
    (sc_fmt_sz s) (sc_fmt s) (sc_fmt_storage s) (sc_scheme s).
Definition set_comp (c : Z) (sz : option bytes) (cif : sscompression) (s : sischeme) : sischeme :=
  mk_sischeme (sc_id s) (sc_name s) (sc_path s) (sc_path_fail_on_exists s) (sc_path_fail_on_drop s) (sc_path_backup s) (sc_mmap s) (sc_sync s)
    (sc_node_size s) (sc_node_page_size s) (sc_node_page_checksum s) c sz cif (sc_compression_key s)
    (sc_fmt_sz s) (sc_fmt s) (sc_fmt_storage s) (sc_scheme s).
Definition set_comp_key (k : Z) (s : sischeme) : sischeme :=
  mk_sischeme (sc_id s) (sc_name s) (sc_path s) (sc_path_fail_on_exists s) (sc_path_fail_on_drop s) (sc_path_backup s) (sc_mmap s) (sc_sync s)
    (sc_node_size s) (sc_node_page_size s) (sc_node_page_checksum s) (sc_compression s) (sc_compression_sz s) (sc_compression_if s) k
    (sc_fmt_sz s) (sc_fmt s) (sc_fmt_storage s) (sc_scheme s).
Definition si_schemefree (s : sischeme) : sischeme :=
  mk_sischeme (sc_id s) None None (sc_path_fail_on_exists s) (sc_path_fail_on_drop s) None (sc_mmap s) (sc_sync s)
    (sc_node_size s) (sc_node_page_size s) (sc_node_page_checksum s) (sc_compression s) None (sc_compression_if s) (sc_compression_key s)
    None (sc_fmt s) (sc_fmt_storage s) (sr_schemefree (sc_scheme s)).

Definition SI_SCHEME_NAME : Z := 1.
Definition SI_SCHEME_FORMAT : Z := 2.
Definition SI_SCHEME_FORMAT_STORAGE : Z := 3.
Definition SI_SCHEME_SCHEME : Z := 4.
Definition SI_SCHEME_NODE_SIZE : Z := 5.
Definition SI_SCHEME_NODE_PAGE_SIZE : Z := 6.
Definition SI_SCHEME_NODE_PAGE_CHECKSUM : Z := 7.
Definition SI_SCHEME_SYNC : Z := 8.
Definition SI_SCHEME_COMPRESSION : Z := 9.
Definition SI_SCHEME_COMPRESSION_KEY : Z := 10.

(** The name of the file: [snprintf] into an array of [PATH_MAX]. *)
Definition PATH_MAX : nat := Z.to_nat 4096.
Definition scheme_path (s : sischeme) : option bytes := p ← sc_path s; Some (take (PATH_MAX - 1) (p ++ c_str "/scheme")).

Section model.
Context `{Alloc} (crcf : Z → bytes → Z) (io : nat).

(** * Writing the file *)

(** The buffer [c], the local variable [buf], which is [None] before it is initialized, and the file. *)
Record deployst := mk_deployst { dp_c : ssbuf; dp_buf : option ssbuf; dp_file : namedfile }.
Definition on_c {A} : cmd ssbuf A → cmd deployst A := lift dp_c (λ c s, mk_deployst c (dp_buf s) (dp_file s)).
Definition on_f {A} : cmd namedfile A → cmd deployst A := lift dp_file (λ f s, mk_deployst (dp_c s) (dp_buf s) f).
(** Using a variable that is not initialized is a fault. *)
Definition on_buf {A} (m : cmd ssbuf A) : cmd deployst A := λ s,
  b ← dp_buf s; '(a, b) ← m b; Some (a, mk_deployst (dp_c s) (Some b) (dp_file s)).
Definition init_buf : cmd deployst () := λ s, Some ((), mk_deployst (dp_c s) (Some ss_bufinit) (dp_file s)).
Definition free_buf : cmd deployst () := on_buf (λ b, Some ((), ss_buffree b)).
Definition free_c : cmd deployst () := on_c (λ b, Some ((), ss_buffree b)).

(** [rc = m; if (rc == -1) goto error;] *)
Definition or_error (m : cmd deployst Z) (k : cmd deployst bool) : cmd deployst bool :=
  let! rc := m in if Z.eqb rc (-1) then cret false else k.
Definition add (id : Z) (t : sstype) (v : bytes) : cmd deployst bool → cmd deployst bool := or_error (on_c (sd_schemeadd id t v)).
Definition add_u32 (id v : Z) : cmd deployst bool → cmd deployst bool := add id SS_U32 (le_enc 4 v).
(** Whether all was added; [false] is the jump to [error]. *)
Definition deploy_add (s : sischeme) (name : bytes) : cmd deployst bool :=
  add SI_SCHEME_NAME SS_STRING (name ++ [0]) (
  init_buf;;;
  or_error (on_buf (sr_schemesave (sc_scheme s))) (
  let! image := on_buf (cread (λ b, Some (content b))) in
  add SI_SCHEME_SCHEME SS_STRING image (
  free_buf;;;
  add_u32 SI_SCHEME_FORMAT (u32 (sc_fmt s)) (
  add_u32 SI_SCHEME_FORMAT_STORAGE (u32 (sc_fmt_storage s)) (
  add SI_SCHEME_NODE_SIZE SS_U64 (le_enc 8 (sc_node_size s)) (
  add_u32 SI_SCHEME_NODE_PAGE_SIZE (sc_node_page_size s) (
  add_u32 SI_SCHEME_NODE_PAGE_CHECKSUM (sc_node_page_checksum s) (
  add_u32 SI_SCHEME_SYNC (sc_sync s) (
  add SI_SCHEME_COMPRESSION SS_STRING (comp_name (sc_compression_if s) ++ [0]) (
  add_u32 SI_SCHEME_COMPRESSION_KEY (sc_compression_key s) (
  cret true))))))))))).
Definition si_schemedeploy (s : sischeme) : cmd namedfile Z := λ f,
  name ← sc_name s;
  path ← scheme_path s;
  '(rc, st) ← (
    let! rc := on_c sd_schemebegin in
    if Z.eqb rc (-1) then cret (-1) else
    let! ok := deploy_add s name in
    if negb ok then free_buf;;; free_c;;; cret (-1) else
    let! rc := on_c (sd_schemecommit crcf) in
    if Z.eqb rc (-1) then cret (-1) else
    let! bs := on_c (cread (λ b, Some (content b))) in
    let! rc := on_f (sd_schemewrite io bs path (c_true (sc_sync s))) in
    free_c;;;
    cret rc) (mk_deployst ss_bufinit None f);
  Some (rc, dp_file st).

(** * Reading it *)

Definition fmt_name (f : Z) : option bytes :=
  if Z.eqb f (fmt_code SF_KV) then Some (c_str "kv") else if Z.eqb f (fmt_code SF_DOCUMENT) then Some (c_str "document") else None.
Definition comp_of (name : bytes) : option sscompression :=
  if Z.eqb (strcmp name (c_str "none")) 0 then Some COMP_NONE
  else if Z.eqb (strcmp name (c_str "lz4")) 0 then Some COMP_LZ4
  else if Z.eqb (strcmp name (c_str "zstd")) 0 then Some COMP_ZSTD
  else None.
(** The setting at [p]; [false] is the jump to [error]. *)
Definition recover_opt (b : ssbuf) (p : nat) : cmd sischeme bool := λ s,
  id ← opt_id p b;
  if Z.eqb id SI_SCHEME_FORMAT then
    f ← sd_schemeu32 p b;
    match fmt_name f with
    | None => Some (false, set_fmt f (sc_fmt_sz s) s)
    | Some name => let sz := ss_strdup name in Some (bool_decide (is_Some sz), set_fmt f sz s)
    end
  else if Z.eqb id SI_SCHEME_FORMAT_STORAGE then
    f ← sd_schemeu32 p b; Some (true, set_storage f s)
  else if Z.eqb id SI_SCHEME_SCHEME then
    q ← sd_schemesz p b;
    '(rc, x) ← sr_schemeload (drop q (b_mem b)) sr_schemeinit;
    Some (negb (Z.eqb rc (-1)), set_scheme x s)
  else if Z.eqb id SI_SCHEME_NODE_SIZE then
    v ← sd_schemeu64 p b; Some (true, set_node v (sc_node_page_size s) s)
  else if Z.eqb id SI_SCHEME_NODE_PAGE_SIZE then
    v ← sd_schemeu32 p b; Some (true, set_node (sc_node_size s) v s)
  else if Z.eqb id SI_SCHEME_COMPRESSION_KEY then
    v ← sd_schemeu32 p b; Some (true, set_comp_key v s)
  else if Z.eqb id SI_SCHEME_COMPRESSION then
    q ← sd_schemesz p b;
    name ← cstr_at q (b_mem b);
    match comp_of name with
    | None => Some (false, s)
    | Some cif =>
        let sz := ss_strdup (comp_name cif) in
        let c := match cif with COMP_NONE => 0 | _ => 1 end in
        Some (bool_decide (is_Some sz), set_comp c sz cif s)
    end
  else Some (true, s).
Definition recover_turn (b : ssbuf) (i : option nat) : cmd sischeme (option nat + bool) :=
  if negb (sd_schemeiter_has i b) then cret (inr true) else
  let! p := cread (λ _, sd_schemeiter_of i b) in
  let! ok := recover_opt b p in
  if negb ok then cret (inr false) else
  let! i := cread (λ _, sd_schemeiter_next i b) in
  cret (inl i).
(** One turn for each byte of the file is enough. *)
Definition si_schemerecover : cmd (sischeme * namedfile) Z := λ '(s, f),
  path ← scheme_path s;
  '(rc, (b, f)) ← sd_schemerecover io path (ss_bufinit, f);
  if Z.eqb rc (-1) then Some (-1, (s, f)) else
  '(rc, i) ← sd_schemeiter_open crcf true b;
  if Z.eqb rc (-1) then Some (-1, (s, f)) else
  '(ok, s) ← cloop (S (b_p b)) (recover_turn b) i s;
  Some (if ok : bool then 0 else -1, (s, f)).
End model.

(** * What the file has to have, and what is read of it *)

Definition settings_of (s : sischeme) (name : bytes) : list setting := [
  mk_setting SI_SCHEME_NAME SS_STRING (name ++ [0]);
  mk_setting SI_SCHEME_SCHEME SS_STRING (scheme_enc (sc_scheme s));
  mk_setting SI_SCHEME_FORMAT SS_U32 (le_enc 4 (sc_fmt s));
  mk_setting SI_SCHEME_FORMAT_STORAGE SS_U32 (le_enc 4 (sc_fmt_storage s));
  mk_setting SI_SCHEME_NODE_SIZE SS_U64 (le_enc 8 (sc_node_size s));
  mk_setting SI_SCHEME_NODE_PAGE_SIZE SS_U32 (le_enc 4 (sc_node_page_size s));
  mk_setting SI_SCHEME_NODE_PAGE_CHECKSUM SS_U32 (le_enc 4 (sc_node_page_checksum s));
  mk_setting SI_SCHEME_SYNC SS_U32 (le_enc 4 (sc_sync s));
  mk_setting SI_SCHEME_COMPRESSION SS_STRING (comp_name (sc_compression_if s) ++ [0]);
  mk_setting SI_SCHEME_COMPRESSION_KEY SS_U32 (le_enc 4 (sc_compression_key s))].
Definition comp_flag (c : sscompression) : Z := match c with COMP_NONE => 0 | _ => 1 end.
(** [s0] with the settings of [s] that are read back. *)
Definition restored (s s0 : sischeme) : sischeme :=
  mk_sischeme (sc_id s0) (sc_name s0) (sc_path s0) (sc_path_fail_on_exists s0) (sc_path_fail_on_drop s0) (sc_path_backup s0) (sc_mmap s0) (sc_sync s0)
    (sc_node_size s) (sc_node_page_size s) (sc_node_page_checksum s0) (comp_flag (sc_compression_if s)) (Some (comp_name (sc_compression_if s))) (sc_compression_if s)
    (sc_compression_key s) (fmt_name (sc_fmt s)) (sc_fmt s) (sc_fmt_storage s) (sc_scheme s).
(** Settings that fit their types, in a file that is not too large. *)
Record sischeme_ok (s : sischeme) (name : bytes) : Prop := {
  so_name : sc_name s = Some name ∧ Forall is_byte name;
  so_path : is_Some (sc_path s);
  so_fmt : is_Some (fmt_name (sc_fmt s));
  so_storage : is_u32 (sc_fmt_storage s);
  so_node : is_u64 (sc_node_size s) ∧ is_u32 (sc_node_page_size s) ∧ is_u32 (sc_node_page_checksum s);
  so_sync : is_u32 (sc_sync s) ∧ is_u32 (sc_compression_key s);
  so_scheme : typed_scheme (sc_scheme s) ∧ Forall is_byte (scheme_enc (sc_scheme s));
  so_size : 4 * (12 + Z.of_nat (length (settings_enc (settings_of s name)))) <= INT_MAX
}.
Lemma fmt_u32 f : is_Some (fmt_name f) → is_u32 f.
Proof. unfold fmt_name, fmt_code, in_u. destruct (Z.eqb_spec f 0); [lia|]. destruct (Z.eqb_spec f 1); [lia|]. by intros []. Qed.
Lemma settings_enc_app l r : settings_enc (l ++ r) = settings_enc l ++ settings_enc r.
Proof. unfold settings_enc. by rewrite fmap_app, concat_app. Qed.
Lemma settings_each l x : x ∈ l → (length (setting_enc x) <= length (settings_enc l))%nat.
Proof. intros (l1 & l2 & ->)%list_elem_of_split. unfold settings_enc. rewrite fmap_app, concat_app, length_app. cbn. rewrite length_app. lia. Qed.
Lemma settings_ok s name : sischeme_ok s name → Forall setting_ok (settings_of s name).
Proof.
  intros Hs. apply Forall_forall. intros x Hx. pose proof (settings_each _ _ Hx) as Hl. rewrite setting_enc_length in Hl. pose proof (so_size _ _ Hs). unfold INT_MAX in *.
  split; [|split; [|lia]]; clear Hl; unfold settings_of in Hx; rewrite !elem_of_cons in Hx; destruct Hx as [->|[->|[->|[->|[->|[->|[->|[->|[->|[->|Hx]]]]]]]]]]; try by apply not_elem_of_nil in Hx.
  1-10: done. all: cbn [st_value]; try apply le_enc_bytes; try apply (so_scheme _ _ Hs).
  - apply Forall_app. split; [apply (so_name _ _ Hs)|by repeat constructor].
  - destruct (sc_compression_if s); by repeat constructor.
Qed.

Section proofs.
Context `{Alloc} (io : nat).
Abbreviation refused := (∃ n, ss_malloc n = None).
Abbreviation fails f := (refused ∨ ¬ smooth (nf_answers f)).

(** ** Writing *)

(** [m] runs from [s] and ends with [Q], unless memory is refused, when it may fault. *)
Definition safe {S A} (m : cmd S A) (s : S) (Q : A → S → Prop) : Prop := match m s with Some (a, s') => Q a s' | None => refused end.
Lemma safe_wp {S A} (m : cmd S A) s (Q : A → S → Prop) : wp m s Q → safe m s Q.
Proof. unfold wp, safe. by destruct (m s) as [[a s']|]. Qed.
Lemma safe_bind {S A B} (m : cmd S A) (k : A → cmd S B) s Q : safe m s (λ a s', safe (k a) s' Q) → safe (cbind m k) s Q.
Proof. unfold safe, cbind. by destruct (m s) as [[a s']|]. Qed.
Lemma safe_mono {S A} (m : cmd S A) s (P Q : A → S → Prop) : safe m s P → (∀ a s', P a s' → Q a s') → safe m s Q.
Proof. unfold safe. destruct (m s) as [[a s']|]; auto. Qed.
Lemma wp_safe_bind {S A B} (m : cmd S A) (k : A → cmd S B) s Q : wp m s (λ a s', safe (k a) s' Q) → safe (cbind m k) s Q.
Proof. intros Hw. by apply safe_bind, safe_wp. Qed.

Lemma on_c_wp {A} (m : cmd ssbuf A) st (Q : A → deployst → Prop) : wp m (dp_c st) (λ a c, Q a (mk_deployst c (dp_buf st) (dp_file st))) → wp (on_c m) st Q.
Proof. unfold wp, on_c, lift. by destruct (m (dp_c st)) as [[a c]|]. Qed.
Lemma on_f_wp {A} (m : cmd namedfile A) st (Q : A → deployst → Prop) : wp m (dp_file st) (λ a f, Q a (mk_deployst (dp_c st) (dp_buf st) f)) → wp (on_f m) st Q.
Proof. unfold wp, on_f, lift. by destruct (m (dp_file st)) as [[a c]|]. Qed.
Lemma on_buf_wp {A} (m : cmd ssbuf A) c b f (Q : A → deployst → Prop) : wp m b (λ a b, Q a (mk_deployst c (Some b) f)) → wp (on_buf m) (mk_deployst c (Some b) f) Q.
Proof. unfold wp, on_buf. cbn. by destruct (m b) as [[a c']|]. Qed.

Section deploy.
Context (s : sischeme) (name : bytes) (f : namedfile) (Hs : sischeme_ok s name).
Definition deploy_size : Z := 12 + Z.of_nat (length (settings_enc (settings_of s name))).
(** After the adding: the file is as before. *)
Definition added (ok : bool) (st : deployst) : Prop :=
  dp_file st = f ∧ (ok = false ∧ refused ∨ ok = true ∧ making deploy_size (dp_c st) (settings_of s name)).
Lemma add_safe l x r k c ob : settings_of s name = l ++ x :: r → making deploy_size c l →
  (∀ c, making deploy_size c (l ++ [x]) → safe k (mk_deployst c ob f) added) → safe (add (st_id x) (st_type x) (st_value x) k) (mk_deployst c ob f) added.
Proof.
  intros E Hm Hk. pose proof (settings_ok s name Hs) as Hok. rewrite E in Hok. apply Forall_app in Hok as [_ [Hx _]%Forall_cons].
  apply wp_safe_bind, on_c_wp. eapply wp_mono; [apply (schemeadd_ok deploy_size); [apply (so_size _ _ Hs)|done|done|]|].
  { unfold deploy_size. rewrite E. change (x :: r) with ([x] ++ r). rewrite app_assoc, (settings_enc_app (l ++ [x])), length_app. lia. }
  intros rc c' [[-> Hr]|[-> Hm']]; cbn [Z.eqb]; [apply safe_wp, wp_ret; split; [done|by left]|by apply Hk].
Qed.
Lemma adds_safe r : ∀ l c ob, settings_of s name = l ++ r → making deploy_size c l →
  safe (foldr (λ x k, add (st_id x) (st_type x) (st_value x) k) (cret true) r) (mk_deployst c ob f) added.
Proof.
  induction r as [|x r IH]; intros l c ob E Hm; [rewrite app_nil_r in E; apply safe_wp, wp_ret; split; [done|right]; by rewrite E|].
  cbn [foldr]. apply (add_safe l x r); [done|done|]. intros c' Hm'. apply (IH (l ++ [x])); [by rewrite <- app_assoc|done].
Qed.
Lemma deploy_add_ok c : making deploy_size c [] → safe (deploy_add s name) (mk_deployst c None f) added.
Proof.
  intros Hm. pose proof (so_size _ _ Hs) as Hsz. destruct (so_scheme _ _ Hs) as [Ht Hb]. apply (add_safe [] (mk_setting SI_SCHEME_NAME SS_STRING (name ++ [0])) (tail (settings_of s name))); [done|done|].
  intros c1 Hm1. apply wp_safe_bind. unfold init_buf, wp at 1. cbn [dp_c dp_file]. apply wp_safe_bind, on_buf_wp.
  set (x := mk_setting SI_SCHEME_SCHEME SS_STRING (scheme_enc (sc_scheme s))). assert (x ∈ settings_of s name) as Hx by (unfold settings_of; right; left). apply settings_each in Hx. rewrite setting_enc_length in Hx. cbn [x st_value] in Hx.
  eapply wp_mono; [apply (schemesave_ok deploy_size); [done|done|split; [by split|unfold deploy_size; change (0 <= 2 * (12 + Z.of_nat (length (settings_enc (settings_of s name))))); lia]|]|].
  { change (ss_bufused ss_bufinit) with 0. unfold deploy_size. lia. }
  intros rc b [[-> Hr]|[-> Hc]]; cbn [Z.eqb]; [apply safe_wp, wp_ret; split; [done|by left]|]. apply wp_safe_bind, on_buf_wp. unfold cread, wp at 1. rewrite Hc.
  apply (add_safe [mk_setting SI_SCHEME_NAME SS_STRING (name ++ [0])] x (drop 2 (settings_of s name))); [done|done|]. intros c2 Hm2.
  apply wp_safe_bind, on_buf_wp. unfold wp at 1. rewrite !wrap_id by (apply fmt_u32, (so_fmt _ _ Hs) || apply (so_storage _ _ Hs)).
  exact (adds_safe (drop 2 (settings_of s name)) (take 2 (settings_of s name)) c2 _ eq_refl Hm2).
Qed.
Lemma deploy_run p : sc_path s = Some p → (length (nf_answers f) < io)%nat →
  safe (si_schemedeploy crc32c io s) f (λ rc f', rc = -1 ∧ fails f ∨ rc = 0 ∧ nf_exists f' = true ∧ nf_data f' = overwrite 0 (scheme_file (settings_of s name)) (nf_data f)).
Proof.
  intros Hp Hio. unfold si_schemedeploy, scheme_path. rewrite (proj1 (so_name _ _ Hs)), Hp. cbn [mbind option_bind]. set (path := take _ _). set (m := cbind (on_c sd_schemebegin) _).
  assert (safe m (mk_deployst ss_bufinit None f) (λ rc st, rc = -1 ∧ fails f ∨ rc = 0 ∧ nf_exists (dp_file st) = true ∧ nf_data (dp_file st) = overwrite 0 (scheme_file (settings_of s name)) (nf_data f))) as Hm.
  2: { unfold safe in *. clearbody m. clear -Hm. destruct (m _) as [[rc st]|]; exact Hm. }
  subst m. apply wp_safe_bind, on_c_wp. eapply wp_mono; [apply (schemebegin_ok deploy_size); [apply (so_size _ _ Hs)|unfold deploy_size; lia]|].
  intros rc c [[-> Hr]|[-> Hm]]; cbn [Z.eqb]; [apply safe_wp, wp_ret; left; split; [done|by left]|]. apply safe_bind. eapply safe_mono; [by apply deploy_add_ok|].
  intros ok st [Hf [[-> Hr]|[-> Hm']]]; cbn [negb].
  { unfold safe. destruct (cbind free_buf _ st) as [[rc' st']|] eqn:E; [|done]. unfold cbind in E. destruct (free_buf st) as [[[] st1]|]; [|done]. destruct (free_c st1) as [[[] st2]|]; [|done].
    injection E as <- _. left. split; [done|by left]. }
  apply wp_safe_bind, on_c_wp. eapply wp_mono; [apply (schemecommit_ok deploy_size); [apply (so_size _ _ Hs)|done|by apply settings_ok]|]. intros rc c' (-> & Hcap & Hc). cbn [Z.eqb].
  apply wp_safe_bind, on_c_wp. unfold cread, wp at 1. cbn [dp_c]. rewrite Hc. apply wp_safe_bind, on_f_wp. cbn [dp_c dp_buf dp_file]. rewrite Hf.
  eapply wp_mono; [apply schemewrite_ok; [|done]|]. { intros E. apply (f_equal length) in E. rewrite scheme_file_length in E. done. }
  intros rc f' [_ Hrc]. apply wp_safe_bind, on_c_wp. unfold wp at 1. apply safe_wp, wp_ret. exact Hrc.
Qed.
End deploy.

(** ** Reading *)

(** The setting [x] does [e] to the settings, wherever in a buffer it is. *)
Definition recover_effect (x : setting) (e : sischeme → sischeme) : Prop := ∀ b u w s0, content b = u ++ setting_enc x ++ w →
  wp (recover_opt b (length u)) s0 (λ ok s1, ok = false ∧ refused ∨ ok = true ∧ s1 = e s0).
Lemma settings_loop b xs es n : buf_ok b → Forall setting_ok xs → Forall2 recover_effect xs es → (length xs < n)%nat → ∀ u s0, content b = u ++ settings_enc xs →
  wp (cloop n (recover_turn b) (Some (length u))) s0 (λ ok s1, ok = false ∧ refused ∨ ok = true ∧ s1 = foldl (λ s e, e s) s0 es).
Proof.
  intros Hb Hxs He. revert Hxs n. induction He as [|x e xs es Hx _ IH]; intros Hxs [|n] Hn u s0 Hc; try (cbn in Hn; lia).
  - rewrite app_nil_r in Hc. unfold wp. rewrite cloop_S. unfold recover_turn. assert (sd_schemeiter_has (Some (length u)) b = false) as ->.
    { apply Nat.ltb_ge. rewrite <- Hc, content_length by done. done. }
    cbn. by right.
  - apply Forall_cons in Hxs as [Hx1 Hxs]. change (settings_enc (x :: xs)) with (setting_enc x ++ settings_enc xs) in Hc. destruct (schemeiter_next_ok b u x _ Hb Hc Hx1) as [Hh Hnx].
    specialize (Hx b u _ s0 Hc). unfold wp in Hx |- *. rewrite cloop_S. unfold recover_turn at 1, sd_schemeiter_of. rewrite Hh. cbn [negb]. unfold cbind at 1, cread. unfold cbind at 1.
    destruct (recover_opt b (length u) s0) as [[ok s1]|]; [|done]. destruct Hx as [[-> Hr]|[-> ->]]; [by left|]. cbn [negb]. unfold cbind at 1. rewrite Hnx. unfold cret at 1.
    cbn [length] in Hn. apply IH; [done|lia|]. by rewrite <- app_assoc.
Qed.

(** Which branch of the switch is taken. *)
Ltac at_setting Hid := unfold recover_opt; rewrite Hid; cbn [mbind option_bind st_id]; unfold SI_SCHEME_NAME, SI_SCHEME_FORMAT, SI_SCHEME_FORMAT_STORAGE, SI_SCHEME_SCHEME, SI_SCHEME_NODE_SIZE,
  SI_SCHEME_NODE_PAGE_SIZE, SI_SCHEME_NODE_PAGE_CHECKSUM, SI_SCHEME_SYNC, SI_SCHEME_COMPRESSION, SI_SCHEME_COMPRESSION_KEY; cbn [Z.eqb Pos.eqb].
Lemma strdup_ok str : ss_strdup str = Some str ∨ ss_strdup str = None ∧ refused.
Proof. unfold ss_strdup. destruct (ss_malloc _) eqn:E; [by left|right]. split; [done|by eexists]. Qed.

Section effects.
Context (s : sischeme) (name : bytes) (Hs : sischeme_ok s name).
Definition effects_of : list (sischeme → sischeme) := [
  λ x, x; set_scheme (sc_scheme s); set_fmt (sc_fmt s) (fmt_name (sc_fmt s)); set_storage (sc_fmt_storage s);
  λ x, set_node (sc_node_size s) (sc_node_page_size x) x; λ x, set_node (sc_node_size x) (sc_node_page_size s) x; λ x, x; λ x, x;
  set_comp (comp_flag (sc_compression_if s)) (Some (comp_name (sc_compression_if s))) (sc_compression_if s); set_comp_key (sc_compression_key s)].
Lemma effects_restored s0 : foldl (λ s e, e s) s0 effects_of = restored s s0.
Proof. reflexivity. Qed.
Lemma fmt_effect x : setting_ok x → x = mk_setting SI_SCHEME_FORMAT SS_U32 (le_enc 4 (sc_fmt s)) → recover_effect x (set_fmt (sc_fmt s) (fmt_name (sc_fmt s))).
Proof.
  intros Hx -> b u w s0 Hc. destruct (opt_parts b u _ w Hc Hx) as (_ & Hid & _). unfold wp. at_setting Hid.
  rewrite (schemeu32_ok b u _ w _ Hc Hx eq_refl eq_refl (fmt_u32 _ (so_fmt _ _ Hs))). cbn [mbind option_bind]. destruct (so_fmt _ _ Hs) as [fn ->].
  destruct (strdup_ok fn) as [->|[-> Hr]]; [by right|by left].
Qed.
Lemma scheme_effect x : setting_ok x → x = mk_setting SI_SCHEME_SCHEME SS_STRING (scheme_enc (sc_scheme s)) → recover_effect x (set_scheme (sc_scheme s)).
Proof.
  intros Hx -> b u w s0 Hc. destruct (opt_parts b u _ w Hc Hx) as (_ & Hid & _). unfold wp. at_setting Hid.
  destruct (schemesz_ok b u _ w Hc Hx eq_refl) as (q & rest & -> & Hdr). cbn [mbind option_bind st_value] in *. rewrite Hdr. destruct (so_scheme _ _ Hs) as [Ht _].
  assert (Z.of_nat (length (scheme_enc (sc_scheme s))) <= INT_MAX) as Hl.
  { pose proof (so_size _ _ Hs). assert (mk_setting SI_SCHEME_SCHEME SS_STRING (scheme_enc (sc_scheme s)) ∈ settings_of s name) as Hin by (right; left). apply settings_each in Hin. rewrite setting_enc_length in Hin. cbn [st_value] in Hin. lia. }
  pose proof (schemeload_ok (sc_scheme s) rest Ht Hl) as Hw. unfold wp in Hw. destruct (sr_schemeload _ _) as [[rc x]|]; [|done]. cbn [mbind option_bind].
  destruct Hw as [(-> & _ & Hr)|[-> ->]]; cbn; [by left|by right].
Qed.
Lemma comp_effect x : setting_ok x → x = mk_setting SI_SCHEME_COMPRESSION SS_STRING (comp_name (sc_compression_if s) ++ [0]) →
  recover_effect x (set_comp (comp_flag (sc_compression_if s)) (Some (comp_name (sc_compression_if s))) (sc_compression_if s)).
Proof.
  intros Hx -> b u w s0 Hc. destruct (opt_parts b u _ w Hc Hx) as (_ & Hid & _). unfold wp. at_setting Hid.
  destruct (schemesz_ok b u _ w Hc Hx eq_refl) as (q & rest & -> & Hdr). cbn [mbind option_bind st_value] in *. unfold cstr_at. rewrite Hdr, <- app_assoc.
  assert (no_zero (comp_name (sc_compression_if s))) as Hz by (destruct (sc_compression_if s); by repeat constructor). cbn [app]. rewrite cstr_ok by done. cbn [mbind option_bind].
  assert (comp_of (comp_name (sc_compression_if s)) = Some (sc_compression_if s)) as -> by (by destruct (sc_compression_if s)).
  destruct (strdup_ok (comp_name (sc_compression_if s))) as [->|[-> Hr]]; [by right|by left].
Qed.
Lemma u32_effect x v (e : sischeme → sischeme) : setting_ok x → st_type x = SS_U32 → st_value x = le_enc 4 v → is_u32 v →
  (∀ b p s0, opt_id p b = Some (st_id x) → sd_schemeu32 p b = Some v → recover_opt b p s0 = Some (true, e s0)) → recover_effect x e.
Proof.
  intros Hx Ht Ev Hv He b u w s0 Hc. destruct (opt_parts b u _ w Hc Hx) as (_ & Hid & _). unfold wp. rewrite (He b (length u) s0 Hid); [by right|]. by eapply schemeu32_ok.
Qed.
Lemma effects_ok : Forall2 recover_effect (settings_of s name) effects_of.
Proof.
  pose proof (settings_ok s name Hs) as Hok. unfold settings_of in Hok |- *. rewrite !Forall_cons in Hok. destruct Hok as (K1 & K2 & K3 & K4 & K5 & K6 & K7 & K8 & K9 & K10 & _).
  destruct (so_node _ _ Hs) as (N1 & N2 & N3). destruct (so_sync _ _ Hs) as [N4 N5].
  repeat constructor.
  - intros b u w s0 Hc. destruct (opt_parts b u _ w Hc K1) as (_ & Hid & _). unfold wp. at_setting Hid. by right.
  - by apply scheme_effect.
  - by apply fmt_effect.
  - eapply u32_effect; [done..|apply (so_storage _ _ Hs)|]. intros b p s0 Hid E. at_setting Hid. by rewrite E.
  - intros b u w s0 Hc. destruct (opt_parts b u _ w Hc K5) as (_ & Hid & _). unfold wp. at_setting Hid. rewrite (schemeu64_ok b u _ w _ Hc K5 eq_refl eq_refl N1). by right.
  - eapply u32_effect; [done..|exact N2|]. intros b p s0 Hid E. at_setting Hid. by rewrite E.
  - eapply u32_effect; [done..|exact N3|]. intros b p s0 Hid E. by at_setting Hid.
  - eapply u32_effect; [done..|exact N4|]. intros b p s0 Hid E. by at_setting Hid.
  - by apply comp_effect.
  - eapply u32_effect; [done..|exact N5|]. intros b p s0 Hid E. at_setting Hid. by rewrite E.
Qed.
(** The file with these settings, read back into any others. *)
Lemma recover_run s0 f : is_Some (sc_path s0) → nf_exists f = true → nf_data f = scheme_file (settings_of s name) → (length (nf_answers f) < io)%nat →
  ∃ rc s1 f', si_schemerecover crc32c io (s0, f) = Some (rc, (s1, f')) ∧ nf_data f' = nf_data f ∧ (rc = -1 ∧ fails f ∨ rc = 0 ∧ s1 = restored s s0).
Proof.
  intros [p Hp] He Hd Hio. pose proof (settings_ok s name Hs) as Hok. pose proof (so_size _ _ Hs) as Hsz. unfold si_schemerecover, scheme_path. rewrite Hp. cbn [mbind option_bind].
  pose proof (schemerecover_ok io (take (PATH_MAX - 1) (p ++ c_str "/scheme")) f He Hio) as Hw. rewrite Hd, scheme_file_length in Hw. specialize (Hw ltac:(lia) ltac:(lia)). unfold wp in Hw.
  destruct (sd_schemerecover _ _ _) as [[rc [b f']]|]; [|done]. cbn [mbind option_bind fst snd] in Hw |- *. destruct Hw as [[Ed _] [[-> Hf]|(-> & Hb & Hc)]].
  { eexists _, _, _. split; [reflexivity|]. split; [exact Ed|by left]. }
  cbn [Z.eqb]. rewrite schemeiter_open_ok by (rewrite ?Hc, ?scheme_file_length; (done || lia)). rewrite Hc, file_crc, Z.eqb_refl by done. cbn [mbind option_bind Z.eqb].
  rewrite scheme_file_head in Hc. pose proof (settings_count (settings_of s name)) as Hn. pose proof (content_length b Hb) as Hl. rewrite Hc, length_app, scheme_head_length in Hl.
  pose proof (settings_loop b (settings_of s name) effects_of (S (b_p b)) Hb Hok effects_ok ltac:(lia) _ s0 Hc) as Hw. rewrite effects_restored in Hw. rewrite scheme_head_length in Hw. unfold wp in Hw.
  change sizeof_sdschemeheader with 12%nat. destruct (cloop _ _ _ _) as [[ok s1]|]; [|done]. cbn [mbind option_bind]. eexists _, _, _. split; [reflexivity|]. split; [exact Ed|].
  destruct Hw as [[-> Hr]|[-> ->]]; [left; split; [done|by left]|by right].
Qed.
End effects.
End proofs.

(** * Properties *)

Lemma overwrite_all d old : (length old <= length d)%nat → overwrite 0 d old = d.
Proof. intros Hl. unfold overwrite. rewrite drop_ge, app_nil_r by (cbn; lia). done. Qed.

(** C33: damage to the file is noticed: when up to four bytes next to each other are not those that
    were deployed, in the checksum or behind it, [si_schemerecover] answers -1 and leaves the
    settings as they were, whatever the bytes are now. *)
Theorem si_schemerecover_detects `{Alloc} io s name s0 g : sischeme_ok s name → is_Some (sc_path s0) → nf_exists g = true → damaged (scheme_file (settings_of s name)) (nf_data g) →
  (length (nf_answers g) < io)%nat → ∃ g', si_schemerecover crc32c io (s0, g) = Some (-1, (s0, g')) ∧ nf_data g' = nf_data g.
Proof.
  intros Hs [p Hp] He Hdam Hio. pose proof (settings_ok s name Hs) as Hok. pose proof (so_size _ _ Hs) as Hsz. pose proof (damaged_length _ _ Hdam) as Hlen. rewrite scheme_file_length in Hlen.
  unfold si_schemerecover, scheme_path. rewrite Hp. cbn [mbind option_bind].
  pose proof (schemerecover_ok io (take (PATH_MAX - 1) (p ++ c_str "/scheme")) g He Hio ltac:(lia) ltac:(lia)) as Hw. unfold wp in Hw.
  destruct (sd_schemerecover _ _ _) as [[rc [b f']]|]; [|done]. cbn [mbind option_bind fst snd] in Hw |- *. destruct Hw as [[Ed _] [[-> Hf]|(-> & Hb & Hc)]]; [by eexists|].
  cbn [Z.eqb]. rewrite schemeiter_open_ok by (rewrite ?Hc; (done || lia)). rewrite Hc. pose proof (damage_seen _ _ (Forall_app_2 _ _ _ (le_enc_bytes 4 _) (rest_bytes _ Hok)) ltac:(rewrite length_app, le_enc_length; lia) (file_crc _ Hok) Hdam) as Hne.
  apply Z.eqb_neq in Hne. rewrite Hne. cbn [mbind option_bind Z.eqb]. by eexists.
Qed.
Lemma begin_exact `{Alloc} blk : ss_malloc sizeof_sdschemeheader = Some blk → sd_schemebegin ss_bufinit = Some (0, mk_buf None SHeap (replicate sizeof_sdschemeheader 0) sizeof_sdschemeheader).
Proof.
  intros Hm. pose proof (ss_malloc_length _ _ Hm) as Hl. do 12 (destruct blk as [|? blk]; [done|]). destruct blk; [|done].
  change sizeof_sdschemeheader with 12%nat in *. cbv -[ss_malloc]. rewrite Hm. reflexivity.
Qed.
Lemma grow_refused `{Alloc} l : ss_malloc 24 = None → length l = sizeof_sdschemeopt → let b := mk_buf None SHeap (replicate sizeof_sdschemeheader 0) sizeof_sdschemeheader in ss_bufadd l b = Some (-1, b).
Proof. intros Hno Hl. do 6 (destruct l as [|? l]; [done|]). destruct l; [|done]. cbv -[ss_malloc]. by rewrite Hno. Qed.
(** When the buffer gets the memory of its header but may not grow, the jump to the error handler
    passes the initialization of [buf], which the handler frees: undefined behaviour. *)
Theorem si_schemedeploy_uninit `{Alloc} io s f name blk : sc_name s = Some name → is_Some (sc_path s) → ss_malloc sizeof_sdschemeheader = Some blk → ss_malloc (2 * sizeof_sdschemeheader) = None →
  si_schemedeploy crc32c io s f = None.
Proof.
  intros Hn [p Hp] Hm Hno. unfold si_schemedeploy, scheme_path. rewrite Hn, Hp. cbn [mbind option_bind]. unfold cbind at 1, on_c, lift. cbn [dp_c]. rewrite (begin_exact blk Hm). cbn [Z.eqb].
  assert (∀ k st, dp_c st = mk_buf None SHeap (replicate sizeof_sdschemeheader 0) sizeof_sdschemeheader → add SI_SCHEME_NAME SS_STRING (name ++ [0]) k st = Some (false, st)) as Hadd.
  { intros k [c b g] Hc. cbn [dp_c] in Hc. subst c. unfold add, or_error, cbind, on_c, lift. cbn [dp_c]. unfold sd_schemeadd, cbind. rewrite grow_refused; [done|exact Hno|reflexivity]. }
  unfold deploy_add. unfold cbind at 1. rewrite Hadd by done. reflexivity.
Qed.

(** ** Witnesses *)

Definition demo_sischeme : sischeme :=
  mk_sischeme 7 (Some (c_str "test")) (Some (c_str "db")) 0 0 None 0 1 1000 100 1 1 None COMP_LZ4 1 (Some (c_str "kv")) 0 1 demo_scheme.
(** What the database is opened with later. *)
Definition demo_defaults : sischeme :=
  mk_sischeme 7 (Some (c_str "test")) (Some (c_str "db")) 0 0 None 0 0 0 0 0 0 None COMP_NONE 0 None 1 0 sr_schemeinit.
Definition demo_named (e : bool) (d : bytes) (l : list answer) : namedfile := mk_named e false (mk_file 0 (mk_os d 0 l)).
Lemma demo_sischeme_ok : sischeme_ok demo_sischeme (c_str "test").
Proof.
  split; [split; [done|by repeat constructor]|by eexists|by eexists|done|done|done|split; [exact demo_typed|vm_compute; by repeat constructor]|by vm_compute].
Qed.
(** The number of settings, in the header, is another one. *)
Definition demo_damaged : bytes := <[8%nat := 11]> (scheme_file (settings_of demo_sischeme (c_str "test"))).
Lemma si_schemerecover_detects_witness : ∃ g', si_schemerecover (H := demo_alloc) crc32c 5 (demo_defaults, demo_named true demo_damaged []) = Some (-1, (demo_defaults, g')).
Proof.
  destruct (si_schemerecover_detects (H := demo_alloc) 5 demo_sischeme (c_str "test") demo_defaults (demo_named true demo_damaged [])) as (g' & E & _).
  - exact demo_sischeme_ok.
  - by eexists.
  - reflexivity.
  - set (d := scheme_file (settings_of demo_sischeme (c_str "test"))). apply (Damaged _ _ (take 8 d) [10] [11] (drop 9 d)); [vm_compute; reflexivity|vm_compute; reflexivity|reflexivity|cbn; lia|done|by repeat constructor|left]. vm_compute. lia.
  - cbn. lia.
  - by exists g'.
Defined.
Definition tight_malloc (n : nat) : option bytes := if decide (n <= sizeof_sdschemeheader)%nat then Some (replicate n 0) else None.
Lemma tight_malloc_length n b : tight_malloc n = Some b → length b = n.
Proof. unfold tight_malloc. case_decide; [|done]. intros [= <-]. apply length_replicate. Qed.
Definition tight_alloc : Alloc := {| ss_malloc := tight_malloc; ss_malloc_length := tight_malloc_length |}.
Lemma si_schemedeploy_uninit_witness : si_schemedeploy (H := tight_alloc) crc32c 5 demo_sischeme (demo_named false [] []) = None.
Proof.
  apply (si_schemedeploy_uninit (H := tight_alloc) 5 demo_sischeme (demo_named false [] []) (c_str "test") (replicate sizeof_sdschemeheader 0)).
  - reflexivity.
  - by eexists.
  - reflexivity.
  - reflexivity.
Defined.
(** [open] without [O_TRUNC]: over a longer file, deploying succeeds and what is then read is
    refused. *)
Example deploy_over_longer : let f := demo_named true (replicate 200 0) [] in
  (si_schemedeploy (H := demo_alloc) crc32c 5 demo_sischeme f ≫= λ '(rc, f'), '(rc', _) ← si_schemerecover (H := demo_alloc) crc32c 5 (demo_defaults, f'); Some (rc, rc')) = Some (0, -1).
Proof. vm_compute. reflexivity. Qed.
